(* ===== verification/_CoqProject ===== *)
-Q . S2P
Prelude.v
JsNumber.v
JsText.v
JsNumberFacts.v
JsIntegers.v
Types.v
Parser.v
ParserFacts.v
Compile.v
CompileFacts.v
Runtime.v
RuntimeFacts.v
RuntimeTheorems.v
Structure.v
Display.v
Visual.v
VisualFacts.v
DisplayFacts.v
JsRegex.v
JsRegexFacts.v
BillingExpr.v
BillingExprFacts.v
RuleRoundTrip.v
TaskDisplay.v
TaskDisplayFacts.v
ConditionDisplay.v
TaskExpr.v
TierExpr.v
BreakdownMatch.v
PluginPricing.v
JsMap.v
JsValue.v
FlowPath.v
FlowGraph.v
FlowData.v
FlowFacts.v
FlowTheorems.v
JsObject.v
Script.v
ServerError.v
ServerErrorFacts.v
Passkey.v
OAuthPopup.v
OAuthPopupFacts.v
OAuthCallback.v
OAuthCallbackFacts.v
Verification.v
VerificationFacts.v
AdvancedCustom.v
AdvancedCustomFacts.v
AdvancedCustomTheorems.v
ModelMapping.v
ModelMappingFacts.v
PriceFormat.v
DynamicPrice.v
DynamicPriceFacts.v
ModelCatalogue.v
ChannelForm.v
StatusRules.v
AuthSession.v
AuthTabs.v
AuthSessionFacts.v
AuthTheorems.v
PasswordEncryption.v
PasswordEncryptionFacts.v
VerifyApi.v
VerifyApiFacts.v
OAuthLogin.v
OAuthLoginFacts.v
HttpClient.v
HttpClientFacts.v
HttpClientTheorems.v
ChatMessage.v
ChatMessageFacts.v
ChatStream.v
ChatHandler.v
ChatFacts.v
ChatReplyFacts.v
ChatTheorems.v
ChatStorage.v
