(* ===== verification/Prelude.v ===== *)
(** * new-api web console: core logic, verified

    The repository is an AI gateway: a Go server and a TypeScript console
    (src/web/src). This development models the parts of the console that
    compute: the billing-expression language with which prices are written,
    shown, edited and simulated (features/pricing/lib), the login session of
    the browser (lib/auth-session.ts) and the HTTP client over it
    (lib/http-client.ts), what is shown of failed requests, the popup of a
    sign-in with another provider and the verification dialog (features/auth),
    the usage flow graph of the dashboard (features/dashboard/lib/flow.ts), the
    form, routes, mappings and status rules of a channel
    (features/channels/lib), the prices and filters of the model square
    (features/pricing/lib, lib/currency.ts) and the playground chat
    (features/playground). It is a shallow embedding: one Rocq definition per
    function of the source, in the order of the source, with the source's names.

    ** Parts

    The expression language, features/pricing/lib/billing-expression/:
    - Types: types.ts, the syntax tree, its explicit-stack traversal
      [visitExpression], dependencies, diagnostics.
    - Parser, ParserFacts: parser.ts up to [BillingParser], a lexer on UTF-16
      code units and a precedence-climbing parser as a state-and-error monad.
    - Compile, CompileFacts: the rest of parser.ts, type check, fixed-price
      validation, request rules, the bounded cache of compiled expressions.
    - Runtime, RuntimeFacts, RuntimeTheorems: runtime.ts, the interpreter with its
      state (matched rules, tier, unit, fixed price, cached zone times).
    - Structure: structure.ts, splitting a text outside of brackets and strings.
    - Display, DisplayFacts: display.ts, chains of token tiers.
    - TaskDisplay, TaskDisplayFacts: task-display.ts, the table of task prices
      by symbolic execution.
    - Visual, VisualFacts: visual.ts, the editor document and its patches.
    - ConditionDisplay: condition-display.ts.
    Its clients in features/pricing/lib/:
    - BillingExpr, BillingExprFacts, RuleRoundTrip: billing-expr.ts, request
      rules read from text and written to it. Its regular expressions are
      values of JsRegex, with the matching lemmas of JsRegexFacts.
    - TaskExpr, TierExpr, BreakdownMatch, PluginPricing: task-expr.ts,
      tier-expr.ts, breakdown-tier-match.ts, plugin-pricing.ts.
    The model square, which shows what models cost:
    - PriceFormat: lib/currency.ts, price.ts and model-helpers.ts, amounts in a
      display currency and the groups a model is offered to.
    - DynamicPrice, DynamicPriceFacts: dynamic-price.ts, task-matrix-display.ts
      and billing-mode.ts, the entries and ranges of an expression's prices.
    - ModelCatalogue: filters.ts, task-price-display.ts and
      lib/localized-text.ts, what is found, in which order, and its table.
    The session:
    - AuthSession: lib/auth-session.ts, stores/auth-store.ts and
      lib/session-hint.ts. A tab is a record of its store, epoch, refresh in
      flight and logs of effects; a refresh is suspended data ([RefreshPhase])
      resumed by [advance].
    - AuthTabs: lib/auth-session-sync.ts and the listener of
      routes/__root.tsx; [step] and [exec] interleave every action of a tab
      with the signals of its refresh.
    - AuthSessionFacts, AuthTheorems: invariant, rank and theorems.
    - HttpClient, HttpClientFacts, HttpClientTheorems: lib/http-client.ts, the
      calls of a page over the session of its tab; [client_step] interleaves
      requests, answers and the events of the session.
    Errors and verification:
    - ServerError, ServerErrorFacts: lib/server-error-message.ts,
      secure-verification.ts and handle-server-error.ts, on a heap of errors
      that wrap each other; [ErrorSource] is what the others need of it.
    - Passkey: lib/passkey.ts, the texts and bytes of WebAuthn
      credentials.
    - Script: async functions as trees of calls, run against an environment
      that answers in any way; [meets] is what every run satisfies.
    - PasswordEncryption, PasswordEncryptionFacts: features/auth/lib/
      password-encryption.ts, the ciphers being the environment.
    - VerifyApi, VerifyApiFacts: features/auth/secure-verification/api.ts,
      passkey/assertion.ts and lib/oauth.ts, the verifications by each method as
      scripts.
    - OAuthPopup, OAuthPopupFacts: features/auth/lib/oauth-popup.ts,
      oauth-bind-window.ts and oauth-callback-mode.ts, the attempt of the opener
      as a state machine ([popup_step]).
    - OAuthCallback, OAuthCallbackFacts: routes/oauth/$provider.tsx and
      lib/auth-redirect.ts, the page in the popup; [flow_step] interleaves the
      two windows, the provider and what other windows post.
    - OAuthLogin, OAuthLoginFacts: the same page without an opener, and
      hooks/use-auth-redirect.ts; [login_step] interleaves the runs of its effect
      with answers, navigations and the actions of the session.
    - Verification, VerificationFacts: features/auth/secure-verification, the
      dialog that asks for a further verification; [hook_step] takes user
      actions, renders and the ends of what is awaited in any order.
    The usage flow graph, features/dashboard/lib/flow.ts:
    - FlowPath: rows to paths, filters, the top nodes of each stage.
    - FlowGraph: nodes, links, colours, highlights, masking.
    - FlowData: the summary, the filter options, the chart links and the
      selection of a click.
    - FlowFacts, FlowTheorems: conservation and balance of the values.
    Channels, features/channels/lib:
    - AdvancedCustom, AdvancedCustomFacts, AdvancedCustomTheorems:
      advanced-custom.ts, the routes of a custom channel from text to
      validation; [route_valid] is what a sound route is.
    - ModelMapping, ModelMappingFacts: model-mapping-rules.ts and
      model-mapping-validation.ts.
    - StatusRules: lib/http-status-code-rules.ts.
    - ChannelForm: channel-form.ts, channel-plugin-extensions.ts and
      responses-websocket.ts, a channel in its form, its validation, the
      documents of settings and the payloads.
    The playground chat, features/playground:
    - ChatMessage, ChatMessageFacts: lib/message, the messages and what chunks
      and responses make of them; [Reply] is the abstract view of an answer.
    - ChatStream: lib/streaming and hooks/use-stream-request.ts, the stream
      controller against any callbacks ([StreamRequestCallbacks]).
    - ChatHandler: hooks/use-chat-handler.ts and use-playground-conversation.ts;
      [step] takes the events of the page, the network and the timers in any
      order, and React's updaters are queued data.
    - ChatFacts, ChatReplyFacts, ChatTheorems: the invariant, a reply event by
      event, the theorems.
    - ChatStorage: lib/storage, loading the stored messages.
    Shared: Prelude (strings as lists of code units, the result and state
    monads, tactics and hints), JsNumber, JsNumberFacts and JsIntegers
    (binary64 arithmetic, decimal reading and printing), JsText (trim, search,
    JSON strings), JsMap (Map, Set and sort), JsValue (properties of JSON
    values, indexOf), JsObject (the order of object properties, indented JSON),
    CompileFacts and RuntimeTheorems (also theorems over several parts).

    ** How the parts interact

    [Compile.compile_source] runs [Parser.parse_source]; [Runtime.evaluate]
    interprets the tree of a compiled expression; Display, TaskDisplay and
    Visual read the same tree; BillingExpr, TaskExpr and TierExpr call the
    compiler on texts they cut or build. DynamicPrice reads the rows of
    TaskDisplay and the variants of PluginPricing and prints with PriceFormat.
    AuthSession, ChatStream and ChatHandler
    use Runtime only for the type of JSON values, and JsRegex for JSON.parse.
    [HttpClient] holds a tab of AuthSession: it starts its refreshes, waits for
    them and applies the tokens that answers carry. OAuthPopup and Verification
    turn what is thrown into failures through [ErrorSource], which ServerError
    implements ([heap_errors]); VerifyApi runs a script of PasswordEncryption inside
    its own ([ciphered]), prepares options and results with Passkey, and reads the
    answers of the server with ServerError on a heap; OAuthCallback runs against the attempts of
    OAuthPopup. AdvancedCustom, ChannelForm and
    ModelMapping read and write their documents with JsRegex and JsObject, and
    ChannelForm validates and stores the routes of AdvancedCustom.
    [ChatStream] calls back into [ChatHandler] through the callbacks of a send;
    [ChatHandler] changes messages with the functions of [ChatMessage].

    What the code takes from its environment is a parameter: Intl date
    formatting and the zone times ([Runtime.Host]), translation and locale
    formatting ([ConditionDisplay], [TaskExpr.LocaleHost]),
    Intl.NumberFormat and Math.pow ([PriceFormat.NumberHost]), what String and
    i18next make of an inherited member ([ServerError.Members]), the clock, the presence of
    browser locks ([AuthSession.Browser]), the palette and locale of the chart
    ([FlowGraph]), the URL parser ([AdvancedCustom]), the keys nanoid makes, and
    the order and content of the server's answers (the signals and events of a run).

    ** What the theorems show

    - Parsing and compiling: totality within the budget, spans, vocabulary,
      exact dependencies and request rules, type soundness up to sums of
      dynamic values, a transparent cache.
    - Evaluation: finite non-negative results, the errors that may occur,
      fixed prices and units, exactness of the rule trace, paths of the request
      body, key order.
    - What is shown is what is billed: tiers, task rows, time ranges.
    - Prices shown: fallback rows are named exactly, every range of a price per
      unit of usage covers the rows or providers it sums up, a converted amount
      too small for its digits is raised to the least that shows, and the text
      of a number is its value rounded to its digits.
    - Editing: opening and writing an expression without an edit is the
      identity; request rules round-trip; the cases that do not.
    - Session: every refresh settles, a superseded one is inert, the store is
      consistent, a missing hint is not a verdict, sign-out across tabs.
    - Errors: the walk over wrapped errors is exact, details of a failing server
      stay hidden, a failure is shown once.
    - Verification requests: in every run a proof is checked (its expiry where
      it is a number), a Passkey is asked for once, a popup is told its result
      once, a login that has expired when it starts sends nothing, and an
      encrypted password opens to what was typed; a callback page without an
      opener exchanges its code once and acts on the answer once, for its own
      session.
    - Verification: bytes round-trip as base64url, a popup is recognized by its mark, a callback is authentic,
      the two windows agree, an attempt leaves nothing armed; the dialog has one
      open request, a task behind every spinner and one submitted input at a
      time, and a grant belongs to its request.
    - HTTP client: every call settles within a bound, sends at most two
      requests, and equal GETs share one.
    - Channels: validation accepts exactly the sound configurations, documents
      read back as written, edits of one part keep the rest, derived and merged
      mappings, one canonical form of status rules; a channel saved without an
      edit keeps its settings.
    - Flow graph: stages add up to the summary, nodes balance, masking leaks no
      label, the number of nodes is bounded.
    - Chat: a streamed reply is the reply of one response with the same texts
      for every interleaving; one open source, no stranded chunk, no endless
      spinner; superseded sources are silent; a stop is final; think tags by
      their grammar; loading within its limits. The examples at the end of
      ChatTheorems and ChatStorage are the cases where the code does not
      do what it means to.

    ** Bounds and fuel

    The parser, the readers of Visual, the loop of [parseThinkTags] and
    JSON.parse take fuel, and so does the walk over an error, which
    [error_sources_exact] proves to be enough. [parser_fuel] is 60000: a source
    has at most 10000 tokens and at most five nested calls per token; [parse_source_total] proves that it is never exhausted. The readers
    of Visual descend a tree with fuel two per node and are proved equal to the
    unbounded recursion. [think_loop] takes one round per code unit and
    [think_tags_parsed] gives its result for every text. The limits of the code
    itself (65536 code units, 10000 tokens, depth 128 and 256, 128 rows, 20000 display steps, 128 cached
    expressions) are definitions of the model with their errors.

    ** Not modelled

    The runs of the scripts are sequential: where the code awaits two things at
    once, one call gives both answers and their order.

    The React components, the routes (the session listener and the callback page
    of a popup apart), translations
    and API wrappers, which are rendering and I/O; the tables and dialogs of channels; the fixtures and
    sample statistics of the model square; the Go server, which
    is another program in another language and is the authority for what is
    billed; plugins, deployment and tests. Of the modelled
    files: the table of time-zone labels of billing-expr.ts, the localStorage
    fallback that carries an event between tabs, the style callbacks and
    tooltips of the flow chart, and the zod schemas and JSON text of the stored
    chat. [Date.now()] reads one instant within one call of the chat's
    functions. *)

From stdpp Require Export base tactics options decidable list numbers strings sorting sets.
From Stdlib Require Export Ascii ZArith NArith Lia.

#[export] Set Default Proof Using "Type".
#[global] Open Scope nat_scope.

(** ** Strings: sequences of UTF-16 code units *)

Abbreviation code_unit := N (only parsing).
Abbreviation jsstring := (list N).

(** [js "..."] is the JavaScript string of a literal: the UTF-8 bytes of the
    Rocq literal are decoded to code points of the basic plane (1 to 3 bytes),
    which are their own UTF-16 code units. *)
Fixpoint utf8_units (s : String.string) : list N :=
  match s with
  | EmptyString => []
  | String a s1 =>
      let b := N_of_ascii a in
      if (b <? 128)%N then b :: utf8_units s1
      else if (b <? 224)%N then
        match s1 with
        | String a1 s2 =>
            ((b - 192) * 64 + (N_of_ascii a1 - 128))%N :: utf8_units s2
        | EmptyString => []
        end
      else
        match s1 with
        | String a1 (String a2 s3) =>
            ((b - 224) * 4096 + (N_of_ascii a1 - 128) * 64
             + (N_of_ascii a2 - 128))%N :: utf8_units s3
        | _ => []
        end
  end.
Definition js (s : String.string) : jsstring := utf8_units s.
Arguments js _%_string : simpl never.

Declare Scope js_scope.
Delimit Scope js_scope with js.

(** Strict equality of strings, [===]. *)
Definition str_eqb (a b : jsstring) : bool := bool_decide (a = b).
Infix "=s" := str_eqb (at level 70) : js_scope.
#[global] Open Scope js_scope.

Lemma str_eqb_eq a b : (a =s b) = true ↔ a = b.
Proof. unfold str_eqb. apply bool_decide_eq_true. Qed.
Lemma str_eqb_neq a b : (a =s b) = false ↔ a ≠ b.
Proof. unfold str_eqb. apply bool_decide_eq_false. Qed.
Lemma str_eqb_refl a : (a =s a) = true.
Proof. by apply str_eqb_eq. Qed.

(** [list.includes(x)] on a list of strings. *)
Definition str_in (x : jsstring) (l : list jsstring) : bool := existsb (str_eqb x) l.

Lemma str_in_elem x l : str_in x l = true ↔ x ∈ l.
Proof.
  unfold str_in. rewrite existsb_exists. split.
  - intros (y & Hy & He). apply str_eqb_eq in He. subst. by apply list_elem_of_In.
  - intros Hx. exists x. split; [by apply list_elem_of_In | apply str_eqb_refl].
Qed.

(** One-character string tests: [c] is a code unit, [ch "x"] that of a literal. *)
Definition ch (s : String.string) : N := match js s with c :: _ => c | [] => 0%N end.
Arguments ch _%_string.

(** ** Errors as values

    A TypeScript function that may throw returns [result A]; the exception is
    either a [BillingExpressionError] (types.ts) or a native [Error]. *)
Inductive DiagnosticCode :=
  | code_syntax | code_unsupported | code_missing_context
  | code_type | code_number | code_limit.

Record ExpressionDiagnostic := Diagnostic {
  diag_code : DiagnosticCode;
  diag_detail : jsstring;
  diag_position : option nat
}.

Inductive exn :=
  | BillingExpressionError (diagnostic : ExpressionDiagnostic)
  | NativeError (message : jsstring).

Inductive result (A : Type) :=
  | Ok (a : A)
  | Err (e : exn).
Arguments Ok {A} a.
Arguments Err {A} e.

#[export] Instance DiagnosticCode_eq_dec : EqDecision DiagnosticCode.
Proof. solve_decision. Defined.
#[export] Instance ExpressionDiagnostic_eq_dec : EqDecision ExpressionDiagnostic.
Proof. solve_decision. Defined.
#[export] Instance exn_eq_dec : EqDecision exn.
Proof. solve_decision. Defined.
#[export] Instance result_eq_dec {A} `{EqDecision A} : EqDecision (result A).
Proof. solve_decision. Defined.

#[export] Instance result_ret : MRet result := λ A a, Ok a.
#[export] Instance result_bind : MBind result := λ A B k m,
  match m with Ok a => k a | Err e => Err e end.

Definition throw {A} (c : DiagnosticCode) (detail : jsstring) : result A :=
  Err (BillingExpressionError (Diagnostic c detail None)).
Definition throw_at {A} (c : DiagnosticCode) (detail : jsstring) (p : nat) : result A :=
  Err (BillingExpressionError (Diagnostic c detail (Some p))).

(** The model's own marker for an exhausted recursion budget; every use comes
    with a theorem that it is not reached. *)
Definition out_of_fuel : exn := NativeError (js "InternalError: out of fuel").

Definition type_error : exn := NativeError (js "TypeError").

Definition is_ok {A} (r : result A) : bool := match r with Ok _ => true | Err _ => false end.

Lemma bind_Ok {A B} (m : result A) (k : A → result B) b :
  (m ≫= k) = Ok b ↔ ∃ a, m = Ok a ∧ k a = Ok b.
Proof. destruct m; simpl; naive_solver. Qed.

Lemma bind_Err {A B} (m : result A) (k : A → result B) e :
  (m ≫= k) = Err e ↔ m = Err e ∨ ∃ a, m = Ok a ∧ k a = Err e.
Proof. destruct m; simpl; naive_solver. Qed.

(** Left-to-right traversal that stops at the first exception. *)
Fixpoint mapM_result {A B} (f : A → result B) (l : list A) : result (list B) :=
  match l with
  | [] => Ok []
  | x :: l => y ← f x; ys ← mapM_result f l; Ok (y :: ys)
  end.

(** ** State with errors *)
Definition stateR (S A : Type) : Type := S → result (A * S).
#[export] Instance stateR_ret {S} : MRet (stateR S) := λ A a s, Ok (a, s).
#[export] Instance stateR_bind {S} : MBind (stateR S) := λ A B k m s,
  match m s with Ok (a, s') => k a s' | Err e => Err e end.
Definition get_st {S} : stateR S S := λ s, Ok (s, s).
Definition put_st {S} (s : S) : stateR S unit := λ _, Ok (tt, s).
Definition modify_st {S} (f : S → S) : stateR S unit := λ s, Ok (tt, f s).
Definition lift_st {S A} (r : result A) : stateR S A := λ s,
  match r with Ok a => Ok (a, s) | Err e => Err e end.

Lemma stateR_bind_Ok {S A B} (m : stateR S A) (k : A → stateR S B) s b s2 :
  (m ≫= k) s = Ok (b, s2) ↔ ∃ a s1, m s = Ok (a, s1) ∧ k a s1 = Ok (b, s2).
Proof.
  unfold mbind, stateR_bind. destruct (m s) as [[a s1]|e]; naive_solver.
Qed.
Lemma stateR_bind_Err {S A B} (m : stateR S A) (k : A → stateR S B) s e :
  (m ≫= k) s = Err e ↔ m s = Err e ∨ ∃ a s1, m s = Ok (a, s1) ∧ k a s1 = Err e.
Proof.
  unfold mbind, stateR_bind. destruct (m s) as [[a s1]|e']; naive_solver.
Qed.

(** Hoare-style reasoning: [wp m s Q F] holds when [m] run in [s] returns with
    [Q], throws a [BillingExpressionError], or throws a native error and [F]. *)
Definition wp {S A} (m : stateR S A) (s : S) (Q : A → S → Prop) (F : Prop) : Prop :=
  match m s with
  | Ok (a, s') => Q a s'
  | Err (BillingExpressionError _) => True
  | Err (NativeError _) => F
  end.

Lemma wp_bind {S A B} (m : stateR S A) (k : A → stateR S B) s Q F :
  wp m s (λ a s', wp (k a) s' Q F) F → wp (m ≫= k) s Q F.
Proof. unfold wp, mbind, stateR_bind. by destruct (m s) as [[a s1]|[]]. Qed.
Lemma wp_ret {S A} (a : A) (s : S) (Q : A → S → Prop) F : Q a s → wp (mret a) s Q F.
Proof. done. Qed.
Lemma wp_get {S} (s : S) (Q : S → S → Prop) F : Q s s → wp get_st s Q F.
Proof. done. Qed.
Lemma wp_put {S} (s t : S) (Q : unit → S → Prop) F : Q tt t → wp (put_st t) s Q F.
Proof. done. Qed.
Lemma wp_modify {S} f (s : S) (Q : unit → S → Prop) F : Q tt (f s) → wp (modify_st f) s Q F.
Proof. done. Qed.
Lemma wp_throw {S A} c d p (s : S) (Q : A → S → Prop) F : wp (lift_st (throw_at c d p)) s Q F.
Proof. done. Qed.
Lemma wp_throw_plain {S A} c d (s : S) (Q : A → S → Prop) F : wp (lift_st (throw c d)) s Q F.
Proof. done. Qed.
Lemma wp_mono {S A} (m : stateR S A) s (Q Q' : A → S → Prop) (F F' : Prop) :
  wp m s Q F → (∀ a s', Q a s' → Q' a s') → (F → F') → wp m s Q' F'.
Proof. unfold wp. destruct (m s) as [[a s1]|[]]; naive_solver. Qed.

(** ** Automation *)

(** Destruct the scrutinee of the first [match] of a hypothesis or the goal. *)
Ltac case_in H :=
  match type of H with
  | context [match ?x with _ => _ end] =>
      lazymatch x with
      | context [match _ with _ => _ end] => fail
      | _ => destruct x eqn:?
      end
  end.
Ltac case_goal :=
  match goal with
  | |- context [match ?x with _ => _ end] =>
      lazymatch x with
      | context [match _ with _ => _ end] => fail
      | _ => destruct x eqn:?
      end
  end.

(** Invert monadic success and boolean conjunctions. *)
Ltac inv_step :=
  match goal with
  | H : Ok _ = Ok _ |- _ => injection H; clear H; intros; subst
  | H : Ok _ = Err _ |- _ => discriminate H
  | H : Err _ = Ok _ |- _ => discriminate H
  | H : Some _ = Some _ |- _ => injection H; clear H; intros; subst
  | H : Some _ = None |- _ => discriminate H
  | H : None = Some _ |- _ => discriminate H
  | H : (_, _) = (_, _) |- _ => injection H; clear H; intros; subst
  | H : @mbind result _ _ _ _ _ = Ok _ |- _ => apply bind_Ok in H; destruct H as (? & ? & H)
  | H : true = false |- _ => discriminate H
  | H : false = true |- _ => discriminate H
  | H : (_ =s _) = true |- _ => apply str_eqb_eq in H; subst
  | H : (_ && _)%bool = true |- _ => apply andb_true_iff in H; destruct H
  end.
Ltac invm := repeat inv_step.

(** ** Generic list and option lemmas *)

(** [source.slice(a, b)] for [0 <= a, b]: empty when [b <= a]. *)
Definition slice {A} (l : list A) (a b : nat) : list A := take (b - a) (drop a l).

Lemma slice_full {A} (l : list A) : slice l 0 (length l) = l.
Proof. unfold slice. rewrite Nat.sub_0_r, drop_0. by apply take_ge. Qed.
Lemma slice_app {A} (l : list A) a b c :
  a ≤ b → b ≤ c → slice l a b ++ slice l b c = slice l a c.
Proof.
  intros Hab Hbc. unfold slice.
  replace (drop b l) with (drop (b - a) (drop a l)) by (rewrite drop_drop; f_equal; lia).
  rewrite take_take_drop. f_equal. lia.
Qed.
Lemma slice_length {A} (l : list A) a b : b ≤ length l → length (slice l a b) = b - a.
Proof. intros H. unfold slice. rewrite length_take, length_drop. lia. Qed.
Lemma slice_nil {A} (l : list A) a b : b ≤ a → slice l a b = [].
Proof. intros H. unfold slice. by replace (b - a) with 0 by lia. Qed.
Lemma take_slice {A} (l : list A) a b n :
  n ≤ b - a → take n (slice l a b) = slice l a (a + n).
Proof.
  intros H. unfold slice. rewrite take_take. f_equal. lia.
Qed.
Lemma drop_slice {A} (l : list A) a b n :
  n ≤ b - a → drop n (slice l a b) = slice l (a + n) b.
Proof.
  intros H. unfold slice. rewrite skipn_firstn_comm, drop_drop. f_equal. lia.
Qed.

Create HintDb billing discriminated.
#[export] Hint Resolve str_eqb_refl : billing.

(** One step of symbolic execution of a [wp] goal. *)
Ltac wp_step :=
  lazymatch goal with
  | |- wp (_ ≫= _) _ _ _ => apply wp_bind
  | |- wp (mret _) _ _ _ => apply wp_ret
  | |- wp get_st _ _ _ => apply wp_get
  | |- wp (put_st _) _ _ _ => apply wp_put
  | |- wp (modify_st _) _ _ _ => apply wp_modify
  | |- wp (lift_st (throw_at _ _ _)) _ _ _ => exact I
  | |- wp (lift_st (throw _ _)) _ _ _ => exact I
  | |- wp (if ?b then _ else _) _ _ _ => let E := fresh "E" in destruct b eqn:E
  | |- wp (match ?x with _ => _ end) _ _ _ => let E := fresh "E" in destruct x eqn:E
  end.
