(* ===== verification/JsNumber.v ===== *)
(** * JavaScript numbers

    IEEE-754 binary64 numbers as [spec_float] (the pure Gallina specification of
    the Standard Library, one NaN), with the Number and Math operations the
    source uses: comparison, arithmetic, rounding, [%], the integer tests,
    conversion from decimal text ([Number(text)]) and to decimal text
    ([String(number)], [toExponential]). *)

From S2P Require Import Prelude.
From Stdlib Require Import Floats.SpecFloat.
#[local] Open Scope Z_scope.

Abbreviation num := spec_float.

#[export] Instance spec_float_eq_dec : EqDecision spec_float.
Proof. solve_decision. Defined.

Definition prec : Z := 53.
Definition emax : Z := 1024.

(** ** Arithmetic and comparison *)
Definition nan : num := S754_nan.
Definition infinity : num := S754_infinity false.
Definition zero : num := S754_zero false.
Definition neg_zero : num := S754_zero true.
Definition num_add : num → num → num := SFadd prec emax.
Definition num_sub : num → num → num := SFsub prec emax.
Definition num_mul : num → num → num := SFmul prec emax.
Definition num_div : num → num → num := SFdiv prec emax.
Definition num_neg : num → num := SFopp.
Definition num_abs : num → num := SFabs.
Definition num_eqb : num → num → bool := SFeqb.
Definition num_ltb : num → num → bool := SFltb.
Definition num_leb : num → num → bool := SFleb.
Definition num_of_Z (z : Z) : num := binary_normalize prec emax z 0 false.

Definition is_finite (x : num) : bool :=
  match x with S754_zero _ | S754_finite _ _ _ => true | _ => false end.
Definition is_nan (x : num) : bool := match x with S754_nan => true | _ => false end.

(** [Number.isInteger], the integer part towards zero, [Number.isSafeInteger]. *)
Definition is_integer (x : num) : bool :=
  match x with
  | S754_zero _ => true
  | S754_finite _ m e => (0 <=? e) || (Z.pos m mod 2 ^ (- e) =? 0)
  | _ => false
  end.
Definition trunc_Z (x : num) : Z :=
  match x with
  | S754_finite s m e =>
      let a := if 0 <=? e then Z.pos m * 2 ^ e else Z.pos m / 2 ^ (- e) in
      if s then - a else a
  | _ => 0
  end.
Definition max_safe_integer : Z := 2 ^ 53 - 1.
Definition is_safe_integer (x : num) : bool :=
  is_integer x && (Z.abs (trunc_Z x) <=? max_safe_integer).

(** A signed zero or the float of a non-zero integer. *)
Definition num_of_Z_signed (s : bool) (z : Z) : num := binary_normalize prec emax z 0 s.

(** [Math.floor], [Math.ceil]: a result of zero keeps the sign of the argument. *)
Definition num_floor (x : num) : num :=
  match x with
  | S754_finite s m e =>
      if is_integer x then x
      else num_of_Z_signed s (if s then trunc_Z x - 1 else trunc_Z x)
  | _ => x
  end.
Definition num_ceil (x : num) : num :=
  match x with
  | S754_finite s m e =>
      if is_integer x then x
      else num_of_Z_signed s (if s then trunc_Z x else trunc_Z x + 1)
  | _ => x
  end.

(** [Math.min], [Math.max] of two arguments: NaN wins, [-0 < +0]. *)
Definition num_min (a b : num) : num :=
  if is_nan a || is_nan b then nan
  else if num_ltb a b then a
  else if num_ltb b a then b
  else match a with S754_zero true => a | _ => b end.
Definition num_max (a b : num) : num :=
  if is_nan a || is_nan b then nan
  else if num_ltb b a then a
  else if num_ltb a b then b
  else match a with S754_zero false => a | _ => b end.

(** [a % b]: the exact remainder with the sign of the dividend. *)
Definition num_rem (a b : num) : num :=
  match a, b with
  | S754_nan, _ | _, S754_nan | S754_infinity _, _ | _, S754_zero _ => nan
  | _, S754_infinity _ => a
  | S754_zero _, _ => a
  | S754_finite s m e, S754_finite _ m' e' =>
      let ez := Z.min e e' in
      let r := (Z.pos m * 2 ^ (e - ez)) mod (Z.pos m' * 2 ^ (e' - ez)) in
      binary_normalize prec emax (if s then - r else r) ez s
  end.

(** ** Decimal digits *)
Definition is_digit (c : code_unit) : bool := ((48 <=? c) && (c <=? 57))%N.

Fixpoint dec_digits (fuel : nat) (n : N) (acc : jsstring) : jsstring :=
  match fuel with
  | O => acc
  | S fuel => if (n =? 0)%N then acc
              else dec_digits fuel (n / 10) ((48 + n mod 10)%N :: acc)
  end.
(** The decimal digits of a natural number. *)
Definition dec_string (n : N) : jsstring :=
  if (n =? 0)%N then js "0" else dec_digits (N.size_nat n) n [].
(** The value of a run of decimal digits. *)
Definition dec_value (ds : jsstring) : N := foldl (λ v c, v * 10 + (c - 48))%N 0%N ds.

Definition digit_count (n : N) : Z := Z.of_nat (length (dec_string n)).

(** The binary64 number nearest to [M * 10^E]. Outside the guard the result is
    known without computing the power: below [10^-400] it underflows to zero,
    from [10^400] on it overflows. *)
Definition of_decimal (M : N) (E : Z) : num :=
  if (M =? 0)%N then zero
  else if 400 <? digit_count M + E then infinity
  else if digit_count M + E <? -400 then zero
  else if 0 <=? E then
    binary_round prec emax false (Z.to_pos (Z.of_N M * 10 ^ E)) 0
  else
    let '(q, e, l) := SFdiv_core_binary prec emax (Z.of_N M) 0 (10 ^ (- E)) 0 in
    binary_round_aux prec emax false q e l.

(** ** Scanning a decimal literal

    Digits with an optional point and more digits, or a point and digits; then
    an optional [e] or [E], sign and digits. This is the regular expression of
    the lexer and the grammar of StrUnsignedDecimalLiteral; the scanner returns
    the value of the greedy match at the head of the text and the unread rest. *)
Fixpoint span (p : code_unit → bool) (s : jsstring) : jsstring * jsstring :=
  match s with
  | c :: s' => if p c then let '(a, b) := span p s' in (c :: a, b) else ([], s)
  | [] => ([], [])
  end.

Definition scan_sign (s : jsstring) : bool * jsstring :=
  match s with
  | c :: r => if (c =? 45)%N then (true, r) else if (c =? 43)%N then (false, r) else (false, s)
  | [] => (false, s)
  end.

Definition scan_exponent (s : jsstring) : Z * jsstring :=
  match s with
  | c :: r =>
      if ((c =? 101) || (c =? 69))%N then
        let '(neg, r1) := scan_sign r in
        match span is_digit r1 with
        | ([], _) => (0, s)
        | (ds, r2) => let x := Z.of_N (dec_value ds) in (if neg then - x else x, r2)
        end
      else (0, s)
  | [] => (0, s)
  end.

Definition scan_mantissa (s : jsstring) : option (jsstring * jsstring * jsstring) :=
  match span is_digit s with
  | ([], c :: r) =>
      if (c =? 46)%N then
        match span is_digit r with
        | ([], _) => None
        | (fp, r1) => Some ([], fp, r1)
        end
      else None
  | ([], []) => None
  | (ip, c :: r) =>
      if (c =? 46)%N then let '(fp, r1) := span is_digit r in Some (ip, fp, r1)
      else Some (ip, [], c :: r)
  | (ip, []) => Some (ip, [], [])
  end.

Definition scan_decimal (s : jsstring) : option (num * jsstring) :=
  match scan_mantissa s with
  | None => None
  | Some (ip, fp, r) =>
      let '(x, r1) := scan_exponent r in
      Some (of_decimal (dec_value (ip ++ fp)) (x - Z.of_nat (length fp)), r1)
  end.

(** ** Number::toString *)

Fixpoint strip_zeros (fuel : nat) (s : N) (E : Z) : N * Z :=
  match fuel with
  | O => (s, E)
  | S fuel => if (s mod 10 =? 0)%N then strip_zeros fuel (s / 10) (E + 1) else (s, E)
  end.

(** [v = numer / denom] for a positive finite [v]. *)
Definition as_fraction (m : positive) (e : Z) : Z * Z :=
  if 0 <=? e then (Z.pos m * 2 ^ e, 1) else (Z.pos m, 2 ^ (- e)).

(** [floor (v * 10^p)] with the remainder and the divisor it is relative to. *)
Definition scaled_floor (v : Z * Z) (p : Z) : Z * Z * Z :=
  let n := if 0 <=? p then v.1 * 10 ^ p else v.1 in
  let d := if 0 <=? p then v.2 else v.2 * 10 ^ (- p) in
  (n / d, n mod d, d).

(** The decimal exponent: [10^(n-1) <= v < 10^n]. *)
Definition decimal_exponent (v : Z * Z) : Z :=
  let est := digit_count (Z.to_N v.1) - digit_count (Z.to_N v.2) in
  let '(q, _, _) := scaled_floor v (- est) in
  if q =? 0 then est else est + 1.

(** The candidates with [k] significant digits, the nearest to [v] first. *)
Definition candidates (v : Z * Z) (n k : Z) : list (N * Z) :=
  let '(q, r, d) := scaled_floor v (k - n) in
  let c := λ x, strip_zeros 20 (Z.to_N x) (n - k) in
  match Z.compare (2 * r) d with
  | Lt => [c q; c (q + 1)]
  | Gt => [c (q + 1); c q]
  | Eq => if Z.even q then [c q; c (q + 1)] else [c (q + 1); c q]
  end.

(** [s * 10^E] with the fewest digits that rounds to the number; seventeen
    digits always suffice for binary64, and the exact expansion stands in for
    a search that fails. *)
Definition shortest (m : positive) (e : Z) : N * Z :=
  let v := as_fraction m e in
  let n := decimal_exponent v in
  let ok := λ c : N * Z, (0 <? c.1)%N && bool_decide (of_decimal c.1 c.2 = S754_finite false m e) in
  match List.find ok (mjoin (map (candidates v n) [1;2;3;4;5;6;7;8;9;10;11;12;13;14;15;16;17])) with
  | Some c => c
  | None => if 0 <=? e then (Z.to_N (Z.pos m * 2 ^ e), 0)
            else (Z.to_N (Z.pos m * 5 ^ (- e)), e)
  end.

Definition exponent_text (x : Z) : jsstring :=
  js "e" ++ (if x <? 0 then js "-" else js "+") ++ dec_string (Z.to_N (Z.abs x)).

Definition mantissa_text (ds : jsstring) : jsstring :=
  match ds with
  | [] | [_] => ds
  | d :: ds => d :: js "." ++ ds
  end.

(** Steps 6 to 12 of Number::toString for the digits [ds] and [n]. *)
Definition format_decimal (ds : jsstring) (n : Z) : jsstring :=
  let k := Z.of_nat (length ds) in
  if (k <=? n) && (n <=? 21) then ds ++ replicate (Z.to_nat (n - k)) 48%N
  else if (0 <? n) && (n <=? 21) then take (Z.to_nat n) ds ++ js "." ++ drop (Z.to_nat n) ds
  else if (-6 <? n) && (n <=? 0) then js "0." ++ replicate (Z.to_nat (- n)) 48%N ++ ds
  else mantissa_text ds ++ exponent_text (n - 1).

Definition num_to_string (x : num) : jsstring :=
  match x with
  | S754_nan => js "NaN"
  | S754_zero _ => js "0"
  | S754_infinity s => (if s then js "-" else []) ++ js "Infinity"
  | S754_finite s m e =>
      let '(M, E) := shortest m e in
      let ds := dec_string M in
      (if s then js "-" else []) ++ format_decimal ds (E + Z.of_nat (length ds))
  end.

(** The mantissa text and the exponent of [x.toExponential()] for a finite [x]. *)
Definition exponential_parts (x : num) : jsstring * Z :=
  match x with
  | S754_finite s m e =>
      let '(M, E) := shortest m e in
      let ds := dec_string M in
      ((if s then js "-" else []) ++ mantissa_text ds, E + Z.of_nat (length ds) - 1)
  | _ => (js "0", 0)
  end.

(** ** Sign of a parsed decimal *)

Lemma binary_round_aux_nonneg m e l :
  let x := binary_round_aux prec emax false m e l in
  is_finite x = true → num_leb zero x = true.
Proof.
  unfold binary_round_aux.
  destruct (shr_fexp prec emax m e l) as [r1 e1].
  destruct (shr_fexp prec emax (round_nearest_even (shr_m r1) (loc_of_shr_record r1)) e1
              loc_Exact) as [r2 e2].
  destruct (shr_m r2); simpl; try done. by destruct (e2 <=? _).
Qed.

Lemma of_decimal_nonneg M E : is_finite (of_decimal M E) = true → num_leb zero (of_decimal M E) = true.
Proof.
  unfold of_decimal. destruct (M =? 0)%N; [done|].
  destruct (400 <? _); [done|]. destruct (_ <? -400); [done|]. destruct (0 <=? E).
  - unfold binary_round. destruct (shl_align _ _ _) as [m e]. apply binary_round_aux_nonneg.
  - destruct (SFdiv_core_binary _ _ _ _ _ _) as [[q e] l]. apply binary_round_aux_nonneg.
Qed.

Lemma scan_decimal_nonneg s x r :
  scan_decimal s = Some (x, r) → is_finite x = true → num_leb zero x = true.
Proof.
  unfold scan_decimal. destruct (scan_mantissa s) as [[[ip fp] t]|]; [|done].
  destruct (scan_exponent t) as [e u]. intros ?; simplify_eq. apply of_decimal_nonneg.
Qed.
