(* ===== verification/JsText.v ===== *)
(** * JavaScript string operations

    The [String.prototype] methods, [JSON.stringify] on strings and [Number] on
    strings, as the source uses them. Strings are sequences of UTF-16 units. *)

From S2P Require Import Prelude JsNumber.
From Stdlib Require Import Floats.SpecFloat.

(** ** White space: the class of [\s] and of [trim] (WhiteSpace and LineTerminator) *)
Definition is_space (c : code_unit) : bool :=
  (((9 <=? c) && (c <=? 13)) || (c =? 32) || (c =? 160) || (c =? 5760)
   || ((8192 <=? c) && (c <=? 8202)) || (c =? 8232) || (c =? 8233)
   || (c =? 8239) || (c =? 8287) || (c =? 12288) || (c =? 65279))%N.

Fixpoint drop_while (p : code_unit → bool) (s : jsstring) : jsstring :=
  match s with
  | c :: s' => if p c then drop_while p s' else s
  | [] => []
  end.
Definition trim_start (s : jsstring) : jsstring := drop_while is_space s.
Definition trim_end (s : jsstring) : jsstring := reverse (drop_while is_space (reverse s)).
Definition trim (s : jsstring) : jsstring := trim_end (trim_start s).

(** [s.startsWith(p)], [s.endsWith(p)], [s.includes(p)]. *)
Fixpoint starts_with (p s : jsstring) : bool :=
  match p, s with
  | [], _ => true
  | a :: p, b :: s => (a =? b)%N && starts_with p s
  | _ :: _, [] => false
  end.
Definition ends_with (p s : jsstring) : bool := starts_with (reverse p) (reverse s).
Fixpoint includes (p s : jsstring) : bool :=
  starts_with p s || match s with [] => false | _ :: s => includes p s end.

(** [text.split(c)], for a separator of one unit. *)
Fixpoint split_units (c : code_unit) (s : jsstring) : list jsstring :=
  match s with
  | [] => [[]]
  | u :: s =>
      if (u =? c)%N then [] :: split_units c s
      else match split_units c s with p :: ps => (u :: p) :: ps | [] => [[u]] end
  end.

(** [parts.join(sep)]. *)
Fixpoint join (sep : jsstring) (parts : list jsstring) : jsstring :=
  match parts with
  | [] => []
  | [p] => p
  | p :: parts => p ++ sep ++ join sep parts
  end.

(** [s.padStart(n, c)]. *)
Definition pad_start (n : nat) (c : code_unit) (s : jsstring) : jsstring :=
  replicate (n - length s) c ++ s.

(** Code-unit order: [a < b] on strings. *)
Fixpoint str_ltb (a b : jsstring) : bool :=
  match a, b with
  | _, [] => false
  | [], _ :: _ => true
  | x :: a, y :: b => (x <? y)%N || ((x =? y)%N && str_ltb a b)
  end.

(** ** [JSON.stringify(string)] *)
Definition hex_digit (n : N) : code_unit := (if n <? 10 then 48 + n else 87 + n)%N.
Definition unicode_escape (c : code_unit) : jsstring :=
  js "\u" ++ [hex_digit (c / 4096); hex_digit (c / 256 mod 16);
              hex_digit (c / 16 mod 16); hex_digit (c mod 16)]%N.

Definition is_lead (c : code_unit) : bool := ((55296 <=? c) && (c <=? 56319))%N.
Definition is_trail (c : code_unit) : bool := ((56320 <=? c) && (c <=? 57343))%N.

Definition quote_unit (c : code_unit) : jsstring :=
  if (c =? 8)%N then js "\b" else if (c =? 9)%N then js "\t"
  else if (c =? 10)%N then js "\n" else if (c =? 12)%N then js "\f"
  else if (c =? 13)%N then js "\r" else if (c =? 34)%N then [92; 34]%N
  else if (c =? 92)%N then [92; 92]%N
  else if (c <? 32)%N then unicode_escape c
  else [c].

(** QuoteJSONString: a surrogate that is not part of a pair is escaped. *)
Fixpoint quote_units (s : jsstring) : jsstring :=
  match s with
  | [] => []
  | c :: s1 =>
      if is_lead c then
        match s1 with
        | d :: s2 => if is_trail d then c :: d :: quote_units s2
                     else unicode_escape c ++ quote_units s1
        | [] => unicode_escape c
        end
      else if is_trail c then unicode_escape c ++ quote_units s1
      else quote_unit c ++ quote_units s1
  end.
Definition json_stringify (s : jsstring) : jsstring := [34%N] ++ quote_units s ++ [34%N].

(** ** [Number(text)] (StringToNumber) *)
Definition hex_value (c : code_unit) : option N :=
  (if (48 <=? c) && (c <=? 57) then Some (c - 48)
   else if (97 <=? c) && (c <=? 102) then Some (c - 87)
   else if (65 <=? c) && (c <=? 70) then Some (c - 55) else None)%N.

Fixpoint radix_value (radix : N) (s : jsstring) (acc : N) : option N :=
  match s with
  | [] => Some acc
  | c :: s =>
      match hex_value c with
      | Some d => if (d <? radix)%N then radix_value radix s (acc * radix + d)%N else None
      | None => None
      end
  end.

Definition radix_literal (radix : N) (s : jsstring) : num :=
  match s with
  | [] => nan
  | _ => match radix_value radix s 0 with Some v => num_of_Z (Z.of_N v) | None => nan end
  end.

Definition number_of_string (text : jsstring) : num :=
  let s := trim text in
  match s with
  | [] => zero
  | 48%N :: c :: r =>
      if ((c =? 120) || (c =? 88))%N then radix_literal 16 r
      else if ((c =? 111) || (c =? 79))%N then radix_literal 8 r
      else if ((c =? 98) || (c =? 66))%N then radix_literal 2 r
      else match scan_decimal s with Some (x, []) => x | _ => nan end
  | _ =>
      let '(neg, u) := scan_sign s in
      let x := if u =s js "Infinity" then infinity
               else match scan_decimal u with Some (x, []) => x | _ => nan end in
      if neg then num_neg x else x
  end.

(** ** Laws of the string operations *)

Lemma starts_with_app p s : starts_with p (p ++ s) = true.
Proof. induction p as [|a p IH]; simpl; [done|]. by rewrite N.eqb_refl, IH. Qed.

Lemma starts_with_spec p s : starts_with p s = true ↔ ∃ r, s = p ++ r.
Proof.
  split.
  - revert s. induction p as [|a p IH]; intros s H; simpl in *; [by exists s|].
    destruct s as [|b s]; [done|]. apply andb_true_iff in H as [Ha Hs].
    apply N.eqb_eq in Ha. destruct (IH _ Hs) as [r ->]. exists r. by subst.
  - intros [r ->]. apply starts_with_app.
Qed.

Lemma includes_spec p s : includes p s = true ↔ ∃ a b, s = a ++ p ++ b.
Proof.
  split.
  - induction s as [|c s IH]; simpl; intros H.
    + rewrite orb_false_r in H. apply starts_with_spec in H as [r Hr].
      exists [], r. exact Hr.
    + apply orb_true_iff in H as [H|H].
      * apply starts_with_spec in H as [r Hr]. exists [], r. exact Hr.
      * destruct (IH H) as (a & b & ->). exists (c :: a), b. done.
  - intros (a & b & ->). induction a as [|c a IH]; simpl.
    + pose proof (starts_with_app p b) as Hs. destruct (p ++ b); simpl; by rewrite Hs.
    + by rewrite IH, orb_true_r.
Qed.

Lemma drop_while_app p a b :
  forallb p a = true → drop_while p (a ++ b) = drop_while p b.
Proof. induction a as [|c a IH]; simpl; [done|]. destruct (p c); simpl; [auto|done]. Qed.

Lemma drop_while_idemp p s : drop_while p (drop_while p s) = drop_while p s.
Proof. induction s as [|c s IH]; simpl; [done|]. destruct (p c) eqn:E; [done|]. simpl. by rewrite E. Qed.

Lemma drop_while_head p s c r : drop_while p s = c :: r → p c = false.
Proof.
  induction s as [|d s IH]; simpl; [done|].
  destruct (p d) eqn:E; [done|]. intros [= -> ->]. done.
Qed.

Lemma drop_while_suffix p s : ∃ a, s = a ++ drop_while p s ∧ forallb p a = true.
Proof.
  induction s as [|c s IH]; simpl; [by exists []|].
  destruct (p c) eqn:E.
  - destruct IH as (a & Ha & Hp). exists (c :: a). simpl. split; [congruence | by rewrite E, Hp].
  - by exists [].
Qed.

Lemma drop_while_none p s :
  match s with [] => True | c :: _ => p c = false end → drop_while p s = s.
Proof. destruct s as [|c s]; simpl; [done|]. by intros ->. Qed.

(** A string with no outer white space. *)
Definition trimmed (s : jsstring) : Prop := trim s = s.

Lemma trim_end_decomp s : ∃ b, s = trim_end s ++ b ∧ forallb is_space b = true.
Proof.
  unfold trim_end. destruct (drop_while_suffix is_space (reverse s)) as (a & Ha & Hp).
  exists (reverse a). split.
  - rewrite <- reverse_app, <- Ha. by rewrite reverse_involutive.
  - rewrite forallb_forall in *. intros x Hx. apply Hp.
    rewrite <- list_elem_of_In, elem_of_reverse, list_elem_of_In in Hx. done.
Qed.

(** [s] is its trimmed text between two runs of white space. *)
Lemma trim_decomp s :
  ∃ a b, s = a ++ trim s ++ b ∧ forallb is_space a = true ∧ forallb is_space b = true.
Proof.
  destruct (drop_while_suffix is_space s) as (a & Ha & Hpa).
  destruct (trim_end_decomp (trim_start s)) as (b & Hb & Hpb).
  exists a, b. split; [|done]. unfold trim, trim_start in *. by rewrite <- Hb.
Qed.

Lemma trim_end_idemp s : trim_end (trim_end s) = trim_end s.
Proof. unfold trim_end. by rewrite reverse_involutive, drop_while_idemp. Qed.

Lemma trim_start_trim_end s : trim_start (trim_end (trim_start s)) = trim_end (trim_start s).
Proof.
  destruct (trim_end_decomp (trim_start s)) as (b & Hb & _).
  apply drop_while_none. destruct (trim_end (trim_start s)) as [|c r] eqn:E; [done|].
  apply (drop_while_head is_space s c (r ++ b)). unfold trim_start in Hb at 1. by rewrite Hb.
Qed.

Lemma trim_idemp s : trim (trim s) = trim s.
Proof. unfold trim. rewrite trim_start_trim_end. apply trim_end_idemp. Qed.

Lemma trim_length s : length (trim s) ≤ length s.
Proof.
  destruct (trim_decomp s) as (a & b & Hs & _). rewrite Hs at 2. rewrite !length_app. lia.
Qed.

(** ** Splitting what was joined *)

Lemma split_units_none c s : c ∉ s → split_units c s = [s].
Proof.
  induction s as [|u s IH]; cbn; [done|]. intros [Hu Hs]%not_elem_of_cons.
  by rewrite (proj2 (N.eqb_neq u c)), IH.
Qed.
Lemma split_units_app c a b : c ∉ a → split_units c (a ++ c :: b) = a :: split_units c b.
Proof.
  induction a as [|u a IH]; cbn; [by rewrite N.eqb_refl|]. intros [Hu Ha]%not_elem_of_cons.
  by rewrite (proj2 (N.eqb_neq u c)), IH.
Qed.
Lemma split_units_join c l :
  l ≠ [] → Forall (λ s, c ∉ s) l → split_units c (join [c] l) = l.
Proof.
  induction l as [|s l IH]; [done|]. intros _ [Hs Hl]%Forall_cons. destruct l as [|s2 l]; [by apply split_units_none|].
  change (join [c] (s :: s2 :: l)) with (s ++ c :: join [c] (s2 :: l)). rewrite split_units_app by done. by rewrite IH.
Qed.

(** ** Objects

    The names of the properties that every object inherits. *)
Definition inherited_properties : list jsstring :=
  map js ["constructor"; "__defineGetter__"; "__defineSetter__"; "hasOwnProperty";
          "__lookupGetter__"; "__lookupSetter__"; "isPrototypeOf"; "propertyIsEnumerable";
          "toString"; "valueOf"; "__proto__"; "toLocaleString"]%string.
