(* ===== verification/JsNumberFacts.v ===== *)
(** * Facts about numbers and their text

    Correct rounding is exact on binary64 numbers and always yields a canonical
    number; hence the text that Number::toString gives for a number reads back
    as that number. *)

From S2P Require Import Prelude JsNumber JsText.
From Stdlib Require Import Floats.SpecFloat.

#[local] Open Scope Z_scope.

(** ** Binary digits *)

Lemma digits2_pos_bounds p : 2 ^ (Z.pos (digits2_pos p) - 1) ≤ Z.pos p < 2 ^ Z.pos (digits2_pos p).
Proof.
  induction p as [p IH|p IH|]; cbn [digits2_pos].
  1,2: rewrite Pos2Z.inj_succ; replace (Z.succ (Z.pos (digits2_pos p)) - 1) with
         (Z.succ (Z.pos (digits2_pos p) - 1)) by lia;
       rewrite !Z.pow_succ_r by lia; lia.
  simpl. lia.
Qed.

Lemma Zdigits2_log2 m : 0 < m → Zdigits2 m = Z.log2 m + 1.
Proof.
  destruct m as [|p|p]; [lia| |lia]. intros _. cbn [Zdigits2].
  pose proof (digits2_pos_bounds p).
  assert (Z.log2 (Z.pos p) = Z.pos (digits2_pos p) - 1); [|lia].
  apply Z.log2_unique; [lia|]. split; [lia|].
  replace (Z.succ (Z.pos (digits2_pos p) - 1)) with (Z.pos (digits2_pos p)) by lia. lia.
Qed.

Lemma Zdigits2_nonneg m : 0 ≤ Zdigits2 m.
Proof. destruct m; simpl; lia. Qed.
Lemma Zdigits2_pos m : 0 < m → 0 < Zdigits2 m.
Proof. intros. rewrite Zdigits2_log2 by done. pose proof (Z.log2_nonneg m). lia. Qed.

Lemma Zdigits2_mul_pow2 m k : 0 < m → 0 ≤ k → Zdigits2 (m * 2 ^ k) = Zdigits2 m + k.
Proof.
  intros Hm Hk. assert (0 < 2 ^ k) by (by apply Z.pow_pos_nonneg).
  rewrite !Zdigits2_log2 by nia. rewrite Z.log2_mul_pow2 by lia. lia.
Qed.

Lemma Zdigits2_div_pow2 m k : 0 < m / 2 ^ k → 0 ≤ m → 0 ≤ k → Zdigits2 (m / 2 ^ k) = Zdigits2 m - k.
Proof.
  intros Hd Hm Hk. assert (0 < 2 ^ k) by (by apply Z.pow_pos_nonneg).
  assert (2 ^ k ≤ m) as Hle.
  { destruct (decide (2 ^ k ≤ m)); [done|]. rewrite Z.div_small in Hd by lia. lia. }
  assert (0 < m) by lia. rewrite !Zdigits2_log2 by lia.
  rewrite <- Z.shiftr_div_pow2 by done. rewrite Z.log2_shiftr by lia.
  assert (k ≤ Z.log2 m) by (rewrite <- (Z.log2_pow2 k) by done; by apply Z.log2_le_mono). lia.
Qed.

Lemma Zdigits2_mono a b : 0 ≤ a ≤ b → Zdigits2 a ≤ Zdigits2 b.
Proof.
  intros [Ha Hb]. destruct (decide (a = 0)) as [->|]; [apply Zdigits2_nonneg|].
  rewrite !Zdigits2_log2 by lia. pose proof (Z.log2_le_mono a b Hb). lia.
Qed.

(** ** Shifting *)

Lemma iter_pos_nat {A} (f : A → A) p x : iter_pos f p x = Nat.iter (Pos.to_nat p) f x.
Proof.
  assert (∀ n m y, Nat.iter (n + m)%nat f y = Nat.iter n f (Nat.iter m f y)) as Hadd.
  { intros n m y. induction n as [|n IH]; simpl; [done|]. by rewrite IH. }
  revert x. induction p as [p IH|p IH|]; intros x; cbn [iter_pos].
  - rewrite !IH, Pos2Nat.inj_xI. rewrite <- Hadd. 
    replace (S (2 * Pos.to_nat p)) with ((Pos.to_nat p + Pos.to_nat p) + 1)%nat by lia. by rewrite (Hadd _ 1%nat x).
  - rewrite !IH, Pos2Nat.inj_xO, <- Hadd. f_equal. lia.
  - done.
Qed.

Lemma shr_1_m mrs : 0 ≤ shr_m mrs → shr_m (shr_1 mrs) = shr_m mrs / 2.
Proof.
  destruct mrs as [m r s]; simpl. intros Hm. rewrite <- Z.div2_div.
  destruct m as [|[p|p|]|]; simpl; try done; lia.
Qed.

Lemma shr_iter_m n mrs : 0 ≤ shr_m mrs → shr_m (Nat.iter n shr_1 mrs) = shr_m mrs / 2 ^ Z.of_nat n.
Proof.
  intros Hm. induction n as [|n IH]; [by rewrite Z.div_1_r|].
  assert (0 < 2 ^ Z.of_nat n) by (apply Z.pow_pos_nonneg; lia).
  cbn [Nat.iter nat_rect]. change (nat_rect _ mrs (λ _ : nat, shr_1) n) with (Nat.iter n shr_1 mrs).
  rewrite shr_1_m; rewrite IH; [|by apply Z.div_pos].
  rewrite Nat2Z.inj_succ, Z.pow_succ_r by lia. rewrite Z.div_div by lia. f_equal. lia.
Qed.

Lemma shr_1_double m : 0 < m → shr_1 (Build_shr_record (2 * m) false false) = Build_shr_record m false false.
Proof. destruct m; simpl; [lia|done|lia]. Qed.

Lemma shr_iter_exact n m : 0 < m →
  Nat.iter n shr_1 (Build_shr_record (m * 2 ^ Z.of_nat n) false false) = Build_shr_record m false false.
Proof.
  intros Hm. revert m Hm. induction n as [|n IH]; intros m Hm; [simpl; by rewrite Z.mul_1_r|].
  cbn [Nat.iter nat_rect]. change (nat_rect _ ?x (λ _ : nat, shr_1) n) with (Nat.iter n shr_1 x).
  rewrite Nat2Z.inj_succ, Z.pow_succ_r by lia.
  replace (m * (2 * 2 ^ Z.of_nat n)) with ((2 * m) * 2 ^ Z.of_nat n) by lia.
  rewrite IH by lia. by apply shr_1_double.
Qed.

Lemma fexp_mono a b : a ≤ b → fexp prec emax a ≤ fexp prec emax b.
Proof. unfold fexp. lia. Qed.

Lemma shr_fexp_exact m k e :
  0 < m → 0 ≤ k → fexp prec emax (Zdigits2 m + e) = e →
  shr_fexp prec emax (m * 2 ^ k) (e - k) loc_Exact = (Build_shr_record m false false, e).
Proof.
  intros Hm Hk He. unfold shr_fexp. rewrite Zdigits2_mul_pow2 by done.
  replace (Zdigits2 m + k + (e - k)) with (Zdigits2 m + e) by lia. rewrite He.
  replace (e - (e - k)) with k by lia. unfold shr. destruct k as [|k|k]; [|  |lia].
  - simpl. by rewrite Z.mul_1_r, Z.sub_0_r.
  - rewrite iter_pos_nat. simpl shr_record_of_loc.
    rewrite <- (positive_nat_Z k), shr_iter_exact by done. f_equal. lia.
Qed.

(** Rounding does nothing to a canonical number, however it is scaled. *)
Lemma binary_round_aux_exact m k e :
  bounded prec emax m e = true → 0 ≤ k →
  binary_round_aux prec emax false (Z.pos m * 2 ^ k) (e - k) loc_Exact = S754_finite false m e.
Proof.
  unfold bounded, canonical_mantissa. intros [Hc%Z.eqb_eq Hb]%andb_true_iff Hk.
  unfold binary_round_aux. rewrite (shr_fexp_exact (Z.pos m) k e) by (done || exact Hc).
  cbn [loc_of_shr_record round_nearest_even shr_m].
  assert (Hs := shr_fexp_exact (Z.pos m) 0 e eq_refl (Z.le_refl 0) Hc).
  rewrite Z.mul_1_r, Z.sub_0_r in Hs. rewrite Hs. cbn [shr_m]. by rewrite Hb.
Qed.

(** ** Rounding yields canonical numbers *)

Lemma shr_fexp_spec m e l :
  0 ≤ m → e ≤ fexp prec emax (Zdigits2 m + e) →
  let r := shr_fexp prec emax m e l in
  r.2 = fexp prec emax (Zdigits2 m + e) ∧ shr_m r.1 = m / 2 ^ (r.2 - e).
Proof.
  intros Hm He. unfold shr_fexp. set (f := fexp _ _ _) in *. simpl.
  assert (Hrec : shr_m (shr_record_of_loc m l) = m) by (by destruct l as [|[]]).
  unfold shr. destruct (f - e) as [|k|k] eqn:E; [| |lia]; simpl.
  - assert (f = e) as -> by lia. rewrite Z.sub_diag, Z.div_1_r. by split.
  - split; [lia|]. rewrite iter_pos_nat, shr_iter_m by (by rewrite Hrec). rewrite Hrec.
    f_equal. f_equal. lia.
Qed.

Lemma binary_round_aux_valid m e l :
  0 ≤ m → e ≤ fexp prec emax (Zdigits2 m + e) →
  valid_binary prec emax (binary_round_aux prec emax false m e l) = true.
Proof.
  intros Hm He. unfold binary_round_aux.
  destruct (shr_fexp_spec m e l Hm He) as [H1e H1m].
  destruct (shr_fexp prec emax m e l) as [r1 e1]. simpl in H1e, H1m.
  set (m1 := shr_m r1) in *.
  assert (Hpow : 0 < 2 ^ (e1 - e)) by (apply Z.pow_pos_nonneg; lia).
  assert (Hm1 : 0 ≤ m1) by (rewrite H1m; by apply Z.div_pos).
  assert (Hf1 : e1 ≤ fexp prec emax (Zdigits2 m1 + e1) ∨ (m1 = 0 ∧ e1 = emin prec emax)).
  { destruct (decide (m1 = 0)) as [E|E].
    - right. split; [done|]. rewrite E in H1m. symmetry in H1m. apply Z.div_small_iff in H1m; [|lia].
      assert (Zdigits2 m ≤ e1 - e).
      { destruct (decide (m = 0)) as [->|]; [simpl; lia|]. rewrite Zdigits2_log2 by lia.
        assert (Z.log2 m < e1 - e); [|lia]. apply Z.log2_lt_pow2; lia. }
      unfold fexp in H1e. unfold prec in *. lia.
    - left. rewrite H1m in E. rewrite H1m, Zdigits2_div_pow2 by lia.
      rewrite H1e at 1. apply fexp_mono. lia. }
  set (m2 := round_nearest_even m1 (loc_of_shr_record r1)).
  assert (Hm2 : m1 ≤ m2 ≤ m1 + 1).
  { unfold m2, round_nearest_even. destruct (loc_of_shr_record r1) as [|[]]; try lia.
    destruct (Z.even m1); lia. }
  assert (Hf2 : e1 ≤ fexp prec emax (Zdigits2 m2 + e1)).
  { destruct Hf1 as [Hf1|[_ ->]].
    - etrans; [exact Hf1|]. apply fexp_mono. pose proof (Zdigits2_mono m1 m2). lia.
    - unfold fexp. lia. }
  destruct (shr_fexp_spec m2 e1 loc_Exact ltac:(lia) Hf2) as [H2e H2m].
  destruct (shr_fexp prec emax m2 e1 loc_Exact) as [r2 e2]. simpl in H2e, H2m.
  destruct (shr_m r2) as [|p|p] eqn:Ep; [done| |done].
  destruct (e2 <=? emax - prec) eqn:Hb; [|done]. simpl. unfold bounded. rewrite Hb, andb_true_r.
  unfold canonical_mantissa. apply Z.eqb_eq. change (Z.pos (digits2_pos p)) with (Zdigits2 (Z.pos p)).
  rewrite H2m, Zdigits2_div_pow2 by lia. rewrite H2e at 3. f_equal. lia.
Qed.

(** ** Decimal digits *)

Lemma dec_digits_spec fuel n acc :
  (n < 2 ^ N.of_nat fuel)%N →
  ∃ ds, dec_digits fuel n acc = ds ++ acc ∧ forallb is_digit ds = true ∧ dec_value ds = n ∧
    (0 < n → 10 ^ (N.of_nat (length ds) - 1) ≤ n)%N ∧ (n < 10 ^ N.of_nat (length ds))%N ∧
    (n = 0%N → ds = []).
Proof.
  revert n acc. induction fuel as [|fuel IH]; intros n acc Hn.
  - assert (n = 0%N) as -> by (simpl in Hn; lia). exists []. by split_and!.
  - cbn [dec_digits]. destruct (n =? 0)%N eqn:E.
    { apply N.eqb_eq in E as ->. exists []. by split_and!. }
    apply N.eqb_neq in E. rewrite Nat2N.inj_succ, N.pow_succ_r' in Hn.
    assert (n / 10 < 2 ^ N.of_nat fuel)%N as Hd by (apply N.Div0.div_lt_upper_bound; lia).
    destruct (IH (n / 10)%N ((48 + n mod 10)%N :: acc) Hd) as (ds & -> & Hdig & Hv & Hlo & Hhi & Hz).
    pose proof (N.div_mod n 10 ltac:(done)) as Hdm. pose proof (N.mod_lt n 10 ltac:(done)) as Hm.
    clear IH Hd Hn. remember (n / 10)%N as q eqn:Eq. remember (n mod 10)%N as r eqn:Er. clear Eq Er.
    exists (ds ++ [(48 + r)%N]). split_and!.
    + by rewrite <- app_assoc.
    + rewrite forallb_app, Hdig. unfold is_digit. cbn [forallb andb]. rewrite !andb_true_r.
      apply andb_true_iff. rewrite !N.leb_le. lia.
    + unfold dec_value in *. rewrite foldl_app, Hv. cbn [foldl]. lia.
    + intros _. rewrite length_app. cbn [length].
      replace (N.of_nat (length ds + 1) - 1)%N with (N.of_nat (length ds)) by lia.
      destruct (decide (q = 0)%N) as [Hz0|Hnz]; [rewrite (Hz Hz0); simpl; lia|].
      destruct (length ds) as [|k] eqn:El; [simpl in Hhi; lia|].
      replace (N.of_nat (S k)) with (N.succ (N.of_nat (S k) - 1)) by lia.
      rewrite N.pow_succ_r'. specialize (Hlo ltac:(lia)). nia.
    + rewrite length_app. cbn [length].
      replace (N.of_nat (length ds + 1)) with (N.succ (N.of_nat (length ds))) by lia.
      rewrite N.pow_succ_r'. nia.
    + done.
Qed.

Lemma size_nat_gt n : (n < 2 ^ N.of_nat (N.size_nat n))%N.
Proof.
  destruct n as [|p]; [done|]. simpl. induction p as [p IH|p IH|]; simpl Pos.size_nat.
  1,2: rewrite Nat2N.inj_succ, N.pow_succ_r'; lia.
  done.
Qed.

(** The digits of a positive number. *)
Record digits_of (n : N) (ds : jsstring) : Prop := {
  do_digits : forallb is_digit ds = true;
  do_value : dec_value ds = n;
  do_low : (10 ^ (N.of_nat (length ds) - 1) ≤ n)%N;
  do_high : (n < 10 ^ N.of_nat (length ds))%N;
  do_nonempty : ds ≠ []
}.

Lemma dec_string_digits n : (0 < n)%N → digits_of n (dec_string n).
Proof.
  intros Hn. unfold dec_string. rewrite (proj2 (N.eqb_neq n 0)) by lia.
  destruct (dec_digits_spec (N.size_nat n) n [] (size_nat_gt n)) as (ds & -> & Hd & Hv & Hlo & Hhi & _).
  rewrite app_nil_r. split; try done; [by apply Hlo|]. intros ->. simpl in Hhi. lia.
Qed.

Lemma digits_length_unique n ds ds' : digits_of n ds → digits_of n ds' → length ds = length ds'.
Proof.
  intros H1 H2.
  assert (∀ a b, digits_of n a → digits_of n b → (length a ≤ length b)%nat) as Hle; [|by apply Nat.le_antisymm; apply Hle].
  intros a b [_ _ Ha _ Hna] [_ _ _ Hb _]. destruct (decide (length a ≤ length b)%nat); [done|].
  assert (10 ^ N.of_nat (length b) ≤ 10 ^ (N.of_nat (length a) - 1))%N by (apply N.pow_le_mono_r; lia). lia.
Qed.

Lemma digit_count_bounds n : (0 < n)%N →
  0 < digit_count n ∧ 10 ^ (digit_count n - 1) ≤ Z.of_N n < 10 ^ digit_count n.
Proof.
  intros Hn. destruct (dec_string_digits n Hn) as [_ _ Hlo Hhi Hne]. unfold digit_count.
  assert (0 < length (dec_string n))%nat by (destruct (dec_string n); [done|simpl; lia]).
  apply N2Z.inj_le in Hlo. apply N2Z.inj_lt in Hhi. rewrite N2Z.inj_pow in Hlo, Hhi.
  rewrite N2Z.inj_sub, nat_N_Z in Hlo by lia. rewrite nat_N_Z in Hhi. simpl Z.of_N in Hlo, Hhi.
  split; [lia|]. split; lia.
Qed.

Lemma digit_count_unique n d : (0 < n)%N → 10 ^ (d - 1) ≤ Z.of_N n < 10 ^ d → digit_count n = d.
Proof.
  intros Hn [Hlo Hhi]. destruct (digit_count_bounds n Hn) as (Hd & Hlo' & Hhi').
  assert (0 < d) by (destruct (decide (0 < d)); [done|]; assert (10 ^ d ≤ 1); [|lia];
    destruct (decide (d = 0)) as [->|]; [done|rewrite Z.pow_neg_r; lia]).
  destruct (Z.lt_trichotomy (digit_count n) d) as [Hlt|[->|Hlt]]; [exfalso|done|exfalso].
  - assert (10 ^ digit_count n ≤ 10 ^ (d - 1)) by (apply Z.pow_le_mono_r; lia). lia.
  - assert (10 ^ d ≤ 10 ^ (digit_count n - 1)) by (apply Z.pow_le_mono_r; lia). lia.
Qed.

Lemma digit_count_scale n z : (0 < n)%N → 0 ≤ z → digit_count (n * 10 ^ Z.to_N z) = digit_count n + z.
Proof.
  intros Hn Hz. destruct (digit_count_bounds n Hn) as (Hd & Hlo & Hhi).
  assert (0 < 10 ^ z) by (by apply Z.pow_pos_nonneg).
  assert (Heq : Z.of_N (n * 10 ^ Z.to_N z) = Z.of_N n * 10 ^ z).
  { rewrite N2Z.inj_mul, N2Z.inj_pow, Z2N.id by done. done. }
  apply digit_count_unique; [lia|]. rewrite Heq.
  replace (digit_count n + z - 1) with ((digit_count n - 1) + z) by lia.
  rewrite !Z.pow_add_r by lia. nia.
Qed.

(** ** of_decimal *)

Lemma iter_xO m d : Z.pos (Pos.iter xO m d) = Z.pos m * 2 ^ Z.pos d.
Proof.
  rewrite Pos2Nat.inj_iter, <- (positive_nat_Z d). induction (Pos.to_nat d) as [|n IH]; [simpl; lia|].
  rewrite Nat2Z.inj_succ, Z.pow_succ_r by lia.
  cbn [nat_rect]. rewrite Pos2Z.inj_xO, IH. lia.
Qed.

Lemma shl_align_spec m e e' :
  let r := shl_align m e e' in
  r.2 = Z.min e e' ∧ Z.pos r.1 = Z.pos m * 2 ^ (e - r.2).
Proof.
  unfold shl_align. destruct (e' - e) as [|d|d] eqn:E; simpl.
  - split; [lia|]. rewrite Z.sub_diag. lia.
  - split; [lia|]. rewrite Z.sub_diag. lia.
  - split; [lia|]. replace (e - e') with (Z.pos d) by lia.
    apply iter_xO.
Qed.

Lemma binary_round_valid m : valid_binary prec emax (binary_round prec emax false m 0) = true.
Proof.
  unfold binary_round. rewrite Z.add_0_r.
  destruct (shl_align_spec m 0 (fexp prec emax (Z.pos (digits2_pos m)))) as [He Hm].
  destruct (shl_align _ _ _) as [mz ez]. cbn [fst snd] in He, Hm.
  apply binary_round_aux_valid; [lia|]. rewrite Hm, Zdigits2_mul_pow2 by lia.
  cbn [Zdigits2]. replace (Z.pos (digits2_pos m) + (0 - ez) + ez) with (Z.pos (digits2_pos m)) by lia.
  lia.
Qed.

Lemma div_core_spec m1 m2 :
  0 < m1 → 0 < m2 →
  let '(q, e, l) := SFdiv_core_binary prec emax m1 0 m2 0 in
  e = Z.min (fexp prec emax (Zdigits2 m1 - Zdigits2 m2)) 0 ∧
  q = m1 * 2 ^ (- e) / m2 ∧ (l = loc_Exact ↔ m1 * 2 ^ (- e) mod m2 = 0).
Proof.
  intros H1 H2. unfold SFdiv_core_binary.
  rewrite !Z.add_0_r, !Z.sub_0_r. set (e' := Z.min _ 0).
  assert (Hm : (match 0 - e' with 0 => m1 | Zpos _ => Z.shiftl m1 (0 - e') | Zneg _ => 0 end)
    = m1 * 2 ^ (- e')).
  { replace (0 - e') with (- e') by lia. destruct (- e') as [|p|p] eqn:E; [lia| |lia].
    by rewrite Z.shiftl_mul_pow2. }
  rewrite Hm. assert (Hdm := Z_div_mod (m1 * 2 ^ (- e')) m2 ltac:(lia)).
  destruct (Z.div_eucl (m1 * 2 ^ (- e')) m2) as [q r] eqn:E.
  assert (m1 * 2 ^ (- e') / m2 = q) as -> by (unfold Z.div; by rewrite E).
  assert (m1 * 2 ^ (- e') mod m2 = r) as -> by (unfold Z.modulo; by rewrite E).
  split_and!; [done|done|].
  unfold new_location, new_location_even, new_location_odd.
  destruct (Z.even m2), (Z.eqb_spec r 0); by split.
Qed.

Lemma div_core_valid m1 m2 :
  0 < m1 → 0 < m2 →
  let '(q, e, l) := SFdiv_core_binary prec emax m1 0 m2 0 in
  valid_binary prec emax (binary_round_aux prec emax false q e l) = true.
Proof.
  intros H1 H2. pose proof (div_core_spec m1 m2 H1 H2) as Hspec.
  destruct (SFdiv_core_binary _ _ _ _ _ _) as [[q e] l]. destruct Hspec as (He & Hq & _).
  assert (Hpow : 0 < 2 ^ (- e)) by (apply Z.pow_pos_nonneg; lia).
  assert (Hq0 : 0 ≤ q) by (rewrite Hq; apply Z.div_pos; nia).
  apply binary_round_aux_valid; [done|]. rewrite He at 1.
  transitivity (fexp prec emax (Zdigits2 m1 - Zdigits2 m2)); [lia|]. apply fexp_mono.
  destruct (decide (Zdigits2 m1 - e - Zdigits2 m2 ≤ 0)); [pose proof (Zdigits2_nonneg q); lia|].
  assert (Hlow : 2 ^ (Zdigits2 m1 - e - Zdigits2 m2 - 1) ≤ q).
  { rewrite Hq. apply Z.div_le_lower_bound; [done|].
    rewrite (Zdigits2_log2 m1), (Zdigits2_log2 m2) in * by done.
    destruct (Z.log2_spec m1 H1) as [Hl1 _]. destruct (Z.log2_spec m2 H2) as [_ Hl2].
    pose proof (Z.log2_nonneg m1). pose proof (Z.log2_nonneg m2).
    transitivity (2 ^ Z.succ (Z.log2 m2) * 2 ^ (Z.log2 m1 + 1 - e - (Z.log2 m2 + 1) - 1)).
    { apply Z.mul_le_mono_nonneg_r; [apply Z.pow_nonneg; lia|lia]. }
    rewrite <- Z.pow_add_r by lia.
    replace (Z.succ (Z.log2 m2) + (Z.log2 m1 + 1 - e - (Z.log2 m2 + 1) - 1)) with (Z.log2 m1 + - e) by lia.
    rewrite Z.pow_add_r by lia. nia. }
  assert (0 < q) by (assert (0 < 2 ^ (Zdigits2 m1 - e - Zdigits2 m2 - 1)) by (apply Z.pow_pos_nonneg; lia); lia).
  rewrite (Zdigits2_log2 q) by done.
  assert (Zdigits2 m1 - e - Zdigits2 m2 - 1 ≤ Z.log2 q); [|lia].
  rewrite <- (Z.log2_pow2 (Zdigits2 m1 - e - Zdigits2 m2 - 1)) by lia. by apply Z.log2_le_mono.
Qed.

(** Every decimal literal denotes a canonical binary64 number. *)
Lemma of_decimal_valid M E : valid_binary prec emax (of_decimal M E) = true.
Proof.
  unfold of_decimal. destruct (M =? 0)%N eqn:EM; [done|]. apply N.eqb_neq in EM.
  destruct (400 <? _); [done|]. destruct (_ <? -400); [done|].
  destruct (0 <=? E) eqn:EE; [apply binary_round_valid|]. apply Z.leb_gt in EE.
  pose proof (div_core_valid (Z.of_N M) (10 ^ (- E))) as Hv.
  destruct (SFdiv_core_binary _ _ _ _ _ _) as [[q e] l].
  apply Hv; [lia|apply Z.pow_pos_nonneg; lia].
Qed.

Lemma of_decimal_scale M z : (0 < M)%N → 0 ≤ z → of_decimal (M * 10 ^ Z.to_N z) 0 = of_decimal M z.
Proof.
  intros HM Hz. unfold of_decimal.
  assert (0 < 10 ^ Z.to_N z)%N by (apply N.neq_0_lt_0, N.pow_nonzero; done).
  rewrite (proj2 (N.eqb_neq M 0)), (proj2 (N.eqb_neq (M * _) 0)) by nia.
  rewrite digit_count_scale, Z.add_0_r by done.
  destruct (400 <? _); [done|]. destruct (_ <? -400); [done|].
  rewrite (proj2 (Z.leb_le 0 z)) by done. simpl (0 <=? 0). cbn match. f_equal. f_equal.
  rewrite N2Z.inj_mul, N2Z.inj_pow, Z2N.id by done. simpl. lia.
Qed.

(** ** The shortest text of a number reads back *)

Lemma bounded_range m e :
  bounded prec emax m e = true →
  fexp prec emax (Zdigits2 (Z.pos m) + e) = e ∧ Z.pos m < 2 ^ 53 ∧ -1074 ≤ e ≤ 971.
Proof.
  unfold bounded, canonical_mantissa. intros [Hc%Z.eqb_eq Hb%Z.leb_le]%andb_true_iff.
  change (Z.pos (digits2_pos m)) with (Zdigits2 (Z.pos m)) in Hc. split; [done|].
  assert (Zdigits2 (Z.pos m) ≤ 53) as Hd by (unfold fexp, prec in Hc; lia).
  pose proof (digits2_pos_bounds m) as [_ Hm]. cbn [Zdigits2] in Hd.
  assert (2 ^ Z.pos (digits2_pos m) ≤ 2 ^ 53) by (apply Z.pow_le_mono_r; lia).
  split; [lia|]. unfold fexp, emin, prec, emax in *. lia.
Qed.

Lemma of_decimal_exact_integer m e :
  bounded prec emax m e = true → 0 ≤ e →
  of_decimal (Z.to_N (Z.pos m * 2 ^ e)) 0 = S754_finite false m e.
Proof.
  intros Hb He. destruct (bounded_range m e Hb) as (Hc & Hm & Hr).
  assert (Hpow : 0 < 2 ^ e) by (by apply Z.pow_pos_nonneg).
  set (V := Z.pos m * 2 ^ e) in *. assert (0 < V) by (unfold V; nia).
  unfold of_decimal. rewrite (proj2 (N.eqb_neq (Z.to_N V) 0)) by lia.
  destruct (digit_count_bounds (Z.to_N V) ltac:(lia)) as (Hd & Hlo & _).
  rewrite Z2N.id in Hlo by lia. rewrite Z.add_0_r.
  assert (digit_count (Z.to_N V) ≤ 400).
  { destruct (decide (digit_count (Z.to_N V) ≤ 400)) as [|Hn]; [done|].
    assert (10 ^ 400 ≤ 10 ^ (digit_count (Z.to_N V) - 1)) by (apply Z.pow_le_mono_r; lia).
    assert (2 ^ e ≤ 2 ^ 971) by (apply Z.pow_le_mono_r; lia).
    assert (2 ^ 53 * 2 ^ 971 < 10 ^ 400) by (by vm_compute). unfold V in *. nia. }
  rewrite (proj2 (Z.ltb_ge 400 _)), (proj2 (Z.ltb_ge _ (-400))) by lia.
  change (0 <=? 0) with true. cbn match. rewrite Z2N.id by lia. rewrite Z.pow_0_r, Z.mul_1_r.
  unfold binary_round. rewrite Z.add_0_r.
  assert (Hdig : Z.pos (digits2_pos (Z.to_pos V)) = Zdigits2 (Z.pos m) + e).
  { change (Z.pos (digits2_pos (Z.to_pos V))) with (Zdigits2 (Z.pos (Z.to_pos V))).
    rewrite Z2Pos.id by done. unfold V. by rewrite Zdigits2_mul_pow2. }
  rewrite Hdig, Hc. destruct (shl_align_spec (Z.to_pos V) 0 e) as [H2 H1].
  destruct (shl_align _ _ _) as [mz ez]. cbn [fst snd] in H1, H2.
  assert (ez = 0) as -> by lia. rewrite Z.sub_diag, Z.pow_0_r, Z.mul_1_r, Z2Pos.id in H1 by done.
  rewrite H1. rewrite <- (Z.sub_diag e). by apply binary_round_aux_exact.
Qed.

Lemma of_decimal_exact_fraction m e :
  bounded prec emax m e = true → e < 0 →
  of_decimal (Z.to_N (Z.pos m * 5 ^ (- e))) e = S754_finite false m e.
Proof.
  intros Hb He. destruct (bounded_range m e Hb) as (Hc & Hm & Hr). set (k := - e) in *.
  assert (H5 : 0 < 5 ^ k) by (apply Z.pow_pos_nonneg; lia).
  assert (H2 : 0 < 2 ^ k) by (apply Z.pow_pos_nonneg; lia).
  assert (H10 : 10 ^ k = 5 ^ k * 2 ^ k) by (rewrite <- Z.pow_mul_l; done).
  set (V := Z.pos m * 5 ^ k) in *. assert (0 < V) by (unfold V; nia).
  unfold of_decimal. rewrite (proj2 (N.eqb_neq (Z.to_N V) 0)) by lia.
  destruct (digit_count_bounds (Z.to_N V) ltac:(lia)) as (Hd & Hlo & Hhi).
  rewrite Z2N.id in Hlo, Hhi by lia. set (dc := digit_count (Z.to_N V)) in *.
  assert (dc + e ≤ 400).
  { destruct (decide (dc + e ≤ 400)) as [|Hn]; [done|].
    assert (10 ^ (k + 400) ≤ 10 ^ (dc - 1)) as Hle by (apply Z.pow_le_mono_r; lia).
    rewrite Z.pow_add_r in Hle by lia. assert (2 ^ 53 < 10 ^ 400) by (by vm_compute).
    unfold V in *. nia. }
  assert (-400 ≤ dc + e).
  { destruct (decide (-400 ≤ dc + e)) as [|Hn]; [done|].
    assert (Hs : 10 ^ k = 10 ^ (k - dc) * 10 ^ dc) by (rewrite <- Z.pow_add_r by lia; f_equal; lia).
    assert (10 ^ 400 ≤ 10 ^ (k - dc)) by (apply Z.pow_le_mono_r; lia).
    assert (2 ^ k ≤ 2 ^ 1074) by (apply Z.pow_le_mono_r; lia).
    assert (2 ^ 1074 < 10 ^ 400) by (by vm_compute).
    assert (V * 2 ^ k < 10 ^ dc * 10 ^ 400) by nia.
    assert (10 ^ k ≤ V * 2 ^ k) by (unfold V; nia). nia. }
  rewrite (proj2 (Z.ltb_ge 400 _)), (proj2 (Z.ltb_ge _ (-400))) by lia.
  rewrite (proj2 (Z.leb_gt 0 e)) by lia. fold k. rewrite Z2N.id by lia.
  assert (H10' : 0 < 10 ^ k) by (apply Z.pow_pos_nonneg; lia).
  pose proof (div_core_spec V (10 ^ k) ltac:(lia) ltac:(lia)) as Hspec.
  destruct (SFdiv_core_binary _ _ _ _ _ _) as [[q e'] l]. destruct Hspec as (He' & Hq & Hl).
  assert (Hdig : Zdigits2 V - Zdigits2 (10 ^ k) ≤ Zdigits2 (Z.pos m) + e).
  { rewrite !Zdigits2_log2 by lia.
    assert (Z.log2 V + k = Z.log2 (Z.pos m * 10 ^ k)) as Hlog.
    { rewrite Z.add_comm, <- (Z.log2_mul_pow2 V k) by lia. f_equal. unfold V. rewrite H10. lia. }
    pose proof (Z.log2_mul_above (Z.pos m) (10 ^ k)). lia. }
  assert (e' ≤ e) by (pose proof (fexp_mono _ _ Hdig); lia).
  assert (Heq : V * 2 ^ (- e') = Z.pos m * 2 ^ (e - e') * 10 ^ k).
  { replace (- e') with ((e - e') + k) by lia. rewrite Z.pow_add_r by lia. unfold V. rewrite H10. lia. }
  rewrite Heq in Hq, Hl. rewrite Z.div_mul in Hq by lia. rewrite Z.mod_mul in Hl by lia.
  rewrite Hq, (proj2 Hl eq_refl). replace e' with (e - (e - e')) by lia.
  replace (e - (e - (e - e'))) with (e - e') by lia. apply binary_round_aux_exact; [done|lia].
Qed.

Lemma shortest_spec m e :
  bounded prec emax m e = true →
  let c := shortest m e in (0 < c.1)%N ∧ of_decimal c.1 c.2 = S754_finite false m e.
Proof.
  intros Hb. unfold shortest.
  destruct (List.find _ _) as [c|] eqn:E.
  - apply find_some in E as [_ [H1%N.ltb_lt H2%bool_decide_eq_true]%andb_true_iff]. by split.
  - destruct (0 <=? e) eqn:He; simpl.
    + apply Z.leb_le in He. assert (0 < 2 ^ e) by (by apply Z.pow_pos_nonneg).
      split; [nia|by apply of_decimal_exact_integer].
    + apply Z.leb_gt in He. assert (0 < 5 ^ (- e)) by (apply Z.pow_pos_nonneg; lia).
      split; [nia|by apply of_decimal_exact_fraction].
Qed.

(** ** Reading formatted digits *)

Definition stops (p : code_unit → bool) (s : jsstring) : Prop :=
  match s with [] => True | c :: _ => p c = false end.

Lemma span_stops p a b : forallb p a = true → stops p b → span p (a ++ b) = (a, b).
Proof.
  induction a as [|c a IH]; simpl; intros Ha Hb.
  - destruct b as [|d b]; simpl in *; [done|]. by rewrite Hb.
  - destruct (p c); [|done]. by rewrite IH.
Qed.

Lemma dec_value_app a b : dec_value (a ++ b) = (dec_value a * 10 ^ N.of_nat (length b) + dec_value b)%N.
Proof.
  unfold dec_value. rewrite foldl_app.
  assert (∀ v, foldl (λ v c, v * 10 + (c - 48)) v b =
    v * 10 ^ N.of_nat (length b) + foldl (λ v c, v * 10 + (c - 48)) 0 b)%N as H; [|apply H].
  induction b as [|c b IH]; intros v; [simpl; lia|].
  cbn [foldl length]. rewrite IH, (IH (0 * 10 + (c - 48))%N), Nat2N.inj_succ, N.pow_succ_r'. lia.
Qed.

Lemma dec_value_zeros n : dec_value (replicate n 48%N) = 0%N.
Proof.
  unfold dec_value. induction n as [|n IH]; [done|]. simpl. exact IH.
Qed.

Lemma digits_zeros n : forallb is_digit (replicate n 48%N) = true.
Proof. by induction n. Qed.

Lemma digits_take_drop n ds :
  forallb is_digit ds = true → forallb is_digit (take n ds) = true ∧ forallb is_digit (drop n ds) = true.
Proof. rewrite <- (take_drop n ds) at 1. rewrite forallb_app. by intros [? ?]%andb_true_iff. Qed.

Lemma scan_mantissa_integer ds r :
  forallb is_digit ds = true → ds ≠ [] → stops is_digit r → stops (λ c, (c =? 46)%N) r →
  scan_mantissa (ds ++ r) = Some (ds, [], r).
Proof.
  intros Hd Hne Hr Hp. unfold scan_mantissa. rewrite span_stops by done.
  destruct ds as [|d ds]; [done|]. destruct r as [|c r]; [done|]. simpl in Hp. by rewrite Hp.
Qed.

Lemma scan_mantissa_point ip fp r :
  forallb is_digit ip = true → ip ≠ [] → forallb is_digit fp = true → stops is_digit r →
  scan_mantissa (ip ++ 46%N :: fp ++ r) = Some (ip, fp, r).
Proof.
  intros Hi Hne Hf Hr. unfold scan_mantissa. rewrite span_stops by done.
  destruct ip as [|d ip]; [done|]. change ((46 =? 46)%N) with true. cbn match.
  by rewrite span_stops.
Qed.

Lemma exponent_text_spec x :
  exponent_text x = 101%N :: (if x <? 0 then 45%N else 43%N) :: dec_string (Z.to_N (Z.abs x)).
Proof. unfold exponent_text. by destruct (x <? 0). Qed.

Lemma dec_string_spec n :
  forallb is_digit (dec_string n) = true ∧ dec_value (dec_string n) = n ∧ dec_string n ≠ [].
Proof.
  destruct (decide (0 < n)%N) as [Hn|Hn].
  - by destruct (dec_string_digits n Hn).
  - assert (n = 0%N) as -> by lia. done.
Qed.

Lemma scan_exponent_text x : scan_exponent (exponent_text x) = (x, []).
Proof.
  rewrite exponent_text_spec. destruct (dec_string_spec (Z.to_N (Z.abs x))) as (Hd & Hv & Hne).
  cbn [scan_exponent]. change ((101 =? 101) || (101 =? 69))%N with true. cbn match.
  assert (Hsp := span_stops is_digit (dec_string (Z.to_N (Z.abs x))) [] Hd I). rewrite app_nil_r in Hsp.
  destruct (x <? 0) eqn:E; cbn [scan_sign];
    [change ((45 =? 45)%N) with true|change ((43 =? 45)%N) with false; change ((43 =? 43)%N) with true];
    cbn match; rewrite Hsp; (destruct (dec_string _) eqn:Es; [done|]); rewrite Hv;
    [apply Z.ltb_lt in E|apply Z.ltb_ge in E]; f_equal; lia.
Qed.

Lemma scan_exponent_nil : scan_exponent [] = (0, []).
Proof. done. Qed.

(** The decimal reading of the formatted digits [ds] with exponent [n]. *)
Lemma scan_format M ds n :
  digits_of M ds → (0 < M)%N →
  scan_decimal (format_decimal ds n) = Some (of_decimal M (n - Z.of_nat (length ds)), []).
Proof.
  intros [Hd Hv _ _ Hne] HM. unfold format_decimal. set (k := Z.of_nat (length ds)).
  assert (Hk : 0 < k) by (destruct ds; [done|simpl in k; lia]).
  destruct ((k <=? n) && (n <=? 21)) eqn:E1; [|destruct ((0 <? n) && (n <=? 21)) eqn:E2;
    [|destruct ((-6 <? n) && (n <=? 0)) eqn:E3]].
  - apply andb_true_iff in E1 as [E1%Z.leb_le _]. unfold scan_decimal.
    rewrite <- (app_nil_r (ds ++ _)), scan_mantissa_integer; try done.
    + rewrite scan_exponent_nil, app_nil_r. simpl length. do 2 f_equal.
      rewrite dec_value_app, dec_value_zeros, length_replicate, Hv, N.add_0_r.
      replace (N.of_nat (Z.to_nat (n - k))) with (Z.to_N (n - k)) by lia.
      change (0 - Z.of_nat 0) with 0. apply of_decimal_scale; [done|lia].
    + by rewrite forallb_app, Hd, digits_zeros.
    + by destruct ds.
  - apply andb_true_iff in E2 as [E2%Z.ltb_lt E2'%Z.leb_le]. apply andb_false_iff in E1.
    unfold scan_decimal. destruct (digits_take_drop (Z.to_nat n) ds Hd) as [Ht Hdr].
    change (js ".") with [46%N]. cbn [app]. rewrite <- (app_nil_r (drop _ ds)), scan_mantissa_point; try done.
    + rewrite scan_exponent_nil, take_drop, Hv. do 2 f_equal. f_equal. rewrite length_drop.
      destruct E1 as [E1%Z.leb_gt|E1%Z.leb_gt]; lia.
    + assert (0 < Z.to_nat n)%nat by lia. destruct ds; [done|]. by destruct (Z.to_nat n); [lia|].
  - apply andb_true_iff in E3 as [E3%Z.ltb_lt E3'%Z.leb_le]. unfold scan_decimal.
    change (js "0." ++ ?x) with ([48%N] ++ 46%N :: x).
    rewrite <- (app_nil_r (replicate _ _ ++ ds)), scan_mantissa_point; try done.
    + rewrite scan_exponent_nil, !dec_value_app, dec_value_zeros, Hv. do 2 f_equal.
      change (dec_value [48%N]) with 0%N. rewrite length_app, length_replicate. f_equal; lia.
    + by rewrite forallb_app, digits_zeros, Hd.
  - unfold scan_decimal, mantissa_text. destruct ds as [|d ds]; [done|].
    destruct ds as [|d' ds].
    + rewrite scan_mantissa_integer by (done || by rewrite exponent_text_spec).
      rewrite scan_exponent_text, app_nil_r, Hv. simpl length. do 2 f_equal. f_equal. unfold k. simpl. lia.
    + simpl in Hd. apply andb_true_iff in Hd as [Hd1 Hd].
      change (js "." ++ ?x) with (46%N :: x).
      change ((d :: 46%N :: d' :: ds) ++ exponent_text (n - 1))
        with ([d] ++ 46%N :: (d' :: ds) ++ exponent_text (n - 1)).
      rewrite scan_mantissa_point by (done || (simpl; by rewrite Hd1) || by rewrite exponent_text_spec).
      rewrite scan_exponent_text. change ([d] ++ d' :: ds) with (d :: d' :: ds). rewrite Hv.
      do 2 f_equal. f_equal. unfold k. simpl length. lia.
Qed.

(** ** Number(String(x)) *)

(** The characters of a formatted number. *)
Definition number_char (c : code_unit) : bool :=
  is_digit c || existsb (N.eqb c) [43; 45; 46; 101]%N.

Lemma number_chars_digits ds : forallb is_digit ds = true → forallb number_char ds = true.
Proof.
  rewrite !forallb_forall. intros H c Hc. unfold number_char. by rewrite (H c Hc).
Qed.

Lemma format_chars ds n : forallb is_digit ds = true → forallb number_char (format_decimal ds n) = true.
Proof.
  intros Hd. pose proof (number_chars_digits ds Hd) as Hc.
  assert (Hz : ∀ k, forallb number_char (replicate k 48%N) = true)
    by (intros k; apply number_chars_digits, digits_zeros).
  assert (He : ∀ x, forallb number_char (exponent_text x) = true).
  { intros x. rewrite exponent_text_spec. cbn [forallb].
    rewrite (number_chars_digits _ (proj1 (dec_string_spec _))). by destruct (x <? 0). }
  unfold format_decimal. destruct (_ && _); [by rewrite forallb_app, Hc, Hz|].
  destruct (_ && _).
  { destruct (digits_take_drop (Z.to_nat n) ds Hd) as [Ht%number_chars_digits Hdr%number_chars_digits].
    change (js ".") with [46%N]. by rewrite !forallb_app, Ht, Hdr. }
  destruct (_ && _).
  { change (js "0." ++ ?x) with ([48; 46]%N ++ x). by rewrite !forallb_app, Hz, Hc. }
  rewrite forallb_app, He, andb_true_r. unfold mantissa_text. destruct ds as [|d [|d' ds]]; try done.
Qed.

Lemma number_char_cases c : number_char c = true →
  is_space c = false ∧ existsb (N.eqb c) [120; 88; 111; 79; 98; 66; 73]%N = false.
Proof.
  unfold number_char, is_digit. rewrite orb_true_iff, andb_true_iff, !N.leb_le.
  intros [[Hl Hh]|H].
  - assert (∃ k, (k < 10)%nat ∧ c = (48 + N.of_nat k)%N) as (k & Hk & ->)
      by (exists (N.to_nat (c - 48)); lia).
    do 10 (destruct k as [|k]; [by vm_compute|]). lia.
  - cbn [existsb] in H. repeat (apply orb_true_iff in H as [->%N.eqb_eq|H]; [by vm_compute|]). done.
Qed.

Lemma trim_no_space s : forallb (λ c, negb (is_space c)) s = true → trim s = s.
Proof.
  intros H. unfold trim, trim_end, trim_start.
  assert (Hd : ∀ t, forallb (λ c, negb (is_space c)) t = true → drop_while is_space t = t).
  { intros t Ht. apply drop_while_none. destruct t as [|c t]; [done|]. simpl in Ht.
    by apply andb_true_iff in Ht as [?%negb_true_iff _]. }
  rewrite (Hd s H), Hd; [apply reverse_involutive|].
  rewrite forallb_forall in *. intros c Hc. apply H.
  by rewrite <- list_elem_of_In, elem_of_reverse, list_elem_of_In in Hc.
Qed.

Lemma trim_number s : forallb number_char s = true → trim s = s.
Proof.
  intros H. apply trim_no_space. rewrite forallb_forall in *. intros c Hc.
  by rewrite (proj1 (number_char_cases c (H c Hc))).
Qed.

(** Reading an unsigned decimal text. *)
Lemma number_of_decimal s x :
  forallb number_char s = true → stops (λ c, negb (is_digit c)) s → scan_decimal s = Some (x, []) →
  number_of_string s = x.
Proof.
  intros Hc Hs Hx. unfold number_of_string. rewrite (trim_number s Hc).
  destruct s as [|c s]; [done|]. simpl in Hs. apply negb_false_iff in Hs.
  assert (Hsign : scan_sign (c :: s) = (false, c :: s)).
  { simpl. unfold is_digit in Hs. apply andb_true_iff in Hs as [Hl%N.leb_le Hh%N.leb_le].
    by rewrite (proj2 (N.eqb_neq c 45)), (proj2 (N.eqb_neq c 43)) by lia. }
  assert (Hinf : (c :: s =s js "Infinity") = false).
  { apply str_eqb_neq. intros [= -> _]. by vm_compute in Hs. }
  rewrite Hsign, Hinf, Hx.
  destruct (decide (c = 48%N)) as [->|Hne].
  - destruct s as [|d s]; [done|]. simpl in Hc. apply andb_true_iff in Hc as [Hd _].
    destruct (number_char_cases d Hd) as [_ Hn]. cbn [existsb] in Hn.
    repeat (apply orb_false_iff in Hn as [? Hn]).
    repeat match goal with H : (d =? _)%N = false |- _ => rewrite H; clear H end. done.
  - by destruct c as [|p]; [|do 6 (destruct p as [p|p|]; try done)].
Qed.

Lemma format_nonempty M ds n : digits_of M ds →
  stops (λ c, negb (is_digit c)) (format_decimal ds n) ∧ format_decimal ds n ≠ [].
Proof.
  intros [Hd _ _ _ Hne]. unfold format_decimal. destruct ds as [|d ds]; [done|].
  simpl in Hd. apply andb_true_iff in Hd as [Hd _]. 
  destruct (_ && _); [simpl; by rewrite Hd|]. destruct (_ && _) eqn:E.
  { apply andb_true_iff in E as [E%Z.ltb_lt _]. destruct (Z.to_nat n) eqn:En; [lia|].
    simpl. by rewrite Hd. }
  destruct ((-6 <? n) && (n <=? 0)); [done|]. unfold mantissa_text.
  destruct ds; change (js ".") with [46%N]; cbn [app stops]; (split; [by rewrite Hd|done]).
Qed.

(** The text of a positive number. *)
Lemma number_text m e :
  bounded prec emax m e = true →
  let s := num_to_string (S754_finite false m e) in
  forallb number_char s = true ∧ stops (λ c, negb (is_digit c)) s ∧
  scan_decimal s = Some (S754_finite false m e, []).
Proof.
  intros Hb. cbn [num_to_string]. destruct (shortest_spec m e Hb) as [HM Hof].
  destruct (shortest m e) as [M E]. cbn [fst snd] in HM, Hof.
  pose proof (dec_string_digits M HM) as Hds. split_and!.
  - apply format_chars. by destruct Hds.
  - by eapply format_nonempty.
  - cbn [app]. rewrite (scan_format M) by done. do 2 f_equal. rewrite <- Hof. f_equal. lia.
Qed.

(** [Number(String(x))] is [x]. *)
Lemma number_of_text x :
  valid_binary prec emax x = true → x ≠ neg_zero → number_of_string (num_to_string x) = x.
Proof.
  intros Hv Hne. destruct x as [[]|[]| |[] m e]; try done.
  - simpl in Hv. destruct (number_text m e Hv) as (Hc & Hs & Hx).
    assert (num_to_string (S754_finite true m e) = 45%N :: num_to_string (S754_finite false m e)) as ->
      by (cbn [num_to_string]; by destruct (shortest m e)).
    set (s := num_to_string (S754_finite false m e)) in *. unfold number_of_string.
    rewrite trim_number by (cbn [forallb]; by rewrite Hc). cbn [scan_sign].
    change ((45 =? 45)%N) with true. cbn match.
    assert ((s =s js "Infinity") = false) as ->; [|by rewrite Hx].
    apply str_eqb_neq. intros ->. by vm_compute in Hs.
  - simpl in Hv. destruct (number_text m e Hv) as (Hc & Hs & Hx). by apply number_of_decimal.
Qed.

Lemma scan_decimal_valid s x r : scan_decimal s = Some (x, r) → valid_binary prec emax x = true.
Proof.
  unfold scan_decimal. destruct (scan_mantissa s) as [[[ip fp] t]|]; [|done].
  destruct (scan_exponent t) as [e u]. intros [= <- _]. apply of_decimal_valid.
Qed.
