(* ===== verification/JsIntegers.v ===== *)
(** * Integers among the numbers, and their order

    Below [2^53] integers are numbers exactly: comparison, addition, minimum and
    maximum of the numbers are those of the integers. All numbers but NaN are in
    one order, which [num_order] reasons about. *)

From S2P Require Import Prelude JsNumber JsNumberFacts.
From Stdlib Require Import Floats.SpecFloat.
#[local] Open Scope Z_scope.

(** The numbers that represent integers exactly, and are not ambiguous. *)
Definition small (z : Z) : Prop := Z.abs z < 2 ^ 53.

Lemma binary_round_aux_opp m e l :
  binary_round_aux prec emax true m e l = SFopp (binary_round_aux prec emax false m e l).
Proof.
  unfold binary_round_aux. destruct (shr_fexp _ _ m e l) as [mrs e'].
  destruct (shr_fexp _ _ _ e' loc_Exact) as [mrs'' e'']. destruct (shr_m mrs''); try done.
  by destruct (e'' <=? emax - prec).
Qed.

Lemma binary_normalize_opp p e s :
  binary_normalize prec emax (Z.neg p) e s = SFopp (binary_normalize prec emax (Z.pos p) e s).
Proof.
  cbn [binary_normalize]. unfold binary_round. destruct (shl_align _ _ _). apply binary_round_aux_opp.
Qed.

Lemma log2_small p : Z.pos p < 2 ^ 53 → 0 ≤ Z.log2 (Z.pos p) < 53.
Proof.
  intros Hp. split; [apply Z.log2_nonneg|]. apply Z.log2_lt_pow2; [lia|]. exact Hp.
Qed.

(** The mantissa of an integer: 53 bits. *)
Lemma integer_bounded p m (e := Z.log2 (Z.pos p) - 52) :
  Z.pos p < 2 ^ 53 → Z.pos m = Z.pos p * 2 ^ (- e) → bounded prec emax m e = true.
Proof.
  intros Hp Hm. pose proof (log2_small p Hp) as Hl.
  assert (Zdigits2 (Z.pos m) = 53) as Hd.
  { rewrite Hm, Zdigits2_mul_pow2, Zdigits2_log2 by (subst e; lia). subst e. lia. }
  unfold bounded, canonical_mantissa. change (Z.pos (digits2_pos m)) with (Zdigits2 (Z.pos m)).
  rewrite Hd. apply andb_true_iff. split; [apply Z.eqb_eq|apply Z.leb_le];
    unfold fexp, emin, prec, emax; subst e; lia.
Qed.

(** A scaled integer normalizes to the number of the integer. *)
Lemma normalize_scaled p q j m s (e := Z.log2 (Z.pos p) - 52) :
  Z.pos p < 2 ^ 53 → 0 ≤ j → Z.pos q = Z.pos p * 2 ^ j → Z.pos m = Z.pos p * 2 ^ (- e) →
  binary_normalize prec emax (Z.pos q) (- j) s = S754_finite false m e.
Proof.
  intros Hp Hj Hq Hm. pose proof (log2_small p Hp) as Hl.
  cbn [binary_normalize]. unfold binary_round.
  assert (fexp prec emax (Z.pos (digits2_pos q) + - j) = e) as ->.
  { change (Z.pos (digits2_pos q)) with (Zdigits2 (Z.pos q)).
    rewrite Hq, Zdigits2_mul_pow2, Zdigits2_log2 by lia. unfold fexp, emin, prec, emax. subst e. lia. }
  destruct (shl_align_spec q (- j) e) as [Hez Hmz].
  destruct (shl_align q (- j) e) as [mz ez]. cbn [fst snd] in *.
  assert (Z.pos mz = Z.pos m * 2 ^ (e - ez)) as ->.
  { rewrite Hmz, Hq, Hm, <- !Z.mul_assoc, <- !Z.pow_add_r by (subst e; lia). f_equal. f_equal. lia. }
  replace ez with (e - (e - ez)) at 2 by lia.
  apply binary_round_aux_exact; [|lia]. by apply (integer_bounded p).
Qed.

Lemma integer_mantissa p : ∃ m, Z.pos m = Z.pos p * 2 ^ (- (Z.log2 (Z.pos p) - 52)) ∨ 2 ^ 53 ≤ Z.pos p.
Proof.
  destruct (decide (Z.pos p < 2 ^ 53)) as [Hp|]; [|exists 1%positive; lia].
  pose proof (log2_small p Hp). exists (Z.to_pos (Z.pos p * 2 ^ (- (Z.log2 (Z.pos p) - 52)))). left.
  rewrite Z2Pos.id; [done|]. pose proof (Z.pow_pos_nonneg 2 (- (Z.log2 (Z.pos p) - 52)) ltac:(lia) ltac:(lia)).
  nia.
Qed.

(** The representation of a positive integer. *)
Lemma num_of_positive p :
  Z.pos p < 2 ^ 53 → ∃ m, Z.pos m = Z.pos p * 2 ^ (52 - Z.log2 (Z.pos p)) ∧
    num_of_Z (Z.pos p) = S754_finite false m (Z.log2 (Z.pos p) - 52).
Proof.
  intros Hp. destruct (integer_mantissa p) as [m [Hm|]]; [|lia]. exists m. split.
  - rewrite Hm. f_equal. f_equal. lia.
  - unfold num_of_Z. change 0 with (- 0). apply (normalize_scaled p p 0); [done|lia| |done].
    by rewrite Z.pow_0_r, Z.mul_1_r.
Qed.

Lemma num_of_negative p : num_of_Z (Z.neg p) = SFopp (num_of_Z (Z.pos p)).
Proof. apply binary_normalize_opp. Qed.

(** ** Comparison *)
Lemma positive_compare p q mp mq :
  Z.pos p < 2 ^ 53 → Z.pos q < 2 ^ 53 →
  Z.pos mp = Z.pos p * 2 ^ (52 - Z.log2 (Z.pos p)) → Z.pos mq = Z.pos q * 2 ^ (52 - Z.log2 (Z.pos q)) →
  match Z.log2 (Z.pos p) - 52 ?= Z.log2 (Z.pos q) - 52 with
  | Eq => Pos.compare_cont Eq mp mq
  | c => c
  end = (Z.pos p ?= Z.pos q).
Proof.
  intros Hp Hq Hmp Hmq. pose proof (log2_small p Hp). pose proof (log2_small q Hq).
  destruct (Z.compare_spec (Z.log2 (Z.pos p) - 52) (Z.log2 (Z.pos q) - 52)) as [He|Hlt|Hgt].
  - change (Pos.compare_cont Eq mp mq) with (Z.pos mp ?= Z.pos mq).
    assert (Z.log2 (Z.pos p) = Z.log2 (Z.pos q)) as Hl by lia. rewrite Hmp, Hmq, Hl.
    rewrite Z.mul_comm, (Z.mul_comm (Z.pos q)), <- Zmult_compare_compat_l; [done|].
    apply Z.lt_gt, Z.pow_pos_nonneg; lia.
  - symmetry. apply Z.compare_lt_iff. apply Z.log2_lt_cancel. lia.
  - symmetry. apply Z.compare_gt_iff. apply Z.log2_lt_cancel. lia.
Qed.

Lemma num_compare a b : small a → small b → SFcompare (num_of_Z a) (num_of_Z b) = Some (a ?= b).
Proof.
  unfold small. intros Ha Hb. destruct a as [|p|p], b as [|q|q]; rewrite ?num_of_negative;
    try destruct (num_of_positive p ltac:(lia)) as (mp & Hmp & ->);
    try destruct (num_of_positive q ltac:(lia)) as (mq & Hmq & ->); try done.
  - cbn [SFcompare]. f_equal. by apply positive_compare.
  - cbn [SFopp negb SFcompare]. f_equal.
    assert (Hc := positive_compare p q mp mq ltac:(lia) ltac:(lia) Hmp Hmq).
    change (Z.neg p ?= Z.neg q) with (CompOpp (Z.pos p ?= Z.pos q)). rewrite <- Hc.
    by destruct (_ - _ ?= _).
Qed.

Lemma num_ltb_Z a b : small a → small b → num_ltb (num_of_Z a) (num_of_Z b) = (a <? b).
Proof. intros Ha Hb. unfold num_ltb, SFltb. rewrite num_compare by done. done. Qed.
Lemma num_leb_Z a b : small a → small b → num_leb (num_of_Z a) (num_of_Z b) = (a <=? b).
Proof. intros Ha Hb. unfold num_leb, SFleb. rewrite num_compare by done. unfold Z.leb. by destruct (a ?= b). Qed.
Lemma num_eqb_Z a b : small a → small b → num_eqb (num_of_Z a) (num_of_Z b) = (a =? b).
Proof.
  intros Ha Hb. unfold num_eqb, SFeqb. rewrite num_compare by done.
  destruct (Z.compare_spec a b); symmetry; [apply Z.eqb_eq|apply Z.eqb_neq..]; lia.
Qed.

Lemma num_of_Z_not_nan z : small z → is_nan (num_of_Z z) = false.
Proof.
  unfold small. intros Hz. destruct z as [|p|p]; [done| |rewrite num_of_negative];
    by destruct (num_of_positive p ltac:(lia)) as (m & _ & ->).
Qed.

Lemma num_max_Z a b : small a → small b → num_max (num_of_Z a) (num_of_Z b) = num_of_Z (Z.max a b).
Proof.
  intros Ha Hb. unfold num_max. rewrite !num_of_Z_not_nan, !num_ltb_Z by done. simpl.
  destruct (b <? a) eqn:E1; [f_equal; lia|]. destruct (a <? b) eqn:E2; [f_equal; lia|].
  assert (a = b) as -> by lia. rewrite Z.max_id. by destruct (num_of_Z b) as [[]| | |].
Qed.
Lemma num_min_Z a b : small a → small b → num_min (num_of_Z a) (num_of_Z b) = num_of_Z (Z.min a b).
Proof.
  intros Ha Hb. unfold num_min. rewrite !num_of_Z_not_nan, !num_ltb_Z by done. simpl.
  destruct (a <? b) eqn:E1; [f_equal; lia|]. destruct (b <? a) eqn:E2; [f_equal; lia|].
  assert (a = b) as -> by lia. rewrite Z.min_id. by destruct (num_of_Z b) as [[]| | |].
Qed.

(** ** Addition *)

(** The sum of two aligned mantissas. *)
Lemma normalize_sum k j : small k → 0 ≤ j →
  binary_normalize prec emax (k * 2 ^ j) (- j) false = num_of_Z k.
Proof.
  unfold small. intros Hk Hj. assert (0 < 2 ^ j) by (apply Z.pow_pos_nonneg; lia).
  assert (Hpos : ∀ p, Z.pos p < 2 ^ 53 →
    binary_normalize prec emax (Z.pos p * 2 ^ j) (- j) false = num_of_Z (Z.pos p)).
  { intros p Hp. destruct (num_of_positive p Hp) as (m & Hm & ->).
    destruct (Z.pos p * 2 ^ j) as [|q|q] eqn:Eq; [nia| |nia].
    apply (normalize_scaled p q j); [done|done|done|]. rewrite Hm. f_equal. f_equal. lia. }
  destruct k as [|p|p]; [done|apply Hpos; lia|].
  change (Z.neg p) with (- Z.pos p). rewrite Z.mul_opp_l.
  destruct (Z.pos p * 2 ^ j) as [|q|q] eqn:Eq; [nia| |nia].
  change (- Z.pos q) with (Z.neg q). rewrite binary_normalize_opp.
  change (- Z.pos p) with (Z.neg p). rewrite num_of_negative, <- Hpos, Eq by lia. done.
Qed.

Lemma aligned p m ez :
  Z.pos p < 2 ^ 53 → Z.pos m = Z.pos p * 2 ^ (52 - Z.log2 (Z.pos p)) → ez ≤ Z.log2 (Z.pos p) - 52 →
  Z.pos (shl_align m (Z.log2 (Z.pos p) - 52) ez).1 = Z.pos p * 2 ^ (- ez).
Proof.
  intros Hp Hm Hez. pose proof (log2_small p Hp).
  destruct (shl_align_spec m (Z.log2 (Z.pos p) - 52) ez) as [H2 H1].
  destruct (shl_align _ _ _) as [mz e]. cbn [fst snd] in *.
  rewrite H1, Hm, <- Z.mul_assoc, <- Z.pow_add_r by lia. f_equal. f_equal. lia.
Qed.

Lemma num_add_Z a b : small a → small b → small (a + b) →
  num_add (num_of_Z a) (num_of_Z b) = num_of_Z (a + b).
Proof.
  intros Ha Hb Hab. unfold small in Ha, Hb.
  destruct (decide (a = 0)) as [->|Ha0].
  { destruct b as [|q|q]; [done| |rewrite num_of_negative];
      destruct (num_of_positive q ltac:(lia)) as (mq & _ & Hq); rewrite Z.add_0_l, ?num_of_negative; by rewrite Hq. }
  destruct (decide (b = 0)) as [->|Hb0].
  { rewrite Z.add_0_r. destruct a as [|p|p]; [done| |rewrite num_of_negative];
      by destruct (num_of_positive p ltac:(lia)) as (mp & _ & ->). }
  assert (Hform : ∀ z, z ≠ 0 → Z.abs z < 2 ^ 53 → ∃ s m e, num_of_Z z = S754_finite s m e ∧ e ≤ 0 ∧
    ∀ ez, ez ≤ e → cond_Zopp s (Z.pos (shl_align m e ez).1) = z * 2 ^ (- ez)).
  { clear. intros z Hz Hs. destruct z as [|p|p]; [done| |].
    - destruct (num_of_positive p ltac:(lia)) as (m & Hm & ->). pose proof (log2_small p ltac:(lia)).
      eexists _, _, _. split; [reflexivity|]. split; [lia|]. intros ez Hez. simpl. by apply aligned.
    - rewrite num_of_negative. destruct (num_of_positive p ltac:(lia)) as (m & Hm & ->).
      pose proof (log2_small p ltac:(lia)). eexists _, _, _. split; [reflexivity|]. split; [lia|].
      intros ez Hez. unfold cond_Zopp. simpl negb. cbv iota. rewrite aligned by (lia || done). lia. }
  destruct (Hform a Ha0 Ha) as (sa & ma & ea & -> & Hea & Hma).
  destruct (Hform b Hb0 Hb) as (sb & mb & eb & -> & Heb & Hmb).
  unfold num_add, SFadd. cbv zeta. rewrite (Hma (Z.min ea eb)), (Hmb (Z.min ea eb)) by lia.
  rewrite <- Z.mul_add_distr_r. rewrite <- (Z.opp_involutive (Z.min ea eb)) at 2.
  apply normalize_sum; [done|lia].
Qed.

(** ** Order *)

(** Numbers other than NaN are ordered like these triples, the first component
    deciding first: the sign, the exponent, the mantissa. *)
Definition rank (x : num) : Z * Z * Z :=
  match x with
  | S754_nan | S754_zero _ => (0, 0, 0)
  | S754_infinity s => (if s then -2 else 2, 0, 0)
  | S754_finite true m e => (-1, - e, - Z.pos m)
  | S754_finite false m e => (1, e, Z.pos m)
  end.
Definition rank_lt (a b : Z * Z * Z) : Prop :=
  a.1.1 < b.1.1 ∨ (a.1.1 = b.1.1 ∧ (a.1.2 < b.1.2 ∨ (a.1.2 = b.1.2 ∧ a.2 < b.2))).

Lemma num_compare_cases x y :
  ((is_nan x = true ∨ is_nan y = true) ∧ SFcompare x y = None) ∨
  (is_nan x = false ∧ is_nan y = false ∧
   ((SFcompare x y = Some Lt ∧ rank_lt (rank x) (rank y)) ∨ (SFcompare x y = Some Eq ∧ rank x = rank y) ∨
    (SFcompare x y = Some Gt ∧ rank_lt (rank y) (rank x)))).
Proof.
  destruct x as [[]|[]| |[] m e], y as [[]|[]| |[] m' e']; cbn; unfold rank_lt; cbn; auto; right; (split; [done|]); (split; [done|]);
    try (solve [left; split; [done|lia]|right; left; done|right; right; split; [done|lia]]).
  all: change (Pos.compare_cont Eq m m') with (Pos.compare m m').
  all: destruct (Z.compare_spec e e'); subst; try (solve [left; split; [done|lia]|right; right; split; [done|lia]]).
  all: destruct (Pos.compare_spec m m'); subst; cbn; auto;
    solve [left; split; [done|lia]|right; right; split; [done|lia]].
Qed.

#[local] Ltac rank_cases x y :=
  destruct (num_compare_cases x y) as [[[H| H] ->]|(Hx & Hy & [[-> H]|[[-> H]|[-> H]]])];
  [split; [done|intros (? & ? & ?); congruence]..| | |];
  (split; [intros ?|intros (_ & _ & Hr); try rewrite Hr in *]; try done; try split_and!; try done; try rewrite H in *; unfold rank_lt in *; try done; lia).

Lemma num_ltb_rank x y : num_ltb x y = true ↔ is_nan x = false ∧ is_nan y = false ∧ rank_lt (rank x) (rank y).
Proof. unfold num_ltb, SFltb. rank_cases x y.  Qed.
Lemma num_leb_rank x y : num_leb x y = true ↔ is_nan x = false ∧ is_nan y = false ∧ ¬ rank_lt (rank y) (rank x).
Proof. unfold num_leb, SFleb. rank_cases x y.  Qed.
Lemma num_eqb_rank x y : num_eqb x y = true ↔ is_nan x = false ∧ is_nan y = false ∧ rank x = rank y.
Proof. unfold num_eqb, SFeqb. rank_cases x y. Qed.

#[export] Hint Rewrite num_ltb_rank num_leb_rank num_eqb_rank : num_order.
(** Order of numbers as linear arithmetic on ranks: failed tests first become
    negations. *)
Ltac num_order :=
  repeat match goal with
  | H : num_ltb _ _ = false |- _ => apply not_true_iff_false in H
  | H : num_leb _ _ = false |- _ => apply not_true_iff_false in H
  | H : num_eqb _ _ = false |- _ => apply not_true_iff_false in H
  end;
  try match goal with
  | |- num_ltb _ _ = false => apply not_true_iff_false
  | |- num_leb _ _ = false => apply not_true_iff_false
  | |- num_eqb _ _ = false => apply not_true_iff_false
  end;
  autorewrite with num_order in *; destruct_and?;
  repeat match goal with H : ¬ (?A ∧ ?B), H' : ?A |- _ => assert (¬ B) by tauto; clear H end;
  unfold rank_lt in *; try lia; split_and?; try done; try lia.

Lemma num_leb_trans x y z : num_leb x y = true → num_leb y z = true → num_leb x z = true.
Proof. intros ? ?. num_order. Qed.
Lemma num_leb_refl x : is_nan x = false → num_leb x x = true.
Proof. intros ?. num_order. Qed.
Lemma num_ltb_leb x y : is_nan x = false → is_nan y = false → num_ltb x y = false → num_leb y x = true.
Proof. intros ? ? ?. num_order. Qed.
Lemma num_min_spec x y : is_nan x = false → is_nan y = false →
  (num_min x y = x ∨ num_min x y = y) ∧ num_leb (num_min x y) x = true ∧ num_leb (num_min x y) y = true.
Proof.
  intros Hx Hy. unfold num_min. rewrite Hx, Hy. cbn [orb].
  destruct (num_ltb x y) eqn:E1; [split; [auto|]; split; num_order|].
  destruct (num_ltb y x) eqn:E2; [split; [auto|]; split; num_order|].
  destruct x as [[]|?| |? ? ?]; (split; [auto|]); split; num_order.
Qed.
Lemma num_max_spec x y : is_nan x = false → is_nan y = false →
  (num_max x y = x ∨ num_max x y = y) ∧ num_leb x (num_max x y) = true ∧ num_leb y (num_max x y) = true.
Proof.
  intros Hx Hy. unfold num_max. rewrite Hx, Hy. cbn [orb].
  destruct (num_ltb y x) eqn:E1; [split; [auto|]; split; num_order|].
  destruct (num_ltb x y) eqn:E2; [split; [auto|]; split; num_order|].
  destruct x as [[]|?| |? ? ?]; (split; [auto|]); split; num_order.
Qed.
