(* ===== verification/Types.v ===== *)
(** * billing-expression/types.ts

    The expression tree, the variable and function tables, compiled and failed
    results, [expressionFailure], the explicit-stack traversal [visitExpression]
    and [expressionDependencies]. *)

From S2P Require Import Prelude JsNumber JsText.
From Stdlib Require Import Floats.SpecFloat.

(** ** Vocabulary *)
Definition TOKEN_VARIABLES : list jsstring :=
  map js ["p"; "c"; "len"; "cr"; "cc"; "cc1h"; "img"; "img_cr"; "img_o"; "ai"; "ao"]%string.
Definition BILLING_VARIABLES : list jsstring := TOKEN_VARIABLES ++ [js "image_count"].
Definition TIME_FUNCTIONS : list jsstring :=
  map js ["hour"; "minute"; "weekday"; "month"; "day"]%string.
Definition BILLING_FUNCTIONS : list (jsstring * nat) :=
  [(js "tier", 2); (js "fixed", 1); (js "param", 1); (js "header", 1); (js "has", 2);
   (js "u", 1); (js "hour", 1); (js "minute", 1); (js "weekday", 1); (js "month", 1);
   (js "day", 1); (js "min", 2); (js "max", 2); (js "abs", 1); (js "ceil", 1);
   (js "floor", 1)].

(** Lookup in an object used as a table: [Object.hasOwn] and the value. *)
Fixpoint own {A} (obj : list (jsstring * A)) (k : jsstring) : option A :=
  match obj with
  | [] => None
  | (k', v) :: obj => if k' =s k then Some v else own obj k
  end.

(** ** ExpressionNode *)
Inductive literal_value :=
  | LString (s : jsstring)
  | LNumber (n : num)
  | LBoolean (b : bool)
  | LNull.

(** [integer] is absent on literals that are not numbers; only its truth value
    is ever read, so absence is [false]. [start] and [end] close each variant. *)
Inductive ExpressionNode :=
  | Literal (value : literal_value) (integer : bool) (s e : nat)
  | Variable_ (name : jsstring) (s e : nat)
  | Call (name : jsstring) (args : list ExpressionNode) (s e : nat)
  | Unary (operator : jsstring) (operand : ExpressionNode) (s e : nat)
  | Binary (operator : jsstring) (left right : ExpressionNode) (s e : nat)
  | Conditional (condition yes no : ExpressionNode) (s e : nat).

Definition node_start (n : ExpressionNode) : nat :=
  match n with
  | Literal _ _ s _ | Variable_ _ s _ | Call _ _ s _ | Unary _ _ s _
  | Binary _ _ _ s _ | Conditional _ _ _ s _ => s
  end.
Definition node_end (n : ExpressionNode) : nat :=
  match n with
  | Literal _ _ _ e | Variable_ _ _ e | Call _ _ _ e | Unary _ _ _ e
  | Binary _ _ _ _ e | Conditional _ _ _ _ e => e
  end.

(** [{ ...node, start, end }]: a copy with another span. *)
Definition with_span (n : ExpressionNode) (s e : nat) : ExpressionNode :=
  match n with
  | Literal v i _ _ => Literal v i s e
  | Variable_ x _ _ => Variable_ x s e
  | Call f a _ _ => Call f a s e
  | Unary o x _ _ => Unary o x s e
  | Binary o l r _ _ => Binary o l r s e
  | Conditional c y n _ _ => Conditional c y n s e
  end.

(** The children in evaluation order, as [visitExpression] lists them. *)
Definition children (n : ExpressionNode) : list ExpressionNode :=
  match n with
  | Literal _ _ _ _ | Variable_ _ _ _ => []
  | Call _ args _ _ => args
  | Unary _ x _ _ => [x]
  | Binary _ l r _ _ => [l; r]
  | Conditional c y n _ _ => [c; y; n]
  end.

Section NodeInduction.
Variable P : ExpressionNode → Prop.
Hypothesis step : ∀ n, Forall P (children n) → P n.

(** Induction with a hypothesis for every child. *)
Fixpoint node_induction (n : ExpressionNode) : P n.
Proof using step.
  apply step. destruct n; simpl; repeat constructor; try apply node_induction.
  induction args as [|a args IH]; constructor; [apply node_induction | exact IH].
Defined.
End NodeInduction.

Fixpoint node_size (n : ExpressionNode) : nat :=
  S match n with
    | Literal _ _ _ _ | Variable_ _ _ _ => 0
    | Call _ args _ _ => sum_list_with node_size args
    | Unary _ x _ _ => node_size x
    | Binary _ l r _ _ => node_size l + node_size r
    | Conditional c y n _ _ => node_size c + node_size y + node_size n
    end.

(** Height of the tree: 0 for a leaf. *)
Fixpoint node_height (n : ExpressionNode) : nat :=
  match n with
  | Literal _ _ _ _ | Variable_ _ _ _ => 0
  | Call _ args _ _ => fold_right (λ a h, (S (node_height a)) `max` h) 0 args
  | Unary _ x _ _ => S (node_height x)
  | Binary _ l r _ _ => S (node_height l) `max` S (node_height r)
  | Conditional c y n _ _ => S (node_height c) `max` (S (node_height y) `max` S (node_height n))
  end.

Lemma node_size_children n : node_size n = S (sum_list_with node_size (children n)).
Proof. destruct n; simpl; lia. Qed.

Lemma node_height_child n c : c ∈ children n → S (node_height c) ≤ node_height n.
Proof.
  destruct n; simpl; rewrite ?elem_of_nil, ?list_elem_of_In; simpl; try naive_solver lia.
  induction args as [|a args IH]; simpl; [done|]. intros [->|H]; [lia|].
  specialize (IH H). lia.
Qed.

#[export] Instance literal_value_eq_dec : EqDecision literal_value.
Proof. solve_decision. Defined.

(** Node identity. In one compiled tree two nodes are the same object exactly
    when they are equal with their spans (Parser, node_identity), so [===] on
    nodes is this decidable equality. *)
#[export] Instance ExpressionNode_eq_dec : EqDecision ExpressionNode.
Proof.
  refine (fix go (x y : ExpressionNode) {struct x} : Decision (x = y) :=
    match x, y with
    | Literal v i s e, Literal v' i' s' e' =>
        cast_if_and4 (decide (v = v')) (decide (i = i')) (decide (s = s')) (decide (e = e'))
    | Variable_ x s e, Variable_ x' s' e' =>
        cast_if_and3 (decide (x = x')) (decide (s = s')) (decide (e = e'))
    | Call f a s e, Call f' a' s' e' =>
        cast_if_and4 (decide (f = f'))
          ((fix gos (l l' : list ExpressionNode) : Decision (l = l') :=
              match l, l' with
              | [], [] => left _
              | n :: l, n' :: l' => cast_if_and (go n n') (gos l l')
              | _, _ => right _
              end) a a')
          (decide (s = s')) (decide (e = e'))
    | Unary o x s e, Unary o' x' s' e' =>
        cast_if_and4 (decide (o = o')) (go x x') (decide (s = s')) (decide (e = e'))
    | Binary o l r s e, Binary o' l' r' s' e' =>
        cast_if_and5 (decide (o = o')) (go l l') (go r r') (decide (s = s')) (decide (e = e'))
    | Conditional c y n s e, Conditional c' y' n' s' e' =>
        cast_if_and5 (go c c') (go y y') (go n n') (decide (s = s')) (decide (e = e'))
    | _, _ => right _
    end);
  abstract congruence.
Defined.
Definition same_node (a b : ExpressionNode) : bool := bool_decide (a = b).

(** ** Results *)
Record BillingRequestRule := mkRule {
  rule_cond : jsstring;
  rule_multiplier : num;
  rule_matched : bool
}.

Record RequestRule := mkRequestRule {
  rr_node : ExpressionNode;
  rr_condition : ExpressionNode;
  rr_multiplier : num;
  rr_cond : jsstring
}.

Record CompiledBillingExpression := mkCompiled {
  c_source : jsstring;
  c_ast : ExpressionNode;
  c_variables : list jsstring;
  c_functions : list jsstring;
  c_requestRules : list RequestRule
}.

Inductive FailureStatus := unsupported | invalid | missing_context.
Record ExpressionFailure := mkFailure {
  f_status : FailureStatus;
  f_diagnostic : ExpressionDiagnostic
}.
Inductive CompilationResult :=
  | Ready (compiled : CompiledBillingExpression)
  | CompileFailed (failure : ExpressionFailure).

Definition diagnostic_of (error : exn) : ExpressionDiagnostic :=
  match error with
  | BillingExpressionError d => d
  | NativeError m => Diagnostic code_syntax m None
  end.

Definition expressionFailure (error : exn) : ExpressionFailure :=
  let diagnostic := diagnostic_of error in
  let status :=
    match diag_code diagnostic with
    | code_missing_context => missing_context
    | code_unsupported | code_limit => unsupported
    | _ => invalid
    end in
  mkFailure status diagnostic.

(** ** visitExpression *)
Record visit_entry := mkEntry {
  v_node : ExpressionNode;
  v_visited : bool;
  v_depth : nat
}.

Section Visit.
Context {St : Type} (visitor : ExpressionNode → stateR St unit).

(** The [while] loop; the head of the list is the top of the stack. *)
Fixpoint visit_loop (fuel : nat) (stack : list visit_entry) : stateR St unit :=
  match stack with
  | [] => mret tt
  | entry :: stack =>
      match fuel with
      | O => lift_st (Err out_of_fuel)
      | S fuel =>
          if 256 <? v_depth entry then
            lift_st (throw code_limit (js "expression depth"))
          else if v_visited entry then
            visitor (v_node entry);; visit_loop fuel stack
          else
            let stack := mkEntry (v_node entry) true (v_depth entry) :: stack in
            let stack :=
              foldl (λ st child, mkEntry child false (v_depth entry + 1) :: st)
                stack (reverse (children (v_node entry))) in
            visit_loop fuel stack
      end
  end.

(** Every node is popped twice, so [2 * node_size] iterations are enough. *)
Definition visitExpression (node : ExpressionNode) : stateR St unit :=
  visit_loop (2 * node_size node) [mkEntry node false 0].

(** Reference: the postorder traversal as plain recursion, with the same
    depth bound. *)
Fixpoint visit_children (visit : nat → ExpressionNode → stateR St unit) (d : nat)
    (l : list ExpressionNode) : stateR St unit :=
  match l with
  | [] => mret tt
  | n :: l => visit d n;; visit_children visit d l
  end.
Fixpoint visit_postorder (depth : nat) (node : ExpressionNode) {struct node} : stateR St unit :=
  if 256 <? depth then lift_st (throw code_limit (js "expression depth"))
  else
    match node with
    | Literal _ _ _ _ | Variable_ _ _ _ => mret tt
    | Call _ args _ _ => visit_children visit_postorder (depth + 1) args
    | Unary _ x _ _ => visit_postorder (depth + 1) x
    | Binary _ l r _ _ => visit_postorder (depth + 1) l;; visit_postorder (depth + 1) r
    | Conditional c y n _ _ =>
        visit_postorder (depth + 1) c;; visit_postorder (depth + 1) y;;
        visit_postorder (depth + 1) n
    end;; visitor node.
End Visit.

(** ** expressionDependencies: two insertion-ordered sets *)
Definition set_add (x : jsstring) (s : list jsstring) : list jsstring :=
  if str_in x s then s else s ++ [x].

Definition dependency_visitor (part : ExpressionNode) : stateR (list jsstring * list jsstring) unit :=
  modify_st (λ '(variables, functions),
    match part with
    | Variable_ name _ _ => (set_add name variables, functions)
    | Call name _ _ _ => (variables, set_add name functions)
    | _ => (variables, functions)
    end).

Definition expressionDependencies (node : ExpressionNode) : result (list jsstring * list jsstring) :=
  '(_, s) ← visitExpression dependency_visitor node ([], []);
  Ok s.

(** ** The traversal is the recursive postorder *)

Fixpoint postorder (node : ExpressionNode) : list ExpressionNode :=
  match node with
  | Literal _ _ _ _ | Variable_ _ _ _ => []
  | Call _ args _ _ => mjoin (map postorder args)
  | Unary _ x _ _ => postorder x
  | Binary _ l r _ _ => postorder l ++ postorder r
  | Conditional c y n _ _ => postorder c ++ postorder y ++ postorder n
  end ++ [node].

Lemma postorder_children n : postorder n = mjoin (map postorder (children n)) ++ [n].
Proof. destruct n; simpl; by rewrite ?app_nil_r. Qed.

(** [m] is a node of the tree [n]. *)
Definition in_tree (m n : ExpressionNode) : Prop := m ∈ postorder n.

Lemma in_tree_self n : in_tree n n.
Proof. unfold in_tree. rewrite postorder_children. set_solver. Qed.

Lemma in_tree_child m c n : c ∈ children n → in_tree m c → in_tree m n.
Proof.
  unfold in_tree. intros Hc Hm. rewrite (postorder_children n).
  apply elem_of_app. left. apply list_elem_of_join. exists (postorder c).
  split; [done|]. by apply list_elem_of_fmap_2.
Qed.

Lemma in_tree_inv m n : in_tree m n → m = n ∨ ∃ c, c ∈ children n ∧ in_tree m c.
Proof.
  unfold in_tree. rewrite (postorder_children n), elem_of_app, list_elem_of_join.
  intros [(l & Hm & Hl)|Hm]; [right|left; set_solver].
  apply list_elem_of_fmap in Hl as (c & -> & Hc). eauto.
Qed.

Lemma in_tree_trans a b c : in_tree a b → in_tree b c → in_tree a c.
Proof.
  intros Hab. induction c as [c IH] using node_induction. intros Hbc.
  destruct (in_tree_inv _ _ Hbc) as [->|(d & Hd & Hbd)]; [done|].
  rewrite Forall_forall in IH. eapply in_tree_child; [done|]. by apply IH.
Qed.

Section VisitProofs.
Context {St : Type} (visitor : ExpressionNode → stateR St unit).

Definition and_then (r : result (unit * St)) (k : St → result (unit * St)) : result (unit * St) :=
  match r with Ok (_, s) => k s | Err e => Err e end.

Fixpoint run_visitor (l : list ExpressionNode) : stateR St unit :=
  match l with
  | [] => mret tt
  | n :: l => visitor n;; run_visitor l
  end.

Lemma run_visitor_app l1 l2 s :
  run_visitor (l1 ++ l2) s = and_then (run_visitor l1 s) (run_visitor l2).
Proof.
  revert s. induction l1 as [|n l1 IH]; intros s; simpl; [done|].
  unfold mbind, stateR_bind. destruct (visitor n s) as [[[] s1]|]; [apply IH|done].
Qed.

Lemma visit_postorder_unfold d n s :
  visit_postorder visitor d n s =
    if 256 <? d then throw code_limit (js "expression depth")
    else and_then (visit_children (visit_postorder visitor) (d + 1) (children n) s) (visitor n).
Proof.
  destruct n; simpl; destruct (256 <? d); try done;
    unfold mbind, stateR_bind, and_then, mret, stateR_ret; simpl;
    repeat (case_goal; simplify_eq; try done).
Qed.

Lemma push_children (mk : ExpressionNode → visit_entry) l st :
  foldl (λ st c, mk c :: st) st (reverse l) = map mk l ++ st.
Proof.
  induction l as [|x l IH]; simpl; [done|].
  rewrite reverse_cons, foldl_app. simpl. by rewrite IH.
Qed.

Lemma visit_loop_node n fuel d stack s :
  visit_loop visitor (2 * node_size n + fuel) (mkEntry n false d :: stack) s =
    and_then (visit_postorder visitor d n s) (visit_loop visitor fuel stack).
Proof.
  revert fuel d stack s. induction n as [n IH] using node_induction.
  intros fuel d stack s.
  rewrite node_size_children, visit_postorder_unfold.
  replace (2 * S (sum_list_with node_size (children n)) + fuel)
    with (S (2 * sum_list_with node_size (children n) + S fuel)) by lia.
  cbn [visit_loop v_depth v_visited v_node]. destruct (256 <? d) eqn:Hd; [done|].
  rewrite push_children.
  assert (∀ l f s, Forall (λ c, c ∈ children n) l →
    visit_loop visitor (2 * sum_list_with node_size l + f)
      (map (λ c, mkEntry c false (d + 1)) l ++ mkEntry n true d :: stack) s =
    and_then (visit_children (visit_postorder visitor) (d + 1) l s)
      (visit_loop visitor f (mkEntry n true d :: stack))) as Hlist.
  { induction l as [|c l IHl]; intros f s' Hl; [done|].
    inversion Hl as [|?? Hc Hl']; subst. rewrite Forall_forall in IH.
    cbn [sum_list_with map app visit_children].
    replace (2 * (node_size c + sum_list_with node_size l) + f)
      with (2 * node_size c + (2 * sum_list_with node_size l + f)) by lia.
    rewrite (IH c Hc). unfold mbind, stateR_bind, and_then.
    destruct (visit_postorder visitor (d + 1) c s') as [[[] s1]|e]; [|done].
    by rewrite (IHl f s1 Hl'). }
  rewrite Hlist by (by apply Forall_forall).
  unfold and_then at 1 2.
  destruct (visit_children _ _ _ s) as [[[] s1]|e]; [|done].
  cbn [visit_loop v_depth v_visited v_node]. rewrite Hd.
  unfold mbind, stateR_bind, and_then. by destruct (visitor n s1) as [[[] s2]|e].
Qed.

(** The explicit stack computes the recursive postorder. *)
Lemma visitExpression_reference n s :
  visitExpression visitor n s = visit_postorder visitor 0 n s.
Proof.
  unfold visitExpression. rewrite <- (Nat.add_0_r (2 * node_size n)), visit_loop_node.
  unfold and_then. by destruct (visit_postorder visitor 0 n s) as [[[] s1]|e].
Qed.

Lemma visit_postorder_within d n s :
  d + node_height n ≤ 256 →
  visit_postorder visitor d n s = run_visitor (postorder n) s.
Proof.
  revert d s. induction n as [n IH] using node_induction. intros d s Hh.
  rewrite visit_postorder_unfold, (postorder_children n), run_visitor_app.
  rewrite (proj2 (Nat.ltb_ge 256 d)) by lia.
  assert (∀ l s, Forall (λ c, c ∈ children n) l →
    visit_children (visit_postorder visitor) (d + 1) l s =
    run_visitor (mjoin (map postorder l)) s) as Hlist.
  { induction l as [|c l IHl]; intros s' Hl; [done|].
    inversion Hl as [|?? Hc Hl']; subst. rewrite Forall_forall in IH.
    change (mjoin (map postorder (c :: l))) with (postorder c ++ mjoin (map postorder l)).
    rewrite run_visitor_app. cbn [visit_children].
    pose proof (node_height_child n c Hc).
    unfold mbind, stateR_bind. rewrite (IH c Hc) by lia.
    unfold and_then. destruct (run_visitor (postorder c) s') as [[[] s1]|e]; [|done].
    by rewrite IHl. }
  rewrite Hlist by (by apply Forall_forall). unfold and_then.
  destruct (run_visitor (mjoin _) s) as [[[] s1]|e]; [|done].
  unfold run_visitor, mbind, stateR_bind.
  by destruct (visitor n s1) as [[[] s2]|e].
Qed.

Lemma visit_postorder_beyond d n s r :
  256 < d + node_height n → visit_postorder visitor d n s ≠ Ok r.
Proof.
  revert d s r. induction n as [n IH] using node_induction. intros d s r Hh.
  rewrite visit_postorder_unfold. destruct (256 <? d) eqn:Hd; [done|].
  apply Nat.ltb_ge in Hd.
  assert (∃ c, c ∈ children n ∧ node_height n ≤ S (node_height c)) as (c & Hc & Hhc).
  { revert Hh Hd. destruct n; simpl; try lia; intros.
    - clear -Hh Hd. induction args as [|a args IHa]; simpl in *; [lia|].
      destruct (decide (fold_right (λ a h, S (node_height a) `max` h) 0 args
                 ≤ S (node_height a))).
      + exists a. split; [set_solver|lia].
      + destruct IHa as (c & Hc & Hle); [lia|]. exists c. split; [set_solver|lia].
    - exists n. split; [set_solver|lia].
    - destruct (decide (node_height n1 ≤ node_height n2));
        [exists n2|exists n1]; (split; [set_solver|lia]).
    - destruct (decide (node_height n1 ≤ node_height n2)) as [?|?];
        destruct (decide (node_height n2 ≤ node_height n3));
        destruct (decide (node_height n1 ≤ node_height n3));
        first [exists n3; split; [set_solver|lia] | exists n2; split; [set_solver|lia]
              | exists n1; split; [set_solver|lia]]. }
  rewrite Forall_forall in IH.
  assert (∀ l s r, c ∈ l → visit_children (visit_postorder visitor) (d + 1) l s ≠ Ok r) as Hl.
  { induction l as [|a l IHl]; intros s' r' Hin; [set_solver|].
    cbn [visit_children]. unfold mbind, stateR_bind.
    destruct (visit_postorder visitor (d + 1) a s') as [[[] s1]|e] eqn:E; [|done].
    apply elem_of_cons in Hin as [->|Hin]; [|by apply IHl].
    exfalso. eapply (IH a Hc (d + 1)); [lia | done]. }
  unfold and_then.
  destruct (visit_children _ _ _ s) as [[[] s1]|e] eqn:E; [|done].
  exfalso. by eapply Hl.
Qed.
End VisitProofs.

(** ** Dependencies are exactly the names that occur *)

Lemma elem_of_set_add x y s : x ∈ set_add y s ↔ x = y ∨ x ∈ s.
Proof.
  unfold set_add. destruct (str_in y s) eqn:E.
  - apply str_in_elem in E. naive_solver.
  - set_solver.
Qed.

Definition uses_variable (x : jsstring) (n : ExpressionNode) : Prop :=
  ∃ s e, in_tree (Variable_ x s e) n.
Definition uses_function (f : jsstring) (n : ExpressionNode) : Prop :=
  ∃ args s e, in_tree (Call f args s e) n.

Lemma dependency_run l vs fs : ∃ vs' fs',
  run_visitor dependency_visitor l (vs, fs) = Ok (tt, (vs', fs')) ∧
  (∀ x, x ∈ vs' ↔ x ∈ vs ∨ ∃ s e, Variable_ x s e ∈ l) ∧
  (∀ f, f ∈ fs' ↔ f ∈ fs ∨ ∃ args s e, Call f args s e ∈ l).
Proof.
  revert vs fs. induction l as [|n l IH]; intros vs fs.
  - exists vs, fs. set_solver.
  - cbn [run_visitor]. unfold mbind, stateR_bind.
    destruct (dependency_visitor n (vs, fs)) as [[[] [v f]]|e] eqn:E; [|by destruct n].
    destruct (IH v f) as (vs' & fs' & -> & Hv & Hf). exists vs', fs'. split; [done|].
    setoid_rewrite Hv. setoid_rewrite Hf. setoid_rewrite elem_of_cons.
    destruct n; unfold dependency_visitor, modify_st in E; simplify_eq;
      split; intros y; rewrite ?elem_of_set_add; naive_solver.
Qed.

Lemma expressionDependencies_ok n :
  node_height n ≤ 256 →
  ∃ vs fs, expressionDependencies n = Ok (vs, fs) ∧
    (∀ x, x ∈ vs ↔ uses_variable x n) ∧ (∀ f, f ∈ fs ↔ uses_function f n).
Proof.
  intros Hh. unfold expressionDependencies.
  rewrite visitExpression_reference, visit_postorder_within by done.
  destruct (dependency_run (postorder n) [] []) as (vs & fs & -> & Hv & Hf).
  exists vs, fs. split; [done|]. unfold uses_variable, uses_function, in_tree.
  split; intros y; [rewrite Hv | rewrite Hf]; set_solver.
Qed.

Lemma expressionDependencies_height n r :
  expressionDependencies n = Ok r → node_height n ≤ 256.
Proof.
  unfold expressionDependencies. rewrite visitExpression_reference. intros H.
  destruct (decide (node_height n ≤ 256)) as [|Hn]; [done|].
  apply bind_Ok in H as ([[] s] & H & _). exfalso.
  eapply visit_postorder_beyond; [|exact H]. lia.
Qed.
