(* ===== verification/Parser.v ===== *)
(** * billing-expression/parser.ts, class BillingParser

    The lexer and the precedence-climbing parser, as a state monad over the
    fields of the class. [source] is the class's readonly field. *)

From S2P Require Import Prelude JsNumber JsText Types.
From Stdlib Require Import Floats.SpecFloat.

Inductive lexeme_kind :=
  | KNumber (value : num) (integer : bool)
  | KString (value : jsstring)
  | KSymbol
  | KName
  | KEnd.

Record Lexeme := mkLexeme {
  kind : lexeme_kind;
  text : jsstring;
  l_start : nat;
  l_end : nat
}.

Definition PRECEDENCE : list (jsstring * nat) :=
  [(js "||", 1); (js "&&", 2); (js "==", 3); (js "!=", 3); (js "<", 4); (js "<=", 4);
   (js ">", 4); (js ">=", 4); (js "+", 5); (js "-", 5); (js "*", 6); (js "/", 6);
   (js "%", 6)].

(** The private fields [cursor], [count], [depth] and [current]. *)
Record BillingParser := mkParser {
  cursor : nat;
  count : nat;
  depth : nat;
  current : Lexeme
}.
Abbreviation P := (stateR BillingParser).

(** ** Lexer *)

Definition is_alpha_ (c : code_unit) : bool :=
  (((65 <=? c) && (c <=? 90)) || ((97 <=? c) && (c <=? 122)) || (c =? 95))%N.
Definition is_word (c : code_unit) : bool := is_alpha_ c || is_digit c.

Definition escapes : list (code_unit * code_unit) :=
  [(110, 10); (114, 13); (116, 9); (98, 8); (102, 12); (118, 11); (92, 92);
   (34, 34); (39, 39); (47, 47)]%N.
Fixpoint escape_of (c : code_unit) (t : list (code_unit * code_unit)) : option code_unit :=
  match t with
  | [] => None
  | (a, b) :: t => if (a =? c)%N then Some b else escape_of c t
  end.

Fixpoint hex_run (hex : jsstring) (acc : N) : option N :=
  match hex with
  | [] => Some acc
  | c :: hex => match hex_value c with
                | Some d => hex_run hex (acc * 16 + d)%N
                | None => None
                end
  end.

(** Outcome of the string loop: the closing quote was read, the loop was left
    by [break] or by the end of the source, or an escape is not supported. *)
Inductive string_scan :=
  | SClosed (value : jsstring) (cursor : nat)
  | SBroken
  | SEscape (position : nat).

(** The [while] loop over the characters after the opening quote; [rest] is the
    source from [cursor] on. *)
Fixpoint scan_string (quote : code_unit) (cursor : nat) (rest : jsstring) (value : jsstring)
    : string_scan :=
  match rest with
  | [] => SBroken
  | char :: r =>
      if (char =? quote)%N then SClosed value (cursor + 1)
      else if ((char =? 10) || (char =? 13))%N then SBroken
      else if negb (char =? 92)%N then scan_string quote (cursor + 1) r (value ++ [char])
      else
        match r with
        | [] => SEscape (cursor + 1)
        | escaped :: r1 =>
            match escape_of escaped escapes with
            | Some c => scan_string quote (cursor + 2) r1 (value ++ [c])
            | None =>
                if (escaped =? 117)%N then
                  match r1 with
                  | h1 :: h2 :: h3 :: h4 :: r2 =>
                      match hex_run [h1; h2; h3; h4] 0 with
                      | Some c => scan_string quote (cursor + 6) r2 (value ++ [c])
                      | None => SBroken
                      end
                  | _ => SBroken
                  end
                else if (escaped =? 120)%N then
                  match r1 with
                  | h1 :: h2 :: r2 =>
                      match hex_run [h1; h2] 0 with
                      | Some c => scan_string quote (cursor + 4) r2 (value ++ [c])
                      | None => SBroken
                      end
                  | _ => SBroken
                  end
                else SEscape (cursor + 1)
            end
        end
  end.

Definition operators : list jsstring :=
  map js ["&&"; "||"; "=="; "!="; "<="; ">="; "+"; "-"; "*"; "/"; "%"; "<"; ">";
          "("; ")"; "!"; "?"; ":"; ","]%string.
(** First alternative of the operator pattern that matches at the head. *)
Definition match_operator (rest : jsstring) : option jsstring :=
  List.find (λ op, starts_with op rest) operators.

(** The token that starts at [start]; [rest = source.slice(start)]. *)
Definition lex_at (source : jsstring) (start : nat) (rest : jsstring) : result Lexeme :=
  match rest with
  | [] => Ok (mkLexeme KEnd [] start start)
  | c0 :: rest1 =>
      match scan_decimal rest with
      | Some (value, r) =>
          let n := length rest - length r in
          let t := take n rest in
          let integer := negb (existsb (λ c, (c =? 46) || (c =? 101) || (c =? 69))%N t) in
          if negb (is_finite value) then throw_at code_number t start
          else if integer && negb (is_safe_integer value) then
            throw_at code_unsupported (js "integer precision") start
          else Ok (mkLexeme (KNumber value integer) t start (start + n))
      | None =>
          if ((c0 =? 34) || (c0 =? 39))%N then
            match scan_string c0 (start + 1) rest1 [] with
            | SClosed value e => Ok (mkLexeme (KString value) (slice source start e) start e)
            | SBroken => throw_at code_syntax (js "unterminated string") start
            | SEscape p => throw_at code_unsupported (js "string escape") p
            end
          else if is_alpha_ c0 then
            let name := c0 :: (span is_word rest1).1 in
            Ok (mkLexeme KName name start (start + length name))
          else
            match match_operator rest with
            | Some op => Ok (mkLexeme KSymbol op start (start + length op))
            | None => throw_at code_unsupported [c0] start
            end
      end
  end.

Definition skip_space (source : jsstring) (cursor : nat) : nat :=
  cursor + length (span is_space (drop cursor source)).1.

(** The limits of the class, kept binary so that the numerals stay small. *)
Definition max_length : nat := N.to_nat 65536.
Definition max_tokens : nat := N.to_nat 10000.

Section Parser.
Context (source : jsstring).

Definition next : P Lexeme :=
  st ← get_st;
  let count' := count st + 1 in
  if max_tokens <? count' then lift_st (throw code_limit (js "expression tokens"))
  else
    let start := skip_space source (cursor st) in
    token ← lift_st (lex_at source start (drop start source));
    put_st (mkParser (l_end token) count' (depth st) (current st));;
    mret token.

Definition take_ : P Lexeme :=
  st ← get_st;
  token ← next;
  modify_st (λ s, mkParser (cursor s) (count s) (depth s) token);;
  mret (current st).

Definition is_ (t : jsstring) : P bool := st ← get_st; mret (text (current st) =s t).

Definition expect (t : jsstring) : P Lexeme :=
  st ← get_st;
  if text (current st) =s t then take_
  else lift_st (throw_at code_syntax (js "expected " ++ t) (l_start (current st))).

Definition set_depth (f : nat → nat) : P unit :=
  modify_st (λ s, mkParser (cursor s) (count s) (f (depth s)) (current s)).

Definition max_depth : nat := 128.

Fixpoint expression (fuel : nat) (minimum : nat) : P ExpressionNode :=
  match fuel with
  | O => lift_st (Err out_of_fuel)
  | S fuel =>
      set_depth S;;
      st ← get_st;
      (if max_depth <? depth st then lift_st (throw code_limit (js "expression depth"))
       else mret tt);;
      left ← primary fuel;
      left ← binary_loop fuel minimum left;
      left ← conditional_tail fuel minimum left;
      set_depth pred;;
      mret left
  end
with binary_loop (fuel : nat) (minimum : nat) (left : ExpressionNode) : P ExpressionNode :=
  match fuel with
  | O => lift_st (Err out_of_fuel)
  | S fuel =>
      st ← get_st;
      match own PRECEDENCE (text (current st)) with
      | Some p =>
          if minimum <=? p then
            operator ← take_;
            right ← expression fuel (p + 1);
            binary_loop fuel minimum
              (Binary (text operator) left right (node_start left) (node_end right))
          else mret left
      | None => mret left
      end
  end
with conditional_tail (fuel : nat) (minimum : nat) (left : ExpressionNode) : P ExpressionNode :=
  match fuel with
  | O => lift_st (Err out_of_fuel)
  | S fuel =>
      st ← get_st;
      if (minimum =? 0) && (text (current st) =s js "?") then
        take_;;
        yes ← expression fuel 0;
        expect (js ":");;
        no ← expression fuel 0;
        mret (Conditional left yes no (node_start left) (node_end no))
      else mret left
  end
with primary (fuel : nat) : P ExpressionNode :=
  match fuel with
  | O => lift_st (Err out_of_fuel)
  | S fuel =>
      token ← take_;
      let s := l_start token in
      let e := l_end token in
      match kind token with
      | KNumber value integer => mret (Literal (LNumber value) integer s e)
      | KString value => mret (Literal (LString value) false s e)
      | _ =>
          if text token =s js "(" then
            inner ← expression fuel 0;
            close ← expect (js ")");
            mret (with_span inner s (l_end close))
          else if str_in (text token) [js "!"; js "+"; js "-"] then
            operand ← expression fuel 7;
            mret (Unary (text token) operand s (node_end operand))
          else
            match kind token with
            | KName => name_primary fuel token
            | _ => lift_st (throw_at code_syntax (text token) s)
            end
      end
  end
with name_primary (fuel : nat) (token : Lexeme) : P ExpressionNode :=
  match fuel with
  | O => lift_st (Err out_of_fuel)
  | S fuel =>
      let s := l_start token in
      let e := l_end token in
      if text token =s js "nil" then mret (Literal LNull false s e)
      else if (text token =s js "true") || (text token =s js "false") then
        mret (Literal (LBoolean (text token =s js "true")) false s e)
      else
        open ← is_ (js "(");
        if negb open then
          if str_in (text token) BILLING_VARIABLES then mret (Variable_ (text token) s e)
          else lift_st (throw_at code_unsupported (text token) s)
        else
          match own BILLING_FUNCTIONS (text token) with
          | None => lift_st (throw_at code_unsupported (text token) s)
          | Some arity =>
              take_;;
              args ← arguments fuel [];
              close ← expect (js ")");
              if negb (length args =? arity) then
                lift_st (throw_at code_type (text token) s)
              else mret (Call (text token) args s (l_end close))
          end
  end
with arguments (fuel : nat) (args : list ExpressionNode) : P (list ExpressionNode) :=
  match fuel with
  | O => lift_st (Err out_of_fuel)
  | S fuel =>
      close ← is_ (js ")");
      if (close : bool) then mret args
      else
        a ← expression fuel 0;
        comma ← is_ (js ",");
        if negb comma then mret (args ++ [a])
        else take_;; arguments fuel (args ++ [a])
  end.

Definition parse (fuel : nat) : P ExpressionNode :=
  node ← expression fuel 0;
  st ← get_st;
  match kind (current st) with
  | KEnd => mret node
  | _ => lift_st (throw_at code_unsupported (text (current st)) (l_start (current st)))
  end.
End Parser.

(** The version prefix, white space then [v], digits and a colon: the matched
    text and the digits. *)
Definition match_version (source : jsstring) : option (jsstring * jsstring) :=
  let '(ws, r) := span is_space source in
  match r with
  | 118%N :: r1 =>
      match span is_digit r1 with
      | (d :: ds, 58%N :: _) => Some (ws ++ [118%N] ++ (d :: ds) ++ [58%N], d :: ds)
      | _ => None
      end
  | _ => None
  end.

Definition no_lexeme : Lexeme := mkLexeme KEnd [] 0 0.

(** The constructor; [current] is assigned by the first [next]. *)
Definition new_parser (source : jsstring) : result BillingParser :=
  if max_length <? length source then throw code_limit (js "expression length")
  else
    let version := match_version source in
    match version with
    | Some (all, digits) =>
        if negb (digits =s js "1") then throw code_unsupported all
        else '(_, st) ← take_ source (mkParser (length all) 0 0 no_lexeme); Ok st
    | None => '(_, st) ← take_ source (mkParser 0 0 0 no_lexeme); Ok st
    end.

(** Recursion budget: at most five nested calls per token. *)
Definition parser_fuel : nat := N.to_nat 60000.

(** [new BillingParser(source).parse()]. *)
Definition parse_with (fuel : nat) (source : jsstring) : result ExpressionNode :=
  st ← new_parser source;
  '(node, _) ← parse source fuel st;
  Ok node.
Definition parse_source (source : jsstring) : result ExpressionNode :=
  parse_with parser_fuel source.
