(* ===== verification/ParserFacts.v ===== *)
(** * Facts about the lexer and the parser

    Tokens are slices of the source; the parser terminates within its budget,
    builds trees whose spans nest strictly inside each other and whose calls,
    variables and literals are the declared ones. *)

From S2P Require Import Prelude JsNumber JsText JsNumberFacts Types Parser.
From Stdlib Require Import Floats.SpecFloat.

(** ** Scanners return suffixes *)

Lemma span_app p s : s = (span p s).1 ++ (span p s).2.
Proof.
  induction s as [|c s IH]; simpl; [done|].
  destruct (p c); [|done]. destruct (span p s) as [a b]; simpl in *. by rewrite IH at 1.
Qed.
Lemma span_forall p s : Forall (λ c, p c = true) (span p s).1.
Proof.
  induction s as [|c s IH]; simpl; [constructor|].
  destruct (p c) eqn:E; [|constructor]. destruct (span p s); simpl in *. by constructor.
Qed.
Lemma span_eq p s a b : span p s = (a, b) → s = a ++ b.
Proof. intros H. rewrite (span_app p s), H. done. Qed.
Lemma span_length p s : length (span p s).1 ≤ length s.
Proof. rewrite (span_app p s) at 2. rewrite length_app. lia. Qed.

Lemma scan_exponent_suffix s x r : scan_exponent s = (x, r) → ∃ p, s = p ++ r.
Proof.
  unfold scan_exponent, scan_sign. intros H. destruct s as [|c s]; [exists []; naive_solver|].
  destruct (_ || _)%N; [|exists []; naive_solver].
  destruct s as [|d s]; simpl in H; [exists []; naive_solver|].
  destruct (d =? 45)%N; [|destruct (d =? 43)%N];
    match type of H with context [span ?p ?t] =>
      destruct (span p t) as [ds r2] eqn:E; apply span_eq in E end;
    destruct ds; simplify_eq; try (exists []; done).
  - by exists (c :: d :: n :: ds).
  - by exists (c :: d :: n :: ds).
  - exists (c :: n :: ds). by rewrite E.
Qed.

Lemma scan_mantissa_suffix s ip fp r :
  scan_mantissa s = Some (ip, fp, r) → ∃ p, s = p ++ r ∧ p ≠ [].
Proof.
  unfold scan_mantissa. intros H.
  destruct (span is_digit s) as [i t] eqn:E. apply span_eq in E.
  destruct i as [|d i], t as [|c t]; simplify_eq.
  - destruct (c =? 46)%N; [|done]. destruct (span is_digit t) as [f u] eqn:E2.
    apply span_eq in E2. destruct f as [|f0 f]; simplify_eq.
    exists (c :: f0 :: f). done.
  - exists (d :: i). by rewrite app_nil_r.
  - destruct (c =? 46)%N.
    + destruct (span is_digit t) as [f u] eqn:E2. apply span_eq in E2. simplify_eq.
      exists (d :: i ++ c :: fp). split; [|done]. simpl. by rewrite <- app_assoc.
    + simplify_eq. exists (d :: i). done.
Qed.

Lemma scan_decimal_suffix s x r : scan_decimal s = Some (x, r) → ∃ p, s = p ++ r ∧ p ≠ [].
Proof.
  unfold scan_decimal. intros H.
  destruct (scan_mantissa s) as [[[ip fp] t]|] eqn:E; [|done].
  apply scan_mantissa_suffix in E as (p & -> & Hp).
  destruct (scan_exponent t) as [e u] eqn:E. apply scan_exponent_suffix in E as (q & ->).
  simplify_eq. exists (p ++ q). rewrite <- app_assoc. split; [done|].
  intros [??]%app_nil. done.
Qed.

Lemma scan_string_cursor q c rest v v' e :
  scan_string q c rest v = SClosed v' e → c < e ≤ c + length rest.
Proof.
  revert c v. remember (length rest) as n eqn:Hn. revert rest Hn.
  induction n as [n IH] using lt_wf_ind. intros rest -> c v H.
  destruct rest as [|x r]; cbn [scan_string] in H; [done|].
  destruct (x =? q)%N; [simplify_eq; simpl; lia|].
  destruct (_ || _)%N; [done|]. destruct (negb _).
  { apply (IH (length r)) in H; simpl in *; [lia|lia|done]. }
  destruct r as [|y r1]; [done|]. destruct (escape_of y escapes).
  { apply (IH (length r1)) in H; simpl in *; [lia|lia|done]. }
  destruct (y =? 117)%N.
  - destruct r1 as [|h1 [|h2 [|h3 [|h4 r2]]]]; try done.
    destruct (hex_run _ _); [|done]. apply (IH (length r2)) in H; simpl in *; [lia|lia|done].
  - destruct (y =? 120)%N; [|done]. destruct r1 as [|h1 [|h2 r2]]; try done.
    destruct (hex_run _ _); [|done]. apply (IH (length r2)) in H; simpl in *; [lia|lia|done].
Qed.

(** ** Tokens *)

Definition literal_number_ok (v : num) (integer : bool) : Prop :=
  is_finite v = true ∧ num_leb zero v = true ∧ valid_binary prec emax v = true ∧ (integer = true → is_safe_integer v = true).

(** A token of [source]: the slice between its positions, non-empty unless it
    is the end of the source. *)
Record lexeme_ok (source : jsstring) (t : Lexeme) : Prop := {
  lx_text : text t = slice source (l_start t) (l_end t);
  lx_bound : l_end t ≤ length source;
  lx_end : kind t = KEnd → l_end t = l_start t ∧ l_end t = length source;
  lx_span : kind t ≠ KEnd → l_start t < l_end t;
  lx_number : ∀ v i, kind t = KNumber v i → literal_number_ok v i
}.

Lemma lexeme_le source t : lexeme_ok source t → l_start t ≤ l_end t.
Proof.
  intros H. destruct (kind t) eqn:E; try (apply Nat.lt_le_incl, H; congruence).
  destruct (lx_end _ _ H E). lia.
Qed.

Lemma end_text source t : lexeme_ok source t → kind t = KEnd → text t = [].
Proof.
  intros H E. rewrite (lx_text _ _ H). destruct (lx_end _ _ H E) as [-> _]. apply slice_nil. lia.
Qed.

Lemma slice_prefix {A} (l : list A) a p r :
  drop a l = p ++ r → slice l a (a + length p) = p.
Proof.
  intros H. unfold slice. rewrite H. replace (a + length p - a) with (length p) by lia.
  by rewrite take_app_length.
Qed.

Lemma slice_prefix_bound {A} (l : list A) a p r :
  drop a l = p ++ r → a ≤ length l → a + length p ≤ length l.
Proof.
  intros H Ha. apply (f_equal length) in H. rewrite length_drop, length_app in H. lia.
Qed.

Lemma lex_at_ok source start t :
  start ≤ length source →
  lex_at source start (drop start source) = Ok t →
  l_start t = start ∧ lexeme_ok source t.
Proof.
  intros Hs H. destruct (drop start source) as [|c0 rest] eqn:Hd.
  { simpl in H. simplify_eq. assert (length source = start).
    { apply (f_equal length) in Hd. rewrite length_drop in Hd. simpl in Hd. lia. }
    split; [done|]. split; simpl; try done; try lia. by rewrite slice_nil. }
  unfold lex_at in H. destruct (scan_decimal (c0 :: rest)) as [[v r]|] eqn:Hn.
  - pose proof (scan_decimal_nonneg _ _ _ Hn) as Hpos. pose proof (scan_decimal_valid _ _ _ Hn) as Hval.
    apply scan_decimal_suffix in Hn as (p & Hp & Hne).
    rewrite Hp in H. rewrite length_app in H.
    replace (length p + length r - length r) with (length p) in H by lia.
    rewrite take_app_length in H. rewrite Hp in Hd.
    destruct (is_finite v) eqn:Hf; [|done]. cbn [negb] in H.
    match type of H with context [if ?b then _ else _] => destruct b eqn:Hsafe; [done|] end.
    injection H as <-.
    split; [done|]. split; simpl; try done.
    + by rewrite (slice_prefix _ _ _ _ Hd).
    + by eapply slice_prefix_bound.
    + intros _. destruct p; [done|]. simpl. lia.
    + intros v' i [= <- <-]. split; [done|]. split; [auto|]. split; [done|]. intros Hi.
      rewrite Hi in Hsafe. by destruct (is_safe_integer v).
  - clear Hn. destruct (_ || _)%N eqn:Hq.
    + destruct (scan_string c0 (start + 1) rest []) eqn:Hsc; [|done..].
      apply scan_string_cursor in Hsc. simplify_eq. split; [done|].
      apply (f_equal length) in Hd. rewrite length_drop in Hd. simpl in Hd.
      split; simpl; try done; lia.
    + destruct (is_alpha_ c0).
      * simplify_eq. split; [done|].
        assert (drop start source = (c0 :: (span is_word rest).1) ++ (span is_word rest).2) as Hd2.
        { rewrite Hd. simpl. by rewrite <- span_app. }
        split; simpl; try done; [|eapply (slice_prefix_bound _ _ _ _ Hd2 Hs)|lia].
        symmetry. apply (slice_prefix _ _ _ _ Hd2).
      * unfold match_operator in H. destruct (List.find _ operators) as [op|] eqn:Hop; [|done].
        apply find_some in Hop as [Hin Hop]. apply starts_with_spec in Hop as [r Hr].
        rewrite Hr in Hd. simplify_eq. split; [done|]. split; simpl; try done.
        -- by rewrite (slice_prefix _ _ _ _ Hd).
        -- by eapply slice_prefix_bound.
        -- intros _. unfold operators in Hin. simpl in Hin.
           destruct_or? Hin; subst; simpl; lia.
Qed.

Lemma skip_space_bounds source c :
  c ≤ length source → c ≤ skip_space source c ≤ length source.
Proof.
  intros H. unfold skip_space. pose proof (span_length is_space (drop c source)) as Hl.
  rewrite length_drop in Hl. lia.
Qed.

(** ** The parser *)

(** The invariant between two calls: [current] is a token and [cursor] its end. *)
Record parser_ok (source : jsstring) (st : BillingParser) : Prop := {
  po_current : lexeme_ok source (current st);
  po_cursor : cursor st = l_end (current st);
  po_count : count st ≤ max_tokens
}.

(** What one node of a parsed tree satisfies, relative to its children. *)
Fixpoint ordered_within (lo : nat) (l : list ExpressionNode) (hi : nat) : Prop :=
  match l with
  | [] => lo ≤ hi
  | n :: l => lo ≤ node_start n ∧ node_start n < node_end n ∧ ordered_within (node_end n) l hi
  end.

Definition vocabulary_ok (n : ExpressionNode) : Prop :=
  match n with
  | Literal (LNumber v) i _ _ => literal_number_ok v i
  | Literal _ i _ _ => i = false
  | Variable_ name _ _ => name ∈ BILLING_VARIABLES
  | Call name args _ _ => own BILLING_FUNCTIONS name = Some (length args)
  | Unary op _ _ _ => op ∈ [js "!"; js "+"; js "-"]
  | Binary op _ _ _ _ => is_Some (own PRECEDENCE op)
  | Conditional _ _ _ _ _ => True
  end.

Definition local_ok (n : ExpressionNode) : Prop :=
  node_start n < node_end n ∧
  ordered_within (node_start n) (children n) (node_end n) ∧
  Forall (λ c, node_end c - node_start c < node_end n - node_start n) (children n) ∧
  vocabulary_ok n.

Inductive node_ok : ExpressionNode → Prop :=
  | node_ok_intro n : local_ok n → Forall node_ok (children n) → node_ok n.

Lemma node_ok_inv n : node_ok n → local_ok n ∧ Forall node_ok (children n).
Proof. by destruct 1. Qed.
Lemma node_ok_span n : node_ok n → node_start n < node_end n.
Proof. intros [Hl _]%node_ok_inv. apply Hl. Qed.

Lemma ordered_within_weaken lo lo' l hi hi' :
  ordered_within lo l hi → lo' ≤ lo → hi ≤ hi' → ordered_within lo' l hi'.
Proof.
  revert lo lo'. induction l as [|n l IH]; simpl; intros lo lo' H Hlo Hhi; [lia|].
  destruct H as (? & ? & H). repeat split; [lia|done|]. eapply IH; [exact H|lia|done].
Qed.

Lemma ordered_within_snoc lo l n hi :
  ordered_within lo l (node_start n) → node_start n < node_end n → node_end n ≤ hi →
  ordered_within lo (l ++ [n]) hi.
Proof.
  revert lo. induction l as [|m l IH]; simpl; intros lo H Hn Hhi; [done|].
  destruct H as (? & ? & H). auto.
Qed.

Lemma ordered_within_le lo l hi : ordered_within lo l hi → lo ≤ hi.
Proof.
  revert lo. induction l as [|m l IH]; simpl; intros lo H; [done|].
  destruct H as (? & ? & H). apply IH in H. lia.
Qed.

(** Parentheses only widen the span. *)
Lemma with_span_ok n s e :
  node_ok n → s < node_start n → node_end n < e → node_ok (with_span n s e).
Proof.
  intros [(Hsp & Hord & Hlen & Hvoc) Hc]%node_ok_inv Hs He.
  constructor; [|by destruct n].
  assert (children (with_span n s e) = children n) as Hch by by destruct n.
  assert (node_start (with_span n s e) = s) as Hst by by destruct n.
  assert (node_end (with_span n s e) = e) as Hen by by destruct n.
  unfold local_ok. rewrite Hch, Hst, Hen. split; [lia|]. split; [|split].
  - eapply ordered_within_weaken; [exact Hord|lia|lia].
  - eapply Forall_impl; [exact Hlen|]. simpl. lia.
  - by destruct n.
Qed.

Lemma ordered_within_elem lo l hi c :
  ordered_within lo l hi → c ∈ l → lo ≤ node_start c ∧ node_start c < node_end c ∧ node_end c ≤ hi.
Proof.
  revert lo. induction l as [|m l IH]; simpl; intros lo H Hc; [set_solver|].
  destruct H as (? & ? & H). apply elem_of_cons in Hc as [->|Hc].
  - apply ordered_within_le in H. lia.
  - specialize (IH _ H Hc). lia.
Qed.

Lemma children_shorter l lo hi s e :
  ordered_within lo l hi → s ≤ lo → hi ≤ e → s < lo ∨ hi < e →
  Forall (λ c, node_end c - node_start c < e - s) l.
Proof.
  intros H Hs He Hor. apply Forall_forall. intros c Hc.
  apply (ordered_within_elem _ _ _ _ H) in Hc. lia.
Qed.

Section ParserSpec.
Context (source : jsstring).
#[local] Abbreviation ok := (parser_ok source).
#[local] Abbreviation next_start st := (l_start (current st)).

Lemma not_end_span st t :
  ok st → text (current st) = t → t ≠ [] → next_start st < l_end (current st).
Proof.
  intros H Ht Hne. apply (po_current _ _ H). intros E.
  apply Hne. rewrite <- Ht. eapply end_text; [apply H|done].
Qed.

Lemma wp_take st F :
  cursor st ≤ length source →
  wp (take_ source) st (λ t st', t = current st ∧ ok st' ∧ count st' = S (count st) ∧
    depth st' = depth st ∧ cursor st ≤ next_start st') F.
Proof.
  intros Hc. unfold take_, next. do 3 wp_step. repeat wp_step.
  destruct (lex_at _ _ _) as [t|e] eqn:Hl; [|]; unfold wp, lift_st.
  - simpl. apply lex_at_ok in Hl as [Hst Hok]; [|by apply skip_space_bounds].
    pose proof (skip_space_bounds source _ Hc). apply Nat.ltb_ge in E.
    split_and!; simpl; try done; try lia.
  - destruct e; [done|]. exfalso. revert Hl. unfold lex_at.
    destruct (drop _ _) as [|c0 rest]; [done|].
    repeat (case_goal; try done).
Qed.

Lemma wp_take_ok st F :
  ok st →
  wp (take_ source) st (λ t st', t = current st ∧ ok st' ∧ count st' = S (count st) ∧
    depth st' = depth st ∧ l_end t ≤ next_start st') F.
Proof.
  intros H. eapply wp_mono; [apply wp_take| |by intros ?].
  - rewrite (po_cursor _ _ H). apply (po_current _ _ H).
  - simpl. intros t s' (-> & ? & ? & ? & Hle). rewrite (po_cursor _ _ H) in Hle. done.
Qed.

Lemma wp_expect st t F :
  ok st → t ≠ [] →
  wp (expect source t) st (λ tok st', tok = current st ∧ next_start st < l_end tok ∧ ok st' ∧
    count st' = S (count st) ∧ l_end tok ≤ next_start st') F.
Proof.
  intros H Ht. unfold expect. wp_step. wp_step. wp_step; [|wp_step].
  apply str_eqb_eq in E. eapply wp_mono; [by apply wp_take_ok| |by intros ?].
  simpl. intros tok s' (-> & Hok & Hcnt & _ & Hle).
  split_and!; try done. by eapply not_end_span.
Qed.

(** Results of the parsing functions: a good node that starts where it should
    and ends before the next token. *)
Definition parsed (lo : nat) (min_count : nat) (n : ExpressionNode) (st' : BillingParser) : Prop :=
  node_ok n ∧ node_start n = lo ∧ node_end n ≤ next_start st' ∧ ok st' ∧ min_count ≤ count st'.

Definition budget (st : BillingParser) : nat := 4 * (S max_tokens - count st).

Definition expression_spec (fuel : nat) : Prop := ∀ min st,
  ok st →
  wp (expression source fuel min) st (parsed (next_start st) (S (count st)))
    (fuel < budget st + 2).
Definition loop_spec (fuel : nat) : Prop := ∀ min lhs st,
  ok st → node_ok lhs → node_end lhs ≤ next_start st →
  wp (binary_loop source fuel min lhs) st (parsed (node_start lhs) (count st))
    (fuel < budget st + 1).
Definition tail_spec (fuel : nat) : Prop := ∀ min lhs st,
  ok st → node_ok lhs → node_end lhs ≤ next_start st →
  wp (conditional_tail source fuel min lhs) st (parsed (node_start lhs) (count st))
    (fuel < budget st + 1).
Definition primary_spec (fuel : nat) : Prop := ∀ st,
  ok st →
  wp (primary source fuel) st (parsed (next_start st) (S (count st))) (fuel < budget st + 1).
Definition name_spec (fuel : nat) : Prop := ∀ token st,
  ok st → l_start token < l_end token → l_end token ≤ next_start st →
  wp (name_primary source fuel token) st (parsed (l_start token) (count st))
    (fuel < budget st + 4).
Definition arguments_spec (fuel : nat) : Prop := ∀ args lo st,
  ok st → Forall node_ok args → ordered_within lo args (next_start st) →
  wp (arguments source fuel args) st
    (λ args' st', Forall node_ok args' ∧ ordered_within lo args' (next_start st') ∧
      ok st' ∧ count st ≤ count st')
    (fuel < budget st + 3).

Lemma set_depth_ok st f : ok st → ok (mkParser (cursor st) (count st) (f (depth st)) (current st)).
Proof. intros []. by split. Qed.

Lemma binary_ok op lhs rhs t :
  node_ok lhs → node_ok rhs → is_Some (own PRECEDENCE op) →
  node_end lhs ≤ l_start t → l_start t < l_end t → l_end t ≤ node_start rhs →
  node_ok (Binary op lhs rhs (node_start lhs) (node_end rhs)).
Proof.
  intros Hl Hr Hop ? ? ?.
  pose proof (node_ok_span _ Hl). pose proof (node_ok_span _ Hr).
  constructor; [|by simpl; decompose_Forall]. unfold local_ok; simpl.
  split_and!; try lia; try done. repeat constructor; lia.
Qed.

Lemma conditional_ok c y n :
  node_ok c → node_ok y → node_ok n →
  node_end c ≤ node_start y → node_end y ≤ node_start n →
  node_ok (Conditional c y n (node_start c) (node_end n)).
Proof.
  intros Hc Hy Hn ? ?.
  pose proof (node_ok_span _ Hc). pose proof (node_ok_span _ Hy). pose proof (node_ok_span _ Hn).
  constructor; [|by simpl; decompose_Forall]. unfold local_ok; simpl.
  split_and!; try lia. repeat constructor; lia.
Qed.

Lemma unary_ok op x s :
  node_ok x → op ∈ [js "!"; js "+"; js "-"] → s < node_start x →
  node_ok (Unary op x s (node_end x)).
Proof.
  intros Hx Hop ?. pose proof (node_ok_span _ Hx).
  constructor; [|by simpl; decompose_Forall]. unfold local_ok; simpl.
  split_and!; try lia; try done. repeat constructor; lia.
Qed.

Lemma call_ok f args s e lo hi :
  Forall node_ok args → own BILLING_FUNCTIONS f = Some (length args) →
  ordered_within lo args hi → s < lo → hi < e → node_ok (Call f args s e).
Proof.
  intros Ha Hf Ho ? ?. pose proof (ordered_within_le _ _ _ Ho).
  constructor; [|done]. unfold local_ok; simpl. split_and!; try lia; try done.
  - eapply ordered_within_weaken; [exact Ho|lia|lia].
  - eapply children_shorter; [exact Ho|lia..].
Qed.

Lemma leaf_ok n : children n = [] → node_start n < node_end n → vocabulary_ok n → node_ok n.
Proof.
  intros Hc Hs Hv. constructor; rewrite ?Hc; [|constructor].
  unfold local_ok. rewrite Hc. simpl. split_and!; try done; try lia.
Qed.

Lemma precedence_not_nil p : own PRECEDENCE [] = Some p → False.
Proof. done. Qed.

Lemma expression_step fuel :
  primary_spec fuel → loop_spec fuel → tail_spec fuel → expression_spec (S fuel).
Proof.
  intros Hp Hl Ht min st H. cbn [expression].
  wp_step. unfold set_depth. wp_step. do 2 wp_step. wp_step. wp_step; wp_step.
  set (st1 := mkParser (cursor st) (count st) (S (depth st)) (current st)).
  assert (Hok1 : ok st1) by (by apply (set_depth_ok st S)).
  wp_step. eapply wp_mono; [by apply Hp| |unfold budget; simpl; lia].
  intros n1 st2 (Hn1 & Hs1 & He1 & Hok2 & Hc2). wp_step.
  eapply wp_mono; [by apply Hl| |unfold budget; simpl in *; lia].
  intros n2 st3 (Hn2 & Hs2 & He2 & Hok3 & Hc3). wp_step.
  eapply wp_mono; [by apply Ht| |unfold budget; simpl in *; lia].
  intros n3 st4 (Hn3 & Hs3 & He3 & Hok4 & Hc4).
  do 3 wp_step. unfold parsed. simpl in *. split_and!; try done; try lia.
  by apply set_depth_ok.
Qed.

Lemma loop_step fuel : expression_spec fuel → loop_spec fuel → loop_spec (S fuel).
Proof.
  intros He Hl min lhs st H Hlhs Hle. cbn [binary_loop]. do 2 wp_step.
  assert (Hdone : parsed (node_start lhs) (count st) lhs st) by (unfold parsed; auto).
  wp_step; [|by wp_step]. wp_step; [|by wp_step]. wp_step.
  pose proof (po_count _ _ H).
  assert (next_start st < l_end (current st)).
  { eapply not_end_span; [done..|]. intros Hnil. rewrite Hnil in E. by apply precedence_not_nil in E. }
  eapply wp_mono; [by apply wp_take_ok| |by intros ?].
  intros tok st1 (-> & Hok1 & Hc1 & _ & Hle1). wp_step.
  eapply wp_mono; [by apply He| |unfold budget in *; lia].
  intros rhs st2 (Hr & Hsr & Her & Hok2 & Hc2).
  eapply wp_mono; [apply Hl; try done| |unfold budget in *; lia].
  - eapply (binary_ok _ lhs rhs (current st)); try done; try lia.
  - intros m st3 (Hn & Hs & Hen & Hok3 & Hc3). unfold parsed in *. simpl in *.
    split_and!; try done; lia.
Qed.

Lemma tail_step fuel : expression_spec fuel → tail_spec (S fuel).
Proof.
  intros He min lhs st H Hlhs Hle. cbn [conditional_tail]. do 2 wp_step.
  assert (Hdone : parsed (node_start lhs) (count st) lhs st) by (unfold parsed; auto).
  pose proof (po_count _ _ H).
  wp_step; [|by wp_step]. wp_step.
  apply andb_true_iff in E as [_ Eq%str_eqb_eq].
  assert (next_start st < l_end (current st)) by (by eapply not_end_span).
  eapply wp_mono; [by apply wp_take_ok| |by intros ?].
  intros tok st1 (-> & Hok1 & Hc1 & _ & Hle1). wp_step.
  eapply wp_mono; [by apply He| |unfold budget in *; lia].
  intros y st2 (Hy & Hsy & Hey & Hok2 & Hc2). wp_step.
  eapply wp_mono; [by apply wp_expect| |by intros ?].
  intros tok st3 (-> & ? & Hok3 & Hc3 & Hle3). wp_step.
  eapply wp_mono; [by apply He| |unfold budget in *; lia].
  intros n st4 (Hn & Hsn & Hen & Hok4 & Hc4). wp_step.
  unfold parsed. simpl. split_and!; try done; try lia.
  apply conditional_ok; try done; lia.
Qed.

Lemma arguments_step fuel : expression_spec fuel → arguments_spec fuel → arguments_spec (S fuel).
Proof.
  intros He Ha args lo st H Hargs Ho. cbn [arguments]. unfold is_. do 4 wp_step.
  pose proof (po_count _ _ H).
  wp_step; [by wp_step|]. wp_step.
  eapply wp_mono; [by apply He| |unfold budget; lia].
  intros a st1 (Hn & Hs & Hen & Hok1 & Hc1). do 4 wp_step.
  pose proof (node_ok_span _ Hn).
  assert (Forall node_ok (args ++ [a])) by (apply Forall_app; auto using Forall_cons_2, Forall_nil_2).
  assert (∀ hi, node_end a ≤ hi → ordered_within lo (args ++ [a]) hi) as Hsnoc.
  { intros hi Hhi. apply ordered_within_snoc; try done. by rewrite Hs. }
  wp_step; [by wp_step; split_and!; auto; lia|]. wp_step.
  pose proof (po_count _ _ Hok1).
  eapply wp_mono; [by apply wp_take_ok| |by intros ?].
  intros tok st2 (-> & Hok2 & Hc2 & _ & Hle2).
  pose proof (lexeme_le _ _ (po_current _ _ Hok1)).
  eapply wp_mono; [apply Ha; try done| |unfold budget in *; lia].
  - apply Hsnoc. lia.
  - intros args' st3 (? & ? & ? & ?). split_and!; try done; lia.
Qed.

Lemma name_step fuel : arguments_spec fuel → name_spec (S fuel).
Proof.
  intros Ha token st H Hsp Hle. cbn [name_primary].
  assert (Hdone : ∀ n, node_start n = l_start token → node_end n = l_end token →
            children n = [] → vocabulary_ok n → parsed (l_start token) (count st) n st).
  { intros n Hs He Hc Hv. unfold parsed. split_and!; try done; try lia.
    apply leaf_ok; [done|lia|done]. }
  wp_step; [wp_step; by apply Hdone|].
  wp_step; [wp_step; by apply Hdone|].
  unfold is_. do 4 wp_step. wp_step.
  { wp_step; [|wp_step]. wp_step. apply Hdone; try done. by apply str_in_elem. }
  wp_step; [|wp_step]. wp_step.
  apply negb_false_iff in E1. apply str_eqb_eq in E1.
  pose proof (po_count _ _ H).
  assert (next_start st < l_end (current st)) by (by eapply not_end_span).
  eapply wp_mono; [by apply wp_take_ok| |by intros ?].
  intros tok st1 (-> & Hok1 & Hc1 & _ & Hle1). wp_step.
  eapply wp_mono; [apply (Ha [] (l_end (current st))); try done| |unfold budget in *; lia].
  intros args st2 (Hargs & Ho & Hok2 & Hc2). wp_step.
  eapply wp_mono; [by apply wp_expect| |by intros ?].
  intros tok st3 (-> & ? & Hok3 & Hc3 & Hle3).
  wp_step; [wp_step|]. wp_step.
  apply negb_false_iff in E3. apply Nat.eqb_eq in E3.
  unfold parsed. simpl. split_and!; try done; try lia.
  eapply call_ok; [done|by rewrite E3|exact Ho|lia|lia].
Qed.

Lemma primary_step fuel : expression_spec fuel → name_spec fuel → primary_spec (S fuel).
Proof.
  intros He Hn st H. cbn [primary]. wp_step.
  pose proof (po_count _ _ H).
  eapply wp_mono; [by apply wp_take_ok| |by intros ?].
  intros tok st1 (-> & Hok1 & Hc1 & _ & Hle1).
  assert (Hne : ∀ t, text (current st) = t → t ≠ [] → next_start st < l_end (current st)).
  { intros. by eapply not_end_span. }
  assert (Hrest : wp
    (if text (current st) =s js "(" then
       inner ← expression source fuel 0; close ← expect source (js ")");
       mret (with_span inner (next_start st) (l_end close))
     else if str_in (text (current st)) [js "!"; js "+"; js "-"] then
       operand ← expression source fuel 7;
       mret (Unary (text (current st)) operand (next_start st) (node_end operand))
     else match kind (current st) with
          | KName => name_primary source fuel (current st)
          | _ => lift_st (throw_at code_syntax (text (current st)) (next_start st))
          end) st1 (parsed (next_start st) (S (count st))) (S fuel < budget st + 1)).
  { wp_step; [|wp_step].
    - apply str_eqb_eq in E. pose proof (Hne _ E ltac:(done)). wp_step.
      eapply wp_mono; [by apply He| |unfold budget in *; lia].
      intros n st2 (Hnn & Hs & Hen & Hok2 & Hc2). wp_step.
      eapply wp_mono; [by apply wp_expect| |by intros ?].
      intros tok st3 (-> & ? & Hok3 & Hc3 & Hle3). wp_step. unfold parsed.
      split_and!; try done; try lia.
      + apply with_span_ok; try done; lia.
      + by destruct n.
      + by destruct n.
    - assert (text (current st) ≠ []) as Ht by (intros Ht; by rewrite Ht in E0).
      pose proof (Hne _ eq_refl Ht). wp_step.
      eapply wp_mono; [by apply He| |unfold budget in *; lia].
      intros n st2 (Hnn & Hs & Hen & Hok2 & Hc2). wp_step. unfold parsed. simpl.
      split_and!; try done; try lia.
      apply unary_ok; [done|by apply str_in_elem|lia].
    - destruct (kind (current st)) eqn:Ek; try by wp_step.
      eapply wp_mono; [apply Hn; try done| |unfold budget in *; lia].
      + apply (po_current _ _ H). by rewrite Ek.
      + intros n st2 (? & ? & ? & ? & ?). unfold parsed. split_and!; try done; lia. }
  assert (Hleaf : ∀ n, node_start n = next_start st → node_end n = l_end (current st) →
    kind (current st) ≠ KEnd → children n = [] → vocabulary_ok n →
    parsed (next_start st) (S (count st)) n st1).
  { intros n Hs Hen Hk Hch Hv. pose proof (lx_span _ _ (po_current _ _ H) Hk).
    unfold parsed. split_and!; try done; try lia. apply leaf_ok; try done. lia. }
  destruct (kind (current st)) as [v i|v| | |] eqn:Ek; try exact Hrest.
  - wp_step. apply Hleaf; try done.
    by apply (lx_number _ _ (po_current _ _ H)).
  - wp_step. by apply Hleaf.
Qed.

Lemma parser_specs fuel :
  expression_spec fuel ∧ loop_spec fuel ∧ tail_spec fuel ∧ primary_spec fuel ∧
  name_spec fuel ∧ arguments_spec fuel.
Proof.
  induction fuel as [|fuel (He & Hl & Ht & Hp & Hn & Ha)].
  - split_and!; red; intros; unfold wp, budget; simpl; lia.
  - split_and!; auto using expression_step, loop_step, tail_step, primary_step,
      name_step, arguments_step.
Qed.
End ParserSpec.

(** ** The whole parser *)

Lemma match_version_prefix source all digits :
  match_version source = Some (all, digits) → ∃ r, source = all ++ r.
Proof.
  unfold match_version. intros H.
  destruct (span is_space source) as [ws r] eqn:E. apply span_eq in E.
  destruct r as [|c r]; [done|].
  destruct (decide (c = 118%N)) as [->|Hc]; [|exfalso; clear -H Hc].
  - destruct (span is_digit r) as [ds t] eqn:E2. apply span_eq in E2.
    destruct ds as [|d ds]; [done|]. destruct t as [|c t]; [done|].
    destruct (decide (c = 58%N)) as [->|Hc]; [|exfalso; clear -H Hc].
    + simplify_eq. exists t. repeat (simpl; rewrite <- app_assoc). done.
    + repeat (case_match; simplify_eq; try done).
  - repeat (case_match; simplify_eq; try done).
Qed.

Lemma new_parser_spec source :
  match new_parser source with
  | Ok st => parser_ok source st ∧ count st = 1 ∧ length source ≤ max_length
  | Err (BillingExpressionError _) => True
  | Err (NativeError _) => False
  end.
Proof.
  unfold new_parser. destruct (_ <? _) eqn:Hl; [done|]. apply Nat.ltb_ge in Hl.
  assert (Htake : ∀ c, c ≤ length source →
    match ('(_, st) ← take_ source (mkParser c 0 0 no_lexeme); Ok st) with
    | Ok st => parser_ok source st ∧ count st = 1 ∧ length source ≤ max_length
    | Err (BillingExpressionError _) => True
    | Err (NativeError _) => False
    end).
  { intros c Hc. pose proof (wp_take source (mkParser c 0 0 no_lexeme) False Hc) as Hw.
    unfold wp in Hw. destruct (take_ _ _) as [[t st]|[]]; simpl; try done.
    by destruct Hw as (_ & ? & ? & _). }
  destruct (match_version source) as [[all digits]|] eqn:Hv.
  - destruct (negb _); [done|]. apply Htake.
    apply match_version_prefix in Hv as [r ->]. rewrite length_app. lia.
  - apply Htake. lia.
Qed.

Lemma parse_spec source fuel st :
  parser_ok source st → budget st + 2 ≤ fuel →
  wp (parse source fuel) st (λ n _, node_ok n ∧ node_end n ≤ length source) False.
Proof.
  intros Hok Hf. unfold parse. wp_step. eapply wp_mono.
  - exact (proj1 (parser_specs source fuel) 0 st Hok).
  - intros n st' (Hn & Hs & He & Hok' & _). do 2 wp_step.
    pose proof (lx_bound _ _ (po_current _ _ Hok')).
    pose proof (lexeme_le _ _ (po_current _ _ Hok')).
    destruct (kind (current st')) eqn:Ek; try by wp_step.
    wp_step. split; [done|lia].
  - lia.
Qed.

Lemma parser_fuel_enough st : count st = 1 → budget st + 2 ≤ parser_fuel.
Proof. intros Hc. unfold budget. rewrite Hc. apply Nat.leb_le. by vm_compute. Qed.

Definition good_parse (source : jsstring) (r : result ExpressionNode) : Prop :=
  match r with
  | Ok n => node_ok n ∧ node_end n ≤ length source ∧ length source ≤ max_length
  | Err (BillingExpressionError _) => True
  | Err (NativeError _) => False
  end.

Lemma parse_with_spec source fuel :
  (∀ st, count st = 1 → budget st + 2 ≤ fuel) → good_parse source (parse_with fuel source).
Proof.
  intros Hfuel. unfold parse_with. pose proof (new_parser_spec source) as Hnew.
  destruct (new_parser source) as [st|[]]; try done.
  destruct Hnew as (Hok & Hc & Hlen).
  pose proof (parse_spec source fuel st Hok (Hfuel st Hc)) as Hw.
  unfold wp in Hw. simpl. destruct (parse _ _ _) as [[n st']|[]]; simpl; try done.
  by destruct Hw.
Qed.

(** A parse either gives a good tree inside the source or throws a
    BillingExpressionError: the recursion budget is never exhausted. *)
Lemma parse_source_spec source : good_parse source (parse_source source).
Proof. exact (parse_with_spec source parser_fuel parser_fuel_enough). Qed.

Lemma parse_source_node_ok source n : parse_source source = Ok n → node_ok n.
Proof. intros H. pose proof (parse_source_spec source) as Hs. rewrite H in Hs. apply Hs. Qed.

(** ** Spans identify nodes *)

Definition span_of (n : ExpressionNode) : nat * nat := (node_start n, node_end n).

Lemma node_ok_in_tree m n : node_ok n → in_tree m n → node_ok m.
Proof.
  induction n as [n IH] using node_induction. intros Hn Hm.
  apply in_tree_inv in Hm as [->|(c & Hc & Hm)]; [done|].
  rewrite Forall_forall in IH. apply (IH c Hc); [|done].
  apply node_ok_inv in Hn as [_ Hch]. rewrite Forall_forall in Hch. by apply Hch.
Qed.

(** A descendant lies inside; a proper one is strictly shorter. *)
Lemma in_tree_span m n :
  node_ok n → in_tree m n →
  node_start n ≤ node_start m ∧ node_end m ≤ node_end n ∧ node_start m < node_end m ∧
  (m = n ∨ node_end m - node_start m < node_end n - node_start n).
Proof.
  induction n as [n IH] using node_induction. intros Hn Hm.
  pose proof (node_ok_span _ Hn).
  apply in_tree_inv in Hm as [->|(c & Hc & Hm)]; [auto with lia|].
  apply node_ok_inv in Hn as [(_ & Ho & Hl & _) Hch].
  rewrite Forall_forall in IH, Hch, Hl.
  destruct (IH c Hc (Hch c Hc) Hm) as (? & ? & ? & Hor).
  pose proof (ordered_within_elem _ _ _ _ Ho Hc). specialize (Hl c Hc). simpl in Hl.
  destruct Hor as [->|?]; split_and!; try lia; right; lia.
Qed.

Lemma spans_nodup n : node_ok n → NoDup (map span_of (postorder n)).
Proof.
  induction n as [n IH] using node_induction. intros Hn.
  rewrite postorder_children, map_app. apply NoDup_app. split; [|split].
  - apply node_ok_inv in Hn as [(_ & Ho & _ & _) Hch]. revert Ho.
    generalize (node_start n) as lo. generalize (node_end n) as hi.
    induction (children n) as [|c l IHl]; intros hi lo Ho; [constructor|].
    inversion IH as [|?? IHc IHr]; inversion Hch as [|?? Hc Hr]; subst.
    change (mjoin (map postorder (c :: l))) with (postorder c ++ mjoin (map postorder l)).
    simpl in Ho. destruct Ho as (? & ? & Ho).
    rewrite map_app. apply NoDup_app. split; [auto|]. split; [|eauto].
    intros sp (x & -> & Hx)%list_elem_of_fmap (y & Hxy & Hy)%list_elem_of_fmap.
    apply list_elem_of_join in Hy as (ys & Hy & (d & -> & Hd)%list_elem_of_fmap).
    pose proof (in_tree_span x c Hc Hx). rewrite Forall_forall in Hr.
    pose proof (in_tree_span y d (Hr d Hd) Hy).
    pose proof (ordered_within_elem _ _ _ _ Ho Hd).
    unfold span_of in Hxy. simplify_eq. lia.
  - intros sp (x & -> & Hx)%list_elem_of_fmap Hy. apply list_elem_of_singleton in Hy.
    apply list_elem_of_join in Hx as (xs & Hx & (c & -> & Hc)%list_elem_of_fmap).
    apply node_ok_inv in Hn as [(_ & _ & Hl & _) Hch]. rewrite Forall_forall in Hl, Hch.
    specialize (Hl c Hc). simpl in Hl.
    pose proof (in_tree_span x c (Hch c Hc) Hx). unfold span_of in Hy. simplify_eq. lia.
  - apply NoDup_singleton.
Qed.

Lemma span_identifies n a b :
  node_ok n → in_tree a n → in_tree b n → span_of a = span_of b → a = b.
Proof.
  intros Hn Ha Hb Hab. pose proof (spans_nodup n Hn) as Hnd.
  apply list_elem_of_lookup in Ha as [i Hi]. apply list_elem_of_lookup in Hb as [j Hj].
  assert (i = j).
  { eapply (NoDup_lookup _ i j (span_of a)); [exact Hnd| |]; rewrite list_lookup_fmap.
    - by rewrite Hi.
    - rewrite Hj. simpl. by rewrite Hab. }
  subst. congruence.
Qed.
