(* ===== verification/Compile.v ===== *)
(** * billing-expression/parser.ts, from checkExpressionTypes to the end

    The static type check, the validation of fixed-price trees, the extraction
    of request rules and the bounded cache of compiled expressions. *)

From S2P Require Import Prelude JsNumber JsText Types Parser.
From Stdlib Require Import Floats.SpecFloat.

(** ** checkExpressionTypes *)
Inductive ExpressionType := TNumber | TString | TBoolean | TNil | TDynamic.
#[export] Instance ExpressionType_eq_dec : EqDecision ExpressionType.
Proof. solve_decision. Defined.

Definition type_name (t : ExpressionType) : jsstring :=
  match t with
  | TNumber => js "number" | TString => js "string" | TBoolean => js "boolean"
  | TNil => js "nil" | TDynamic => js "dynamic"
  end.

(** [types: Map<ExpressionNode, ExpressionType>]. *)
Abbreviation type_map := (list (ExpressionNode * ExpressionType)).
Fixpoint types_get (types : type_map) (n : ExpressionNode) : option ExpressionType :=
  match types with
  | [] => None
  | (m, t) :: types => if same_node m n then Some t else types_get types n
  end.

Definition undefined_start : exn :=
  NativeError (js "Cannot read properties of undefined (reading 'start')").
Definition undefined_kind : exn :=
  NativeError (js "Cannot read properties of undefined (reading 'kind')").

(** [get] reads the type of a node that was visited before. *)
Definition requireType (get : ExpressionNode → option ExpressionType)
    (child : option ExpressionNode) (expected : ExpressionType) : result unit :=
  match child with
  | None => Err undefined_start
  | Some child =>
      match get child with
      | Some TDynamic => Ok tt
      | actual =>
          if bool_decide (actual = Some expected) then Ok tt
          else throw_at code_type (type_name expected ++ js " operand") (node_start child)
      end
  end.

Definition comparisons : list jsstring := map js ["=="; "!="; "<"; "<="; ">"; ">="]%string.
Definition string_argument_functions : list jsstring :=
  [js "param"; js "header"; js "u"] ++ TIME_FUNCTIONS.
Definition numeric_functions : list jsstring :=
  map js ["fixed"; "min"; "max"; "abs"; "ceil"; "floor"]%string.

Fixpoint require_all (get : ExpressionNode → option ExpressionType) (args : list ExpressionNode) (t : ExpressionType) : result unit :=
  match args with
  | [] => Ok tt
  | a :: args => requireType get (Some a) t;; require_all get args t
  end.

(** The body of the visitor: the type given to [node]. *)
Definition node_type (get : ExpressionNode → option ExpressionType) (node : ExpressionNode) : result ExpressionType :=
  match node with
  | Literal LNull _ _ _ => Ok TNil
  | Literal (LNumber _) _ _ _ => Ok TNumber
  | Literal (LString _) _ _ _ => Ok TString
  | Literal (LBoolean _) _ _ _ => Ok TBoolean
  | Variable_ _ _ _ => Ok TNumber
  | Unary operator operand _ _ =>
      let t := if operator =s js "!" then TBoolean else TNumber in
      requireType get (Some operand) t;; Ok t
  | Conditional condition yes no _ _ =>
      requireType get (Some condition) TBoolean;;
      Ok (if bool_decide (get yes = get no)
          then default TDynamic (get yes) else TDynamic)
  | Binary operator lhs rhs _ _ =>
      if str_in operator [js "&&"; js "||"] then
        requireType get (Some lhs) TBoolean;;
        requireType get (Some rhs) TBoolean;;
        Ok TBoolean
      else if str_in operator comparisons then Ok TBoolean
      else if (operator =s js "+") && bool_decide (get lhs = Some TString)
              && bool_decide (get rhs = Some TString)
      then Ok TString
      else
        requireType get (Some lhs) TNumber;;
        requireType get (Some rhs) TNumber;;
        Ok TNumber
  | Call name args _ _ =>
      (if str_in name string_argument_functions then requireType get (args !! 0) TString
       else Ok tt);;
      if name =s js "header" then Ok TString
      else if name =s js "has" then requireType get (args !! 1) TString;; Ok TBoolean
      else if name =s js "tier" then
        requireType get (args !! 0) TString;;
        requireType get (args !! 1) TNumber;;
        Ok TNumber
      else if str_in name TIME_FUNCTIONS then Ok TNumber
      else if str_in name numeric_functions then require_all get args TNumber;; Ok TNumber
      else Ok TDynamic
  end.

Definition type_visitor (node : ExpressionNode) : stateR type_map unit :=
  types ← get_st;
  t ← lift_st (node_type (types_get types) node);
  put_st ((node, t) :: types).

Definition checkExpressionTypes (ast : ExpressionNode) : result type_map :=
  '(_, types) ← visitExpression type_visitor ast [];
  Ok types.

(** ** Fixed-price trees *)
Definition containsPricingMarker (node : ExpressionNode) : result bool :=
  '(_, calls) ← expressionDependencies node;
  Ok (str_in (js "tier") calls || str_in (js "fixed") calls).

Definition million : num := num_of_Z 1000000.
Definition fixed_tree_message : jsstring :=
  js "Use tier(name, fixed(amount)) with a finite, non-negative numeric literal; combine pricing branches only with conditions and request multipliers.".

Definition is_image_count (n : ExpressionNode) : bool :=
  match n with Variable_ name _ _ => name =s js "image_count" | _ => false end.
Definition find_rule (rules : list RequestRule) (n : ExpressionNode) : option RequestRule :=
  List.find (λ candidate, same_node (rr_node candidate) n) rules.

(** May the factor of a product be dropped: [image_count], or a request rule
    with a non-negative multiplier and a condition without pricing calls. *)
Definition quantity_or_rule (rules : list RequestRule) (factor : ExpressionNode) : result bool :=
  if is_image_count factor then Ok true
  else
    match find_rule rules factor with
    | Some rule =>
        if num_leb zero (rr_multiplier rule) then
          marked ← containsPricingMarker (rr_condition rule); Ok (negb marked)
        else Ok false
    | None => Ok false
    end.

Definition valid_fixed_amount (amount : ExpressionNode) : bool :=
  match amount with
  | Literal (LNumber v) _ _ _ => num_leb zero v && is_finite (num_mul v million)
  | _ => false
  end.

(** May [price], the second argument of [tier], end a fixed-price branch: a
    valid [fixed(amount)], or an expression without pricing calls. *)
Definition valid_tier_price (price : option ExpressionNode) : result bool :=
  match price with
  | None => Err undefined_kind
  | Some price =>
      let unmarked := marked ← containsPricingMarker price; Ok (negb marked) in
      match price with
      | Call f args _ _ =>
          if f =s js "fixed" then
            match args with
            | amount :: _ => Ok (valid_fixed_amount amount)
            | [] => Err undefined_kind
            end
          else unmarked
      | _ => unmarked
      end
  end.

Fixpoint validateFixedPricingTree (rules : list RequestRule) (node : ExpressionNode) : result unit :=
  let reject := throw_at code_type fixed_tree_message (node_start node) in
  match node with
  | Conditional condition yes no _ _ =>
      marked ← containsPricingMarker condition;
      if negb marked then
        validateFixedPricingTree rules yes;; validateFixedPricingTree rules no
      else reject
  | Binary operator lhs rhs _ _ =>
      if operator =s js "*" then
        drop_right ← quantity_or_rule rules rhs;
        if (drop_right : bool) then validateFixedPricingTree rules lhs
        else
          drop_left ← quantity_or_rule rules lhs;
          if (drop_left : bool) then validateFixedPricingTree rules rhs
          else reject
      else reject
  | Call name args _ _ =>
      if name =s js "tier" then
        match args !! 0 with
        | None => Err undefined_kind
        | Some label =>
            marked ← containsPricingMarker label;
            if (marked : bool) then reject
            else
              fine ← valid_tier_price (args !! 1);
              if (fine : bool) then Ok tt else reject
        end
      else reject
  | _ => reject
  end.

(** ** compileBillingExpression *)

(** A conditional whose branches are a number and the number 1. *)
Definition rule_multiplier_of (node : ExpressionNode) : option (ExpressionNode * num) :=
  match node with
  | Conditional condition (Literal (LNumber m) _ _ _) (Literal (LNumber one) _ _ _) _ _ =>
      if num_eqb one (num_of_Z 1) then Some (condition, m) else None
  | _ => None
  end.

Definition probe_functions : list jsstring := [js "param"; js "header"] ++ TIME_FUNCTIONS.

Definition rule_visitor (source : jsstring) (node : ExpressionNode) : stateR (list RequestRule) unit :=
  match rule_multiplier_of node with
  | None => mret tt
  | Some (condition, multiplier) =>
      '(_, calls) ← lift_st (expressionDependencies condition);
      if existsb (λ name, str_in name probe_functions) calls then
        modify_st (λ rules, rules ++
          [mkRequestRule node condition multiplier
             (slice source (node_start condition) (node_end condition))])
      else mret tt
  end.

(** The [try] block. *)
Definition compile_ready (source : jsstring) : result CompiledBillingExpression :=
  ast ← parse_source source;
  checkExpressionTypes ast;;
  '(variables, functions) ← expressionDependencies ast;
  '(_, requestRules) ← visitExpression (rule_visitor source) ast [];
  (if str_in (js "fixed") functions then validateFixedPricingTree requestRules ast else Ok tt);;
  Ok (mkCompiled source ast variables functions requestRules).

Definition compile_source (source : jsstring) : CompilationResult :=
  match compile_ready source with
  | Ok compiled => Ready compiled
  | Err error => CompileFailed (expressionFailure error)
  end.

(** The module-level [compiledCache]: a Map, in insertion order. *)
Abbreviation compiledCache := (list (jsstring * CompilationResult)).

Definition compileBillingExpression (cache : compiledCache) (source : jsstring)
    : CompilationResult * compiledCache :=
  match own cache source with
  | Some cached => (cached, cache)
  | None =>
      let result := compile_source source in
      let cache :=
        match cache with
        | _ :: newer => if 128 <=? length cache then newer else cache
        | [] => cache
        end in
      (result, cache ++ [(source, result)])
  end.
