(* ===== verification/CompileFacts.v ===== *)
(** * Facts about compilation

    The visitor computes a typing of the whole tree, a compiled expression has
    a tree within the traversal bound, its dependency sets are exact and its
    request rules are nodes of the tree. The cache returns what compiling again
    would return and never exceeds its bound. *)

From Stdlib Require Import Floats.SpecFloat.
From S2P Require Import Prelude JsNumber JsText Types Parser ParserFacts Compile.

(** ** The type check is a typing *)

Definition typing (ty : ExpressionNode → option ExpressionType) (root : ExpressionNode) : Prop :=
  ∀ m, in_tree m root → ∃ t, ty m = Some t ∧ node_type ty m = Ok t.

Section Ext.
Context (g1 g2 : ExpressionNode → option ExpressionType).

Lemma requireType_ext c t :
  (∀ n, c = Some n → g1 n = g2 n) → requireType g1 c t = requireType g2 c t.
Proof. intros H. destruct c as [n|]; simpl; [|done]. by rewrite (H n eq_refl). Qed.

Lemma require_all_ext args t :
  (∀ n, n ∈ args → g1 n = g2 n) → require_all g1 args t = require_all g2 args t.
Proof.
  induction args as [|a args IH]; simpl; intros H; [done|].
  rewrite (H a), IH by set_solver. done.
Qed.

Lemma node_type_ext n :
  (∀ c, c ∈ children n → g1 c = g2 c) → node_type g1 n = node_type g2 n.
Proof.
  intros H. destruct n; simpl in *; try done.
  - rewrite (require_all_ext args TNumber H).
    rewrite !(requireType_ext (args !! 0)), !(requireType_ext (args !! 1)); [done|..];
      intros m Hm; apply H; by eapply list_elem_of_lookup_2.
  - by rewrite H by set_solver.
  - by rewrite !H by set_solver.
  - by rewrite !H by set_solver.
Qed.
End Ext.

Lemma types_get_notin types n : n ∉ map fst types → types_get types n = None.
Proof.
  induction types as [|[m t] types IH]; simpl; [done|]. intros H.
  unfold same_node. rewrite bool_decide_eq_false_2 by set_solver. apply IH. set_solver.
Qed.

Lemma types_get_app_fresh m t types n :
  n ≠ m → types_get ((m, t) :: types) n = types_get types n.
Proof. intros H. simpl. unfold same_node. by rewrite bool_decide_eq_false_2 by congruence. Qed.

Lemma types_get_head m t types : types_get ((m, t) :: types) m = Some t.
Proof. simpl. unfold same_node. by rewrite bool_decide_eq_true_2. Qed.

Lemma elem_of_postorder_children m n c :
  m ∈ postorder n → c ∈ children m → c ∈ postorder n.
Proof.
  intros Hm Hc. apply (in_tree_trans c m n); [|done].
  eapply in_tree_child; [exact Hc|apply in_tree_self].
Qed.

(** Visiting a list of distinct nodes whose children come before them. *)
Lemma run_type_visitor l types0 types :
  NoDup (map fst types0 ++ l) →
  (∀ pre n post, l = pre ++ n :: post → ∀ c, c ∈ children n → c ∈ map fst types0 ∨ c ∈ pre) →
  run_visitor type_visitor l types0 = Ok (tt, types) →
  (∀ n, n ∈ map fst types0 → types_get types n = types_get types0 n) ∧
  (∀ n, n ∈ l → ∃ t, types_get types n = Some t ∧ node_type (types_get types) n = Ok t).
Proof.
  revert types0. induction l as [|n l IH]; intros types0 Hnd Hch Hrun.
  { injection Hrun as ->. split; [done|]. set_solver. }
  cbn [run_visitor] in Hrun. apply stateR_bind_Ok in Hrun as ([] & types1 & Hv & Hrun).
  unfold type_visitor in Hv. apply stateR_bind_Ok in Hv as (ts & s1 & Hg & Hv).
  unfold get_st in Hg. simplify_eq. apply stateR_bind_Ok in Hv as (t & s2 & Ht & Hv).
  unfold lift_st in Ht. destruct (node_type _ n) as [t'|] eqn:Hnt; simplify_eq.
  unfold put_st in Hv. simplify_eq.
  apply NoDup_app in Hnd as (Hnd0 & Hdis & Hndl). apply NoDup_cons in Hndl as [Hnl Hndl].
  assert (n ∉ map fst s2) as Hns by (intros Hin; apply (Hdis n Hin); set_solver).
  destruct (IH ((n, t) :: s2)) as [Hold Hnew]; [| |exact Hrun|].
  - simpl. constructor; [set_solver|]. apply NoDup_app. split; [done|].
    split; [|done]. intros x Hx Hx'. apply (Hdis x Hx). set_solver.
  - intros pre m post -> c Hc. simpl.
    destruct (Hch (n :: pre) m post eq_refl c Hc) as [?|?]; set_solver.
  - split.
    + intros x Hx. rewrite Hold by set_solver. apply types_get_app_fresh. set_solver.
    + intros x Hx. apply elem_of_cons in Hx as [->|Hx]; [|by apply Hnew].
      exists t. rewrite Hold by set_solver. split; [apply types_get_head|].
      rewrite <- Hnt. apply node_type_ext. intros c Hc.
      destruct (Hch [] n l eq_refl c Hc) as [Hin|Hin]; [|set_solver].
      rewrite Hold by set_solver. apply types_get_app_fresh. set_solver.
Qed.

(** In the postorder list children precede their parent. *)
Lemma postorder_children_before n : ∀ pre m post,
  postorder n = pre ++ m :: post → ∀ c, c ∈ children m → c ∈ pre.
Proof.
  induction n as [n IH] using node_induction. rewrite postorder_children.
  assert (∀ l, Forall (λ x, ∀ pre m post, postorder x = pre ++ m :: post →
            ∀ c, c ∈ children m → c ∈ pre) l →
          ∀ pre m post, mjoin (map postorder l) = pre ++ m :: post →
            ∀ c, c ∈ children m → c ∈ pre) as Hl.
  { induction l as [|x l IHl]; intros Hall pre m post H c Hc; [by destruct pre|].
    inversion Hall as [|?? Hx Hall']; subst.
    change (mjoin (map postorder (x :: l))) with (postorder x ++ mjoin (map postorder l)) in H.
    apply app_eq_app in H as (k & [[H1 H2]|[H1 H2]]).
    - destruct k as [|y k].
      + rewrite app_nil_r in H1. subst. simpl in H2.
        specialize (IHl Hall' [] m post (eq_sym H2) c Hc). set_solver.
      + simpl in H2. simplify_eq. eapply Hx; [exact H1|done].
    - subst. apply elem_of_app. right. by eapply IHl. }
  intros pre m post H c Hc. apply app_eq_app in H as (k & [[H1 H2]|[H1 H2]]).
  - destruct k as [|y k].
    + rewrite app_nil_r in H1. subst. simpl in H2. simplify_eq.
      apply list_elem_of_join. exists (postorder c). split; [apply in_tree_self|].
      by apply list_elem_of_fmap_2.
    + simpl in H2. simplify_eq. eapply Hl; [exact IH|exact H1|done].
  - subst. destruct k as [|y k]; simpl in H2; simplify_eq.
    + rewrite app_nil_r. apply list_elem_of_join. exists (postorder c).
      split; [apply in_tree_self|]. by apply list_elem_of_fmap_2.
    + by destruct k.
Qed.

Lemma checkExpressionTypes_height ast types :
  checkExpressionTypes ast = Ok types → node_height ast ≤ 256.
Proof.
  unfold checkExpressionTypes. rewrite visitExpression_reference. intros H.
  destruct (decide (node_height ast ≤ 256)) as [|Hn]; [done|].
  apply bind_Ok in H as ([[] s] & H & _). exfalso.
  eapply visit_postorder_beyond; [|exact H]. lia.
Qed.

Lemma checkExpressionTypes_typing ast types :
  node_ok ast → checkExpressionTypes ast = Ok types → typing (types_get types) ast.
Proof.
  intros Hok H. pose proof (checkExpressionTypes_height _ _ H) as Hh.
  unfold checkExpressionTypes in H.
  rewrite visitExpression_reference, visit_postorder_within in H by done.
  apply bind_Ok in H as ([[] s] & H & ?). simplify_eq.
  intros m Hm. eapply (run_type_visitor (postorder ast) []); [| |exact H|exact Hm].
  - simpl. eapply NoDup_fmap_1. apply (spans_nodup _ Hok).
  - intros pre n post Heq c Hc. right. by eapply postorder_children_before.
Qed.

(** ** Request rules *)

(** [m] is the conditional the rule [r] was recorded for. *)
Definition rule_of (source : jsstring) (m : ExpressionNode) (r : RequestRule) : Prop :=
  rr_node r = m ∧
  rule_multiplier_of m = Some (rr_condition r, rr_multiplier r) ∧
  rr_cond r = slice source (node_start (rr_condition r)) (node_end (rr_condition r)) ∧
  ∃ f, f ∈ probe_functions ∧ uses_function f (rr_condition r).

Lemma rule_multiplier_child m c k : rule_multiplier_of m = Some (c, k) → c ∈ children m.
Proof.
  destruct m; simpl; try done. intros H. repeat (case_match; simplify_eq); simpl; set_solver.
Qed.

Lemma existsb_probe calls :
  existsb (λ name, str_in name probe_functions) calls = true ↔
  ∃ f, f ∈ probe_functions ∧ f ∈ calls.
Proof.
  rewrite existsb_exists. setoid_rewrite str_in_elem. setoid_rewrite <- list_elem_of_In. naive_solver.
Qed.

Lemma run_rule_visitor source l rules0 rules :
  run_visitor (rule_visitor source) l rules0 = Ok (tt, rules) →
  ∃ new, rules = rules0 ++ new ∧ map rr_node new `sublist_of` l ∧
    (∀ r, r ∈ new → rule_of source (rr_node r) r) ∧
    (∀ m c k, m ∈ l → rule_multiplier_of m = Some (c, k) →
       (∃ f, f ∈ probe_functions ∧ uses_function f c) → ∃ r, r ∈ new ∧ rr_node r = m).
Proof.
  revert rules0. induction l as [|n l IH]; intros rules0 H.
  { injection H as ->. exists []. rewrite app_nil_r. split_and!; try done; set_solver. }
  cbn [run_visitor] in H. apply stateR_bind_Ok in H as ([] & rules1 & Hv & H).
  destruct (IH _ H) as (new & -> & Hsub & Hall & Hex). clear IH H. unfold rule_visitor in Hv.
  destruct (rule_multiplier_of n) as [[c k]|] eqn:Hm.
  - apply stateR_bind_Ok in Hv as ([vs calls] & s1 & Hd & Hv). unfold lift_st in Hd.
    destruct (expressionDependencies c) as [d|] eqn:Hdep; simplify_eq.
    destruct (expressionDependencies_ok c (expressionDependencies_height _ _ Hdep))
      as (vs' & fs' & Hdep' & _ & Hfs). rewrite Hdep in Hdep'. simplify_eq.
    destruct (existsb _ fs') eqn:E.
    + apply existsb_probe in E as (f & Hf & Hfc). apply Hfs in Hfc.
      unfold modify_st in Hv. simplify_eq.
      eexists (_ :: new). rewrite <- app_assoc. split; [done|]. simpl. split_and!.
      * by constructor.
      * intros r [->|Hr]%elem_of_cons; [|by apply Hall].
        unfold rule_of. simpl. rewrite Hm. eauto 10.
      * intros m c' k' [->|Hin]%elem_of_cons Hm' Hp.
        -- eexists. split; [apply elem_of_cons; by left|done].
        -- destruct (Hex m c' k' Hin Hm' Hp) as (r & ? & ?). exists r. set_solver.
    + unfold mret, stateR_ret in Hv. simplify_eq. exists new. split_and!; try done.
      * by constructor.
      * intros m c' k' [->|Hin]%elem_of_cons Hm' Hp; [|by eapply Hex].
        exfalso. rewrite Hm in Hm'. simplify_eq. destruct Hp as (f & Hf & Hu).
        assert (existsb (λ name, str_in name probe_functions) fs' = true); [|congruence].
        apply existsb_probe. exists f. by rewrite Hfs.
  - unfold mret, stateR_ret in Hv. simplify_eq. exists new. split_and!; try done.
    + by constructor.
    + intros m c' k' [->|Hin]%elem_of_cons Hm' Hp; [congruence|by eapply Hex].
Qed.

(** ** Compiled expressions *)

Record compiled_ok (source : jsstring) (c : CompiledBillingExpression) : Prop := {
  co_source : c_source c = source;
  co_parse : parse_source source = Ok (c_ast c);
  co_node : node_ok (c_ast c);
  co_height : node_height (c_ast c) ≤ 256;
  co_typing : ∃ ty, typing ty (c_ast c);
  co_variables : ∀ x, x ∈ c_variables c ↔ uses_variable x (c_ast c);
  co_functions : ∀ f, f ∈ c_functions c ↔ uses_function f (c_ast c);
  co_rules : ∀ r, r ∈ c_requestRules c → in_tree (rr_node r) (c_ast c) ∧ rule_of source (rr_node r) r;
  co_rules_nodup : NoDup (map rr_node (c_requestRules c));
  co_rules_all : ∀ m d k, in_tree m (c_ast c) → rule_multiplier_of m = Some (d, k) →
    (∃ f, f ∈ probe_functions ∧ uses_function f d) → ∃ r, r ∈ c_requestRules c ∧ rr_node r = m;
  co_fixed : uses_function (js "fixed") (c_ast c) →
    validateFixedPricingTree (c_requestRules c) (c_ast c) = Ok tt
}.

Lemma compile_ready_ok source c : compile_ready source = Ok c → compiled_ok source c.
Proof.
  unfold compile_ready. intros H.
  apply bind_Ok in H as (ast & Hp & H). apply bind_Ok in H as (types & Ht & H).
  apply bind_Ok in H as ([vs fs] & Hd & H). apply bind_Ok in H as ([[] rules] & Hr & H).
  apply bind_Ok in H as ([] & Hf & H). simplify_eq.
  pose proof (parse_source_node_ok _ _ Hp) as Hok.
  pose proof (checkExpressionTypes_height _ _ Ht) as Hh.
  destruct (expressionDependencies_ok ast Hh) as (vs' & fs' & Hd' & Hvs & Hfs).
  rewrite Hd in Hd'. simplify_eq.
  rewrite visitExpression_reference, visit_postorder_within in Hr by done.
  apply run_rule_visitor in Hr as (new & -> & Hsub & Hall & Hex).
  split; simpl; try done.
  - exists (types_get types). by apply checkExpressionTypes_typing.
  - intros r Hin. split; [|by apply Hall].
    eapply elem_of_sublist; [|exact Hsub]. by apply list_elem_of_fmap_2.
  - eapply sublist_NoDup; [|exact Hsub]. eapply NoDup_fmap_1. apply (spans_nodup _ Hok).
  - intros Hu. apply Hfs in Hu. apply str_in_elem in Hu. by rewrite Hu in Hf.
Qed.

Lemma compile_source_ready source c : compile_source source = Ready c → compiled_ok source c.
Proof.
  unfold compile_source. destruct (compile_ready source) eqn:E; [|done].
  intros ?; simplify_eq. by apply compile_ready_ok.
Qed.

(** ** The cache *)

Record cache_ok (cache : compiledCache) : Prop := {
  ca_values : ∀ k v, (k, v) ∈ cache → v = compile_source k;
  ca_keys : NoDup (map fst cache);
  ca_bound : length cache ≤ 128
}.

Lemma own_Some_elem {A} (l : list (jsstring * A)) k v : own l k = Some v → (k, v) ∈ l.
Proof.
  induction l as [|[k' v'] l IH]; simpl; [done|].
  destruct (k' =s k) eqn:E; intros H; [apply str_eqb_eq in E; simplify_eq|]; set_solver.
Qed.
Lemma own_None_notin {A} (l : list (jsstring * A)) k : own l k = None ↔ k ∉ map fst l.
Proof.
  induction l as [|[k' v'] l IH]; simpl; [set_solver|].
  destruct (k' =s k) eqn:E.
  - apply str_eqb_eq in E. set_solver.
  - apply str_eqb_neq in E. rewrite IH. set_solver.
Qed.
Lemma own_NoDup {A} (l : list (jsstring * A)) k v : NoDup l.*1 → (k, v) ∈ l → own l k = Some v.
Proof.
  induction l as [|[k0 v0] l IH]; [by intros _ ?%not_elem_of_nil|]. cbn.
  intros [Hn Hd]%NoDup_cons [Hkv|Hin]%elem_of_cons; [injection Hkv as -> ->; by rewrite str_eqb_refl|].
  rewrite (proj2 (str_eqb_neq k0 k)); [by apply IH|]. intros ->. apply Hn. by apply (list_elem_of_fmap_2 fst) in Hin.
Qed.
Lemma own_is_Some {A} (l : list (jsstring * A)) k : is_Some (own l k) ↔ k ∈ l.*1.
Proof.
  destruct (own l k) as [v|] eqn:E; split; try done.
  - intros _. apply own_Some_elem in E. by apply (list_elem_of_fmap_2 fst) in E.
  - intros Hk. by apply own_None_notin in E.
Qed.

Lemma compile_cached cache source :
  cache_ok cache →
  (compileBillingExpression cache source).1 = compile_source source ∧
  cache_ok (compileBillingExpression cache source).2.
Proof.
  intros [Hv Hk Hb]. unfold compileBillingExpression.
  destruct (own cache source) as [cached|] eqn:E.
  - apply own_Some_elem in E. simpl. split; [by apply Hv|done].
  - apply own_None_notin in E. cbn [fst snd]. split; [done|].
    assert (∀ kept, cache_ok kept → source ∉ map fst kept → length kept < 128 →
      cache_ok (kept ++ [(source, compile_source source)])) as Hadd.
    { intros kept [Hv' Hk' Hb'] Hs Hlt. split.
      - intros k v [Hin|Hin]%elem_of_app; [by apply Hv'|]. set_solver.
      - rewrite map_app. apply NoDup_app. split; [done|]. split; [set_solver|].
        apply NoDup_singleton.
      - rewrite length_app. simpl. lia. }
    destruct cache as [|[k v] newer]; [by apply Hadd; simpl; try lia|].
    destruct (128 <=? length ((k, v) :: newer)) eqn:Hl.
    + simpl in Hk, Hb, E. apply NoDup_cons in Hk as [? Hk]. apply Hadd; [split| |].
      * set_solver.
      * done.
      * lia.
      * set_solver.
      * lia.
    + apply Nat.leb_gt in Hl. apply Hadd; [by split|done|done].
Qed.

(** A sequence of calls that share one cache. *)
Fixpoint compile_all (cache : compiledCache) (sources : list jsstring)
    : list CompilationResult * compiledCache :=
  match sources with
  | [] => ([], cache)
  | s :: sources =>
      let '(r, cache) := compileBillingExpression cache s in
      let '(rs, cache) := compile_all cache sources in
      (r :: rs, cache)
  end.

Lemma compile_all_ok cache sources :
  cache_ok cache →
  (compile_all cache sources).1 = map compile_source sources ∧
  cache_ok (compile_all cache sources).2.
Proof.
  revert cache. induction sources as [|s sources IH]; intros cache H; simpl; [done|].
  destruct (compile_cached cache s H) as [Hr Hc].
  destruct (compileBillingExpression cache s) as [r cache1]; simpl in *.
  destruct (IH cache1 Hc) as [Hrs Hc2].
  destruct (compile_all cache1 sources) as [rs cache2]; simpl in *. by subst.
Qed.

(** * What the parser and the compiler guarantee *)

(** ** The parser *)

(** C36. Parsing terminates within its recursion budget on every source: it
    returns a tree or throws a [BillingExpressionError]. A returned tree lies
    inside the source, its spans nest strictly, siblings are in order and do
    not overlap, and every node uses the vocabulary (known variables, functions
    with their arity, operators of the table, finite literals); and a source
    longer than 65536 units is never accepted. *)
Theorem parse_source_total source : good_parse source (parse_source source).
Proof. apply parse_source_spec. Qed.

(** Two parts of one parsed tree with the same span are the same part, so
    node identity can be decided by comparing positions. *)
Theorem span_identity source root a b :
  parse_source source = Ok root →
  in_tree a root → in_tree b root → span_of a = span_of b → a = b.
Proof. intros Hp%parse_source_node_ok Ha Hb. by eapply span_identifies. Qed.

Example span_identity_witness :
  ∃ root, parse_source (js "v1: p + (c)") = Ok root ∧ root = root.
Proof.
  assert (∃ root, parse_source (js "v1: p + (c)") = Ok root) as [root Hr] by (eexists; vm_compute; reflexivity).
  exists root. split; [exact Hr|].
  exact (span_identity _ root root root Hr (in_tree_self root) (in_tree_self root) eq_refl).
Defined.

(** ** The traversal *)

(** The explicit-stack traversal visits the nodes in postorder, each once,
    as recursion would: up to height 256 it runs the visitor along the
    postorder list, stopping at its first exception, and on a higher tree it
    never returns normally. *)
Theorem visitExpression_postorder {St} (visitor : ExpressionNode → stateR St unit) n s :
  (node_height n ≤ 256 → visitExpression visitor n s = run_visitor visitor (postorder n) s) ∧
  (256 < node_height n → ∀ r, visitExpression visitor n s ≠ Ok r).
Proof.
  rewrite visitExpression_reference. split.
  - intros Hh. by apply visit_postorder_within.
  - intros Hh r. by apply visit_postorder_beyond.
Qed.

(** [expressionDependencies] returns exactly the variables and functions
    that occur in the expression, each once, for every tree within the depth
    bound; beyond it, it throws. *)
Theorem expressionDependencies_exact n :
  (node_height n ≤ 256 →
    ∃ vs fs, expressionDependencies n = Ok (vs, fs) ∧
      (∀ x, x ∈ vs ↔ uses_variable x n) ∧ (∀ f, f ∈ fs ↔ uses_function f n)) ∧
  (∀ r, expressionDependencies n = Ok r → node_height n ≤ 256).
Proof.
  split; [apply expressionDependencies_ok|]. intros r. apply expressionDependencies_height.
Qed.

(** ** The compiler *)

(** C37. A compiled expression is sound: its tree is the parse of the source and
    well typed, at most 256 levels high; its dependency sets are exact; its
    request rules are distinct conditionals [condition ? factor : 1] of the
    tree whose condition probes the request or the clock, with the text of the
    condition cut from the source, and every such conditional is listed; and a
    source that calls [fixed] has passed the fixed-price validation. *)
Theorem compile_sound source c : compile_source source = Ready c → compiled_ok source c.
Proof. apply compile_source_ready. Qed.

Example compile_sound_witness :
  ∃ c, compile_source (js "param('n') == 2 ? 3 : 1") = Ready c ∧ compiled_ok (js "param('n') == 2 ? 3 : 1") c.
Proof.
  assert (∃ c, compile_source (js "param('n') == 2 ? 3 : 1") = Ready c) as [c Hc]
    by (eexists; vm_compute; reflexivity).
  exists c. split; [exact Hc|]. exact (compile_sound _ _ Hc).
Defined.

(** The compilation cache is transparent: any sequence of calls from the
    empty cache returns what compiling each source afresh would, and the cache
    never holds more than 128 entries. *)
Theorem compile_cache_transparent sources :
  (compile_all [] sources).1 = map compile_source sources ∧
  length (compile_all [] sources).2 ≤ 128.
Proof.
  assert (cache_ok []) as H0 by (split; [set_solver|apply NoDup_nil_2|simpl; lia]).
  destruct (compile_all_ok [] sources H0) as [Hr Hc]. split; [done|]. by apply ca_bound.
Qed.
