(* ===== verification/Runtime.v ===== *)
(** * billing-expression/runtime.ts

    Request paths, Go-style printing of JSON values, time in a billing zone and
    the interpreter of compiled expressions. The browser services the module
    calls (Intl.DateTimeFormat and the Unicode case tables) are the class
    [Host]; everything else of the standard library is computed. *)

From S2P Require Import Prelude JsNumber JsText Types Parser Compile.
From Stdlib Require Import Floats.SpecFloat.

(** ** Values of type [unknown] *)
Inductive jsval :=
  | VUndefined
  | VNull
  | VBoolean (b : bool)
  | VNumber (n : num)
  | VString (s : jsstring)
  | VArray (items : list jsval)
  | VObject (entries : list (jsstring * jsval)).

Definition is_nullish (v : jsval) : bool :=
  match v with VUndefined | VNull => true | _ => false end.
Definition is_object (v : jsval) : bool :=
  match v with VArray _ | VObject _ => true | _ => false end.

(** [typeof v === 'object'] also holds of [null]. Strict equality of two values
    that are not both objects. *)
Definition strict_eqb (a b : jsval) : bool :=
  match a, b with
  | VUndefined, VUndefined | VNull, VNull => true
  | VBoolean x, VBoolean y => Bool.eqb x y
  | VNumber x, VNumber y => num_eqb x y
  | VString x, VString y => x =s y
  | _, _ => false
  end.

(** ** readRequestPath *)

(** The characters of the path, split at unescaped dots. *)
Fixpoint split_path (path : jsstring) (rest : jsstring) (parts : list jsstring) (part : jsstring)
    : result (list jsstring) :=
  match rest with
  | [] => Ok (parts ++ [part])
  | c :: r =>
      if (c =? 92)%N then
        match r with
        | [] => throw code_unsupported path
        | d :: r => split_path path r parts (part ++ [d])
        end
      else if (c =? 46)%N then split_path path r (parts ++ [part]) []
      else if existsb (N.eqb c) (js "*?[]()|@!") then throw code_unsupported path
      else split_path path r parts (part ++ [c])
  end.

Definition array_index (items : list jsval) (key : jsstring) : jsval :=
  let index := dec_value key in
  if is_safe_integer (of_decimal index 0) && (index <? N.of_nat (length items))%N
  then default VUndefined (items !! N.to_nat index) else VUndefined.

(** The walk along the parts; [None] is the early [return null]. *)
Fixpoint walk_path (path : jsstring) (parts : list jsstring) (value : jsval) : result jsval :=
  match parts with
  | [] => Ok (if is_nullish value then VNull else value)
  | key :: parts =>
      match value with
      | VArray items =>
          if key =s js "#" then
            match parts with
            | [] => Ok (VNumber (num_of_Z (Z.of_nat (length items))))
            | _ => throw code_unsupported path
            end
          else if forallb is_digit key && negb (key =s []) then
            walk_path path parts (array_index items key)
          else Ok VNull
      | VObject entries =>
          match own entries key with
          | Some v => walk_path path parts v
          | None => Ok VNull
          end
      | _ => Ok VNull
      end
  end.

Definition readRequestPath (body : jsval) (rawPath : jsstring) : result jsval :=
  let path := trim rawPath in
  if path =s [] then Ok VNull
  else parts ← split_path path path [] []; walk_path path parts body.

(** ** billingString *)

Fixpoint insert_entry {A} (x : jsstring * A) (l : list (jsstring * A)) : list (jsstring * A) :=
  match l with
  | [] => [x]
  | y :: l => if str_ltb y.1 x.1 then y :: insert_entry x l else x :: y :: l
  end.
(** [Object.entries(value).sort(by key)]. *)
Definition sort_entries {A} (l : list (jsstring * A)) : list (jsstring * A) :=
  fold_right insert_entry [] l.

Definition go_number (value : num) : result jsstring :=
  if negb (is_finite value) then throw code_number (js "request number")
  else
    match value with
    | S754_zero true => Ok (js "-0")
    | _ =>
        let '(mantissa, exponent) := exponential_parts value in
        if (6 <=? exponent)%Z || (exponent <? -4)%Z then
          Ok (mantissa ++ js "e" ++ (if (exponent <? 0)%Z then js "-" else js "+")
              ++ pad_start 2 48%N (dec_string (Z.to_N (Z.abs exponent))))
        else Ok (num_to_string value)
    end.

Fixpoint sequence_results {A} (l : list (result A)) : result (list A) :=
  match l with
  | [] => Ok []
  | r :: l => x ← r; xs ← sequence_results l; Ok (x :: xs)
  end.

Fixpoint billingString (value : jsval) (depth : nat) : result jsstring :=
  if 128 <? depth then throw code_limit (js "request value depth")
  else
    match value with
    | VUndefined | VNull => Ok (js "<nil>")
    | VArray items =>
        texts ← sequence_results (map (λ item, billingString item (depth + 1)) items);
        Ok (js "[" ++ join (js " ") texts ++ js "]")
    | VObject entries =>
        let printed := map (λ '(key, item), (key, billingString item (depth + 1))) entries in
        texts ← sequence_results
          (map (λ '(key, r), t ← r; Ok (key ++ js ":" ++ t)) (sort_entries printed));
        Ok (js "map[" ++ join (js " ") texts ++ js "]")
    | VNumber n => go_number n
    | VBoolean b => Ok (if b then js "true" else js "false")
    | VString s => Ok s
    end.

(** ** timeInBillingZone *)

(** A Date by its time value in milliseconds; [None] is an invalid Date. *)
Abbreviation Date := (option Z).

(** The browser services: [toLowerCase] with the Unicode tables, and
    [new Intl.DateTimeFormat('en-US', {timeZone, ...})], which throws (None) or
    gives the resolved zone and [formatToParts] as (type, value) pairs. *)
Class Host := {
  toLowerCase : jsstring → jsstring;
  dateTimeFormat : jsstring → option (jsstring * (Z → list (jsstring * jsstring)))
}.

Record TimeValues := mkTime {
  t_hour : num; t_minute : num; t_weekday : num; t_month : num; t_day : num
}.

Section Calendar.
#[local] Open Scope Z_scope.
Definition ms_per_day : Z := 86400000.
Definition utc_hours (t : Z) : Z := t mod ms_per_day / 3600000.
Definition utc_minutes (t : Z) : Z := t mod ms_per_day / 60000 mod 60.
Definition utc_day_of_week (t : Z) : Z := (t / ms_per_day + 4) mod 7.
(** Month (1 to 12) and day of the month of a day number since 1970-01-01, by
    the 400-year cycle of 146097 days counted from March. *)
Definition civil_of_days (days : Z) : Z * Z :=
  let doe := (days + 719468) mod 146097 in
  let yoe := (doe - doe / 1460 + doe / 36524 - doe / 146096) / 365 in
  let doy := doe - (365 * yoe + yoe / 4 - yoe / 100) in
  let mp := (5 * doy + 2) / 153 in
  (if mp <? 10 then mp + 3 else mp - 9, doy - (153 * mp + 2) / 5 + 1).
Definition utc_month (t : Z) : Z := (civil_of_days (t / ms_per_day)).1.
Definition utc_date (t : Z) : Z := (civil_of_days (t / ms_per_day)).2.
End Calendar.

Definition utc_time (t : Z) : TimeValues :=
  mkTime (num_of_Z (utc_hours t)) (num_of_Z (utc_minutes t)) (num_of_Z (utc_day_of_week t))
    (num_of_Z (utc_month t)) (num_of_Z (utc_date t)).

Definition is_upper (c : code_unit) : bool := ((65 <=? c) && (c <=? 90))%N.
Definition is_zone_unit (c : code_unit) : bool := is_word c || (c =? 43)%N || (c =? 45)%N.

(** The time-zone pattern: names of a capital letter and letters, digits or
    [_+-], joined by slashes. *)
Fixpoint zone_pattern (at_start : bool) (s : jsstring) : bool :=
  match s with
  | [] => negb at_start
  | c :: s =>
      if at_start then is_upper c && zone_pattern false s
      else if (c =? 47)%N then zone_pattern true s
      else is_zone_unit c && zone_pattern false s
  end.

(** [Object.fromEntries(parts)[key]]: the last pair with the key. *)
Definition part_value (parts : list (jsstring * jsstring)) (key : jsstring) : option jsstring :=
  own (reverse parts) key.
Definition number_of_part (v : option jsstring) : num :=
  match v with Some s => number_of_string s | None => nan end.

Definition weekday_names : list jsstring :=
  map js ["Sun"; "Mon"; "Tue"; "Wed"; "Thu"; "Fri"; "Sat"]%string.
Fixpoint index_of (x : jsstring) (l : list jsstring) (i : Z) : Z :=
  match l with
  | [] => -1
  | y :: l => if y =s x then i else index_of x l (i + 1)
  end.

Section Zone.
Context `{Host}.

Definition timeInBillingZone (now : Date) (zone : jsstring) : result TimeValues :=
  match now with
  | None => throw code_type (js "simulation time")
  | Some t =>
      let trimmed_zone := trim zone in
      let timezone := if trimmed_zone =s [] then js "UTC" else trimmed_zone in
      if timezone =s js "Local" then throw code_unsupported (js "server Local timezone")
      else
        let formatter :=
          if zone_pattern true timezone then
            match dateTimeFormat timezone with
            | Some (resolved, format) =>
                if (toLowerCase resolved =s toLowerCase timezone) && negb (resolved =s timezone)
                then None else Some format
            | None => None
            end
          else None in
        match formatter with
        | None => Ok (utc_time t)
        | Some format =>
            let parts := format t in
            Ok (mkTime (number_of_part (part_value parts (js "hour")))
                  (number_of_part (part_value parts (js "minute")))
                  (num_of_Z (match part_value parts (js "weekday") with
                             | Some d => index_of d weekday_names 0
                             | None => -1
                             end))
                  (number_of_part (part_value parts (js "month")))
                  (number_of_part (part_value parts (js "day"))))
        end
  end.
End Zone.

Definition time_value (values : TimeValues) (name : jsstring) : num :=
  if name =s js "hour" then t_hour values
  else if name =s js "minute" then t_minute values
  else if name =s js "weekday" then t_weekday values
  else if name =s js "month" then t_month values
  else t_day values.

(** ** class BillingRuntime *)

Record RuntimeValue := mkValue { rv_value : jsval; rv_integer : bool }.

Record BillingRequest := mkRequest {
  body : jsval;
  request_headers : list (jsstring * jsval)
}.

Record BillingSimulationContext := mkContext {
  imageCount : option num;
  tokens : option (list (jsstring * jsval));
  request : option BillingRequest;
  usage : option (list (jsstring * jsval));
  context_now : option Date
}.
Definition empty_context : BillingSimulationContext := mkContext None None None None None.

Inductive BillingUnit := unit_token | unit_request.
#[export] Instance BillingUnit_eq_dec : EqDecision BillingUnit.
Proof. solve_decision. Defined.

(** The fields an evaluation changes. [depth] is incremented on entry of
    [evaluate] and restored by its [finally], so it is the argument of
    [evaluate] below. *)
Record RuntimeState := mkState {
  requestRules : list BillingRequestRule;
  matchedTier : jsstring;
  billingUnit : BillingUnit;
  fixedPrice : option num;
  timeValues : list (jsstring * TimeValues)
}.
Abbreviation R := (stateR RuntimeState).

(** [Map.set]: in place when the key is present, else at the end. *)
Fixpoint map_set {A} (m : list (jsstring * A)) (k : jsstring) (v : A) : list (jsstring * A) :=
  match m with
  | [] => [(k, v)]
  | (k', v') :: m => if k' =s k then (k', v) :: m else (k', v') :: map_set m k v
  end.

(** An operand: its [start] and its evaluation. *)
Record operand := mkOperand { pos : nat; run : R RuntimeValue }.

Definition as_boolean (o : operand) : R bool :=
  v ← run o;
  match rv_value v with
  | VBoolean b => mret b
  | _ => lift_st (throw_at code_type (js "boolean condition") (pos o))
  end.
Definition as_numeric (o : operand) : R (num * bool) :=
  v ← run o;
  match rv_value v with
  | VNumber n => mret (n, rv_integer v)
  | _ => lift_st (throw_at code_type (js "numeric operand") (pos o))
  end.
Definition as_string (o : operand) : R jsstring :=
  v ← run o;
  match rv_value v with
  | VString s => mret s
  | _ => lift_st (throw_at code_type (js "string argument") (pos o))
  end.

Definition value (v : jsval) : RuntimeValue := mkValue v false.

(** The part of [binary] after both operands are evaluated. *)
Definition apply_binary (operator : jsstring) (start : nat) (lv rv : RuntimeValue) : result RuntimeValue :=
  let a := rv_value lv in
  let b := rv_value rv in
  if (operator =s js "==") || (operator =s js "!=") then
    match a, b with
    | VNull, _ | _, VNull =>
        let equal := strict_eqb a b in
        Ok (value (VBoolean (if operator =s js "==" then equal else negb equal)))
    | _, _ =>
        if is_object a || is_object b then
          throw_at code_unsupported (js "object comparison") start
        else
          let equal := strict_eqb a b in
          Ok (value (VBoolean (if operator =s js "==" then equal else negb equal)))
    end
  else
    match a, b with
    | VString x, VString y =>
        if operator =s js "+" then Ok (value (VString (x ++ y)))
        else if operator =s js "<" then Ok (value (VBoolean (str_ltb x y)))
        else if operator =s js "<=" then Ok (value (VBoolean (negb (str_ltb y x))))
        else if operator =s js ">" then Ok (value (VBoolean (str_ltb y x)))
        else if operator =s js ">=" then Ok (value (VBoolean (negb (str_ltb x y))))
        else throw_at code_type operator start
    | VNumber x, VNumber y =>
        let integer := rv_integer lv && rv_integer rv in
        if operator =s js "<" then Ok (value (VBoolean (num_ltb x y)))
        else if operator =s js "<=" then Ok (value (VBoolean (num_leb x y)))
        else if operator =s js ">" then Ok (value (VBoolean (num_ltb y x)))
        else if operator =s js ">=" then Ok (value (VBoolean (num_leb y x)))
        else if operator =s js "+" then Ok (mkValue (VNumber (num_add x y)) integer)
        else if operator =s js "-" then Ok (mkValue (VNumber (num_sub x y)) integer)
        else if operator =s js "*" then Ok (mkValue (VNumber (num_mul x y)) integer)
        else if operator =s js "/" then Ok (value (VNumber (num_div x y)))
        else if operator =s js "%" then
          if negb integer then throw_at code_type (js "integer modulo") start
          else Ok (mkValue (VNumber (num_rem x y)) true)
        else throw_at code_unsupported operator start
    | _, _ => throw_at code_type operator start
    end.

Definition eval_binary (operator : jsstring) (start : nat) (lo ro : operand) : R RuntimeValue :=
  if operator =s js "&&" then
    x ← as_boolean lo;
    if (x : bool) then y ← as_boolean ro; mret (value (VBoolean y))
    else mret (value (VBoolean false))
  else if operator =s js "||" then
    x ← as_boolean lo;
    if (x : bool) then mret (value (VBoolean true))
    else y ← as_boolean ro; mret (value (VBoolean y))
  else
    lv ← run lo;
    rv ← run ro;
    lift_st (apply_binary operator start lv rv).

Definition eval_unary (operator : jsstring) (o : operand) : R RuntimeValue :=
  if operator =s js "!" then b ← as_boolean o; mret (value (VBoolean (negb b)))
  else
    '(n, integer) ← as_numeric o;
    mret (mkValue (VNumber (if operator =s js "-" then num_neg n else n)) integer).

Definition set_matched (i : nat) : RuntimeState → RuntimeState := λ s,
  mkState (alter (λ r, mkRule (rule_cond r) (rule_multiplier r) true) i (requestRules s))
    (matchedTier s) (billingUnit s) (fixedPrice s) (timeValues s).

(** [findIndex]. *)
Fixpoint find_rule_index (rules : list RequestRule) (node : ExpressionNode) : option nat :=
  match rules with
  | [] => None
  | r :: rules => if same_node (rr_node r) node then Some 0
                  else S <$> find_rule_index rules node
  end.

Section Runtime.
Context `{Host}.
Context (compiled : CompiledBillingExpression) (context : BillingSimulationContext).
(** [this.now] and [this.headers], set by the constructor. *)
Context (now : Date) (headers : list (jsstring * jsstring)).

Definition eval_variable (name : jsstring) (start : nat) : result RuntimeValue :=
  if name =s js "image_count" then
    let v := default (num_of_Z 1) (imageCount context) in
    if negb (is_integer v) || num_ltb v (num_of_Z 1) || num_ltb (num_of_Z 128) v then
      throw_at code_number (js "image_count must be between 1 and 128") start
    else Ok (value (VNumber v))
  else
    match default VUndefined (tokens context ≫= λ t, own t name) with
    | VUndefined => throw_at code_missing_context name start
    | VNumber v => if num_ltb v zero then throw_at code_number name start
                   else Ok (value (VNumber v))
    | _ => throw_at code_number name start
    end.

Definition arg (args : list operand) (i : nat) : operand :=
  default (mkOperand 0 (lift_st (Err undefined_kind))) (args !! i).

Definition eval_fixed (args : list operand) : R RuntimeValue :=
  '(amount, _) ← as_numeric (arg args 0);
  modify_st (λ s, mkState (requestRules s) (matchedTier s) unit_request (Some amount) (timeValues s));;
  mret (value (VNumber (num_mul amount million))).

Definition eval_tier (args : list operand) : R RuntimeValue :=
  name ← as_string (arg args 0);
  '(v, _) ← as_numeric (arg args 1);
  modify_st (λ s, mkState (requestRules s) name (billingUnit s) (fixedPrice s) (timeValues s));;
  mret (value (VNumber v)).

Definition eval_param (start : nat) (args : list operand) : R RuntimeValue :=
  path ← as_string (arg args 0);
  match request context with
  | None => lift_st (throw_at code_missing_context (js "request body") start)
  | Some r => v ← lift_st (readRequestPath (body r) path); mret (value v)
  end.

Definition eval_header (start : nat) (args : list operand) : R RuntimeValue :=
  raw ← as_string (arg args 0);
  let name := toLowerCase (trim raw) in
  match request context with
  | None => lift_st (throw_at code_missing_context (js "request headers") start)
  | Some _ => mret (value (VString (default [] (own headers name))))
  end.

Definition eval_usage (start : nat) (args : list operand) : R RuntimeValue :=
  name ← as_string (arg args 0);
  match usage context with
  | None => lift_st (throw_at code_missing_context (js "task usage") start)
  | Some u => mret (value (default VNull (own u name)))
  end.

Definition eval_has (args : list operand) : R RuntimeValue :=
  source ← run (arg args 0);
  substring ← as_string (arg args 1);
  if is_nullish (rv_value source) || (substring =s []) then mret (value (VBoolean false))
  else
    printed ← lift_st (billingString (rv_value source) 0);
    mret (value (VBoolean (includes substring printed))).

Definition eval_min_max (f : num → num → num) (args : list operand) : R RuntimeValue :=
  '(a, _) ← as_numeric (arg args 0);
  '(b, _) ← as_numeric (arg args 1);
  mret (value (VNumber (f a b))).

Definition eval_rounding (f : num → num) (args : list operand) : R RuntimeValue :=
  '(a, _) ← as_numeric (arg args 0);
  mret (value (VNumber (f a))).

Definition eval_time (name : jsstring) (args : list operand) : R RuntimeValue :=
  raw ← as_string (arg args 0);
  let zone := trim raw in
  st ← get_st;
  values ← match own (timeValues st) zone with
           | Some values => mret values
           | None =>
               values ← lift_st (timeInBillingZone now zone);
               modify_st (λ s, mkState (requestRules s) (matchedTier s) (billingUnit s)
                                 (fixedPrice s) (map_set (timeValues s) zone values));;
               mret values
           end;
  mret (mkValue (VNumber (time_value values name)) true).

Definition eval_call (name : jsstring) (start : nat) (args : list operand) : R RuntimeValue :=
  if name =s js "fixed" then eval_fixed args
  else if name =s js "tier" then eval_tier args
  else if name =s js "param" then eval_param start args
  else if name =s js "header" then eval_header start args
  else if name =s js "u" then eval_usage start args
  else if name =s js "has" then eval_has args
  else if name =s js "min" then eval_min_max num_min args
  else if name =s js "max" then eval_min_max num_max args
  else if name =s js "abs" then eval_rounding num_abs args
  else if name =s js "floor" then eval_rounding num_floor args
  else if name =s js "ceil" then eval_rounding num_ceil args
  else if negb (str_in name TIME_FUNCTIONS) then lift_st (throw code_unsupported name)
  else eval_time name args.

(** The checks of [evaluate] on the value of a node. *)
Definition check_value (start : nat) (v : RuntimeValue) : result RuntimeValue :=
  match rv_value v with
  | VNumber n =>
      if negb (is_finite n) then throw_at code_number (js "non-finite result") start
      else if rv_integer v && negb (is_safe_integer n) then
        throw_at code_unsupported (js "integer precision") start
      else Ok v
  | _ => Ok v
  end.

Definition literal_to_value (v : literal_value) : jsval :=
  match v with
  | LString s => VString s
  | LNumber n => VNumber n
  | LBoolean b => VBoolean b
  | LNull => VNull
  end.

Fixpoint evaluate (depth : nat) (node : ExpressionNode) {struct node} : R RuntimeValue :=
  let depth := S depth in
  if 256 <? depth then lift_st (throw code_limit (js "evaluation depth"))
  else
    v ← match node with
        | Literal v integer _ _ => mret (mkValue (literal_to_value v) integer)
        | Variable_ name s _ => lift_st (eval_variable name s)
        | Conditional condition yes no _ _ =>
            b ← as_boolean (mkOperand (node_start condition) (evaluate depth condition));
            (if (b : bool) then
               match find_rule_index (c_requestRules compiled) node with
               | Some i => modify_st (set_matched i)
               | None => mret tt
               end
             else mret tt);;
            if (b : bool) then evaluate depth yes else evaluate depth no
        | Unary operator x _ _ => eval_unary operator (mkOperand (node_start x) (evaluate depth x))
        | Binary operator l r s _ =>
            eval_binary operator s (mkOperand (node_start l) (evaluate depth l))
              (mkOperand (node_start r) (evaluate depth r))
        | Call name args s _ =>
            eval_call name s (map (λ a, mkOperand (node_start a) (evaluate depth a)) args)
        end;
    lift_st (check_value (node_start node) v).
End Runtime.

(** The constructor's header normalisation: names lowercased and trimmed, empty
    names and values skipped, a later header overrides. *)
Section Entry.
Context `{Host}.

Fixpoint normalize_headers (entries : list (jsstring * jsval)) (acc : list (jsstring * jsstring))
    : result (list (jsstring * jsstring)) :=
  match entries with
  | [] => Ok acc
  | (name, VString rawValue) :: entries =>
      let key := toLowerCase (trim name) in
      let v := trim rawValue in
      if negb (key =s []) && negb (v =s []) then normalize_headers entries (map_set acc key v)
      else normalize_headers entries acc
  | _ :: _ => throw code_type (js "request header")
  end.

Definition initial_state (compiled : CompiledBillingExpression) : RuntimeState :=
  mkState (map (λ r, mkRule (rr_cond r) (rr_multiplier r) false) (c_requestRules compiled))
    [] unit_token None [].

(** [new BillingRuntime(compiled, context).evaluate(node)] with the final
    state; [clock] is the value of [new Date()]. *)
Definition run_billing (clock : Date) (compiled : CompiledBillingExpression)
    (context : BillingSimulationContext) (node : ExpressionNode)
    : result (RuntimeValue * RuntimeState) :=
  let now := default clock (context_now context) in
  headers ← normalize_headers (from_option request_headers [] (request context)) [];
  evaluate compiled context now headers 0 node (initial_state compiled).

Definition evaluateBillingCondition (clock : Date) (compiled : CompiledBillingExpression)
    (node : ExpressionNode) (now : Date) : option bool :=
  match run_billing clock compiled (mkContext None None None None (Some now)) node with
  | Ok (v, _) => match rv_value v with VBoolean b => Some b | _ => None end
  | Err _ => None
  end.

Record BillingSuccess := mkSuccess {
  cost : num;
  s_billingUnit : BillingUnit;
  s_imageCount : option num;
  s_fixedPrice : option num;
  s_matchedTier : jsstring;
  s_requestRules : list BillingRequestRule
}.
Inductive BillingEvaluationResult :=
  | Success (s : BillingSuccess)
  | EvalFailed (failure : ExpressionFailure).

Fixpoint check_tokens (entries : list (jsstring * jsval)) : result unit :=
  match entries with
  | [] => Ok tt
  | (name, VNumber v) :: entries =>
      if negb (is_finite v) || num_ltb v zero then throw code_number name
      else check_tokens entries
  | (name, _) :: _ => throw code_number name
  end.

(** The [try] block of [evaluateBillingExpression]. *)
Definition evaluate_success (clock : Date) (compiled : CompiledBillingExpression)
    (context : BillingSimulationContext) : result BillingSuccess :=
  check_tokens (default [] (tokens context));;
  '(v, st) ← run_billing clock compiled context (c_ast compiled);
  match rv_value v with
  | VNumber n =>
      if negb (is_finite n) || num_ltb n zero then throw code_number (js "billing result")
      else
        Ok (mkSuccess n (billingUnit st)
              (if str_in (js "image_count") (c_variables compiled)
               then Some (default (num_of_Z 1) (imageCount context)) else None)
              (fixedPrice st) (matchedTier st) (requestRules st))
  | _ => throw code_number (js "billing result")
  end.

Definition evaluate_compiled (clock : Date) (compiled : CompilationResult)
    (context : BillingSimulationContext) : BillingEvaluationResult :=
  match compiled with
  | CompileFailed failure => EvalFailed failure
  | Ready compiled =>
      match evaluate_success clock compiled context with
      | Ok s => Success s
      | Err error => EvalFailed (expressionFailure error)
      end
  end.

(** [evaluateBillingExpression] on a source text. *)
Definition evaluateBillingExpression (clock : Date) (source : jsstring)
    (context : BillingSimulationContext) : BillingEvaluationResult :=
  evaluate_compiled clock (compile_source source) context.
End Entry.
