(* ===== verification/RuntimeFacts.v ===== *)
(** * Facts about the interpreter

    One symbolic-execution lemma, [evaluate_rel], follows every branch of the
    interpreter and bounds both its effects and its errors; the theorems on
    request-rule traces, fixed prices, termination errors and types use it. *)

From S2P Require Import Prelude JsNumber JsText Types Parser ParserFacts Compile CompileFacts.
From S2P Require Import Runtime.
From Stdlib Require Import Floats.SpecFloat.

(** ** Symbolic execution with a predicate on errors *)
Definition wpe {S A} (m : stateR S A) (s : S) (Q : A → S → Prop) (E : exn → Prop) : Prop :=
  match m s with
  | Ok (a, s') => Q a s'
  | Err e => E e
  end.

Section Wpe.
Context {S : Type}.
Lemma wpe_bind {A B} (m : stateR S A) (k : A → stateR S B) s Q E :
  wpe m s (λ a s', wpe (k a) s' Q E) E → wpe (m ≫= k) s Q E.
Proof. unfold wpe, mbind, stateR_bind. by destruct (m s) as [[a s1]|]. Qed.
Lemma wpe_ret {A} (a : A) (s : S) (Q : A → S → Prop) E : Q a s → wpe (mret a) s Q E.
Proof. done. Qed.
Lemma wpe_get (s : S) (Q : S → S → Prop) E : Q s s → wpe get_st s Q E.
Proof. done. Qed.
Lemma wpe_modify f (s : S) (Q : unit → S → Prop) E : Q tt (f s) → wpe (modify_st f) s Q E.
Proof. done. Qed.
Lemma wpe_lift {A} (r : result A) (s : S) (Q : A → S → Prop) (E : exn → Prop) :
  (∀ a, r = Ok a → Q a s) → (∀ e, r = Err e → E e) → wpe (lift_st r) s Q E.
Proof. unfold wpe, lift_st. destruct r; naive_solver. Qed.
Lemma wpe_mono {A} (m : stateR S A) s (Q Q' : A → S → Prop) (E E' : exn → Prop) :
  wpe m s Q E → (∀ a s', Q a s' → Q' a s') → (∀ e, E e → E' e) → wpe m s Q' E'.
Proof. unfold wpe. destruct (m s) as [[a s1]|]; auto. Qed.
End Wpe.

Ltac wpe_step :=
  lazymatch goal with
  | |- wpe (_ ≫= _) _ _ _ => apply wpe_bind
  | |- wpe (mret _) _ _ _ => apply wpe_ret
  | |- wpe get_st _ _ _ => apply wpe_get
  | |- wpe (modify_st _) _ _ _ => apply wpe_modify
  | |- wpe (if ?b then _ else _) _ _ _ => let E := fresh "E" in destruct b eqn:E
  | |- wpe (match ?x with _ => _ end) _ _ _ => let E := fresh "E" in destruct x eqn:E
  end.

(** ** Errors *)

Definition depth_diagnostic : ExpressionDiagnostic :=
  Diagnostic code_limit (js "evaluation depth") None.

(** A [BillingExpressionError], and not the depth limit when [shallow]. *)
Definition ordinary (shallow : Prop) (e : exn) : Prop :=
  ∃ d, e = BillingExpressionError d ∧ (shallow → d ≠ depth_diagnostic).

Lemma ordinary_at {A} sh c d p e : @throw_at A c d p = Err e → ordinary sh e.
Proof. intros [= <-]. eexists. split; [done|]. by intros _ [=]. Qed.
Lemma ordinary_throw {A} sh c d e :
  c ≠ code_limit ∨ d ≠ js "evaluation depth" → @throw A c d = Err e → ordinary sh e.
Proof. intros Hc [= <-]. eexists. split; [done|]. intros _ [=]. by destruct Hc. Qed.

Lemma ordinary_weaken (sh sh' : Prop) e : (sh' → sh) → ordinary sh e → ordinary sh' e.
Proof. intros H (d & -> & Hd). exists d. auto. Qed.

Lemma split_path_error sh path rest parts part e :
  split_path path rest parts part = Err e → ordinary sh e.
Proof.
  revert parts part. remember (length rest) as n eqn:Hn. revert rest Hn.
  induction n as [n IH] using lt_wf_ind. intros rest -> parts part H.
  destruct rest as [|c r]; cbn [split_path] in H; [done|].
  destruct (c =? 92)%N.
  - destruct r as [|d r]; [|by eapply (IH (length r)); [simpl; lia|done|exact H]].
    eapply ordinary_throw; [|exact H]. by left.
  - destruct (c =? 46)%N; [by eapply (IH (length r)); [simpl; lia|done|exact H]|].
    destruct (existsb _ _); [|by eapply (IH (length r)); [simpl; lia|done|exact H]].
    eapply ordinary_throw; [|exact H]. by left.
Qed.

Lemma walk_path_error sh path parts v e : walk_path path parts v = Err e → ordinary sh e.
Proof.
  revert v. induction parts as [|key parts IH]; intros v H; simpl in H; [done|].
  destruct v; try done.
  - destruct (key =s js "#"); [|destruct (_ && _); [by eapply IH|done]].
    destruct parts; [done|]. eapply ordinary_throw; [|exact H]. by left.
  - destruct (own entries key); [by eapply IH|done].
Qed.

Lemma readRequestPath_error sh body path e : readRequestPath body path = Err e → ordinary sh e.
Proof.
  unfold readRequestPath. destruct (_ =s _); [done|].
  intros [H|(parts & H1 & H2)]%bind_Err; [by eapply split_path_error|by eapply walk_path_error].
Qed.

Lemma sequence_results_error {A} (P : exn → Prop) (l : list (result A)) e :
  (∀ r e', r ∈ l → r = Err e' → P e') → sequence_results l = Err e → P e.
Proof.
  induction l as [|r l IH]; simpl; intros H He; [done|].
  apply bind_Err in He as [He|(a & Ha & He)]; [eapply H; [|exact He]; set_solver|].
  apply bind_Err in He as [He|(b & _ & He)]; [|done].
  apply IH; [|done]. intros r' e' Hr'. apply H. set_solver.
Qed.

Lemma elem_of_sort_entries {A} (x : jsstring * A) l : x ∈ sort_entries l ↔ x ∈ l.
Proof.
  assert (∀ y l, x ∈ insert_entry y l ↔ x = y ∨ x ∈ l) as Hins.
  { intros y l'. induction l' as [|z l' IH]; simpl; [set_solver|].
    destruct (str_ltb _ _); [|set_solver]. rewrite !elem_of_cons, IH. naive_solver. }
  unfold sort_entries. induction l as [|y l IH]; simpl; [set_solver|].
  rewrite Hins, IH. set_solver.
Qed.

Section JsvalInduction.
Variable P : jsval → Prop.
Hypothesis Pundef : P VUndefined.
Hypothesis Pnull : P VNull.
Hypothesis Pbool : ∀ b, P (VBoolean b).
Hypothesis Pnum : ∀ n, P (VNumber n).
Hypothesis Pstr : ∀ s, P (VString s).
Hypothesis Parr : ∀ l, Forall P l → P (VArray l).
Hypothesis Pobj : ∀ l, Forall (λ e, P e.2) l → P (VObject l).
Fixpoint jsval_induction (v : jsval) : P v.
Proof using All.
  destruct v; [done|done|apply Pbool|apply Pnum|apply Pstr|apply Parr|apply Pobj].
  - induction items as [|i items IH]; constructor; [apply jsval_induction|exact IH].
  - induction entries as [|i items IH]; constructor; [apply jsval_induction|exact IH].
Defined.
End JsvalInduction.

Lemma billingString_error sh v depth e : billingString v depth = Err e → ordinary sh e.
Proof.
  revert depth e. induction v as [| |b|n|s|l IH|l IH] using jsval_induction;
    intros depth e H; cbn [billingString] in H;
    (destruct (128 <? depth); [by eapply ordinary_throw; [right|exact H]|]); try done.
  - unfold go_number in H. destruct (negb _); [by eapply ordinary_throw; [left|exact H]|].
    destruct n as [[]| | |]; try done; destruct (exponential_parts _) as [mt x]; by destruct (_ || _).
  - apply bind_Err in H as [H|(t & _ & H)]; [|done].
    eapply sequence_results_error; [|exact H].
    intros r e' (x & -> & Hx)%list_elem_of_fmap He. rewrite Forall_forall in IH. by eapply IH.
  - apply bind_Err in H as [H|(t & _ & H)]; [|done].
    eapply sequence_results_error; [|exact H].
    intros r e' ([k r'] & -> & Hx)%list_elem_of_fmap He. rewrite elem_of_sort_entries in Hx.
    apply list_elem_of_fmap in Hx as ([k' x] & [= -> ->] & Hx).
    apply bind_Err in He as [He|(t & _ & He)]; [|done].
    rewrite Forall_forall in IH. by eapply (IH (k', x) Hx).
Qed.

Lemma timeInBillingZone_error `{Host} sh now zone e :
  timeInBillingZone now zone = Err e → ordinary sh e.
Proof.
  unfold timeInBillingZone. destruct now as [t|]; [|by apply ordinary_throw; left].
  destruct (_ =s js "Local"); [by apply ordinary_throw; left|].
  intros H0. repeat case_match; done.
Qed.

Lemma check_value_error sh p v e : check_value p v = Err e → ordinary sh e.
Proof.
  unfold check_value. destruct (rv_value v); try done.
  destruct (negb _); [apply ordinary_at|]. destruct (_ && _); [apply ordinary_at|done].
Qed.

Lemma apply_binary_error sh op p a b e : apply_binary op p a b = Err e → ordinary sh e.
Proof.
  unfold apply_binary. intros H.
  repeat (case_match; simplify_eq; try done; try (by eapply ordinary_at)).
Qed.

Lemma eval_variable_error sh context name p e : eval_variable context name p = Err e → ordinary sh e.
Proof.
  unfold eval_variable. intros H.
  repeat (case_match; simplify_eq; try done; try (by eapply ordinary_at)).
Qed.

(** ** Effects and errors of an evaluation *)

Definition set_fixed (a : num) (s : RuntimeState) : RuntimeState :=
  mkState (requestRules s) (matchedTier s) unit_request (Some a) (timeValues s).
Definition set_tier (name : jsstring) (s : RuntimeState) : RuntimeState :=
  mkState (requestRules s) name (billingUnit s) (fixedPrice s) (timeValues s).
Definition set_times (tv : list (jsstring * TimeValues)) (s : RuntimeState) : RuntimeState :=
  mkState (requestRules s) (matchedTier s) (billingUnit s) (fixedPrice s) tv.

Lemma uses_child f c n : c ∈ children n → uses_function f c → uses_function f n.
Proof. intros Hc (args & s & e & H). exists args, s, e. by eapply in_tree_child. Qed.
Lemma uses_self f args s e : uses_function f (Call f args s e).
Proof. exists args, s, e. apply in_tree_self. Qed.

(** ** Values do not depend on the state

    The only field an evaluation reads is the cache of time values, and a
    coherent cache holds what [timeInBillingZone] would compute. *)
Section Pure.
Context `{Host} (compiled : CompiledBillingExpression) (context : BillingSimulationContext)
  (now : Date) (headers : list (jsstring * jsstring)).

Definition coherent (s : RuntimeState) : Prop :=
  ∀ zone tv, own (timeValues s) zone = Some tv → timeInBillingZone now zone = Ok tv.

(** [m2] succeeds with the value of [m1] whenever [m1] succeeds, from
    whatever coherent states. *)
Definition agree {A} (m1 m2 : R A) : Prop := ∀ s1 s2 a s1',
  coherent s1 → coherent s2 → m1 s1 = Ok (a, s1') →
  coherent s1' ∧ ∃ s2', m2 s2 = Ok (a, s2') ∧ coherent s2'.

Lemma agree_bind {A B} (m1 m2 : R A) (k1 k2 : A → R B) :
  agree m1 m2 → (∀ a, agree (k1 a) (k2 a)) → agree (m1 ≫= k1) (m2 ≫= k2).
Proof.
  intros Hm Hk s1 s2 b s1' H1 H2 (a & t1 & Ha & Hb)%stateR_bind_Ok.
  destruct (Hm _ _ _ _ H1 H2 Ha) as (Hc1 & t2 & Ha2 & Hc2).
  destruct (Hk a _ _ _ _ Hc1 Hc2 Hb) as (Hc1' & t2' & Hb2 & Hc2').
  split; [done|]. exists t2'. split; [|done]. apply stateR_bind_Ok. eauto.
Qed.
Lemma agree_ret {A} (a : A) : agree (mret a) (mret a).
Proof. intros s1 s2 a' s1' H1 H2 Ha. injection Ha as -> ->. split; [done|]. by exists s2. Qed.
Lemma agree_lift {A} (r : result A) : agree (lift_st r) (lift_st r).
Proof.
  intros s1 s2 a' s1' H1 H2 Ha. unfold lift_st in *. destruct r; simplify_eq.
  split; [done|]. by exists s2.
Qed.
Lemma agree_modify f1 f2 :
  (∀ s, coherent s → coherent (f1 s)) → (∀ s, coherent s → coherent (f2 s)) →
  agree (modify_st f1) (modify_st f2).
Proof. intros Hf1 Hf2 s1 s2 a s1' H1 H2 [= <- <-]. split; [auto|]. eexists. split; [done|]. auto. Qed.

#[local] Ltac agree_step :=
  lazymatch goal with
  | |- agree (_ ≫= _) (_ ≫= _) => apply agree_bind; [|intros ?]
  | |- agree (mret _) _ => apply agree_ret
  | |- agree (lift_st _) _ => apply agree_lift
  | |- agree (modify_st _) (modify_st _) => apply agree_modify; intros ? ? ?; simpl; auto
  | |- agree (if ?b then _ else _) _ => destruct b
  | |- agree (match ?x with _ => _ end) _ => destruct x
  end.

Lemma agree_boolean p1 p2 m1 m2 :
  agree m1 m2 → agree (as_boolean (mkOperand p1 m1)) (as_boolean (mkOperand p2 m2)).
Proof.
  intros Hm. unfold as_boolean. simpl. apply agree_bind; [done|]. intros v.
  destruct (rv_value v); intros s1 s2 a s1' H1 H2 Ha; try done. exact (agree_ret _ _ _ _ _ H1 H2 Ha).
Qed.
Lemma agree_numeric o1 o2 : agree (run o1) (run o2) → agree (as_numeric o1) (as_numeric o2).
Proof.
  intros Hm. unfold as_numeric. simpl. apply agree_bind; [done|]. intros v.
  destruct (rv_value v); intros s1 s2 a s1' H1 H2 Ha; try done. exact (agree_ret _ _ _ _ _ H1 H2 Ha).
Qed.
Lemma agree_string o1 o2 : agree (run o1) (run o2) → agree (as_string o1) (as_string o2).
Proof.
  intros Hm. unfold as_string. simpl. apply agree_bind; [done|]. intros v.
  destruct (rv_value v); intros s1 s2 a s1' H1 H2 Ha; try done. exact (agree_ret _ _ _ _ _ H1 H2 Ha).
Qed.

Lemma own_map_set {A} (m : list (jsstring * A)) k v k' :
  own (map_set m k v) k' = if decide (k = k') then Some v else own m k'.
Proof.
  induction m as [|[k0 v0] m IH]; simpl.
  - unfold str_eqb. by destruct (decide (k = k')); [rewrite bool_decide_eq_true_2|rewrite bool_decide_eq_false_2].
  - unfold str_eqb at 1. destruct (bool_decide (k0 = k)) eqn:E; simpl.
    + apply bool_decide_eq_true in E. subst. unfold str_eqb.
      by destruct (decide (k = k')); [rewrite bool_decide_eq_true_2|rewrite bool_decide_eq_false_2].
    + apply bool_decide_eq_false in E. rewrite IH. unfold str_eqb.
      destruct (decide (k = k')); [|done]. by rewrite bool_decide_eq_false_2 by congruence.
Qed.

Lemma coherent_set s zone tv :
  coherent s → timeInBillingZone now zone = Ok tv →
  coherent (set_times (map_set (timeValues s) zone tv) s).
Proof.
  intros Hs Ht z tv'. simpl. rewrite own_map_set.
  destruct (decide (zone = z)) as [->|]; [congruence|apply Hs].
Qed.

Definition cached_time (raw : jsstring) : R TimeValues :=
  st ← get_st;
  match own (timeValues st) (trim raw) with
  | Some values => mret values
  | None =>
      values ← lift_st (timeInBillingZone now (trim raw));
      modify_st (λ s, set_times (map_set (timeValues s) (trim raw) values) s);;
      mret values
  end.

Lemma cached_time_value raw s tv s' :
  coherent s → cached_time raw s = Ok (tv, s') →
  timeInBillingZone now (trim raw) = Ok tv ∧ coherent s'.
Proof.
  intros Hs. unfold cached_time, get_st, mbind, stateR_bind. simpl.
  destruct (own (timeValues s) (trim raw)) as [tv0|] eqn:E.
  - intros [= <- <-]. split; [by apply Hs|done].
  - unfold lift_st. destruct (timeInBillingZone now (trim raw)) eqn:Ht; [|done].
    unfold modify_st, mret, stateR_ret. intros [= <- <-]. split; [done|by apply coherent_set].
Qed.

Lemma cached_time_total raw s tv :
  coherent s → timeInBillingZone now (trim raw) = Ok tv → ∃ s', cached_time raw s = Ok (tv, s').
Proof.
  intros Hs Ht. unfold cached_time, get_st, mbind, stateR_bind. simpl.
  destruct (own (timeValues s) (trim raw)) as [tv0|] eqn:E.
  - apply Hs in E. rewrite Ht in E. injection E as <-. by exists s.
  - unfold lift_st. rewrite Ht. eexists. reflexivity.
Qed.

Lemma agree_time name args1 args2 :
  agree (run (arg args1 0)) (run (arg args2 0)) →
  agree (eval_time now name args1) (eval_time now name args2).
Proof.
  intros Ho. unfold eval_time. apply agree_bind; [by apply agree_string|]. intros raw.
  intros s1 s2 a s1' H1 H2 Ha.
  assert (∀ s, (st ← get_st;
    values ← match own (timeValues st) (trim raw) with
           | Some values => mret values
           | None =>
               values ← lift_st (timeInBillingZone now (trim raw));
               modify_st (λ s, mkState (requestRules s) (matchedTier s) (billingUnit s)
                                 (fixedPrice s) (map_set (timeValues s) (trim raw) values));;
               mret values
           end;
    mret (mkValue (VNumber (time_value values name)) true)) s =
    (values ← cached_time raw; mret (mkValue (VNumber (time_value values name)) true)) s) as Heq by done.
  rewrite Heq in Ha. apply stateR_bind_Ok in Ha as (tv & t1 & Ht & Ha).
  destruct (cached_time_value _ _ _ _ H1 Ht) as [Htv Hc]. injection Ha as <- <-.
  split; [done|]. destruct (cached_time_total raw s2 tv H2 Htv) as [s2' Hs2].
  exists s2'. split; [|exact (proj2 (cached_time_value _ _ _ _ H2 Hs2))]. rewrite Heq. unfold mbind, stateR_bind. by rewrite Hs2.
Qed.

(** Same call on argument lists that agree position by position. *)
Lemma agree_call name p args1 args2 :
  Forall2 (λ o1 o2, agree (run o1) (run o2)) args1 args2 →
  agree (eval_call context now headers name p args1) (eval_call context now headers name p args2).
Proof.
  intros Hall.
  assert (Harg : ∀ i, agree (run (arg args1 i)) (run (arg args2 i))).
  { intros i. unfold arg. destruct (args1 !! i) as [o1|] eqn:E1.
    - destruct (Forall2_lookup_l _ _ _ _ _ Hall E1) as (o2 & -> & Ho). exact Ho.
    - assert (args2 !! i = None) as ->.
      { apply lookup_ge_None. rewrite <- (Forall2_length _ _ _ Hall). by apply lookup_ge_None. }
      by intros ? ? ? ? ? ?. }
  pose proof (agree_numeric _ _ (Harg 0)) as Hn0. pose proof (agree_numeric _ _ (Harg 1)) as Hn1.
  pose proof (agree_string _ _ (Harg 0)) as Hs0. pose proof (agree_string _ _ (Harg 1)) as Hs1.
  pose proof (agree_time name _ _ (Harg 0)) as Ht. specialize (Harg 0).
  unfold eval_call, eval_fixed, eval_tier, eval_param, eval_header, eval_usage, eval_has,
    eval_min_max, eval_rounding.
  repeat match goal with |- agree (if ?b then _ else _) _ => destruct b end;
    repeat first [assumption | agree_step].
Qed.

Lemma agree_binary op p lo1 lo2 ro1 ro2 :
  agree (run lo1) (run lo2) → agree (run ro1) (run ro2) →
  agree (eval_binary op p lo1 ro1) (eval_binary op p lo2 ro2).
Proof.
  destruct lo1 as [p1 l1], lo2 as [p2 l2], ro1 as [q1 r1], ro2 as [q2 r2]. simpl. intros Hl Hr.
  pose proof (agree_boolean p1 p2 _ _ Hl). pose proof (agree_boolean q1 q2 _ _ Hr).
  unfold eval_binary. repeat first [assumption | agree_step].
Qed.

Lemma agree_unary op o1 o2 :
  agree (run o1) (run o2) → agree (eval_unary op o1) (eval_unary op o2).
Proof.
  intros Ho. pose proof (agree_numeric _ _ Ho). destruct o1 as [p1 m1], o2 as [p2 m2].
  pose proof (agree_boolean p1 p2 _ _ Ho).
  unfold eval_unary. repeat first [assumption | agree_step].
Qed.

(** A node that evaluates at some depth evaluates to the same value at any
    smaller depth, from any coherent state. *)
Lemma evaluate_agree n d1 d2 : d2 ≤ d1 →
  agree (evaluate compiled context now headers d1 n) (evaluate compiled context now headers d2 n).
Proof.
  revert d1 d2. induction n as [n IH] using node_induction. intros d1 d2 Hd.
  rewrite Forall_forall in IH.
  assert (Hc : ∀ c, c ∈ children n → agree (evaluate compiled context now headers (S d1) c)
                                           (evaluate compiled context now headers (S d2) c)).
  { intros c Hc. apply (IH c Hc). lia. }
  clear IH.
  destruct n; cbn [evaluate]; simpl in Hc;
    (destruct (256 <? S d1) eqn:H1; [by intros ? ? ? ? ? ?|]);
    (rewrite (proj2 (Nat.ltb_ge 256 (S d2))) by (apply Nat.ltb_ge in H1; lia));
    (apply agree_bind; [|intros v; apply agree_lift]).
  - apply agree_ret.
  - apply agree_lift.
  - apply agree_call. rewrite Forall2_fmap. apply Forall_Forall2_diag, Forall_forall. exact Hc.
  - apply agree_unary. simpl. apply Hc. set_solver.
  - apply agree_binary; simpl; apply Hc; set_solver.
  - apply agree_bind; [apply agree_boolean; apply Hc; set_solver|]. intros b.
    apply agree_bind; [|intros ?; destruct b; apply Hc; set_solver].
    destruct b; [|apply agree_ret].
    destruct (find_rule_index _ _); [|apply agree_ret].
    by apply agree_modify; intros z Hz.
Qed.
End Pure.

Section Rel.
Context `{Host} (compiled : CompiledBillingExpression) (context : BillingSimulationContext)
  (now : Date) (headers : list (jsstring * jsstring)).
(** An invariant and a preorder on states that the changes of an evaluation
    respect; [fixed] and [tier] only have to respect them where the
    expression calls them, and a rule is marked only after its condition was
    evaluated to [true]. *)
Context (Inv : RuntimeState → Prop) (Rel : RuntimeState → RuntimeState → Prop)
  (Rel_refl : ∀ s, Rel s s) (Rel_trans : ∀ a b c, Rel a b → Rel b c → Rel a c).
Definition step_ok (s s' : RuntimeState) : Prop := Inv s → Inv s' ∧ Rel s s'.
Context
  (Rel_match : ∀ d c y n p q s0 s1 v i, Inv s0 →
     evaluate compiled context now headers d c s0 = Ok (v, s1) → rv_value v = VBoolean true →
     find_rule_index (c_requestRules compiled) (Conditional c y n p q) = Some i →
     step_ok s1 (set_matched i s1))
  (Rel_times : ∀ zone tv s, timeInBillingZone now zone = Ok tv →
     step_ok s (set_times (map_set (timeValues s) zone tv) s)).

#[local] Set Default Proof Using "All".

Definition safe {A} (sh : Prop) (m : R A) : Prop :=
  ∀ s, Inv s → wpe m s (λ _ s', Inv s' ∧ Rel s s') (ordinary sh).

Lemma safe_bind {A B} sh (m : R A) (k : A → R B) :
  safe sh m → (∀ a, safe sh (k a)) → safe sh (m ≫= k).
Proof.
  intros Hm Hk s Hs0. apply wpe_bind. eapply wpe_mono; [by apply Hm| |done].
  intros a s1 [Hi1 Hs]. eapply wpe_mono; [by apply Hk| |done].
  intros b s2 [Hi2 Hs2]. split; [done|exact (Rel_trans _ _ _ Hs Hs2)].
Qed.
Lemma safe_ret {A} sh (a : A) : safe sh (mret a).
Proof. intros s Hs. apply wpe_ret. auto. Qed.
Lemma safe_get sh : safe sh get_st.
Proof. intros s Hs. apply wpe_get. auto. Qed.
Lemma safe_modify sh f : (∀ s, step_ok s (f s)) → safe sh (modify_st f).
Proof. intros Hf s Hs. apply wpe_modify. by apply Hf. Qed.
Lemma safe_lift {A} sh (r : result A) : (∀ e, r = Err e → ordinary sh e) → safe sh (lift_st r).
Proof. intros Hr s Hs. apply wpe_lift; auto. Qed.
Lemma safe_throw_at {A} sh c d p : safe sh (lift_st (@throw_at A c d p)).
Proof. apply safe_lift. intros e. apply ordinary_at. Qed.
Lemma safe_weaken {A} (sh sh' : Prop) (m : R A) : (sh' → sh) → safe sh m → safe sh' m.
Proof.
  intros Hs Hm s Hi. eapply wpe_mono; [by apply Hm|done|]. intros e. by apply ordinary_weaken.
Qed.

#[local] Hint Resolve safe_bind safe_ret safe_get safe_throw_at : safe.
#[local] Ltac safe_step :=
  lazymatch goal with
  | |- safe _ (_ ≫= _) => apply safe_bind; [|intros ?]
  | |- safe _ (mret _) => apply safe_ret
  | |- safe _ get_st => apply safe_get
  | |- safe _ (lift_st (throw_at _ _ _)) => apply safe_throw_at
  | |- safe _ (if ?b then _ else _) => destruct b
  | |- safe _ (let '_ := ?x in _) => destruct x
  | |- safe _ (match ?x with _ => _ end) => destruct x
  | |- _ => assumption
  end.

Lemma safe_boolean sh o : safe sh (run o) → safe sh (as_boolean o).
Proof. intros Ho. unfold as_boolean. repeat safe_step. Qed.
Lemma safe_numeric sh o : safe sh (run o) → safe sh (as_numeric o).
Proof. intros Ho. unfold as_numeric. repeat safe_step. Qed.
Lemma safe_string sh o : safe sh (run o) → safe sh (as_string o).
Proof. intros Ho. unfold as_string. repeat safe_step. Qed.
#[local] Hint Resolve safe_boolean safe_numeric safe_string : safe.

Lemma safe_binary sh op p lo ro :
  safe sh (run lo) → safe sh (run ro) → safe sh (eval_binary op p lo ro).
Proof.
  intros Hl Hr. unfold eval_binary.
  destruct (op =s js "&&"); [|destruct (op =s js "||")].
  - apply safe_bind; [by apply safe_boolean|]. intros []; [|apply safe_ret].
    apply safe_bind; [by apply safe_boolean|]. intros ?. apply safe_ret.
  - apply safe_bind; [by apply safe_boolean|]. intros []; [apply safe_ret|].
    apply safe_bind; [by apply safe_boolean|]. intros ?. apply safe_ret.
  - apply safe_bind; [done|]. intros ?. apply safe_bind; [done|]. intros ?.
    apply safe_lift. intros e. apply apply_binary_error.
Qed.

Lemma safe_unary sh op o : safe sh (run o) → safe sh (eval_unary op o).
Proof.
  intros Ho. unfold eval_unary. destruct (_ =s _);
    (apply safe_bind; [auto with safe|]); [intros ?|intros []]; apply safe_ret.
Qed.

Lemma safe_time sh name args :
  safe sh (run (arg args 0)) → safe sh (eval_time now name args).
Proof.
  intros Ho. unfold eval_time. apply safe_bind; [auto with safe|]. intros raw.
  apply safe_bind; [apply safe_get|]. intros st.
  apply safe_bind; [|intros ?; apply safe_ret].
  destruct (own _ _); [apply safe_ret|]. intros s Hs. apply wpe_bind, wpe_lift.
  - intros tv Htv. apply wpe_bind, wpe_modify, wpe_ret. by apply (Rel_times _ _ s Htv).
  - intros e. apply timeInBillingZone_error.
Qed.

(** A call whose arguments are safe and as many as its arity. *)
Lemma safe_call sh name p args k :
  own BILLING_FUNCTIONS name = Some k → length args = k →
  (∀ o, o ∈ args → safe sh (run o)) →
  (name = js "fixed" → ∀ a s, step_ok s (set_fixed a s)) →
  (name = js "tier" → ∀ t s, step_ok s (set_tier t s)) →
  safe sh (eval_call context now headers name p args).
Proof.
  intros Hk Hlen Ho Hfixed Htier.
  assert (Hfirst : 1 ≤ k → safe sh (run (arg args 0))).
  { intros. destruct args as [|a args]; simpl in *; [lia|]. apply Ho. set_solver. }
  assert (Hsecond : 2 ≤ k → safe sh (run (arg args 1))).
  { intros. destruct args as [|a [|b args]]; simpl in *; [lia..|]. apply Ho. set_solver. }
  unfold eval_call.
  repeat match goal with
  | |- safe _ (if name =s ?f then _ else _) =>
      destruct (name =s f) eqn:?;
        [match goal with Hn : (name =s f) = true |- _ => apply str_eqb_eq in Hn; subst name end;
         vm_compute in Hk; injection Hk as <-|]
  end.
  1: { apply safe_bind; [auto with safe|]. intros [a i]. apply safe_bind; [|intros ?; apply safe_ret].
       apply safe_modify. intros s. by apply (Hfixed eq_refl a s). }
  1: { apply safe_bind; [auto with safe|]. intros t. apply safe_bind; [auto with safe|].
       intros [v i]. apply safe_bind; [|intros ?; apply safe_ret].
       apply safe_modify. intros s. by apply (Htier eq_refl t s). }
  1: { apply safe_bind; [auto with safe|]. intros path. destruct (request context); [|apply safe_throw_at].
       apply safe_bind; [|intros ?; apply safe_ret]. apply safe_lift.
       intros e. apply readRequestPath_error. }
  1: { apply safe_bind; [auto with safe|]. intros path.
       destruct (request context); [apply safe_ret|apply safe_throw_at]. }
  1: { apply safe_bind; [auto with safe|]. intros path.
       destruct (usage context); [apply safe_ret|apply safe_throw_at]. }
  1: { apply safe_bind; [auto with safe|]. intros v. apply safe_bind; [auto with safe|].
       intros sub. destruct (_ || _); [apply safe_ret|].
       apply safe_bind; [|intros ?; apply safe_ret]. apply safe_lift.
       intros e. apply billingString_error. }
  1-2: (apply safe_bind; [auto with safe|]; intros [a i]; apply safe_bind; [auto with safe|];
       intros [b j]; apply safe_ret).
  1-3: (apply safe_bind; [auto with safe|]; intros [a i]; apply safe_ret).
  destruct (str_in name TIME_FUNCTIONS) eqn:Ht.
  - simpl. apply safe_time. apply Hfirst. apply str_in_elem in Ht.
    unfold TIME_FUNCTIONS in Ht. simpl in Ht.
    repeat (apply elem_of_cons in Ht as [->|Ht]; [vm_compute in Hk; simplify_eq; lia|]).
    by apply elem_of_nil in Ht.
  - simpl. apply safe_lift. intros e. apply ordinary_throw. by left.
Qed.

Lemma evaluate_rel n d :
  node_ok n →
  (uses_function (js "fixed") n → ∀ a s, step_ok s (set_fixed a s)) →
  (uses_function (js "tier") n → ∀ t s, step_ok s (set_tier t s)) →
  safe (d + node_height n < 256) (evaluate compiled context now headers d n).
Proof.
  revert d. induction n as [n IH] using node_induction. intros d Hok Hfixed Htier.
  rewrite Forall_forall in IH. pose proof (node_ok_inv _ Hok) as [(_ & _ & _ & Hvoc) Hch].
  rewrite Forall_forall in Hch.
  assert (Hc : ∀ c, c ∈ children n →
    safe (d + node_height n < 256) (evaluate compiled context now headers (S d) c)).
  { intros c Hc. eapply safe_weaken; [|apply (IH c Hc (S d)); [by apply Hch|..]].
    - pose proof (node_height_child n c Hc). lia.
    - intros Hu. apply Hfixed. by eapply uses_child.
    - intros Hu. apply Htier. by eapply uses_child. }
  assert (Hlim : (256 <? S d) = true → ∀ e, @throw RuntimeValue code_limit (js "evaluation depth") = Err e →
    ordinary (d + node_height n < 256) e).
  { intros Hd e [= <-]. apply Nat.ltb_lt in Hd. eexists. split; [done|]. lia. }
  assert (Hcheck : ∀ v, safe (d + node_height n < 256) (lift_st (check_value (node_start n) v))).
  { intros v. apply safe_lift. intros e. apply check_value_error. }
  clear IH. destruct n; cbn [evaluate]; (destruct (256 <? S d) eqn:Hd; [apply safe_lift; by apply Hlim|]);
    (apply safe_bind; [|exact Hcheck]); simpl in Hc.
  - apply safe_ret.
  - apply safe_lift. intros e'. apply eval_variable_error.
  - simpl in Hvoc. eapply safe_call; [exact Hvoc|by rewrite length_map|..].
    + intros o Ho. apply list_elem_of_fmap in Ho as (c & -> & Hin). by apply Hc.
    + intros ->. apply Hfixed, uses_self.
    + intros ->. apply Htier, uses_self.
  - apply safe_unary. simpl. apply Hc. set_solver.
  - apply safe_binary; simpl; apply Hc; set_solver.
  - intros s' Hs'. unfold as_boolean. simpl. do 2 apply wpe_bind.
    assert (Hcond := Hc n1 ltac:(set_solver) s' Hs'). unfold wpe in Hcond |- * at 1.
    destruct (evaluate _ _ _ _ _ n1 s') as [[v s1]|] eqn:Hev; [|done].
    destruct Hcond as [Hi1 Hr1]. destruct (rv_value v) eqn:Hv;
      try (eexists; split; [reflexivity|]; by intros _ [=]).
    apply wpe_ret. eapply (wpe_mono _ _ (λ _ s2, Inv s2 ∧ Rel s1 s2)); [| |done].
    2: { intros a s2 [? Hr2]. split; [done|exact (Rel_trans _ _ _ Hr1 Hr2)]. }
    apply wpe_bind. destruct b.
    + destruct (find_rule_index _ _) as [i|] eqn:Hi.
      * apply wpe_modify. destruct (Rel_match _ _ _ _ _ _ _ _ _ _ Hs' Hev Hv Hi Hi1) as [Hi2 Hr2].
        eapply wpe_mono; [apply Hc; [set_solver|done]| |done].
        intros a s2 [? Hr3]. split; [done|exact (Rel_trans _ _ _ Hr2 Hr3)].
      * apply wpe_ret. apply Hc; [set_solver|done].
    + apply wpe_ret. apply Hc; [set_solver|done].
Qed.
End Rel.

(** ** Whole evaluations *)

Section Run.
Context `{Host}.

Lemma normalize_headers_error sh entries acc e :
  normalize_headers entries acc = Err e → ordinary sh e.
Proof.
  revert acc. induction entries as [|[k v] l IH]; intros acc He; simpl in He; [done|].
  destruct v; try (by eapply ordinary_throw; [left|exact He]).
  destruct (_ && _); by eapply IH.
Qed.

Lemma check_tokens_error sh l e : check_tokens l = Err e → ordinary sh e.
Proof.
  induction l as [|[k v] l IH]; simpl; [done|].
  destruct v; try (intros He; by eapply ordinary_throw; [left|exact He]).
  destruct (_ || _); [|done]. intros He. eapply ordinary_throw; [|exact He]. by left.
Qed.

(** An evaluation of a compiled expression, by the effects of its parts. *)
Lemma run_billing_rel (Inv : RuntimeState → Prop) (Rel : RuntimeState → RuntimeState → Prop)
    clock c context node (now := default clock (context_now context)) :
  (∀ s, Rel s s) → (∀ a b c, Rel a b → Rel b c → Rel a c) →
  (∀ headers d c' y n p q s0 s1 v i, Inv s0 →
     evaluate c context now headers d c' s0 = Ok (v, s1) → rv_value v = VBoolean true →
     find_rule_index (c_requestRules c) (Conditional c' y n p q) = Some i →
     normalize_headers (from_option request_headers [] (request context)) [] = Ok headers →
     step_ok Inv Rel s1 (set_matched i s1)) →
  (∀ zone tv s, timeInBillingZone now zone = Ok tv →
     step_ok Inv Rel s (set_times (map_set (timeValues s) zone tv) s)) →
  (uses_function (js "fixed") node → ∀ a s, step_ok Inv Rel s (set_fixed a s)) →
  (uses_function (js "tier") node → ∀ t s, step_ok Inv Rel s (set_tier t s)) →
  node_ok node → Inv (initial_state c) →
  match run_billing clock c context node with
  | Ok (_, s) => Inv s ∧ Rel (initial_state c) s
  | Err e => ordinary (node_height node < 256) e
  end.
Proof.
  intros Hrefl Htrans Hmatch Htimes Hfixed Htier Hok Hi. unfold run_billing. fold now.
  destruct (normalize_headers _ _) as [hs|e] eqn:Hh; simpl; [|by eapply normalize_headers_error].
  assert (Hev := evaluate_rel c context now hs Inv Rel Hrefl Htrans
    (λ d c' y n p q s0 s1 v i H0 H1 H2 H3, Hmatch hs d c' y n p q s0 s1 v i H0 H1 H2 H3 eq_refl)
    Htimes node 0 Hok Hfixed Htier (initial_state c) Hi).
  unfold wpe in Hev. by destruct (evaluate _ _ _ _ _ _ _) as [[v s]|e].
Qed.

(** The same with no invariant, for relations that never inspect rules or times. *)
Lemma run_billing_simple (Rel : RuntimeState → RuntimeState → Prop) clock c context node :
  (∀ s, Rel s s) → (∀ a b c, Rel a b → Rel b c → Rel a c) →
  (∀ i s, Rel s (set_matched i s)) → (∀ tv s, Rel s (set_times tv s)) →
  (uses_function (js "fixed") node → ∀ a s, Rel s (set_fixed a s)) →
  (uses_function (js "tier") node → ∀ t s, Rel s (set_tier t s)) →
  node_ok node →
  match run_billing clock c context node with
  | Ok (_, s) => Rel (initial_state c) s
  | Err e => ordinary (node_height node < 256) e
  end.
Proof.
  intros Hrefl Htrans Hm Ht Hf Htr Hok.
  assert (Hr : match run_billing clock c context node with
    | Ok (_, s) => True ∧ Rel (initial_state c) s
    | Err e => ordinary (node_height node < 256) e
    end).
  { apply (run_billing_rel (λ _, True)); try done; intros; split; auto. }
  destruct (run_billing clock c context node) as [[v s]|e]; [apply Hr|exact Hr].
Qed.

Lemma find_rule_index_spec rules n i :
  find_rule_index rules n = Some i → ∃ r, rules !! i = Some r ∧ rr_node r = n.
Proof.
  revert i. induction rules as [|r rules IH]; intros i; simpl; [done|].
  unfold same_node. destruct (bool_decide _) eqn:E.
  - intros [= <-]. apply bool_decide_eq_true in E. by exists r.
  - destruct (find_rule_index rules n) as [j|]; [|done]. intros [= <-]. by apply IH.
Qed.

Lemma requestRules_set_matched i s j r' :
  requestRules (set_matched i s) !! j = Some r' →
  ∃ r, requestRules s !! j = Some r ∧ rule_cond r' = rule_cond r ∧
    rule_multiplier r' = rule_multiplier r ∧ (rule_matched r' = true → rule_matched r = true ∨ j = i).
Proof.
  simpl. destruct (decide (i = j)) as [->|Hne].
  - rewrite list_lookup_alter_eq. destruct (requestRules s !! j) as [r|]; [|done].
    intros [= <-]. exists r. split_and!; auto.
  - rewrite list_lookup_alter_ne by done. intros Hr. exists r'. split_and!; auto.
Qed.

(** The printed condition and the factor of each recorded rule. *)
Definition rule_head (r : BillingRequestRule) : jsstring * num := (rule_cond r, rule_multiplier r).
Definition rr_head (r : RequestRule) : jsstring * num := (rr_cond r, rr_multiplier r).

Lemma rule_heads_set_matched i s :
  map rule_head (requestRules (set_matched i s)) = map rule_head (requestRules s).
Proof.
  apply list_eq. intros j. simpl. rewrite !list_lookup_fmap.
  destruct (decide (i = j)) as [->|Hne]; [rewrite list_lookup_alter_eq|by rewrite list_lookup_alter_ne].
  by destruct (requestRules s !! j).
Qed.
End Run.

(** A host without time-zone data, for the witnesses: every zone falls back to
    UTC and only ASCII letters are lowercased. *)
Definition utc_host : Host := {|
  toLowerCase := map (λ c, if is_upper c then (c + 32)%N else c);
  dateTimeFormat := λ _, None
|}.
