(* ===== verification/RuntimeTheorems.v ===== *)
(** * What the interpreter guarantees

    Theorems about [run_billing] and [evaluateBillingExpression] on compiled
    expressions: the errors, the trace of request rules, the billing unit and
    the fixed price, the numbers and the types of the results. *)

From Stdlib Require Import Floats.SpecFloat.
From S2P Require Import Prelude JsNumber JsText Types Parser ParserFacts Compile CompileFacts Runtime.
From S2P Require Import RuntimeFacts.

Definition witness_source : jsstring :=
  js "p * 2 * (header('x') == 'a' ? 3 : 1)".
Definition compiled_of (r : CompilationResult) : CompiledBillingExpression :=
  match r with Ready c => c | CompileFailed _ => mkCompiled [] (Literal LNull false 0 0) [] [] [] end.
Definition witness_compiled : CompiledBillingExpression :=
  Eval vm_compute in compiled_of (compile_source witness_source).
Lemma witness_compiles : compile_source witness_source = Ready witness_compiled.
Proof. vm_compute. reflexivity. Qed.

Definition witness_context : BillingSimulationContext :=
  mkContext None (Some [(js "p", VNumber (num_of_Z 10))])
    (Some (mkRequest VNull [(js "X", VString (js "a"))])) None None.

(** ** Errors *)

(** C40. Evaluating a compiled expression never fails with anything but a
    [BillingExpressionError], and the depth limit is never the reason when the
    tree is less than 256 levels high. *)
Theorem evaluate_success_errors `{Host} clock source c context e :
  compile_source source = Ready c →
  evaluate_success clock c context = Err e →
  ordinary (node_height (c_ast c) < 256) e.
Proof.
  intros Hc [He|(u & _ & He)]%bind_Err; [by eapply check_tokens_error|].
  apply compile_source_ready in Hc.
  apply bind_Err in He as [He|([v st] & _ & He)].
  - assert (Hr := run_billing_simple (λ _ _, True) clock c context (c_ast c)).
    rewrite He in Hr. apply Hr; auto. by destruct Hc.
  - destruct (rv_value v); try (eapply ordinary_throw; [|exact He]; by left).
    destruct (_ || _); [|done]. eapply ordinary_throw; [|exact He]. by left.
Qed.

Example evaluate_success_errors_witness :
  ∃ e, evaluate_success (H := utc_host) (Some 0%Z) witness_compiled empty_context = Err e ∧
    ordinary (node_height (c_ast witness_compiled) < 256) e.
Proof.
  assert (∃ e, evaluate_success (H := utc_host) (Some 0%Z) witness_compiled empty_context = Err e)
    as [e He] by (eexists; vm_compute; reflexivity).
  exists e. split; [exact He|].
  exact (evaluate_success_errors _ _ _ _ e witness_compiles He).
Defined.

(** ** The trace of request rules *)

Section Trace.
Context `{Host} (clock : Date) (c : CompiledBillingExpression) (context : BillingSimulationContext).

(** The condition of the rule at index [i] evaluates to [true]. *)
Definition rule_holds (i : nat) : Prop := ∀ rr,
  c_requestRules c !! i = Some rr →
  ∃ v st, run_billing clock c context (rr_condition rr) = Ok (v, st) ∧ rv_value v = VBoolean true.

Definition trace_rel (s s' : RuntimeState) : Prop :=
  map rule_head (requestRules s') = map rule_head (requestRules s) ∧
  ∀ i r', requestRules s' !! i = Some r' → rule_matched r' = true →
    (∃ r, requestRules s !! i = Some r ∧ rule_matched r = true) ∨ rule_holds i.

Lemma trace_run source v st :
  compiled_ok source c → run_billing clock c context (c_ast c) = Ok (v, st) →
  trace_rel (initial_state c) st.
Proof.
  intros Hc Hrun. set (now := default clock (context_now context)).
  assert (Hr : match run_billing clock c context (c_ast c) with
    | Ok (_, s) => coherent now s ∧ trace_rel (initial_state c) s
    | Err e => ordinary (node_height (c_ast c) < 256) e end).
  { assert (Hsame : ∀ s s', coherent now s' → requestRules s' = requestRules s →
      step_ok (coherent now) trace_rel s s').
    { intros s s' Hs' Heq _. split; [done|]. unfold trace_rel. rewrite Heq. naive_solver. }
    apply run_billing_rel.
    - intros s. split; [done|]. eauto.
    - intros s1 s2 s3 [E1 H1] [E2 H2]. split; [congruence|]. intros i r' Hr Hm.
      destruct (H2 i r' Hr Hm) as [(r & Hr2 & Hm2)|?]; eauto.
    - intros hs d c' y n p q s0 s1 v0 i H0 Hev Hv Hi Hh Hs1. split; [exact Hs1|].
      split; [apply rule_heads_set_matched|]. intros j r' Hr Hm.
      destruct (requestRules_set_matched _ _ _ _ Hr) as (r & Hr1 & _ & _ & Hm1).
      destruct (Hm1 Hm) as [Hold| ->]; [by left; exists r|]. right. intros rr Hrr.
      destruct (find_rule_index_spec _ _ _ Hi) as (rr' & Hrr' & Hnode).
      assert (rr' = rr) as -> by congruence.
      destruct (co_rules _ _ Hc rr (list_elem_of_lookup_2 _ _ _ Hrr)) as [_ (_ & Hmul & _)].
      rewrite Hnode in Hmul. assert (c' = rr_condition rr) as ->.
      { simpl in Hmul. repeat (case_match; simplify_eq); done. }
      assert (Hc0 : coherent now (initial_state c)) by (intros z tv; done).
      destruct (evaluate_agree c context now hs (rr_condition rr) d 0 ltac:(lia)
        s0 (initial_state c) v0 s1 H0 Hc0 Hev) as (_ & s2 & Hev2 & _).
      exists v0, s2. split; [|done]. unfold run_billing. fold now. by rewrite Hh.
    - intros zone tv s Htv Hs. by apply Hsame; [apply coherent_set|..].
    - intros _ a s Hs. by apply Hsame.
    - intros _ t s Hs. by apply Hsame.
    - by apply co_node in Hc.
    - done. }
  rewrite Hrun in Hr. apply Hr.
Qed.
End Trace.

(** C35. The trace of an evaluation lists the request rules of the compiled
    expression, in order, each with its condition text and factor; and a rule
    shown as matched is one whose condition, evaluated on its own in the same
    context, is [true]. *)
Theorem matched_rules_hold `{Host} clock source c context v st :
  compile_source source = Ready c →
  run_billing clock c context (c_ast c) = Ok (v, st) →
  map rule_head (requestRules st) = map rr_head (c_requestRules c) ∧
  ∀ i r, requestRules st !! i = Some r → rule_matched r = true →
    ∃ rr v' st', c_requestRules c !! i = Some rr ∧ rule_head r = rr_head rr ∧
      run_billing clock c context (rr_condition rr) = Ok (v', st') ∧ rv_value v' = VBoolean true.
Proof.
  intros Hc%compile_source_ready Hrun.
  destruct (trace_run clock c context source v st Hc Hrun) as [Hheads Hm].
  assert (map rule_head (requestRules st) = map rr_head (c_requestRules c)) as Heads.
  { rewrite Hheads. simpl. rewrite map_map. done. }
  split; [done|]. intros i r Hr Hmr.
  assert (map rule_head (requestRules st) !! i = Some (rule_head r)) as Hhr.
  { by apply list_lookup_fmap_Some_2. }
  rewrite Heads in Hhr. apply list_lookup_fmap_Some in Hhr as (rr & Hhr & Hrr).
  destruct (Hm i r Hr Hmr) as [(r0 & Hr0 & Hm0)|Hh].
  - simpl in Hr0. apply list_lookup_fmap_Some in Hr0 as (? & -> & _). done.
  - destruct (Hh rr Hrr) as (v' & st' & Hrun' & Hv'). exists rr, v', st'. eauto.
Qed.

Definition witness_run : RuntimeValue * RuntimeState :=
  Eval vm_compute in
    match @run_billing utc_host (Some 0%Z) witness_compiled witness_context (c_ast witness_compiled) with
    | Ok p => p
    | Err _ => (value VNull, initial_state witness_compiled)
    end.
Lemma witness_runs :
  @run_billing utc_host (Some 0%Z) witness_compiled witness_context (c_ast witness_compiled)
  = Ok (witness_run.1, witness_run.2).
Proof. vm_compute. reflexivity. Qed.

Example matched_rules_hold_witness :
  map rule_matched (requestRules witness_run.2) = [true] ∧
  map rule_head (requestRules witness_run.2) = map rr_head (c_requestRules witness_compiled).
Proof.
  split; [reflexivity|].
  exact (proj1 (matched_rules_hold _ _ _ _ _ _ witness_compiles witness_runs)).
Defined.

(** ** Billing unit and tiers *)

Definition unit_agrees (s : RuntimeState) : Prop :=
  billingUnit s = unit_request ↔ is_Some (fixedPrice s).

(** After an evaluation the unit is [request] exactly when a fixed price was
    set; an expression that never calls [fixed] stays per token, and one that
    never calls [tier] has no matched tier. *)
Theorem billing_unit_fixed_price `{Host} clock source c context v st :
  compile_source source = Ready c →
  run_billing clock c context (c_ast c) = Ok (v, st) →
  (billingUnit st = unit_request ↔ is_Some (fixedPrice st)) ∧
  (js "fixed" ∉ c_functions c → billingUnit st = unit_token ∧ fixedPrice st = None) ∧
  (js "tier" ∉ c_functions c → matchedTier st = []).
Proof.
  intros Hc%compile_source_ready Hrun. pose proof (co_node _ _ Hc) as Hok. split_and!.
  - assert (Hr := run_billing_simple (λ s s', unit_agrees s → unit_agrees s') clock c context (c_ast c)).
    rewrite Hrun in Hr. apply Hr; try done.
    + intros s1 s2 s3. auto.
    + split; [done|]. by intros [? [=]].
  - intros Hf. rewrite (co_functions _ _ Hc) in Hf.
    assert (Hr := run_billing_simple (λ s s', billingUnit s' = billingUnit s ∧ fixedPrice s' = fixedPrice s)
      clock c context (c_ast c)).
    rewrite Hrun in Hr. apply Hr; try done. intros s1 s2 s3 [-> ->]. auto.
  - intros Hf. rewrite (co_functions _ _ Hc) in Hf.
    assert (Hr := run_billing_simple (λ s s', matchedTier s' = matchedTier s) clock c context (c_ast c)).
    rewrite Hrun in Hr. apply Hr; try done. by intros s1 s2 s3 ->.
Qed.

Example billing_unit_fixed_price_witness :
  billingUnit witness_run.2 = unit_token ∧ matchedTier witness_run.2 = [].
Proof.
  destruct (billing_unit_fixed_price _ _ _ _ _ _ witness_compiles witness_runs) as (_ & Hf & Ht).
  assert (js "fixed" ∉ c_functions witness_compiled) as H1 
    by (rewrite <- str_in_elem; vm_compute; discriminate).
  assert (js "tier" ∉ c_functions witness_compiled) as H2 
    by (rewrite <- str_in_elem; vm_compute; discriminate).
  split; [exact (proj1 (Hf H1))|exact (Ht H2)].
Defined.

(** ** Fixed prices *)

(** [a] is the literal of a call [fixed(a)] of the tree, valid as a price. *)
Definition fixed_literal (n : ExpressionNode) (a : num) : Prop :=
  ∃ i p q args s e, in_tree (Call (js "fixed") (Literal (LNumber a) i p q :: args) s e) n ∧
    num_leb zero a = true ∧ is_finite (num_mul a million) = true.

Lemma fixed_literal_child c n a : c ∈ children n → fixed_literal c a → fixed_literal n a.
Proof.
  intros Hc (i & p & q & args & s & e & Hin & Ha). exists i, p, q, args, s, e.
  split; [by eapply in_tree_child|done].
Qed.

Lemma unmarked_pure n :
  containsPricingMarker n = Ok false →
  ¬ uses_function (js "tier") n ∧ ¬ uses_function (js "fixed") n.
Proof.
  unfold containsPricingMarker. intros ([vs fs] & Hd & Hm)%bind_Ok.
  destruct (expressionDependencies_ok n (expressionDependencies_height _ _ Hd)) as (vs' & fs' & Hd' & _ & Hf).
  rewrite Hd in Hd'. injection Hd' as <- <-. injection Hm as Hm%orb_false_iff. destruct Hm as [H1 H2].
  rewrite <- !Hf, <- !str_in_elem. by rewrite H1, H2.
Qed.

Section Fixed.
Context `{Host} (compiled : CompiledBillingExpression) (context : BillingSimulationContext)
  (now : Date) (headers : list (jsstring * jsstring)).
Abbreviation eval := (evaluate compiled context now headers).

(** The price is unchanged or becomes a literal price of [n]. *)
Definition priced (n : ExpressionNode) (s s' : RuntimeState) : Prop :=
  fixedPrice s' = fixedPrice s ∨ ∃ a, fixed_literal n a ∧ fixedPrice s' = Some a.

Lemma priced_child c n s s' : c ∈ children n → priced c s s' → priced n s s'.
Proof.
  intros Hc [?|(a & Ha & ?)]; [by left|]. right. exists a. split; [|done]. by eapply fixed_literal_child.
Qed.
Lemma priced_trans n s1 s2 s3 : priced n s1 s2 → priced n s2 s3 → priced n s1 s3.
Proof. intros [H1|H1] [H2|H2]; unfold priced in *; try rewrite H2; auto. Qed.

Lemma unmarked_price n d s v s' :
  node_ok n → ¬ uses_function (js "fixed") n → eval d n s = Ok (v, s') → fixedPrice s' = fixedPrice s.
Proof.
  intros Hok Hf Hev.
  assert (Hr := evaluate_rel compiled context now headers (λ _, True)
    (λ s s', fixedPrice s' = fixedPrice s) (λ s, eq_refl)
    (λ a b c (H1 : fixedPrice b = fixedPrice a) H2, eq_trans H2 H1)).
  assert (Hs := Hr (λ _ _ _ _ _ _ _ _ _ _ _ _ _ _ _, conj I eq_refl)
    (λ _ _ _ _ _, conj I eq_refl) n d Hok (λ Hu, False_ind _ (Hf Hu)) (λ _ _ _ _, conj I eq_refl) s I).
  unfold wpe in Hs. rewrite Hev in Hs. apply Hs.
Qed.

(** The evaluation of a node, without the checks around it. *)
Lemma eval_inv d n s v s' : eval d n s = Ok (v, s') →
  match n with
  | Conditional condition yes no _ _ => ∃ b s1 s2,
      (∃ v1, eval (S d) condition s = Ok (v1, s1) ∧ rv_value v1 = VBoolean b) ∧ (s2 = s1 ∨ ∃ i, s2 = set_matched i s1) ∧
      eval (S d) (if (b : bool) then yes else no) s2 = Ok (v, s')
  | Binary operator lhs rhs _ _ => operator = js "*" → ∃ v1 s1 v2,
      eval (S d) lhs s = Ok (v1, s1) ∧ eval (S d) rhs s1 = Ok (v2, s')
  | Call name args p _ =>
      eval_call context now headers name p
        (map (λ a, mkOperand (node_start a) (eval (S d) a)) args) s = Ok (v, s')
  | _ => True
  end.
Proof.
  intros Hev.
  assert (Hcheck : ∀ v0 s0, lift_st (check_value (node_start n) v0) s0 = Ok (v, s') → v = v0 ∧ s' = s0).
  { unfold lift_st, check_value. intros v0 s0. repeat case_match; intros; simplify_eq; done. }
  destruct n; try done; cbn [evaluate] in Hev; destruct (256 <? S d) eqn:Hd; try done;
    apply stateR_bind_Ok in Hev as (w & t & Hev & [-> ->]%Hcheck); clear Hcheck.
  - exact Hev.
  - intros ->. change (eval_binary (js "*")) with (λ (p : nat) lo ro, lv ← run lo; rv ← run ro;
      lift_st (apply_binary (js "*") p lv rv)) in Hev. cbn [run] in Hev.
    apply stateR_bind_Ok in Hev as (v1 & s1 & H1 & Hev).
    apply stateR_bind_Ok in Hev as (v2 & s2 & H2 & Hev). exists v1, s1, v2. split; [done|].
    unfold lift_st in Hev. destruct (apply_binary _ _ _ _); by simplify_eq.
  - apply stateR_bind_Ok in Hev as (b & s1 & Hb & Hev).
    unfold as_boolean in Hb. cbn [run] in Hb. apply stateR_bind_Ok in Hb as (v1 & s1' & H1 & Hb).
    assert (s1' = s1 ∧ rv_value v1 = VBoolean b) as [-> Hv1]
      by (destruct (rv_value v1); try done; by injection Hb as -> ->).
    apply stateR_bind_Ok in Hev as (u & s2 & Hm & Hev). exists b, s1, s2.
    split; [by exists v1|]. split; [|by destruct b].
    destruct b; [|left; by injection Hm].
    destruct (find_rule_index _ _) as [i|]; [right; exists i|left]; by injection Hm.
Qed.

Lemma leaf_no_function f n : children n = [] → (∀ args s e, n ≠ Call f args s e) → ¬ uses_function f n.
Proof.
  intros Hch Hn (args & s & e & Hin). destruct (in_tree_inv _ _ Hin) as [Heq|(c & Hc & _)].
  - by eapply Hn.
  - rewrite Hch in Hc. set_solver.
Qed.

Lemma factor_unmarked source rules n :
  (∀ r, r ∈ rules → rule_of source (rr_node r) r) →
  quantity_or_rule rules n = Ok true → ¬ uses_function (js "fixed") n.
Proof.
  intros Hrules. unfold quantity_or_rule. destruct (is_image_count n) eqn:Hi.
  { intros _. destruct n; try done. by apply leaf_no_function. }
  destruct (find_rule rules n) as [r|] eqn:Hr; [|done]. destruct (num_leb _ _); [|done].
  intros (b & Hm & Hb)%bind_Ok. destruct b; [done|]. apply unmarked_pure in Hm as [_ Hm].
  unfold find_rule in Hr. apply find_some in Hr as [Hin Hsame%bool_decide_eq_true].
  destruct (Hrules r ltac:(by apply list_elem_of_In)) as (_ & Hmul & _). rewrite Hsame in Hmul.
  destruct n as [| | | | |c y m p q]; try done. simpl in Hmul.
  destruct y as [[|k| |] | | | | |], m as [[|one| |] | | | | |]; try done.
  destruct (num_eqb _ _); [|done]. injection Hmul as -> _.
  intros (args & s1 & e1 & Hu). destruct (in_tree_inv _ _ Hu) as [[=]|(ch & Hch & Hu')].
  simpl in Hch. assert (uses_function (js "fixed") ch) as Hf by (by exists args, s1, e1).
  apply elem_of_cons in Hch as [->|Hch]; [done|].
  apply elem_of_cons in Hch as [->|Hch]; [by revert Hf; apply leaf_no_function|].
  apply list_elem_of_singleton in Hch as ->. by revert Hf; apply leaf_no_function.
Qed.

Lemma fixed_call_price d amount args p e s v s' :
  node_ok (Call (js "fixed") (amount :: args) p e) → valid_fixed_amount amount = true →
  eval d (Call (js "fixed") (amount :: args) p e) s = Ok (v, s') →
  priced (Call (js "fixed") (amount :: args) p e) s s'.
Proof.
  intros Hok Hv Hev%eval_inv. destruct amount as [[|a| |] i q r| | | | |]; try done. simpl in Hv.
  apply andb_true_iff in Hv as [H1 H2]. right. exists a. split.
  { exists i, q, r, args, p, e. split; [apply in_tree_self|done]. }
  change (eval_call context now headers (js "fixed") p) with eval_fixed in Hev. simpl in Hev.
  unfold eval_fixed in Hev. apply stateR_bind_Ok in Hev as ([a' b] & s1 & Ha & Hev).
  unfold as_numeric in Ha. cbn [run arg] in Ha. apply stateR_bind_Ok in Ha as (v1 & s1' & Hv1 & Ha).
  unfold arg in Hv1. cbn [lookup list_lookup default run from_option] in Hv1. cbn [evaluate] in Hv1.
  destruct (256 <? S (S d)); [done|].
  unfold mbind, stateR_bind, mret, stateR_ret, lift_st, check_value in Hv1.
  cbn [rv_value literal_to_value rv_integer node_start] in Hv1.
  destruct (negb (is_finite a)); [done|]. destruct (_ && _); [done|]. injection Hv1 as <- <-.
  injection Ha as <- _ <-. injection Hev as <- <-. reflexivity.
Qed.

Lemma tier_call_inv d args p e s v s' :
  length args = 2 → eval d (Call (js "tier") args p e) s = Ok (v, s') →
  ∃ label price v1 s1 v2 s2 name, args = [label; price] ∧
    eval (S d) label s = Ok (v1, s1) ∧ eval (S d) price s1 = Ok (v2, s2) ∧ s' = set_tier name s2.
Proof.
  intros Hlen Hev%eval_inv. destruct args as [|label [|price [|]]]; try done.
  change (eval_call context now headers (js "tier") p) with eval_tier in Hev.
  unfold eval_tier in Hev. apply stateR_bind_Ok in Hev as (name & s1 & Hname & Hev).
  apply stateR_bind_Ok in Hev as ([w b] & s2 & Hprice & Hev).
  unfold as_string in Hname. cbn in Hname. apply stateR_bind_Ok in Hname as (v1 & t1 & H1 & Hname).
  assert (t1 = s1) as -> by (destruct (rv_value v1); try done; by injection Hname).
  unfold as_numeric in Hprice. cbn in Hprice. apply stateR_bind_Ok in Hprice as (v2 & t2 & H2 & Hprice).
  assert (t2 = s2) as -> by (destruct (rv_value v2); try done; by injection Hprice).
  exists label, price, v1, s1, v2, s2, name. split_and!; try done. by injection Hev.
Qed.

Lemma tier_priced d price s v s' :
  node_ok price → valid_tier_price (Some price) = Ok true → eval d price s = Ok (v, s') →
  priced price s s'.
Proof.
  intros Hok Hv Hev.
  assert (Hun : (marked ← containsPricingMarker price; Ok (negb marked)) = Ok true → priced price s s').
  { intros (b & Hm & Hb)%bind_Ok. destruct b; [done|]. apply unmarked_pure in Hm as [_ Hm].
    left. by eapply unmarked_price. }
  destruct price; try by apply Hun. unfold valid_tier_price in Hv.
  destruct (name =s js "fixed") eqn:E; [|by apply Hun]. apply str_eqb_eq in E as ->.
  destruct args as [|a args]; [done|]. injection Hv as Hv. by eapply fixed_call_price.
Qed.

Lemma validated_priced source rules n d s v s' :
  (∀ r, r ∈ rules → rule_of source (rr_node r) r) → node_ok n →
  validateFixedPricingTree rules n = Ok tt → eval d n s = Ok (v, s') → priced n s s'.
Proof.
  intros Hrules. revert d s v s'. induction n as [n IH] using node_induction.
  intros d s v s' Hok Hval Hev. rewrite Forall_forall in IH.
  pose proof (node_ok_inv _ Hok) as [(_ & _ & _ & Hvoc) Hch]. rewrite Forall_forall in Hch.
  destruct n as [| |name args p e| |op l r p e|cond y m p e]; try done; simpl in Hval, IH, Hch.
  - destruct (name =s js "tier") eqn:E; [|done]. apply str_eqb_eq in E as ->.
    vm_compute in Hvoc. injection Hvoc as Hlen.
    destruct (tier_call_inv _ _ _ _ _ _ _ (eq_sym Hlen) Hev)
      as (label & price & v1 & s1 & v2 & s2 & name & -> & H1 & H2 & ->). simpl in Hval.
    apply bind_Ok in Hval as (b & Hm & Hval). destruct b; [done|]. apply unmarked_pure in Hm as [_ Hm].
    apply bind_Ok in Hval as (fine & Hfine & Hval).
    destruct fine; [|done].
    assert (Hl := unmarked_price _ _ _ _ _ (Hch label ltac:(set_solver)) Hm H1).
    assert (Hp := tier_priced _ _ _ _ _ (Hch price ltac:(set_solver)) Hfine H2).
    assert (priced (Call (js "tier") [label; price] p e) s1 s2) as Hp'
      by (eapply priced_child; [|exact Hp]; simpl; set_solver).
    unfold priced in *. simpl. by rewrite <- Hl.
  - destruct (op =s js "*") eqn:E; [|done]. apply str_eqb_eq in E as ->.
    destruct (eval_inv _ _ _ _ _ Hev eq_refl) as (v1 & s1 & v2 & H1 & H2).
    apply bind_Ok in Hval as (dr & Hdr & Hval). destruct dr.
    + assert (Hr := unmarked_price _ _ _ _ _ (Hch r ltac:(set_solver)) (factor_unmarked _ _ _ Hrules Hdr) H2).
      assert (Hp := IH l ltac:(set_solver) _ _ _ _ (Hch l ltac:(set_solver)) Hval H1).
      assert (priced (Binary (js "*") l r p e) s s1) as Hp'
        by (eapply priced_child; [|exact Hp]; simpl; set_solver).
      unfold priced in *. by rewrite Hr.
    + apply bind_Ok in Hval as (dl & Hdl & Hval). destruct dl; [|done].
      assert (Hl := unmarked_price _ _ _ _ _ (Hch l ltac:(set_solver)) (factor_unmarked _ _ _ Hrules Hdl) H1).
      assert (Hp := IH r ltac:(set_solver) _ _ _ _ (Hch r ltac:(set_solver)) Hval H2).
      assert (priced (Binary (js "*") l r p e) s1 s') as Hp'
        by (eapply priced_child; [|exact Hp]; simpl; set_solver).
      unfold priced in *. by rewrite <- Hl.
  - apply bind_Ok in Hval as (b & Hm & Hval). destruct b; [done|]. apply unmarked_pure in Hm as [_ Hm].
    apply bind_Ok in Hval as ([] & Hy & Hn).
    destruct (eval_inv _ _ _ _ _ Hev) as (b & s1 & s2 & (v1 & H1 & _) & Hs2 & H2).
    assert (Hc := unmarked_price _ _ _ _ _ (Hch cond ltac:(set_solver)) Hm H1).
    assert (Hc2 : fixedPrice s2 = fixedPrice s) by (destruct Hs2 as [->|[i ->]]; done).
    assert (priced (Conditional cond y m p e) s2 s') as Hp'; [|unfold priced in *; by rewrite <- Hc2].
    destruct b; [eapply (priced_child y)|eapply (priced_child m)]; try (simpl; set_solver);
      (eapply IH; [simpl; set_solver|apply Hch; set_solver|done|exact H2]).
Qed.
End Fixed.

(** A fixed price reported by an evaluation is the literal amount of a call
    [fixed(amount)] of the source, non-negative, and a million times it is
    finite. *)
Theorem fixed_price_is_literal `{Host} clock source c context v st a :
  compile_source source = Ready c →
  run_billing clock c context (c_ast c) = Ok (v, st) →
  fixedPrice st = Some a →
  fixed_literal (c_ast c) a.
Proof.
  intros Hc%compile_source_ready Hrun Ha. pose proof (co_node _ _ Hc) as Hok.
  unfold run_billing in Hrun. apply bind_Ok in Hrun as (hs & _ & Hev).
  assert (fixedPrice st = fixedPrice (initial_state c) ∨ ∃ b, fixed_literal (c_ast c) b ∧ fixedPrice st = Some b) as Hp.
  { destruct (str_in (js "fixed") (c_functions c)) eqn:E.
    - apply str_in_elem, (co_functions _ _ Hc) in E.
      refine (validated_priced _ _ _ _ source (c_requestRules c) _ 0 _ v st _ Hok (co_fixed _ _ Hc E) Hev).
      intros r Hr. by apply (co_rules _ _ Hc).
    - left. eapply unmarked_price; [exact Hok| |exact Hev].
      intros Hu. apply (co_functions _ _ Hc), str_in_elem in Hu. congruence. }
  destruct Hp as [Hp|(b & Hb & Hp)]; rewrite Hp in Ha; simpl in Ha; by simplify_eq.
Qed.

Definition fixed_source : jsstring := js "u('n') == 'x' ? tier('a', 2) : tier('b', fixed(0.5))".
Definition fixed_compiled : CompiledBillingExpression :=
  Eval vm_compute in compiled_of (compile_source fixed_source).
Lemma fixed_compiles : compile_source fixed_source = Ready fixed_compiled.
Proof. vm_compute. reflexivity. Qed.
Definition usage_context : BillingSimulationContext :=
  mkContext None None None (Some [(js "n", VString (js "y"))]) None.
Definition half : num := of_decimal 5 (-1).

Example fixed_price_is_literal_witness : fixed_literal (c_ast fixed_compiled) half.
Proof.
  assert (∃ v st, @run_billing utc_host (Some 0%Z) fixed_compiled usage_context (c_ast fixed_compiled)
    = Ok (v, st) ∧ fixedPrice st = Some half) as (v & st & Hrun & Ha)
    by (do 2 eexists; split; vm_compute; reflexivity).
  exact (fixed_price_is_literal _ _ _ _ v st half fixed_compiles Hrun Ha).
Defined.

(** ** Numbers *)

Lemma check_value_inv p v v' :
  check_value p v = Ok v' → v' = v ∧ ∀ n, rv_value v = VNumber n →
    is_finite n = true ∧ (rv_integer v = true → is_safe_integer n = true).
Proof.
  unfold check_value. destruct (rv_value v) as [| | |n| | |]; try (intros [= <-]; by split).
  destruct (is_finite n) eqn:Hf; [|done]. simpl.
  destruct (rv_integer v && negb (is_safe_integer n)) eqn:Hi; [done|]. intros [= <-].
  split; [done|]. intros n' [= <-]. split; [done|]. intros Hr. rewrite Hr in Hi. simpl in Hi.
  by destruct (is_safe_integer n).
Qed.

(** Every number an evaluation of any expression yields is finite, and one
    marked as an integer is a safe integer. *)
Theorem evaluated_numbers `{Host} compiled context now headers depth node s v s' n :
  evaluate compiled context now headers depth node s = Ok (v, s') →
  rv_value v = VNumber n →
  is_finite n = true ∧ (rv_integer v = true → is_safe_integer n = true).
Proof.
  intros Hev. assert (∃ p w, check_value p w = Ok v) as (p & w & Hv).
  { destruct node; cbn [evaluate] in Hev; destruct (256 <? S depth); try done;
      apply stateR_bind_Ok in Hev as (w & t & _ & Hev); unfold lift_st in Hev;
      destruct (check_value _ w) eqn:E; simplify_eq; eauto. }
  apply check_value_inv in Hv as [-> Hv]. apply Hv.
Qed.

Example evaluated_numbers_witness :
  is_finite half = true.
Proof.
  refine (proj1 (evaluated_numbers (H := utc_host) witness_compiled witness_context None [] 0
    (Literal (LNumber half) false 0 1) (initial_state witness_compiled) (value (VNumber half))
    (initial_state witness_compiled) half _ eq_refl)).
  vm_compute. reflexivity.
Defined.

(** C39. A successful evaluation reports a finite, non-negative cost; every given
    token count is a finite, non-negative number. *)
Theorem successful_evaluation `{Host} clock source context r :
  evaluateBillingExpression clock source context = Success r →
  is_finite (cost r) = true ∧ num_leb zero (cost r) = true ∧
  (∀ name v, (name, v) ∈ default [] (tokens context) →
     ∃ n, v = VNumber n ∧ is_finite n = true ∧ num_ltb n zero = false).
Proof.
  unfold evaluateBillingExpression, evaluate_compiled.
  destruct (compile_source source) as [c|]; [|done].
  destruct (evaluate_success clock c context) as [r'|] eqn:Hr; [|done]. intros [= <-].
  unfold evaluate_success in Hr. apply bind_Ok in Hr as ([] & Ht & Hr).
  apply bind_Ok in Hr as ([v st] & _ & Hr).
  destruct (rv_value v) as [| | |n| | |]; try done.
  destruct (negb (is_finite n) || num_ltb n zero) eqn:E; [done|]. injection Hr as <-. simpl.
  apply orb_false_iff in E as [Hf Hn]. apply negb_false_iff in Hf. split_and!; [done| |].
  - destruct n as [[]|[]| |[] m e]; done.
  - clear -Ht. induction (default [] (tokens context)) as [|[k w] l IH]; [set_solver|].
    simpl in Ht. destruct w as [| | |n| | |]; try done.
    destruct (negb (is_finite n) || num_ltb n zero) eqn:E; [done|].
    apply orb_false_iff in E as [Hf%negb_false_iff Hn].
    intros name v [[= -> ->]|Hin]%elem_of_cons; [by exists n|by eapply IH].
Qed.

Example successful_evaluation_witness :
  ∃ r, @evaluateBillingExpression utc_host (Some 0%Z) witness_source witness_context = Success r ∧
    is_finite (cost r) = true.
Proof.
  assert (∃ r, @evaluateBillingExpression utc_host (Some 0%Z) witness_source witness_context = Success r)
    as [r Hr] by (eexists; vm_compute; reflexivity).
  exists r. split; [exact Hr|]. exact (proj1 (successful_evaluation _ _ _ r Hr)).
Defined.

(** ** Types *)

Definition has_type (t : ExpressionType) (v : jsval) : Prop :=
  match t, v with
  | TDynamic, _ | TNumber, VNumber _ | TString, VString _ | TBoolean, VBoolean _ | TNil, VNull => True
  | _, _ => False
  end.

(** The value has its static type; [+] on operands of dynamic type is typed as
    a number and may still concatenate strings. *)
Definition well_typed (ty : ExpressionNode → option ExpressionType) (n : ExpressionNode) (v : jsval) : Prop :=
  ∃ t, ty n = Some t ∧
    (has_type t v ∨ (t = TNumber ∧ has_type TString v ∧ ∃ m, in_tree m n ∧ ty m = Some TDynamic)).

Lemma apply_binary_comparison op p a b v :
  apply_binary op p a b = Ok v → str_in op comparisons = true → has_type TBoolean (rv_value v).
Proof.
  intros Hv Hop. apply str_in_elem in Hop. unfold comparisons in Hop. simpl in Hop.
  repeat (apply elem_of_cons in Hop as [->|Hop]; [
    unfold apply_binary in Hv; cbn in Hv; destruct (rv_value a), (rv_value b); simpl in Hv;
      by simplify_eq|]).
  set_solver.
Qed.

Lemma apply_binary_arithmetic op p a b v :
  apply_binary op p a b = Ok v → own PRECEDENCE op ≠ None → str_in op comparisons = false →
  (has_type TNumber (rv_value v) ∧ has_type TNumber (rv_value a) ∧ has_type TNumber (rv_value b)) ∨
  (has_type TString (rv_value v) ∧ has_type TString (rv_value a) ∧ has_type TString (rv_value b) ∧ op = js "+").
Proof.
  intros Hv _ Hop. unfold comparisons in Hop. simpl in Hop.
  repeat (apply orb_false_iff in Hop as [?%str_eqb_neq Hop]).
  unfold apply_binary in Hv.
  repeat match goal with
  | H : op ≠ ?s |- _ => apply str_eqb_neq in H; rewrite H in Hv; clear H
  end. simpl in Hv.
  destruct (rv_value a), (rv_value b); try done.
  - left. repeat (case_match; simplify_eq; try done).
  - right. destruct (op =s js "+") eqn:E; [|done]. apply str_eqb_eq in E. by simplify_eq.
Qed.

Section Typed.
Context `{Host} (compiled : CompiledBillingExpression) (context : BillingSimulationContext)
  (now : Date) (headers : list (jsstring * jsstring)).

Lemma eval_call_type name p args s v s' :
  eval_call context now headers name p args s = Ok (v, s') →
  if name =s js "header" then has_type TString (rv_value v)
  else if name =s js "has" then has_type TBoolean (rv_value v)
  else if str_in name [js "param"; js "u"] then True
  else has_type TNumber (rv_value v).
Proof.
  unfold eval_call. intros Hev.
  repeat match type of Hev with
  | (if name =s ?f then _ else _) _ = _ =>
      let E := fresh "E" in destruct (name =s f) eqn:E;
        [apply str_eqb_eq in E; subst name|]
  end.
  all: try (simpl; exact I).
  all: try (destruct (negb _); [by destruct s|]).
  all: cbn; unfold eval_fixed, eval_tier, eval_header, eval_has, eval_min_max, eval_rounding, eval_time in Hev.
  all: repeat match type of Hev with
  | (_ ≫= _) _ = Ok _ => apply stateR_bind_Ok in Hev as (?a & ?t & _ & Hev)
  | (let '_ := ?x in _) _ = Ok _ => destruct x
  | (if ?b then _ else _) _ = Ok _ => destruct b
  | (match ?b with _ => _ end) _ = Ok _ => destruct b
  end; try done; try (injection Hev as <- <-; exact I).
  all: injection Hev as <- <-; simpl;
    repeat match goal with H : (_ =s _) = false |- _ => rewrite H end; exact I.
Qed.

Lemma eval_logical op p lo ro s v s' :
  str_in op [js "&&"; js "||"] = true → eval_binary op p lo ro s = Ok (v, s') →
  has_type TBoolean (rv_value v).
Proof.
  intros Hop Hev. apply str_in_elem in Hop.
  assert (op = js "&&" ∨ op = js "||") as [-> | ->] by set_solver; unfold eval_binary in Hev;
    cbn [str_eqb] in Hev.
  - change (js "&&" =s js "&&") with true in Hev. cbn match in Hev.
    apply stateR_bind_Ok in Hev as (b & t & _ & Hev). destruct b; [|by injection Hev as <- <-].
    apply stateR_bind_Ok in Hev as (b' & t' & _ & Hev). by injection Hev as <- <-.
  - change (js "||" =s js "&&") with false in Hev. change (js "||" =s js "||") with true in Hev.
    cbn match in Hev.
    apply stateR_bind_Ok in Hev as (b & t & _ & Hev). destruct b; [by injection Hev as <- <-|].
    apply stateR_bind_Ok in Hev as (b' & t' & _ & Hev). by injection Hev as <- <-.
Qed.

Lemma eval_strict op p lo ro s v s' :
  str_in op [js "&&"; js "||"] = false → eval_binary op p lo ro s = Ok (v, s') →
  ∃ a s1 b s2, run lo s = Ok (a, s1) ∧ run ro s1 = Ok (b, s2) ∧ apply_binary op p a b = Ok v.
Proof.
  intros Hop Hev. simpl in Hop. apply orb_false_iff in Hop as [H1 Hop].
  apply orb_false_iff in Hop as [H2 _]. unfold eval_binary in Hev. rewrite H1, H2 in Hev.
  apply stateR_bind_Ok in Hev as (a & s1 & Ha & Hev).
  apply stateR_bind_Ok in Hev as (b & s2 & Hb & Hev).
  exists a, s1, b, s2. split_and!; [done..|]. unfold lift_st in Hev.
  destruct (apply_binary _ _ _ _); by simplify_eq.
Qed.

Lemma requireType_inv get n t :
  requireType get (Some n) t = Ok tt → get n = Some TDynamic ∨ get n = Some t.
Proof.
  simpl. destruct (get n) as [[]|]; try (by left); case_bool_decide; try done; by right.
Qed.

(** An operand whose type was required to be a number is a string only when
    something under it is dynamic. *)
Lemma string_operand_dynamic ty n c v :
  c ∈ children n → requireType ty (Some c) TNumber = Ok tt → well_typed ty c v →
  has_type TString v → ∃ m, in_tree m n ∧ ty m = Some TDynamic.
Proof.
  intros Hc Hreq (t & Ht & Hv) Hs.
  assert (Hd : ∀ m, in_tree m c → ty m = Some TDynamic → ∃ m, in_tree m n ∧ ty m = Some TDynamic).
  { intros m Hm Hty. exists m. split; [by eapply in_tree_child|done]. }
  destruct (requireType_inv _ _ _ Hreq) as [Hy|Hy]; [by apply (Hd c); [apply in_tree_self|]|].
  rewrite Hy in Ht. injection Ht as <-. destruct Hv as [Hv|(_ & _ & m & Hm & Hty)]; [|by apply (Hd m)].
  by destruct v.
Qed.

Lemma well_typed_string ty n v : ty n = Some TString → well_typed ty n v → has_type TString v.
Proof. intros Hn (t & Ht & [Hv|[-> _]]); [|congruence]. rewrite Hn in Ht. by injection Ht as <-. Qed.

Lemma well_typed_intro (ty : ExpressionNode → option ExpressionType) n t v :
  ty n = Some t → has_type t v → well_typed ty n v.
Proof. intros. exists t. auto. Qed.

Lemma binary_well_typed ty op lhs rhs p e t v a b :
  let n := Binary op lhs rhs p e in
  is_Some (own PRECEDENCE op) → ty n = Some t → node_type ty n = Ok t →
  well_typed ty lhs (rv_value a) → well_typed ty rhs (rv_value b) →
  str_in op [js "&&"; js "||"] = false → apply_binary op p a b = Ok v →
  well_typed ty n (rv_value v).
Proof.
  intros n Hop Hty Hnt Ha Hb Hlog Hv. cbn [node_type n] in Hnt. rewrite Hlog in Hnt.
  destruct (str_in op comparisons) eqn:Hcmp.
  { injection Hnt as <-. eapply well_typed_intro; [exact Hty|]. by eapply apply_binary_comparison. }
  assert (own PRECEDENCE op ≠ None) as Hne by (by intros Hn; rewrite Hn in Hop; destruct Hop).
  assert (Hres := apply_binary_arithmetic _ _ _ _ _ Hv Hne Hcmp).
  destruct (_ && _ && _) eqn:Hstr.
  - injection Hnt as <-. apply andb_true_iff in Hstr as [[_ Hl%bool_decide_eq_true]%andb_true_iff _].
    eapply well_typed_intro; [exact Hty|].
    apply (well_typed_string ty lhs _ Hl) in Ha.
    destruct Hres as [(_ & Hn & _)|(Hs & _)]; [|done]. by destruct (rv_value a).
  - apply bind_Ok in Hnt as ([] & Hrl & Hnt). apply bind_Ok in Hnt as ([] & Hrr & Hnt).
    injection Hnt as <-. exists TNumber. split; [done|].
    destruct Hres as [(Hn & _)|(Hs & Hsa & _)]; [by left|]. right. split_and!; [done..|].
    eapply (string_operand_dynamic ty n lhs); [simpl; set_solver|done|exact Ha|exact Hsa].
Qed.

Lemma call_well_typed ty name args p q t s v s' :
  let n := Call name args p q in
  ty n = Some t → node_type ty n = Ok t →
  eval_call context now headers name p
    (map (λ a, mkOperand (node_start a) (evaluate compiled context now headers 0 a)) args) s = Ok (v, s') ∨
  (∃ d, eval_call context now headers name p
    (map (λ a, mkOperand (node_start a) (evaluate compiled context now headers d a)) args) s = Ok (v, s')) →
  well_typed ty n (rv_value v).
Proof.
  intros n Hty Hnt Hev. assert (Hv : ∃ args', eval_call context now headers name p args' s = Ok (v, s'))
    by (destruct Hev as [Hev|[d Hev]]; eauto). destruct Hv as [args' Hv].
  apply eval_call_type in Hv. cbn [node_type n] in Hnt.
  apply bind_Ok in Hnt as ([] & _ & Hnt). eapply well_typed_intro; [exact Hty|].
  destruct (name =s js "header") eqn:E1; [by injection Hnt as <-|].
  destruct (name =s js "has") eqn:E2; [by apply bind_Ok in Hnt as ([] & _ & [= <-])|].
  destruct (name =s js "tier") eqn:E3.
  { apply str_eqb_eq in E3 as ->. apply bind_Ok in Hnt as ([] & _ & Hnt).
    by apply bind_Ok in Hnt as ([] & _ & [= <-]). }
  destruct (str_in name TIME_FUNCTIONS) eqn:E4.
  { injection Hnt as <-. destruct (str_in name [_; _]) eqn:E5; [|done]. exfalso.
    apply str_in_elem in E4, E5. assert (name = js "param" ∨ name = js "u") as [-> | ->] by set_solver;
      apply str_in_elem in E4; vm_compute in E4; discriminate. }
  destruct (str_in name numeric_functions) eqn:E5; [|injection Hnt as <-; by destruct (rv_value v)].
  apply bind_Ok in Hnt as ([] & _ & [= <-]). destruct (str_in name [_; _]) eqn:E6; [|done]. exfalso.
  apply str_in_elem in E5, E6. assert (name = js "param" ∨ name = js "u") as [-> | ->] by set_solver;
    apply str_in_elem in E5; vm_compute in E5; discriminate.
Qed.

Lemma check_value_same p w v : check_value p w = Ok v → v = w.
Proof. intros Hc. apply check_value_inv in Hc as [-> _]. done. Qed.

Lemma well_typed_branch ty cond yes no c p q t v :
  let n := Conditional cond yes no p q in
  ty n = Some t → node_type ty n = Ok t → c = yes ∨ c = no →
  well_typed ty c v → well_typed ty n v.
Proof.
  intros n Hty Hnt Hc (tc & Htc & Hv). cbn [node_type n] in Hnt.
  apply bind_Ok in Hnt as ([] & _ & [= Ht]). exists t. split; [done|].
  case_bool_decide as Heq.
  - assert (tc = t) as ->.
    { destruct Hc as [-> | ->]; [|rewrite <- Heq in Htc]; rewrite Htc in Ht; exact Ht. }
    destruct Hv as [Hv|(-> & Hs & m & Hm & Hty')]; [by left|]. right. split_and!; [done..|].
    exists m. split; [|done]. eapply in_tree_child; [|exact Hm]. subst n. simpl. set_solver.
  - subst t. by left.
Qed.

Lemma evaluate_typed ty root n d s v s' :
  typing ty root → node_ok n → in_tree n root →
  evaluate compiled context now headers d n s = Ok (v, s') → well_typed ty n (rv_value v).
Proof.
  intros Hty. revert d s v s'. induction n as [n IH] using node_induction.
  intros d s v s' Hok Hin Hev. rewrite Forall_forall in IH.
  destruct (node_ok_inv _ Hok) as [(_ & _ & _ & Hvoc) Hch]. rewrite Forall_forall in Hch.
  assert (Hsub : ∀ c, c ∈ children n → node_ok c ∧ in_tree c root).
  { intros c Hc. split; [by apply Hch|]. eapply in_tree_trans; [|exact Hin].
    eapply in_tree_child; [exact Hc|apply in_tree_self]. }
  destruct (Hty n Hin) as (t & Ht & Hnt).
  destruct n as [lit i p e|x p e|name args p e|op x p e|op l r p e|cond y m p e];
    cbn [evaluate] in Hev; destruct (256 <? S d) eqn:Hd; try done;
    apply stateR_bind_Ok in Hev as (w & s1 & Hev & Hchk); unfold lift_st in Hchk;
    destruct (check_value _ w) as [v0|] eqn:Hcv; try done;
    injection Hchk as <- <-; apply check_value_same in Hcv as ->; simpl in Hsub.
  - injection Hev as <- <-. eapply well_typed_intro; [exact Ht|].
    by destruct lit; injection Hnt as <-.
  - eapply well_typed_intro; [exact Ht|]. injection Hnt as <-. unfold lift_st in Hev.
    destruct (eval_variable _ _ _) as [v1|] eqn:E; [|done]. injection Hev as <- <-.
    unfold eval_variable in E. repeat (case_match; simplify_eq); done.
  - eapply call_well_typed; [exact Ht|exact Hnt|]. right. eauto.
  - eapply well_typed_intro; [exact Ht|]. cbn [node_type] in Hnt.
    apply bind_Ok in Hnt as ([] & _ & [= <-]). unfold eval_unary in Hev.
    destruct (op =s js "!"); apply stateR_bind_Ok in Hev as (b & t1 & _ & Hev);
      [|destruct b]; by injection Hev as <- <-.
  - destruct (str_in op [js "&&"; js "||"]) eqn:Hlog.
    + eapply well_typed_intro; [exact Ht|]. cbn [node_type] in Hnt. rewrite Hlog in Hnt.
      apply bind_Ok in Hnt as ([] & _ & Hnt). apply bind_Ok in Hnt as ([] & _ & [= <-]).
      by eapply eval_logical.
    + destruct (eval_strict _ _ _ _ _ _ _ Hlog Hev) as (a & t1 & b & t2 & Ha & Hb & Hab).
      cbn [run] in Ha, Hb. destruct (Hsub l), (Hsub r); [set_solver..|].
      eapply binary_well_typed; [exact Hvoc|exact Ht|exact Hnt| | |exact Hlog|exact Hab];
        (eapply IH; [simpl; set_solver|done|done|eassumption]).
  - apply stateR_bind_Ok in Hev as (b & t1 & _ & Hev). apply stateR_bind_Ok in Hev as (u & t2 & _ & Hev).
    destruct (Hsub y), (Hsub m); [set_solver..|].
    eapply (well_typed_branch ty cond y m (if b then y else m)); [exact Ht|exact Hnt|by destruct b; auto|].
    destruct b; (eapply IH; [simpl; set_solver|done|done|exact Hev]).
Qed.
End Typed.

(** C6. The static types are sound up to the addition of dynamic values: there is
    one typing, computed by the type check, such that any part of a compiled
    expression evaluates to a value of its type, with one exception: a part typed
    as a number may evaluate to a string, but only when something under it has
    no static type ([joined_texts]). *)
Theorem type_soundness `{Host} source c :
  compile_source source = Ready c →
  ∃ ty, typing ty (c_ast c) ∧
    ∀ context clock n v st, in_tree n (c_ast c) →
      run_billing clock c context n = Ok (v, st) → well_typed ty n (rv_value v).
Proof.
  intros Hc%compile_source_ready. destruct (co_typing _ _ Hc) as [ty Hty]. exists ty. split; [done|].
  intros context clock n v st Hin Hrun. unfold run_billing in Hrun.
  apply bind_Ok in Hrun as (hs & _ & Hev).
  eapply evaluate_typed; [exact Hty| |exact Hin|exact Hev].
  eapply node_ok_in_tree; [|exact Hin]. by destruct Hc.
Qed.

Example type_soundness_witness :
  ∃ ty, typing ty (c_ast witness_compiled) ∧ well_typed ty (c_ast witness_compiled) (rv_value witness_run.1).
Proof.
  destruct (type_soundness (H := utc_host) _ _ witness_compiles) as (ty & Hty & Hsound).
  exists ty. split; [exact Hty|]. exact (Hsound _ _ _ _ _ (in_tree_self _) witness_runs).
Defined.

(** The exception: the type check takes the sum of two parameters for a number,
    and the interpreter joins them when they are texts. *)
Definition joined_source : jsstring := js "param('a') + param('b')".
Definition joined_compiled : CompiledBillingExpression :=
  Eval vm_compute in compiled_of (compile_source joined_source).
Definition joined_context : BillingSimulationContext :=
  mkContext None None (Some (mkRequest (VObject [(js "a", VString (js "x")); (js "b", VString (js "y"))]) [])) None None.
Example joined_texts :
  compile_source joined_source = Ready joined_compiled ∧
  (m ← checkExpressionTypes (c_ast joined_compiled); Ok (head m)) = Ok (Some (c_ast joined_compiled, TNumber)) ∧
  (r ← run_billing (H := utc_host) (Some 0%Z) joined_compiled joined_context (c_ast joined_compiled); Ok (rv_value r.1)) = Ok (VString (js "xy")).
Proof. vm_compute. split_and!; reflexivity. Qed.

(** * Requests read by the interpreter *)

(** ** Code-unit order *)
Lemma str_ltb_irrefl a : str_ltb a a = false.
Proof. induction a as [|x a IH]; simpl; [done|]. by rewrite N.ltb_irrefl, N.eqb_refl, IH. Qed.

Lemma str_ltb_trans a b c : str_ltb a b = true → str_ltb b c = true → str_ltb a c = true.
Proof.
  revert b c. induction a as [|x a IH]; intros [|y b] [|z c]; simpl; try done.
  rewrite !orb_true_iff, !andb_true_iff, !N.ltb_lt, !N.eqb_eq.
  intros [H1|[-> H1]] [H2|[-> H2]]; [left; lia..|right]. eauto.
Qed.

Lemma str_ltb_total a b : a ≠ b → str_ltb a b = negb (str_ltb b a).
Proof.
  revert b. induction a as [|x a IH]; intros [|y b] Hne; simpl; try done.
  destruct (N.lt_trichotomy x y) as [Hlt|[->|Hlt]].
  - rewrite (proj2 (N.ltb_lt x y)), (proj2 (N.ltb_ge y x)), (proj2 (N.eqb_neq y x)) by lia. done.
  - rewrite N.ltb_irrefl, N.eqb_refl. simpl. apply IH. congruence.
  - rewrite (proj2 (N.ltb_lt y x)), (proj2 (N.ltb_ge x y)), (proj2 (N.eqb_neq x y)) by lia. done.
Qed.

Section Sort.
Context {A : Type}.
Implicit Types (x y z : jsstring * A) (l : list (jsstring * A)).

Lemma insert_entry_comm x y l :
  x.1 ≠ y.1 → insert_entry x (insert_entry y l) = insert_entry y (insert_entry x l).
Proof.
  intros Hne. pose proof (str_ltb_total _ _ Hne) as Hxy.
  induction l as [|z l IH]; simpl.
  - rewrite Hxy. by destruct (str_ltb y.1 x.1).
  - destruct (str_ltb z.1 y.1) eqn:Hzy; destruct (str_ltb z.1 x.1) eqn:Hzx; simpl;
      rewrite ?Hzy, ?Hzx.
    + by rewrite IH.
    + destruct (str_ltb x.1 y.1) eqn:E; [by rewrite ?Hzy|].
      destruct (str_ltb y.1 x.1) eqn:E'; [|by rewrite Hxy in E].
      by rewrite (str_ltb_trans _ _ _ Hzy E') in Hzx.
    + destruct (str_ltb y.1 x.1) eqn:E; [by rewrite ?Hzx|].
      by rewrite (str_ltb_trans _ _ _ Hzx Hxy) in Hzy.
    + rewrite Hxy. by destruct (str_ltb y.1 x.1); simpl; rewrite ?Hzx, ?Hzy.
Qed.

(** Entries with distinct keys sort to the same list in whatever order they
    come. *)
Lemma sort_entries_perm l l' :
  l ≡ₚ l' → NoDup (map fst l) → sort_entries l = sort_entries l'.
Proof.
  intros Hp. induction Hp as [|x l l' Hp IH|x y l|l1 l2 l3 H1 IH1 H2 IH2]; intros Hnd.
  - done.
  - unfold sort_entries in *. simpl in *. rewrite IH; [done|]. by apply NoDup_cons in Hnd as [_ ?].
  - unfold sort_entries. simpl. apply insert_entry_comm. simpl in Hnd.
    apply NoDup_cons in Hnd as [Hx _]. set_solver.
  - rewrite IH1, IH2; [done| |done]. assert (map fst l1 ≡ₚ map fst l2) as <- by (by apply Permutation_map). done.
Qed.
End Sort.

(** ** Equal up to the order of keys *)
Fixpoint same_value (v w : jsval) {struct v} : Prop :=
  match v with
  | VArray l => ∃ l', w = VArray l' ∧
      (fix items l l' := match l, l' with
       | [], [] => True
       | v :: l, w :: l' => same_value v w ∧ items l l'
       | _, _ => False
       end) l l'
  | VObject l => NoDup (map fst l) ∧ ∃ l' m, w = VObject l' ∧ m ≡ₚ l' ∧
      (fix entries l m := match l, m with
       | [], [] => True
       | (k, v) :: l, (k', w) :: m => k = k' ∧ same_value v w ∧ entries l m
       | _, _ => False
       end) l m
  | _ => w = v
  end.

(** The text that [has] searches does not depend on the order in which an
    object of the request lists its properties, at any depth. *)
Theorem billingString_key_order v w depth :
  same_value v w → billingString v depth = billingString w depth.
Proof.
  revert w depth. induction v as [| |b|n|s|l IH|l IH] using jsval_induction; intros w depth; simpl;
    try (by intros ->).
  - intros (l' & -> & Hl). cbn [billingString]. destruct (128 <? depth); [done|].
    assert (map (λ i, billingString i (depth + 1)) l = map (λ i, billingString i (depth + 1)) l') as ->;
      [|done].
    revert l' Hl. induction IH as [|v l Hv _ IHl]; intros [|w l'] Hl; try done.
    destruct Hl as [Hw Hl]. simpl. by rewrite (Hv w), (IHl l').
  - intros [Hnd (l' & m & -> & Hp & Hl)]. cbn [billingString]. destruct (128 <? depth); [done|].
    set (pr := λ '(key, item), (key, billingString item (depth + 1))).
    assert (map pr l = map pr m) as Heq.
    { clear Hnd Hp. revert m Hl. induction IH as [|[k v] l Hv _ IHl]; intros [|[k' w] m] Hl; try done.
      destruct Hl as (<- & Hw & Hl). simpl in *. f_equal; [by rewrite (Hv w)|by apply IHl]. }
    rewrite Heq. rewrite (sort_entries_perm (map pr m) (map pr l')); [done|by apply Permutation_map|].
    rewrite <- Heq, map_map. assert (map (λ x, (pr x).1) l = map fst l) as ->; [|done].
    apply map_ext. by intros [k v].
Qed.

Example billingString_key_order_witness :
  billingString (VObject [(js "b", VNull); (js "a", VBoolean true)]) 0 =
  billingString (VObject [(js "a", VBoolean true); (js "b", VNull)]) 0.
Proof.
  apply billingString_key_order. simpl. split.
  - apply NoDup_cons. split; [rewrite list_elem_of_singleton; vm_compute; discriminate|apply NoDup_singleton].
  - eexists _, [_; _]. split; [reflexivity|]. split; [apply Permutation_swap|]. by split_and!.
Defined.

(** ** Paths *)

(** A key as a path: every character that the path syntax reserves is escaped. *)
Definition reserved (c : code_unit) : bool :=
  (c =? 92)%N || (c =? 46)%N || existsb (N.eqb c) (js "*?[]()|@!").
Definition escape_key (key : jsstring) : jsstring :=
  flat_map (λ c, if reserved c then [92%N; c] else [c]) key.

Lemma split_path_key path key rest parts part :
  split_path path (escape_key key ++ rest) parts part = split_path path rest parts (part ++ key).
Proof.
  revert part. induction key as [|c key IH]; intros part; [cbn; by rewrite app_nil_r|].
  change (escape_key (c :: key)) with ((if reserved c then [92%N; c] else [c]) ++ escape_key key).
  destruct (reserved c) eqn:E; cbn [app split_path].
  - change ((92 =? 92)%N) with true. cbn match. by rewrite IH, <- app_assoc.
  - unfold reserved in E. apply orb_false_iff in E as [[-> ->]%orb_false_iff ->].
    by rewrite IH, <- app_assoc.
Qed.

Lemma split_path_join path keys parts part :
  keys ≠ [] →
  split_path path (join (js ".") (map escape_key keys)) parts part =
    Ok (parts ++ match keys with k :: ks => (part ++ k) :: ks | [] => [] end).
Proof.
  revert parts part. induction keys as [|k keys IH]; intros parts part Hne; [done|].
  destruct keys as [|k' keys].
  - simpl. rewrite <- (app_nil_r (escape_key k)), split_path_key. done.
  - cbn [map join]. rewrite split_path_key. change (js "." ++ ?x) with (46%N :: x). cbn [split_path].
    change ((46 =? 92)%N) with false. change ((46 =? 46)%N) with true. cbn match.
    change (escape_key k' :: map escape_key keys) with (map escape_key (k' :: keys)).
    rewrite IH by done. by rewrite <- app_assoc.
Qed.

(** Nested lookup of own properties. *)
Fixpoint own_path (v : jsval) (keys : list jsstring) : option jsval :=
  match keys with
  | [] => Some v
  | k :: keys => match v with
                 | VObject l => own l k ≫= λ w, own_path w keys
                 | _ => None
                 end
  end.

Lemma walk_own_path path keys v w :
  own_path v keys = Some w → walk_path path keys v = Ok (if is_nullish w then VNull else w).
Proof.
  revert v. induction keys as [|k keys IH]; intros v; simpl; [by intros [= ->]|].
  destruct v; try done. destruct (own entries k); [apply IH|done].
Qed.

(** [param] reaches every nested own property of the request body: the path
    made of its keys, escaped and joined with dots, reads the property, unless
    the path is empty or has outer white space, which is trimmed first. *)
Theorem readRequestPath_own body keys w :
  keys ≠ [] →
  let path := join (js ".") (map escape_key keys) in
  path ≠ [] → trim path = path →
  own_path body keys = Some w →
  readRequestPath body path = Ok (if is_nullish w then VNull else w).
Proof.
  intros Hne path Hp Ht Hw. unfold readRequestPath. rewrite Ht.
  destruct (path =s []) eqn:E; [by apply str_eqb_eq in E|].
  assert (Hs := split_path_join path keys [] [] Hne). fold path in Hs. rewrite Hs. destruct keys as [|k ks]; [done|]. simpl.
  by apply (walk_own_path path (k :: ks)).
Qed.

Example readRequestPath_own_witness :
  readRequestPath (VObject [(js "a.b", VObject [(js "c*", VBoolean true)])]) (js "a\.b.c\*")
  = Ok (VBoolean true).
Proof.
  exact (readRequestPath_own (VObject [(js "a.b", VObject [(js "c*", VBoolean true)])])
    [js "a.b"; js "c*"] (VBoolean true) ltac:(discriminate) ltac:(vm_compute; discriminate)
    ltac:(vm_compute; reflexivity) ltac:(vm_compute; reflexivity)).
Defined.
