(* ===== verification/Structure.v ===== *)
(** * billing-expression/structure.ts

    Structural helpers on source text: splitting at an operator outside
    brackets and quotes, and removing outer parentheses. *)

From S2P Require Import Prelude JsNumber JsText.

(** ** splitExpressionAtTopLevel *)

Definition opening (c : code_unit) : bool := ((c =? 40) || (c =? 91) || (c =? 123))%N.
Definition closing (c : code_unit) : bool := ((c =? 41) || (c =? 93) || (c =? 125))%N.
Definition is_quote (c : code_unit) : bool := ((c =? 34) || (c =? 39))%N.

Definition adjust (depth : Z) (char : code_unit) : Z :=
  let depth := if opening char then (depth + 1)%Z else depth in
  if closing char then (depth - 1)%Z else depth.

(** The [for] loop; [rest] is [source.slice(i)], [skip] the number of further
    characters an iteration has moved [i] over, and [None] the early return at
    a top-level question mark. Operators are not empty. *)
Fixpoint split_loop (source operator rest : jsstring) (i skip start : nat) (depth : Z)
    (quote : option code_unit) (parts : list jsstring) : option (list jsstring) :=
  match rest with
  | [] => Some (parts ++ [trim (drop start source)])
  | char :: rest' =>
      match skip with
      | S skip => split_loop source operator rest' (i + 1) skip start depth quote parts
      | O =>
          match quote with
          | Some q =>
              if (char =? 92)%N then
                split_loop source operator rest' (i + 1) 1 start depth quote parts
              else
                split_loop source operator rest' (i + 1) 0 start depth
                  (if (char =? q)%N then None else quote) parts
          | None =>
              if is_quote char then
                split_loop source operator rest' (i + 1) 0 start depth (Some char) parts
              else
                let depth := adjust depth char in
                if negb (depth =? 0)%Z then
                  split_loop source operator rest' (i + 1) 0 start depth None parts
                else if (char =? 63)%N then None
                else if starts_with operator rest then
                  split_loop source operator rest' (i + 1) (length operator - 1)
                    (i + length operator) depth None (parts ++ [trim (slice source start i)])
                else split_loop source operator rest' (i + 1) 0 start depth None parts
          end
      end
  end.

Definition nonempty (s : jsstring) : bool := negb (s =s []).

Definition splitExpressionAtTopLevel (source operator : jsstring) : list jsstring :=
  match split_loop source operator source 0 0 0 0%Z None [] with
  | None => [trim source]
  | Some parts => List.filter nonempty parts
  end.

(** ** unwrapExpressionParens *)

(** The inner [for] loop: [closesAtEnd]. *)
Fixpoint paren_loop (rest : jsstring) (skip : nat) (depth : Z) (quote : option code_unit) : bool :=
  match rest with
  | [] => false
  | char :: rest =>
      match skip with
      | S skip => paren_loop rest skip depth quote
      | O =>
          match quote with
          | Some q =>
              if (char =? 92)%N then paren_loop rest 1 depth quote
              else paren_loop rest 0 depth (if (char =? q)%N then None else quote)
          | None =>
              if is_quote char then paren_loop rest 0 depth (Some char)
              else
                let depth := if (char =? 40)%N then (depth + 1)%Z else depth in
                let depth := if (char =? 41)%N then (depth - 1)%Z else depth in
                if (depth =? 0)%Z then match rest with [] => true | _ => false end
                else paren_loop rest 0 depth None
          end
      end
  end.

(** The condition of the [while] loop and its [break]. *)
Definition wrapped (expression : jsstring) : bool :=
  starts_with (js "(") expression && ends_with (js ")") expression
  && paren_loop expression 0 0%Z None.

Fixpoint unwrap_loop (fuel : nat) (expression : jsstring) : jsstring :=
  match fuel with
  | O => expression
  | S fuel =>
      if wrapped expression then
        unwrap_loop fuel (trim (slice expression 1 (length expression - 1)))
      else expression
  end.

(** Every iteration removes two characters, so the length is enough fuel. *)
Definition unwrapExpressionParens (source : jsstring) : jsstring :=
  let expression := trim source in unwrap_loop (length expression) expression.

(** ** Splitting loses nothing but the operators and outer white space *)

Section Split.
Context (source operator : jsstring) (Hop : operator ≠ []).

Lemma join_snoc l x : l ≠ [] → join operator (l ++ [x]) = join operator l ++ operator ++ x.
Proof using Type.
  induction l as [|a l IH]; [done|]. intros _. destruct l as [|b l]; [done|].
  change (join operator ((a :: b :: l) ++ [x])) with (a ++ operator ++ join operator ((b :: l) ++ [x])).
  rewrite IH by done. change (join operator (a :: b :: l)) with (a ++ operator ++ join operator (b :: l)).
  by rewrite <- !app_assoc.
Qed.

(** What has been read: the pieces cut so far, joined, and an operator. *)
Definition read_before (pieces : list jsstring) (start : nat) : Prop :=
  take start source = match pieces with [] => [] | _ => join operator pieces ++ operator end.

Lemma split_loop_pieces rest i skip start depth quote pieces parts :
  drop i source = rest → start ≤ i + skip → i + skip ≤ length source →
  read_before pieces start →
  split_loop source operator rest i skip start depth quote (map trim pieces) = Some parts →
  ∃ all, parts = map trim all ∧ source = join operator all.
Proof using Hop.
  revert i skip start depth quote pieces.
  induction rest as [|char rest IH]; intros i skip start depth quote pieces Hdrop Hs Hlen Hread H;
    cbn [split_loop] in H.
  { injection H as <-. exists (pieces ++ [drop start source]). rewrite map_app. split; [done|].
    rewrite <- (take_drop start source) at 1. rewrite Hread.
    destruct pieces as [|p ps]; [done|]. rewrite join_snoc by done. by rewrite <- app_assoc. }
  assert (Hnext : drop (i + 1) source = rest).
  { pose proof (f_equal (drop 1) Hdrop) as Hd. rewrite drop_drop in Hd. exact Hd. }
  assert (Hi : i < length source).
  { destruct (decide (i < length source)); [done|]. by rewrite drop_ge in Hdrop by lia. }
  destruct skip as [|skip]; [|eapply IH; [exact Hnext| | |exact Hread|exact H]; lia].
  assert (Hgo : ∀ d q, split_loop source operator rest (i + 1) 0 start d q (map trim pieces) = Some parts →
    ∃ all, parts = map trim all ∧ source = join operator all).
  { intros d q H'. eapply IH; [exact Hnext| | |exact Hread|exact H']; lia. }
  destruct quote as [q|].
  - destruct (char =? 92)%N; [|by eapply Hgo].
    destruct rest as [|c rest']; [by eapply (Hgo depth (Some q)); destruct pieces|].
    eapply IH; [exact Hnext| | |exact Hread|exact H]; [lia|].
    assert (length (drop (i + 1) source) = S (length rest')) as Hl by (by rewrite Hnext).
    rewrite length_drop in Hl. lia.
  - destruct (is_quote char); [by eapply Hgo|].
    destruct (negb _); [by eapply Hgo|]. destruct (char =? 63)%N; [done|].
    destruct (starts_with operator (char :: rest)) eqn:E; [|by eapply Hgo].
    apply starts_with_spec in E as [r Hr].
    assert (Hol : 1 ≤ length operator) by (destruct operator; [done|simpl; lia]).
    assert (Hle : i + length operator ≤ length source).
    { assert (length (drop i source) = length operator + length r) as Hl by (by rewrite Hdrop, Hr, length_app).
      rewrite length_drop in Hl. lia. }
    assert (Htake : start ≤ i → take (i + length operator) source =
      take start source ++ slice source start i ++ operator).
    { intros Hsi. rewrite <- (take_drop i source) at 1. rewrite Hdrop, Hr.
      rewrite take_app_ge by (rewrite length_take; lia). rewrite length_take, Nat.min_l by lia.
      replace (i + length operator - i) with (length operator) by lia. rewrite take_app_length.
      rewrite app_assoc. f_equal. unfold slice.
      rewrite <- (take_drop start (take i source)) at 1. rewrite take_take, Nat.min_l by lia.
      f_equal. by rewrite skipn_firstn_comm. }
    change [trim (slice source start i)] with (map trim [slice source start i]) in H.
    rewrite <- map_app in H.
    eapply (IH (i + 1) _ (i + length operator) _ None (pieces ++ [slice source start i]));
      [exact Hnext| | | |exact H]; [lia|lia|].
    unfold read_before in *. rewrite Htake, Hread by lia.
    destruct pieces as [|p ps]; [done|]. rewrite join_snoc by done.
    change ((p :: ps) ++ [slice source start i]) with (p :: (ps ++ [slice source start i])).
    cbn match. by rewrite <- !app_assoc.
Qed.
End Split.

(** Splitting is lossless: unless a top-level question mark keeps the whole
    source, the source is the pieces joined with the operator, and the result
    is those pieces without outer white space and without the empty ones. *)
Theorem splitExpressionAtTopLevel_lossless source operator :
  operator ≠ [] →
  splitExpressionAtTopLevel source operator = [trim source] ∨
  ∃ pieces, source = join operator pieces ∧
    splitExpressionAtTopLevel source operator = List.filter nonempty (map trim pieces).
Proof.
  intros Hop. unfold splitExpressionAtTopLevel.
  destruct (split_loop _ _ _ _ _ _ _ _ _) as [parts|] eqn:E; [right|by left].
  destruct (split_loop_pieces source operator Hop source 0 0 0 0%Z None [] parts) as (all & -> & Hs);
    [by rewrite drop_0|lia|lia|done|exact E|].
  by exists all.
Qed.

Example splitExpressionAtTopLevel_lossless_witness :
  splitExpressionAtTopLevel (js "a * (b * c) * '*'") (js "*") = [js "a"; js "(b * c)"; js "'*'"].
Proof.
  destruct (splitExpressionAtTopLevel_lossless (js "a * (b * c) * '*'") (js "*") ltac:(discriminate))
    as [_|_]; vm_compute; reflexivity.
Defined.

(** ** Unwrapping *)

(** The iterations of the [while] loop, without fuel. *)
Inductive unwraps : jsstring → jsstring → Prop :=
  | unwraps_stop e : wrapped e = false → unwraps e e
  | unwraps_step e r :
      wrapped e = true → unwraps (trim (slice e 1 (length e - 1))) r → unwraps e r.

Lemma wrapped_nonempty e : wrapped e = true → e ≠ [].
Proof. by intros Hw ->. Qed.

Lemma unwrap_loop_unwraps fuel e : length e ≤ fuel → unwraps e (unwrap_loop fuel e).
Proof.
  revert e. induction fuel as [|fuel IH]; intros e Hl; simpl.
  - apply unwraps_stop. by destruct e; [|simpl in Hl; lia].
  - destruct (wrapped e) eqn:E; [|by apply unwraps_stop].
    apply unwraps_step; [done|]. apply IH. apply wrapped_nonempty in E.
    etrans; [apply trim_length|]. rewrite slice_length by lia. destruct e; simpl in *; [done|lia].
Qed.

Lemma unwraps_result e r : unwraps e r → trimmed e → wrapped r = false ∧ trimmed r.
Proof. induction 1; intros Ht; [done|]. apply IHunwraps. apply trim_idemp. Qed.

(** [unwrapExpressionParens] runs its loop to the end: the result is what
    the iterations reach when no outer pair of parentheses is left, it has no
    outer white space, and unwrapping it again changes nothing. *)
Theorem unwrapExpressionParens_complete source :
  unwraps (trim source) (unwrapExpressionParens source) ∧
  wrapped (unwrapExpressionParens source) = false ∧
  unwrapExpressionParens (unwrapExpressionParens source) = unwrapExpressionParens source.
Proof.
  unfold unwrapExpressionParens.
  assert (Hu := unwrap_loop_unwraps (length (trim source)) (trim source) (le_n _)).
  destruct (unwraps_result _ _ Hu (trim_idemp source)) as [Hw Ht].
  revert Hu Hw Ht. generalize (unwrap_loop (length (trim source)) (trim source)). intros r Hu Hw Ht.
  split_and!; [done|done|]. rewrite Ht. destruct (length r); simpl; [done|]. by rewrite Hw.
Qed.
