(* ===== verification/Display.v ===== *)
(** * billing-expression/display.ts

    The readers that recognise tier chains in a compiled expression, for token
    prices, for prices that depend on the time and for task prices. A reader
    returns [None] where the code returns [null]. The parser gives every call
    its arity (ParserFacts, vocabulary_ok), so calls are matched with all their
    arguments. *)

From S2P Require Import Prelude JsNumber JsText Types Parser Compile Runtime.
From Stdlib Require Import Floats.SpecFloat.

Record TokenTierCondition := mkCondition {
  tc_var : jsstring;
  tc_op : jsstring;
  tc_value : num
}.

Record TokenTier := mkTokenTier {
  conditionText : option jsstring;
  tt_imageCount : bool;
  tt_billingUnit : option BillingUnit;
  tt_fixedPrice : option num;
  label : jsstring;
  conditions : list TokenTierCondition;
  prices : list (jsstring * num)
}.

(** ** Chains of one operator *)
Fixpoint flattenBinary (node : ExpressionNode) (operator : jsstring) : list ExpressionNode :=
  match node with
  | Binary op lhs rhs _ _ =>
      if op =s operator then flattenBinary lhs operator ++ flattenBinary rhs operator
      else [node]
  | _ => [node]
  end.

(** A loop over parts that returns [null] at the first unexpected one. *)
Fixpoint map_option {A B} (f : A → option B) (l : list A) : option (list B) :=
  match l with
  | [] => Some []
  | x :: l => y ← f x; ys ← map_option f l; Some (y :: ys)
  end.

Definition tokenCondition (part : ExpressionNode) : option TokenTierCondition :=
  match part with
  | Binary op (Variable_ name _ _) (Literal (LNumber value) _ _ _) _ _ =>
      if str_in op (map js ["<"; "<="; ">"; ">="]%string)
         && str_in name (map js ["p"; "c"; "len"]%string)
         && negb (num_ltb value zero)
      then Some (mkCondition name op value) else None
  | _ => None
  end.
Definition tokenConditions (node : ExpressionNode) : option (list TokenTierCondition) :=
  map_option tokenCondition (flattenBinary node (js "&&")).

(** [node.kind === 'literal' && node.value === n]. *)
Definition is_number_literal (node : ExpressionNode) (n : num) : bool :=
  match node with
  | Literal (LNumber v) _ _ _ => num_eqb v n
  | _ => false
  end.

Definition nonnegativePriceLiteral (node : ExpressionNode) : option num :=
  match node with
  | Literal (LNumber v) _ _ _ => if num_leb zero v then Some v else None
  | Unary op operand _ _ =>
      if (op =s js "-") && is_number_literal operand zero then Some neg_zero else None
  | _ => None
  end.

(** ** tokenTier *)

(** [node.kind === 'variable' && node.name === name]. *)
Definition is_variable (node : ExpressionNode) (name : jsstring) : bool :=
  match node with Variable_ x _ _ => x =s name | _ => false end.

(** [len - ai]. *)
Definition text_remainder (remainder : ExpressionNode) : bool :=
  match remainder with
  | Binary op lhs rhs _ _ =>
      (op =s js "-") && is_variable lhs (js "len") && is_variable rhs (js "ai")
  | _ => false
  end.

(** The variable that [input] prices: a token variable other than [len], or
    [p] for [max(0, len - ai)]. *)
Definition priced_variable (input : ExpressionNode) : option jsstring :=
  let clamped :=
    match input with
    | Call f [a; b] _ _ =>
        if f =s js "max" then
          if is_number_literal a zero then
            if text_remainder b then Some (js "p") else None
          else if is_number_literal b zero then
            if text_remainder a then Some (js "p") else None
          else None
        else None
    | _ => None
    end in
  match input with
  | Variable_ name _ _ =>
      if negb (name =s js "len") && negb (name =s js "image_count") then Some name else None
  | _ => clamped
  end.

(** One term of the sum: the variable and its price. *)
Definition price_term (term : ExpressionNode) : option (jsstring * num) :=
  match term with
  | Binary op lhs rhs _ _ =>
      if op =s js "*" then
        match nonnegativePriceLiteral rhs with
        | Some price => variable ← priced_variable lhs; Some (variable, price)
        | None =>
            price ← nonnegativePriceLiteral lhs;
            variable ← priced_variable rhs;
            Some (variable, price)
        end
      else None
  | _ => None
  end.

Fixpoint price_terms (terms : list ExpressionNode) (prices : list (jsstring * num))
    : option (list (jsstring * num)) :=
  match terms with
  | [] => Some prices
  | term :: terms =>
      '(variable, price) ← price_term term;
      match own prices variable with
      | Some _ => None
      | None => price_terms terms (prices ++ [(variable, price)])
      end
  end.

Definition tokenTier (node : ExpressionNode) (conditions : list TokenTierCondition)
    : option TokenTier :=
  match node with
  | Call f [Literal (LString label) _ _ _; body] _ _ =>
      if f =s js "tier" then
        let summed :=
          prices ← price_terms (flattenBinary body (js "+")) [];
          match prices with
          | [] => None
          | _ => Some (mkTokenTier None false None None label conditions prices)
          end in
        match body with
        | Call g [Literal (LNumber amount) _ _ _] _ _ =>
            if g =s js "fixed" then
              Some (mkTokenTier None false (Some unit_request) (Some amount) label conditions [])
            else summed
        | _ => summed
        end
      else None
  | _ => None
  end.

(** ** readTokenTierChain *)

Definition with_text (tier : TokenTier) (text : jsstring) : TokenTier :=
  mkTokenTier (Some text) (tt_imageCount tier) (tt_billingUnit tier) (tt_fixedPrice tier)
    (label tier) (conditions tier) (prices tier).
Definition with_image_count (tier : TokenTier) : TokenTier :=
  mkTokenTier (conditionText tier) true (tt_billingUnit tier) (tt_fixedPrice tier)
    (label tier) (conditions tier) (prices tier).

(** [ai > 0] or [ao > 0]: the variable. *)
Definition audio_probe (part : ExpressionNode) : option jsstring :=
  match part with
  | Binary op (Variable_ name _ _) rhs _ _ =>
      if (op =s js ">") && str_in name [js "ai"; js "ao"] && is_number_literal rhs zero
      then Some name else None
  | _ => None
  end.

(** The first [if]: tiers for requests with and without audio. *)
Definition audio_tiers (node : ExpressionNode) : option (list TokenTier) :=
  match node with
  | Conditional (Binary op lhs rhs _ _) yes no _ _ =>
      if op =s js "||" then
        match audio_probe lhs, audio_probe rhs with
        | Some a, Some b =>
            if a =s b then None
            else
              audio ← tokenTier yes [];
              text ← tokenTier no [];
              Some [with_text audio (js "Audio requests"); with_text text (js "Text-only requests")]
        | _, _ => None
        end
      else None
  | _ => None
  end.

(** The [while] loop and the fallback. *)
Fixpoint linear_chain (remaining : ExpressionNode) (tiers : list TokenTier) : option (list TokenTier) :=
  match remaining with
  | Conditional condition yes no _ _ =>
      conditions ← tokenConditions condition;
      tier ← tokenTier yes conditions;
      linear_chain no (tiers ++ [tier])
  | _ =>
      fallback ← tokenTier remaining [];
      Some (tiers ++ [fallback])
  end.

Fixpoint readTokenTierChain (node : ExpressionNode) : option (list TokenTier) :=
  match audio_tiers node with
  | Some tiers => Some tiers
  | None =>
      match node with
      | Binary op lhs rhs _ _ =>
          if (op =s js "*") && is_variable lhs (js "image_count") then
            tiers ← readTokenTierChain rhs; Some (map with_image_count tiers)
          else if (op =s js "*") && is_variable rhs (js "image_count") then
            tiers ← readTokenTierChain lhs; Some (map with_image_count tiers)
          else linear_chain node []
      | _ => linear_chain node []
      end
  end.

(** ** Prices that depend on the time *)

Definition time_helpers : list jsstring :=
  TIME_FUNCTIONS ++ map js ["min"; "max"; "abs"; "ceil"; "floor"]%string.

Definition isTimeCondition (node : ExpressionNode) : result bool :=
  '(variables, functions) ← expressionDependencies node;
  Ok (bool_decide (variables = [])
      && existsb (λ name, str_in name TIME_FUNCTIONS) functions
      && forallb (λ name, str_in name time_helpers) functions).

Record TimeCondition := mkTimeCondition { tc_condition : ExpressionNode; tc_matches : bool }.
Record TimeTokenTier := mkTimeTier {
  time_tier : TokenTier;
  timeConditions : list TimeCondition
}.

Definition describe_path (source : jsstring) (path : list TimeCondition) : jsstring :=
  join (js " && ")
    (map (λ c,
       let text := slice source (node_start (tc_condition c)) (node_end (tc_condition c)) in
       if tc_matches c then js "(" ++ text ++ js ")" else js "!(" ++ text ++ js ")") path).
Definition describe_condition (c : TokenTierCondition) : jsstring :=
  tc_var c ++ js " " ++ tc_op c ++ js " " ++ num_to_string (tc_value c).

Definition timed_leaf (source : jsstring) (node : ExpressionNode) (path : list TimeCondition)
    : option (list TimeTokenTier) :=
  tiers ← readTokenTierChain node;
  match path with
  | [] => None
  | _ =>
      Some (map (λ tier,
        mkTimeTier
          (with_text tier
             (join (js " && ") (describe_path source path :: map describe_condition (conditions tier))))
          path) tiers)
  end.

Fixpoint timeTierBranches (source : jsstring) (node : ExpressionNode) (path : list TimeCondition)
    : result (option (list TimeTokenTier)) :=
  match node with
  | Conditional condition yes no _ _ =>
      timed ← isTimeCondition condition;
      if (timed : bool) then
        y ← timeTierBranches source yes (path ++ [mkTimeCondition condition true]);
        n ← timeTierBranches source no (path ++ [mkTimeCondition condition false]);
        Ok (match y, n with
            | Some y, Some n => Some (y ++ n)
            | _, _ => None
            end)
      else Ok (timed_leaf source node path)
  | _ => Ok (timed_leaf source node path)
  end.

Record TimeTokenPricing := mkTimePricing {
  tiers : list TimeTokenTier;
  currentTiers : list TimeTokenTier
}.

Section Time.
Context `{Host}.

Definition condition_holds (clock : Date) (compiled : CompiledBillingExpression) (now : Date)
    (c : TimeCondition) : bool :=
  bool_decide (evaluateBillingCondition clock compiled (tc_condition c) now = Some (tc_matches c)).

(** [now] is [None] when the argument is omitted. *)
Definition readTimeTokenPricing (clock : Date) (source : jsstring) (now : option Date)
    : result (option TimeTokenPricing) :=
  match compile_source source with
  | CompileFailed _ => Ok None
  | Ready compiled =>
      found ← timeTierBranches (c_source compiled) (c_ast compiled) [];
      Ok (match found with
          | None => None
          | Some tiers =>
              Some (mkTimePricing tiers
                match now with
                | None => []
                | Some now =>
                    List.filter (λ t, forallb (condition_holds clock compiled now) (timeConditions t)) tiers
                end)
          end)
  end.
End Time.

(** ** Task prices *)

(** Setting a property of an object whose keys come from data: array indices
    come first in ascending order, and [__proto__] with a number is ignored. *)
Definition array_key (k : jsstring) : option N :=
  let v := dec_value k in
  if forallb is_digit k && (k =s dec_string v) && (v <? 4294967295)%N then Some v else None.
Definition key_before (k k' : jsstring) : bool :=
  match array_key k, array_key k' with
  | Some a, Some b => (a <? b)%N
  | Some _, None => true
  | None, _ => false
  end.
Fixpoint obj_insert {A} (obj : list (jsstring * A)) (k : jsstring) (v : A) : list (jsstring * A) :=
  match obj with
  | [] => [(k, v)]
  | (k', v') :: obj' => if key_before k k' then (k, v) :: obj else (k', v') :: obj_insert obj' k v
  end.
Definition obj_set {A} (obj : list (jsstring * A)) (k : jsstring) (v : A) : list (jsstring * A) :=
  if k =s js "__proto__" then obj
  else match own obj k with
       | Some _ => map_set obj k v
       | None => obj_insert obj k v
       end.

Inductive UsageType := type_number | type_boolean.
Inductive BillingUsageUnit := unit_second | unit_count | unit_usage_token | unit_credit.
#[export] Instance UsageType_eq_dec : EqDecision UsageType.
Proof. solve_decision. Defined.
#[export] Instance BillingUsageUnit_eq_dec : EqDecision BillingUsageUnit.
Proof. solve_decision. Defined.

(** [string | Record<string, string>]. *)
Inductive LocalizedTextValue :=
  | PlainText (text : jsstring)
  | LocalizedTexts (texts : list (jsstring * jsstring)).

Record BillingUsageFieldSchema := mkField {
  field_type : option UsageType;
  field_unit : option BillingUsageUnit;
  field_unitLabel : option LocalizedTextValue;
  field_enum : option (list jsstring);
  field_enumLabels : option (list (jsstring * LocalizedTextValue));
  field_description : option LocalizedTextValue
}.
(** A field without texts. *)
Definition plain_field (type : option UsageType) (unit : option BillingUsageUnit) (values : option (list jsstring))
    : BillingUsageFieldSchema :=
  mkField type unit None values None None.
Abbreviation BillingUsageSchema := (list (jsstring * BillingUsageFieldSchema)).

Record TaskTier := mkTaskTier {
  task_conditionText : option jsstring;
  task_label : jsstring;
  task_conditions : list (jsstring * jsstring);
  constant : num;
  unitPrices : list (jsstring * num)
}.

(** [null], [unreachable] or the conditions. *)
Inductive TaskConditions :=
  | NotConditions
  | Unreachable
  | Reachable (conditions : list (jsstring * jsstring)).

Section Task.
Context (schema : BillingUsageSchema).

(** [u(name) == literal]: the field and the literal. *)
Definition usage_equation (term : ExpressionNode) : option (jsstring * literal_value) :=
  match term with
  | Binary op (Call f [Literal (LString field) _ _ _] _ _) (Literal value _ _ _) _ _ =>
      if (op =s js "==") && (f =s js "u") then Some (field, value) else None
  | _ => None
  end.

(** One condition, and whether the schema still declares its value. *)
Definition task_condition (includeBoolean : bool) (term : ExpressionNode)
    : option (jsstring * jsstring * bool) :=
  '(field, value) ← usage_equation term;
  let definition := own schema field in
  if bool_decide ((definition ≫= field_type) = Some type_boolean) then
    match value with
    | LBoolean b =>
        if includeBoolean then Some (field, if b then js "true" else js "false", true) else None
    | _ => None
    end
  else
    match value, definition ≫= field_enum with
    | LString s, Some enum => Some (field, s, str_in s enum)
    | _, _ => None
    end.

Definition taskConditions (node : ExpressionNode) (includeBoolean : bool) : TaskConditions :=
  match map_option (task_condition includeBoolean) (flattenBinary node (js "&&")) with
  | None => NotConditions
  | Some parts =>
      if forallb snd parts then Reachable (map fst parts) else Unreachable
  end.

(** [u(name) * price]: the field and its price. *)
Definition usage_price (term : ExpressionNode) : option (jsstring * num) :=
  match term with
  | Binary op (Call f [Literal (LString field) _ _ _] _ _) rhs _ _ =>
      if (op =s js "*") && (f =s js "u") then
        price ← nonnegativePriceLiteral rhs; Some (field, price)
      else None
  | _ => None
  end.

(** The loop over the terms; [constant] is absent until one is read. *)
Fixpoint task_terms (terms : list ExpressionNode) (constant : option num)
    (unitPrices : list (jsstring * num)) : option (option num * list (jsstring * num)) :=
  match terms with
  | [] => Some (constant, unitPrices)
  | term :: terms =>
      match nonnegativePriceLiteral term with
      | Some literal =>
          match constant with
          | Some _ => None
          | None => task_terms terms (Some literal) unitPrices
          end
      | None =>
          '(scaled, term) ←
            match term with
            | Binary op lhs rhs _ _ =>
                if op =s js "/" then
                  if is_number_literal rhs (num_of_Z 1000000) then Some (true, lhs) else None
                else Some (false, term)
            | _ => Some (false, term)
            end;
          '(field, price) ← usage_price term;
          let definition := own schema field in
          if negb (bool_decide ((definition ≫= field_type) = Some type_number)) then None
          else
            match definition ≫= field_unit, own unitPrices field with
            | Some unit, None =>
                if negb (Bool.eqb (bool_decide (unit = unit_usage_token)) scaled) then None
                else task_terms terms constant (obj_set unitPrices field price)
            | _, _ => None
            end
      end
  end.

Definition taskTier (node : ExpressionNode) (conditions : list (jsstring * jsstring))
    : option TaskTier :=
  match node with
  | Call f [Literal (LString label) _ _ _; body] _ _ =>
      if f =s js "tier" then
        '(constant, unitPrices) ← task_terms (flattenBinary body (js "+")) None [];
        match unitPrices with
        | [] => None
        | _ => Some (mkTaskTier None label conditions (default zero constant) unitPrices)
        end
      else None
  | _ => None
  end.

Fixpoint task_chain (includeBoolean : bool) (remaining : ExpressionNode) (tiers : list TaskTier)
    : option (list TaskTier) :=
  match remaining with
  | Conditional condition yes no _ _ =>
      match taskConditions condition includeBoolean with
      | NotConditions => None
      | Unreachable => task_chain includeBoolean no tiers
      | Reachable conditions =>
          tier ← taskTier yes conditions;
          task_chain includeBoolean no (tiers ++ [tier])
      end
  | _ =>
      fallback ← taskTier remaining [];
      Some (tiers ++ [fallback])
  end.

Definition readTaskTierChain (node : ExpressionNode) (includeBoolean : bool)
    : option (list TaskTier) := task_chain includeBoolean node [].
End Task.
