(* ===== verification/Visual.v ===== *)
(** * billing-expression/visual.ts

    The visual editor: reading an expression into a document of conditions and
    tiers that remember the nodes they come from, and writing it back by
    patching the source. Node identity ([===]) is [same_node] (Parser). *)

From S2P Require Import Prelude JsNumber JsText Types Parser Compile Runtime Display.
From Stdlib Require Import Floats.SpecFloat.

(** ** The document *)
Inductive VisualCondition :=
  | VComparison (id : jsstring) (origin : option ExpressionNode)
      (probe timezone operator value : jsstring)
  | VAll (id : jsstring) (origin : option ExpressionNode) (children : list VisualCondition)
  | VAny (id : jsstring) (origin : option ExpressionNode) (children : list VisualCondition)
  | VNot (id : jsstring) (origin : option ExpressionNode) (child : VisualCondition).

Definition vc_origin (c : VisualCondition) : option ExpressionNode :=
  match c with
  | VComparison _ o _ _ _ _ | VAll _ o _ | VAny _ o _ | VNot _ o _ => o
  end.

Record VisualPrice := mkPrice {
  variable : jsstring;
  p_value : jsstring;
  p_origin : option ExpressionNode
}.

Inductive VisualPricingNode :=
  | VTier (id : jsstring) (origin : option ExpressionNode) (label : jsstring)
      (prices : list VisualPrice) (billingUnit : BillingUnit) (fixedPrice : jsstring)
  | VBranch (id : jsstring) (origin : option ExpressionNode) (condition : VisualCondition)
      (yes no : VisualPricingNode).

Definition vn_id (n : VisualPricingNode) : jsstring :=
  match n with VTier id _ _ _ _ _ | VBranch id _ _ _ _ => id end.

Record VisualBillingDocument := mkDocument { d_source : jsstring; root : VisualPricingNode }.
Record VisualBillingIssue := mkIssue { issue_id : jsstring; message : jsstring }.
Inductive VisualBillingSerialization :=
  | Serialized (source : jsstring)
  | Rejected (issues : list VisualBillingIssue).

Definition TIME_DOMAINS (probe : jsstring) : Z * Z :=
  if probe =s js "hour" then (0, 23)%Z
  else if probe =s js "minute" then (0, 59)%Z
  else if probe =s js "weekday" then (0, 6)%Z
  else if probe =s js "month" then (1, 12)%Z
  else (1, 31)%Z.

(** The module-level counter [nextId]. *)
Definition visualNodeId (nextId : N) : jsstring * N :=
  (js "draft-" ++ dec_string (nextId + 1), nextId + 1)%N.
Definition createEmptyVisualCondition (nextId : N) : VisualCondition * N :=
  let '(id, nextId) := visualNodeId nextId in
  (VComparison id None (js "hour") (js "Asia/Shanghai") (js ">=") [], nextId).

Definition node_id (prefix : jsstring) (node : ExpressionNode) : jsstring :=
  prefix ++ dec_string (N.of_nat (node_start node)) ++ js "-" ++ dec_string (N.of_nat (node_end node)).

(** ** Reading *)

Definition length_variables : list jsstring := map js ["p"; "c"; "len"]%string.

(** A comparison of a length or a time with a number: probe, zone, operator and
    value. *)
Definition read_comparison (node : ExpressionNode) : option (jsstring * jsstring * jsstring * jsstring) :=
  match node with
  | Binary op lhs (Literal (LNumber value) _ _ _) _ _ =>
      if str_in op comparisons then
        match lhs with
        | Variable_ name _ _ =>
            if str_in name length_variables then Some (name, [], op, num_to_string value) else None
        | Call name (Literal (LString zone) _ _ _ :: _) _ _ =>
            if str_in name TIME_FUNCTIONS then Some (name, zone, op, num_to_string value) else None
        | _ => None
        end
      else None
  | _ => None
  end.

(** The recursion goes through [flattenBinary], so it is bounded by the height
    of the tree. *)
Fixpoint read_condition (fuel : nat) (node : ExpressionNode) : option VisualCondition :=
  match fuel with
  | O => None
  | S fuel =>
      let id := node_id (js "condition-") node in
      let comparison :=
        '(probe, timezone, operator, value) ← read_comparison node;
        Some (VComparison id (Some node) probe timezone operator value) in
      match node with
      | Unary op operand _ _ =>
          if op =s js "!" then
            child ← read_condition fuel operand; Some (VNot id (Some node) child)
          else None
      | Binary op _ _ _ _ =>
          if str_in op [js "&&"; js "||"] then
            children ← map_option (read_condition fuel) (flattenBinary node op);
            Some (if op =s js "&&" then VAll id (Some node) children
                  else VAny id (Some node) children)
          else comparison
      | _ => None
      end
  end.
Definition readVisualCondition (node : ExpressionNode) : option VisualCondition :=
  read_condition (S (node_height node)) node.

(** A term [variable * literal] of a price sum. *)
Definition read_price (term : ExpressionNode) : option VisualPrice :=
  match term with
  | Binary op (Variable_ name _ _) (Literal (LNumber value) _ _ _) _ _ =>
      if (op =s js "*") && negb (name =s js "len") && negb (name =s js "image_count")
         && negb (num_ltb value zero)
      then Some (mkPrice name (num_to_string value) (Some term)) else None
  | _ => None
  end.

Fixpoint read_prices (terms : list ExpressionNode) (prices : list VisualPrice) : option (list VisualPrice) :=
  match terms with
  | [] => Some prices
  | term :: terms =>
      price ← read_price term;
      if existsb (λ p, variable p =s variable price) prices then None
      else read_prices terms (prices ++ [price])
  end.

(** [String(value)] of a literal. *)
Definition literal_text (v : literal_value) : jsstring :=
  match v with
  | LString s => s
  | LNumber n => num_to_string n
  | LBoolean b => if b then js "true" else js "false"
  | LNull => js "null"
  end.

Fixpoint readVisualPricing (node : ExpressionNode) : option VisualPricingNode :=
  let id := node_id (js "pricing-") node in
  match node with
  | Conditional c y n _ _ =>
      condition ← readVisualCondition c;
      yes ← readVisualPricing y;
      no ← readVisualPricing n;
      Some (VBranch id (Some node) condition yes no)
  | Call f [Literal (LString label) _ _ _; body] _ _ =>
      if f =s js "tier" then
        let summed :=
          prices ← read_prices (flattenBinary body (js "+")) [];
          Some (VTier id (Some node) label prices unit_token []) in
        match body with
        | Call g [Literal amount _ _ _] _ _ =>
            if g =s js "fixed" then
              Some (VTier id (Some node) label [] unit_request (literal_text amount))
            else summed
        | _ => summed
        end
      else None
  | _ => None
  end.

(** ** Writing *)

Record patch := mkPatch { patch_node : ExpressionNode; patch_text : jsstring }.

Fixpoint insert_patch (p : patch) (l : list patch) : list patch :=
  match l with
  | [] => [p]
  | q :: l' =>
      if node_start (patch_node q) <? node_start (patch_node p) then p :: l
      else q :: insert_patch p l'
  end.
(** [sort((a, b) => b.node.start - a.node.start)], which is stable. *)
Definition sort_patches (patches : list patch) : list patch :=
  foldl (λ l p, insert_patch p l) [] patches.

(** A patched node lies inside [origin], so the differences are not negative. *)
Definition apply_patch (origin : ExpressionNode) (result : jsstring) (p : patch) : jsstring :=
  take (node_start (patch_node p) - node_start origin) result ++ patch_text p
  ++ drop (node_end (patch_node p) - node_start origin) result.
Definition patchSource (source : jsstring) (origin : ExpressionNode) (patches : list patch) : jsstring :=
  foldl (apply_patch origin) (slice source (node_start origin) (node_end origin)) (sort_patches patches).

Definition parseNonNegativeNumber (value : jsstring) : option num :=
  match scan_decimal (trim value) with
  | Some (_, []) =>
      let number := number_of_string value in
      if is_finite number && num_leb zero number then Some number else None
  | _ => None
  end.

(** The issues found so far, as the state of a writer. *)
Definition W (A : Type) : Type := list VisualBillingIssue → A * list VisualBillingIssue.
#[export] Instance W_ret : MRet W := λ A a issues, (a, issues).
#[export] Instance W_bind : MBind W := λ A B k m issues, let '(a, issues) := m issues in k a issues.
Definition push (id message : jsstring) : W unit := λ issues, (tt, issues ++ [mkIssue id message]).
Definition push_when (b : bool) (id message : jsstring) : W unit :=
  if b then push id message else mret tt.

Section MapW.
Context {A B : Type} (f : A → W B).
Fixpoint mapW (l : list A) : W (list B) :=
  match l with
  | [] => mret []
  | x :: l => y ← f x; ys ← mapW l; mret (y :: ys)
  end.
End MapW.

Definition slice_node (source : jsstring) (n : ExpressionNode) : jsstring :=
  slice source (node_start n) (node_end n).

(** [origin?.kind === 'literal' && value === origin.value] for [number | null]. *)
Definition same_number (value : option num) (node : ExpressionNode) : bool :=
  match value, node with
  | Some v, Literal (LNumber w) _ _ _ => num_eqb v w
  | None, Literal LNull _ _ _ => true
  | _, _ => false
  end.
Definition is_string_literal (node : ExpressionNode) (s : jsstring) : bool :=
  match node with Literal (LString t) _ _ _ => t =s s | _ => false end.

(** [original.length === items.length && original.every((o, i) => items[i].origin === o)]. *)
Definition same_origins (original : list ExpressionNode) (origins : list (option ExpressionNode)) : bool :=
  (length original =? length origins)
  && forallb (λ '(o, n), match o with Some m => same_node m n | None => false end)
       (zip origins original).

Definition zip_patches (nodes : list ExpressionNode) (texts : list jsstring) : list patch :=
  zip_with mkPatch nodes texts.

Definition group_message : jsstring := js "Add at least one condition to this group.".
Definition value_message : jsstring := js "Enter a valid condition value.".
Definition zone_message : jsstring := js "Choose a valid IANA timezone.".
Definition price_message : jsstring := js "Enter a finite, non-negative price.".
Definition empty_message : jsstring := js "Include at least one price variable.".
Definition lost_message : jsstring :=
  js "This expression cannot be edited visually without losing information.".

Section Write.
Context `{Host} (source : jsstring).

(** The zone of the original probe when it is a call with a literal. *)
Definition original_zone (origin : option ExpressionNode) : option literal_value :=
  match origin with
  | Some (Binary _ (Call _ (Literal v _ _ _ :: _) _ _) _ _ _) => Some v
  | _ => None
  end.

Definition is_time (probe : jsstring) : bool := str_in probe TIME_FUNCTIONS.

Definition valid_value (probe operator : jsstring) (value : option num) : bool :=
  match value with
  | None => false
  | Some v =>
      if is_time probe then
        let '(min, max) := TIME_DOMAINS probe in
        is_integer v && num_leb (num_of_Z min) v
        && num_leb v (num_of_Z (if operator =s js "<" then max + 1 else max))
      else true
  end.

Definition valid_zone (timezone : jsstring) : bool :=
  negb (trim timezone =s [])
  && match dateTimeFormat (trim timezone) with Some _ => true | None => false end.

Definition write_comparison (id : jsstring) (origin : option ExpressionNode)
    (probe timezone operator text : jsstring) : W jsstring :=
  let value := parseNonNegativeNumber text in
  push_when (negb (valid_value probe operator value)) id value_message;;
  push_when (is_time probe
             && negb (bool_decide (original_zone origin = Some (LString timezone)))
             && negb (valid_zone timezone)) id zone_message;;
  let new_probe :=
    if is_time probe then probe ++ js "(" ++ json_stringify timezone ++ js ")" else probe in
  let fresh := js "(" ++ new_probe ++ js " " ++ operator ++ js " " ++ text ++ js ")" in
  mret
    match origin with
    | Some (Binary op lhs rhs s e) =>
        if op =s operator then
          let kept :=
            match lhs with
            | Variable_ name _ _ => name =s probe
            | Call name (a :: _) _ _ => (name =s probe) && is_string_literal a timezone
            | _ => false
            end in
          let probeText := if kept then slice_node source lhs else new_probe in
          let valueText := if same_number value rhs then slice_node source rhs else text in
          patchSource source (Binary op lhs rhs s e) [mkPatch lhs probeText; mkPatch rhs valueText]
        else fresh
    | _ => fresh
    end.

(** The text of a group, whose children were written first. *)
Definition write_group (operator : jsstring) (origin : option ExpressionNode)
    (children : list VisualCondition) (texts : list jsstring) : jsstring :=
  let fresh :=
    js "(" ++ join (js " " ++ operator ++ js " ") (map (λ t, js "(" ++ t ++ js ")") texts) ++ js ")" in
  match origin with
  | Some (Binary op lhs rhs s e) =>
      let node := Binary op lhs rhs s e in
      if op =s operator then
        let original := flattenBinary node operator in
        if same_origins original (map vc_origin children) then
          patchSource source node (zip_patches original texts)
        else fresh
      else fresh
  | _ => fresh
  end.

Fixpoint writeVisualCondition (node : VisualCondition) : W jsstring :=
  match node with
  | VNot _ origin child =>
      text ← writeVisualCondition child;
      mret
        match origin with
        | Some (Unary op operand s e) =>
            if bool_decide (vc_origin child = Some operand) then
              patchSource source (Unary op operand s e) [mkPatch operand text]
            else js "!(" ++ text ++ js ")"
        | _ => js "!(" ++ text ++ js ")"
        end
  | VAll id origin children =>
      push_when (bool_decide (length children = 0)) id group_message;;
      texts ← mapW writeVisualCondition children;
      mret (write_group (js "&&") origin children texts)
  | VAny id origin children =>
      push_when (bool_decide (length children = 0)) id group_message;;
      texts ← mapW writeVisualCondition children;
      mret (write_group (js "||") origin children texts)
  | VComparison id origin probe timezone operator value =>
      write_comparison id origin probe timezone operator value
  end.

Definition visualConditionExpression (node : VisualCondition) : option jsstring :=
  let '(expression, issues) := writeVisualCondition node [] in
  match issues with [] => Some expression | _ => None end.

(** A tier with a fixed price. *)
Definition write_fixed (id : jsstring) (origin : option ExpressionNode)
    (label fixedPrice : jsstring) : W jsstring :=
  let value := parseNonNegativeNumber fixedPrice in
  push_when (match value with Some v => negb (is_finite (num_mul v million)) | None => true end)
    (id ++ js ":fixed") price_message;;
  let fresh := js "tier(" ++ json_stringify label ++ js ", fixed(" ++ fixedPrice ++ js "))" in
  mret
    match origin with
    | Some (Call f [label_node; price] s e) =>
        if f =s js "tier" then
          let labelText := if is_string_literal label_node label then slice_node source label_node
                           else json_stringify label in
          let fresh_price := js "fixed(" ++ fixedPrice ++ js ")" in
          let priceText :=
            match price with
            | Call g (amount :: _) _ _ =>
                match amount with
                | Literal _ _ _ _ =>
                    if g =s js "fixed" then
                      patchSource source price
                        [mkPatch amount (if same_number value amount then slice_node source amount
                                         else fixedPrice)]
                    else fresh_price
                | _ => fresh_price
                end
            | _ => fresh_price
            end in
          patchSource source (Call f [label_node; price] s e)
            [mkPatch label_node labelText; mkPatch price priceText]
        else fresh
    | _ => fresh
    end.

(** One price: its term and, when it was read from the source, its patch. *)
Definition write_price (id : jsstring) (price : VisualPrice) : W (jsstring * list patch) :=
  let value := parseNonNegativeNumber (p_value price) in
  push_when (negb (bool_decide (is_Some value))) (id ++ js ":" ++ variable price) price_message;;
  let fresh := (variable price ++ js " * " ++ p_value price, []) in
  mret
    match p_origin price with
    | Some (Binary op lhs rhs s e) =>
        match rhs with
        | Literal _ _ _ _ =>
            let text := if same_number value rhs then slice_node source rhs else p_value price in
            (patchSource source (Binary op lhs rhs s e) [mkPatch rhs text], [mkPatch rhs text])
        | _ => fresh
        end
    | _ => fresh
    end.

Definition write_tier (id : jsstring) (origin : option ExpressionNode) (label : jsstring)
    (prices : list VisualPrice) : W jsstring :=
  push_when (bool_decide (length prices = 0)) id empty_message;;
  written ← mapW (write_price id) prices;
  let terms := map fst written in
  let valuePatches := mjoin (map snd written) in
  let fresh := js "tier(" ++ json_stringify label ++ js ", " ++ join (js " + ") terms ++ js ")" in
  mret
    match origin with
    | Some (Call f [label_node; body] s e) =>
        if f =s js "tier" then
          let node := Call f [label_node; body] s e in
          let labelText := if is_string_literal label_node label then slice_node source label_node
                           else json_stringify label in
          if same_origins (flattenBinary body (js "+")) (map p_origin prices) then
            patchSource source node (mkPatch label_node labelText :: valuePatches)
          else
            patchSource source node [mkPatch label_node labelText; mkPatch body (join (js " + ") terms)]
        else fresh
    | _ => fresh
    end.

Fixpoint writeVisualPricing (node : VisualPricingNode) : W jsstring :=
  match node with
  | VBranch _ origin condition yes no =>
      condition ← writeVisualCondition condition;
      yes ← writeVisualPricing yes;
      no ← writeVisualPricing no;
      mret
        match origin with
        | Some (Conditional c y n s e) =>
            patchSource source (Conditional c y n s e)
              [mkPatch c condition; mkPatch y yes; mkPatch n no]
        | _ => js "(" ++ condition ++ js ") ? (" ++ yes ++ js ") : (" ++ no ++ js ")"
        end
  | VTier id origin label prices unit fixedPrice =>
      match unit with
      | unit_request => write_fixed id origin label fixedPrice
      | unit_token => write_tier id origin label prices
      end
  end.
End Write.

Section Document.
Context `{Host}.

Definition serializeVisualBillingDocument (document : VisualBillingDocument) : VisualBillingSerialization :=
  let source := d_source document in
  let '(body, issues) := writeVisualPricing source (root document) [] in
  match issues with
  | _ :: _ => Rejected issues
  | [] =>
      match compile_source source with
      | CompileFailed _ => Rejected [mkIssue (vn_id (root document)) lost_message]
      | Ready original =>
          let written :=
            take (node_start (c_ast original)) source ++ body
            ++ drop (node_end (c_ast original)) source in
          match compile_source written with
          | CompileFailed _ => Rejected [mkIssue (vn_id (root document)) value_message]
          | Ready _ => Serialized written
          end
      end
  end.

Definition parseVisualBillingDocument (source : jsstring) : option VisualBillingDocument :=
  match compile_source source with
  | CompileFailed _ => None
  | Ready compiled =>
      match readVisualPricing (c_ast compiled) with
      | None => None
      | Some root =>
          let document := mkDocument source root in
          match serializeVisualBillingDocument document with
          | Serialized _ => Some document
          | Rejected _ => None
          end
      end
  end.
End Document.
