(* ===== verification/VisualFacts.v ===== *)
(** * The visual editor preserves what is not edited

    Patching with unchanged texts gives the source back; what a reader produces
    writes back as the text of the node it was read from; so an unedited
    document serializes to its source, character by character. *)

From S2P Require Import Prelude JsNumber JsText JsNumberFacts Types Parser ParserFacts Compile.
From S2P Require Import CompileFacts Runtime RuntimeFacts Display Visual.
From Stdlib Require Import Floats.SpecFloat.

(** ** patchSource *)

Lemma elem_of_insert_patch p q l : p ∈ insert_patch q l ↔ p = q ∨ p ∈ l.
Proof.
  induction l as [|r l IH]; simpl; [set_solver|].
  destruct (_ <? _); [set_solver|]. rewrite !elem_of_cons, IH. naive_solver.
Qed.

Lemma elem_of_sort_patches p l : p ∈ sort_patches l ↔ p ∈ l.
Proof.
  unfold sort_patches. assert (∀ acc, p ∈ foldl (λ l p, insert_patch p l) acc l ↔ p ∈ acc ∨ p ∈ l) as H.
  { induction l as [|q l IH]; intros acc; simpl; [set_solver|].
    rewrite IH, elem_of_insert_patch. set_solver. }
  rewrite H. set_solver.
Qed.

Lemma insert_patch_front p l :
  (∀ q, q ∈ l → node_start (patch_node q) < node_start (patch_node p)) → insert_patch p l = p :: l.
Proof.
  destruct l as [|q l]; simpl; [done|]. intros H. rewrite (proj2 (Nat.ltb_lt _ _)); [done|].
  apply H. set_solver.
Qed.

Lemma sort_patches_ordered lo hi patches :
  ordered_within lo (map patch_node patches) hi → sort_patches patches = reverse patches.
Proof.
  unfold sort_patches. intros Ho. rewrite <- (app_nil_r (reverse patches)).
  assert (Hacc : ∀ q, q ∈ @nil patch → node_start (patch_node q) < lo) by set_solver.
  revert Hacc. generalize (@nil patch) as acc. revert lo Ho.
  induction patches as [|p l IH]; intros lo Ho acc Hacc; simpl; [done|].
  simpl in Ho. destruct Ho as (H1 & H2 & Ho).
  rewrite insert_patch_front by (intros q Hq; specialize (Hacc q Hq); lia).
  rewrite (IH _ Ho); [by rewrite reverse_cons, <- app_assoc|].
  intros q [->|Hq]%elem_of_cons; [done|]. specialize (Hacc q Hq). lia.
Qed.

Section Patch.
Context (source : jsstring) (origin : ExpressionNode).
Context (Hlen : node_end origin ≤ length source).

Definition inside (n : ExpressionNode) : Prop :=
  node_start origin ≤ node_start n ∧ node_start n ≤ node_end n ∧ node_end n ≤ node_end origin.

Lemma patchSource_same patches :
  (∀ p, p ∈ patches → inside (patch_node p) ∧ patch_text p = slice_node source (patch_node p)) →
  patchSource source origin patches = slice_node source origin.
Proof using Hlen.
  intros H. unfold patchSource, slice_node.
  assert (∀ p, p ∈ sort_patches patches → inside (patch_node p) ∧
    patch_text p = slice_node source (patch_node p)) as Hs
    by (intros p Hp; apply H; by apply elem_of_sort_patches).
  clear H. induction (sort_patches patches) as [|p l IH]; simpl; [done|].
  destruct (Hs p) as [(H1 & H2 & H3) Ht]; [set_solver|].
  assert (apply_patch origin (slice source (node_start origin) (node_end origin)) p
    = slice source (node_start origin) (node_end origin)) as ->.
  { unfold apply_patch, slice_node in *. rewrite Ht, take_slice, drop_slice by lia.
    replace (node_start origin + (node_start (patch_node p) - node_start origin))
      with (node_start (patch_node p)) by lia.
    replace (node_start origin + (node_end (patch_node p) - node_start origin))
      with (node_end (patch_node p)) by lia.
    rewrite app_assoc, !slice_app by lia. done. }
  apply IH. intros q Hq. apply Hs. set_solver.
Qed.

(** The source from [lo] to [hi] with the patched spans replaced. *)
Fixpoint splice (lo : nat) (patches : list patch) (hi : nat) : jsstring :=
  match patches with
  | [] => slice source lo hi
  | p :: patches =>
      slice source lo (node_start (patch_node p)) ++ patch_text p
      ++ splice (node_end (patch_node p)) patches hi
  end.

Lemma foldl_patches_splice lo patches :
  node_start origin ≤ lo → ordered_within lo (map patch_node patches) (node_end origin) →
  foldl (apply_patch origin) (slice source (node_start origin) (node_end origin)) (reverse patches)
  = slice source (node_start origin) lo ++ splice lo patches (node_end origin).
Proof using Hlen.
  revert lo. induction patches as [|p l IH]; intros lo Hlo Ho.
  - simpl in *. by rewrite slice_app.
  - simpl in Ho. destruct Ho as (H1 & H2 & Ho).
    rewrite reverse_cons, foldl_app. cbn [foldl]. rewrite (IH (node_end (patch_node p))) by (done || lia).
    pose proof (ordered_within_le _ _ _ Ho).
    unfold apply_patch. cbn [splice].
    rewrite (app_assoc (slice source (node_start origin) lo)), (slice_app source) by lia.
    assert (Hl : length (slice source (node_start origin) (node_end (patch_node p)))
      = node_end (patch_node p) - node_start origin) by (rewrite slice_length; lia).
    rewrite take_app_le by lia. rewrite take_slice by lia.
    replace (node_start origin + (node_start (patch_node p) - node_start origin))
      with (node_start (patch_node p)) by lia.
    rewrite <- Hl at 1. rewrite drop_app_length. done.
Qed.
End Patch.

(** Patching replaces exactly the patched spans: for patches on parts that
    are in order and do not overlap, the result is the text of the origin with
    each part's span replaced by its new text and everything between the spans
    kept. *)
Theorem patchSource_splice source origin patches :
  node_end origin ≤ length source →
  ordered_within (node_start origin) (map patch_node patches) (node_end origin) →
  patchSource source origin patches = splice source (node_start origin) patches (node_end origin).
Proof.
  intros Hlen Ho. unfold patchSource. rewrite (sort_patches_ordered _ _ _ Ho).
  rewrite (foldl_patches_splice source origin Hlen (node_start origin)) by done.
  by rewrite slice_nil.
Qed.

Example patchSource_splice_witness :
  patchSource (js "p * 2") (Binary (js "*") (Variable_ (js "p") 0 1) (Literal (LNumber (num_of_Z 2)) true 4 5) 0 5)
    [mkPatch (Literal (LNumber (num_of_Z 2)) true 4 5) (js "30")] = js "p * 30".
Proof.
  rewrite patchSource_splice; [reflexivity|cbv; lia|cbv; lia].
Defined.

(** ** Unedited numbers and literals *)

Lemma num_eqb_refl v : is_finite v = true → num_eqb v v = true.
Proof.
  destruct v as [[]| | |[] m e]; try done; intros _; unfold num_eqb, SFeqb; simpl;
    by rewrite Z.compare_refl, Pos.compare_cont_refl.
Qed.


(** The text shown for a literal reads back as an equal number. *)
Lemma parse_number_text v i :
  literal_number_ok v i →
  ∃ w, parseNonNegativeNumber (num_to_string v) = Some w ∧ num_eqb w v = true.
Proof.
  intros (Hf & Hn & Hv & _). unfold parseNonNegativeNumber.
  destruct v as [[]|[]| |[] m e]; try done; [by exists zero..|].
  simpl in Hv. destruct (number_text m e Hv) as (Hc & _ & Hx).
  rewrite (trim_number _ Hc), Hx, number_of_text by done.
  exists (S754_finite false m e). split; [by rewrite Hn|]. by apply num_eqb_refl.
Qed.

Lemma same_number_literal v i s e :
  literal_number_ok v i →
  same_number (parseNonNegativeNumber (num_to_string v)) (Literal (LNumber v) i s e) = true.
Proof. intros Hv. by destruct (parse_number_text v i Hv) as (w & -> & Hw). Qed.

(** ** flattenBinary *)

Lemma flattenBinary_in_tree n op m : m ∈ flattenBinary n op → in_tree m n.
Proof.
  induction n as [n IH] using node_induction. rewrite Forall_forall in IH.
  destruct n as [| | | |o l r s e|]; cbn [flattenBinary];
    try (intros ->%list_elem_of_singleton; apply in_tree_self).
  destruct (o =s op); [|intros ->%list_elem_of_singleton; apply in_tree_self].
  intros [Hm|Hm]%elem_of_app; [eapply (in_tree_child _ l)|eapply (in_tree_child _ r)];
    try (simpl; set_solver); apply IH; simpl; set_solver.
Qed.

Lemma flattenBinary_height n op m :
  (∃ l r s e, n = Binary op l r s e) → m ∈ flattenBinary n op → node_height m < node_height n.
Proof.
  intros (l & r & s & e & ->). cbn [flattenBinary]. rewrite str_eqb_refl.
  assert (∀ n, m ∈ flattenBinary n op → node_height m ≤ node_height n) as H.
  { intros n. induction n as [n IH] using node_induction. rewrite Forall_forall in IH.
    destruct n as [| | | |o l' r' s' e'|]; cbn [flattenBinary]; try (by intros ->%list_elem_of_singleton).
    destruct (o =s op); [|by intros ->%list_elem_of_singleton].
    pose proof (node_height_child (Binary o l' r' s' e')) as Hh.
    intros [Hm|Hm]%elem_of_app; [specialize (Hh l')|specialize (Hh r')];
      (etrans; [apply IH; [|exact Hm]; simpl; set_solver|]); simpl; lia. }
  intros [Hm%H|Hm%H]%elem_of_app; simpl; lia.
Qed.

Lemma map_option_Some {A B} (f : A → option B) l ys :
  map_option f l = Some ys ↔ Forall2 (λ x y, f x = Some y) l ys.
Proof.
  revert ys. induction l as [|x l IH]; intros ys; simpl.
  - split; [intros [= <-]; constructor|by inversion 1].
  - split.
    + intros H. destruct (f x) as [y|] eqn:E; [|done]. simpl in H.
      destruct (map_option f l) as [zs|] eqn:El; [|done]. injection H as <-. constructor; [done|]. by apply IH.
    + inversion 1 as [|? y ? zs Hy Hzs]; subst. rewrite Hy. simpl.
      apply IH in Hzs. by rewrite Hzs.
Qed.

Lemma mapW_fst {A B} (f : A → W B) (g : A → B) l issues :
  (∀ x issues, x ∈ l → (f x issues).1 = g x) → (mapW f l issues).1 = map g l.
Proof.
  revert issues. induction l as [|x l IH]; intros issues H; simpl; [done|].
  unfold mbind, W_bind. pose proof (H x issues ltac:(set_solver)) as Hx.
  destruct (f x issues) as [y i1]. simpl in Hx. subst y.
  assert (Hl := IH i1 ltac:(intros; apply H; set_solver)).
  destruct (mapW f l i1) as [ys i2]. simpl in *. by subst.
Qed.

Lemma same_origins_same original : same_origins original (map Some original) = true.
Proof.
  unfold same_origins. rewrite length_map, Nat.eqb_refl. simpl.
  induction original as [|n l IH]; [done|]. simpl. rewrite IH. unfold same_node.
  by rewrite bool_decide_eq_true_2.
Qed.

(** ** Reading and writing back *)

Section Unedited.
Context `{Host} (source : jsstring) (root : ExpressionNode)
  (ty : ExpressionNode → option ExpressionType).
Context (Hok : node_ok root) (Hend : node_end root ≤ length source) (Hty : typing ty root).
#[local] Set Default Proof Using "All".

Abbreviation part n := (in_tree n root).
Abbreviation text n := (slice_node source n).

Lemma part_ok n : part n → node_ok n ∧ node_end n ≤ length source.
Proof.
  intros Hn. split; [by eapply node_ok_in_tree|].
  destruct (in_tree_span n root Hok Hn) as (_ & He & _). lia.
Qed.

Lemma patch_unedited n patches :
  part n →
  (∀ p, p ∈ patches → in_tree (patch_node p) n ∧ patch_text p = text (patch_node p)) →
  patchSource source n patches = text n.
Proof.
  intros Hn Hp. destruct (part_ok n Hn) as [Hnok Hne]. apply patchSource_same; [done|].
  intros p Hin. destruct (Hp p Hin) as [Ht ?]. split; [|done].
  destruct (in_tree_span _ _ Hnok Ht) as (? & ? & ? & _). split; lia.
Qed.

Lemma child_part c n : part n → c ∈ children n → part c.
Proof. intros Hn Hc. eapply in_tree_trans; [|exact Hn]. eapply in_tree_child; [exact Hc|apply in_tree_self]. Qed.

Lemma literal_part v i s e : part (Literal (LNumber v) i s e) → literal_number_ok v i.
Proof. intros [Hn _]%part_ok. by apply node_ok_inv in Hn as [(_ & _ & _ & Hv) _]. Qed.

Lemma fst_push {A} b id m (k : W A) issues t :
  (∀ j, (k j).1 = t) → ((push_when b id m;; k) issues).1 = t.
Proof. intros Hk. unfold push_when, push, mbind, W_bind. by destruct b; simpl; rewrite Hk. Qed.

Lemma child_in_tree c n : c ∈ children n → in_tree c n.
Proof. intros Hc. eapply in_tree_child; [exact Hc|apply in_tree_self]. Qed.

Lemma write_comparison_same n probe zone op value id issues :
  part n → read_comparison n = Some (probe, zone, op, value) →
  (write_comparison source id (Some n) probe zone op value issues).1 = text n.
Proof.
  intros Hn Hr. destruct n as [| | | |o l r s e|]; try done. unfold read_comparison in Hr.
  destruct r as [[|v| |] i p q| | | | |]; try done.
  destruct (str_in o comparisons); [|done].
  assert (Hv := literal_part v i p q (child_part (Literal (LNumber v) i p q) _ Hn ltac:(simpl; set_solver))).
  assert (Hlhs : o = op ∧ value = num_to_string v ∧
    match l with
    | Variable_ name _ _ => name =s probe
    | Call name (a :: _) _ _ => (name =s probe) && is_string_literal a zone
    | _ => false
    end = true).
  { destruct l as [|name a b|name args a b| | |]; try done.
    - destruct (str_in name _); [|done]. injection Hr as -> <- -> <-. by rewrite str_eqb_refl.
    - destruct args as [|[[z| | |] zi za zb| | | | |] args]; try done.
      destruct (str_in name _); [|done]. injection Hr as -> <- -> <-. simpl. by rewrite !str_eqb_refl. }
  destruct Hlhs as (-> & -> & Hl). unfold write_comparison. do 2 (apply fst_push; intros ?).
  rewrite str_eqb_refl, Hl, (same_number_literal v i p q Hv). simpl.
  apply patch_unedited; [done|].
  intros pt [-> |[-> |Hpt]%elem_of_cons]%elem_of_cons; [| |set_solver];
    (split; [apply child_in_tree; simpl; set_solver|done]).
Qed.

Lemma write_group_same l r s e op children :
  part (Binary op l r s e) →
  map vc_origin children = map Some (flattenBinary (Binary op l r s e) op) →
  write_group source op (Some (Binary op l r s e)) children
    (map (λ n, text n) (flattenBinary (Binary op l r s e) op)) = text (Binary op l r s e).
Proof.
  intros Hn Ho. unfold write_group. rewrite str_eqb_refl, Ho, same_origins_same.
  apply patch_unedited; [done|]. intros p Hp. unfold zip_patches in Hp.
  rewrite zip_with_fmap_r, zip_with_diag in Hp.
  apply list_elem_of_fmap in Hp as (c & -> & Hc). split; [by eapply flattenBinary_in_tree|done].
Qed.

Lemma bind_fst {A B} (m : W A) (k : A → W B) issues a b :
  (m issues).1 = a → (∀ j, (k a j).1 = b) → ((m ≫= k) issues).1 = b.
Proof. unfold mbind, W_bind. destruct (m issues) as [x j]. simpl. intros -> Hk. apply Hk. Qed.

(** A condition that came from [n] and writes back as its text. *)
Definition written (n : ExpressionNode) (vc : VisualCondition) : Prop :=
  vc_origin vc = Some n ∧ ∀ issues, (writeVisualCondition source vc issues).1 = text n.

Lemma written_all nodes children issues :
  Forall2 written nodes children →
  (mapW (writeVisualCondition source) children issues).1 = map (λ n, text n) nodes ∧
  map vc_origin children = map Some nodes.
Proof.
  intros Hall. split.
  - revert issues. induction Hall as [|n vc nodes children [_ Hw] _ IH]; intros issues; [done|].
    simpl. eapply bind_fst; [apply Hw|]. intros j. eapply bind_fst; [apply IH|]. done.
  - induction Hall as [|n vc nodes children [Ho _] _ IH]; [done|]. simpl. by rewrite Ho, IH.
Qed.

Lemma read_condition_written fuel n vc : part n → read_condition fuel n = Some vc → written n vc.
Proof.
  revert n vc. induction fuel as [|fuel IH]; intros n vc Hn Hr; [done|].
  destruct n as [| | |o x s e|o l r s e|]; try done; cbn [read_condition] in Hr.
  - destruct (o =s js "!"); [|done].
    destruct (read_condition fuel x) as [child|] eqn:E; [|done]. injection Hr as <-.
    destruct (IH x child (child_part x (Unary o x s e) Hn ltac:(simpl; set_solver)) E) as [Ho Hw].
    split; [done|]. intros issues. cbn [writeVisualCondition]. eapply bind_fst; [apply Hw|].
    intros j. rewrite Ho, bool_decide_eq_true_2 by done. apply patch_unedited; [done|].
    intros p ->%list_elem_of_singleton. split; [apply child_in_tree; simpl; set_solver|done].
  - destruct (str_in o [js "&&"; js "||"]) eqn:Hop.
    + destruct (map_option _ _) as [children|] eqn:E; [|done]. apply map_option_Some in E.
      set (n := Binary o l r s e) in *.
      assert (Hall : Forall2 written (flattenBinary n o) children).
      { assert (Hparts : Forall (λ m, part m) (flattenBinary n o)).
        { apply Forall_forall. intros m Hm. eapply in_tree_trans; [|exact Hn].
          by eapply flattenBinary_in_tree. }
        clear -IH E Hparts. induction E as [|m c ms cs Hm _ IHE]; constructor.
        - apply IH; [by inversion Hparts|done].
        - apply IHE. by inversion Hparts. }
      assert (Hwrite : ∀ (id : jsstring) (j : list VisualBillingIssue),
        ((push_when (bool_decide (length children = 0)) id group_message;;
          texts ← mapW (writeVisualCondition source) children;
          mret (write_group source o (Some n) children texts)) j).1 = text n).
      { intros id j. apply fst_push. intros j'. destruct (written_all _ _ j' Hall) as [Ht Ho].
        eapply bind_fst; [exact Ht|]. intros j2. by apply write_group_same. }
      apply str_in_elem in Hop.
      destruct (o =s js "&&") eqn:E1; injection Hr as <-; (split; [done|]); intros j.
      * apply str_eqb_eq in E1 as ->. apply Hwrite.
      * apply str_eqb_neq in E1. assert (o = js "||") as -> by set_solver. apply Hwrite.
    + destruct (read_comparison (Binary o l r s e)) as [[[[probe zone] op] value]|] eqn:E; [|done].
      injection Hr as <-. split; [done|]. intros issues. by apply write_comparison_same.
Qed.

Lemma read_prices_spec terms acc prices :
  read_prices terms acc = Some prices →
  ∃ new, prices = acc ++ new ∧ Forall2 (λ t p, read_price t = Some p) terms new.
Proof.
  revert acc. induction terms as [|t terms IH]; intros acc H0; simpl in H0.
  - injection H0 as <-. exists []. by rewrite app_nil_r.
  - destruct (read_price t) as [p|] eqn:E; [|done]. simpl in H0.
    destruct (existsb _ _); [done|]. apply IH in H0 as (new & -> & Hall).
    exists (p :: new). rewrite <- app_assoc. split; [done|]. by constructor.
Qed.

Lemma read_price_inv t p :
  read_price t = Some p →
  ∃ name a b v i c d s e,
    t = Binary (js "*") (Variable_ name a b) (Literal (LNumber v) i c d) s e ∧
    p = mkPrice name (num_to_string v) (Some t).
Proof.
  destruct t as [| | | |o l r s e|]; try done. destruct l as [|name a b| | | |]; try done.
  destruct r as [[|v| |] i c d| | | | |]; try done. unfold read_price.
  destruct (_ && _) eqn:E; [|done]. intros [= <-].
  apply andb_true_iff in E as [[[->%str_eqb_eq _]%andb_true_iff _]%andb_true_iff _].
  by exists name, a, b, v, i, c, d, s, e.
Qed.

(** The patch of a price that was not edited. *)
Definition unedited_patch (body : ExpressionNode) (p : patch) : Prop :=
  in_tree (patch_node p) body ∧ patch_text p = text (patch_node p).

Lemma write_price_same id t p issues :
  part t → read_price t = Some p →
  ∃ ps, (write_price source id p issues).1 = (text t, ps) ∧ ∀ q, q ∈ ps → unedited_patch t q.
Proof.
  intros Ht Hp. destruct (read_price_inv t p Hp) as (name & a & b & v & i & c & d & s & e & -> & ->).
  assert (Hv := literal_part v i c d (child_part (Literal (LNumber v) i c d) _ Ht ltac:(simpl; set_solver))).
  set (rhs := Literal (LNumber v) i c d) in *. set (t := Binary (js "*") (Variable_ name a b) rhs s e) in *.
  exists [mkPatch rhs (text rhs)]. split.
  - assert (Hpatch : patchSource source t [mkPatch rhs (text rhs)] = text t).
    { apply patch_unedited; [done|]. intros q ->%list_elem_of_singleton.
      split; [apply child_in_tree; subst t; simpl; set_solver|done]. }
    assert (Hsame : same_number (parseNonNegativeNumber (num_to_string v)) rhs = true)
      by (by apply same_number_literal).
    unfold write_price. cbn [p_value p_origin variable]. apply fst_push. intros j.
    unfold mret, W_ret. cbn [fst]. subst t. subst rhs. cbn match. rewrite Hsame, Hpatch. done.
  - intros q ->%list_elem_of_singleton. split; [apply child_in_tree; subst t; simpl; set_solver|done].
Qed.

Lemma write_prices_same id body terms prices issues :
  (∀ t, t ∈ terms → in_tree t body) → part body →
  Forall2 (λ t p, read_price t = Some p) terms prices →
  (∀ q, q ∈ mjoin (map snd (mapW (write_price source id) prices issues).1) → unedited_patch body q) ∧
  map p_origin prices = map Some terms.
Proof.
  intros Hin Hb Hall. revert issues.
  induction Hall as [|t p terms prices Hp Hall IH]; intros issues.
  - split; [simpl; set_solver|done].
  - assert (Hit : in_tree t body) by (apply Hin; set_solver).
    assert (Ht : part t) by (by eapply in_tree_trans).
    destruct (write_price_same id t p issues Ht Hp) as (ps & Hw & Hps).
    simpl. unfold mbind, W_bind. destruct (write_price source id p issues) as [r j]. simpl in Hw. subst r.
    destruct (IH ltac:(intros; apply Hin; set_solver) j) as [Hq Ho].
    destruct (mapW (write_price source id) prices j) as [rs j2]. unfold mret, W_ret. cbn [fst map] in *.
    split.
    + intros q. change (mjoin (?x :: ?l)) with (x ++ mjoin l). cbn [snd].
      intros [Hq'|Hq']%elem_of_app; [|by apply Hq].
      destruct (Hps q Hq') as [Hqt ?]. split; [|done]. by eapply in_tree_trans.
    + rewrite Ho. by destruct (read_price_inv t p Hp) as (? & ? & ? & ? & ? & ? & ? & ? & ? & _ & ->).
Qed.

Lemma write_tier_same id label i p q body s e prices issues :
  let n := Call (js "tier") [Literal (LString label) i p q; body] s e in
  part n → read_prices (flattenBinary body (js "+")) [] = Some prices →
  (write_tier source id (Some n) label prices issues).1 = text n.
Proof.
  intros n Hn Hr. destruct (read_prices_spec _ _ _ Hr) as (new & -> & Hall). simpl in Hall |- *.
  assert (Hb : part body) by (apply (child_part body n); [done|subst n; simpl; set_solver]).
  unfold write_tier. set (k := push_when _ _ _).
  assert (Hpush : ∀ (m : W jsstring) t, (∀ j, (m j).1 = t) → ((k;; m) issues).1 = t).
  { intros m t Hm. by apply fst_push. }
  apply Hpush. intros j. clear Hpush k.
  destruct (write_prices_same id body _ new j (flattenBinary_in_tree body (js "+")) Hb Hall) as [Hq Ho].
  unfold mbind, W_bind. destruct (mapW (write_price source id) new j) as [ws j2]. cbn [fst] in Hq.
  unfold mret, W_ret. cbn [fst]. subst n. change (js "tier" =s js "tier") with true. cbn match.
  rewrite Ho, same_origins_same. cbn [is_string_literal].
  apply patch_unedited; [done|]. intros pt [->|Hpt]%elem_of_cons.
  - split; [apply child_in_tree; simpl; set_solver|cbn [patch_text patch_node]; by rewrite str_eqb_refl].
  - destruct (Hq pt Hpt) as [Hit ?]. split; [|done]. eapply in_tree_child; [|exact Hit]. simpl. set_solver.
Qed.

Lemma fixed_amount_number amount i p q args s e :
  part (Call (js "fixed") (Literal amount i p q :: args) s e) → ∃ v, amount = LNumber v.
Proof.
  intros Hn. destruct (Hty _ Hn) as (t & _ & Ht).
  destruct (Hty _ (child_part (Literal amount i p q) _ Hn ltac:(simpl; set_solver))) as (ta & Hta & Hnta).
  cbn [node_type] in Ht. apply bind_Ok in Ht as ([] & _ & Ht).
  change (js "fixed" =s js "header") with false in Ht. change (js "fixed" =s js "has") with false in Ht.
  change (js "fixed" =s js "tier") with false in Ht.
  change (str_in (js "fixed") TIME_FUNCTIONS) with false in Ht.
  change (str_in (js "fixed") numeric_functions) with true in Ht. cbn match in Ht.
  apply bind_Ok in Ht as ([] & Hreq & _). cbn [require_all] in Hreq.
  apply bind_Ok in Hreq as ([] & Hreq & _). cbn [requireType] in Hreq. rewrite Hta in Hreq.
  destruct amount; [|by eexists|..]; injection Hnta as <-; done.
Qed.

Lemma write_fixed_same id label i p q amount ai ap aq fs fe s e issues :
  let price := Call (js "fixed") [Literal amount ai ap aq] fs fe in
  let n := Call (js "tier") [Literal (LString label) i p q; price] s e in
  part n → (write_fixed source id (Some n) label (literal_text amount) issues).1 = text n.
Proof.
  intros price n Hn.
  assert (Hp : part price) by (apply (child_part price n); [done|subst n; simpl; set_solver]).
  destruct (fixed_amount_number _ _ _ _ _ _ _ Hp) as [v ->]. cbn [literal_text].
  assert (Hv := literal_part v ai ap aq
    (child_part (Literal (LNumber v) ai ap aq) _ Hp ltac:(simpl; set_solver))).
  unfold write_fixed. apply fst_push. intros j. unfold mret, W_ret. cbn [fst].
  subst n. change (js "tier" =s js "tier") with true. cbn match. subst price.
  change (js "fixed" =s js "fixed") with true. cbn match.
  rewrite (same_number_literal v ai ap aq Hv). cbn [is_string_literal]. rewrite str_eqb_refl.
  set (amount := Literal (LNumber v) ai ap aq). set (price := Call (js "fixed") [amount] fs fe) in *.
  rewrite (patch_unedited price).
  - apply patch_unedited; [done|].
    intros pt [-> |[-> |Hpt]%elem_of_cons]%elem_of_cons; [| |set_solver];
      (split; [apply child_in_tree; simpl; set_solver|cbn [patch_text patch_node]; by rewrite ?str_eqb_refl]).
  - done.
  - intros pt ->%list_elem_of_singleton. split; [apply child_in_tree; subst price; simpl; set_solver|done].
Qed.

Lemma readVisualPricing_written n v :
  part n → readVisualPricing n = Some v → ∀ issues, (writeVisualPricing source v issues).1 = text n.
Proof.
  revert v. induction n as [n IH] using node_induction. rewrite Forall_forall in IH.
  intros v Hn Hr issues. destruct n as [| |f args s e| | |c y m s e]; try done; cbn [readVisualPricing] in Hr.
  - destruct args as [|[[label| | |] i p q| | | | |] [|body [|]]]; try done.
    destruct (f =s js "tier") eqn:Ef; [|done]. apply str_eqb_eq in Ef as ->.
    assert (Hsum : ('(prices) ← read_prices (flattenBinary body (js "+")) [];
        Some (VTier (node_id (js "pricing-") (Call (js "tier") [Literal (LString label) i p q; body] s e))
               (Some (Call (js "tier") [Literal (LString label) i p q; body] s e)) label prices unit_token []))
        = Some v → (writeVisualPricing source v issues).1 =
          text (Call (js "tier") [Literal (LString label) i p q; body] s e)).
    { intros H0. destruct (read_prices _ _) as [prices|] eqn:E; [|done]. injection H0 as <-.
      cbn [writeVisualPricing]. by apply write_tier_same. }
    destruct body as [| |g gargs gs ge| | |]; try (by apply Hsum).
    destruct gargs as [|[amount ai ap aq| | | | |] [|]]; try (by apply Hsum).
    destruct (g =s js "fixed") eqn:Eg; [|by apply Hsum]. apply str_eqb_eq in Eg as ->.
    injection Hr as <-. cbn [writeVisualPricing]. by apply write_fixed_same.
  - destruct (readVisualCondition c) as [vc|] eqn:Ec; [|done].
    destruct (readVisualPricing y) as [vy|] eqn:Ey; [|done].
    destruct (readVisualPricing m) as [vm|] eqn:Em; [|done]. injection Hr as <-.
    assert (Hcp : part c) by (apply (child_part c _ Hn); simpl; set_solver).
    assert (Hyp : part y) by (apply (child_part y _ Hn); simpl; set_solver).
    assert (Hmp : part m) by (apply (child_part m _ Hn); simpl; set_solver).
    cbn [writeVisualPricing].
    eapply bind_fst; [exact (proj2 (read_condition_written _ c vc Hcp Ec) issues)|]. intros j1.
    eapply bind_fst; [by apply (IH y); [simpl; set_solver|..]|]. intros j2.
    eapply bind_fst; [by apply (IH m); [simpl; set_solver|..]|]. intros j3.
    unfold mret, W_ret. cbn [fst]. apply patch_unedited; [done|].
    intros pt Hpt. repeat (apply elem_of_cons in Hpt as [-> |Hpt];
      [split; [apply child_in_tree; simpl; set_solver|done]|]). set_solver.
Qed.
End Unedited.

(** C1. Opening an expression in the visual editor and saving it without an
    edit changes nothing: if the editor accepts a source, the document it shows
    serializes to exactly that source, white space, redundant parentheses and number
    notation included. *)
Theorem visual_round_trip `{Host} source document :
  parseVisualBillingDocument source = Some document →
  d_source document = source ∧ serializeVisualBillingDocument document = Serialized source.
Proof.
  unfold parseVisualBillingDocument.
  destruct (compile_source source) as [c|] eqn:Hc; [|done].
  destruct (readVisualPricing (c_ast c)) as [v|] eqn:Hr; [|done].
  destruct (serializeVisualBillingDocument (mkDocument source v)) as [s|] eqn:Hs; [|done].
  intros [= <-]. split; [done|]. rewrite Hs. f_equal.
  pose proof (compile_source_ready _ _ Hc) as Hok. destruct (co_typing _ _ Hok) as [ty Hty].
  pose proof (parse_source_spec source) as Hparse. rewrite (co_parse _ _ Hok) in Hparse.
  destruct Hparse as (Hn & Hend & _).
  assert (Hw := readVisualPricing_written source (c_ast c) ty Hn Hend Hty (c_ast c) v (in_tree_self _) Hr []).
  unfold serializeVisualBillingDocument in Hs. simpl in Hs.
  destruct (writeVisualPricing source v []) as [body issues]. simpl in Hw. subst body.
  destruct issues; [|done]. rewrite Hc in Hs. case_in Hs; [|done]. injection Hs as <-.
  pose proof (node_ok_span _ Hn).
  unfold slice_node, slice.
  set (a := node_start (c_ast c)) in *. set (b := node_end (c_ast c)) in *.
  assert (Hdrop : drop b source = drop (b - a) (drop a source)) by (rewrite drop_drop; f_equal; lia).
  by rewrite Hdrop, take_drop, take_drop.
Qed.

Definition visual_source : jsstring :=
  js "v1: len > 2.50e1 && hour('UTC') < 24 ? tier('a', p * 1.0 + c*3) : (tier('b', fixed( .5 )))".

Example visual_round_trip_witness :
  ∃ document, @parseVisualBillingDocument utc_host visual_source = Some document ∧
    @serializeVisualBillingDocument utc_host document = Serialized visual_source.
Proof.
  assert (∃ document, @parseVisualBillingDocument utc_host visual_source = Some document)
    as [document Hd] by (eexists; vm_compute; reflexivity).
  exists document. split; [exact Hd|]. exact (proj2 (visual_round_trip _ _ Hd)).
Defined.

(** ** The recursion bound of [readVisualCondition] *)

Lemma map_option_ext {A B} (f g : A → option B) l :
  (∀ x, x ∈ l → f x = g x) → map_option f l = map_option g l.
Proof.
  induction l as [|x l IH]; intros Hfg; simpl; [done|].
  rewrite Hfg by set_solver. rewrite IH; [done|]. intros y Hy. apply Hfg. set_solver.
Qed.

Lemma read_condition_fuel f1 f2 n :
  node_height n < f1 → node_height n < f2 → read_condition f1 n = read_condition f2 n.
Proof.
  revert f2 n. induction f1 as [|f1 IH]; intros f2 n H1 H2; [lia|]. destruct f2 as [|f2]; [lia|].
  destruct n as [| | |o x s e|o l r s e|]; try done; cbn [read_condition].
  - simpl in H1, H2. by rewrite (IH f2 x) by lia.
  - destruct (str_in o [js "&&"; js "||"]); [|done].
    rewrite (map_option_ext (read_condition f1) (read_condition f2)); [done|].
    intros m Hm. apply flattenBinary_height in Hm; [|eauto]. apply IH; lia.
Qed.

(** [readVisualCondition] is the recursive function of the source: the
    recursion bound of the model is never reached, so a group reads all the
    parts of its chain with the function itself. *)
Theorem readVisualCondition_unfold o l r s e :
  let node := Binary o l r s e in
  str_in o [js "&&"; js "||"] = true →
  readVisualCondition node =
    (children ← map_option readVisualCondition (flattenBinary node o);
     Some (if o =s js "&&" then VAll (node_id (js "condition-") node) (Some node) children
           else VAny (node_id (js "condition-") node) (Some node) children)).
Proof.
  intros node Ho. unfold readVisualCondition at 1. cbn [read_condition node]. rewrite Ho.
  rewrite (map_option_ext _ readVisualCondition); [done|].
  intros m Hm. apply flattenBinary_height in Hm; [|eauto].
  unfold readVisualCondition. apply read_condition_fuel; simpl in *; lia.
Qed.

Example readVisualCondition_unfold_witness :
  is_Some (readVisualCondition (Binary (js "&&")
    (Binary (js "<") (Variable_ (js "p") 0 1) (Literal (LNumber zero) true 2 3) 0 3)
    (Binary (js "<") (Variable_ (js "c") 4 5) (Literal (LNumber zero) true 6 7) 4 7) 0 7)).
Proof.
  rewrite readVisualCondition_unfold by reflexivity. vm_compute. eexists. reflexivity.
Defined.
