(* ===== verification/DisplayFacts.v ===== *)
(** * The tiers shown are the tiers billed

    A chain of token tiers read from an expression names, for any token counts,
    the tier, the billing unit and the fixed price that the interpreter ends
    with. *)

From S2P Require Import Prelude JsNumber JsText Types Parser ParserFacts Compile CompileFacts.
From S2P Require Import Runtime RuntimeFacts RuntimeTheorems Display.
From Stdlib Require Import Floats.SpecFloat.

(** ** Selecting a tier by its conditions *)

Definition token_value (context : BillingSimulationContext) (name : jsstring) : num :=
  match default VUndefined (tokens context ≫= λ t, own t name) with VNumber v => v | _ => nan end.

Definition compare_with (op : jsstring) (x y : num) : bool :=
  if op =s js "<" then num_ltb x y
  else if op =s js "<=" then num_leb x y
  else if op =s js ">" then num_ltb y x
  else num_leb y x.

Definition holds (context : BillingSimulationContext) (c : TokenTierCondition) : bool :=
  compare_with (tc_op c) (token_value context (tc_var c)) (tc_value c).
Definition selected (context : BillingSimulationContext) (tier : TokenTier) : bool :=
  forallb (holds context) (conditions tier).

(** What an evaluation that ends in [tier] leaves in the state. *)
Definition billed (tier : TokenTier) (s s' : RuntimeState) : Prop :=
  matchedTier s' = label tier ∧
  fixedPrice s' = match tt_fixedPrice tier with Some a => Some a | None => fixedPrice s end ∧
  billingUnit s' = match tt_fixedPrice tier with Some _ => unit_request | None => billingUnit s end.

Lemma map_option_app {A B} (f : A → option B) l1 l2 ys :
  map_option f (l1 ++ l2) = Some ys →
  ∃ y1 y2, ys = y1 ++ y2 ∧ map_option f l1 = Some y1 ∧ map_option f l2 = Some y2.
Proof.
  revert ys. induction l1 as [|x l1 IH]; intros ys H; [by exists [], ys|].
  simpl in *. destruct (f x) as [y|]; [|done]. simpl in *.
  destruct (map_option f (l1 ++ l2)) as [zs|]; [|done]. injection H as <-.
  destruct (IH zs eq_refl) as (y1 & y2 & -> & -> & ->). by exists (y :: y1), y2.
Qed.

Section Chain.
Context `{Host} (compiled : CompiledBillingExpression) (context : BillingSimulationContext)
  (now : Date) (headers : list (jsstring * jsstring)).
Abbreviation eval := (evaluate compiled context now headers).

(** The value of a node is the value computed by its case, with the checks. *)
Lemma eval_literal d v i s e st w st' :
  eval d (Literal (LNumber v) i s e) st = Ok (w, st') → st' = st ∧ rv_value w = VNumber v.
Proof.
  cbn [evaluate]. destruct (256 <? S d); [done|]. intros (u & t & Hu & Hc)%stateR_bind_Ok.
  injection Hu as <- <-. unfold lift_st in Hc. destruct (check_value _ _) as [u'|] eqn:E; [|done].
  injection Hc as <- <-. unfold check_value in E. simpl in E.
  destruct (negb _); [done|]. destruct (_ && _); [done|]. by injection E as <-.
Qed.

Lemma eval_token d name s e st w st' :
  name ≠ js "image_count" →
  eval d (Variable_ name s e) st = Ok (w, st') → st' = st ∧ rv_value w = VNumber (token_value context name).
Proof.
  intros Hne. cbn [evaluate]. destruct (256 <? S d); [done|]. intros (u & t & Hu & Hc)%stateR_bind_Ok.
  assert (u = w ∧ t = st') as [-> ->].
  { unfold lift_st, check_value in Hc. repeat case_match; by simplify_eq. }
  unfold lift_st in Hu. destruct (eval_variable context name s) as [u|] eqn:E; [|done].
  injection Hu as -> ->. split; [done|]. unfold eval_variable in E.
  apply str_eqb_neq in Hne. rewrite Hne in E. unfold token_value.
  destruct (default VUndefined _) as [| | |n| | |]; try done.
  destruct (num_ltb n zero); [done|]. by injection E as <-.
Qed.

Lemma eval_binary_inv d op l r s e st w st' :
  eval d (Binary op l r s e) st = Ok (w, st') →
  eval_binary op s (mkOperand (node_start l) (eval (S d) l)) (mkOperand (node_start r) (eval (S d) r)) st
    = Ok (w, st').
Proof.
  cbn [evaluate]. destruct (256 <? S d); [done|]. intros (u & t & Hu & Hc)%stateR_bind_Ok.
  assert (u = w ∧ t = st') as [-> ->]; [|done].
  unfold lift_st, check_value in Hc. repeat case_match; by simplify_eq.
Qed.

Lemma eval_strict_inv d op l r s e st w st' :
  str_in op [js "&&"; js "||"] = false → eval d (Binary op l r s e) st = Ok (w, st') →
  ∃ a s1 b, eval (S d) l st = Ok (a, s1) ∧ eval (S d) r s1 = Ok (b, st') ∧ apply_binary op s a b = Ok w.
Proof.
  intros Hop Hev%eval_binary_inv. simpl in Hop. apply orb_false_iff in Hop as [H1 Hop].
  apply orb_false_iff in Hop as [H2 _]. unfold eval_binary in Hev. rewrite H1, H2 in Hev. cbn [run] in Hev.
  apply stateR_bind_Ok in Hev as (a & s1 & Ha & Hev).
  apply stateR_bind_Ok in Hev as (b & s2 & Hb & Hev). unfold lift_st in Hev.
  destruct (apply_binary _ _ _ _) as [u|] eqn:E; [|done]. injection Hev as <- <-. by exists a, s1, b.
Qed.

Lemma as_boolean_inv p (m : R RuntimeValue) st b st' :
  as_boolean (mkOperand p m) st = Ok (b, st') → ∃ w, m st = Ok (w, st') ∧ rv_value w = VBoolean b.
Proof.
  unfold as_boolean. intros (w & t & Hw & Hb)%stateR_bind_Ok. cbn [run] in Hw.
  exists w. destruct (rv_value w) eqn:E; try done. injection Hb as -> ->. done.
Qed.

(** A conjunction of token conditions evaluates to their conjunction and
    leaves the state alone. *)
Lemma condition_eval n conds d st w st' :
  tokenConditions n = Some conds → eval d n st = Ok (w, st') →
  st' = st ∧ rv_value w = VBoolean (forallb (holds context) conds).
Proof.
  unfold tokenConditions. revert conds d st w st'.
  induction n as [n IH] using node_induction. rewrite Forall_forall in IH.
  intros conds d st w st' Hc Hev.
  destruct n as [| | | |op l r s e|]; try done.
  destruct (op =s js "&&") eqn:Eop.
  - apply str_eqb_eq in Eop as ->. cbn [flattenBinary] in Hc. rewrite str_eqb_refl in Hc.
    apply map_option_app in Hc as (cl & cr & -> & Hl & Hr). rewrite forallb_app.
    apply eval_binary_inv in Hev. unfold eval_binary in Hev.
    change (js "&&" =s js "&&") with true in Hev. cbn match in Hev.
    apply stateR_bind_Ok in Hev as (x & s1 & Hx & Hev). apply as_boolean_inv in Hx as (wl & Hwl & Hx).
    destruct (IH l ltac:(simpl; set_solver) _ _ _ _ _ Hl Hwl) as [-> Hvl].
    rewrite Hx in Hvl. injection Hvl as ->. destruct (forallb (holds context) cl); simpl.
    + apply stateR_bind_Ok in Hev as (y & s2 & Hy & Hev). apply as_boolean_inv in Hy as (wr & Hwr & Hy).
      destruct (IH r ltac:(simpl; set_solver) _ _ _ _ _ Hr Hwr) as [-> Hvr].
      injection Hev as <- <-. by rewrite Hy in Hvr.
    + injection Hev as <- <-. done.
  - cbn [flattenBinary] in Hc. rewrite Eop in Hc. cbn [map_option] in Hc.
    destruct (tokenCondition _) as [c|] eqn:Ec; [|done]. injection Hc as <-.
    destruct l as [|name a b| | | |]; try done. destruct r as [[|v| |] i p q| | | | |]; try done.
    unfold tokenCondition in Ec.
    destruct (str_in op _) eqn:Ho; [|done]. destruct (str_in name _) eqn:Hname; [|done].
    destruct (negb _); [|done]. injection Ec as <-. apply str_in_elem in Ho, Hname.
    assert (Hlog : str_in op [js "&&"; js "||"] = false).
    { destruct (str_in op [js "&&"; js "||"]) eqn:E; [|done]. apply str_in_elem in E. exfalso.
      simpl in Ho. set_unfold in Ho. set_unfold in E. destruct_or!; subst; discriminate. }
    destruct (eval_strict_inv _ _ _ _ _ _ _ _ _ Hlog Hev) as (x & s1 & y & Hx & Hy & Hxy).
    apply eval_token in Hx as [-> Hx].
    2: { intros ->. simpl in Hname. set_unfold in Hname. by destruct_or!. }
    apply eval_literal in Hy as [-> Hy]. split; [done|]. simpl. rewrite andb_true_r.
    unfold holds, compare_with. simpl tc_op. simpl tc_var. simpl tc_value.
    unfold apply_binary in Hxy. rewrite Hx, Hy in Hxy. simpl in Ho. set_unfold in Ho.
    destruct_or!; subst op; cbn in Hxy; by injection Hxy as <-.
Qed.

(** *** Prices contain no calls that change the state *)

Lemma uses_child_inv f n :
  uses_function f n → (∃ args s e, n = Call f args s e) ∨ ∃ c, c ∈ children n ∧ uses_function f c.
Proof.
  intros (args & s & e & Hin). destruct (in_tree_inv _ _ Hin) as [<-|(c & Hc & Hcn)].
  - left. eauto.
  - right. exists c. split; [done|]. by exists args, s, e.
Qed.

Lemma leaf_uses f n : children n = [] → (∀ args s e, n ≠ Call f args s e) → ¬ uses_function f n.
Proof.
  intros Hc Hn [(args & s & e & He)|(c & Hin & _)]%uses_child_inv; [by eapply Hn|].
  rewrite Hc in Hin. set_solver.
Qed.

Lemma price_literal_pure f n v : nonnegativePriceLiteral n = Some v → ¬ uses_function f n.
Proof.
  destruct n as [| | |o x s e| |]; try done; [intros _; by apply leaf_uses|]. simpl.
  destruct (_ && _) eqn:E; [|done]. intros _. apply andb_true_iff in E as [_ E].
  destruct x as [[|w| |] i p q| | | | |]; try done.
  intros [(? & ? & ? & [=])|(c & Hc & Hu)]%uses_child_inv. apply list_elem_of_singleton in Hc as ->.
  revert Hu. by apply leaf_uses.
Qed.

Lemma text_remainder_pure f n : text_remainder n = true → ¬ uses_function f n.
Proof.
  destruct n as [| | | |o l r s e|]; try done. simpl. intros E.
  apply andb_true_iff in E as [[_ Hl]%andb_true_iff Hr].
  intros [(? & ? & ? & [=])|(c & Hc & Hu)]%uses_child_inv. simpl in Hc.
  destruct l as [|? ? ?| | | |]; try done. destruct r as [|? ? ?| | | |]; try done.
  set_unfold in Hc. destruct_or!; subst; revert Hu; by apply leaf_uses.
Qed.

Lemma zero_literal_pure f n : is_number_literal n zero = true → ¬ uses_function f n.
Proof. destruct n as [[|w| |] i p q| | | | |]; try done. intros _. by apply leaf_uses. Qed.

Lemma priced_variable_pure f n x :
  f ≠ js "max" → priced_variable n = Some x → ¬ uses_function f n.
Proof.
  intros Hf Hp. destruct n as [|? ? ?|g args s e| | |]; try done; [by apply leaf_uses|].
  unfold priced_variable in Hp. destruct args as [|a [|b [|]]]; try done.
  destruct (g =s js "max") eqn:Eg; [|done]. apply str_eqb_eq in Eg as ->.
  intros [(? & ? & ? & [= <-])|(c & Hc & Hu)]%uses_child_inv; [done|]. simpl in Hc. revert Hu.
  destruct (is_number_literal a zero) eqn:Ea.
  - destruct (text_remainder b) eqn:Eb; [|done]. set_unfold in Hc. destruct_or!; subst;
      [by apply zero_literal_pure|by apply text_remainder_pure].
  - destruct (is_number_literal b zero) eqn:Eb; [|done].
    destruct (text_remainder a) eqn:Et; [|done]. set_unfold in Hc. destruct_or!; subst;
      [by apply text_remainder_pure|by apply zero_literal_pure].
Qed.

Lemma price_term_pure f n vp : f ≠ js "max" → price_term n = Some vp → ¬ uses_function f n.
Proof.
  intros Hf Hp. destruct n as [| | | |o l r s e|]; try done. unfold price_term in Hp.
  destruct (o =s js "*"); [|done].
  intros [(? & ? & ? & [=])|(c & Hc & Hu)]%uses_child_inv. simpl in Hc. revert Hu.
  destruct (nonnegativePriceLiteral r) as [v|] eqn:Er.
  - destruct (priced_variable l) as [x|] eqn:El; [|done]. set_unfold in Hc. destruct_or!; subst;
      [by eapply priced_variable_pure|by eapply price_literal_pure].
  - destruct (nonnegativePriceLiteral l) as [v|] eqn:El; [|done]. simpl in Hp.
    destruct (priced_variable r) as [x|] eqn:Er'; [|done]. set_unfold in Hc. destruct_or!; subst;
      [by eapply price_literal_pure|by eapply priced_variable_pure].
Qed.

Lemma price_terms_Forall terms acc prices :
  price_terms terms acc = Some prices → Forall (λ t, ∃ vp, price_term t = Some vp) terms.
Proof.
  revert acc. induction terms as [|t terms IH]; intros acc Hp; [constructor|]. simpl in Hp.
  destruct (price_term t) as [[x v]|] eqn:E; [|done]. simpl in Hp.
  destruct (own acc x); [done|]. constructor; [eauto|by eapply IH].
Qed.

Lemma flatten_pure f n op :
  Forall (λ t, ¬ uses_function f t) (flattenBinary n op) → ¬ uses_function f n.
Proof.
  induction n as [n IH] using node_induction. rewrite Forall_forall in IH. intros Hall.
  destruct n as [| | | |o l r s e|]; cbn [flattenBinary] in Hall; try (by inversion Hall).
  destruct (o =s op); [|by inversion Hall]. apply Forall_app in Hall as [Hl Hr].
  intros [(? & ? & ? & [=])|(c & Hc & Hu)]%uses_child_inv. revert Hu. simpl in Hc, IH.
  apply elem_of_cons in Hc as [->|Hc]; [apply IH; [set_solver|done]|].
  apply list_elem_of_singleton in Hc as ->. apply IH; [set_solver|done].
Qed.

Lemma prices_pure f body prices :
  f ≠ js "max" → price_terms (flattenBinary body (js "+")) [] = Some prices → ¬ uses_function f body.
Proof.
  intros Hf Hp. apply (flatten_pure f body (js "+")). eapply Forall_impl; [by eapply price_terms_Forall|].
  intros t [vp Ht]. by eapply price_term_pure.
Qed.

(** Evaluating an expression without [fixed] keeps the unit and the price. *)
Lemma unfixed_eval n d s v s' :
  node_ok n → ¬ uses_function (js "fixed") n → eval d n s = Ok (v, s') →
  fixedPrice s' = fixedPrice s ∧ billingUnit s' = billingUnit s.
Proof.
  intros Hok Hf Hev.
  set (Rel := λ s s', fixedPrice s' = fixedPrice s ∧ billingUnit s' = billingUnit s).
  assert (Hs : safe (λ _, True) Rel (d + node_height n < 256) (eval d n)).
  { apply evaluate_rel; unfold Rel; try done; [by intros a b c [-> ->]|..]; by intros. }
  specialize (Hs s I). unfold wpe in Hs. rewrite Hev in Hs. apply Hs.
Qed.

(** *** A tier call *)

Lemma fixed_eval d a i p q s e st w st' :
  eval d (Call (js "fixed") [Literal (LNumber a) i p q] s e) st = Ok (w, st') → st' = set_fixed a st.
Proof.
  intros Hev%eval_inv.
  change (eval_call context now headers (js "fixed") s) with eval_fixed in Hev. unfold eval_fixed in Hev.
  apply stateR_bind_Ok in Hev as ([v b] & s1 & Ha & Hev). unfold as_numeric, arg in Ha.
  cbn [map lookup list_lookup default from_option run] in Ha.
  apply stateR_bind_Ok in Ha as (u & s2 & Hu & Ha). apply eval_literal in Hu as [-> Hu].
  rewrite Hu in Ha. injection Ha as <- <- <-. by injection Hev as <- <-.
Qed.

Lemma string_eval d t i s e st w st' :
  eval d (Literal (LString t) i s e) st = Ok (w, st') → st' = st ∧ rv_value w = VString t.
Proof.
  cbn [evaluate]. destruct (256 <? S d); [done|]. intros (u & k & Hu & Hc)%stateR_bind_Ok.
  injection Hu as <- <-. by injection Hc as <- <-.
Qed.

Lemma tier_eval d name i p q body s e st w st' :
  eval d (Call (js "tier") [Literal (LString name) i p q; body] s e) st = Ok (w, st') →
  ∃ v s1, eval (S d) body st = Ok (v, s1) ∧ st' = set_tier name s1.
Proof.
  intros Hev%eval_inv.
  change (eval_call context now headers (js "tier") s) with eval_tier in Hev. unfold eval_tier in Hev.
  apply stateR_bind_Ok in Hev as (t & s1 & Ht & Hev). unfold as_string, arg in Ht.
  cbn [map lookup list_lookup default from_option run] in Ht.
  apply stateR_bind_Ok in Ht as (u & s2 & Hu & Ht). apply string_eval in Hu as [-> Hu].
  rewrite Hu in Ht. injection Ht as <- <-.
  apply stateR_bind_Ok in Hev as ([v b] & s3 & Hp & Hev). unfold as_numeric, arg in Hp.
  cbn [map lookup list_lookup default from_option run] in Hp.
  apply stateR_bind_Ok in Hp as (v' & s4 & Hv' & Hp). exists v', s4. split; [done|].
  assert (s4 = s3) as -> by (destruct (rv_value v'); try done; by injection Hp). by injection Hev.
Qed.

Lemma token_tier_billed n conds tier d st w st' :
  node_ok n → tokenTier n conds = Some tier → eval d n st = Ok (w, st') →
  billed tier st st' ∧ conditions tier = conds ∧ conditionText tier = None.
Proof.
  intros Hok Ht Hev. destruct n as [| |f args s e| | |]; try done.
  destruct args as [|[[name| | |] i p q| | | | |] [|body [|]]]; try done. unfold tokenTier in Ht.
  destruct (f =s js "tier") eqn:Ef; [|done]. apply str_eqb_eq in Ef as ->.
  destruct (tier_eval _ _ _ _ _ _ _ _ _ _ _ Hev) as (v & s1 & Hb & ->).
  assert (Hbok : node_ok body).
  { apply node_ok_inv in Hok as [_ Hch]. rewrite Forall_forall in Hch. apply Hch. simpl. set_solver. }
  assert (Hsum : (prices ← price_terms (flattenBinary body (js "+")) [];
      match prices with [] => None | _ => Some (mkTokenTier None false None None name conds prices) end)
      = Some tier → billed tier st (set_tier name s1) ∧ conditions tier = conds ∧ conditionText tier = None).
  { intros H0. destruct (price_terms _ _) as [prices|] eqn:Ep; [|done]. simpl in H0.
    destruct prices as [|pr prices]; [done|]. injection H0 as <-.
    assert (Hpure := prices_pure (js "fixed") body _ ltac:(discriminate) Ep).
    destruct (unfixed_eval _ _ _ _ _ Hbok Hpure Hb) as [Hf Hu]. by split_and!. }
  destruct body as [| |g gargs gs ge| | |]; try (by apply Hsum).
  destruct gargs as [|[[|a| |] ai ap aq| | | | |] [|]]; try (by apply Hsum).
  destruct (g =s js "fixed") eqn:Eg; [|by apply Hsum]. apply str_eqb_eq in Eg as ->.
  injection Ht as <-. apply fixed_eval in Hb as ->. by split_and!.
Qed.

(** *** The chain *)

Lemma linear_chain_acc n acc :
  linear_chain n acc = (λ new, acc ++ new) <$> linear_chain n [].
Proof.
  revert acc. induction n as [n IH] using node_induction. rewrite Forall_forall in IH. intros acc.
  destruct n as [| | | | |c y m s e]; cbn [linear_chain]; try (by destruct (tokenTier _ [])).
  destruct (tokenConditions c) as [conds|]; [|done]. simpl.
  destruct (tokenTier y conds) as [t|]; [|done]. simpl.
  rewrite (IH m ltac:(simpl; set_solver) (acc ++ [t])), (IH m ltac:(simpl; set_solver) [t]).
  destruct (linear_chain m []); simpl; [by rewrite <- app_assoc|done].
Qed.

Lemma token_tier_conditions n conds tier : tokenTier n conds = Some tier → conditions tier = conds.
Proof.
  intros Ht. destruct n as [| |f args s e| | |]; try done.
  destruct args as [|[[name| | |] i p q| | | | |] [|body [|]]]; try done. unfold tokenTier in Ht.
  destruct (f =s js "tier"); [|done]. destruct (price_terms _ _) as [[|pr prices]|];
    repeat (simpl in Ht; simplify_eq; try done; case_match).
Qed.
Lemma token_tier_text n conds tier : tokenTier n conds = Some tier → conditionText tier = None.
Proof.
  intros Ht. destruct n as [| |f args s e| | |]; try done.
  destruct args as [|[[name| | |] i p q| | | | |] [|body [|]]]; try done. unfold tokenTier in Ht.
  destruct (f =s js "tier"); [|done]. destruct (price_terms _ _) as [[|pr prices]|];
    repeat (simpl in Ht; simplify_eq; try done; case_match).
Qed.

Lemma linear_chain_text n tiers :
  linear_chain n [] = Some tiers → Forall (λ t, conditionText t = None) tiers.
Proof.
  revert tiers. induction n as [n IH] using node_induction. rewrite Forall_forall in IH. intros tiers Hl.
  assert (Hleaf : (fallback ← tokenTier n []; Some ([] ++ [fallback])) = Some tiers →
    Forall (λ t, conditionText t = None) tiers).
  { intros H0. destruct (tokenTier n []) as [t|] eqn:Et; [|done]. injection H0 as <-.
    repeat constructor. by eapply token_tier_text. }
  destruct n as [| | | | |c y m s e]; try (by apply Hleaf). cbn [linear_chain] in Hl.
  destruct (tokenConditions c) as [conds|]; [|done]. simpl in Hl.
  destruct (tokenTier y conds) as [t|] eqn:Et; [|done]. simpl in Hl. rewrite linear_chain_acc in Hl.
  destruct (linear_chain m []) as [rest|] eqn:Em; [|done]. injection Hl as <-.
  constructor; [by eapply token_tier_text|]. eapply (IH m); [simpl; set_solver|done].
Qed.

Lemma audio_tiers_text n tiers :
  audio_tiers n = Some tiers → ¬ Forall (λ t, conditionText t = None) tiers.
Proof.
  destruct n as [| | | | |c y m s e]; try done. destruct c as [| | | |op l r ? ?|]; try done.
  unfold audio_tiers. destruct (op =s js "||"); [|done].
  destruct (audio_probe l), (audio_probe r); try done. destruct (_ =s _); [done|].
  destruct (tokenTier y []); [|done]. simpl. destruct (tokenTier m []); [|done].
  intros [= <-] Hall. by inversion Hall.
Qed.

Lemma variable_eval d n name st w st' :
  is_variable n name = true → eval d n st = Ok (w, st') → st' = st.
Proof.
  destruct n as [|x s e| | | |]; try done. intros _. cbn [evaluate]. destruct (256 <? S d); [done|].
  intros (u & t & Hu & Hc)%stateR_bind_Ok. unfold lift_st in Hu, Hc.
  destruct (eval_variable _ _ _); [|done]. injection Hu as -> ->.
  destruct (check_value _ _); [|done]. by injection Hc.
Qed.

(** The first tier whose conditions hold is the one billed. *)
Lemma linear_chain_billed n tiers d st w st' :
  node_ok n → linear_chain n [] = Some tiers → eval d n st = Ok (w, st') →
  Forall (λ t, conditionText t = None) tiers ∧
  ∃ tier, List.find (selected context) tiers = Some tier ∧ billed tier st st'.
Proof.
  revert tiers d st w st'. induction n as [n IH] using node_induction. rewrite Forall_forall in IH.
  intros tiers d st w st' Hok Hl Hev.
  assert (Hleaf : (fallback ← tokenTier n []; Some ([] ++ [fallback])) = Some tiers →
    Forall (λ t, conditionText t = None) tiers ∧
    ∃ tier, List.find (selected context) tiers = Some tier ∧ billed tier st st').
  { intros H0. destruct (tokenTier n []) as [t|] eqn:Et; [|done]. injection H0 as <-.
    destruct (token_tier_billed _ _ _ _ _ _ _ Hok Et Hev) as (Hb & Hc & Htext).
    split; [by repeat constructor|]. exists t. simpl. unfold selected. by rewrite Hc. }
  destruct n as [| | | | |c y m s e]; try (by apply Hleaf). clear Hleaf. cbn [linear_chain] in Hl.
  destruct (tokenConditions c) as [conds|] eqn:Ec; [|done]. simpl in Hl.
  destruct (tokenTier y conds) as [t|] eqn:Et; [|done]. simpl in Hl. rewrite linear_chain_acc in Hl.
  destruct (linear_chain m []) as [rest|] eqn:Em; [|done]. injection Hl as <-.
  apply node_ok_inv in Hok as [_ Hch]. rewrite Forall_forall in Hch. simpl in Hch, IH.
  destruct (eval_inv _ _ _ _ _ _ _ _ _ Hev) as (b & s1 & s2 & (v1 & H1 & Hb) & Hs2 & H2).
  destruct (condition_eval _ _ _ _ _ _ Ec H1) as [-> Hv].
  rewrite Hb in Hv. injection Hv as ->.
  assert (Hst : fixedPrice s2 = fixedPrice st ∧ billingUnit s2 = billingUnit st)
    by (destruct Hs2 as [->|[i ->]]; done).
  destruct (forallb (holds context) conds) eqn:Eh.
  - destruct (token_tier_billed _ _ _ _ _ _ _ (Hch y ltac:(set_solver)) Et H2) as (Hbill & Hc & Htext).
    assert (selected context t = true) as Hsel by (unfold selected; by rewrite Hc).
    split.
    + constructor; [done|]. by eapply linear_chain_text.
    + exists t. simpl. rewrite Hsel. split; [done|].
      unfold billed in *. by rewrite (proj1 Hst), (proj2 Hst) in Hbill.
  - destruct (IH m ltac:(set_solver) _ _ _ _ _ (Hch m ltac:(set_solver)) Em H2) as (Htext & tier & Hf & Hbill).
    split; [constructor; [by eapply token_tier_text|done]|]. exists tier. simpl.
    assert (selected context t = false) as ->
      by (unfold selected; by rewrite (token_tier_conditions _ _ _ Et)).
    split; [done|]. unfold billed in *. by rewrite (proj1 Hst), (proj2 Hst) in Hbill.
Qed.

(** The same below factors [image_count]. *)
Lemma chain_billed n tiers d st w st' :
  node_ok n → readTokenTierChain n = Some tiers → Forall (λ t, conditionText t = None) tiers →
  eval d n st = Ok (w, st') →
  ∃ tier, List.find (selected context) tiers = Some tier ∧ billed tier st st'.
Proof.
  revert tiers d st w st'. induction n as [n IH] using node_induction. rewrite Forall_forall in IH.
  intros tiers d st w st' Hok Hr Htext Hev.
  assert (Haudio : audio_tiers n = None).
  { destruct (audio_tiers n) as [ts|] eqn:E; [|done]. exfalso.
    assert (readTokenTierChain n = Some ts) as Heq by (destruct n; cbn [readTokenTierChain]; by rewrite E).
    rewrite Hr in Heq. injection Heq as <-. by eapply audio_tiers_text. }
  destruct n as [| | | |op l r s e|]; cbn [readTokenTierChain] in Hr; rewrite Haudio in Hr;
    try (by destruct (linear_chain_billed _ _ _ _ _ _ Hok Hr Hev) as [_ ?]).
  assert (Hch := proj2 (node_ok_inv _ Hok)). rewrite Forall_forall in Hch. simpl in Hch, IH.
  assert (Hinv : (op =s js "*") = true → ∃ a s1 b,
    eval (S d) l st = Ok (a, s1) ∧ eval (S d) r s1 = Ok (b, st')).
  { intros ->%str_eqb_eq.
    destruct (eval_strict_inv _ _ _ _ _ _ _ _ _ (eq_refl : str_in (js "*") [js "&&"; js "||"] = false) Hev)
      as (a & s1 & b & Ha & Hb & _). eauto. }
  assert (Hpick : ∀ ts, Forall (λ t, conditionText t = None) (map with_image_count ts) →
    tiers = map with_image_count ts → ∀ s0,
    (∃ tier, List.find (selected context) ts = Some tier ∧ billed tier st s0) →
    ∃ tier, List.find (selected context) tiers = Some tier ∧ billed tier st s0).
  { intros ts _ -> s0 (tier & Hf & Hb). exists (with_image_count tier). split; [|done].
    clear -Hf. induction ts as [|t ts IH]; [done|]. simpl in *.
    change (selected context (with_image_count t)) with (selected context t).
    destruct (selected context t); [by injection Hf as ->|auto]. }
  assert (Hmap : ∀ ts, Forall (λ t, conditionText t = None) (map with_image_count ts) →
    Forall (λ t, conditionText t = None) ts) by (intros ts; rewrite Forall_fmap; done).
  destruct (op =s js "*") eqn:Eop; simpl in Hr;
    [|by destruct (linear_chain_billed _ _ _ _ _ _ Hok Hr Hev) as [_ ?]].
  destruct (Hinv eq_refl) as (a & s1 & b & Ha & Hb).
  destruct (is_variable l _) eqn:El; [|destruct (is_variable r _) eqn:Er].
  - destruct (readTokenTierChain r) as [ts|] eqn:E; [|done]. injection Hr as <-.
    assert (s1 = st) as -> by (by eapply variable_eval).
    apply (Hpick ts Htext eq_refl). eapply (IH r); [set_solver|apply Hch; set_solver|exact E|by apply Hmap|exact Hb].
  - destruct (readTokenTierChain l) as [ts|] eqn:E; [|done]. injection Hr as <-.
    assert (st' = s1) as -> by (by eapply variable_eval).
    apply (Hpick ts Htext eq_refl). eapply (IH l); [set_solver|apply Hch; set_solver|exact E|by apply Hmap|exact Ha].
  - by destruct (linear_chain_billed _ _ _ _ _ _ Hok Hr Hev) as [_ ?].
Qed.
End Chain.

(** C3. The tier summary shown for an expression agrees with its evaluation:
    when the expression reads as a chain of token tiers with conditions on
    token counts, any successful evaluation ends with the label, the billing
    unit and the fixed price of the first tier whose conditions hold for the
    given counts, and such a tier exists. *)
Theorem token_tier_selection `{Host} clock source c context tiers v st :
  compile_source source = Ready c →
  readTokenTierChain (c_ast c) = Some tiers →
  Forall (λ t, conditionText t = None) tiers →
  run_billing clock c context (c_ast c) = Ok (v, st) →
  ∃ tier, List.find (selected context) tiers = Some tier ∧
    matchedTier st = label tier ∧ fixedPrice st = tt_fixedPrice tier ∧
    (billingUnit st = unit_request ↔ is_Some (tt_fixedPrice tier)).
Proof.
  intros Hc%compile_source_ready Hr Htext Hrun. unfold run_billing in Hrun.
  apply bind_Ok in Hrun as (hs & _ & Hev).
  destruct (chain_billed _ _ _ _ _ _ _ _ _ _ (co_node _ _ Hc) Hr Htext Hev) as (tier & Hf & Hl & Hp & Hu).
  exists tier. split; [done|]. split; [done|]. rewrite Hp, Hu. simpl.
  destruct (tt_fixedPrice tier); split; try done; by intros [? [=]].
Qed.

Definition select_source : jsstring := js "p < 5 && c >= 1 ? tier('small', p * 1 + c * 2) : tier('large', fixed(0.5))".
Definition select_compiled : CompiledBillingExpression :=
  Eval vm_compute in compiled_of (compile_source select_source).
Lemma select_compiles : compile_source select_source = Ready select_compiled.
Proof. vm_compute. reflexivity. Qed.
Definition select_tiers : list TokenTier :=
  Eval vm_compute in default [] (readTokenTierChain (c_ast select_compiled)).
Definition select_context : BillingSimulationContext :=
  mkContext None (Some [(js "p", VNumber (num_of_Z 7)); (js "c", VNumber (num_of_Z 1))]) None None None.

Example token_tier_selection_witness :
  ∃ v st tier, @run_billing utc_host None select_compiled select_context (c_ast select_compiled) = Ok (v, st) ∧
    List.find (selected select_context) select_tiers = Some tier ∧ matchedTier st = label tier ∧
    label tier = js "large".
Proof.
  assert (∃ v st, @run_billing utc_host None select_compiled select_context (c_ast select_compiled)
    = Ok (v, st)) as (v & st & Hrun) by (do 2 eexists; vm_compute; reflexivity).
  assert (Htext : Forall (λ t, conditionText t = None) select_tiers) by (repeat constructor).
  destruct (token_tier_selection None select_source select_compiled select_context select_tiers v st
    select_compiles eq_refl Htext Hrun) as (tier & Hf & Hl & _).
  exists v, st, tier. split; [exact Hrun|]. split; [exact Hf|]. split; [exact Hl|].
  vm_compute in Hf. injection Hf as <-. reflexivity.
Defined.
