(* ===== verification/JsRegex.v ===== *)
(** * Regular expressions and JSON.parse

    The part of ECMAScript regular expressions that the pricing library uses,
    as a backtracking matcher with the standard's greedy order, and
    [JSON.parse] with [String] of its results. *)

From S2P Require Import Prelude JsNumber JsText Types Parser Compile Runtime.

(** ** Patterns *)
Inductive regex :=
  | RUnit (p : code_unit → bool)
  | REmpty
  | RSeq (a b : regex)
  | RAlt (a b : regex)
  | RStar (a : regex)
  | RGroup (i : nat) (a : regex)
  | RRef (i : nat).

Abbreviation captures := (list (nat * jsstring)).
Fixpoint capture (caps : captures) (i : nat) : option jsstring :=
  match caps with
  | [] => None
  | (j, s) :: caps => if i =? j then Some s else capture caps i
  end.
(** [m[i]] of a group that took part in the match. *)
Definition cap (caps : captures) (i : nat) : jsstring := default [] (capture caps i).

Fixpoint strip_prefix (p s : jsstring) : option jsstring :=
  match p, s with
  | [], _ => Some s
  | a :: p, b :: s => if (a =? b)%N then strip_prefix p s else None
  | _ :: _, [] => None
  end.

(** The matcher in continuation-passing style: alternatives in order, greedy
    repetition; an iteration that consumes nothing ends the repetition. *)
Fixpoint rmatch (r : regex) (s : jsstring) (caps : captures)
    (k : jsstring → captures → option captures) {struct r} : option captures :=
  match r with
  | RUnit p => match s with
               | c :: s => if p c then k s caps else None
               | [] => None
               end
  | REmpty => k s caps
  | RSeq a b => rmatch a s caps (λ s caps, rmatch b s caps k)
  | RAlt a b => match rmatch a s caps k with
                | Some caps => Some caps
                | None => rmatch b s caps k
                end
  | RStar a =>
      (fix star (n : nat) (s : jsstring) (caps : captures) : option captures :=
         match n with
         | O => k s caps
         | S n =>
             match rmatch a s caps (λ s' caps',
                     if length s' <? length s then star n s' caps' else None) with
             | Some caps => Some caps
             | None => k s caps
             end
         end) (length s) s caps
  | RGroup i a =>
      rmatch a s caps (λ s' caps', k s' ((i, take (length s - length s') s) :: caps'))
  | RRef i => match strip_prefix (cap caps i) s with
              | Some s => k s caps
              | None => None
              end
  end.

(** [text.match(/^...$/)]: the captures of a match of the whole text. *)
Definition match_whole (r : regex) (text : jsstring) : option captures :=
  rmatch r text [] (λ s caps, match s with [] => Some caps | _ => None end).

(** [regex.exec] with the [g] flag: the first match in the text, and the text
    after it. *)
Fixpoint search (r : regex) (text : jsstring) : option (captures * jsstring) :=
  match rmatch r text [] (λ rest caps, Some ((0, rest) :: caps)) with
  | Some caps => Some (caps, cap caps 0)
  | None => match text with [] => None | _ :: text => search r text end
  end.

(** ** Building patterns *)
Fixpoint rtext (s : jsstring) : regex :=
  match s with
  | [] => REmpty
  | c :: s => RSeq (RUnit (N.eqb c)) (rtext s)
  end.
Fixpoint rseq (l : list regex) : regex :=
  match l with
  | [] => REmpty
  | [r] => r
  | r :: l => RSeq r (rseq l)
  end.
Fixpoint ralt (l : list regex) : regex :=
  match l with
  | [] => RUnit (λ _, false)
  | [r] => r
  | r :: l => RAlt r (ralt l)
  end.
Definition rplus (r : regex) : regex := RSeq r (RStar r).
Definition roption (r : regex) : regex := RAlt r REmpty.
Definition rtexts (l : list jsstring) : regex := ralt (map rtext l).
(** [.] without and with the [s] flag. *)
Definition is_line_end (c : code_unit) : bool :=
  ((c =? 10) || (c =? 13) || (c =? 8232) || (c =? 8233))%N.
Definition rdot : regex := RUnit (λ c, negb (is_line_end c)).
Definition rany : regex := RUnit (λ _, true).

(** ** JSON.parse *)

Definition syntax_error : exn := NativeError (js "SyntaxError").
Definition is_json_space (c : code_unit) : bool :=
  ((c =? 32) || (c =? 9) || (c =? 10) || (c =? 13))%N.
Definition json_skip (s : jsstring) : jsstring := drop_while is_json_space s.

(** The characters of a string up to the closing quote. *)
Fixpoint json_string (s : jsstring) (acc : jsstring) : option (jsstring * jsstring) :=
  match s with
  | [] => None
  | c :: r =>
      if (c =? 34)%N then Some (acc, r)
      else if (c <? 32)%N then None
      else if negb (c =? 92)%N then json_string r (acc ++ [c])
      else
        match r with
        | [] => None
        | d :: r =>
            if (d =? 117)%N then
              match r with
              | h1 :: h2 :: h3 :: h4 :: r =>
                  match hex_run [h1; h2; h3; h4] 0 with
                  | Some c => json_string r (acc ++ [c])
                  | None => None
                  end
              | _ => None
              end
            else
              match escape_of d [(34, 34); (92, 92); (47, 47); (98, 8); (102, 12);
                                 (110, 10); (114, 13); (116, 9)]%N with
              | Some c => json_string r (acc ++ [c])
              | None => None
              end
        end
  end.

(** A number: no leading zeros, digits on both sides of a point. *)
Definition json_number (s : jsstring) : option (num * jsstring) :=
  let '(neg, u) := match s with
                   | c :: r => if (c =? 45)%N then (true, r) else (false, s)
                   | [] => (false, s)
                   end in
  match scan_mantissa u with
  | None => None
  | Some (ip, fp, r) =>
      let pointed := negb (length u =? length ip + length r) in
      if (ip =s []) || (starts_with (js "0") ip && negb (ip =s js "0")) || (pointed && (fp =s []))
      then None
      else
        let '(x, r) := scan_exponent r in
        let v := of_decimal (dec_value (ip ++ fp)) (x - Z.of_nat (length fp)) in
        Some (if neg then num_neg v else v, r)
  end.

Definition json_word (s : jsstring) : option (jsval * jsstring) :=
  match strip_prefix (js "true") s, strip_prefix (js "false") s, strip_prefix (js "null") s with
  | Some r, _, _ => Some (VBoolean true, r)
  | _, Some r, _ => Some (VBoolean false, r)
  | _, _, Some r => Some (VNull, r)
  | _, _, _ => None
  end.

(** A value; every nested value consumes a character, so the length of the text
    is enough fuel. *)
Fixpoint json_value (fuel : nat) (s : jsstring) : option (jsval * jsstring) :=
  match fuel with
  | O => None
  | S fuel =>
      match json_skip s with
      | [] => None
      | c :: r =>
          if (c =? 34)%N then
            '(t, r) ← json_string r []; Some (VString t, r)
          else if (c =? 91)%N then
            match json_skip r with
            | 93%N :: r => Some (VArray [], r)
            | _ =>
                (fix items (n : nat) (s : jsstring) (acc : list jsval) : option (jsval * jsstring) :=
                   match n with
                   | O => None
                   | S n =>
                       '(v, r) ← json_value fuel s;
                       match json_skip r with
                       | 44%N :: r => items n r (acc ++ [v])
                       | 93%N :: r => Some (VArray (acc ++ [v]), r)
                       | _ => None
                       end
                   end) fuel r []
            end
          else if (c =? 123)%N then
            match json_skip r with
            | 125%N :: r => Some (VObject [], r)
            | _ =>
                (fix entries (n : nat) (s : jsstring) (acc : list (jsstring * jsval))
                    : option (jsval * jsstring) :=
                   match n with
                   | O => None
                   | S n =>
                       match json_skip s with
                       | 34%N :: r =>
                           '(key, r) ← json_string r [];
                           match json_skip r with
                           | 58%N :: r =>
                               '(v, r) ← json_value fuel r;
                               match json_skip r with
                               | 44%N :: r => entries n r (map_set acc key v)
                               | 125%N :: r => Some (VObject (map_set acc key v), r)
                               | _ => None
                               end
                           | _ => None
                           end
                       | _ => None
                       end
                   end) fuel r []
            end
          else
            match json_word (c :: r) with
            | Some p => Some p
            | None => '(n, r) ← json_number (c :: r); Some (VNumber n, r)
            end
      end
  end.

Definition json_parse (text : jsstring) : result jsval :=
  match json_value (S (length text)) text with
  | Some (v, r) => match json_skip r with [] => Ok v | _ => Err syntax_error end
  | None => Err syntax_error
  end.

(** [String(v)]; an object with an own [toString], which JSON cannot make a
    function, does not convert. *)
Fixpoint to_string (v : jsval) : result jsstring :=
  match v with
  | VUndefined => Ok (js "undefined")
  | VNull => Ok (js "null")
  | VBoolean b => Ok (if b then js "true" else js "false")
  | VNumber n => Ok (num_to_string n)
  | VString s => Ok s
  | VArray items =>
      texts ← sequence_results (map (λ i, if is_nullish i then Ok [] else to_string i) items);
      Ok (join (js ",") texts)
  | VObject entries =>
      match own entries (js "toString") with
      | Some _ => Err (NativeError (js "Cannot convert object to primitive value"))
      | None => Ok (js "[object Object]")
      end
  end.

Example json_parse_array : json_parse (js " [1, {}, [true, null], -2.50e1] ") =
  Ok (VArray [VNumber (num_of_Z 1); VObject []; VArray [VBoolean true; VNull]; VNumber (num_of_Z (-25))]).
Proof. vm_compute. reflexivity. Qed.
Example json_parse_bad : map json_parse [js "01"; js "1."; js "[1,]"; js "tru"; []] =
  [Err syntax_error; Err syntax_error; Err syntax_error; Err syntax_error; Err syntax_error].
Proof. vm_compute. reflexivity. Qed.
