(* ===== verification/JsRegexFacts.v ===== *)
(** * Matching and quoting

    How the matcher runs over texts that fit a pattern in one way only, and
    [JSON.parse] of [JSON.stringify]. *)

From S2P Require Import Prelude JsNumber JsText Types Parser Compile Runtime JsRegex.

(** ** Prefixes *)
Lemma strip_prefix_app p s : strip_prefix p (p ++ s) = Some s.
Proof. induction p as [|a p IH]; simpl; [done|]. by rewrite N.eqb_refl. Qed.

Lemma strip_prefix_Some p s r : strip_prefix p s = Some r ↔ s = p ++ r.
Proof.
  split; [|intros ->; apply strip_prefix_app]. revert s.
  induction p as [|a p IH]; intros s; simpl; [by intros [= ->]|].
  destruct s as [|b s]; [done|]. destruct (a =? b)%N eqn:E; [|done].
  apply N.eqb_eq in E as ->. intros H%IH. by subst.
Qed.

Section Match.
Context (k : jsstring → captures → option captures).

Lemma rmatch_text p s caps :
  rmatch (rtext p) s caps k = match strip_prefix p s with Some s => k s caps | None => None end.
Proof.
  revert s. induction p as [|a p IH]; intros s; [done|]. destruct s as [|b s]; [done|]. simpl.
  destruct (a =? b)%N; [apply IH|done].
Qed.

Lemma rmatch_text_app p s caps : rmatch (rtext p) (p ++ s) caps k = k s caps.
Proof. by rewrite rmatch_text, strip_prefix_app. Qed.

Lemma rmatch_ref_app i p s caps : cap caps i = p → rmatch (RRef i) (p ++ s) caps k = k s caps.
Proof. intros <-. simpl. by rewrite strip_prefix_app. Qed.
End Match.

Lemma rmatch_seq r rs s caps k :
  rs ≠ [] → rmatch (rseq (r :: rs)) s caps k = rmatch r s caps (λ s caps, rmatch (rseq rs) s caps k).
Proof. by destruct rs. Qed.

(** ** Runs of one class *)

(** The repetition as a named loop. *)
Definition star_loop (m : jsstring → captures → (jsstring → captures → option captures) → option captures)
    (k : jsstring → captures → option captures) : nat → jsstring → captures → option captures :=
  fix star (n : nat) (s : jsstring) (caps : captures) : option captures :=
    match n with
    | O => k s caps
    | S n =>
        match m s caps (λ s' caps', if length s' <? length s then star n s' caps' else None) with
        | Some caps => Some caps
        | None => k s caps
        end
    end.

Lemma rmatch_star a s caps k : rmatch (RStar a) s caps k = star_loop (rmatch a) k (length s) s caps.
Proof. reflexivity. Qed.

(** A greedy run is matched whole when what follows it is outside the class and
    the rest of the pattern cannot start inside it. *)
Lemma star_run p run s caps k :
  forallb p run = true → match s with c :: _ => p c = false | [] => True end →
  (∀ c r caps, p c = true → k (c :: r) caps = None) →
  rmatch (RStar (RUnit p)) (run ++ s) caps k = k s caps.
Proof.
  intros Hrun Hs Hk. rewrite rmatch_star.
  assert (∀ n, length (run ++ s) ≤ n → star_loop (rmatch (RUnit p)) k n (run ++ s) caps = k s caps) as H;
    [|by apply H].
  induction run as [|c run IH]; intros n Hn.
  - simpl in *. destruct n as [|n]; [done|]. simpl. destruct s as [|c s]; [by destruct (k [] caps)|].
    by rewrite Hs.
  - simpl in Hrun. apply andb_true_iff in Hrun as [Hc Hrun]. simpl in Hn. destruct n as [|n]; [lia|].
    cbn [star_loop rmatch app]. rewrite Hc.
    rewrite (proj2 (Nat.ltb_lt (length (run ++ s)) (length (c :: run ++ s)))) by (simpl; lia).
    rewrite IH by (done || lia). rewrite (Hk c (run ++ s) caps Hc). by destruct (k s caps).
Qed.

Lemma plus_run p run s caps k :
  run ≠ [] → forallb p run = true → match s with c :: _ => p c = false | [] => True end →
  (∀ c r caps, p c = true → k (c :: r) caps = None) →
  rmatch (rplus (RUnit p)) (run ++ s) caps k = k s caps.
Proof.
  destruct run as [|c run]; [done|]. intros _ Hrun Hs Hk. simpl in Hrun.
  apply andb_true_iff in Hrun as [Hc Hrun]. unfold rplus. cbn [rmatch app]. rewrite Hc.
  by apply star_run.
Qed.

Lemma taken {A} (p s : list A) : take (length (p ++ s) - length s) (p ++ s) = p.
Proof. rewrite length_app, Nat.add_sub. apply take_app_length. Qed.

(** The same as a group. *)
Lemma group_run i p run s caps k :
  run ≠ [] → forallb p run = true → match s with c :: _ => p c = false | [] => True end →
  (∀ c r caps, p c = true → k (c :: r) caps = None) →
  rmatch (RGroup i (rplus (RUnit p))) (run ++ s) caps k = k s ((i, run) :: caps).
Proof.
  intros Hne Hrun Hs Hk.
  change (rmatch (rplus (RUnit p)) (run ++ s) caps
    (λ s' caps', k s' ((i, take (length (run ++ s) - length s') (run ++ s)) :: caps')) = k s ((i, run) :: caps)).
  rewrite plus_run; [by rewrite taken|done..|]. intros c r caps' Hc. by apply Hk.
Qed.

(** ** Bodies of string literals *)
Inductive string_body : jsstring → Prop :=
  | body_nil : string_body []
  | body_unit c s : c ≠ 34%N → c ≠ 92%N → string_body s → string_body (c :: s)
  | body_escape d s : is_line_end d = false → string_body s → string_body (92%N :: d :: s).

Lemma string_body_app s t : string_body s → string_body t → string_body (s ++ t).
Proof. induction 1; simpl; intros; [done|by constructor; auto|by constructor; auto]. Qed.

Lemma hex_digit_range n : (n < 16)%N → (48 ≤ hex_digit n ∧ hex_digit n ≤ 102 ∧ hex_digit n ≠ 92)%N.
Proof. unfold hex_digit. destruct (n <? 10)%N eqn:E; [apply N.ltb_lt in E|apply N.ltb_ge in E]; lia. Qed.
Lemma hex_value_digit n : (n < 16)%N → hex_value (hex_digit n) = Some n.
Proof.
  intros Hn. assert (n ∈ map N.of_nat (seq 0 16)) as Hin.
  { apply list_elem_of_In, in_map_iff. exists (N.to_nat n). split; [lia|]. apply in_seq. lia. }
  simpl in Hin. set_unfold in Hin. destruct_or!; subst; done.
Qed.

Definition hex_digits (c : code_unit) : list N := [c / 4096; c / 256 mod 16; c / 16 mod 16; c mod 16]%N.
Lemma hex_digits_small c : (c < 65536)%N → Forall (λ d, d < 16)%N (hex_digits c).
Proof.
  intros Hc. repeat constructor; try (apply N.mod_lt; lia).
  apply N.Div0.div_lt_upper_bound. lia.
Qed.
Lemma unicode_value c : (c < 65536)%N → hex_run (map hex_digit (hex_digits c)) 0 = Some c.
Proof.
  intros Hc. pose proof (hex_digits_small c Hc) as Hd. unfold hex_digits in *.
  repeat (apply Forall_cons in Hd as [? Hd]). cbn [map hex_run]. rewrite !hex_value_digit by done.
  f_equal.
  assert (∀ x, (x / 16 * 16 + x mod 16 = x)%N) as Hdm
    by (intros x; pose proof (N.div_mod x 16 ltac:(lia)); lia).
  assert ((c / 256 = c / 16 / 16)%N) as Hd1 by (rewrite N.Div0.div_div; done).
  assert ((c / 4096 = c / 256 / 16)%N) as Hd2 by (rewrite N.Div0.div_div; done).
  rewrite N.mul_0_l, N.add_0_l, Hd2, Hdm, Hd1, Hdm. apply Hdm.
Qed.

Lemma unicode_escape_body c s : (c < 65536)%N → string_body s → string_body (unicode_escape c ++ s).
Proof.
  intros Hc Hs. pose proof (hex_digits_small c Hc) as Hd. unfold hex_digits in *.
  repeat (apply Forall_cons in Hd as [? Hd]). unfold unicode_escape. cbn [app].
  change (js "\u") with [92; 117]%N. cbn [app]. apply body_escape; [done|].
  repeat match goal with
  | |- string_body (hex_digit ?n :: _) =>
      destruct (hex_digit_range n ltac:(assumption)) as (? & ? & ?); apply body_unit; [lia|lia|]
  end. done.
Qed.

Lemma quote_unit_cases c (P : jsstring → Prop) :
  (∀ d, is_line_end d = false →
     escape_of d [(34, 34); (92, 92); (47, 47); (98, 8); (102, 12); (110, 10); (114, 13); (116, 9)]%N = Some c →
     d ≠ 117%N → P [92; d]%N) →
  ((c < 32)%N → P (unicode_escape c)) →
  (c ≠ 34%N → c ≠ 92%N → (32 ≤ c)%N → P [c]) → P (quote_unit c).
Proof.
  intros Hesc Huni Hplain. unfold quote_unit.
  destruct (N.eqb_spec c 8) as [->|]; [by apply (Hesc 98%N)|].
  destruct (N.eqb_spec c 9) as [->|]; [by apply (Hesc 116%N)|].
  destruct (N.eqb_spec c 10) as [->|]; [by apply (Hesc 110%N)|].
  destruct (N.eqb_spec c 12) as [->|]; [by apply (Hesc 102%N)|].
  destruct (N.eqb_spec c 13) as [->|]; [by apply (Hesc 114%N)|].
  destruct (N.eqb_spec c 34) as [->|]; [by apply (Hesc 34%N)|].
  destruct (N.eqb_spec c 92) as [->|]; [by apply (Hesc 92%N)|].
  destruct (c <? 32)%N eqn:E; [apply Huni; by apply N.ltb_lt|].
  apply N.ltb_ge in E. by apply Hplain.
Qed.

Lemma quote_unit_body c s : (c < 65536)%N → string_body s → string_body (quote_unit c ++ s).
Proof.
  intros Hc Hs. apply quote_unit_cases; intros; [by apply body_escape|by apply unicode_escape_body|
    by apply body_unit].
Qed.

Definition code_units (s : jsstring) : Prop := Forall (λ c, c < 65536)%N s.

Lemma surrogate_plain c :
  is_lead c = true ∨ is_trail c = true → c ≠ 34%N ∧ c ≠ 92%N ∧ (32 ≤ c)%N.
Proof.
  unfold is_lead, is_trail. rewrite !andb_true_iff, !N.leb_le. lia.
Qed.

Lemma quote_units_body s : code_units s → string_body (quote_units s).
Proof.
  assert (∀ n s, length s ≤ n → code_units s → string_body (quote_units s)) as H; [|by eapply H].
  clear s. induction n as [|n IH]; intros s Hn Hs; destruct s as [|c s1]; simpl in Hn; try lia; [constructor|constructor|].
  apply Forall_cons in Hs as [Hc Hs]. cbn [quote_units]. destruct (is_lead c) eqn:El.
  - destruct (surrogate_plain c) as (? & ? & _); [by left|].
    destruct s1 as [|d s2]; [rewrite <- (app_nil_r (unicode_escape c)); apply unicode_escape_body; [done|constructor]|].
    apply Forall_cons in Hs as [Hd Hs]. destruct (is_trail d) eqn:Et.
    + destruct (surrogate_plain d) as (? & ? & _); [by right|].
      apply body_unit; [done..|]. apply body_unit; [done..|]. apply IH; [simpl in Hn; lia|done].
    + apply unicode_escape_body; [done|]. apply IH; [simpl in *; lia|by constructor].
  - destruct (is_trail c).
    + apply unicode_escape_body; [done|]. apply IH; [lia|done].
    + apply quote_unit_body; [done|]. apply IH; [lia|done].
Qed.

(** A class that holds of the printable units holds of the quoted text. *)
Lemma quote_units_forallb (P : code_unit → bool) s :
  (∀ c, (32 ≤ c < 127)%N → P c = true) → (∀ c, c ∈ s → (32 ≤ c)%N → P c = true) → code_units s →
  forallb P (quote_units s) = true.
Proof.
  intros Hascii.
  assert (Huni : ∀ c, (c < 65536)%N → forallb P (unicode_escape c) = true).
  { intros c Hc. pose proof (hex_digits_small c Hc) as Hd. unfold hex_digits in Hd.
    unfold unicode_escape. change (js "\u") with [92; 117]%N. cbn [app forallb].
    rewrite (Hascii 92%N), (Hascii 117%N) by lia.
    repeat (apply Forall_cons in Hd as [?Hx Hd]).
    repeat match goal with |- context [P (hex_digit ?n)] =>
      destruct (hex_digit_range n ltac:(assumption)) as (? & ? & ?); rewrite (Hascii (hex_digit n)) by lia
    end. done. }
  assert (Hunit : ∀ c, (c < 65536)%N → ((32 ≤ c)%N → P c = true) → forallb P (quote_unit c) = true).
  { intros c Hc Hp. apply quote_unit_cases.
    - intros d _ Hd _. cbn [forallb]. rewrite (Hascii 92%N) by lia.
      rewrite (Hascii d); [done|].
      cbn [escape_of] in Hd. repeat (match type of Hd with (if (?n =? d)%N then _ else _) = _ =>
        destruct (N.eqb_spec n d); [subst; lia|] end). done.
    - intros _. by apply Huni.
    - intros _ _ Hl. cbn [forallb]. by rewrite Hp. }
  assert (∀ n s, length s ≤ n → (∀ c, c ∈ s → (32 ≤ c)%N → P c = true) → code_units s →
    forallb P (quote_units s) = true) as H; [|by eapply H].
  clear s. induction n as [|n IH]; intros s Hn Hp Hs; destruct s as [|c s1]; simpl in Hn; try lia; [done|done|].
  apply Forall_cons in Hs as [Hc Hs]. cbn [quote_units].
  assert (Hs1 : ∀ c, c ∈ s1 → (32 ≤ c)%N → P c = true) by (intros; apply Hp; [set_solver|done]).
  destruct (is_lead c) eqn:El.
  - destruct s1 as [|d s2]; [by apply Huni|].
    destruct (is_trail d) eqn:Et.
    + destruct (surrogate_plain c) as (_ & _ & ?); [by left|]. destruct (surrogate_plain d) as (_ & _ & ?); [by right|].
      apply Forall_cons in Hs as [Hd Hs]. cbn [forallb].
      rewrite (Hp c), (Hp d) by (set_solver || done). apply IH; [simpl in Hn; lia| |done].
      intros; apply Hp; [set_solver|done].
    + rewrite forallb_app, Huni by done. apply IH; [simpl in *; lia|done|done].
  - destruct (is_trail c); rewrite forallb_app.
    + rewrite Huni by done. apply IH; [lia|done|done].
    + rewrite Hunit; [|done|apply Hp; set_solver]. apply IH; [lia|done|done].
Qed.

(** The pattern of a string literal on the text of one. *)
Lemma string_star body s caps k :
  string_body body →
  rmatch (RStar (RAlt (RUnit (λ c, negb (c =? 34)%N && negb (c =? 92)%N)) (RSeq (RUnit (N.eqb 92)) rdot)))
    (body ++ 34%N :: s) caps (λ s caps, rmatch (RUnit (N.eqb 34)) s caps k) = k s caps.
Proof.
  intros Hb. rewrite rmatch_star.
  set (m := rmatch (RAlt _ _)). set (K := λ s caps, rmatch (RUnit (N.eqb 34)) s caps k).
  assert (∀ n, length (body ++ 34%N :: s) ≤ n → star_loop m K n (body ++ 34%N :: s) caps = k s caps) as H;
    [|by apply H].
  induction Hb as [|c t H1 H2 _ IH|d t Hd _ IH]; intros n Hn; (destruct n as [|n]; [simpl in Hn; lia|]);
    cbn [app star_loop]; subst m K; cbn [rmatch].
  - change (34 =? 34)%N with true. change (92 =? 34)%N with false. cbn. done.
  - rewrite (proj2 (N.eqb_neq c 34) H1), (proj2 (N.eqb_neq c 92) H2). cbn [negb andb].
    rewrite (proj2 (Nat.ltb_lt (length (t ++ 34%N :: s)) (length (c :: t ++ 34%N :: s)))) by (simpl; lia).
    rewrite IH by (simpl in Hn; lia). destruct (k s caps); [done|].
    rewrite (proj2 (N.eqb_neq 92 c)) by done. by rewrite (proj2 (N.eqb_neq 34 c)) by done.
  - change (92 =? 92)%N with true. rewrite andb_false_r. cbn [rdot rmatch]. rewrite Hd. cbn [negb].
    rewrite (proj2 (Nat.ltb_lt (length (t ++ 34%N :: s)) (length (92%N :: d :: t ++ 34%N :: s)))) by (simpl; lia).
    rewrite IH by (simpl in Hn; lia). by destruct (k s caps).
Qed.

(** ** [JSON.parse] reads back what [JSON.stringify] writes *)
Lemma json_string_unit c r acc :
  c ≠ 34%N → c ≠ 92%N → (32 ≤ c)%N → json_string (c :: r) acc = json_string r (acc ++ [c]).
Proof.
  intros H1 H2 H3. cbn [json_string]. rewrite (proj2 (N.eqb_neq c 34) H1), (proj2 (N.eqb_neq c 92) H2).
  by rewrite (proj2 (N.ltb_ge c 32) H3).
Qed.
Lemma json_string_unicode c r acc :
  (c < 65536)%N → json_string (unicode_escape c ++ r) acc = json_string r (acc ++ [c]).
Proof.
  intros Hc. unfold unicode_escape. change (js "\u") with [92; 117]%N. cbn [app json_string].
  change [hex_digit (c / 4096); hex_digit (c / 256 mod 16); hex_digit (c / 16 mod 16);
    hex_digit (c mod 16)]%N with (map hex_digit (hex_digits c)).
  by rewrite (unicode_value c Hc).
Qed.
Lemma json_string_quote c r acc :
  (c < 65536)%N → json_string (quote_unit c ++ r) acc = json_string r (acc ++ [c]).
Proof.
  intros Hc. apply (quote_unit_cases c (λ q, json_string (q ++ r) acc = _)); intros.
  - cbn [app json_string]. change (92 =? 34)%N with false. change (92 <? 32)%N with false.
    change (92 =? 92)%N with true. cbn [negb]. cbv iota.
    rewrite (proj2 (N.eqb_neq d 117)) by done. by rewrite H0.
  - by apply json_string_unicode.
  - by apply json_string_unit.
Qed.

Lemma json_string_quote_units s r acc :
  code_units s → json_string (quote_units s ++ 34%N :: r) acc = Some (acc ++ s, r).
Proof.
  assert (∀ n s acc, length s ≤ n → code_units s →
    json_string (quote_units s ++ 34%N :: r) acc = Some (acc ++ s, r)) as H; [|by eapply H].
  clear s acc. induction n as [|n IH]; intros s acc Hn Hs; destruct s as [|c s1]; simpl in Hn; try lia;
    [by rewrite app_nil_r|by rewrite app_nil_r|].
  apply Forall_cons in Hs as [Hc Hs]. cbn [quote_units].
  assert (∀ t, acc ++ c :: t = (acc ++ [c]) ++ t) as Hacc by (intros t; by rewrite <- app_assoc).
  destruct (is_lead c) eqn:El.
  - destruct (surrogate_plain c) as (? & ? & ?); [by left|].
    destruct s1 as [|d s2]; [by rewrite json_string_unicode|].
    destruct (is_trail d) eqn:Et.
    + apply Forall_cons in Hs as [Hd Hs].
      destruct (surrogate_plain d) as (? & ? & ?); [by right|].
      cbn [app]. rewrite !json_string_unit by done. rewrite IH by (done || (simpl in Hn; lia)).
      by rewrite <- !app_assoc.
    + rewrite <- app_assoc, json_string_unicode by done. rewrite IH by (done || (simpl in *; lia)).
      by rewrite <- app_assoc.
  - destruct (is_trail c).
    + rewrite <- app_assoc, json_string_unicode by done. rewrite IH by (done || lia). by rewrite <- app_assoc.
    + rewrite <- app_assoc, json_string_quote by done. rewrite IH by (done || lia). by rewrite <- app_assoc.
Qed.

Lemma json_parse_stringify s : code_units s → json_parse (json_stringify s) = Ok (VString s).
Proof.
  intros Hs. unfold json_parse, json_stringify. cbn [app json_value json_skip].
  change (json_skip (34%N :: quote_units s ++ [34%N])) with (34%N :: quote_units s ++ [34%N]).
  cbv iota. change (34 =? 34)%N with true. cbv iota.
  rewrite (json_string_quote_units s [] []) by done. done.
Qed.
