(* ===== verification/BillingExpr.v ===== *)
(** * features/pricing/lib/billing-expr.ts

    The compatibility layer between the compiled language and the pricing
    screens: the variable registry, token and task tiers of an expression, the
    request-rule syntax (recognised with regular expressions, as the code does),
    splitting an expression into its price and its rules, and building rules
    from the editor's conditions. A function that can throw returns [result]. *)

From S2P Require Import Prelude JsNumber JsText Types Parser Compile Runtime Structure Display.
From S2P Require Import JsRegex.

(** ** Variable registry *)
Inductive Side := side_input | side_output | side_condition.
#[export] Instance Side_eq_dec : EqDecision Side.
Proof. solve_decision. Defined.

Record BillingVar := mkVar {
  var_key : jsstring;
  var_field : option jsstring;
  tierField : option jsstring;
  var_label : jsstring;
  shortLabel : jsstring;
  side : Side;
  isBase : bool;
  isConditionOnly : bool;
  group : option jsstring
}.

Definition base_var (key field tier label short : String.string) (s : Side) : BillingVar :=
  mkVar (js key) (Some (js field)) (Some (js tier)) (js label) (js short) s true false None.
Definition extra_var (key field tier label short : String.string) (s : Side) (g : String.string)
    : BillingVar :=
  mkVar (js key) (Some (js field)) (Some (js tier)) (js label) (js short) s false false (Some (js g)).

Definition BILLING_VARS : list BillingVar := [
  base_var "p" "inputPrice" "input_unit_cost" "Input price" "Input" side_input;
  base_var "c" "outputPrice" "output_unit_cost" "Completion price" "Output" side_output;
  mkVar (js "len") None None (js "Input length") (js "Length") side_condition false true None;
  extra_var "cr" "cacheReadPrice" "cache_read_unit_cost" "Cache read price" "Cache Read"
    side_input "cache";
  extra_var "cc" "cacheCreatePrice" "cache_create_unit_cost" "Cache create price" "Cache Write"
    side_input "cache";
  extra_var "img_cr" "imageCachePrice" "image_cache_unit_cost" "Image cache input price"
    "Image Cache" side_input "cache";
  extra_var "cc1h" "cacheCreate1hPrice" "cache_create_1h_unit_cost" "Cache create (1h) price"
    "Cache Write (1h)" side_input "cache";
  extra_var "img" "imagePrice" "image_unit_cost" "Image input price" "Image In"
    side_input "media";
  extra_var "img_o" "imageOutputPrice" "image_output_unit_cost" "Image output price" "Image Out"
    side_output "media";
  extra_var "ai" "audioInputPrice" "audio_input_unit_cost" "Audio input price" "Audio In"
    side_input "media";
  extra_var "ao" "audioOutputPrice" "audio_output_unit_cost" "Audio output price" "Audio Out"
    side_output "media"]%string.

Definition BILLING_PRICING_VARS : list BillingVar :=
  List.filter (λ v, negb (isConditionOnly v)) BILLING_VARS.
Definition BILLING_CONDITION_VARS : list jsstring :=
  map var_key (List.filter (λ v, isBase v || isConditionOnly v) BILLING_VARS).
Definition BILLING_VAR_KEY_TO_FIELD : list (jsstring * jsstring) :=
  map (λ v, (var_key v, default [] (var_field v))) BILLING_PRICING_VARS.
Definition BILLING_EXTRA_VARS : list BillingVar :=
  List.filter (λ v, negb (isBase v) && negb (isConditionOnly v)) BILLING_VARS.
(** Pairs of [field] and [exprVar]. *)
Definition BILLING_CACHE_VAR_MAP : list (jsstring * jsstring) :=
  map (λ v, (default [] (tierField v), var_key v)) BILLING_EXTRA_VARS.

(** ** Request rules *)
Definition MATCH_EQ : jsstring := js "eq".
Definition MATCH_CONTAINS : jsstring := js "contains".
Definition MATCH_GT : jsstring := js "gt".
Definition MATCH_GTE : jsstring := js "gte".
Definition MATCH_LT : jsstring := js "lt".
Definition MATCH_LTE : jsstring := js "lte".
Definition MATCH_EXISTS : jsstring := js "exists".
Definition MATCH_RANGE : jsstring := js "range".

Inductive TimeFunc := tf_hour | tf_minute | tf_weekday | tf_month | tf_day.
#[export] Instance TimeFunc_eq_dec : EqDecision TimeFunc.
Proof. solve_decision. Defined.
Definition TIME_FUNCS : list TimeFunc := [tf_hour; tf_minute; tf_weekday; tf_month; tf_day].
Definition time_func_text (f : TimeFunc) : jsstring :=
  match f with
  | tf_hour => js "hour" | tf_minute => js "minute" | tf_weekday => js "weekday"
  | tf_month => js "month" | tf_day => js "day"
  end.
Definition time_func_of (s : jsstring) : option TimeFunc :=
  List.find (λ f, time_func_text f =s s) TIME_FUNCS.

Inductive RequestSource := source_param | source_header.
#[export] Instance RequestSource_eq_dec : EqDecision RequestSource.
Proof. solve_decision. Defined.

Record ParamHeaderCondition := mkPH {
  ph_source : RequestSource;
  ph_path : jsstring;
  ph_mode : jsstring;
  ph_value : jsstring
}.
Record TimeRuleCondition := mkTimeRule {
  timeFunc : TimeFunc;
  timezone : jsstring;
  time_mode : jsstring;
  time_text : jsstring;
  rangeStart : jsstring;
  rangeEnd : jsstring
}.
Inductive RequestCondition :=
  | OnTime (c : TimeRuleCondition)
  | OnRequest (c : ParamHeaderCondition).

Record RequestRuleGroup := mkGroup {
  group_conditions : list RequestCondition;
  multiplier : jsstring;
  group_conditionText : option jsstring;
  group_matched : option bool
}.
Record RequestRuleTrace := mkTrace {
  trace_cond : jsstring;
  trace_multiplier : num;
  trace_matched : bool
}.

(** [NUMERIC_LITERAL_REGEX.test(text)]: an optional minus and a decimal that
    is read to the end. *)
Definition is_numeric_literal (text : jsstring) : bool :=
  let u := match text with
           | c :: r => if (c =? 45)%N then r else text
           | [] => text
           end in
  match scan_decimal u with
  | Some (_, []) => true
  | _ => false
  end.

(** ** Tiers of an expression *)
Record ParsedTier := mkParsedTier {
  pt_billingUnit : option BillingUnit;
  pt_fixedPrice : option num;
  pt_conditionText : option jsstring;
  pt_label : jsstring;
  pt_conditions : list TokenTierCondition;
  pt_imageCount : bool;
  (** The other fields of the object, in order. *)
  pt_fields : list (jsstring * num)
}.

(** A property that is only set when the text is not empty. *)
Definition truthy_text (t : option jsstring) : option jsstring :=
  match t with Some (_ :: _) => t | _ => None end.

Definition mapTokenTier (tier : TokenTier) : ParsedTier :=
  let by_request := bool_decide (tt_billingUnit tier = Some unit_request) in
  mkParsedTier
    (if by_request then tt_billingUnit tier else None)
    (if by_request then tt_fixedPrice tier else None)
    (truthy_text (conditionText tier)) (label tier) (conditions tier) (tt_imageCount tier)
    (map (λ '(key, price), (default (js "undefined") (own BILLING_VAR_KEY_TO_FIELD key), price))
       (prices tier)).

Section Tiers.
Context `{Host}.

(** The clock is only read when a time is asked for. *)
Definition parseTiersFromExpr (exprStr : jsstring) : result (list ParsedTier) :=
  if exprStr =s [] then Ok []
  else
    match compile_source exprStr with
    | CompileFailed _ => Ok []
    | Ready compiled =>
        match readTokenTierChain (c_ast compiled) with
        | Some canonical => Ok (map mapTokenTier canonical)
        | None =>
            pricing ← readTimeTokenPricing None exprStr None;
            Ok (match pricing with
                | Some pricing => map (mapTokenTier ∘ time_tier) (tiers pricing)
                | None => []
                end)
        end
    end.

Definition getCurrentTimePricingTiers (clock : Date) (exprStr : jsstring) (now : Date)
    : result (option (list ParsedTier)) :=
  pricing ← readTimeTokenPricing clock exprStr (Some now);
  Ok (match pricing with
      | Some pricing => Some (map (mapTokenTier ∘ time_tier) (currentTiers pricing))
      | None => None
      end).
End Tiers.

(** [replaceAll] of a comparison sign: [plain] or [wide], each with an optional
    equals sign, or [single]. *)
Definition is_equals (c : code_unit) : bool := ((c =? 61) || (c =? 65309))%N.
Fixpoint replace_sign (plain wide single : code_unit) (s : jsstring) : jsstring :=
  match s with
  | [] => []
  | c :: r =>
      if (c =? plain)%N || (c =? wide)%N then
        plain :: match r with
                 | d :: r' =>
                     if is_equals d then replace_sign plain wide single r'
                     else replace_sign plain wide single r
                 | [] => []
                 end
      else if (c =? single)%N then plain :: replace_sign plain wide single r
      else c :: replace_sign plain wide single r
  end.

Definition normalizeTierLabel `{Host} (label : option jsstring) : jsstring :=
  match label with
  | Some (c :: r) =>
      let s := replace_sign 60 65308 8804 (c :: r) in
      let s := replace_sign 62 65310 8805 s in
      toLowerCase (List.filter (λ c, negb (is_space c)) s)
  | _ => []
  end.

(** ** Reading request rules *)
Definition splitTopLevelMultiply (expr : jsstring) : list jsstring :=
  splitExpressionAtTopLevel expr (js "*").
Definition splitTopLevelAnd (expr : jsstring) : list jsstring :=
  splitExpressionAtTopLevel expr (js "&&").

(** [None] is [null], also when it is what the text denotes. *)
Definition parseExprLiteral (raw : jsstring) : option jsval :=
  let text := trim raw in
  if (text =s js "true") || (text =s js "false") then Some (VString text)
  else if is_numeric_literal text then Some (VString text)
  else
    match json_parse text with
    | Ok VNull | Err _ => None
    | Ok v => Some v
    end.

Definition TIME_FUNC_RANGES (f : TimeFunc) : num * num :=
  let range a b := (num_of_Z a, num_of_Z b) in
  match f with
  | tf_hour => range 0 23 | tf_minute => range 0 59 | tf_weekday => range 0 6
  | tf_month => range 1 12 | tf_day => range 1 31
  end%Z.

Definition isTimeValueInRange (f : TimeFunc) (text : jsstring) : bool :=
  if negb (is_numeric_literal text) then false
  else
    let value := number_of_string text in
    if negb (is_integer value) then false
    else let '(min, max) := TIME_FUNC_RANGES f in num_leb min value && num_leb value max.

(** The pieces of the patterns: [name("...")] with the quoted text as a group,
    a run of number characters, a JSON string. *)
Definition not_quote (c : code_unit) : bool := negb (c =? 34)%N.
Definition number_unit (c : code_unit) : bool := is_digit c || existsb (N.eqb c) (js ".eE+-").
Definition r_open : regex := rtext (js "(" ++ [34%N]).
Definition r_close : regex := rtext ([34%N] ++ js ")").
Definition r_quoted (i : nat) : regex := rseq [r_open; RGroup i (rplus (RUnit not_quote)); r_close].
Definition r_number (i : nat) : regex := RGroup i (rplus (RUnit number_unit)).
Definition r_time (i : nat) : regex := RGroup i (rtexts (map time_func_text TIME_FUNCS)).
Definition r_string (i : nat) : regex :=
  RGroup i (rseq [RUnit (N.eqb 34);
                  RStar (RAlt (RUnit (λ c, not_quote c && negb (c =? 92)%N))
                              (RSeq (RUnit (N.eqb 92)) rdot));
                  RUnit (N.eqb 34)]).

Definition time_range_pattern : regex :=
  rseq [r_time 1; r_quoted 2; rtext (js " >= "); r_number 3; rtext (js " ");
        rtexts [js "&&"; js "||"]; rtext (js " "); RRef 1; r_open; RRef 2; r_close;
        rtext (js " < "); r_number 4].
Definition time_bound_pattern : regex :=
  rseq [r_time 1; r_quoted 2; rtext (js " "); RGroup 3 (rtexts [js "=="; js ">="; js "<"]);
        rtext (js " "); r_number 4].

Definition either {A} (a b : option A) : option A := match a with Some _ => a | None => b end.

(** The object an operator's text is looked up in. *)
Definition time_modes : list (jsstring * jsstring) :=
  [(js "==", MATCH_EQ); (js ">=", MATCH_GTE); (js "<", MATCH_LT)].
Definition number_modes : list (jsstring * jsstring) :=
  [(js ">", MATCH_GT); (js ">=", MATCH_GTE); (js "<", MATCH_LT); (js "<=", MATCH_LTE)].

Definition tryParseTimeCondition (expr : jsstring) : option TimeRuleCondition :=
  match either (match_whole time_range_pattern expr)
               (match_whole (rseq [rtext (js "("); time_range_pattern; rtext (js ")")]) expr) with
  | Some m =>
      f ← time_func_of (cap m 1);
      if negb (isTimeValueInRange f (cap m 3)) || negb (isTimeValueInRange f (cap m 4)) then None
      else Some (mkTimeRule f (cap m 2) MATCH_RANGE [] (cap m 3) (cap m 4))
  | None =>
      m ← match_whole time_bound_pattern expr;
      f ← time_func_of (cap m 1);
      if negb (isTimeValueInRange f (cap m 4)) then None
      else
        Some (mkTimeRule f (cap m 2) (default MATCH_EQ (own time_modes (cap m 3))) (cap m 4) [] [])
  end.

Definition header_exists_pattern : regex :=
  rseq [rtext (js "header"); r_quoted 1; rtext (js " != " ++ [34; 34]%N)].
Definition param_exists_pattern : regex :=
  rseq [rtext (js "param"); r_quoted 1; rtext (js " != nil")].
Definition header_contains_pattern : regex :=
  rseq [rtext (js "has(header"); r_quoted 1; rtext (js ", "); r_string 2; rtext (js ")")].
Definition param_contains_pattern : regex :=
  rseq [rtext (js "param"); r_quoted 1; rtext (js " != nil && has(param"); r_quoted 2;
        rtext (js ", "); r_string 3; rtext (js ")")].
Definition param_number_pattern : regex :=
  rseq [rtext (js "param"); r_quoted 1; rtext (js " != nil && param"); r_quoted 2;
        rtext (js " "); RGroup 3 (rtexts [js ">"; js ">="; js "<"; js "<="]);
        rtext (js " "); r_number 4].
Definition equals_pattern : regex :=
  rseq [RGroup 1 (rtexts [js "param"; js "header"]); r_quoted 2; rtext (js " == ");
        RGroup 3 (rplus rdot)].

(** [JSON.parse] of a text that starts with a quote: a string, or it throws. *)
Definition json_parse_string (text : jsstring) : result jsstring :=
  v ← json_parse text;
  match v with VString s => Ok s | _ => Err syntax_error end.

Definition on_request (s : RequestSource) (path mode value : jsstring) : option RequestCondition :=
  Some (OnRequest (mkPH s path mode value)).

(** [m && m[1] === m[2]]. *)
Definition same_path (m : option captures) : option captures :=
  m ← m; if cap m 1 =s cap m 2 then Some m else None.

Definition tryParseRequestCondition (expr : jsstring) : result (option RequestCondition) :=
  match tryParseTimeCondition expr with
  | Some tc => Ok (Some (OnTime tc))
  | None =>
  match match_whole header_exists_pattern expr with
  | Some m => Ok (on_request source_header (cap m 1) MATCH_EXISTS [])
  | None =>
  match match_whole param_exists_pattern expr with
  | Some m => Ok (on_request source_param (cap m 1) MATCH_EXISTS [])
  | None =>
  match match_whole header_contains_pattern expr with
  | Some m =>
      value ← json_parse_string (cap m 2);
      Ok (on_request source_header (cap m 1) MATCH_CONTAINS value)
  | None =>
  match same_path (match_whole param_contains_pattern expr) with
  | Some m =>
      value ← json_parse_string (cap m 3);
      Ok (on_request source_param (cap m 1) MATCH_CONTAINS value)
  | None =>
  match same_path (match_whole param_number_pattern expr) with
  | Some m =>
      Ok (on_request source_param (cap m 1) (default [] (own number_modes (cap m 3))) (cap m 4))
  | None =>
  match match_whole equals_pattern expr with
  | Some m =>
      match parseExprLiteral (cap m 3) with
      | None => Ok None
      | Some parsedValue =>
          value ← to_string parsedValue;
          Ok (on_request (if cap m 1 =s js "header" then source_header else source_param)
                (cap m 2) MATCH_EQ value)
      end
  | None => Ok None
  end end end end end end end.

Definition tryParseTimeRangePair (lower upper : jsstring) : option RequestCondition :=
  ta ← tryParseTimeCondition lower;
  tb ← tryParseTimeCondition upper;
  if negb (bool_decide (timeFunc ta = timeFunc tb)) || negb (timezone ta =s timezone tb) then None
  else if negb (time_mode ta =s MATCH_GTE) || negb (time_mode tb =s MATCH_LT) then None
  else
    Some (OnTime (mkTimeRule (timeFunc ta) (timezone ta) MATCH_RANGE [] (time_text ta) (time_text tb))).

(** The loop over the parts; two parts that form one range are read together. *)
Fixpoint request_conditions (parts : list jsstring) (conditions : list RequestCondition)
    : result (option (list RequestCondition)) :=
  let single part rest :=
    condition ← tryParseRequestCondition part;
    match condition with
    | None => Ok None
    | Some condition => request_conditions rest (conditions ++ [condition])
    end in
  match parts with
  | [] => Ok (match conditions with [] => None | _ => Some conditions end)
  | part :: rest =>
      match rest with
      | next :: after =>
          let next := trim next in
          match (if next =s [] then None else tryParseTimeRangePair (trim part) next) with
          | Some merged => request_conditions after (conditions ++ [merged])
          | None => single (trim part) rest
          end
      | [] => single (trim part) rest
      end
  end.

Definition tryParseRequestConditions (conditionStr : jsstring)
    : result (option (list RequestCondition)) :=
  match tryParseTimeCondition (trim conditionStr) with
  | Some c => Ok (Some [OnTime c])
  | None => request_conditions (splitTopLevelAnd conditionStr) []
  end.

(** With the [s] flag: the condition is any text, as long as possible. *)
Definition group_pattern : regex :=
  rseq [rtext (js "("); RGroup 1 (rplus rany); rtext (js " ? "); r_number 2; rtext (js " : 1)")].

Definition tryParseRuleGroupFactor (part : jsstring) : result (option RequestRuleGroup) :=
  match match_whole group_pattern part with
  | None => Ok None
  | Some m =>
      conditions ← tryParseRequestConditions (cap m 1);
      Ok (conditions ← conditions; Some (mkGroup conditions (cap m 2) None None))
  end.

Definition requestRuleGroupsFromTrace (requestRules : list RequestRuleTrace)
    : result (list RequestRuleGroup) :=
  mapM_result (λ rule,
    let conditionText := trim (trace_cond rule) in
    conditions ← tryParseRequestConditions conditionText;
    Ok (mkGroup (default [] conditions) (num_to_string (trace_multiplier rule))
          (Some conditionText) (Some (trace_matched rule)))) requestRules.

Fixpoint rule_groups (parts : list jsstring) (groups : list RequestRuleGroup)
    : result (option (list RequestRuleGroup)) :=
  match parts with
  | [] => Ok (Some groups)
  | part :: parts =>
      group ← tryParseRuleGroupFactor part;
      match group with
      | None => Ok None
      | Some group => rule_groups parts (groups ++ [group])
      end
  end.

Definition tryParseRequestRuleExpr (expr : jsstring) : result (option (list RequestRuleGroup)) :=
  let trimmed := trim expr in
  if trimmed =s [] then Ok (Some []) else rule_groups (splitTopLevelMultiply trimmed) [].

(** ** Splitting and combining *)
Definition unwrapOuterParens (expr : jsstring) : jsstring := unwrapExpressionParens expr.

Record SplitExpression := mkSplit { billingExpr : jsstring; requestRuleExpr : jsstring }.

(** The part compiles to a node that is a request rule. *)
Definition traced (part : jsstring) : bool :=
  match compile_source part with
  | Ready compiled => existsb (λ rule, same_node (rr_node rule) (c_ast compiled)) (c_requestRules compiled)
  | CompileFailed _ => false
  end.

Definition is_rule_part (part : jsstring) : result bool :=
  parsed ← tryParseRequestRuleExpr part;
  Ok (match parsed with Some (_ :: _) => true | _ => traced part end).

(** The [forEach]: rule parts and base parts, in order. *)
Fixpoint sort_parts (parts : list jsstring) : result (list jsstring * list jsstring) :=
  match parts with
  | [] => Ok ([], [])
  | part :: parts =>
      rule ← is_rule_part part;
      '(ruleParts, baseParts) ← sort_parts parts;
      Ok (if rule : bool then (part :: ruleParts, baseParts) else (ruleParts, part :: baseParts))
  end.

Definition splitBillingExprAndRequestRules (expr : jsstring) : result SplitExpression :=
  let trimmed := trim expr in
  if trimmed =s [] then Ok (mkSplit [] [])
  else
    let parts := splitTopLevelMultiply trimmed in
    if length parts <=? 1 then Ok (mkSplit trimmed [])
    else
      '(ruleParts, baseParts) ← sort_parts parts;
      let quantityParts :=
        List.filter (λ part, unwrapOuterParens part =s js "image_count") baseParts in
      if (length ruleParts =? 0) || negb (length baseParts - length quantityParts =? 1)
      then Ok (mkSplit trimmed [])
      else
        Ok (mkSplit (join (js " * ") (map unwrapOuterParens baseParts))
              (join (js " * ") ruleParts)).

Definition combineBillingExpr (baseExpr requestRuleExpr : jsstring) : jsstring :=
  let base := trim baseExpr in
  let rules := trim requestRuleExpr in
  if base =s [] then []
  else if rules =s [] then base
  else js "(" ++ base ++ js ") * " ++ rules.

Definition parseTaskTiersFromExpr (exprStr : jsstring) (schema : option BillingUsageSchema)
    (includeBooleanConditions : bool) : result (list TaskTier) :=
  match schema with
  | None | Some [] => Ok []
  | Some schema =>
      if exprStr =s [] then Ok []
      else
        split ← splitBillingExprAndRequestRules exprStr;
        match compile_source (billingExpr split) with
        | CompileFailed _ => Ok []
        | Ready compiled =>
            Ok (default [] (readTaskTierChain schema (c_ast compiled) includeBooleanConditions))
        end
  end.

(** ** The editor's conditions *)
Definition createEmptyCondition : ParamHeaderCondition := mkPH source_param [] MATCH_EQ [].
Definition createEmptyTimeCondition : TimeRuleCondition :=
  mkTimeRule tf_hour (js "Asia/Shanghai") MATCH_GTE [] [] [].
Definition createEmptyRuleGroup : RequestRuleGroup :=
  mkGroup [OnRequest createEmptyCondition] [] None None.
Definition createEmptyTimeRuleGroup : RequestRuleGroup :=
  mkGroup [OnTime createEmptyTimeCondition] [] None None.

(** Pairs of [value] and [labelKey]. *)
Definition getRequestRuleMatchOptions (source : jsstring) : list (jsstring * jsstring) :=
  if source =s js "time" then
    [(MATCH_EQ, js "Equals"); (MATCH_GTE, js "Greater than or equal");
     (MATCH_LT, js "Less than"); (MATCH_RANGE, js "Overnight range")]
  else
    let base := [(MATCH_EQ, js "Equals"); (MATCH_CONTAINS, js "Contains");
                 (MATCH_EXISTS, js "Exists")] in
    if source =s js "header" then base
    else base ++ [(MATCH_GT, js "Greater than"); (MATCH_GTE, js "Greater than or equal");
                  (MATCH_LT, js "Less than"); (MATCH_LTE, js "Less than or equal")].

Definition source_text (s : RequestSource) : jsstring :=
  match s with source_param => js "param" | source_header => js "header" end.

(** [Partial<RequestCondition>]: a missing, undefined or null field is [None]. *)
Record PartialCondition := mkPartial {
  partial_source : option jsstring;
  partial_path : option jsstring;
  partial_timeFunc : option jsstring;
  partial_timezone : option jsstring;
  partial_mode : option jsstring;
  partial_value : option jsstring;
  partial_rangeStart : option jsstring;
  partial_rangeEnd : option jsstring
}.
Definition empty_partial : PartialCondition := mkPartial None None None None None None None None.
Definition partial_of (c : RequestCondition) : PartialCondition :=
  match c with
  | OnTime c => mkPartial (Some (js "time")) None (Some (time_func_text (timeFunc c)))
                  (Some (timezone c)) (Some (time_mode c)) (Some (time_text c))
                  (Some (rangeStart c)) (Some (rangeEnd c))
  | OnRequest c => mkPartial (Some (source_text (ph_source c))) (Some (ph_path c)) None None
                     (Some (ph_mode c)) (Some (ph_value c)) None None
  end.

(** [text || fallback]. *)
Definition or_text (t : option jsstring) (fallback : jsstring) : jsstring :=
  default fallback (truthy_text t).
(** The mode when the options list it. *)
Definition listed_mode (source : jsstring) (mode : option jsstring) (fallback : jsstring) : jsstring :=
  match mode with
  | Some mode => if str_in mode (map fst (getRequestRuleMatchOptions source)) then mode else fallback
  | None => fallback
  end.

Definition normalizeCondition (cond : option PartialCondition) : RequestCondition :=
  let cond := default empty_partial cond in
  if bool_decide (partial_source cond = Some (js "time")) then
    OnTime (mkTimeRule (default tf_hour (partial_timeFunc cond ≫= time_func_of))
              (or_text (partial_timezone cond) (js "Asia/Shanghai"))
              (listed_mode (js "time") (partial_mode cond) MATCH_GTE)
              (default [] (partial_value cond))
              (default [] (partial_rangeStart cond)) (default [] (partial_rangeEnd cond)))
  else
    let source :=
      if bool_decide (partial_source cond = Some (js "header")) then source_header
      else source_param in
    OnRequest (mkPH source (default [] (partial_path cond))
                 (listed_mode (source_text source) (partial_mode cond) MATCH_EQ)
                 (default [] (partial_value cond))).

(** ** Building request rules *)
Definition buildExprLiteral (mode value : jsstring) : jsstring :=
  let text := trim value in
  if mode =s MATCH_CONTAINS then json_stringify text
  else if (text =s js "true") || (text =s js "false") then text
  else if is_numeric_literal text then text
  else json_stringify text.

(** The operator of a scalar time condition. *)
Definition time_operators : list (jsstring * jsstring) :=
  [(MATCH_EQ, js "=="); (MATCH_GTE, js ">="); (MATCH_LT, js "<")].

Definition buildTimeText (normalized : TimeRuleCondition) : jsstring :=
  let f := timeFunc normalized in
  let fn := time_func_text f ++ js "(" ++ json_stringify (timezone normalized) ++ js ")" in
  if time_mode normalized =s MATCH_RANGE then
    let s := trim (rangeStart normalized) in
    let e := trim (rangeEnd normalized) in
    if negb (isTimeValueInRange f s) || negb (isTimeValueInRange f e) then []
    else if num_ltb (number_of_string e) (number_of_string s) then
      fn ++ js " >= " ++ s ++ js " || " ++ fn ++ js " < " ++ e
    else fn ++ js " >= " ++ s ++ js " && " ++ fn ++ js " < " ++ e
  else
    let v := trim (time_text normalized) in
    if negb (isTimeValueInRange f v) then []
    else fn ++ js " " ++ default (js "==") (own time_operators (time_mode normalized)) ++ js " " ++ v.

(** A condition with the source [time] normalizes to one. *)
Definition buildTimeConditionExpr (cond : TimeRuleCondition) : jsstring :=
  match normalizeCondition (Some (partial_of (OnTime cond))) with
  | OnTime normalized => buildTimeText normalized
  | OnRequest _ => []
  end.

Definition number_operators : list (jsstring * jsstring) :=
  [(MATCH_GT, js ">"); (MATCH_GTE, js ">="); (MATCH_LT, js "<"); (MATCH_LTE, js "<=")].

Definition buildParamHeaderText (normalized : ParamHeaderCondition) : jsstring :=
  let path := trim (ph_path normalized) in
  if path =s [] then []
  else
    let on_header := bool_decide (ph_source normalized = source_header) in
    let sourceExpr :=
      source_text (ph_source normalized) ++ js "(" ++ json_stringify path ++ js ")" in
    let mode := ph_mode normalized in
    let literal := buildExprLiteral mode (ph_value normalized) in
    if mode =s MATCH_EXISTS then
      if on_header then sourceExpr ++ js " != " ++ [34; 34]%N else sourceExpr ++ js " != nil"
    else if mode =s MATCH_CONTAINS then
      let has := js "has(" ++ sourceExpr ++ js ", " ++ literal ++ js ")" in
      if on_header then has else sourceExpr ++ js " != nil && " ++ has
    else
      match own number_operators mode with
      | Some op =>
          let numText := trim (ph_value normalized) in
          if negb (is_numeric_literal numText) then []
          else sourceExpr ++ js " != nil && " ++ sourceExpr ++ js " " ++ op ++ js " " ++ numText
      | None => sourceExpr ++ js " == " ++ literal
      end.

Definition buildRequestConditionExpr (cond : RequestCondition) : jsstring :=
  match cond with
  | OnTime c => buildTimeConditionExpr c
  | OnRequest _ =>
      match normalizeCondition (Some (partial_of cond)) with
      | OnRequest normalized => buildParamHeaderText normalized
      | OnTime _ => []
      end
  end.

Definition parenthesize_alternative (e : jsstring) : jsstring :=
  if includes (js " || ") e then js "(" ++ e ++ js ")" else e.

Definition buildRuleGroupFactor (group : RequestRuleGroup) : jsstring :=
  let multiplier := trim (multiplier group) in
  if negb (is_numeric_literal multiplier) then []
  else
    let condExprs := List.filter nonempty (map buildRequestConditionExpr (group_conditions group)) in
    match condExprs with
    | [] => []
    | [e] => js "(" ++ e ++ js " ? " ++ multiplier ++ js " : 1)"
    | _ =>
        js "(" ++ join (js " && ") (map parenthesize_alternative condExprs)
        ++ js " ? " ++ multiplier ++ js " : 1)"
    end.

Definition buildRequestRuleExpr (groups : list RequestRuleGroup) : jsstring :=
  join (js " * ") (List.filter nonempty (map buildRuleGroupFactor groups)).

(** ** The functions on examples *)

(** Text with its apostrophes read as double quotes. *)
Definition quoted (s : String.string) : jsstring :=
  map (λ c, if (c =? 39)%N then 34%N else c) (js s).

Definition example_group : RequestRuleGroup :=
  mkGroup [OnTime (mkTimeRule tf_hour (js "UTC") MATCH_RANGE [] (js "21") (js "6"));
           OnRequest (mkPH source_header (js "x-tier") MATCH_EXISTS []);
           OnRequest (mkPH source_param (js "service_tier") MATCH_EQ (js "fast"));
           OnTime (mkTimeRule tf_day (js "UTC") MATCH_EQ (js "1") [] [])]
    (js "1.5") None None.
Example example_group_text :
  buildRequestRuleExpr [example_group] =
  quoted "((hour('UTC') >= 21 || hour('UTC') < 6) && header('x-tier') != '' && param('service_tier') == 'fast' && day('UTC') == 1 ? 1.5 : 1)".
Proof. vm_compute. reflexivity. Qed.
Example example_group_read :
  tryParseRequestRuleExpr (buildRequestRuleExpr [example_group]) = Ok (Some [example_group]).
Proof. vm_compute. reflexivity. Qed.
Example example_split :
  splitBillingExprAndRequestRules
    (combineBillingExpr (quoted "tier('base', p * 2)") (buildRequestRuleExpr [example_group])) =
  Ok (mkSplit (quoted "tier('base', p * 2)") (buildRequestRuleExpr [example_group])).
Proof. vm_compute. reflexivity. Qed.
Example example_throws :
  splitBillingExprAndRequestRules
    (quoted "tier('base', p * 2) * (has(header('a'), '" ++ js "\q" ++ quoted "') ? 2 : 1)") =
  Err syntax_error.
Proof. vm_compute. reflexivity. Qed.
