(* ===== verification/BillingExprFacts.v ===== *)
(** * Request rules: reading back what is built

    The rules the editor builds from readable conditions are read back as they
    were; comparisons of a parameter with a number are not. *)

From S2P Require Import Prelude JsNumber JsNumberFacts JsText Types Parser ParserFacts Compile.
From S2P Require Import Runtime Structure Display JsRegex JsRegexFacts BillingExpr.

(** ** Numeric texts *)

Lemma units_of_digits ds : Forall (λ c, is_digit c = true) ds → forallb number_unit ds = true.
Proof.
  intros H. apply forallb_forall. intros c Hc%list_elem_of_In. rewrite Forall_forall in H.
  unfold number_unit. by rewrite (H c Hc).
Qed.

Lemma sign_units s neg r : scan_sign s = (neg, r) → ∃ p, s = p ++ r ∧ forallb number_unit p = true.
Proof.
  unfold scan_sign. destruct s as [|c s]; [intros [= <- <-]; by exists []|].
  destruct (N.eqb_spec c 45) as [->|]; [intros [= <- <-]; by exists [45%N]|].
  destruct (N.eqb_spec c 43) as [->|]; intros [= <- <-]; [by exists [43%N]|by exists []].
Qed.

Lemma exponent_units s x r : scan_exponent s = (x, r) → ∃ p, s = p ++ r ∧ forallb number_unit p = true.
Proof.
  unfold scan_exponent. intros H. destruct s as [|c s]; [exists []; naive_solver|].
  destruct ((c =? 101) || (c =? 69))%N eqn:Ec; [|exists []; naive_solver].
  assert (number_unit c = true) as Hc.
  { apply orb_true_iff in Ec as [->%N.eqb_eq| ->%N.eqb_eq]; done. }
  destruct (scan_sign s) as [neg r1] eqn:Es. apply sign_units in Es as (p & -> & Hp).
  pose proof (span_forall is_digit r1) as Hd. destruct (span is_digit r1) as [ds r2] eqn:E.
  apply span_eq in E as ->. simpl in Hd. apply units_of_digits in Hd.
  destruct ds as [|d ds]; [exists []; naive_solver|]. injection H as _ <-.
  exists (c :: p ++ d :: ds). split; [simpl; by rewrite <- app_assoc|].
  cbn [forallb]. by rewrite Hc, forallb_app, Hp.
Qed.

Lemma mantissa_units s ip fp r :
  scan_mantissa s = Some (ip, fp, r) → ∃ p, s = p ++ r ∧ p ≠ [] ∧ forallb number_unit p = true.
Proof.
  unfold scan_mantissa. intros H. pose proof (span_forall is_digit s) as Hs.
  destruct (span is_digit s) as [i t] eqn:E. apply span_eq in E. simpl in Hs. apply units_of_digits in Hs.
  assert (Hdot : ∀ c, (c =? 46)%N = true → number_unit c = true) by (intros c ->%N.eqb_eq; done).
  destruct i as [|d i], t as [|c t]; simplify_eq.
  - destruct (c =? 46)%N eqn:Ec; [|done]. pose proof (span_forall is_digit t) as Ht.
    destruct (span is_digit t) as [f u] eqn:E2. simpl in Ht. apply units_of_digits in Ht.
    apply span_eq in E2. destruct f as [|f0 f]; simplify_eq.
    exists (c :: f0 :: f). split_and!; [done|done|]. cbn [forallb]. by rewrite (Hdot c Ec).
  - exists (d :: i). by rewrite app_nil_r.
  - destruct (c =? 46)%N eqn:Ec.
    + pose proof (span_forall is_digit t) as Ht. destruct (span is_digit t) as [f u] eqn:E2.
      simpl in Ht. apply units_of_digits in Ht. apply span_eq in E2. simplify_eq.
      exists (d :: i ++ c :: fp). split_and!; [simpl; by rewrite <- app_assoc|done|].
      change (d :: i ++ c :: fp) with ((d :: i) ++ c :: fp). rewrite forallb_app, Hs. cbn [forallb].
      by rewrite (Hdot c Ec).
    + simplify_eq. exists (d :: i). done.
Qed.

(** A numeric literal is a run of number units. *)
Lemma numeric_units text : is_numeric_literal text = true → text ≠ [] ∧ forallb number_unit text = true.
Proof.
  unfold is_numeric_literal.
  assert (Hscan : ∀ u, match scan_decimal u with Some (_, []) => true | _ => false end = true →
    u ≠ [] ∧ forallb number_unit u = true).
  { intros u. unfold scan_decimal. destruct (scan_mantissa u) as [[[ip fp] r]|] eqn:E; [|done].
    destruct (scan_exponent r) as [x r1] eqn:E1. destruct r1; [|done]. intros _.
    apply mantissa_units in E as (p & -> & Hne & Hp). apply exponent_units in E1 as (q & -> & Hq).
    rewrite app_nil_r. split; [by intros [? _]%app_nil|]. by rewrite forallb_app, Hp, Hq. }
  destruct text as [|c r]; [done|]. destruct (N.eqb_spec c 45) as [->|]; [|apply Hscan].
  intros [_ Hr]%Hscan. split; [done|]. cbn [forallb]. by rewrite Hr.
Qed.

Lemma number_unit_cases c : number_unit c = true → is_space c = false ∧ is_quote c = false ∧
  opening c = false ∧ closing c = false ∧ c ≠ 63%N ∧ c ≠ 42%N ∧ c ≠ 38%N.
Proof.
  unfold number_unit, is_digit. rewrite orb_true_iff, andb_true_iff, !N.leb_le.
  intros [[Hl Hh]|H].
  - assert (∃ k, (k < 10)%nat ∧ c = (48 + N.of_nat k)%N) as (k & Hk & ->)
      by (exists (N.to_nat (c - 48)); lia).
    do 10 (destruct k as [|k]; [by vm_compute|]). lia.
  - cbn in H. repeat (apply orb_true_iff in H as [->%N.eqb_eq|H]; [by vm_compute|]). done.
Qed.

Lemma numeric_trimmed text : is_numeric_literal text = true → trim text = text.
Proof.
  intros [_ H]%numeric_units. apply trim_no_space. rewrite forallb_forall in *. intros c Hc.
  by destruct (number_unit_cases c (H c Hc)) as [-> _].
Qed.

Lemma in_range_numeric f text : isTimeValueInRange f text = true → is_numeric_literal text = true.
Proof. unfold isTimeValueInRange. by destruct (is_numeric_literal text). Qed.

(** ** Texts that do not split *)

(** Balanced text; at the top level without question marks and operators. *)
Inductive neutral : bool → jsstring → Prop :=
  | neutral_nil top : neutral top []
  | neutral_unit top c s :
      is_quote c = false → opening c = false → closing c = false →
      (top = true → c ≠ 63%N ∧ c ≠ 42%N ∧ c ≠ 38%N) → neutral top s → neutral top (c :: s)
  | neutral_string top body s :
      string_body body → neutral top s → neutral top (34%N :: body ++ 34%N :: s)
  | neutral_parens top inner s :
      neutral false inner → neutral top s → neutral top (40%N :: inner ++ 41%N :: s).

Lemma neutral_app top s t : neutral top s → neutral top t → neutral top (s ++ t).
Proof.
  induction 1; simpl; intros Ht; [done|by apply neutral_unit; auto| |];
    rewrite <- app_assoc; simpl; [apply neutral_string|apply neutral_parens]; auto.
Qed.

Lemma neutral_inner top s : neutral top s → neutral false s.
Proof.
  induction 1; [apply neutral_nil|by apply neutral_unit|by apply neutral_string|by apply neutral_parens].
Qed.

Lemma neutral_units top s :
  forallb (λ c, negb (is_quote c) && negb (opening c) && negb (closing c)
                && negb (c =? 63)%N && negb (c =? 42)%N && negb (c =? 38)%N) s = true → neutral top s.
Proof.
  induction s as [|c s IH]; [intros _; apply neutral_nil|]. cbn [forallb].
  rewrite !andb_true_iff, !negb_true_iff, !N.eqb_neq. intros [[[[[[? ?] ?] ?] ?] ?] Hs].
  apply neutral_unit; auto.
Qed.

Definition top_operator (op : jsstring) : Prop := op = js "*" ∨ op = js "&&".

Lemma not_operator op c s : top_operator op → c ≠ 42%N → c ≠ 38%N → starts_with op (c :: s) = false.
Proof.
  intros [-> | ->] H1 H2; [change (js "*") with [42%N]|change (js "&&") with [38; 38]%N];
    cbn [starts_with]; apply andb_false_iff; left; apply N.eqb_neq; congruence.
Qed.

Section Skip.
Context (source op : jsstring) (Hop : top_operator op).

#[local] Set Default Proof Using "All".

Lemma string_skip body rest i start depth parts :
  string_body body →
  split_loop source op (body ++ 34%N :: rest) i 0 start depth (Some 34%N) parts =
  split_loop source op rest (i + S (length body)) 0 start depth None parts.
Proof.
  intros Hb. revert i. induction Hb as [|c s H1 H2 _ IH|d s _ _ IH]; intros i; cbn [app split_loop length].
  - change (34 =? 92)%N with false. change (34 =? 34)%N with true. cbv iota.
    by rewrite Nat.add_1_r.
  - rewrite (proj2 (N.eqb_neq c 92) H2), (proj2 (N.eqb_neq c 34) H1). rewrite IH.
    f_equal. lia.
  - change (92 =? 92)%N with true. cbv iota. rewrite IH. f_equal. lia.
Qed.

Lemma neutral_skip top seg rest i start depth parts :
  neutral top seg → (0 ≤ depth)%Z → (depth = 0%Z → top = true) →
  split_loop source op (seg ++ rest) i 0 start depth None parts =
  split_loop source op rest (i + length seg) 0 start depth None parts.
Proof.
  intros Hn. revert rest i depth. induction Hn as [top|top c s Hq Ho Hc Htop _ IH|top body s Hb _ IH
    |top inner s _ IHin _ IH]; intros rest i depth Hd Hdt.
  - simpl. f_equal. lia.
  - cbn [app split_loop length]. rewrite Hq. unfold adjust. rewrite Ho, Hc.
    destruct (Z.eqb_spec depth 0) as [->|Hne]; cbn [negb].
    + destruct (Htop (Hdt eq_refl)) as (H1 & H2 & H3). rewrite (proj2 (N.eqb_neq c 63) H1).
      rewrite not_operator by done. rewrite IH by done. f_equal. lia.
    + rewrite IH by done. f_equal. lia.
  - cbn [app split_loop length]. change (is_quote 34) with true. cbv iota.
    rewrite <- app_assoc. cbn [app]. rewrite string_skip by done. rewrite IH by done.
    f_equal. rewrite length_app. simpl. lia.
  - cbn [app split_loop length]. change (is_quote 40) with false. cbv iota.
    assert (adjust depth 40 = (depth + 1)%Z) as -> by done.
    rewrite (proj2 (Z.eqb_neq (depth + 1) 0)) by lia. cbn [negb].
    rewrite <- app_assoc. cbn [app]. rewrite IHin by lia. cbn [split_loop].
    change (is_quote 41) with false. cbv iota.
    assert (adjust (depth + 1) 41 = depth) as -> by (unfold adjust; simpl; lia).
    destruct (Z.eqb_spec depth 0) as [->|Hne]; cbn [negb]; [change (41 =? 63)%N with false; cbv iota;
      rewrite not_operator by done|]; rewrite IH by done; f_equal; rewrite length_app; simpl; lia.
Qed.

(** White space around a trimmed piece. *)
Lemma trim_pad a p b :
  forallb is_space a = true → forallb is_space b = true → trim p = p → trim (a ++ p ++ b) = p.
Proof.
  intros Ha Hb Hp. destruct (decide (p = [])) as [->|Hne].
  { simpl. unfold trim, trim_start. rewrite drop_while_app by done.
    rewrite <- (app_nil_r b), drop_while_app by done. done. }
  unfold trim, trim_start in *. rewrite drop_while_app by done.
  assert (Hstart : drop_while is_space p = p).
  { rewrite <- Hp. apply trim_start_trim_end. }
  destruct p as [|c p]; [done|]. apply drop_while_head in Hstart as Hc.
  cbn [app drop_while]. rewrite Hc.
  assert (Hend : trim_end (c :: p) = c :: p).
  { cbn [drop_while] in Hp. by rewrite Hc in Hp. }
  unfold trim_end in *. change (c :: p ++ b) with ((c :: p) ++ b). rewrite reverse_app, drop_while_app; [done|].
  rewrite forallb_forall in *. intros x Hx. apply Hb.
  by rewrite <- list_elem_of_In, elem_of_reverse, list_elem_of_In in Hx.
Qed.

Definition spaced : jsstring := js " " ++ op ++ js " ".

(** The pieces of a joined text. *)
Definition piece_ok (p : jsstring) : Prop := neutral true p ∧ trim p = p ∧ p ≠ [].

Lemma split_pieces_loop pre done_ p pieces parts :
  source = done_ ++ pre ++ join spaced (p :: pieces) → forallb is_space pre = true →
  Forall piece_ok (p :: pieces) →
  split_loop source op (join spaced (p :: pieces)) (length done_ + length pre) 0 (length done_)
    0%Z None parts = Some (parts ++ p :: pieces).
Proof.
  revert pre done_ p parts. induction pieces as [|q pieces IH]; intros pre done_ p parts Hs Hpre Hall;
    apply Forall_cons in Hall as [(Hn & Ht & Hne) Hall].
  - cbn [join] in *. rewrite <- (app_nil_r p) at 1. rewrite (neutral_skip true) by done. cbn [split_loop].
    rewrite Hs, drop_app_length.
    assert (Hp := trim_pad pre p [] Hpre eq_refl Ht). rewrite app_nil_r in Hp. by rewrite Hp.
  - change (join spaced (p :: q :: pieces)) with (p ++ spaced ++ join spaced (q :: pieces)) in *.
    rewrite (neutral_skip true) by done.
    assert (Hgo : ∀ i rest, split_loop source op (spaced ++ rest) i 0 (length done_) 0%Z None parts =
      split_loop source op rest (i + length spaced) 0 (i + 1 + length op) 0%Z None
        (parts ++ [trim (slice source (length done_) (i + 1))])).
    { intros i rest. destruct Hop as [E | E]; rewrite E; unfold spaced; rewrite E.
      - change ((js " " ++ js "*" ++ js " ") ++ rest) with (32%N :: 42%N :: 32%N :: rest).
        cbn [split_loop]. cbn [is_quote adjust]. simpl starts_with. cbv iota.
        simpl length. f_equal; lia.
      - change ((js " " ++ js "&&" ++ js " ") ++ rest) with (32%N :: 38%N :: 38%N :: 32%N :: rest).
        cbn [split_loop]. simpl starts_with. simpl length. cbn [split_loop Nat.sub]. f_equal; lia. }
    rewrite Hgo.
    assert (trim (slice source (length done_) (length done_ + length pre + length p + 1)) = p) as ->.
    { rewrite Hs. unfold slice. rewrite drop_app_length.
      replace (length done_ + length pre + length p + 1 - length done_) with (length (pre ++ p ++ js " "))
        by (rewrite !length_app; simpl; lia).
      assert (∀ x y : jsstring, take (length (pre ++ p ++ js " ")) (pre ++ p ++ js " " ++ x ++ y) =
        pre ++ p ++ js " ") as Htake.
      { intros x y. rewrite (app_assoc p (js " ")), (app_assoc pre (p ++ js " ")).
        rewrite <- (take_app_length (pre ++ p ++ js " ") (x ++ y)) at 3. done. }
      unfold spaced. rewrite <- !app_assoc. rewrite Htake. by apply trim_pad. }
    assert (Hop1 : length spaced = length op + 2) by (unfold spaced; rewrite !length_app; simpl; lia).
    assert (Hsrc : source = (done_ ++ pre ++ p ++ js " " ++ op) ++ js " " ++ join spaced (q :: pieces)).
    { rewrite Hs. unfold spaced. by rewrite <- !app_assoc. }
    assert (Hlen : length (done_ ++ pre ++ p ++ js " " ++ op) = length done_ + length pre + length p + 1 + length op).
    { rewrite !length_app. simpl. lia. }
    specialize (IH (js " ") _ q (parts ++ [p]) Hsrc eq_refl Hall). rewrite Hlen in IH.
    replace (length done_ + length pre + length p + length spaced)
      with (length done_ + length pre + length p + 1 + length op + length (js " ")) by (rewrite Hop1; simpl; lia).
    rewrite IH. by rewrite <- app_assoc.
Qed.
End Skip.

Lemma split_pieces op pieces :
  top_operator op → pieces ≠ [] → Forall piece_ok pieces →
  splitExpressionAtTopLevel (join (spaced op) pieces) op = pieces.
Proof.
  intros Hop Hne Hall. destruct pieces as [|p pieces]; [done|]. unfold splitExpressionAtTopLevel.
  assert (Hloop := split_pieces_loop (join (spaced op) (p :: pieces)) op Hop [] [] p pieces [] eq_refl eq_refl Hall).
  change (@length code_unit [] + @length code_unit []) with 0 in Hloop.
  change (@length code_unit []) with 0 in Hloop. rewrite Hloop.
  change (List.filter nonempty (p :: pieces) = p :: pieces).
  assert (∀ l, Forall piece_ok l → List.filter nonempty l = l) as Hf; [|by apply Hf].
  clear. intros l. induction 1 as [|x l (_ & _ & Hx) _ IH]; [done|]. cbn [List.filter].
  assert (nonempty x = true) as -> by (unfold nonempty; by rewrite (proj2 (str_eqb_neq x []) Hx)).
  by rewrite IH.
Qed.

(** ** Pieces of the patterns *)

(** Units that [JSON.stringify] writes as they are. *)
Definition plain_unit (c : code_unit) : bool :=
  (32 <=? c)%N && (c <? 65536)%N && negb (c =? 34)%N && negb (c =? 92)%N
  && negb (is_lead c) && negb (is_trail c).
Definition plain (p : jsstring) : Prop := p ≠ [] ∧ forallb plain_unit p = true.

Lemma plain_quote p : forallb plain_unit p = true → quote_units p = p.
Proof.
  induction p as [|c p IH]; [done|]. cbn [forallb]. unfold plain_unit at 1.
  rewrite !andb_true_iff, !negb_true_iff, N.leb_le, !N.eqb_neq.
  intros [[[[[[Hl _] H34] H92] Hlead] Htrail] Hp]. cbn [quote_units]. rewrite Hlead, Htrail, (IH Hp).
  assert (quote_unit c = [c]) as ->; [|done]. unfold quote_unit.
  repeat match goal with |- context [(c =? ?n)%N] => rewrite (proj2 (N.eqb_neq c n)) by lia end.
  by rewrite (proj2 (N.ltb_ge c 32)) by lia.
Qed.

Lemma plain_stringify p : plain p → json_stringify p = 34%N :: p ++ [34%N].
Proof. intros [_ Hp]. unfold json_stringify. by rewrite (plain_quote p Hp). Qed.

Lemma plain_not_quote p : forallb plain_unit p = true → forallb not_quote p = true.
Proof.
  rewrite !forallb_forall. intros H c Hc. specialize (H c Hc). unfold plain_unit in H. unfold not_quote.
  rewrite !andb_true_iff in H. tauto.
Qed.

Lemma plain_body p : forallb plain_unit p = true → string_body p.
Proof.
  induction p as [|c p IH]; [constructor|]. cbn [forallb]. unfold plain_unit at 1.
  rewrite !andb_true_iff, !negb_true_iff, !N.eqb_neq. intros [[[[[[_ _] ?] ?] _] _] Hp].
  apply body_unit; auto.
Qed.

(** [(JSON.stringify(p))] as the argument of a call. *)
Definition argument_text (p : jsstring) : jsstring := js "(" ++ json_stringify p ++ js ")".

Lemma r_open_app p s caps k :
  plain p → rmatch r_open (argument_text p ++ s) caps k = k (p ++ 34%N :: 41%N :: s) caps.
Proof.
  intros Hp. assert (argument_text p ++ s = (js "(" ++ [34%N]) ++ p ++ 34%N :: 41%N :: s) as ->.
  { unfold argument_text. rewrite (plain_stringify p Hp). change (js "(") with [40%N].
    change (js ")") with [41%N]. cbn [app]. by rewrite <- !app_assoc. }
  apply rmatch_text_app.
Qed.
Lemma r_close_app s caps k : rmatch r_close (34%N :: 41%N :: s) caps k = k s caps.
Proof. apply (rmatch_text_app k ([34%N] ++ js ")")). Qed.

Lemma quoted_match i p s caps k :
  plain p → rmatch (r_quoted i) (argument_text p ++ s) caps k = k s ((i, p) :: caps).
Proof.
  intros Hp. unfold r_quoted. rewrite rmatch_seq, r_open_app by done. rewrite rmatch_seq by done.
  destruct Hp as [Hne Hp]. rewrite group_run; [|done|by apply plain_not_quote|done|].
  - cbn [rseq]. apply r_close_app.
  - intros c r caps' Hc. cbn [rseq]. unfold r_close. rewrite rmatch_text.
    change ([34%N] ++ js ")") with [34; 41]%N. cbn [strip_prefix]. unfold not_quote in Hc.
    apply negb_true_iff in Hc. by rewrite N.eqb_sym, Hc.
Qed.

Lemma quoted_again i p s caps k :
  plain p → cap caps i = p →
  rmatch (rseq [r_open; RRef i; r_close]) (argument_text p ++ s) caps k = k s caps.
Proof.
  intros Hp Hc. rewrite rmatch_seq, r_open_app by done. rewrite rmatch_seq by done.
  rewrite (rmatch_ref_app _ i p) by done. cbn [rseq]. apply r_close_app.
Qed.

Lemma number_match i v s caps k :
  is_numeric_literal v = true →
  match s with c :: _ => number_unit c = false | [] => True end →
  (∀ c r caps, number_unit c = true → k (c :: r) caps = None) →
  rmatch (r_number i) (v ++ s) caps k = k s ((i, v) :: caps).
Proof. intros [Hne Hv]%numeric_units Hs Hk. by apply group_run. Qed.

Lemma either_none {A} (o : option A) : match o with Some a => Some a | None => None end = o.
Proof. by destruct o. Qed.

Lemma time_match i f s caps k :
  rmatch (r_time i) (time_func_text f ++ 40%N :: s) caps k = k (40%N :: s) ((i, time_func_text f) :: caps).
Proof.
  unfold r_time. change (rmatch (RGroup i (rtexts (map time_func_text TIME_FUNCS))))
    with (λ (s : jsstring) caps k, rmatch (rtexts (map time_func_text TIME_FUNCS)) s caps
            (λ s' caps', k s' ((i, take (length s - length s') s) :: caps'))).
  cbv beta. set (text := time_func_text f ++ 40%N :: s).
  assert (∀ k', rmatch (rtexts (map time_func_text TIME_FUNCS)) text caps k' = k' (40%N :: s) caps) as ->.
  { intros k'. subst text. destruct f; vm_compute; by destruct (k' _ _). }
  subst text. by rewrite taken.
Qed.

Lemma time_func_of_text f : time_func_of (time_func_text f) = Some f.
Proof. by destruct f. Qed.

(** ** Time conditions *)
Definition time_call (f : TimeFunc) (tz : jsstring) : jsstring := time_func_text f ++ argument_text tz.

Lemma argument_head p s : plain p → ∃ t, argument_text p ++ s = 40%N :: t.
Proof. intros Hp. unfold argument_text. by eexists. Qed.

Lemma number_unit_text c p s : number_unit c = true →
  match p with d :: _ => number_unit d = false | [] => False end → strip_prefix p (c :: s) = None.
Proof.
  intros Hc. destruct p as [|d p]; [done|]. intros Hd. cbn [strip_prefix].
  destruct (N.eqb_spec d c) as [->|]; [congruence|done].
Qed.

(** The start of both patterns on a text that starts with a time call. *)
Lemma time_call_match f tz s caps k rest :
  plain tz → rest ≠ [] →
  rmatch (rseq (r_time 1 :: r_quoted 2 :: rest)) (time_call f tz ++ s) caps k =
  rmatch (rseq rest) s ((2, tz) :: (1, time_func_text f) :: caps) k.
Proof.
  intros Htz Hrest. unfold time_call. rewrite <- app_assoc.
  rewrite rmatch_seq by done. destruct (argument_head tz s Htz) as [t Ht]. rewrite Ht, time_match, <- Ht.
  rewrite rmatch_seq by done. by rewrite quoted_match.
Qed.

Lemma text_fails_number p c s caps k : number_unit c = true →
  match p with d :: _ => number_unit d = false | [] => False end → rmatch (rtext p) (c :: s) caps k = None.
Proof. intros Hc Hp. by rewrite rmatch_text, number_unit_text. Qed.

Definition range_text (f : TimeFunc) (tz glue s e : jsstring) : jsstring :=
  time_call f tz ++ js " >= " ++ s ++ js " " ++ glue ++ js " " ++ time_call f tz ++ js " < " ++ e.

Definition range_captures (f : TimeFunc) (tz s e : jsstring) : captures :=
  [(4, e); (3, s); (2, tz); (1, time_func_text f)].

Lemma range_match f tz glue s e rest k :
  plain tz → is_numeric_literal s = true → is_numeric_literal e = true → glue ∈ [js "&&"; js "||"] →
  match rest with c :: _ => number_unit c = false | [] => True end →
  (∀ c r caps, number_unit c = true → k (c :: r) caps = None) →
  rmatch time_range_pattern (range_text f tz glue s e ++ rest) [] k = k rest (range_captures f tz s e).
Proof.
  intros Htz Hs He Hglue Hrest Hk. unfold time_range_pattern, range_text.
  rewrite <- !app_assoc, time_call_match by done.
  rewrite rmatch_seq, (rmatch_text_app _ (js " >= ")), rmatch_seq by done.
  rewrite number_match; [|done|done|].
  2: { intros c r caps Hc. rewrite rmatch_seq by done. by apply text_fails_number. }
  rewrite rmatch_seq, (rmatch_text_app _ (js " ")), rmatch_seq by done.
  assert (Hg : ∀ (t : jsstring) caps k', rmatch (rtexts [js "&&"; js "||"]) (glue ++ t) caps k' = k' t caps).
  { intros t caps k'. set_unfold in Hglue. destruct Hglue as [-> | [-> | []]]; vm_compute; by destruct (k' _ _). }
  rewrite Hg, rmatch_seq, (rmatch_text_app _ (js " ")), rmatch_seq by done.
  unfold time_call. rewrite <- !app_assoc, (rmatch_ref_app _ 1 (time_func_text f)) by done.
  change (rseq [r_open; RRef 2; r_close; rtext (js " < "); r_number 4]) with
    (rseq (r_open :: RRef 2 :: r_close :: [rtext (js " < "); r_number 4])).
  rewrite rmatch_seq, r_open_app, rmatch_seq, (rmatch_ref_app _ 2 tz) by done.
  rewrite rmatch_seq, r_close_app, rmatch_seq, (rmatch_text_app _ (js " < ")) by done.
  cbn [rseq]. rewrite number_match; [done|done|done|]. intros c r caps Hc. by apply Hk.
Qed.

Definition at_end : jsstring → captures → option captures :=
  λ s caps, match s with [] => Some caps | _ => None end.

(** Both ways a range is read. *)
Lemma read_range f tz glue s e :
  plain tz → isTimeValueInRange f s = true → isTimeValueInRange f e = true → glue ∈ [js "&&"; js "||"] →
  tryParseTimeCondition (range_text f tz glue s e) = Some (mkTimeRule f tz MATCH_RANGE [] s e).
Proof.
  intros Htz Hs He Hglue. unfold tryParseTimeCondition, match_whole.
  rewrite <- (app_nil_r (range_text f tz glue s e)) at 1.
  rewrite range_match; [|done|by eapply in_range_numeric|by eapply in_range_numeric|done|done|done].
  unfold either. change (cap (range_captures f tz s e) 1) with (time_func_text f).
  change (cap (range_captures f tz s e) 2) with tz. change (cap (range_captures f tz s e) 3) with s.
  change (cap (range_captures f tz s e) 4) with e. rewrite time_func_of_text.
  cbn [mbind option_bind]. by rewrite Hs, He.
Qed.

Lemma read_wrapped_range f tz glue s e :
  plain tz → isTimeValueInRange f s = true → isTimeValueInRange f e = true → glue ∈ [js "&&"; js "||"] →
  tryParseTimeCondition (js "(" ++ range_text f tz glue s e ++ js ")") = Some (mkTimeRule f tz MATCH_RANGE [] s e).
Proof.
  intros Htz Hs He Hglue. unfold tryParseTimeCondition, match_whole.
  assert (rmatch time_range_pattern (js "(" ++ range_text f tz glue s e ++ js ")") []
    (λ s caps, match s with [] => Some caps | _ => None end) = None) as -> by done.
  rewrite rmatch_seq, (rmatch_text_app _ (js "(")), rmatch_seq by done.
  rewrite range_match; [|done|by eapply in_range_numeric|by eapply in_range_numeric|done|done|].
  2: { intros c r caps Hc. cbn [rseq]. by apply text_fails_number. }
  cbn [rseq]. rewrite <- (app_nil_r (js ")")), rmatch_text_app. cbn [either].
  change (cap (range_captures f tz s e) 1) with (time_func_text f).
  change (cap (range_captures f tz s e) 2) with tz. change (cap (range_captures f tz s e) 3) with s.
  change (cap (range_captures f tz s e) 4) with e. rewrite time_func_of_text.
  cbn [mbind option_bind]. by rewrite Hs, He.
Qed.

(** A single bound. *)
Definition bound_text (f : TimeFunc) (tz op v : jsstring) : jsstring :=
  time_call f tz ++ js " " ++ op ++ js " " ++ v.

Lemma bound_match_rest f tz op v rest k :
  plain tz → is_numeric_literal v = true → op ∈ map fst time_modes →
  match rest with c :: _ => number_unit c = false | [] => True end →
  (∀ c r caps, number_unit c = true → k (c :: r) caps = None) →
  rmatch time_bound_pattern (bound_text f tz op v ++ rest) [] k =
  k rest [(4, v); (3, op); (2, tz); (1, time_func_text f)].
Proof.
  intros Htz Hv Hop Hrest Hk. unfold time_bound_pattern, bound_text.
  rewrite <- !app_assoc, time_call_match, rmatch_seq, (rmatch_text_app _ (js " ")), rmatch_seq by done.
  assert (Hg : ∀ (t : jsstring) caps k',
    rmatch (RGroup 3 (rtexts [js "=="; js ">="; js "<"])) (op ++ 32%N :: t) caps k' =
    k' (32%N :: t) ((3, op) :: caps)).
  { intros t caps k'.
    change (rmatch (rtexts [js "=="; js ">="; js "<"]) (op ++ 32%N :: t) caps
      (λ s' caps', k' s' ((3, take (length (op ++ 32%N :: t) - length s') (op ++ 32%N :: t)) :: caps')) =
      k' (32%N :: t) ((3, op) :: caps)).
    assert (∀ k', rmatch (rtexts [js "=="; js ">="; js "<"]) (op ++ 32%N :: t) caps k' = k' (32%N :: t) caps) as ->.
    { clear k'. intros k'. simpl in Hop. set_unfold in Hop. destruct_or!; subst; vm_compute; by destruct (k' _ _). }
    by rewrite taken. }
  change (js " ") with [32%N]. cbn [app]. rewrite Hg, rmatch_seq by done.
  change (32%N :: v ++ rest) with (js " " ++ v ++ rest). rewrite rmatch_text_app. cbn [rseq].
  by rewrite number_match.
Qed.

Lemma bound_match f tz op v :
  plain tz → is_numeric_literal v = true → op ∈ map fst time_modes →
  match_whole time_bound_pattern (bound_text f tz op v) = Some [(4, v); (3, op); (2, tz); (1, time_func_text f)].
Proof.
  intros Htz Hv Hop. unfold match_whole. rewrite <- (app_nil_r (bound_text f tz op v)).
  by rewrite bound_match_rest.
Qed.

Lemma bound_not_range f tz op v :
  plain tz → is_numeric_literal v = true → op ∈ map fst time_modes →
  match_whole time_range_pattern (bound_text f tz op v) = None ∧
  match_whole (rseq [rtext (js "("); time_range_pattern; rtext (js ")")]) (bound_text f tz op v) = None.
Proof.
  intros Htz Hv Hop. split.
  - unfold match_whole, time_range_pattern, bound_text. rewrite time_call_match, rmatch_seq, rmatch_text by done.
    simpl in Hop. set_unfold in Hop. destruct Hop as [-> | [-> | [-> | []]]]; [done| |done].
    change (js " " ++ js ">=" ++ js " " ++ v) with (js " >= " ++ v). rewrite strip_prefix_app.
    rewrite rmatch_seq by done. rewrite <- (app_nil_r v), number_match; [done|done|done|].
    intros c r caps Hc. rewrite rmatch_seq by done. by apply text_fails_number.
  - unfold match_whole, bound_text, time_call. rewrite rmatch_seq, rmatch_text by done. by destruct f.
Qed.

Lemma read_bound f tz op v :
  plain tz → isTimeValueInRange f v = true → op ∈ map fst time_modes →
  tryParseTimeCondition (bound_text f tz op v) =
  Some (mkTimeRule f tz (default MATCH_EQ (own time_modes op)) v [] []).
Proof.
  intros Htz Hv Hop. unfold tryParseTimeCondition.
  destruct (bound_not_range f tz op v Htz (in_range_numeric _ _ Hv) Hop) as [-> ->]. cbn [either].
  rewrite (bound_match f tz op v Htz (in_range_numeric _ _ Hv) Hop). cbn [mbind option_bind].
  change (cap [(4, v); (3, op); (2, tz); (1, time_func_text f)] 1) with (time_func_text f).
  change (cap [(4, v); (3, op); (2, tz); (1, time_func_text f)] 2) with tz.
  change (cap [(4, v); (3, op); (2, tz); (1, time_func_text f)] 3) with op.
  change (cap [(4, v); (3, op); (2, tz); (1, time_func_text f)] 4) with v.
  rewrite time_func_of_text. cbn [mbind option_bind]. by rewrite Hv.
Qed.
