(* ===== verification/RuleRoundTrip.v ===== *)
(** * Request rules: the round trip

    The rules the editor builds from readable groups are read back as they
    were. A group's condition text is a list of pieces joined with [&&]; the
    file says how each piece is read, how neighbours are kept apart, and that
    the factor, the group and the rule text decompose in one way only. *)

From S2P Require Import Prelude JsNumber JsNumberFacts JsText Types Parser ParserFacts Compile.
From S2P Require Import Runtime Structure Display JsRegex JsRegexFacts BillingExpr BillingExprFacts.

(** ** Pieces of a condition text *)
Inductive piece :=
  | PBound (f : TimeFunc) (tz op v : jsstring)
  | PWrapped (f : TimeFunc) (tz s e : jsstring)
  | PRequest (c : ParamHeaderCondition).

(** The text of a condition on the request, for a path without outer space. *)
Definition request_text (c : ParamHeaderCondition) : jsstring :=
  let call := source_text (ph_source c) ++ argument_text (ph_path c) in
  let literal := buildExprLiteral (ph_mode c) (ph_value c) in
  if ph_mode c =s MATCH_EXISTS then
    call ++ match ph_source c with source_header => js " != " ++ [34; 34]%N | source_param => js " != nil" end
  else if ph_mode c =s MATCH_CONTAINS then js "has(" ++ call ++ js ", " ++ literal ++ js ")"
  else call ++ js " == " ++ literal.

Definition piece_text (p : piece) : jsstring :=
  match p with
  | PBound f tz op v => bound_text f tz op v
  | PWrapped f tz s e => js "(" ++ range_text f tz (js "||") s e ++ js ")"
  | PRequest c => request_text c
  end.

(** What the editor can hold and read back: paths and zones of units that
    JSON writes as they are, values in range, and values a pattern's [.]
    matches. *)
Definition separator_unit (c : code_unit) : bool := ((c =? 8232) || (c =? 8233))%N.
Inductive readable_request : ParamHeaderCondition → Prop :=
  | readable_exists src p : plain p → trim p = p → readable_request (mkPH src p MATCH_EXISTS [])
  | readable_contains p v :
      plain p → trim p = p → code_units v → trim v = v →
      readable_request (mkPH source_header p MATCH_CONTAINS v)
  | readable_equals src p v :
      plain p → trim p = p → code_units v → trim v = v → existsb separator_unit v = false →
      readable_request (mkPH src p MATCH_EQ v).

Definition piece_good (p : piece) : Prop :=
  match p with
  | PBound f tz op v => plain tz ∧ isTimeValueInRange f v = true ∧ op ∈ map fst time_modes
  | PWrapped f tz s e => plain tz ∧ isTimeValueInRange f s = true ∧ isTimeValueInRange f e = true
  | PRequest c => readable_request c
  end.

Definition piece_time (p : piece) : option TimeRuleCondition :=
  match p with
  | PBound f tz op v => Some (mkTimeRule f tz (default MATCH_EQ (own time_modes op)) v [] [])
  | PWrapped f tz s e => Some (mkTimeRule f tz MATCH_RANGE [] s e)
  | PRequest _ => None
  end.

(** ** Texts that no time pattern matches *)
Lemma request_head c : readable_request c →
  ∃ t, request_text c = js "header" ++ t ∨ request_text c = js "param" ++ t ∨ request_text c = js "has(" ++ t.
Proof.
  unfold request_text. destruct 1 as [[] p Hp _|p v Hp _ _ _|[] p v Hp _ _ _ _];
    eexists; [right; left|left|right; right|right; left|left]; cbn -[js argument_text];
    rewrite <- ?app_assoc; reflexivity.
Qed.

(** No time condition begins like a condition on the request. *)
Lemma request_not_time c rest : readable_request c → tryParseTimeCondition (request_text c ++ rest) = None.
Proof.
  intros Hc. destruct (request_head c Hc) as (t & [H | [H | H]]); rewrite H, <- app_assoc; reflexivity.
Qed.

Lemma piece_time_read p : piece_good p → tryParseTimeCondition (piece_text p) = piece_time p.
Proof.
  destruct p as [f tz op v|f tz s e|c]; cbn [piece_good piece_text piece_time].
  - intros (? & ? & ?). by apply read_bound.
  - intros (? & ? & ?). apply read_wrapped_range; [done..|]. set_solver.
  - intros Hc. rewrite <- (app_nil_r (request_text c)). by apply request_not_time.
Qed.

(** ** Conditions on the request are read back *)
Lemma either_text_group (s : RequestSource) t caps k :
  rmatch (RGroup 1 (rtexts [js "param"; js "header"])) (source_text s ++ 40%N :: t) caps k =
  k (40%N :: t) ((1, source_text s) :: caps).
Proof.
  change (rmatch (rtexts [js "param"; js "header"]) (source_text s ++ 40%N :: t) caps
    (λ s' caps', k s' ((1, take (length (source_text s ++ 40%N :: t) - length s') (source_text s ++ 40%N :: t)) :: caps'))
    = k (40%N :: t) ((1, source_text s) :: caps)).
  assert (∀ k', rmatch (rtexts [js "param"; js "header"]) (source_text s ++ 40%N :: t) caps k' = k' (40%N :: t) caps) as ->.
  { clear k. intros k'. destruct s; vm_compute; by destruct (k' _ _). }
  by rewrite taken.
Qed.

(** The literal an equality is built with: no line ends, and it denotes the
    value. *)
Lemma literal_units mode v :
  code_units v → existsb separator_unit v = false → trim v = v →
  buildExprLiteral mode v ≠ [] ∧ forallb (λ c, negb (is_line_end c)) (buildExprLiteral mode v) = true.
Proof.
  intros Hu Hs Ht. unfold buildExprLiteral. rewrite Ht.
  assert (Hj : json_stringify v ≠ [] ∧ forallb (λ c, negb (is_line_end c)) (json_stringify v) = true).
  { split; [done|]. unfold json_stringify. rewrite !forallb_app. cbn [forallb].
    assert (∀ c, (32 ≤ c)%N → c ≠ 8232%N → c ≠ 8233%N → negb (is_line_end c) = true) as Hc.
    { intros c H1 H2 H3. unfold is_line_end.
      repeat match goal with |- context [(c =? ?n)%N] => rewrite (proj2 (N.eqb_neq c n)) by lia end. done. }
    rewrite quote_units_forallb; [done|intros c ?; apply Hc; lia| |done].
    intros c Hin Hl. assert (separator_unit c = false) as Hsep.
    { destruct (separator_unit c) eqn:E; [|done]. rewrite <- Hs. symmetry. apply existsb_exists.
      exists c. split; [by apply list_elem_of_In|done]. }
    unfold separator_unit in Hsep. apply orb_false_iff in Hsep as [?%N.eqb_neq ?%N.eqb_neq]. by apply Hc. }
  destruct (mode =s MATCH_CONTAINS); [done|].
  destruct ((v =s js "true") || (v =s js "false")) eqn:E.
  { apply orb_true_iff in E as [->%str_eqb_eq| ->%str_eqb_eq]; done. }
  destruct (is_numeric_literal v) eqn:En; [|done]. apply numeric_units in En as [Hne Hn]. split; [done|].
  rewrite forallb_forall in *. intros c Hc. apply negb_true_iff. apply Hn, number_unit_cases in Hc as [Hc _].
  unfold is_space in Hc. unfold is_line_end. rewrite !orb_false_iff in *.
  destruct Hc as [[[[[[[[[[Hc _] _] _] _] H1] H2] _] _] _] _]. rewrite H1, H2.
  split_and!; [|..|done|done]; destruct (N.eqb_spec c 10), (N.eqb_spec c 13); subst; done.
Qed.

Lemma trim_quoted body : trim (34%N :: body ++ [34%N]) = 34%N :: body ++ [34%N].
Proof.
  unfold trim, trim_start. cbn [drop_while]. change (is_space 34) with false. cbv iota.
  unfold trim_end. change (34%N :: body ++ [34%N]) with ((34%N :: body) ++ [34%N]).
  rewrite reverse_app. cbn [reverse]. rewrite drop_while_none by done.
  by rewrite <- reverse_app, reverse_involutive.
Qed.

Lemma literal_value_read v :
  code_units v → trim v = v → parseExprLiteral (buildExprLiteral MATCH_EQ v) = Some (VString v).
Proof.
  intros Hu Ht. unfold buildExprLiteral. rewrite Ht. change (MATCH_EQ =s MATCH_CONTAINS) with false. cbv iota.
  unfold parseExprLiteral. destruct ((v =s js "true") || (v =s js "false")) eqn:E.
  { by rewrite Ht, E. }
  destruct (is_numeric_literal v) eqn:En; [by rewrite Ht, E, En|].
  assert (trim (json_stringify v) = json_stringify v) as -> by apply trim_quoted.
  change ((json_stringify v =s js "true") || (json_stringify v =s js "false")) with false. cbv iota.
  change (is_numeric_literal (json_stringify v)) with false. cbv iota. by rewrite json_parse_stringify.
Qed.

Lemma text_no_match p s rest k : rest ≠ [] → strip_prefix p s = None → rmatch (rseq (rtext p :: rest)) s [] k = None.
Proof. intros Hr H. by rewrite rmatch_seq, rmatch_text, H. Qed.

(** A pattern that starts with a call, on a text that starts with one. *)
Lemma call_match name i p rest t k :
  plain p → rest ≠ [] →
  rmatch (rseq (rtext name :: r_quoted i :: rest)) ((name ++ argument_text p) ++ t) [] k =
  rmatch (rseq rest) t [(i, p)] k.
Proof.
  intros Hp Hr. rewrite <- app_assoc, rmatch_seq, rmatch_text_app by done.
  rewrite rmatch_seq by done. by apply quoted_match.
Qed.

Lemma exists_read src p :
  plain p →
  tryParseRequestCondition (request_text (mkPH src p MATCH_EXISTS [])) =
  Ok (Some (OnRequest (mkPH src p MATCH_EXISTS []))).
Proof.
  intros Hp. unfold request_text. cbn [ph_mode ph_source ph_path ph_value].
  change (MATCH_EXISTS =s MATCH_EXISTS) with true. cbv iota zeta.
  unfold tryParseRequestCondition, match_whole, header_exists_pattern, param_exists_pattern.
  destruct src; cbn [source_text].
  - assert (tryParseTimeCondition ((js "param" ++ argument_text p) ++ js " != nil") = None) as -> by done.
    rewrite (text_no_match (js "header")) by done. rewrite (call_match (js "param") 1 p) by done.
    cbn [rseq]. rewrite <- (app_nil_r (js " != nil")), rmatch_text_app. done.
  - assert (tryParseTimeCondition ((js "header" ++ argument_text p) ++ js " != " ++ [34; 34]%N) = None) as -> by done.
    rewrite (call_match (js "header") 1 p) by done.
    cbn [rseq]. rewrite <- (app_nil_r (js " != " ++ [34; 34]%N)), rmatch_text_app. done.
Qed.

(** The pattern of a JSON string, on the text of one. *)
Lemma string_match i v s caps k :
  code_units v → rmatch (r_string i) (json_stringify v ++ s) caps k = k s ((i, json_stringify v) :: caps).
Proof.
  intros Hv. unfold r_string.
  change (rmatch (rseq [RUnit (N.eqb 34);
      RStar (RAlt (RUnit (λ c, not_quote c && negb (c =? 92)%N)) (RSeq (RUnit (N.eqb 92)) rdot));
      RUnit (N.eqb 34)]) (json_stringify v ++ s) caps
    (λ s' caps', k s' ((i, take (length (json_stringify v ++ s) - length s') (json_stringify v ++ s)) :: caps')) =
    k s ((i, json_stringify v) :: caps)).
  set (k2 := λ s' caps', k s' _).
  rewrite rmatch_seq by done. unfold json_stringify. cbn [app rmatch].
  change (34 =? 34)%N with true. cbv iota. rewrite rmatch_seq by done. rewrite <- app_assoc. cbn [app rseq].
  unfold not_quote. rewrite (string_star (quote_units v) s caps k2) by by apply quote_units_body.
  subst k2. cbv beta. unfold json_stringify. by rewrite taken.
Qed.

Lemma contains_read p v :
  plain p → code_units v → trim v = v →
  tryParseRequestCondition (request_text (mkPH source_header p MATCH_CONTAINS v)) =
  Ok (Some (OnRequest (mkPH source_header p MATCH_CONTAINS v))).
Proof.
  intros Hp Hv Ht. unfold request_text. cbn [ph_mode ph_source ph_path ph_value].
  change (MATCH_CONTAINS =s MATCH_EXISTS) with false. change (MATCH_CONTAINS =s MATCH_CONTAINS) with true.
  cbv iota zeta. unfold buildExprLiteral. rewrite Ht. change (MATCH_CONTAINS =s MATCH_CONTAINS) with true. cbv iota.
  set (text := js "has(" ++ _).
  assert (text = (js "has(header" ++ argument_text p) ++ js ", " ++ json_stringify v ++ js ")") as ->.
  { subst text. cbn [source_text]. change (js "has(header") with (js "has(" ++ js "header"). by rewrite <- !app_assoc. }
  unfold tryParseRequestCondition, match_whole.
  set (rest := js ", " ++ _).
  assert (tryParseTimeCondition ((js "has(header" ++ argument_text p) ++ rest) = None) as -> by done.
  unfold header_exists_pattern, param_exists_pattern.
  rewrite (text_no_match (js "header")), (text_no_match (js "param")) by done.
  unfold header_contains_pattern. rewrite (call_match (js "has(header") 1 p) by done. subst rest.
  rewrite rmatch_seq, rmatch_text_app, rmatch_seq, string_match by done.
  cbn [rseq]. rewrite <- (app_nil_r (js ")")), rmatch_text_app.
  change (cap [(2, json_stringify v); (1, p)] 2) with (json_stringify v).
  unfold json_parse_string. by rewrite json_parse_stringify.
Qed.

Lemma equals_read src p v :
  plain p → code_units v → trim v = v → existsb separator_unit v = false →
  tryParseRequestCondition (request_text (mkPH src p MATCH_EQ v)) =
  Ok (Some (OnRequest (mkPH src p MATCH_EQ v))).
Proof.
  intros Hp Hv Ht Hs. unfold request_text. cbn [ph_mode ph_source ph_path ph_value].
  change (MATCH_EQ =s MATCH_EXISTS) with false. change (MATCH_EQ =s MATCH_CONTAINS) with false. cbv iota zeta.
  set (lit := buildExprLiteral MATCH_EQ v).
  destruct (literal_units MATCH_EQ v Hv Hs Ht) as [Hne Hunits]. fold lit in Hne, Hunits.
  unfold tryParseRequestCondition, match_whole.
  assert (tryParseTimeCondition ((source_text src ++ argument_text p) ++ js " == " ++ lit) = None) as ->
    by by destruct src.
  assert (∀ k, rmatch header_exists_pattern ((source_text src ++ argument_text p) ++ js " == " ++ lit) [] k = None) as ->.
  { intros k. unfold header_exists_pattern. destruct src; [by rewrite text_no_match|].
    by rewrite (call_match (js "header") 1 p). }
  assert (∀ t rest k, rest ≠ [] → t = js " != nil" ∨ t = js " != nil && has(param" ∨ t = js " != nil && param" →
    rmatch (rseq (rtext (js "param") :: r_quoted 1 :: rtext t :: rest))
      ((source_text src ++ argument_text p) ++ js " == " ++ lit) [] k = None) as Hparam.
  { intros t rest k Hr Hcase. destruct src; [|by rewrite text_no_match].
    rewrite (call_match (js "param") 1 p), rmatch_seq, rmatch_text by done.
    by destruct Hcase as [-> | [-> | ->]]. }
  assert (∀ k, rmatch param_exists_pattern ((source_text src ++ argument_text p) ++ js " == " ++ lit) [] k = None) as ->.
  { intros k. unfold param_exists_pattern. destruct src; [|by rewrite text_no_match].
    by rewrite (call_match (js "param") 1 p). }
  unfold header_contains_pattern. rewrite (text_no_match (js "has(header")) by (done || by destruct src).
  unfold param_contains_pattern, param_number_pattern. rewrite !Hparam by auto.
  cbn [same_path mbind option_bind]. unfold equals_pattern. rewrite rmatch_seq, <- app_assoc by done.
  destruct (argument_head p (js " == " ++ lit) Hp) as [t Htext]. rewrite Htext, either_text_group, <- Htext.
  rewrite rmatch_seq, quoted_match, rmatch_seq, rmatch_text_app by done. cbn [rseq]. unfold rdot.
  rewrite <- (app_nil_r lit), group_run by done.
  change (cap [(3, lit); (2, p); (1, source_text src)] 3) with lit.
  change (cap [(3, lit); (2, p); (1, source_text src)] 2) with p.
  change (cap [(3, lit); (2, p); (1, source_text src)] 1) with (source_text src).
  subst lit. rewrite literal_value_read by done. by destruct src.
Qed.

Lemma request_read c : readable_request c → tryParseRequestCondition (request_text c) = Ok (Some (OnRequest c)).
Proof.
  destruct 1; [by apply exists_read|by apply contains_read|by apply equals_read].
Qed.

Lemma piece_read p :
  piece_good p →
  tryParseRequestCondition (piece_text p) =
  Ok (Some match p with PRequest c => OnRequest c | _ => OnTime (default createEmptyTimeCondition (piece_time p)) end).
Proof.
  intros Hp. destruct p as [| |c]; [| |by apply request_read];
    unfold tryParseRequestCondition; by rewrite piece_time_read.
Qed.

(** ** Pieces keep together when the condition is split *)

(** No outer space: a head that is none, and a trimmed tail. *)
Lemma trim_head_tail c s q :
  is_space c = false → trim q = q → q ≠ [] → trim (c :: s ++ q) = c :: s ++ q.
Proof.
  intros Hc Hq Hne. unfold trim, trim_start. cbn [drop_while]. rewrite Hc.
  unfold trim_end. change (c :: s ++ q) with ((c :: s) ++ q). rewrite reverse_app.
  assert (∃ d r, reverse q = d :: r ∧ is_space d = false) as (d & r & Hr & Hd).
  { destruct (reverse q) as [|d r] eqn:E.
    { exfalso. apply Hne. by rewrite <- (reverse_involutive q), E. }
    exists d, r. split; [done|]. unfold trim, trim_end in Hq.
    rewrite <- Hq, reverse_involutive in E. by eapply drop_while_head. }
  rewrite Hr. cbn [app drop_while]. rewrite Hd.
  change (d :: r ++ reverse (c :: s)) with ((d :: r) ++ reverse (c :: s)).
  by rewrite <- Hr, reverse_app, !reverse_involutive.
Qed.

Lemma neutral_plain_string top p : forallb plain_unit p = true → neutral top (34%N :: p ++ [34%N]).
Proof. intros Hp. apply neutral_string; [by apply plain_body|constructor]. Qed.

Lemma neutral_argument top p : plain p → neutral top (argument_text p).
Proof.
  intros Hp. unfold argument_text. rewrite (plain_stringify p Hp). destruct Hp as [_ Hp].
  change (js "(" ++ (34%N :: p ++ [34%N]) ++ js ")") with (40%N :: (34%N :: p ++ [34%N]) ++ 41%N :: []).
  apply neutral_parens; [by apply neutral_plain_string|constructor].
Qed.

Lemma neutral_stringify top v : code_units v → neutral top (json_stringify v).
Proof. intros Hv. unfold json_stringify. apply neutral_string; [by apply quote_units_body|constructor]. Qed.

Lemma neutral_numeric top v : is_numeric_literal v = true → neutral top v.
Proof.
  intros [_ Hv]%numeric_units. apply neutral_units. rewrite forallb_forall in *. intros c Hc.
  destruct (number_unit_cases c (Hv c Hc)) as (_ & -> & -> & -> & ?%N.eqb_neq & ?%N.eqb_neq & ?%N.eqb_neq).
  by rewrite H, H0, H1.
Qed.

Lemma literal_neutral top mode v : code_units v → trim v = v → neutral top (buildExprLiteral mode v).
Proof.
  intros Hv Ht. unfold buildExprLiteral. rewrite Ht.
  destruct (mode =s MATCH_CONTAINS); [by apply neutral_stringify|].
  destruct ((v =s js "true") || (v =s js "false")) eqn:E.
  { apply orb_true_iff in E as [->%str_eqb_eq| ->%str_eqb_eq]; by apply neutral_units. }
  destruct (is_numeric_literal v) eqn:En; [by apply neutral_numeric|by apply neutral_stringify].
Qed.

Lemma literal_trimmed mode v : trim v = v → trim (buildExprLiteral mode v) = buildExprLiteral mode v.
Proof.
  intros Ht. unfold buildExprLiteral. rewrite Ht. repeat case_match; try done; apply trim_quoted.
Qed.
Lemma literal_nonempty mode v : buildExprLiteral mode v ≠ [].
Proof.
  unfold buildExprLiteral. destruct (mode =s MATCH_CONTAINS); [done|].
  destruct ((trim v =s js "true") || (trim v =s js "false")) eqn:E.
  { by apply orb_true_iff in E as [->%str_eqb_eq| ->%str_eqb_eq]. }
  destruct (is_numeric_literal (trim v)) eqn:En; [|done]. by apply numeric_units in En as [? _].
Qed.

Lemma neutral_call top s p : plain p → neutral top (source_text s ++ argument_text p).
Proof. intros Hp. apply neutral_app; [by destruct s; apply neutral_units|by apply neutral_argument]. Qed.

Lemma neutral_time_call top f tz : plain tz → neutral top (time_call f tz).
Proof. intros H. apply neutral_app; [by destruct f; apply neutral_units|by apply neutral_argument]. Qed.

(** Texts made of calls, numbers, literals and units. *)
Ltac neutral_parts :=
  repeat first
    [ by apply neutral_call | by apply neutral_time_call | by apply neutral_argument
    | by apply neutral_numeric | by apply literal_neutral | by apply neutral_units | done
    | apply neutral_app ].

Lemma request_piece c : readable_request c → piece_ok (request_text c).
Proof.
  unfold request_text, piece_ok. destruct 1 as [src p Hp _|p v Hp _ Hv Ht|src p v Hp _ Hv Ht _];
    cbn [ph_mode ph_source ph_path ph_value].
  - change (MATCH_EXISTS =s MATCH_EXISTS) with true. cbv iota zeta. split; [|split].
    + apply neutral_app; [by apply neutral_call|]. destruct src; [by apply neutral_units|].
      apply neutral_app; [by apply neutral_units|]. apply (neutral_string true [] []); constructor.
    + destruct src; cbn [source_text].
      * change (js "param") with (112%N :: js "aram"). rewrite <- app_assoc. cbn [app].
        change (js " != nil") with (js " != " ++ js "nil"). rewrite !app_assoc. by apply trim_head_tail.
      * change (js "header") with (104%N :: js "eader"). rewrite <- app_assoc. cbn [app].
        rewrite !app_assoc. by apply trim_head_tail.
    + by destruct src.
  - change (MATCH_CONTAINS =s MATCH_EXISTS) with false. change (MATCH_CONTAINS =s MATCH_CONTAINS) with true.
    cbv iota zeta. split; [|split; [|done]].
    + change (js "has(") with (js "has" ++ [40%N]). rewrite <- app_assoc. apply neutral_app; [by apply neutral_units|].
      change (js ")") with [41%N]. cbn [app]. rewrite !app_assoc.
      apply neutral_parens; [|constructor]. neutral_parts.
    + change (js "has(") with (104%N :: js "as("). rewrite !app_assoc. cbn [app].
      by apply trim_head_tail.
  - change (MATCH_EQ =s MATCH_EXISTS) with false. change (MATCH_EQ =s MATCH_CONTAINS) with false.
    cbv iota zeta. split; [|split].
    + neutral_parts.
    + assert (∃ a t, source_text src = a :: t ∧ is_space a = false) as (a & t & -> & Ha) by (by destruct src; eexists _, _).
      rewrite !app_assoc. cbn [app]. apply trim_head_tail; [done|by apply literal_trimmed|apply literal_nonempty].
    + by destruct src.
Qed.

Lemma time_head f : ∃ a t, time_func_text f = a :: t ∧ is_space a = false.
Proof. by destruct f; eexists _, _. Qed.

Lemma neutral_range f tz glue s e :
  plain tz → is_numeric_literal s = true → is_numeric_literal e = true → glue ∈ [js "&&"; js "||"] →
  neutral false (range_text f tz glue s e).
Proof.
  intros Htz Hs He Hglue. unfold range_text.
  assert (Hg : neutral false glue) by (set_unfold in Hglue; destruct Hglue as [-> | [-> | []]];
    repeat (apply neutral_unit; [done..|]); constructor).
  neutral_parts.
Qed.

Lemma piece_piece_ok p : piece_good p → piece_ok (piece_text p).
Proof.
  destruct p as [f tz op v|f tz s e|c]; cbn [piece_good piece_text]; [| |apply request_piece].
  - intros (Htz & Hv%in_range_numeric & Hop). unfold piece_ok, bound_text. split; [|split].
    + simpl in Hop. set_unfold in Hop. destruct Hop as [-> | [-> | [-> | []]]]; neutral_parts.
    + unfold time_call. destruct (time_head f) as (a & t & -> & Ha). rewrite !app_assoc. cbn [app].
      apply trim_head_tail; [done|by apply numeric_trimmed|by apply numeric_units].
    + unfold time_call. by destruct f.
  - intros (Htz & Hs%in_range_numeric & He%in_range_numeric). unfold piece_ok. split; [|split; [|done]].
    + change (js "(" ++ range_text f tz (js "||") s e ++ js ")") with (40%N :: range_text f tz (js "||") s e ++ [41%N]).
      apply neutral_parens; [|constructor]. apply neutral_range; [done..|set_solver].
    + change (js "(") with [40%N]. cbn [app]. by apply trim_head_tail.
Qed.

(** ** Conditions and their pieces *)
Definition overnight (s e : jsstring) : bool := num_ltb (number_of_string e) (number_of_string s).

Inductive readable_condition : RequestCondition → Prop :=
  | readable_scalar f tz mode v :
      plain tz → isTimeValueInRange f v = true → mode ∈ map fst time_operators →
      readable_condition (OnTime (mkTimeRule f tz mode v [] []))
  | readable_range f tz s e :
      plain tz → isTimeValueInRange f s = true → isTimeValueInRange f e = true →
      readable_condition (OnTime (mkTimeRule f tz MATCH_RANGE [] s e))
  | readable_on_request c : readable_request c → readable_condition (OnRequest c).

Definition scalar_operator (mode : jsstring) : jsstring := default (js "==") (own time_operators mode).

Definition condition_text (c : RequestCondition) : jsstring :=
  match c with
  | OnTime (mkTimeRule f tz mode v s e) =>
      if mode =s MATCH_RANGE then range_text f tz (if overnight s e then js "||" else js "&&") s e
      else bound_text f tz (scalar_operator mode) v
  | OnRequest c => request_text c
  end.

Definition condition_pieces (c : RequestCondition) : list piece :=
  match c with
  | OnTime (mkTimeRule f tz mode v s e) =>
      if mode =s MATCH_RANGE then
        if overnight s e then [PWrapped f tz s e] else [PBound f tz (js ">=") s; PBound f tz (js "<") e]
      else [PBound f tz (scalar_operator mode) v]
  | OnRequest c => [PRequest c]
  end.

Lemma scalar_mode mode : mode ∈ map fst time_operators →
  mode =s MATCH_RANGE = false ∧ listed_mode (js "time") (Some mode) MATCH_GTE = mode ∧
  scalar_operator mode ∈ map fst time_modes ∧
  default MATCH_EQ (own time_modes (scalar_operator mode)) = mode.
Proof.
  intros H. simpl in H. set_unfold in H. destruct H as [-> | [-> | [-> | []]]]; split_and!; try done;
    change (map fst time_modes) with [js "=="; js ">="; js "<"]; set_unfold; vm_compute; tauto.
Qed.

(** A readable condition is normal. *)
Lemma normalize_time f tz mode v s e :
  plain tz → listed_mode (js "time") (Some mode) MATCH_GTE = mode →
  buildRequestConditionExpr (OnTime (mkTimeRule f tz mode v s e)) = buildTimeText (mkTimeRule f tz mode v s e).
Proof.
  intros [Hne _] Hmode. unfold buildRequestConditionExpr, buildTimeConditionExpr, normalizeCondition, partial_of.
  cbn [timeFunc timezone time_mode time_text rangeStart rangeEnd partial_source partial_timeFunc
    partial_timezone partial_mode partial_value partial_rangeStart partial_rangeEnd from_option id mbind option_bind].
  rewrite bool_decide_true by done. rewrite Hmode, time_func_of_text. by destruct tz.
Qed.

Lemma normalize_request src p mode v :
  plain p → trim p = p → listed_mode (source_text src) (Some mode) MATCH_EQ = mode →
  own number_operators mode = None → (src = source_param → mode =s MATCH_CONTAINS = false) →
  buildRequestConditionExpr (OnRequest (mkPH src p mode v)) = request_text (mkPH src p mode v).
Proof.
  intros [Hp _] Ht Hmode Hown Hsrc. unfold buildRequestConditionExpr, normalizeCondition, partial_of.
  cbn [ph_source ph_path ph_mode ph_value partial_source partial_path partial_mode partial_value from_option id].
  rewrite (bool_decide_false (Some (source_text src) = Some (js "time"))) by by destruct src.
  replace (if bool_decide (Some (source_text src) = Some (js "header")) then source_header else source_param)
    with src by by destruct src.
  rewrite Hmode. unfold buildParamHeaderText, request_text. cbn [ph_source ph_path ph_mode ph_value].
  rewrite Ht, (proj2 (str_eqb_neq p []) Hp), Hown. cbv zeta. unfold argument_text.
  destruct src; [rewrite bool_decide_false by done|rewrite bool_decide_true by done];
    [rewrite (Hsrc eq_refl)|]; by destruct (mode =s MATCH_EXISTS), (mode =s MATCH_CONTAINS).
Qed.

(** The editor's text of a readable condition. *)
Lemma build_readable c : readable_condition c → buildRequestConditionExpr c = condition_text c.
Proof.
  destruct 1 as [f tz mode v Htz Hv Hmode|f tz s e Htz Hs He|c Hc].
  - destruct (scalar_mode mode Hmode) as (Hr & Hl & _). rewrite normalize_time by done.
    cbn [condition_text]. unfold buildTimeText. cbn [timeFunc timezone time_mode time_text].
    rewrite Hr, (numeric_trimmed v), Hv by by eapply in_range_numeric. done.
  - rewrite normalize_time by done. cbn [condition_text]. unfold buildTimeText.
    cbn [timeFunc timezone time_mode rangeStart rangeEnd]. change (MATCH_RANGE =s MATCH_RANGE) with true. cbv iota zeta.
    rewrite (numeric_trimmed s), (numeric_trimmed e), Hs, He by by eapply in_range_numeric.
    unfold overnight, range_text, time_call, argument_text.
    cbn [negb orb]. destruct (num_ltb _ _); by rewrite <- !app_assoc.
  - destruct Hc as [src p Hp Ht|p v Hp Ht _ _|src p v Hp Ht _ _ _];
      apply normalize_request; try done; by destruct src.
Qed.

(** The whole text of a condition is read as the condition. *)
Lemma condition_pieces_good c : readable_condition c → Forall piece_good (condition_pieces c).
Proof.
  destruct 1 as [f tz mode v Htz Hv Hmode|f tz s e Htz Hs He|c Hc]; cbn [condition_pieces].
  - destruct (scalar_mode mode Hmode) as (-> & _ & Hop & _). by apply Forall_singleton.
  - change (MATCH_RANGE =s MATCH_RANGE) with true. cbv iota.
    destruct (overnight s e); [by apply Forall_singleton|].
    repeat (apply Forall_cons; split); try apply Forall_nil; try done; cbn [piece_good];
      (split_and!; [done..|]); change (map fst time_modes) with [js "=="; js ">="; js "<"]; set_solver.
  - by apply Forall_singleton.
Qed.

(** ** Neighbours form a range only when they are one *)
Definition pair_time (a b : option TimeRuleCondition) : option RequestCondition :=
  ta ← a; tb ← b;
  if negb (bool_decide (timeFunc ta = timeFunc tb)) || negb (timezone ta =s timezone tb) then None
  else if negb (time_mode ta =s MATCH_GTE) || negb (time_mode tb =s MATCH_LT) then None
  else Some (OnTime (mkTimeRule (timeFunc ta) (timezone ta) MATCH_RANGE [] (time_text ta) (time_text tb))).

Lemma pair_read p q :
  piece_good p → piece_good q →
  tryParseTimeRangePair (piece_text p) (piece_text q) = pair_time (piece_time p) (piece_time q).
Proof. intros Hp Hq. unfold tryParseTimeRangePair. by rewrite !piece_time_read. Qed.

(** Two conditions whose texts side by side would be read as one range. *)
Definition forms_range (c d : RequestCondition) : bool :=
  match c, d with
  | OnTime a, OnTime b =>
      bool_decide (timeFunc a = timeFunc b) && (timezone a =s timezone b)
      && (time_mode a =s MATCH_GTE) && (time_mode b =s MATCH_LT)
  | _, _ => false
  end.
Fixpoint kept_apart (cs : list RequestCondition) : Prop :=
  match cs with
  | c :: (d :: _) as r => forms_range c d = false ∧ kept_apart r
  | _ => True
  end.

Lemma pair_time_none a b :
  forms_range (OnTime a) (OnTime b) = false → pair_time (Some a) (Some b) = None.
Proof.
  cbn. destruct (bool_decide (timeFunc a = timeFunc b)); [|done]. destruct (timezone a =s timezone b); [|done].
  destruct (time_mode a =s MATCH_GTE); [|done]. by destruct (time_mode b =s MATCH_LT).
Qed.

(** The first piece of a condition is a lower bound of its own, or it stands
    for the whole condition. *)
Lemma first_piece d : readable_condition d →
  ∃ q qs, condition_pieces d = q :: qs ∧
    ∀ t, piece_time q = Some t → time_mode t =s MATCH_LT = true → d = OnTime t.
Proof.
  destruct 1 as [f tz mode v _ _ Hmode|f tz s e _ _ _|c _]; cbn [condition_pieces].
  - destruct (scalar_mode mode Hmode) as (-> & _ & _ & Hm). eexists _, _. split; [done|].
    intros t Ht _. cbn [piece_time] in Ht. rewrite Hm in Ht. congruence.
  - change (MATCH_RANGE =s MATCH_RANGE) with true. cbv iota.
    destruct (overnight s e); eexists _, _; (split; [done|]); by intros t [= <-].
  - by eexists _, _.
Qed.

Lemma last_piece_apart a d q qs :
  readable_condition d → condition_pieces d = q :: qs → forms_range (OnTime a) d = false →
  pair_time (Some a) (piece_time q) = None.
Proof.
  intros Hd Hq Hf. destruct (first_piece d Hd) as (q' & qs' & Hq' & Hlt). rewrite Hq in Hq'. simplify_eq.
  destruct (piece_time q') as [b|] eqn:E; [|done]. apply pair_time_none.
  destruct (time_mode b =s MATCH_LT) eqn:Em; [by rewrite (Hlt b eq_refl Em) in Hf|].
  cbn. by rewrite Em, andb_false_r.
Qed.

(** ** The parts of a group are read back *)
Definition parts_text (cs : list RequestCondition) : list jsstring :=
  map piece_text (mjoin (map condition_pieces cs)).

Lemma parts_text_cons c cs : parts_text (c :: cs) = map piece_text (condition_pieces c) ++ parts_text cs.
Proof. unfold parts_text. simpl. by rewrite map_app. Qed.

Definition piece_condition (p : piece) : RequestCondition :=
  match p with PRequest c => OnRequest c | _ => OnTime (default createEmptyTimeCondition (piece_time p)) end.

Lemma read_single p rest acc :
  piece_good p →
  match rest with q :: _ => tryParseTimeRangePair (piece_text p) (trim q) = None | [] => True end →
  request_conditions (piece_text p :: rest) acc = request_conditions rest (acc ++ [piece_condition p]).
Proof.
  intros Hp Hrest. destruct (piece_piece_ok p Hp) as (_ & Ht & _). cbn [request_conditions].
  rewrite Ht, piece_read by done. destruct rest as [|q rest]; [done|]. rewrite Hrest.
  by destruct (trim q =s []).
Qed.

Lemma read_merged p q c rest acc :
  piece_good p → piece_good q → pair_time (piece_time p) (piece_time q) = Some c →
  request_conditions (piece_text p :: piece_text q :: rest) acc = request_conditions rest (acc ++ [c]).
Proof.
  intros Hp Hq Hc. destruct (piece_piece_ok p Hp) as (_ & Ht & _). destruct (piece_piece_ok q Hq) as (_ & Htq & Hne).
  cbn [request_conditions]. rewrite Ht, Htq, (proj2 (str_eqb_neq _ []) Hne), pair_read by done. by rewrite Hc.
Qed.

Lemma read_piece c cs p acc :
  Forall readable_condition (c :: cs) → condition_pieces c = [p] → piece_condition p = c →
  match c with OnTime a => piece_time p = Some a | OnRequest _ => piece_time p = None end →
  kept_apart (c :: cs) →
  request_conditions (parts_text (c :: cs)) acc = request_conditions (parts_text cs) (acc ++ [c]).
Proof.
  intros Hall Hp Hc Htime Happ. apply Forall_cons in Hall as [Hread Hall].
  assert (piece_good p) as Hgood.
  { pose proof (condition_pieces_good c Hread) as H. rewrite Hp in H. by apply Forall_cons in H as [? _]. }
  rewrite parts_text_cons, Hp. cbn [app map]. rewrite read_single, Hc; [done|done|].
  destruct cs as [|d cs]; [done|]. apply Forall_cons in Hall as [Hd _].
  destruct (first_piece d Hd) as (q & qs & Hq & _). pose proof (condition_pieces_good d Hd) as Hgq.
  rewrite parts_text_cons. rewrite Hq in *. cbn [app map]. apply Forall_cons in Hgq as [Hgq _].
  destruct (piece_piece_ok q Hgq) as (_ & -> & _). rewrite pair_read by done.
  destruct c as [a|]; [|by rewrite Htime]. rewrite Htime. destruct Happ as [Hf _]. by eapply last_piece_apart.
Qed.

Lemma parts_read cs acc :
  Forall readable_condition cs → kept_apart cs → acc ++ cs ≠ [] →
  request_conditions (parts_text cs) acc = Ok (Some (acc ++ cs)).
Proof.
  revert acc. induction cs as [|c cs IH]; intros acc Hall Happ Hne.
  { rewrite app_nil_r in *. by destruct acc. }
  assert (Hstep : request_conditions (parts_text (c :: cs)) acc = request_conditions (parts_text cs) (acc ++ [c])).
  { pose proof Hall as [Hread Hcs]%Forall_cons.
    destruct Hread as [f tz mode v Htz Hv Hmode|f tz s e Htz Hs He|r Hr].
    - destruct (scalar_mode mode Hmode) as (Hm & _ & _ & Hop). apply (read_piece _ _ (PBound f tz (scalar_operator mode) v)); [done| | | |done];
        cbn [condition_pieces piece_condition piece_time]; rewrite ?Hm, ?Hop; try reflexivity.
    - destruct (overnight s e) eqn:Ho.
      + apply (read_piece _ _ (PWrapped f tz s e)); [done| | | |done]; cbn [condition_pieces];
          change (MATCH_RANGE =s MATCH_RANGE) with true; by rewrite ?Ho.
      + pose proof (condition_pieces_good _ (readable_range f tz s e Htz Hs He)) as Hgood.
        rewrite parts_text_cons. cbn [condition_pieces] in *. change (MATCH_RANGE =s MATCH_RANGE) with true in *. rewrite Ho in *.
        cbv iota in *. cbn [app map]. apply Forall_cons in Hgood as [H1 H2]. apply Forall_cons in H2 as [H2 _].
        apply read_merged; [done|done|]. unfold pair_time. cbn [piece_time mbind option_bind timeFunc timezone time_mode time_text].
        rewrite bool_decide_true, str_eqb_refl by done. done.
    - by eapply read_piece. }
  rewrite Hstep, IH; [by rewrite <- app_assoc|by apply Forall_cons in Hall as [_ ?]| |by destruct acc].
  destruct cs as [|d cs]; [done|]. by destruct Happ.
Qed.

(** ** Several conditions are not one range *)
Lemma join_cons sep p ps : ps ≠ [] → join sep (p :: ps) = p ++ sep ++ join sep ps.
Proof. by destruct ps. Qed.

(** A zone ends where its quote does. *)
Lemma strip_zone tz tz' t r :
  plain tz → plain tz' → strip_prefix tz (tz' ++ 34%N :: t) = Some (34%N :: r) → tz = tz'.
Proof.
  intros [_ H] [_ H']. apply plain_not_quote in H, H'. revert tz' H'.
  induction tz as [|a tz IH]; intros [|b tz'] H'; cbn [app strip_prefix forallb] in *.
  - done.
  - intros [= -> _]. done.
  - destruct (N.eqb_spec a 34) as [->|]; [|done]. apply andb_true_iff in H as [H _]. done.
  - apply andb_true_iff in H as [_ H]. apply andb_true_iff in H' as [_ H'].
    destruct (N.eqb_spec a b) as [->|]; [|done]. intros Hs. f_equal. by apply (IH H tz' H').
Qed.

(** What the range pattern needs after its first bound. *)
Lemma second_bound_fails f tz q tail caps k :
  plain tz → piece_good q → cap caps 1 = time_func_text f → cap caps 2 = tz →
  match tail with c :: _ => number_unit c = false | [] => True end →
  (∀ v caps', q = PBound f tz (js "<") v → k tail caps' = None) →
  (∀ c r caps, number_unit c = true → k (c :: r) caps = None) →
  rmatch (rseq [RRef 1; r_open; RRef 2; r_close; rtext (js " < "); r_number 4]) (piece_text q ++ tail) caps k = None.
Proof.
  intros Htz Hq H1 H2 Htail Hk Hnum. rewrite rmatch_seq by done. cbn [rmatch]. rewrite H1.
  destruct q as [f' tz' op v|f' tz' s e|c]; cbn [piece_good piece_text] in *.
  - destruct Hq as (Htz' & Hv%in_range_numeric & Hop).
    destruct (decide (f' = f)) as [->|Hf].
    2: { assert (strip_prefix (time_func_text f) (bound_text f' tz' op v ++ tail) = None) as ->; [|done].
         unfold bound_text, time_call, argument_text. rewrite <- !app_assoc. by destruct f, f'. }
    unfold bound_text, time_call in *. rewrite <- !app_assoc, strip_prefix_app.
    rewrite rmatch_seq, r_open_app, rmatch_seq by done. cbn [rmatch]. rewrite H2.
    destruct (strip_prefix tz (tz' ++ 34%N :: 41%N :: js " " ++ op ++ js " " ++ v ++ tail)) as [r|] eqn:E; [|done].
    rewrite rmatch_seq by done. unfold r_close at 1. rewrite rmatch_text.
    destruct (strip_prefix ([34%N] ++ js ")") r) as [r'|] eqn:Er; [|done].
    apply strip_prefix_Some in Er as ->. apply strip_zone in E as Heq; [|done|done]. subst tz'.
    change (34%N :: 41%N :: js " " ++ op ++ js " " ++ v ++ tail) with
      (([34%N] ++ js ")") ++ js " " ++ op ++ js " " ++ v ++ tail) in E.
    rewrite strip_prefix_app in E.
    assert (r' = js " " ++ op ++ js " " ++ v ++ tail) as ->.
    { apply (inj Some), app_inv_head in E. done. }
    rewrite rmatch_seq, rmatch_text by done.
    simpl in Hop. set_unfold in Hop. destruct Hop as [-> | [-> | [-> | []]]]; [done|done|].
    change (js " " ++ js "<" ++ js " " ++ v ++ tail) with (js " < " ++ v ++ tail). rewrite strip_prefix_app.
    cbn [rseq]. rewrite number_match by done. by apply (Hk v).
  - by destruct f.
  - destruct (request_head c Hq) as (t & [-> | [-> | ->]]); by destruct f.
Qed.

Lemma match_whole_end r t : match_whole r t = rmatch r t [] at_end.
Proof. reflexivity. Qed.

Lemma pieces_not_time p q qs :
  piece_good p → piece_good q →
  qs ≠ [] ∨ pair_time (piece_time p) (piece_time q) = None →
  tryParseTimeCondition (join (js " && ") (map piece_text (p :: q :: qs))) = None.
Proof.
  intros Hp Hq Hpair. cbn [map]. rewrite join_cons by done.
  assert (∃ tail, join (js " && ") (piece_text q :: map piece_text qs) = piece_text q ++ tail ∧
    match tail with c :: _ => number_unit c = false | [] => qs = [] end) as (tail & -> & Htail).
  { destruct qs as [|r qs]; [exists []; by rewrite app_nil_r|]. cbn [map]. rewrite join_cons by done. by eexists. }
  assert (Htail' : match tail with c :: _ => number_unit c = false | [] => True end) by by destruct tail.
  destruct p as [f tz op v|f tz s e|c]; cbn [piece_good piece_text] in Hp |- *; [| |by apply request_not_time].
  - destruct Hp as (Htz & Hv & Hop). pose proof (in_range_numeric _ _ Hv) as Hvn.
    unfold tryParseTimeCondition. rewrite !match_whole_end.
    assert (Hwrap : rmatch (rseq [rtext (js "("); time_range_pattern; rtext (js ")")])
      (bound_text f tz op v ++ js " && " ++ piece_text q ++ tail) [] at_end = None).
    { rewrite rmatch_seq, rmatch_text by done. unfold bound_text, time_call. rewrite <- !app_assoc. by destruct f. }
    assert (Hrange : rmatch time_range_pattern (bound_text f tz op v ++ js " && " ++ piece_text q ++ tail) [] at_end = None).
    { unfold time_range_pattern, bound_text. rewrite <- !app_assoc, time_call_match, rmatch_seq, rmatch_text by done.
      simpl in Hop. set_unfold in Hop. destruct Hop as [-> | [-> | [-> | []]]]; [done| |done].
      change (js " " ++ js ">=" ++ js " " ++ v ++ ?t) with (js " >= " ++ v ++ t). rewrite strip_prefix_app.
      rewrite rmatch_seq by done. rewrite number_match; [|done|done|].
      2: { intros c r caps Hc. rewrite rmatch_seq by done. by apply text_fails_number. }
      change (js " && ") with (js " " ++ js "&&" ++ js " "). rewrite <- !app_assoc, rmatch_seq, rmatch_text_app by done.
      rewrite rmatch_seq by done.
      assert (Hg : ∀ (t : jsstring) caps k', rmatch (rtexts [js "&&"; js "||"]) (js "&&" ++ t) caps k' = k' t caps)
        by (intros; vm_compute; by destruct (k' _ _)).
      rewrite Hg, rmatch_seq, rmatch_text_app by done.
      apply (second_bound_fails f tz); [done..| |done].
      intros v' caps' Hbound. destruct tail as [|c tail]; [|done]. destruct Hpair as [?|Hpair]; [done|].
      subst q. unfold pair_time in Hpair. cbn [piece_time mbind option_bind timeFunc timezone time_mode] in Hpair.
      rewrite bool_decide_true, str_eqb_refl in Hpair by done. done. }
    rewrite Hrange, Hwrap. cbn [either]. rewrite bound_match_rest; [done|done..].
  - destruct Hp as (Htz & Hs%in_range_numeric & He%in_range_numeric). unfold tryParseTimeCondition, match_whole.
    set (rest := js " && " ++ _).
    assert (∀ k, rmatch time_range_pattern ((js "(" ++ range_text f tz (js "||") s e ++ js ")") ++ rest) [] k = None) as -> by done.
    assert (∀ k, rmatch time_bound_pattern ((js "(" ++ range_text f tz (js "||") s e ++ js ")") ++ rest) [] k = None) as -> by done.
    rewrite <- !app_assoc, rmatch_seq, rmatch_text_app, rmatch_seq by done.
    rewrite range_match; [|done|done|done|set_solver|done|].
    2: { intros c r caps Hc. cbn [rseq]. by apply text_fails_number. }
    cbn [rseq]. by rewrite rmatch_text_app.
Qed.

(** ** The text of a group *)
Lemma join_app_last sep p ps : ∃ x, join sep (p :: ps) = x ++ List.last (p :: ps) [].
Proof.
  revert p. induction ps as [|q ps IH]; intros p; [by exists []|].
  destruct (IH q) as [x Hx]. exists (p ++ sep ++ x). rewrite join_cons, Hx by done. by rewrite <- !app_assoc.
Qed.

Lemma trimmed_start p : trim p = p → trim_start p = p.
Proof. intros Hp. unfold trim in Hp. rewrite <- Hp. apply trim_start_trim_end. Qed.

Lemma trim_join sep p ps : Forall piece_ok (p :: ps) → trim (join sep (p :: ps)) = join sep (p :: ps).
Proof.
  intros Hall. pose proof Hall as [(_ & Hp & Hne) Hps]%Forall_cons. destruct ps as [|q ps]; [done|].
  rewrite join_cons by done. destruct (join_app_last sep q ps) as [x Hx]. rewrite Hx.
  assert (piece_ok (List.last (q :: ps) [])) as (_ & Hl & Hlne).
  { clear -Hps. revert q Hps. induction ps as [|r ps IH]; intros q Hps; apply Forall_cons in Hps as [Hq Hps]; [done|].
    apply (IH r Hps). }
  destruct p as [|a p]; [done|]. pose proof (drop_while_head is_space _ _ _ (trimmed_start (a :: p) Hp)) as Ha.
  cbn [app]. rewrite !app_assoc. by apply trim_head_tail.
Qed.

(** The pieces of a condition are its text, parenthesized when it is an
    alternative. *)
Definition overnight_condition (c : RequestCondition) : bool :=
  match c with
  | OnTime r => (time_mode r =s MATCH_RANGE) && overnight (rangeStart r) (rangeEnd r)
  | OnRequest _ => false
  end.
Definition without_alternative (c : RequestCondition) : Prop :=
  overnight_condition c = false → includes (js " || ") (condition_text c) = false.

Lemma condition_part c :
  readable_condition c → without_alternative c →
  parenthesize_alternative (condition_text c) = join (js " && ") (map piece_text (condition_pieces c)).
Proof.
  unfold without_alternative, parenthesize_alternative.
  destruct 1 as [f tz mode v _ _ Hmode|f tz s e _ _ _|c _];
    cbn [condition_pieces condition_text overnight_condition time_mode rangeStart rangeEnd]; intros Ha.
  - destruct (scalar_mode mode Hmode) as (Hm & _). rewrite Hm in *. by rewrite (Ha eq_refl).
  - change (MATCH_RANGE =s MATCH_RANGE) with true in *. cbn [andb] in Ha. cbv iota in *.
    destruct (overnight s e).
    2: { rewrite (Ha eq_refl). cbn [map join piece_text]. unfold range_text, bound_text.
         change (js " >= ") with (js " " ++ js ">=" ++ js " "). change (js " < ") with (js " " ++ js "<" ++ js " ").
         change (js " && ") with (js " " ++ js "&&" ++ js " "). by rewrite <- !app_assoc. }
    assert (includes (js " || ") (range_text f tz (js "||") s e) = true) as ->; [|done].
    apply includes_spec. unfold range_text. exists (time_call f tz ++ js " >= " ++ s). eexists.
    change (js " || ") with (js " " ++ js "||" ++ js " "). by rewrite <- !app_assoc.
  - by rewrite (Ha eq_refl).
Qed.

Lemma join_app sep a b : a ≠ [] → b ≠ [] → join sep (a ++ b) = join sep a ++ sep ++ join sep b.
Proof.
  intros Ha Hb. destruct a as [|p a]; [done|]. clear Ha. revert p.
  induction a as [|q a IH]; intros p; cbn [app]; [by rewrite join_cons|].
  rewrite join_cons by done. cbn [app] in IH. rewrite IH, (join_cons _ p) by done. by rewrite <- !app_assoc.
Qed.

Lemma pieces_nonempty c : condition_pieces c ≠ [].
Proof. destruct c as [[]|]; cbn; repeat case_match; done. Qed.

Lemma parts_text_nonempty cs : cs ≠ [] → parts_text cs ≠ [].
Proof.
  destruct cs as [|c cs]; [done|]. intros _. rewrite parts_text_cons. intros [H _]%app_nil.
  apply map_eq_nil in H. by apply (pieces_nonempty c).
Qed.

Lemma parts_join cs :
  Forall readable_condition cs → Forall without_alternative cs → cs ≠ [] →
  join (js " && ") (map parenthesize_alternative (map condition_text cs)) = join (js " && ") (parts_text cs).
Proof.
  induction cs as [|c cs IH]; [done|]. intros [Hc Hcs]%Forall_cons [Ha Has]%Forall_cons _.
  rewrite parts_text_cons. cbn [map]. destruct cs as [|d cs].
  { change (parts_text []) with (@nil jsstring). rewrite app_nil_r. cbn [map join]. by apply condition_part. }
  rewrite join_cons, IH, (condition_part c) by done. rewrite join_app; [done| |by apply parts_text_nonempty].
  intros H%map_eq_nil. by apply (pieces_nonempty c).
Qed.

Lemma condition_text_nonempty c : readable_condition c → nonempty (condition_text c) = true.
Proof.
  intros Hc. assert (condition_text c ≠ []) as H; [|unfold nonempty; by rewrite (proj2 (str_eqb_neq _ []) H)].
  destruct Hc as [f tz mode v _ _ Hmode|f tz s e _ _ _|c Hc]; cbn [condition_text].
  - destruct (scalar_mode mode Hmode) as (-> & _). unfold bound_text, time_call. by destruct f.
  - change (MATCH_RANGE =s MATCH_RANGE) with true. unfold range_text, time_call. by destruct f.
  - destruct (request_piece c Hc) as (_ & _ & ?). done.
Qed.

(** ** The factor of a group decomposes in one way *)

Lemma star_any n c u caps k :
  star_loop (rmatch rany) k (S n) (c :: u) caps =
  match star_loop (rmatch rany) k n u caps with Some m => Some m | None => k (c :: u) caps end.
Proof.
  change (star_loop (rmatch rany) k (S n) (c :: u) caps) with
    (match (if length u <? length (c :: u) then star_loop (rmatch rany) k n u caps else None) with
     | Some m => Some m | None => k (c :: u) caps end).
  by rewrite (proj2 (Nat.ltb_lt (length u) (length (c :: u)))) by (simpl; lia).
Qed.
Lemma star_any_end n caps k : star_loop (rmatch rany) k n [] caps = k [] caps.
Proof. by destruct n. Qed.

(** A greedy run of any units ends where the rest first matches, looking from
    the end of the text. *)
Lemma any_run t r caps k :
  (∀ a u caps, r = a ++ u → a ≠ [] → k u caps = None) → is_Some (k r caps) →
  rmatch (RStar rany) (t ++ r) caps k = k r caps.
Proof.
  intros Hnone [m Hm]. rewrite rmatch_star.
  assert (Hlate : ∀ n a u, r = a ++ u → a ≠ [] → star_loop (rmatch rany) k n u caps = None).
  { induction n as [|n IH]; intros a u Hu Ha; [by eapply Hnone|].
    destruct u as [|c u]; [rewrite star_any_end; by eapply Hnone|].
    rewrite star_any, (IH (a ++ [c])); [by eapply Hnone|by rewrite <- app_assoc|by destruct a]. }
  assert (∀ n, length (t ++ r) ≤ n → star_loop (rmatch rany) k n (t ++ r) caps = k r caps) as H; [|by apply H].
  induction t as [|c t IH]; intros n Hn; cbn [app] in *.
  - destruct n as [|n]; [done|]. destruct r as [|c r]; [by rewrite star_any_end|].
    rewrite star_any, (Hlate n [c] r); [by rewrite Hm|done|done].
  - destruct n as [|n]; simpl in Hn; [lia|]. rewrite star_any, IH by lia. by rewrite Hm.
Qed.

Definition factor_text (cond m : jsstring) : jsstring := js "(" ++ cond ++ js " ? " ++ m ++ js " : 1)".

(** No later question mark. *)
Lemma late_question m a u r :
  is_numeric_literal m = true → js " ? " ++ m ++ js " : 1)" = a ++ u → a ≠ [] →
  strip_prefix (js " ? ") u = Some r → False.
Proof.
  intros [_ Hm]%numeric_units Hu Ha Hr. apply strip_prefix_Some in Hr as ->.
  destruct a as [|x a]; [done|]. change (js " ? ") with [32; 63; 32]%N in Hu. cbn [app] in Hu.
  injection Hu as _ Hu.
  assert (63%N ∉ m ++ js " : 1)") as Hnot.
  { rewrite elem_of_app. intros [H|H].
    - rewrite forallb_forall in Hm. apply list_elem_of_In, Hm, number_unit_cases in H. tauto.
    - apply list_elem_of_In in H. vm_compute in H. naive_solver. }
  destruct a as [|y a]; [done|]. cbn [app] in Hu. injection Hu as _ Hu.
  destruct a as [|z a]; cbn [app] in Hu.
  - injection Hu as Hu. apply Hnot. rewrite Hu. set_solver.
  - injection Hu as _ Hu. apply Hnot. rewrite Hu. set_solver.
Qed.

Lemma factor_match cond m :
  cond ≠ [] → is_numeric_literal m = true →
  match_whole group_pattern (factor_text cond m) = Some [(2, m); (1, cond)].
Proof.
  intros Hc Hm. rewrite match_whole_end. unfold group_pattern, factor_text.
  rewrite rmatch_seq, rmatch_text_app, rmatch_seq by done. set (r := js " ? " ++ m ++ js " : 1)").
  set (K := λ s caps, rmatch (rseq [rtext (js " ? "); r_number 2; rtext (js " : 1)")]) s caps at_end).
  assert (HK : ∀ caps, K r caps = Some ((2, m) :: caps)).
  { intros caps. subst K r. cbv beta. rewrite rmatch_seq, rmatch_text_app, rmatch_seq by done.
    rewrite number_match; [|done|done|intros; cbn [rseq]; by apply text_fails_number].
    cbn [rseq]. rewrite <- (app_nil_r (js " : 1)")), rmatch_text_app. done. }
  destruct cond as [|c t]; [done|].
  change (rmatch (RStar rany) (t ++ r) []
    (λ s' caps', K s' ((1, take (length ((c :: t) ++ r) - length s') ((c :: t) ++ r)) :: caps')) =
    Some [(2, m); (1, c :: t)]).
  rewrite any_run.
  - rewrite taken. apply HK.
  - intros a u caps Hu Ha. subst K. cbv beta. rewrite rmatch_seq, rmatch_text by done.
    destruct (strip_prefix (js " ? ") u) as [v|] eqn:E; [|done]. exfalso. by eapply late_question.
  - rewrite HK. done.
Qed.

(** ** Groups *)
Definition group_text (cs : list RequestCondition) : jsstring :=
  match cs with [c] => condition_text c | _ => join (js " && ") (parts_text cs) end.

(** A group the editor can read back: readable conditions, at least one; a
    group of several has no string with [ || ] in it and no two neighbours
    that are the bounds of a range; the multiplier is a number. *)
Record readable_group (g : RequestRuleGroup) : Prop := {
  rg_readable : Forall readable_condition (group_conditions g);
  rg_some : group_conditions g ≠ [];
  rg_several : length (group_conditions g) = 1 ∨
    Forall without_alternative (group_conditions g) ∧ kept_apart (group_conditions g);
  rg_multiplier : is_numeric_literal (multiplier g) = true;
  rg_fresh : group_conditionText g = None ∧ group_matched g = None
}.

Lemma built_texts cs :
  Forall readable_condition cs →
  List.filter nonempty (map buildRequestConditionExpr cs) = map condition_text cs.
Proof.
  induction 1 as [|c cs Hc _ IH]; [done|]. cbn [map List.filter].
  rewrite build_readable, condition_text_nonempty by done. by rewrite IH.
Qed.

Lemma group_built g :
  readable_group g → buildRuleGroupFactor g = factor_text (group_text (group_conditions g)) (multiplier g).
Proof.
  intros [Hc Hne Hsev Hm _]. unfold buildRuleGroupFactor. rewrite (numeric_trimmed _ Hm), Hm. cbn [negb].
  rewrite (built_texts _ Hc). unfold factor_text.
  destruct (group_conditions g) as [|c [|d cs]]; [done|done|]. destruct Hsev as [Hsev|[Ha _]]; [done|].
  pose proof (parts_join (c :: d :: cs) Hc Ha ltac:(done)) as Hj. cbn [map group_text] in *. by rewrite Hj.
Qed.

Lemma parts_good cs : Forall readable_condition cs → Forall piece_good (mjoin (map condition_pieces cs)).
Proof.
  induction 1 as [|c cs Hc _ IH]; [constructor|]. apply Forall_app. split; [by apply condition_pieces_good|done].
Qed.
Lemma parts_ok cs : Forall readable_condition cs → Forall piece_ok (parts_text cs).
Proof.
  intros H%parts_good. apply Forall_map. eapply Forall_impl; [done|]. apply piece_piece_ok.
Qed.

Lemma range_trimmed f tz glue s e : is_numeric_literal e = true → trim (range_text f tz glue s e) = range_text f tz glue s e.
Proof.
  intros He. unfold range_text at 1 2. unfold time_call at 1 3. destruct (time_head f) as (a & t & -> & Ha).
  rewrite !app_assoc. cbn [app]. apply trim_head_tail; [done|by apply numeric_trimmed|by apply numeric_units].
Qed.

Lemma split_parts cs :
  Forall readable_condition cs → cs ≠ [] → splitTopLevelAnd (join (js " && ") (parts_text cs)) = parts_text cs.
Proof.
  intros Hc Hne. apply (split_pieces (js "&&")); [by right|by apply parts_text_nonempty|by apply parts_ok].
Qed.

(** A condition on its own. *)
Lemma condition_alone c :
  readable_condition c → tryParseRequestConditions (condition_text c) = Ok (Some [c]).
Proof.
  intros Hc. unfold tryParseRequestConditions. destruct Hc as [f tz mode v Htz Hv Hmode|f tz s e Htz Hs He|c Hc].
  - pose proof (condition_pieces_good _ (readable_scalar f tz mode v Htz Hv Hmode)) as Hgood.
    destruct (scalar_mode mode Hmode) as (Hm & _ & _ & Hop). cbn [condition_text condition_pieces] in *.
    rewrite Hm in *. apply Forall_cons in Hgood as [Hgood _].
    destruct (piece_piece_ok _ Hgood) as (_ & Ht & _). cbn [piece_text] in Ht. rewrite Ht.
    rewrite (piece_time_read _ Hgood : tryParseTimeCondition (bound_text f tz (scalar_operator mode) v) = _).
    cbn [piece_time]. by rewrite Hop.
  - cbn [condition_text]. change (MATCH_RANGE =s MATCH_RANGE) with true. cbv iota.
    rewrite range_trimmed by by eapply in_range_numeric. rewrite read_range; [done..|].
    destruct (overnight s e); set_solver.
  - cbn [condition_text]. destruct (request_piece c Hc) as (_ & Ht & _). rewrite Ht.
    rewrite <- (app_nil_r (request_text c)) at 1. rewrite request_not_time by done.
    assert (Forall readable_condition [OnRequest c]) as Hall by by apply Forall_singleton, readable_on_request.
    pose proof (split_parts [OnRequest c] Hall ltac:(done)) as Hs.
    change (join (js " && ") (parts_text [OnRequest c])) with (request_text c) in Hs. rewrite Hs.
    by apply (parts_read [OnRequest c] []).
Qed.

Lemma several_not_time cs :
  Forall readable_condition cs → kept_apart cs → 2 ≤ length cs →
  tryParseTimeCondition (join (js " && ") (parts_text cs)) = None.
Proof.
  intros Hall Happ Hlen. destruct cs as [|c [|d cs]]; simpl in Hlen; try lia.
  pose proof (parts_good _ Hall) as Hgood. unfold parts_text. cbn [map mjoin] in *.
  change (list_join piece (condition_pieces c :: condition_pieces d :: map condition_pieces cs)) with
    (condition_pieces c ++ condition_pieces d ++ mjoin (map condition_pieces cs)) in *.
  apply Forall_cons in Hall as [Hc Hall]. apply Forall_cons in Hall as [Hd _].
  destruct (first_piece d Hd) as (q & qs & Hq & _). rewrite Hq in *.
  assert (Hone : ∀ p, condition_pieces c = [p] →
    match c with OnTime a => piece_time p = Some a | OnRequest _ => piece_time p = None end →
    tryParseTimeCondition (join (js " && ") (map piece_text
      (condition_pieces c ++ (q :: qs) ++ mjoin (map condition_pieces cs)))) = None).
  { intros p Hp Htime. rewrite Hp in *. cbn [app] in *. repeat apply Forall_cons in Hgood as [? Hgood].
    apply pieces_not_time; [done|done|]. right. destruct c as [a|]; rewrite Htime; [|done].
    destruct Happ as [Hf _]. by eapply last_piece_apart. }
  destruct Hc as [f tz mode v _ _ Hmode|f tz s e _ _ _|r _].
  - destruct (scalar_mode mode Hmode) as (Hm & _ & _ & Hop).
    apply (Hone (PBound f tz (scalar_operator mode) v)); cbn [condition_pieces piece_time]; by rewrite ?Hm, ?Hop.
  - cbn [condition_pieces] in *. change (MATCH_RANGE =s MATCH_RANGE) with true in *. cbv iota in *.
    destruct (overnight s e); [by apply (Hone (PWrapped f tz s e))|]. cbn [app] in *.
    repeat apply Forall_cons in Hgood as [? Hgood]. apply pieces_not_time; [done|done|by left].
  - by apply (Hone (PRequest r)).
Qed.

Lemma group_conditions_read g :
  readable_group g → tryParseRequestConditions (group_text (group_conditions g)) = Ok (Some (group_conditions g)).
Proof.
  intros [Hc Hne Hsev _ _]. destruct (group_conditions g) as [|c [|d cs]] eqn:E; [done| |].
  { apply condition_alone. by apply Forall_cons in Hc as [? _]. }
  destruct Hsev as [?|[_ Happ]]; [done|]. cbn [group_text]. unfold tryParseRequestConditions.
  pose proof (parts_ok _ Hc) as Hok. pose proof (parts_text_nonempty (c :: d :: cs) ltac:(done)) as Hp.
  assert (trim (join (js " && ") (parts_text (c :: d :: cs))) = join (js " && ") (parts_text (c :: d :: cs))) as ->.
  { destruct (parts_text (c :: d :: cs)); [done|]. by apply trim_join. }
  rewrite several_not_time, split_parts by (done || (simpl; lia)). by apply (parts_read _ []).
Qed.

Lemma join_neutral sep ps : neutral false sep → Forall (neutral false) ps → neutral false (join sep ps).
Proof.
  intros Hs. induction 1 as [|p ps Hp _ IH]; [constructor|]. destruct ps; [done|].
  rewrite join_cons by done. by repeat apply neutral_app.
Qed.

Lemma group_text_neutral g : readable_group g → neutral false (group_text (group_conditions g)).
Proof.
  intros [Hc _ _ _ _]. assert (Hparts : neutral false (join (js " && ") (parts_text (group_conditions g)))).
  { apply join_neutral; [repeat (apply neutral_unit; [done..|]); constructor|]. eapply Forall_impl; [by apply parts_ok|].
    intros p (Hp & _). by eapply neutral_inner. }
  destruct (group_conditions g) as [|c [|d cs]]; [done| |done]. cbn [group_text]. apply Forall_cons in Hc as [Hc _].
  destruct Hc as [f tz mode v Htz Hv Hmode|f tz s e Htz Hs He|c Hc]; cbn [condition_text].
  - pose proof (condition_pieces_good _ (readable_scalar f tz mode v Htz Hv Hmode)) as Hgood.
    destruct (scalar_mode mode Hmode) as (Hm & _). cbn [condition_pieces] in Hgood. rewrite Hm in *.
    apply Forall_cons in Hgood as [Hgood _]. by destruct (piece_piece_ok _ Hgood) as (?%neutral_inner & _).
  - change (MATCH_RANGE =s MATCH_RANGE) with true. cbv iota.
    apply neutral_range; [done|by eapply in_range_numeric..|]. destruct (overnight s e); set_solver.
  - by destruct (request_piece c Hc) as (?%neutral_inner & _).
Qed.

Lemma group_text_nonempty g : readable_group g → group_text (group_conditions g) ≠ [].
Proof.
  intros [Hc Hne _ _ _] He. destruct (group_conditions g) as [|c [|d cs]]; [done| |]; cbn [group_text] in He.
  - apply Forall_cons in Hc as [Hc _]. apply condition_text_nonempty in Hc. by rewrite He in Hc.
  - pose proof (parts_ok _ Hc) as Hok. pose proof (parts_text_nonempty (c :: d :: cs) ltac:(done)) as Hp.
    destruct (parts_text (c :: d :: cs)) as [|p ps]; [done|]. apply Forall_cons in Hok as [(_ & _ & Hpne) _].
    destruct ps; [done|]. rewrite join_cons in He by done. by apply app_nil in He as [? _].
Qed.

Lemma factor_text_ok cond m :
  neutral false cond → is_numeric_literal m = true → piece_ok (factor_text cond m).
Proof.
  intros Hn Hm. split; [|split; [|done]].
  - assert (factor_text cond m = 40%N :: (cond ++ js " ? " ++ m ++ js " : 1") ++ [41%N]) as ->.
    { unfold factor_text. change (js " : 1)") with (js " : 1" ++ [41%N]). change (js "(") with [40%N].
      cbn [app]. by rewrite <- !app_assoc. }
    apply neutral_parens; [|constructor]. apply neutral_app; [done|]. apply neutral_app.
    { repeat (apply neutral_unit; [done..|]). constructor. }
    apply neutral_app; [by apply neutral_numeric|by apply neutral_units].
  - unfold factor_text. change (js " : 1)") with (js " : " ++ js "1)"). change (js "(") with [40%N].
    rewrite !app_assoc. cbn [app]. by apply trim_head_tail.
Qed.

Lemma factor_ok g : readable_group g → piece_ok (factor_text (group_text (group_conditions g)) (multiplier g)).
Proof. intros Hg. apply factor_text_ok; [by apply group_text_neutral|by destruct Hg]. Qed.

Lemma factor_read g :
  readable_group g →
  tryParseRuleGroupFactor (factor_text (group_text (group_conditions g)) (multiplier g)) = Ok (Some g).
Proof.
  intros Hg. unfold tryParseRuleGroupFactor.
  rewrite factor_match by (by apply group_text_nonempty || by destruct Hg).
  change (cap [(2, multiplier g); (1, group_text (group_conditions g))] 1) with (group_text (group_conditions g)).
  change (cap [(2, multiplier g); (1, group_text (group_conditions g))] 2) with (multiplier g).
  rewrite group_conditions_read by done. cbn. destruct Hg as [_ _ _ _ [H1 H2]]. destruct g. simpl in *. by subst.
Qed.

Lemma groups_read groups acc :
  Forall readable_group groups →
  rule_groups (map (λ g, factor_text (group_text (group_conditions g)) (multiplier g)) groups) acc =
  Ok (Some (acc ++ groups)).
Proof.
  intros H. revert acc. induction H as [|g groups Hg _ IH]; intros acc; [by rewrite app_nil_r|].
  cbn [map rule_groups]. rewrite factor_read by done. cbn. rewrite IH. by rewrite <- app_assoc.
Qed.

Lemma built_factors groups :
  Forall readable_group groups →
  List.filter nonempty (map buildRuleGroupFactor groups) =
  map (λ g, factor_text (group_text (group_conditions g)) (multiplier g)) groups.
Proof. induction 1 as [|g groups Hg _ IH]; [done|]. cbn [map List.filter]. by rewrite group_built, IH. Qed.

(** C4. The request rules of the visual editor round-trip: groups of readable
    conditions, built into the text of an expression and read again, are the
    same groups, with their day and overnight ranges, their strings and their
    multipliers. *)
Theorem rules_round_trip groups :
  Forall readable_group groups →
  tryParseRequestRuleExpr (buildRequestRuleExpr groups) = Ok (Some groups).
Proof.
  intros Hg. unfold tryParseRequestRuleExpr, buildRequestRuleExpr. rewrite built_factors by done.
  set (fs := map _ groups). assert (Hok : Forall piece_ok fs).
  { apply Forall_map. eapply Forall_impl; [done|]. by apply factor_ok. }
  destruct groups as [|g groups]; [done|]. pose proof (groups_read (g :: groups) [] Hg) as Hread. fold fs in Hread.
  assert (fs ≠ []) as Hne by done. destruct fs as [|p ps]; [done|]. rewrite trim_join by done.
  assert (join (js " * ") (p :: ps) =s [] = false) as ->.
  { apply str_eqb_neq. apply Forall_cons in Hok as [(_ & _ & Hp) _]. destruct ps; [done|].
    rewrite join_cons by done. by intros [? _]%app_nil. }
  assert (splitTopLevelMultiply (join (js " * ") (p :: ps)) = p :: ps) as ->; [|done].
  apply (split_pieces (js "*")); [by left|done|done].
Qed.

Definition witness_group : RequestRuleGroup :=
  mkGroup [OnTime (mkTimeRule tf_hour (js "UTC") MATCH_RANGE [] (js "21") (js "6"));
           OnTime (mkTimeRule tf_weekday (js "UTC") MATCH_RANGE [] (js "1") (js "5"));
           OnRequest (mkPH source_header (js "x-tier") MATCH_CONTAINS (js "a\b"));
           OnRequest (mkPH source_param (js "n") MATCH_EXISTS []);
           OnRequest (mkPH source_param (js "tier") MATCH_EQ (js "fast"))]
    (js "1.5") None None.

Example rules_round_trip_witness :
  Forall readable_group [witness_group] ∧
  tryParseRequestRuleExpr (buildRequestRuleExpr [witness_group]) = Ok (Some [witness_group]).
Proof.
  assert (Hg : Forall readable_group [witness_group]).
  { apply Forall_singleton. constructor; [|done| |done|done].
    - repeat constructor; vm_compute; done.
    - right. split; [|by vm_compute]. repeat (apply Forall_cons; split); try apply Forall_nil; by vm_compute. }
  split; [exact Hg|exact (rules_round_trip [witness_group] Hg)].
Defined.

(** ** Comparisons of a parameter with a number *)
Definition comparison_call (p : jsstring) : jsstring := js "param" ++ argument_text p.

Lemma comparison_read p op v :
  plain p → op ∈ map snd number_operators →
  tryParseRequestCondition (comparison_call p ++ js " " ++ op ++ js " " ++ v) = Ok None.
Proof.
  intros Hp Hop. unfold tryParseRequestCondition, comparison_call. rewrite !match_whole_end.
  set (t := js " " ++ op ++ js " " ++ v).
  assert (Hparam : ∀ u rest k, rest ≠ [] → u ∈ map js [" != nil"; " != nil && has(param"; " != nil && param"]%string →
    rmatch (rseq (rtext (js "param") :: r_quoted 1 :: rtext u :: rest)) ((js "param" ++ argument_text p) ++ t) [] k = None).
  { intros u rest k Hr Hu. rewrite call_match, rmatch_seq, rmatch_text by done. subst t.
    simpl in Hop, Hu. set_unfold in Hop. set_unfold in Hu.
    destruct Hop as [-> | [-> | [-> | [-> | []]]]], Hu as [-> | [-> | [-> | []]]]; done. }
  assert (tryParseTimeCondition ((js "param" ++ argument_text p) ++ t) = None) as -> by done.
  unfold header_exists_pattern, param_exists_pattern, header_contains_pattern.
  rewrite (text_no_match (js "header")), (text_no_match (js "has(header")) by done.
  rewrite (call_match (js "param") 1 p) by done. cbn [rseq]. rewrite rmatch_text.
  assert (strip_prefix (js " != nil") t = None) as ->.
  { subst t. simpl in Hop. set_unfold in Hop. by destruct Hop as [-> | [-> | [-> | [-> | []]]]]. }
  unfold param_contains_pattern, param_number_pattern. rewrite !Hparam by (done || set_solver).
  cbn [same_path mbind option_bind]. unfold equals_pattern. rewrite rmatch_seq, <- app_assoc by done.
  destruct (argument_head p t Hp) as [u Hu]. rewrite Hu, (either_text_group source_param), <- Hu.
  rewrite rmatch_seq, quoted_match, rmatch_seq, rmatch_text by done.
  assert (strip_prefix (js " == ") t = None) as ->; [|done].
  subst t. simpl in Hop. set_unfold in Hop. by destruct Hop as [-> | [-> | [-> | [-> | []]]]].
Qed.

Definition comparison_pieces (p op v : jsstring) : list jsstring :=
  [comparison_call p ++ js " != nil"; comparison_call p ++ js " " ++ op ++ js " " ++ v].

Lemma comparison_built p mode v :
  plain p → trim p = p → mode ∈ map fst number_operators → is_numeric_literal v = true →
  ∃ op, op ∈ map snd number_operators ∧
    buildRequestConditionExpr (OnRequest (mkPH source_param p mode v)) =
    join (spaced (js "&&")) (comparison_pieces p op v).
Proof.
  intros [Hne _] Ht Hmode Hv.
  assert (∃ op, own number_operators mode = Some op ∧ op ∈ map snd number_operators ∧
    listed_mode (source_text source_param) (Some mode) MATCH_EQ = mode ∧
    (mode =s MATCH_EXISTS) = false ∧ (mode =s MATCH_CONTAINS) = false) as (op & Hown & Hop & Hlist & He & Hc).
  { simpl in Hmode. set_unfold in Hmode. destruct Hmode as [-> | [-> | [-> | [-> | []]]]];
      eexists; (split_and!; [reflexivity|set_solver|done..]). }
  exists op. split; [done|]. unfold buildRequestConditionExpr, normalizeCondition, partial_of.
  cbn [ph_source ph_path ph_mode ph_value partial_source partial_path partial_mode partial_value from_option id].
  rewrite !bool_decide_false, Hlist by done.
  unfold buildParamHeaderText. cbn [ph_source ph_path ph_mode ph_value].
  rewrite Ht, (proj2 (str_eqb_neq p []) Hne), Hown, (numeric_trimmed v Hv), Hv, He, Hc.
  cbn [negb join comparison_pieces]. unfold spaced, comparison_call, argument_text. cbn [source_text].
  change (js " != nil && ") with (js " != nil" ++ js " " ++ js "&&" ++ js " "). by rewrite <- !app_assoc.
Qed.

Lemma comparison_pieces_ok p op v :
  plain p → op ∈ map snd number_operators → is_numeric_literal v = true →
  Forall piece_ok (comparison_pieces p op v).
Proof.
  intros Hp Hop Hv. unfold comparison_pieces.
  apply Forall_cons; split; [|apply Forall_singleton]; (split; [|split; [|done]]).
  - apply neutral_app; [by apply (neutral_call true source_param)|by apply neutral_units].
  - change (js " != nil") with (js " != " ++ js "nil"). unfold comparison_call.
    change (js "param") with (112%N :: js "aram"). rewrite !app_assoc. cbn [app]. by apply trim_head_tail.
  - apply neutral_app; [by apply (neutral_call true source_param)|].
    simpl in Hop. set_unfold in Hop. destruct Hop as [-> | [-> | [-> | [-> | []]]]]; neutral_parts.
  - unfold comparison_call. change (js "param") with (112%N :: js "aram"). rewrite !app_assoc. cbn [app].
    apply trim_head_tail; [done|by apply numeric_trimmed|by apply numeric_units].
Qed.

Lemma comparison_conditions p op v :
  plain p → op ∈ map snd number_operators → is_numeric_literal v = true →
  tryParseRequestConditions (join (spaced (js "&&")) (comparison_pieces p op v)) = Ok None.
Proof.
  intros Hp Hop Hv. pose proof (comparison_pieces_ok p op v Hp Hop Hv) as Hok. unfold tryParseRequestConditions.
  assert (trim (join (spaced (js "&&")) (comparison_pieces p op v)) =
    join (spaced (js "&&")) (comparison_pieces p op v)) as -> by exact (trim_join _ _ _ Hok).
  assert (tryParseTimeCondition (join (spaced (js "&&")) (comparison_pieces p op v)) = None) as -> by done.
  unfold splitTopLevelAnd. rewrite split_pieces by (done || by right). unfold comparison_pieces in *.
  apply Forall_cons in Hok as [(_ & Ht1 & _) Hok]. apply Forall_cons in Hok as [(_ & Ht2 & Hne) _].
  cbn [request_conditions]. rewrite Ht1, Ht2, (proj2 (str_eqb_neq _ []) Hne).
  assert (tryParseTimeRangePair (comparison_call p ++ js " != nil") (comparison_call p ++ js " " ++ op ++ js " " ++ v)
    = None) as -> by done.
  rewrite (exists_read source_param p Hp : tryParseRequestCondition (comparison_call p ++ js " != nil") = _).
  cbn [mbind result_bind]. by rewrite comparison_read.
Qed.

(** A rule that compares a parameter with a number is never read back: the
    text the editor builds for it is split at its [&&] before its pattern is
    tried, so parsing gives [null] and the editor falls back to the raw text. *)
Theorem param_comparison_unreadable p mode v m :
  plain p → trim p = p → mode ∈ map fst number_operators →
  is_numeric_literal v = true → is_numeric_literal m = true →
  tryParseRequestRuleExpr
    (buildRequestRuleExpr [mkGroup [OnRequest (mkPH source_param p mode v)] m None None]) = Ok None.
Proof.
  intros Hp Ht Hmode Hv Hm. destruct (comparison_built p mode v Hp Ht Hmode Hv) as (op & Hop & Hbuild).
  pose proof (comparison_pieces_ok p op v Hp Hop Hv) as Hok. set (cond := join (spaced (js "&&")) _) in *.
  assert (buildRequestRuleExpr [mkGroup [OnRequest (mkPH source_param p mode v)] m None None] = factor_text cond m) as ->.
  { unfold buildRequestRuleExpr, buildRuleGroupFactor. cbn [map multiplier group_conditions].
    by rewrite (numeric_trimmed m Hm), Hm, Hbuild. }
  assert (piece_ok (factor_text cond m)) as Hf.
  { apply factor_text_ok; [|done]. apply join_neutral.
    - repeat (apply neutral_unit; [done..|]). constructor.
    - eapply Forall_impl; [done|]. intros x (Hx & _). by eapply neutral_inner. }
  unfold tryParseRequestRuleExpr. destruct Hf as (Hn & Htrim & Hne). rewrite Htrim, (proj2 (str_eqb_neq _ []) Hne).
  assert (splitTopLevelMultiply (factor_text cond m) = [factor_text cond m]) as ->.
  { apply (split_pieces (js "*") [factor_text cond m]); [by left|done|by apply Forall_singleton]. }
  cbn [rule_groups]. unfold tryParseRuleGroupFactor. rewrite factor_match by done.
  change (cap [(2, m); (1, cond)] 1) with cond. subst cond. by rewrite comparison_conditions.
Qed.

Example param_comparison_unreadable_witness :
  plain (js "n") ∧
  tryParseRequestRuleExpr
    (buildRequestRuleExpr [mkGroup [OnRequest (mkPH source_param (js "n") MATCH_GTE (js "2"))] (js "1.5") None None]) =
  Ok None.
Proof.
  split; [done|]. apply (param_comparison_unreadable (js "n") MATCH_GTE (js "2") (js "1.5")); try done. set_solver.
Defined.

(** Reading a time range forgets whether its bounds were joined with [&&]
    or [||]: both texts give the same condition, and the editor rebuilds it
    with the operator that the order of the bounds suggests; so an alternative
    of a day range (always true) comes back as a conjunction, and a
    conjunction of an overnight range (never true) as an alternative. *)
Theorem range_operator_lost f tz s e :
  plain tz → isTimeValueInRange f s = true → isTimeValueInRange f e = true →
  ∃ c, tryParseTimeCondition (range_text f tz (js "||") s e) = Some c ∧
    tryParseTimeCondition (range_text f tz (js "&&") s e) = Some c ∧
    buildTimeConditionExpr c = range_text f tz (if overnight s e then js "||" else js "&&") s e.
Proof.
  intros Htz Hs He. exists (mkTimeRule f tz MATCH_RANGE [] s e). split_and!.
  - apply read_range; [done..|]. set_solver.
  - apply read_range; [done..|]. set_solver.
  - apply (build_readable (OnTime (mkTimeRule f tz MATCH_RANGE [] s e))). by apply readable_range.
Qed.

Example range_operator_lost_witness :
  (overnight (js "9") (js "12") = false ∧ plain (js "UTC")) ∧
  ∃ c, tryParseTimeCondition (range_text tf_hour (js "UTC") (js "||") (js "9") (js "12")) = Some c ∧
    tryParseTimeCondition (range_text tf_hour (js "UTC") (js "&&") (js "9") (js "12")) = Some c ∧
    buildTimeConditionExpr c = range_text tf_hour (js "UTC") (js "&&") (js "9") (js "12").
Proof.
  split; [split; [by vm_compute|done]|].
  refine (range_operator_lost tf_hour (js "UTC") (js "9") (js "12") _ _ _); by vm_compute.
Defined.
