(* ===== verification/TaskDisplay.v ===== *)
(** * billing-expression/task-display.ts

    Task prices that depend on declared categories and on the time: conditions
    resolved under assumed facts, prices as linear branches, and one row per
    combination of facts and branch. The step counter of the shared context is
    passed as state. *)

From S2P Require Import Prelude JsNumber JsText Types Parser Compile Runtime Display.

Record PriceBranch := mkBranch {
  branch_label : option jsstring;
  branch_constant : num;
  branch_prices : list (jsstring * num);
  branch_times : list (jsstring * bool)
}.

Definition MAX_DISPLAY_ROWS : nat := 128.

(** A condition is decided, or it is the text of a condition on the time. *)
Inductive display_condition :=
  | Decided (b : bool)
  | Pending (text : jsstring).

(** Computations that count down [context.remaining]. *)
Abbreviation counted A := (Z → A * Z).
Definition null {A} : counted (option A) := λ r, (None, r).
Definition known {A} (a : A) : counted (option A) := λ r, (Some a, r).
Definition spend {A} (m : counted (option A)) : counted (option A) := λ r,
  let r := (r - 1)%Z in if (r <? 0)%Z then (None, r) else m r.
(** The next step, unless the first gave [null]. *)
Definition then_ {A B} (m : counted (option A)) (k : A → counted (option B)) : counted (option B) :=
  λ r, let '(a, r) := m r in match a with Some a => k a r | None => (None, r) end.
(** Both steps, and then their results unless one is [null]. *)
Definition both {A B C} (m : counted (option A)) (n : counted (option B))
    (k : A → B → option C) : counted (option C) := λ r,
  let '(a, r) := m r in
  let '(b, r) := n r in
  (match a, b with Some a, Some b => k a b | _, _ => None end, r).

(** [new Map(entries)]: a later entry replaces the value of an earlier one. *)
Definition new_map {A} (entries : list (jsstring * A)) : list (jsstring * A) :=
  foldl (λ m e, map_set m e.1 e.2) [] entries.
(** [{ ...obj, [k]: v }]. *)
Definition obj_define {A} (obj : list (jsstring * A)) (k : jsstring) (v : A) : list (jsstring * A) :=
  match own obj k with
  | Some _ => map_set obj k v
  | None => obj_insert obj k v
  end.
(** [new Set(items)]. *)
Definition new_set (items : list jsstring) : list jsstring :=
  foldl (λ set x, if str_in x set then set else set ++ [x]) [] items.

(** [prices[field] ?? 0]. A property that every object inherits is not a
    number; what is computed from it is not finite either, as from [nan]. *)
Definition read_price (prices : list (jsstring * num)) (field : jsstring) : num :=
  match own prices field with
  | Some price => price
  | None => if str_in field inherited_properties then nan else zero
  end.

(** [Number.isFinite(value) && value >= 0]. *)
Definition is_amount (v : num) : bool := is_finite v && num_leb zero v.

Section Display.
Context (source : jsstring) (schema : BillingUsageSchema).

Section Facts.
(** Facts are texts and booleans. *)
Context (facts : list (jsstring * literal_value)).

(** [u(key)] against a literal. *)
Definition usage_probe (probe literal : ExpressionNode) : option (jsstring * literal_value) :=
  match probe, literal with
  | Call f (Literal (LString key) _ _ _ :: _) _ _, Literal value _ _ _ =>
      if f =s js "u" then Some (key, value) else None
  | _, _ => None
  end.

Definition usage_condition (operator key : jsstring) (literal : literal_value) : option bool :=
  fact ← own facts key;
  let definition := own schema key in
  let compared :=
    let equal := bool_decide (fact = literal) in
    Some (if operator =s js "==" then equal else negb equal) in
  if bool_decide ((definition ≫= field_type) = Some type_boolean) then
    match literal with LBoolean _ => compared | _ => None end
  else
    match literal with
    | LString s =>
        if str_in s (default [] (definition ≫= field_enum)) then compared
        else Some (operator =s js "!=")
    | _ => None
    end.

Definition is_call (node : ExpressionNode) : bool :=
  match node with Call _ _ _ _ => true | _ => false end.
Definition time_operand (part : ExpressionNode) : bool :=
  match part with
  | Literal (LNumber _) _ _ _ => true
  | Call f (Literal (LString zone) _ _ _ :: _) _ _ =>
      str_in f TIME_FUNCTIONS && negb (trim zone =s js "Local")
  | _ => false
  end.

Definition combine (operator : jsstring) (lhs rhs : display_condition) : display_condition :=
  let shortCircuit := operator =s js "||" in
  match lhs, rhs with
  | Decided l, Decided r =>
      if Bool.eqb l shortCircuit || Bool.eqb r shortCircuit then Decided shortCircuit
      else Decided r
  | Decided l, Pending _ => if Bool.eqb l shortCircuit then Decided shortCircuit else rhs
  | Pending _, Decided r => if Bool.eqb r shortCircuit then Decided shortCircuit else lhs
  | Pending l, Pending r =>
      Pending (js "(" ++ l ++ js ") " ++ operator ++ js " (" ++ r ++ js ")")
  end.

(** A comparison: of a usage field, or of times and numbers. *)
Definition comparison (node : ExpressionNode) (operator : jsstring) (lhs rhs : ExpressionNode)
    : option display_condition :=
  let timed :=
    if str_in operator comparisons && (is_call lhs || is_call rhs)
       && (time_operand lhs && time_operand rhs)
    then Some (Pending (slice source (node_start node) (node_end node))) else None in
  if str_in operator [js "=="; js "!="] then
    match usage_probe lhs rhs with
    | Some (key, literal) => b ← usage_condition operator key literal; Some (Decided b)
    | None =>
        match usage_probe rhs lhs with
        | Some (key, literal) => b ← usage_condition operator key literal; Some (Decided b)
        | None => timed
        end
    end
  else timed.

Fixpoint taskDisplayCondition (node : ExpressionNode) : counted (option display_condition) :=
  spend
    match node with
    | Literal (LBoolean b) _ _ _ => known (Decided b)
    | Unary operator operand _ _ =>
        if operator =s js "!" then
          then_ (taskDisplayCondition operand) (λ value,
            known (match value with
                   | Decided b => Decided (negb b)
                   | Pending text => Pending (js "!(" ++ text ++ js ")")
                   end))
        else null
    | Binary operator lhs rhs _ _ =>
        if (operator =s js "&&") || (operator =s js "||") then
          both (taskDisplayCondition lhs) (taskDisplayCondition rhs)
            (λ l r, Some (combine operator l r))
        else λ r, (comparison node operator lhs rhs, r)
    | _ => null
    end.

(** ** taskPriceBranches *)
Definition conflicts (times : list (jsstring * bool)) (key : jsstring) (value : bool) : bool :=
  match own times key with Some v => negb (Bool.eqb v value) | None => false end.

(** The children of one side of a time condition that do not contradict it. *)
Definition timed_branches (condition : jsstring) (matches : bool) (children : list PriceBranch)
    : list PriceBranch :=
  map (λ child, mkBranch (branch_label child) (branch_constant child) (branch_prices child)
                  (new_map ((condition, matches) :: branch_times child)))
    (List.filter (λ child, negb (conflicts (branch_times child) condition matches)) children).

Definition is_empty {A} (l : list A) : bool := match l with [] => true | _ => false end.

(** The constant and the prices of [a operator b]; [None] is the [null] of
    a product of two quantities or of a division by a quantity. *)
Definition pair_amounts (operator : jsstring) (a b : PriceBranch)
    : option (num * list (jsstring * num)) :=
  let aQuantity := negb (is_empty (branch_prices a)) in
  let bQuantity := negb (is_empty (branch_prices b)) in
  if operator =s js "+" then
    Some (num_add (branch_constant a) (branch_constant b),
          foldl (λ prices field,
                   obj_set prices field
                     (num_add (read_price (branch_prices a) field)
                        (read_price (branch_prices b) field)))
            [] (new_set (map fst (branch_prices a) ++ map fst (branch_prices b))))
  else
    let divides := operator =s js "/" in
    if (aQuantity && bQuantity)
       || (divides && (bQuantity || num_leb (branch_constant b) zero))
    then None
    else
      let quantity := if aQuantity then a else b in
      let factor :=
        if divides then num_div (num_of_Z 1) (branch_constant b)
        else if aQuantity then branch_constant b else branch_constant a in
      let constant :=
        if divides then num_div (branch_constant a) (branch_constant b)
        else num_mul (branch_constant a) (branch_constant b) in
      Some (constant,
            foldl (λ prices entry, obj_set prices entry.1 (num_mul entry.2 factor))
              [] (branch_prices quantity)).

(** One iteration: [None] ends the reading, an empty list is [continue]. *)
Definition pair_branch (operator : jsstring) (a b : PriceBranch) : option (list PriceBranch) :=
  match branch_label a, branch_label b with
  | Some _, Some _ => None
  | la, lb =>
      if existsb (λ '(key, value), conflicts (branch_times b) key value) (branch_times a)
      then Some []
      else
        '(constant, prices) ← pair_amounts operator a b;
        if forallb is_amount (constant :: map snd prices) then
          Some [mkBranch (match la with Some _ => la | None => lb end) constant prices
                  (new_map (branch_times a ++ branch_times b))]
        else None
  end.

Definition product_branches (operator : jsstring) (lhs rhs : list PriceBranch)
    : option (list PriceBranch) :=
  if MAX_DISPLAY_ROWS <? length lhs * length rhs then None
  else
    found ← map_option (λ '(a, b), pair_branch operator a b)
              (flat_map (λ a, map (pair a) rhs) lhs);
    Some (List.concat found).

Definition usage_branch (field : jsstring) : option (list PriceBranch) :=
  match own schema field with
  | Some definition =>
      if bool_decide (field_type definition = Some type_number)
         && bool_decide (is_Some (field_unit definition))
      then Some [mkBranch None zero [(field, num_of_Z 1)] []] else None
  | None => None
  end.

Definition label_branches (label : jsstring) (branches : list PriceBranch)
    : option (list PriceBranch) :=
  if existsb (λ branch, bool_decide (is_Some (branch_label branch))) branches then None
  else
    Some (map (λ branch, mkBranch (Some label) (branch_constant branch) (branch_prices branch)
                           (branch_times branch)) branches).

Fixpoint taskPriceBranches (node : ExpressionNode) : counted (option (list PriceBranch)) :=
  spend
    match node with
    | Literal (LNumber v) _ _ _ =>
        if num_leb zero v then known [mkBranch None v [] []] else null
    | Call name args _ _ =>
        match args with
        | Literal (LString text) _ _ _ :: rest =>
            if name =s js "u" then λ r, (usage_branch text, r)
            else if name =s js "tier" then
              match rest with
              | body :: _ =>
                  then_ (taskPriceBranches body) (λ branches r, (label_branches text branches, r))
              | [] => null
              end
            else null
        | _ => null
        end
    | Conditional condition yes no _ _ =>
        then_ (taskDisplayCondition condition) (λ condition,
          match condition with
          | Decided b => taskPriceBranches (if b then yes else no)
          | Pending text =>
              then_ (taskPriceBranches yes) (λ yes,
              then_ (taskPriceBranches no) (λ no r,
                let branches := timed_branches text true yes ++ timed_branches text false no in
                (if length branches <=? MAX_DISPLAY_ROWS then Some branches else None, r)))
          end)
    | Binary operator lhs rhs _ _ =>
        if str_in operator [js "+"; js "*"; js "/"] then
          both (taskPriceBranches lhs) (taskPriceBranches rhs) (product_branches operator)
        else null
    | _ => null
    end.
End Facts.
End Display.

(** ** readConditionalTaskPricing *)

(** The visitor: the usage fields met, and whether all are in the schema. *)
Definition usage_visitor (schema : BillingUsageSchema) (node : ExpressionNode)
    : stateR (list jsstring * bool) unit :=
  match node with
  | Call name args _ _ =>
      if name =s js "u" then
        match args with
        | Literal (LString key) _ _ _ :: _ =>
            match own schema key with
            | Some _ => modify_st (λ '(fields, valid),
                (if str_in key fields then fields else fields ++ [key], valid))
            | None => modify_st (λ '(fields, _), (fields, false))
            end
        | _ => modify_st (λ '(fields, _), (fields, false))
        end
      else mret tt
  | _ => mret tt
  end.

(** The values a field is displayed under; [None] is a number field. *)
Definition category_values (definition : option BillingUsageFieldSchema)
    : option (list literal_value) :=
  match definition ≫= field_type with
  | Some type_number => None
  | Some type_boolean => Some [LBoolean false; LBoolean true]
  | None => Some (map LString (default [] (definition ≫= field_enum)))
  end.

Abbreviation Facts := (list (jsstring * literal_value)).

Fixpoint fact_combinations (schema : BillingUsageSchema) (fields : list jsstring)
    (combinations : list Facts) : option (list Facts) :=
  match fields with
  | [] => Some combinations
  | field :: fields =>
      match category_values (own schema field) with
      | None => fact_combinations schema fields combinations
      | Some values =>
          if is_empty values || (MAX_DISPLAY_ROWS <? length combinations * length values) then None
          else
            fact_combinations schema fields
              (flat_map (λ facts, map (obj_define facts field) values) combinations)
      end
  end.

(** The [unitPrices] of a branch: actual units, and a million tokens. *)
Definition unit_prices (schema : BillingUsageSchema) (fields : list jsstring)
    (branch : PriceBranch) : list (jsstring * num) :=
  foldl (λ unitPrices field,
    let definition := own schema field in
    match definition ≫= field_type, definition ≫= field_unit with
    | Some type_number, Some unit =>
        obj_set unitPrices field
          (num_mul (read_price (branch_prices branch) field)
             (num_of_Z (if bool_decide (unit = unit_usage_token) then 1000000 else 1)))
    | _, _ => unitPrices
    end) [] fields.

Definition describe_times (times : list (jsstring * bool)) : jsstring :=
  join (js " && ")
    (map (λ '(condition, matches),
       if matches : bool then js "(" ++ condition ++ js ")" else js "!(" ++ condition ++ js ")") times).

(** [String(value)] of a fact. *)
Definition fact_text (value : literal_value) : jsstring :=
  match value with
  | LString s => s
  | LBoolean b => if b then js "true" else js "false"
  | LNumber n => num_to_string n
  | LNull => js "null"
  end.

Definition display_row (schema : BillingUsageSchema) (fields : list jsstring) (facts : Facts)
    (branch : PriceBranch) : option TaskTier :=
  label ← branch_label branch;
  let unitPrices := unit_prices schema fields branch in
  if is_empty unitPrices || negb (forallb is_finite (map snd unitPrices)) then None
  else
    Some (mkTaskTier
            (let text := describe_times (branch_times branch) in
             if text =s [] then None else Some text)
            label (map (λ '(field, value), (field, fact_text value)) facts)
            (branch_constant branch) unitPrices).

(** The loop over the combinations; the step counter runs on. *)
Fixpoint display_rows (source : jsstring) (schema : BillingUsageSchema) (ast : ExpressionNode)
    (fields : list jsstring) (combinations : list Facts) (remaining : Z) (tiers : list TaskTier)
    : option (list TaskTier) :=
  match combinations with
  | [] => Some tiers
  | facts :: combinations =>
      let '(branches, remaining) := taskPriceBranches source schema facts ast remaining in
      branches ← branches;
      if MAX_DISPLAY_ROWS <? length tiers + length branches then None
      else
        rows ← map_option (display_row schema fields facts) branches;
        display_rows source schema ast fields combinations remaining (tiers ++ rows)
  end.

Definition display_budget : Z := 20000.

Definition readConditionalTaskPricing (source : jsstring) (schema : BillingUsageSchema)
    : result (option (list TaskTier)) :=
  match compile_source source with
  | CompileFailed _ => Ok None
  | Ready compiled =>
      '(_, (fields, valid)) ← visitExpression (usage_visitor schema) (c_ast compiled) ([], true);
      Ok (if negb valid then None
          else
            combinations ← fact_combinations schema fields [[]];
            display_rows source schema (c_ast compiled) fields combinations display_budget [])
  end.

Definition example_schema : BillingUsageSchema :=
  [(js "seconds", plain_field (Some type_number) (Some unit_second) None);
   (js "resolution", plain_field None None (Some [js "720p"; js "1080p"]));
   (js "audio", plain_field (Some type_boolean) None None)].
Definition example_source : jsstring :=
  js "hour('UTC') < 8 ? tier('night', u('seconds') * (u('resolution') == '720p' ? 1 : 2)) : tier('day', u('seconds') * (u('audio') == true ? 0.5 : 3) + 1)".
Example example_rows :
  match readConditionalTaskPricing example_source example_schema with
  | Ok (Some rows) => map (λ row, (task_label row, map snd (task_conditions row))) rows
  | _ => []
  end =
  flat_map (λ facts, [(js "night", facts); (js "day", facts)])
    [[js "720p"; js "false"]; [js "720p"; js "true"]; [js "1080p"; js "false"]; [js "1080p"; js "true"]].
Proof. vm_compute. reflexivity. Qed.
