(* ===== verification/TaskDisplayFacts.v ===== *)
(** * The rows of a conditional task price

    For every truth assignment to the conditions on the time, exactly one branch
    of the table applies; its label, constant and prices are the amounts that
    the relation [priced] gives the expression, written apart from the code; and
    its label is the tier the interpreter ends with. *)

From S2P Require Import Prelude JsNumber JsText Types Parser ParserFacts Compile CompileFacts.
From S2P Require Import Runtime RuntimeFacts RuntimeTheorems Display DisplayFacts TaskDisplay.

(** ** Maps of conditions *)

(** The keys determine the values. *)
Definition functional {A} (l : list (jsstring * A)) : Prop :=
  ∀ k v v', (k, v) ∈ l → (k, v') ∈ l → v = v'.

Lemma functional_incl {A} (l l' : list (jsstring * A)) :
  functional l' → (∀ e, e ∈ l → e ∈ l') → functional l.
Proof. intros Hf Hi k v v' Hv Hv'. by apply (Hf k); apply Hi. Qed.

Lemma map_set_elem {A} (m : list (jsstring * A)) k v e :
  functional ((k, v) :: m) → e ∈ map_set m k v ↔ e = (k, v) ∨ e ∈ m.
Proof.
  induction m as [|[k' v'] m IH]; intros Hf; simpl; [set_solver|].
  destruct (k' =s k) eqn:E.
  - apply str_eqb_eq in E as ->. assert (v' = v) as -> by (eapply (Hf k); set_solver). set_solver.
  - rewrite elem_of_cons, IH; [set_solver|]. eapply functional_incl; [exact Hf|set_solver].
Qed.

Lemma new_map_elem {A} (l : list (jsstring * A)) e : functional l → e ∈ new_map l ↔ e ∈ l.
Proof.
  unfold new_map. intros Hf.
  assert (∀ l m, functional (m ++ l) →
    e ∈ foldl (λ m e, map_set m e.1 e.2) m l ↔ e ∈ m ∨ e ∈ l) as H.
  { clear. induction l as [|[k v] l IH]; intros m Hf; simpl; [set_solver|].
    assert (functional ((k, v) :: m)) as Hf' by (eapply functional_incl; [exact Hf|set_solver]).
    rewrite IH.
    - rewrite map_set_elem by done. set_solver.
    - eapply functional_incl; [exact Hf|]. intros e0 [He|He]%elem_of_app; [|set_solver].
      apply map_set_elem in He as [->|He]; [set_solver|set_solver|done]. }
  rewrite H by done. set_solver.
Qed.

Lemma new_map_functional {A} (l : list (jsstring * A)) : functional l → functional (new_map l).
Proof. intros Hf. eapply functional_incl; [exact Hf|]. intros e. by rewrite new_map_elem. Qed.

Lemma own_functional {A} (l : list (jsstring * A)) k v :
  functional l → (k, v) ∈ l → own l k = Some v.
Proof.
  intros Hf Hin. destruct (own l k) as [v'|] eqn:E.
  - apply own_Some_elem in E. by rewrite (Hf k v v').
  - apply own_None_notin in E. destruct E. apply (list_elem_of_fmap_2 fst) in Hin. exact Hin.
Qed.

Lemma conflicts_functional times k v :
  functional times → conflicts times k v = false → functional ((k, v) :: times).
Proof.
  intros Hf Hc.
  assert (∀ v', (k, v') ∈ times → v' = v) as Hk.
  { intros v' Hin. unfold conflicts in Hc. rewrite (own_functional _ _ _ Hf Hin) in Hc.
    apply negb_false_iff, eqb_prop in Hc. done. }
  intros k' v1 v2 H1 H2. apply elem_of_cons in H1 as [[= -> ->]|H1]; apply elem_of_cons in H2 as [H2|H2].
  - by injection H2.
  - symmetry. by apply Hk.
  - injection H2 as -> ->. by apply Hk.
  - by apply (Hf k').
Qed.

(** ** Truth assignments *)
Section Assignment.
Context (truth : jsstring → bool).

Definition applies (times : list (jsstring * bool)) : bool :=
  forallb (λ '(condition, matches), Bool.eqb (truth condition) matches) times.

Lemma applies_elem times : applies times = true ↔ ∀ k v, (k, v) ∈ times → truth k = v.
Proof.
  unfold applies. rewrite forallb_forall. split.
  - intros H k v Hin%list_elem_of_In. by apply H, eqb_prop in Hin.
  - intros H [k v] Hin%list_elem_of_In. rewrite (H k v Hin). apply eqb_reflx.
Qed.

Lemma applies_app l l' : applies (l ++ l') = applies l && applies l'.
Proof. apply forallb_app. Qed.

Lemma applies_new_map l : functional l → applies (new_map l) = applies l.
Proof.
  intros Hf. apply eq_true_iff_eq. rewrite !applies_elem.
  setoid_rewrite (λ e, new_map_elem l e Hf). done.
Qed.

Lemma applies_conflict times k v :
  functional times → conflicts times k v = true → truth k = v → applies times = false.
Proof.
  unfold conflicts. intros Hf Hc Hk. destruct (own times k) as [v'|] eqn:E; [|done].
  apply not_true_iff_false. rewrite applies_elem. intros H. apply own_Some_elem in E.
  rewrite (H _ _ E) in Hk. subst. by rewrite eqb_reflx in Hc.
Qed.

Definition applicable (branches : list PriceBranch) : list PriceBranch :=
  List.filter (λ branch, applies (branch_times branch)) branches.

Definition well_timed (branches : list PriceBranch) : Prop :=
  Forall (λ branch, functional (branch_times branch)) branches.

(** The branch after a time condition. *)
Definition under (condition : jsstring) (matches : bool) (child : PriceBranch) : PriceBranch :=
  mkBranch (branch_label child) (branch_constant child) (branch_prices child)
    (new_map ((condition, matches) :: branch_times child)).

Lemma timed_well condition matches children :
  well_timed children → well_timed (timed_branches condition matches children).
Proof.
  unfold well_timed, timed_branches. rewrite !Forall_forall. intros H b.
  rewrite list_elem_of_fmap. intros (child & -> & Hin). apply list_elem_of_In, filter_In in Hin as [Hin Hc].
  simpl. apply new_map_functional, conflicts_functional; [apply H; by apply list_elem_of_In|].
  by apply negb_true_iff in Hc.
Qed.

Lemma timed_applicable condition matches children :
  well_timed children →
  applicable (timed_branches condition matches children) =
  if Bool.eqb (truth condition) matches then map (under condition matches) (applicable children) else [].
Proof.
  unfold timed_branches, applicable. induction children as [|child children IH]; intros Hw.
  { by destruct (Bool.eqb _ _). }
  apply Forall_cons in Hw as [Hf Hw]. specialize (IH Hw). cbn [List.filter].
  destruct (conflicts (branch_times child) condition matches) eqn:Hc; cbn [negb].
  - rewrite IH. destruct (Bool.eqb (truth condition) matches) eqn:Et; [|done].
    apply eqb_prop in Et. by rewrite (applies_conflict _ _ _ Hf Hc Et).
  - cbn [map List.filter branch_times].
    rewrite applies_new_map by (by apply conflicts_functional). cbn [applies forallb].
    fold (applies (branch_times child)). rewrite IH.
    destruct (Bool.eqb (truth condition) matches); cbn [andb]; [|done].
    by destruct (applies (branch_times child)).
Qed.
End Assignment.

(** ** Counted computations *)
Lemma spend_Some {A} (m : counted (option A)) r a r' :
  spend m r = (Some a, r') → ∃ r0, m r0 = (Some a, r').
Proof. unfold spend. destruct (_ <? 0)%Z; [done|]. eauto. Qed.
Lemma then_Some {A B} (m : counted (option A)) (k : A → counted (option B)) r b r' :
  then_ m k r = (Some b, r') → ∃ a r1, m r = (Some a, r1) ∧ k a r1 = (Some b, r').
Proof. unfold then_. destruct (m r) as [[a|] r1]; [eauto|done]. Qed.
Lemma both_Some {A B C} (m : counted (option A)) (n : counted (option B)) (k : A → B → option C) r c r' :
  both m n k r = (Some c, r') →
  ∃ a r1 b, m r = (Some a, r1) ∧ n r1 = (Some b, r') ∧ k a b = Some c.
Proof.
  unfold both. destruct (m r) as [a r1] eqn:E1. destruct (n r1) as [b r2] eqn:E2.
  destruct a as [a|], b as [b|]; try done. intros [= <- <-]. eauto 10.
Qed.

(** ** Following the expression *)

(** The value of a condition under a truth assignment. *)
Definition resolve (truth : jsstring → bool) (d : display_condition) : bool :=
  match d with Decided b => b | Pending text => truth text end.

Definition first_label (a b : option jsstring) : option jsstring :=
  match a with Some _ => a | None => b end.

Section Rows.
Context (source : jsstring) (schema : BillingUsageSchema) (facts : list (jsstring * literal_value)).
Context (truth : jsstring → bool).
Abbreviation condition := (taskDisplayCondition source schema facts).

(** The label, the constant and the prices that the expression has when its
    conditions take the values of the assignment. *)
Inductive followed : ExpressionNode → option jsstring → num → list (jsstring * num) → Prop :=
  | followed_literal v i s e :
      num_leb zero v = true → followed (Literal (LNumber v) i s e) None v []
  | followed_usage field i p q rest s e b :
      usage_branch schema field = Some [b] →
      followed (Call (js "u") (Literal (LString field) i p q :: rest) s e) None
        (branch_constant b) (branch_prices b)
  | followed_tier name i p q body rest s e k prices :
      followed body None k prices →
      followed (Call (js "tier") (Literal (LString name) i p q :: body :: rest) s e) (Some name) k prices
  | followed_conditional c y n s e r d r' lbl k prices :
      condition c r = (Some d, r') →
      followed (if resolve truth d then y else n) lbl k prices →
      followed (Conditional c y n s e) lbl k prices
  | followed_binary op l r s e la ka pa lb kb pb k prices :
      str_in op [js "+"; js "*"; js "/"] = true →
      followed l la ka pa → followed r lb kb pb → (la = None ∨ lb = None) →
      pair_amounts op (mkBranch la ka pa []) (mkBranch lb kb pb []) = Some (k, prices) →
      forallb is_amount (k :: map snd prices) = true →
      followed (Binary op l r s e) (first_label la lb) k prices.

(** ** Products of branches *)
Lemma pair_branch_applicable op a b l :
  functional (branch_times a) → functional (branch_times b) → pair_branch op a b = Some l →
  well_timed l ∧
  (applies truth (branch_times a) && applies truth (branch_times b) = false → applicable truth l = []) ∧
  (applies truth (branch_times a) && applies truth (branch_times b) = true →
    ∃ k prices, (branch_label a = None ∨ branch_label b = None) ∧
      pair_amounts op a b = Some (k, prices) ∧ forallb is_amount (k :: map snd prices) = true ∧
      applicable truth l = [mkBranch (first_label (branch_label a) (branch_label b)) k prices
                             (new_map (branch_times a ++ branch_times b))]).
Proof.
  intros Ha Hb Hp.
  assert (Hlab : branch_label a = None ∨ branch_label b = None).
  { unfold pair_branch in Hp. destruct (branch_label a), (branch_label b); [discriminate|auto..]. }
  assert (Hp' : (if existsb (λ '(key, v), conflicts (branch_times b) key v) (branch_times a)
    then Some []
    else '(constant, prices) ← pair_amounts op a b;
      if forallb is_amount (constant :: map snd prices) then
        Some [mkBranch (first_label (branch_label a) (branch_label b)) constant prices
                (new_map (branch_times a ++ branch_times b))]
      else None) = Some l).
  { unfold pair_branch in Hp. destruct (branch_label a), (branch_label b); try done; by destruct Hlab. }
  clear Hp. destruct (existsb _ _) eqn:Hc.
  - injection Hp' as <-. split; [constructor|]. split; [done|]. intros Hab. exfalso.
    apply existsb_exists in Hc as ([k v] & Hin%list_elem_of_In & Hkv). apply andb_true_iff in Hab as [H1 H2].
    rewrite applies_elem in H1.
    by rewrite (applies_conflict truth _ _ _ Hb Hkv (H1 _ _ Hin)) in H2.
  - destruct (pair_amounts op a b) as [[k prices]|]; [|done]. cbn [mbind option_bind] in Hp'.
    destruct (forallb is_amount _) eqn:Hf; [|done]. injection Hp' as <-.
    assert (Hno : ∀ key v, (key, v) ∈ branch_times a → functional ((key, v) :: branch_times b)).
    { intros key v Hin. apply conflicts_functional; [done|]. apply not_true_iff_false. intros Ht.
      apply not_true_iff_false in Hc. destruct Hc. apply existsb_exists. exists (key, v).
      split; [by apply list_elem_of_In|done]. }
    assert (functional (branch_times a ++ branch_times b)) as Hfun.
    { intros key v v' H1 H2. apply elem_of_app in H1 as [H1|H1]; apply elem_of_app in H2 as [H2|H2].
      - by apply (Ha key).
      - apply (Hno _ _ H1 key); [by left|by right].
      - apply (Hno _ _ H2 key); [by right|by left].
      - by apply (Hb key). }
    split; [constructor; [by apply new_map_functional|constructor]|].
    unfold applicable. cbn [List.filter branch_times].
    rewrite applies_new_map, applies_app by done.
    split; [by intros ->|]. intros ->. by exists k, prices.
Qed.

Lemma filter_product {A B} (f : A → bool) (g : B → bool) la lb :
  List.filter (λ '(a, b), f a && g b) (flat_map (λ a, map (pair a) lb) la) =
  flat_map (λ a, map (pair a) (List.filter g lb)) (List.filter f la).
Proof.
  induction la as [|a la IH]; [done|]. cbn [flat_map List.filter]. rewrite List.filter_app, IH.
  assert (List.filter (λ '(a, b), f a && g b) (map (pair a) lb) =
    if f a then map (pair a) (List.filter g lb) else []) as ->.
  { clear IH. induction lb as [|b lb IHb]; [by destruct (f a)|]. cbn [map List.filter]. rewrite IHb.
    destruct (f a); [|done]. cbn [andb]. by destruct (g b). }
  by destruct (f a).
Qed.

Lemma map_option_Forall2 {A B} (f : A → option B) l ys :
  map_option f l = Some ys → Forall2 (λ x y, f x = Some y) l ys.
Proof.
  revert ys. induction l as [|x l IH]; intros ys Hl; simpl in Hl; [injection Hl as <-; constructor|].
  destruct (f x) as [y|] eqn:E; [|done]. simpl in Hl.
  destruct (map_option f l) as [zs|]; [|done]. injection Hl as <-. constructor; [done|by apply IH].
Qed.

(** One applicable branch on each side gives one applicable product. *)
Lemma product_applicable op lhs rhs branches a b :
  well_timed lhs → well_timed rhs →
  applicable truth lhs = [a] → applicable truth rhs = [b] →
  product_branches op lhs rhs = Some branches →
  well_timed branches ∧ ∃ k prices,
    (branch_label a = None ∨ branch_label b = None) ∧
    pair_amounts op a b = Some (k, prices) ∧ forallb is_amount (k :: map snd prices) = true ∧
    ∃ times, applicable truth branches =
      [mkBranch (first_label (branch_label a) (branch_label b)) k prices times].
Proof.
  intros Hl Hr Ha Hb Hp. unfold product_branches in Hp. destruct (_ <? _); [done|].
  destruct (map_option _ _) as [found|] eqn:Hm; [|done]. injection Hp as <-.
  apply map_option_Forall2 in Hm.
  set (sel := λ '((x, y) : PriceBranch * PriceBranch),
    applies truth (branch_times x) && applies truth (branch_times y)).
  assert (List.filter sel (flat_map (λ x, map (pair x) rhs) lhs) = [(a, b)]) as Hsel.
  { unfold sel. rewrite filter_product. unfold applicable in Ha, Hb. by rewrite Ha, Hb. }
  assert (Forall (λ '(x, y), functional (branch_times x) ∧ functional (branch_times y))
    (flat_map (λ x, map (pair x) rhs) lhs)) as Hfun.
  { apply Forall_forall. intros [x y] Hin. apply list_elem_of_In, in_flat_map in Hin as (x' & Hx & Hy).
    apply in_map_iff in Hy as (y' & [= -> ->] & Hy). unfold well_timed in *.
    rewrite Forall_forall in Hl, Hr. split; [apply Hl|apply Hr]; by apply list_elem_of_In. }
  clear Hl Hr Ha Hb. revert Hm Hsel Hfun. generalize (flat_map (λ x, map (pair x) rhs) lhs) as pairs.
  clear lhs rhs. intros pairs Hm.
  assert (Hzero : ∀ pairs found,
    Forall2 (λ p l, (let '(x, y) := p in pair_branch op x y) = Some l) pairs found →
    Forall (λ '(x, y), functional (branch_times x) ∧ functional (branch_times y)) pairs →
    well_timed (List.concat found) ∧
    (List.filter sel pairs = [] → applicable truth (List.concat found) = [])).
  { clear. induction 1 as [|[x y] l pairs found Hxy _ IH]; intros Hf; [split; [constructor|done]|].
    apply Forall_cons in Hf as [[Hx Hy] Hf]. destruct (IH Hf) as [Hw Hz].
    destruct (pair_branch_applicable _ _ _ _ Hx Hy Hxy) as (Hw' & Hno & _).
    split; [by apply Forall_app|]. cbn [List.filter List.concat]. unfold applicable in *.
    rewrite List.filter_app. unfold sel at 1. destruct (_ && _); [done|]. intros Hs.
    by rewrite (Hno eq_refl), (Hz Hs). }
  induction Hm as [|[x y] l pairs found Hxy Hm IH]; [done|]. intros Hsel Hfun.
  apply Forall_cons in Hfun as [[Hx Hy] Hf]. destruct (Hzero _ _ Hm Hf) as [Hw Hz].
  destruct (pair_branch_applicable _ _ _ _ Hx Hy Hxy) as (Hw' & Hno & Hyes).
  split; [by apply Forall_app|]. cbn [List.filter List.concat] in *. unfold applicable in *.
  rewrite List.filter_app. unfold sel at 1 in Hsel. destruct (applies _ _ && applies _ _).
  - injection Hsel as -> -> Hrest. destruct (Hyes eq_refl) as (k & prices & Hlab & Hk & Ham & Happ).
    exists k, prices. split_and!; [done|done|done|]. rewrite Happ, (Hz Hrest). eauto.
  - destruct (IH Hsel Hf) as [_ (k & prices & H1 & H2 & H3 & times & H4)].
    exists k, prices. split_and!; [done|done|done|]. exists times. by rewrite (Hno eq_refl), H4.
Qed.

Lemma pair_amounts_fields op a b :
  pair_amounts op (mkBranch (branch_label a) (branch_constant a) (branch_prices a) [])
    (mkBranch (branch_label b) (branch_constant b) (branch_prices b) []) = pair_amounts op a b.
Proof. destruct a as [la ka pa ta], b as [lb kb pb tb]. unfold pair_amounts. simpl. by destruct pa, pb. Qed.

Lemma label_branches_applicable name bs bs' b :
  label_branches name bs = Some bs' → well_timed bs → applicable truth bs = [b] →
  well_timed bs' ∧ branch_label b = None ∧
  applicable truth bs' = [mkBranch (Some name) (branch_constant b) (branch_prices b) (branch_times b)].
Proof.
  unfold label_branches. destruct (existsb _ _) eqn:He; [done|]. intros [= <-] Hw Hb.
  split; [|split].
  - unfold well_timed in *. rewrite Forall_map. eapply Forall_impl; [exact Hw|done].
  - assert (In b (applicable truth bs)) as Hin by (rewrite Hb; by left).
    apply filter_In in Hin as [Hin _]. destruct (branch_label b) as [t|] eqn:Et; [|done].
    apply not_true_iff_false in He. destruct He. apply existsb_exists. exists b. split; [done|].
    rewrite Et. done.
  - unfold applicable in *.
    assert (∀ bs, List.filter (λ branch, applies truth (branch_times branch))
      (map (λ x, mkBranch (Some name) (branch_constant x) (branch_prices x) (branch_times x)) bs) =
      map (λ x, mkBranch (Some name) (branch_constant x) (branch_prices x) (branch_times x))
        (List.filter (λ branch, applies truth (branch_times branch)) bs)) as ->; [|by rewrite Hb].
    clear. induction bs as [|x bs IH]; [done|]. cbn [map List.filter branch_times].
    rewrite IH. by destruct (applies truth (branch_times x)).
Qed.

Lemma usage_branch_single field bs :
  usage_branch schema field = Some bs →
  bs = [mkBranch None zero [(field, num_of_Z 1)] []].
Proof.
  unfold usage_branch. destruct (own schema field); [|done]. destruct (_ && _); [|done].
  by intros [= <-].
Qed.

(** Exactly one branch applies, and it is priced like the expression. *)
Lemma branches_applicable node r branches r' :
  taskPriceBranches source schema facts node r = (Some branches, r') →
  well_timed branches ∧ ∃ b, applicable truth branches = [b] ∧
    followed node (branch_label b) (branch_constant b) (branch_prices b).
Proof.
  revert r branches r'. induction node as [node IH] using node_induction.
  rewrite Forall_forall in IH. intros r branches r' Ht.
  destruct node as [[t|v|t|] i s e| |f args s e| |op lhs rhs s e|c y n s e];
    cbn [taskPriceBranches] in Ht; apply spend_Some in Ht as [r0 Ht]; try done.
  - destruct (num_leb zero v) eqn:Hv; [|done]. injection Ht as <- <-.
    split; [repeat constructor; intros ???; set_solver|]. eexists. split; [reflexivity|]. by constructor.
  - destruct args as [|[[text| | |] i p q| | | | |] rest]; try done.
    destruct (f =s js "u") eqn:Ef; [|destruct (f =s js "tier") eqn:Ef'; [|done]].
    + apply str_eqb_eq in Ef as ->. injection Ht as Hu <-.
      pose proof (usage_branch_single _ _ Hu) as ->.
      split; [repeat constructor; intros ???; set_solver|].
      eexists. split; [reflexivity|]. by apply followed_usage.
    + apply str_eqb_eq in Ef' as ->. destruct rest as [|body rest]; [done|].
      apply then_Some in Ht as (bs & r1 & Hb & Hl). injection Hl as Hl <-.
      destruct (IH body ltac:(simpl; set_solver) _ _ _ Hb) as (Hw & b & Happ & Hp).
      destruct (label_branches_applicable _ _ _ _ Hl Hw Happ) as (Hw' & Hn & Happ').
      split; [done|]. eexists. split; [exact Happ'|]. cbn. rewrite Hn in Hp. by constructor.
  - destruct (str_in op _) eqn:Hop; [|done].
    apply both_Some in Ht as (la & r1 & lb & Hl & Hr & Hp).
    destruct (IH lhs ltac:(simpl; set_solver) _ _ _ Hl) as (Hwl & a & Ha & Hpa).
    destruct (IH rhs ltac:(simpl; set_solver) _ _ _ Hr) as (Hwr & b & Hb & Hpb).
    destruct (product_applicable _ _ _ _ _ _ Hwl Hwr Ha Hb Hp) as (Hw & k & prices & Hlab & Hk & Ham & times & Happ).
    split; [done|]. eexists. split; [exact Happ|]. cbn.
    eapply followed_binary; [done|exact Hpa|exact Hpb|done|by rewrite pair_amounts_fields|done].
  - apply then_Some in Ht as (d & r1 & Hc & Ht).
    destruct d as [b|text].
    + destruct (IH (if b then y else n) ltac:(destruct b; simpl; set_solver) _ _ _ Ht) as (Hw & x & Happ & Hp).
      split; [done|]. exists x. split; [done|]. by eapply followed_conditional.
    + apply then_Some in Ht as (ys & r2 & Hy & Ht). apply then_Some in Ht as (ns & r3 & Hn & Ht).
      destruct (length _ <=? _); [|done]. injection Ht as <- <-.
      destruct (IH y ltac:(simpl; set_solver) _ _ _ Hy) as (Hwy & yb & Hay & Hpy).
      destruct (IH n ltac:(simpl; set_solver) _ _ _ Hn) as (Hwn & nb & Han & Hpn).
      split; [by apply Forall_app; split; apply timed_well|].
      assert (Happ : applicable truth (timed_branches text true ys ++ timed_branches text false ns) =
        [if truth text then under text true yb else under text false nb]).
      { unfold applicable. rewrite List.filter_app.
        change (applicable truth (timed_branches text true ys) ++ applicable truth (timed_branches text false ns) =
          [if truth text then under text true yb else under text false nb]).
        rewrite !timed_applicable, Hay, Han by done. by destruct (truth text). }
      eexists. split; [exact Happ|]. eapply followed_conditional; [exact Hc|]. simpl.
      by destruct (truth text).
Qed.
End Rows.

(** ** The meaning of an expression under a truth assignment

    Written without the code's own definitions: the truth of a condition from
    the facts and from the assumed truth of the comparisons with the time, and
    the amounts of an expression as rates per field. *)
Section Meaning.
Context (schema : BillingUsageSchema) (facts : list (jsstring * literal_value)).
Context (holds : ExpressionNode → bool).

(** [l == r] compares the field [key] with a literal. *)
Inductive compares : ExpressionNode → ExpressionNode → jsstring → literal_value → Prop :=
  | compares_left key i p q rest s e v j m k :
      compares (Call (js "u") (Literal (LString key) i p q :: rest) s e) (Literal v j m k) key v
  | compares_right key i p q rest s e v j m k :
      compares (Literal v j m k) (Call (js "u") (Literal (LString key) i p q :: rest) s e) key v.

Inductive decided : ExpressionNode → bool → Prop :=
  | decided_literal b i s e : decided (Literal (LBoolean b) i s e) b
  | decided_not x b s e : decided x b → decided (Unary (js "!") x s e) (negb b)
  | decided_and l r s e a b : decided l a → decided r b → decided (Binary (js "&&") l r s e) (a && b)
  | decided_or l r s e a b : decided l a → decided r b → decided (Binary (js "||") l r s e) (a || b)
  | decided_equal l r s e key v fact :
      compares l r key v → own facts key = Some fact → decided (Binary (js "==") l r s e) (bool_decide (fact = v))
  | decided_differs l r s e key v fact :
      compares l r key v → own facts key = Some fact → decided (Binary (js "!=") l r s e) (bool_decide (fact ≠ v))
  | decided_time op l r s e :
      op ∈ comparisons → ¬ uses_function (js "u") (Binary op l r s e) →
      decided (Binary op l r s e) (holds (Binary op l r s e)).

(** The rate of a field: nothing when the expression has no quantity of it. *)
Abbreviation rates := (jsstring → option num).
Definition no_rate (r : rates) : Prop := ∀ field, r field = None.
Definition add_rates (a b : rates) : rates := λ field,
  match a field, b field with
  | None, None => None
  | x, y => Some (num_add (default zero x) (default zero y))
  end.

Inductive priced : ExpressionNode → option jsstring → num → rates → Prop :=
  | priced_number v i s e r : no_rate r → priced (Literal (LNumber v) i s e) None v r
  | priced_usage field i p q rest s e definition r :
      own schema field = Some definition → field_type definition = Some type_number →
      is_Some (field_unit definition) → (∀ f, r f = if decide (f = field) then Some (num_of_Z 1) else None) →
      priced (Call (js "u") (Literal (LString field) i p q :: rest) s e) None zero r
  | priced_tier name i p q body rest s e k r :
      priced body None k r →
      priced (Call (js "tier") (Literal (LString name) i p q :: body :: rest) s e) (Some name) k r
  | priced_choice c y n s e b lbl k r :
      decided c b → priced (if b then y else n) lbl k r → priced (Conditional c y n s e) lbl k r
  | priced_sum x y s e lx kx rx ly ky ry r :
      priced x lx kx rx → priced y ly ky ry → lx = None ∨ ly = None →
      (∀ f, r f = add_rates rx ry f) →
      priced (Binary (js "+") x y s e) (first_label lx ly) (num_add kx ky) r
  | priced_scaled x y s e lx kx rx ly ky ry r :
      priced x lx kx rx → priced y ly ky ry → lx = None ∨ ly = None → no_rate ry →
      (∀ f, r f = (λ p, num_mul p ky) <$> rx f) →
      priced (Binary (js "*") x y s e) (first_label lx ly) (num_mul kx ky) r
  | priced_scales x y s e lx kx rx ly ky ry r :
      priced x lx kx rx → priced y ly ky ry → lx = None ∨ ly = None → no_rate rx →
      (∀ f, r f = (λ p, num_mul p kx) <$> ry f) →
      priced (Binary (js "*") x y s e) (first_label lx ly) (num_mul kx ky) r
  | priced_quotient x y s e lx kx rx ly ky ry r :
      priced x lx kx rx → priced y ly ky ry → lx = None ∨ ly = None → no_rate ry → num_ltb zero ky = true →
      (∀ f, r f = (λ p, num_mul p (num_div (num_of_Z 1) ky)) <$> rx f) →
      priced (Binary (js "/") x y s e) (first_label lx ly) (num_div kx ky) r.

Lemma priced_pointwise n lbl k r r' : priced n lbl k r → (∀ f, r' f = r f) → priced n lbl k r'.
Proof.
  intros Hp. revert r'.
  induction Hp as [v i s e r Hr|field i p q rest s e d r Hd Ht Hu Hr|name i p q body rest s e k r _ IH
    |c y n s e b lbl k r Hb _ IH|x y s e lx kx rx ly ky ry r Hx _ Hy _ Hl Hr|x y s e lx kx rx ly ky ry r Hx _ Hy _ Hl Hn Hr
    |x y s e lx kx rx ly ky ry r Hx _ Hy _ Hl Hn Hr|x y s e lx kx rx ly ky ry r Hx _ Hy _ Hl Hn Hz Hr]; intros r' Hr'.
  - constructor. intros f. etrans; [apply Hr'|apply Hr].
  - econstructor; [done..|]. intros f. by rewrite Hr'.
  - constructor. by apply IH.
  - econstructor; [done|]. by apply IH.
  - eapply priced_sum; [done..|]. intros f. by rewrite Hr'.
  - eapply priced_scaled; [done..|]. intros f. by rewrite Hr'.
  - eapply priced_scales; [done..|]. intros f. by rewrite Hr'.
  - eapply priced_quotient; [done..|]. intros f. by rewrite Hr'.
Qed.

(** Both relations are functions of the expression. *)
Lemma compares_uses op l r s e key v : compares l r key v → uses_function (js "u") (Binary op l r s e).
Proof.
  destruct 1 as [key i p q rest s' e' v j m k|key i p q rest s' e' v j m k]; do 3 eexists;
    (eapply in_tree_child; [|apply in_tree_self]); simpl; [by left|by right; left].
Qed.
Lemma compares_unique l r key v key' v' : compares l r key v → compares l r key' v' → key = key' ∧ v = v'.
Proof. by destruct 1; inversion 1. Qed.
Lemma comparison_not_logical op : op ∈ comparisons → op ≠ js "&&" ∧ op ≠ js "||".
Proof. intros H%str_in_elem. split; intros ->; done. Qed.

Lemma decided_unique n b : decided n b → ∀ b', decided n b' → b = b'.
Proof.
  induction 1 as [b i s e|x b s e _ IH|l r s e a b _ IHl _ IHr|l r s e a b _ IHl _ IHr|l r s e key v fact Hc Hf
    |l r s e key v fact Hc Hf|op l r s e Hop Hu]; intros b' H'; inversion H'; subst;
    repeat match goal with H : _ ∈ comparisons |- _ => apply comparison_not_logical in H as [? ?] end; try done;
    try (match goal with H : js _ = js _ |- _ => by vm_compute in H end).
  all: try (by f_equal; auto).
  all: try match goal with Hc : compares ?l ?r _ _, Hc' : compares ?l ?r _ _ |- _ =>
         destruct (compares_unique _ _ _ _ _ _ Hc Hc') as [-> ->]; by simplify_option_eq end.
  all: exfalso; match goal with Hu : ¬ uses_function _ _ |- _ => apply Hu; by eapply compares_uses end.
Qed.

Lemma priced_unique n lbl k r : priced n lbl k r → ∀ lbl' k' r', priced n lbl' k' r' →
  lbl = lbl' ∧ k = k' ∧ ∀ f, r f = r' f.
Proof.
  induction 1 as [v i s e r Hr|field i p q rest s e d r Hd _ _ Hr|name i p q body rest s e k r _ IH
    |c y n s e b lbl k r Hb _ IH|x y s e lx kx rx ly ky ry r _ IHx _ IHy _ Hr|x y s e lx kx rx ly ky ry r _ IHx _ IHy _ Hn Hr
    |x y s e lx kx rx ly ky ry r _ IHx _ IHy _ Hn Hr|x y s e lx kx rx ly ky ry r _ IHx _ IHy _ Hn Hz Hr];
    intros lbl' k' r' H'; inversion H'; subst; try (match goal with H : js _ = js _ |- _ => by vm_compute in H end);
    try (edestruct IHx as (? & ? & Hx); [eassumption|]; edestruct IHy as (? & ? & Hy); [eassumption|]; subst;
      split_and!; [done..|]; intros f; etrans; [apply Hr|];
      match goal with H : ∀ f, r' f = _ |- _ => rewrite (H f) end;
      unfold add_rates; rewrite ?Hx, ?Hy; try done;
      pose proof (Hn f) as Hnf; rewrite ?Hx, ?Hy in Hnf; rewrite Hnf;
      match goal with H : no_rate _ |- _ => by rewrite (H f) end).
  - split_and!; [done..|]. intros f. etrans; [apply Hr|done].
  - split_and!; [done..|]. intros f. by rewrite Hr.
  - edestruct IH as (_ & -> & ?); [eassumption|]. done.
  - match goal with Hb' : decided c _ |- _ => pose proof (decided_unique _ _ Hb _ Hb') as -> end. by apply IH.
Qed.
End Meaning.

(** Each fact is one of the values declared for its field. *)
Definition declared_facts (schema : BillingUsageSchema) (facts : list (jsstring * literal_value)) : Prop :=
  ∀ field fact, own facts field = Some fact →
    ∃ values, category_values (own schema field) = Some values ∧ fact ∈ values.
(** The truth of every text shown for a part of [node] is that of the part. *)
Definition shows_truth source schema facts (holds : ExpressionNode → bool) (truth : jsstring → bool) node : Prop :=
  ∀ n r text r', in_tree n node → taskDisplayCondition source schema facts n r = (Some (Pending text), r') →
    decided facts holds n (truth text).

(** *** Amounts *)

Lemma own_obj_insert {A} (m : list (jsstring * A)) k v x : own m k = None →
  own (obj_insert m k v) x = if decide (k = x) then Some v else own m x.
Proof.
  intros Hk. induction m as [|[k' v'] m IH]; cbn [obj_insert].
  - cbn. unfold str_eqb. case_decide; [by rewrite bool_decide_eq_true_2|by rewrite bool_decide_eq_false_2].
  - destruct (key_before k k'); cbn [own].
    + unfold str_eqb at 1. case_decide; [by rewrite bool_decide_eq_true_2|by rewrite bool_decide_eq_false_2].
    + cbn [own] in Hk. destruct (k' =s k) eqn:E; [done|]. apply str_eqb_neq in E. rewrite IH by done.
      unfold str_eqb. case_bool_decide; [subst; by rewrite decide_False by congruence|done].
Qed.

Lemma own_obj_set {A} (m : list (jsstring * A)) k v x : k ≠ js "__proto__" →
  own (obj_set m k v) x = if decide (k = x) then Some v else own m x.
Proof.
  intros Hk. unfold obj_set. rewrite (proj2 (str_eqb_neq k _)) by done.
  destruct (own m k) eqn:E; [apply own_map_set|by apply own_obj_insert].
Qed.

Lemma own_foldl_set {A B} (key : B → jsstring) (val : B → A) (l : list B) x : ∀ m : list (jsstring * A),
  Forall (λ b, key b ≠ js "__proto__") l →
  (x ∉ map key l → own (foldl (λ m b, obj_set m (key b) (val b)) m l) x = own m x) ∧
  (x ∈ map key l → ∃ b, b ∈ l ∧ key b = x ∧ own (foldl (λ m b, obj_set m (key b) (val b)) m l) x = Some (val b)).
Proof.
  induction l as [|b l IH]; intros m; [by split; [|intros ?%not_elem_of_nil]|]. intros [Hb Hl]%Forall_cons.
  cbn [foldl map]. destruct (IH (obj_set m (key b) (val b)) Hl) as [Hout Hin]. split.
  - intros [Hx Hx']%not_elem_of_cons. rewrite Hout, own_obj_set by done. by rewrite decide_False.
  - intros Hx. destruct (decide (x ∈ map key l)) as [H|H].
    + destruct (Hin H) as (b' & ? & ? & ?). exists b'. split; [by right|done].
    + apply elem_of_cons in Hx as [->|Hx]; [|done]. exists b. split; [by left|]. split; [done|].
      rewrite Hout, own_obj_set by done. by rewrite decide_True.
Qed.

Lemma set_members items x : x ∈ new_set items ↔ x ∈ items.
Proof.
  unfold new_set. assert (∀ s, x ∈ foldl (λ set x, if str_in x set then set else set ++ [x]) s items ↔ x ∈ s ∨ x ∈ items) as H.
  { induction items as [|y items IH]; intros s; cbn; [set_solver|]. rewrite IH. destruct (str_in y s) eqn:E; [|set_solver].
    apply str_in_elem in E. set_solver. }
  rewrite H. set_solver.
Qed.

Definition plain_fields (prices : list (jsstring * num)) : Prop := NoDup prices.*1 ∧ js "__proto__" ∉ prices.*1.

Lemma nan_amount x : is_amount (num_add nan x) = false ∧ is_amount (num_add x nan) = false.
Proof. by destruct x as [[]|[]| |[]]. Qed.

Lemma obj_set_plain (m : list (jsstring * num)) k v : plain_fields m → k ≠ js "__proto__" → plain_fields (obj_set m k v).
Proof.
  intros [Hd Hp] Hk. unfold obj_set. rewrite (proj2 (str_eqb_neq k _)) by done. destruct (own m k) eqn:E.
  - assert ((map_set m k v).*1 = m.*1) as Hkeys.
    { clear -E. induction m as [|[k' v'] m IH]; [done|]. cbn in *. destruct (k' =s k) eqn:Ek; [|by cbn; rewrite IH].
      apply str_eqb_eq in Ek as ->. done. }
    unfold plain_fields. by rewrite Hkeys.
  - apply own_None_notin in E.
    assert ((obj_insert m k v).*1 ≡ₚ k :: m.*1) as Hkeys.
    { clear. induction m as [|[k' v'] m IH]; [done|]. cbn. destruct (key_before k k'); [done|]. cbn. rewrite IH. apply Permutation_swap. }
    unfold plain_fields. rewrite Hkeys. split; [by apply NoDup_cons|]. by apply not_elem_of_cons.
Qed.
Lemma foldl_set_plain {B} (key : B → jsstring) (val : B → num) (l : list B) : ∀ m,
  plain_fields m → Forall (λ b, key b ≠ js "__proto__") l → plain_fields (foldl (λ m b, obj_set m (key b) (val b)) m l).
Proof.
  induction l as [|b l IH]; intros m Hm; [done|]. intros [Hb Hl]%Forall_cons. cbn. by apply IH, Hl; apply obj_set_plain.
Qed.

(** The prices of the side with quantities times a factor. *)
Lemma scaled_prices (prices q : list (jsstring * num)) factor : plain_fields q →
  prices = foldl (λ prices entry, obj_set prices entry.1 (num_mul entry.2 factor)) [] q →
  plain_fields prices ∧ ∀ f, own prices f = (λ p, num_mul p factor) <$> own q f.
Proof.
  intros [Hd Hp] ->.
  assert (Forall (λ e : jsstring * num, e.1 ≠ js "__proto__") q) as Hf.
  { apply Forall_forall. intros e He Hbad. apply Hp. rewrite <- Hbad. by apply list_elem_of_fmap_2. }
  split; [apply (foldl_set_plain fst (λ e, num_mul e.2 factor)); [by split; [constructor|set_solver]|done]|].
  intros f. destruct (own_foldl_set fst (λ e : jsstring * num, num_mul e.2 factor) q f [] Hf) as [Hout Hin].
  destruct (decide (f ∈ map fst q)) as [Hm|Hm].
  - destruct (Hin Hm) as ([f' p] & He & <- & ->). cbn. by rewrite (own_NoDup q f' p).
  - rewrite (Hout Hm). apply own_None_notin in Hm. by rewrite Hm.
Qed.

Lemma no_prices q : negb (is_empty q) = false → no_rate (own (q : list (jsstring * num))).
Proof. by destruct q. Qed.

Section Amounts.
Context (a b : PriceBranch) (k : num) (prices : list (jsstring * num)).
Context (Ha : plain_fields (branch_prices a)) (Hb : plain_fields (branch_prices b)).
Context (Hok : forallb is_amount (k :: map snd prices) = true).
#[local] Set Default Proof Using "All".

Lemma amounts_sum : pair_amounts (js "+") a b = Some (k, prices) →
  k = num_add (branch_constant a) (branch_constant b) ∧ plain_fields prices ∧
  ∀ f, own prices f = add_rates (own (branch_prices a)) (own (branch_prices b)) f.
Proof.
  intros Hp. unfold pair_amounts in Hp. change (js "+" =s js "+") with true in Hp. cbv iota in Hp. injection Hp as Hk Hp.
  set (fields := new_set (map fst (branch_prices a) ++ map fst (branch_prices b))) in *.
  set (val := λ f, num_add (read_price (branch_prices a) f) (read_price (branch_prices b) f)) in *.
  assert (Forall (λ f, f ≠ js "__proto__") fields) as Hf.
  { apply Forall_forall. intros f Hf. unfold fields in Hf. rewrite set_members in Hf.
    destruct Ha as [_ H1], Hb as [_ H2]. by intros ->; apply elem_of_app in Hf as [?|?]. }
  split; [done|]. split; [rewrite <- Hp; apply (foldl_set_plain (λ f, f) val); [by split; [constructor|set_solver]|done]|].
  intros f. destruct (own_foldl_set (λ f, f) val fields f [] Hf) as [Hout Hin]. rewrite map_id in Hout, Hin.
  pose proof (Hp : foldl (λ m b, obj_set m ((λ f, f) b) (val b)) [] fields = prices) as Hp'. rewrite Hp' in Hout, Hin.
  unfold add_rates. destruct (decide (f ∈ fields)) as [Hm|Hm].
  - destruct (Hin Hm) as (f' & _ & -> & Hv). rewrite Hv. unfold fields in Hm. rewrite set_members in Hm.
    assert (is_amount (val f) = true) as Ham.
    { pose proof Hok as Hok'. cbn [forallb] in Hok'. apply andb_true_iff in Hok' as [_ Hok']. rewrite forallb_forall in Hok'. apply Hok', in_map_iff. exists (f, val f).
      split; [done|]. apply own_Some_elem in Hv. by apply list_elem_of_In. }
    unfold val, read_price in *. destruct (own (branch_prices a) f) as [x|] eqn:Ea, (own (branch_prices b) f) as [y|] eqn:Eb; cbn [default].
    + done.
    + destruct (str_in f inherited_properties); [|done]. by rewrite (proj2 (nan_amount x)) in Ham.
    + destruct (str_in f inherited_properties); [|done]. by rewrite (proj1 (nan_amount y)) in Ham.
    + exfalso. apply elem_of_app in Hm. apply own_None_notin in Ea, Eb. naive_solver.
  - rewrite (Hout Hm). unfold fields in Hm. rewrite set_members in Hm. apply not_elem_of_app in Hm as [H1 H2].
    apply own_None_notin in H1, H2. by rewrite H1, H2.
Qed.

Lemma amounts_product : pair_amounts (js "*") a b = Some (k, prices) →
  k = num_mul (branch_constant a) (branch_constant b) ∧ plain_fields prices ∧
  (no_rate (own (branch_prices b)) ∧ (∀ f, own prices f = (λ p, num_mul p (branch_constant b)) <$> own (branch_prices a) f) ∨
   no_rate (own (branch_prices a)) ∧ ∀ f, own prices f = (λ p, num_mul p (branch_constant a)) <$> own (branch_prices b) f).
Proof.
  intros Hp. unfold pair_amounts in Hp. change (js "*" =s js "+") with false in Hp. change (js "*" =s js "/") with false in Hp.
  cbv iota zeta in Hp. destruct (negb (is_empty (branch_prices a))) eqn:Ea; cbn [andb orb] in Hp.
  - destruct (negb (is_empty (branch_prices b))) eqn:Eb; [done|]. cbn [orb] in Hp. injection Hp as Hk Hp.
    destruct (scaled_prices _ _ _ Ha (eq_sym Hp)) as [Hpl Hr]. split; [done|]. split; [done|]. left. split; [by apply no_prices|done].
  - injection Hp as Hk Hp. destruct (scaled_prices _ _ _ Hb (eq_sym Hp)) as [Hpl Hr]. split; [done|]. split; [done|].
    right. split; [by apply no_prices|done].
Qed.

Lemma amounts_quotient : pair_amounts (js "/") a b = Some (k, prices) →
  k = num_div (branch_constant a) (branch_constant b) ∧ plain_fields prices ∧ num_leb (branch_constant b) zero = false ∧
  no_rate (own (branch_prices b)) ∧
  ∀ f, own prices f = (λ p, num_mul p (num_div (num_of_Z 1) (branch_constant b))) <$> own (branch_prices a) f.
Proof.
  intros Hp. unfold pair_amounts in Hp. change (js "/" =s js "+") with false in Hp. change (js "/" =s js "/") with true in Hp.
  cbv iota zeta in Hp. destruct (negb (is_empty (branch_prices b))) eqn:Eb; cbn [andb orb] in Hp; [by rewrite orb_true_r in Hp|].
  rewrite andb_false_r in Hp. cbn [orb] in Hp. destruct (num_leb (branch_constant b) zero) eqn:Ez; [done|]. injection Hp as Hk Hp.
  pose proof (no_prices _ Eb) as Hnb. destruct (negb (is_empty (branch_prices a))) eqn:Ea.
  - destruct (scaled_prices _ _ _ Ha (eq_sym Hp)) as [Hpl Hr]. by split_and!.
  - destruct (scaled_prices _ _ _ Hb (eq_sym Hp)) as [Hpl Hr]. split_and!; try done. intros f. rewrite Hr, (Hnb f).
    by rewrite (no_prices _ Ea f).
Qed.
End Amounts.

(** ** The interpreter *)
Section Evaluation.
Context `{Host} (compiled : CompiledBillingExpression) (context : BillingSimulationContext)
  (now : Date) (headers : list (jsstring * jsstring)).
Abbreviation eval := (evaluate compiled context now headers).

Lemma check_inv p v (st : RuntimeState) w st' : lift_st (check_value p v) st = Ok (w, st') → w = v ∧ st' = st.
Proof. unfold lift_st, check_value. repeat case_match; intros; simplify_eq; done. Qed.

Lemma literal_eval d v i s e st w st' :
  eval d (Literal v i s e) st = Ok (w, st') → st' = st ∧ rv_value w = literal_to_value v.
Proof.
  cbn [evaluate]. destruct (256 <? S d); [done|]. intros (u & t & Hu & Hc)%stateR_bind_Ok.
  injection Hu as <- <-. by apply check_inv in Hc as [-> ->].
Qed.

Lemma usage_eval d key i p q rest s e st w st' :
  eval d (Call (js "u") (Literal (LString key) i p q :: rest) s e) st = Ok (w, st') →
  st' = st ∧ ∃ u, usage context = Some u ∧ rv_value w = default VNull (own u key).
Proof.
  intros Hev%eval_inv.
  change (eval_call context now headers (js "u") s) with (eval_usage context s) in Hev.
  unfold eval_usage in Hev. apply stateR_bind_Ok in Hev as (t & s1 & Ht & Hev).
  unfold as_string, arg in Ht. cbn [map lookup list_lookup default from_option run] in Ht.
  apply stateR_bind_Ok in Ht as (u & s2 & Hu & Ht). apply literal_eval in Hu as [-> Hu].
  rewrite Hu in Ht. injection Ht as <- <-.
  destruct (usage context) as [us|] eqn:Eu; [|done]. injection Hev as <- <-. eauto.
Qed.

Lemma not_eval d x s e st w st' :
  eval d (Unary (js "!") x s e) st = Ok (w, st') →
  ∃ v b, eval (S d) x st = Ok (v, st') ∧ rv_value v = VBoolean b ∧ rv_value w = VBoolean (negb b).
Proof.
  cbn [evaluate]. destruct (256 <? S d); [done|]. intros (u & t & Hu & Hc)%stateR_bind_Ok.
  apply check_inv in Hc as [-> ->].
  change (eval_unary (js "!")) with (λ o, b ← as_boolean o; mret (value (VBoolean (negb b))) : R RuntimeValue) in Hu.
  apply stateR_bind_Ok in Hu as (b & s1 & Hb & Hu). apply as_boolean_inv in Hb as (v & Hv & Hb).
  injection Hu as <- <-. by exists v, b.
Qed.

(** Both logical operators: the left operand, and the right one if needed. *)
Lemma logical_eval d op l r s e st w st' (short := op =s js "||") :
  op = js "&&" ∨ op = js "||" →
  eval d (Binary op l r s e) st = Ok (w, st') →
  ∃ vl x s1, eval (S d) l st = Ok (vl, s1) ∧ rv_value vl = VBoolean x ∧
    (x = short ∧ s1 = st' ∧ rv_value w = VBoolean short ∨
     x = negb short ∧ ∃ vr y, eval (S d) r s1 = Ok (vr, st') ∧ rv_value vr = VBoolean y ∧
       rv_value w = VBoolean y).
Proof.
  intros Hop Hev%eval_binary_inv. unfold eval_binary in Hev.
  destruct Hop as [-> | ->]; subst short;
    [change (js "&&" =s js "&&") with true in Hev; change (js "&&" =s js "||") with false
    |change (js "||" =s js "&&") with false in Hev; change (js "||" =s js "||") with true in Hev |- *];
    cbn match in Hev; apply stateR_bind_Ok in Hev as (x & s1 & Hx & Hev);
    apply as_boolean_inv in Hx as (vl & Hvl & Hx); exists vl, x, s1; (split; [done|]); (split; [done|]);
    destruct x.
  - right. apply stateR_bind_Ok in Hev as (y & s2 & Hy & Hev). apply as_boolean_inv in Hy as (vr & Hvr & Hy).
    injection Hev as <- <-. split; [done|]. by exists vr, y.
  - left. by injection Hev as <- <-.
  - left. by injection Hev as <- <-.
  - right. apply stateR_bind_Ok in Hev as (y & s2 & Hy & Hev). apply as_boolean_inv in Hy as (vr & Hvr & Hy).
    injection Hev as <- <-. split; [done|]. by exists vr, y.
Qed.

(** An evaluation without [tier] keeps the matched tier. *)
Lemma untiered_eval n d s v s' :
  node_ok n → ¬ uses_function (js "tier") n → eval d n s = Ok (v, s') →
  matchedTier s' = matchedTier s.
Proof.
  intros Hok Hf Hev.
  set (Rel := λ s s', matchedTier s' = matchedTier s).
  assert (Hs : safe (λ _, True) Rel (d + node_height n < 256) (eval d n)).
  { apply evaluate_rel; unfold Rel; try done; [by intros a b c -> ->|..]; by intros. }
  specialize (Hs s I). unfold wpe in Hs. rewrite Hev in Hs. apply Hs.
Qed.

Lemma coherent_eval n d s v s' :
  coherent now s → eval d n s = Ok (v, s') → coherent now s'.
Proof. intros Hs Hev. by destruct (evaluate_agree _ _ _ _ n d d (le_n d) s s v s' Hs Hs Hev). Qed.
End Evaluation.

(** ** Conditions *)

(** The facts are the values of the request's usage, each a declared category. *)
Definition facts_of (schema : BillingUsageSchema) (usage : list (jsstring * jsval))
    (facts : list (jsstring * literal_value)) : Prop :=
  ∀ field fact, own facts field = Some fact →
    own usage field = Some (literal_to_value fact) ∧
    ∃ values, category_values (own schema field) = Some values ∧ fact ∈ values.

Section Conditions.
Context (source : jsstring) (schema : BillingUsageSchema) (facts : list (jsstring * literal_value)).
Abbreviation condition := (taskDisplayCondition source schema facts).

Lemma usage_probe_Some probe literal key v :
  usage_probe probe literal = Some (key, v) →
  ∃ i p q rest s e j m k, probe = Call (js "u") (Literal (LString key) i p q :: rest) s e ∧
    literal = Literal v j m k.
Proof.
  unfold usage_probe. destruct probe as [| |f args s e| | |]; try done.
  destruct args as [|[[t| | |] i p q| | | | |] rest]; try done.
  destruct literal as [u j m k| | | | |]; try done. destruct (f =s js "u") eqn:E; [|done].
  apply str_eqb_eq in E as ->. intros [= -> ->]. repeat eexists.
Qed.

(** A displayed comparison is between a call with a literal argument and a
    literal, or between two of these. *)
Definition simple_operand (n : ExpressionNode) : Prop :=
  match n with
  | Literal _ _ _ _ => True
  | Call f (Literal _ _ _ _ :: _) _ _ => f = js "u" ∨ f ∈ TIME_FUNCTIONS
  | _ => False
  end.

Lemma time_operand_simple n : time_operand n = true → simple_operand n.
Proof.
  destruct n as [[]| |f args ? ?| | |]; try done. destruct args as [|[[]| | | | |] ?]; try done.
  simpl time_operand. intros [Hf _]%andb_true_iff. right. by apply str_in_elem.
Qed.

Lemma comparison_simple node op l r d :
  comparison source schema facts node op l r = Some d → simple_operand l ∧ simple_operand r.
Proof.
  unfold comparison. intros Hc.
  assert (Htimed : (if str_in op comparisons && (is_call l || is_call r) && (time_operand l && time_operand r)
    then Some (Pending (slice source (node_start node) (node_end node))) else None) = Some d →
    simple_operand l ∧ simple_operand r).
  { destruct (_ && _) eqn:E; [|done]. intros _. apply andb_true_iff in E as [_ [Hl Hr]%andb_true_iff].
    by split; apply time_operand_simple. }
  destruct (str_in op [js "=="; js "!="]); [|by apply Htimed].
  destruct (usage_probe l r) as [[key v]|] eqn:El.
  { apply usage_probe_Some in El as (?&?&?&?&?&?&?&?&?& -> & ->). split; [by left|done]. }
  destruct (usage_probe r l) as [[key v]|] eqn:Er; [|by apply Htimed].
  apply usage_probe_Some in Er as (?&?&?&?&?&?&?&?&?& -> & ->). split; [done|by left].
Qed.

Lemma simple_operand_untiered n : node_ok n → simple_operand n → ¬ uses_function (js "tier") n.
Proof.
  intros Hok Hs. destruct n as [| |f args s e| | |]; try done; [by apply leaf_uses|].
  destruct args as [|a args]; [done|]. destruct a as [v i p q| | | | |]; try done.
  assert (Hf : own BILLING_FUNCTIONS f = Some 1 ∧ f ≠ js "tier").
  { simpl in Hs. destruct Hs as [-> | Hs]; [done|]. unfold TIME_FUNCTIONS in Hs. simpl in Hs.
    set_unfold in Hs. destruct_or!; subst; done. }
  destruct Hf as [Hown Hne]. apply node_ok_inv in Hok as [(_ & _ & _ & Hvoc) _].
  unfold vocabulary_ok in Hvoc. rewrite Hown in Hvoc. injection Hvoc as Hlen.
  destruct args; [|done].
  intros [(? & ? & ? & [= -> _])|(c & Hc & Hu)]%uses_child_inv; [done|].
  apply list_elem_of_singleton in Hc as ->. revert Hu. by apply leaf_uses.
Qed.

Lemma condition_untiered node r d r' :
  node_ok node → condition node r = (Some d, r') → ¬ uses_function (js "tier") node.
Proof.
  revert r d r'. induction node as [node IH] using node_induction. rewrite Forall_forall in IH.
  intros r d r' Hok Hc. pose proof (node_ok_inv _ Hok) as [_ Hch]. rewrite Forall_forall in Hch.
  destruct node as [[t|v|b|] i s e| |f args s e|op x s e|op lhs rhs s e|c y n s e];
    cbn [taskDisplayCondition] in Hc; apply spend_Some in Hc as [r0 Hc]; try done.
  - by apply leaf_uses.
  - destruct (op =s js "!"); [|done]. apply then_Some in Hc as (v & r1 & Hx & _).
    intros [(? & ? & ? & [=])|(c & Hin & Hu)]%uses_child_inv. apply list_elem_of_singleton in Hin as ->.
    revert Hu. eapply IH; [simpl; set_solver|apply Hch; simpl; set_solver|exact Hx].
  - intros [(? & ? & ? & [=])|(c & Hin & Hu)]%uses_child_inv. revert Hu.
    destruct (_ || _).
    + apply both_Some in Hc as (dl & r1 & dr & Hl & Hr & _). simpl in Hin. set_unfold in Hin.
      destruct Hin as [-> | [-> | []]]; (eapply IH; [simpl; set_solver|apply Hch; simpl; set_solver|eassumption]).
    + injection Hc as Hc _. apply comparison_simple in Hc as [Hl Hr]. simpl in Hin. set_unfold in Hin.
      destruct Hin as [-> | [-> | []]]; (apply simple_operand_untiered; [apply Hch; simpl; set_solver|done]).
Qed.
End Conditions.

Lemma strict_eqb_facts a b :
  (∃ x y, a = LString x ∧ b = LString y) ∨ (∃ x y, a = LBoolean x ∧ b = LBoolean y) →
  strict_eqb (literal_to_value a) (literal_to_value b) = bool_decide (a = b).
Proof.
  intros [(x & y & -> & ->)|(x & y & -> & ->)]; simpl.
  - unfold str_eqb. repeat case_bool_decide; congruence.
  - by destruct x, y.
Qed.

Section Selection.
Context `{Host} (compiled : CompiledBillingExpression) (context : BillingSimulationContext)
  (now : Date) (headers : list (jsstring * jsstring)).
Context (source : jsstring) (schema : BillingUsageSchema) (facts : list (jsstring * literal_value)).
Context (truth : jsstring → bool) (given : list (jsstring * jsval)).
Context (Husage : usage context = Some given) (Hfacts : facts_of schema given facts).
Abbreviation eval := (evaluate compiled context now headers).
Abbreviation condition := (taskDisplayCondition source schema facts).

(** The assignment is the one of this request: a condition on the time that
    evaluates has the value assigned to its text. *)
Context (Htruth : ∀ n r text r' w s',
  in_tree n (c_ast compiled) → condition n r = (Some (Pending text), r') →
  eval 0 n (initial_state compiled) = Ok (w, s') → rv_value w = VBoolean (truth text)).

#[local] Set Default Proof Using "All".

Lemma equality_eval op p a b va vb w :
  op = js "==" ∨ op = js "!=" →
  (∃ x y, a = LString x ∧ b = LString y) ∨ (∃ x y, a = LBoolean x ∧ b = LBoolean y) →
  rv_value va = literal_to_value a → rv_value vb = literal_to_value b →
  apply_binary op p va vb = Ok w →
  rv_value w = VBoolean (if op =s js "==" then bool_decide (a = b) else negb (bool_decide (a = b))).
Proof.
  intros Hop Hab Ha Hb. unfold apply_binary. rewrite Ha, Hb, <- (strict_eqb_facts _ _ Hab).
  assert ((op =s js "==") || (op =s js "!=") = true) as -> by (destruct Hop as [-> | ->]; done).
  destruct Hab as [(x & y & -> & ->)|(x & y & -> & ->)]; simpl; intros [= <-]; done.
Qed.

Lemma usage_condition_sound op key literal b p w va vb :
  op = js "==" ∨ op = js "!=" →
  usage_condition schema facts op key literal = Some b →
  rv_value va = default VNull (own given key) → rv_value vb = literal_to_value literal →
  (apply_binary op p va vb = Ok w ∨ apply_binary op p vb va = Ok w) → rv_value w = VBoolean b.
Proof.
  intros Hop Hc Ha Hb Hw. unfold usage_condition in Hc.
  destruct (own facts key) as [fact|] eqn:Ef; [|done]. cbn [mbind option_bind] in Hc.
  destruct (Hfacts _ _ Ef) as (Hgiven & values & Hval & Hin). rewrite Hgiven in Ha. simpl in Ha.
  assert (Hcmp : (∃ x y, fact = LString x ∧ literal = LString y) ∨ (∃ x y, fact = LBoolean x ∧ literal = LBoolean y) →
    rv_value w = VBoolean (if op =s js "==" then bool_decide (fact = literal) else negb (bool_decide (fact = literal)))).
  { intros Hkind. destruct Hw as [Hw|Hw]; [by eapply equality_eval|].
    rewrite (bool_decide_ext (fact = literal) (literal = fact)) by done.
    eapply equality_eval; [done| |exact Hb|exact Ha|exact Hw]. naive_solver. }
  unfold category_values in Hval.
  destruct (own schema key ≫= field_type) as [[|]|] eqn:Et; [done| |].
  - rewrite bool_decide_true in Hc by done. destruct literal as [| |y|]; try done.
    injection Hval as <-. assert (∃ x, fact = LBoolean x) as [x ->] by (set_unfold in Hin; naive_solver).
    injection Hc as <-. apply Hcmp. eauto.
  - rewrite bool_decide_false in Hc by done. destruct literal as [y| | |]; try done.
    injection Hval as <-. apply list_elem_of_fmap in Hin as (x & -> & Hx).
    destruct (str_in y _) eqn:Ey; injection Hc as <-; [by apply Hcmp; eauto|].
    rewrite Hcmp by eauto. assert (LString x ≠ LString y) as Hne.
    { intros [= ->]. apply str_in_elem in Hx. by rewrite Hx in Ey. }
    rewrite bool_decide_false by done. by destruct Hop as [-> | ->].
Qed.

Lemma comparison_decided node op l r b d st w st' s e :
  node = Binary op l r s e →
  comparison source schema facts node op l r = Some (Decided b) →
  eval d node st = Ok (w, st') → rv_value w = VBoolean b.
Proof.
  intros -> Hc Hev. unfold comparison in Hc.
  destruct (str_in op [js "=="; js "!="]) eqn:Hop; [|by destruct (_ && _)].
  apply str_in_elem in Hop. set_unfold in Hop.
  assert (op = js "==" ∨ op = js "!=") as Hop' by naive_solver.
  assert (str_in op [js "&&"; js "||"] = false) as Hlog by (destruct Hop' as [-> | ->]; done).
  destruct (eval_strict_inv _ _ _ _ _ _ _ _ _ _ _ _ _ Hlog Hev) as (a & s1 & v & Ha & Hv & Happ).
  destruct (usage_probe l r) as [[key literal]|] eqn:Ep;
    [|destruct (usage_probe r l) as [[key literal]|] eqn:Ep'; [|by destruct (_ && _)]].
  - apply usage_probe_Some in Ep as (i & p & q & rest & s0 & e0 & j & m & k & -> & ->).
    destruct (usage_condition _ _ _ _ _) eqn:Eu; [|done]. injection Hc as ->.
    apply usage_eval in Ha as (-> & u & Hu & Ha). rewrite Husage in Hu. injection Hu as <-.
    apply literal_eval in Hv as [-> Hv]. eapply usage_condition_sound; eauto.
  - apply usage_probe_Some in Ep' as (i & p & q & rest & s0 & e0 & j & m & k & -> & ->).
    destruct (usage_condition _ _ _ _ _) eqn:Eu; [|done]. injection Hc as ->.
    apply usage_eval in Hv as (-> & u & Hu & Hv). rewrite Husage in Hu. injection Hu as <-.
    apply literal_eval in Ha as [-> Ha]. eapply usage_condition_sound; eauto.
Qed.

(** A resolved condition is the value the interpreter computes. *)
Lemma condition_sound node r c r' d st w st' :
  in_tree node (c_ast compiled) → condition node r = (Some c, r') → coherent now st →
  eval d node st = Ok (w, st') → rv_value w = VBoolean (resolve truth c).
Proof.
  revert r c r' d st w st'. induction node as [node IH] using node_induction. rewrite Forall_forall in IH.
  intros r c r' d st w st' Htree Hc Hst Hev.
  destruct c as [b|text].
  2: { assert (coherent now (initial_state compiled)) as Hinit by (intros z tv; done).
       destruct (evaluate_agree _ _ _ _ node d 0 ltac:(lia) _ _ _ _ Hst Hinit Hev) as (_ & s' & Hs' & _).
       by eapply Htruth. }
  assert (Hsub : ∀ x, x ∈ children node → in_tree x (c_ast compiled)).
  { intros x Hx. eapply in_tree_trans; [|exact Htree]. eapply in_tree_child; [exact Hx|apply in_tree_self]. }
  destruct node as [[t|v|x|] i s e| |f args s e|op x s e|op lhs rhs s e|c y n s e];
    cbn [taskDisplayCondition] in Hc; apply spend_Some in Hc as [r0 Hc]; try done.
  - injection Hc as -> _. by apply literal_eval in Hev as [_ Hev].
  - destruct (op =s js "!") eqn:Eop; [|done]. apply str_eqb_eq in Eop as ->.
    apply then_Some in Hc as (v & r1 & Hx & Hk).
    destruct (not_eval _ _ _ _ _ _ _ _ _ _ _ Hev) as (u & xb & Hu & Hub & Hw).
    assert (Hval := IH x ltac:(simpl; set_solver) _ _ _ _ _ _ _ (Hsub x ltac:(simpl; set_solver)) Hx Hst Hu).
    rewrite Hub in Hval. injection Hval as ->. destruct v; [|done]. injection Hk as <- _. done.
  - destruct (_ || _) eqn:Elog; [|injection Hc as Hc _; by eapply comparison_decided].
    apply both_Some in Hc as (dl & r1 & dr & Hl & Hr & Hk).
    assert (op = js "&&" ∨ op = js "||") as Hop
      by (apply orb_true_iff in Elog as [E|E]; apply str_eqb_eq in E; auto).
    destruct (logical_eval _ _ _ _ _ _ _ _ _ _ _ _ _ Hop Hev) as (vl & xb & s1 & Hvl & Hxb & Hcase).
    assert (Hx := IH lhs ltac:(simpl; set_solver) _ _ _ _ _ _ _ (Hsub lhs ltac:(simpl; set_solver)) Hl Hst Hvl).
    rewrite Hxb in Hx. injection Hx as ->.
    assert (Hs1 : coherent now s1) by (by eapply coherent_eval).
    assert (Hcomb : ∀ z, (∃ vr s2, eval (S d) rhs s1 = Ok (vr, s2) ∧ rv_value vr = VBoolean z) →
      z = resolve truth dr).
    { intros z (vr & s2 & Hvr & Hz).
      assert (Hy := IH rhs ltac:(simpl; set_solver) _ _ _ _ _ _ _ (Hsub rhs ltac:(simpl; set_solver)) Hr Hs1 Hvr).
      rewrite Hz in Hy. by injection Hy. }
    clear IH. injection Hk as Hk. unfold combine in Hk.
    destruct Hcase as [(Hx & _ & ->)|(Hx & vr & z & Hvr & Hz & ->)]; f_equal; simpl resolve.
    + destruct dl as [lb|lt], dr as [rb|rt]; simpl in Hx; subst; try done;
        rewrite ?eqb_reflx in Hk; simpl in Hk; try (by injection Hk as <-).
      destruct (Bool.eqb rb _) eqn:E; [|done]. injection Hk as <-. done.
    + rewrite (Hcomb z) by eauto. clear Hcomb Hvr Hz.
      destruct dl as [lb|lt], dr as [rb|rt]; simpl in Hx |- *; subst; rewrite ?Hx in Hk;
        destruct (op =s js "||"); simpl in Hk; try done; try (by injection Hk as <-);
        try (destruct rb; simpl in Hk; by injection Hk as <-);
        try (destruct rb; simpl in Hk; try done; by injection Hk as <-).
Qed.

(** The label followed is the tier matched. *)
Lemma followed_matched node lbl k prices d st w st' :
  followed source schema facts truth node lbl k prices →
  node_ok node → in_tree node (c_ast compiled) → coherent now st →
  eval d node st = Ok (w, st') → matchedTier st' = default (matchedTier st) lbl.
Proof.
  intros Hp. revert d st w st'.
  induction Hp as [v i s e Hv|field i p q rest s e b Hb|name i p q body rest s e k prices _ IH
    |c y n s e r c' r' lbl k prices Hc _ IH|op l r s e la ka pa lb kb pb k prices Hop _ IHl _ IHr Hlab _ _];
    intros d st w st' Hok Htree Hst Hev;
    assert (Hch := proj2 (node_ok_inv _ Hok)); rewrite Forall_forall in Hch;
    assert (Hsub : ∀ x, x ∈ children _ → in_tree x (c_ast compiled))
      by (intros x Hx; eapply in_tree_trans; [eapply in_tree_child; [exact Hx|apply in_tree_self]|exact Htree]).
  - by apply literal_eval in Hev as [-> _].
  - by apply usage_eval in Hev as [-> _].
  - assert (rest = []) as ->.
    { apply node_ok_inv in Hok as [(_ & _ & _ & Hvoc) _]. vm_compute own in Hvoc.
      unfold vocabulary_ok in Hvoc. by destruct rest. }
    destruct (tier_eval _ _ _ _ _ _ _ _ _ _ _ _ _ _ _ Hev) as (v & s1 & _ & ->). done.
  - destruct (eval_inv _ _ _ _ _ _ _ _ _ Hev) as (b & s1 & s2 & (v1 & H1 & Hb) & Hs2 & H2).
    assert (Hv := condition_sound _ _ _ _ _ _ _ _ (Hsub c ltac:(simpl; set_solver)) Hc Hst H1).
    rewrite Hb in Hv. injection Hv as ->.
    assert (matchedTier s2 = matchedTier st ∧ coherent now s2) as [Hm Hco].
    { assert (Hcok := Hch c ltac:(simpl; set_solver)).
      assert (Hs1 := coherent_eval _ _ _ _ _ _ _ _ _ Hst H1).
      assert (Hm1 := untiered_eval _ _ _ _ _ _ _ _ _ Hcok (condition_untiered _ _ _ _ _ _ _ Hcok Hc) H1).
      destruct Hs2 as [-> | [i ->]]; done. }
    rewrite <- Hm. eapply IH; [apply Hch|apply Hsub|exact Hco|exact H2];
      destruct (resolve truth c'); simpl; set_solver.
  - assert (Hlog : str_in op [js "&&"; js "||"] = false).
    { apply str_in_elem in Hop. set_unfold in Hop. destruct_or!; by subst. }
    destruct (eval_strict_inv _ _ _ _ _ _ _ _ _ _ _ _ _ Hlog Hev) as (a & s1 & b & Ha & Hb & _).
    rewrite (IHr _ _ _ _ (Hch r ltac:(simpl; set_solver)) (Hsub r ltac:(simpl; set_solver))
               (coherent_eval _ _ _ _ _ _ _ _ _ Hst Ha) Hb).
    rewrite (IHl _ _ _ _ (Hch l ltac:(simpl; set_solver)) (Hsub l ltac:(simpl; set_solver)) Hst Ha).
    by destruct la, lb, Hlab.
Qed.
End Selection.

(** ** Conditions and expressions *)

Lemma positive_divisor x y : num_leb y zero = false → is_amount (num_div x y) = true → num_ltb zero y = true.
Proof. destruct y as [[]|[]| |[] m e]; try done. by destruct x as [[]|[]| |[]]. Qed.

Section Sound.
Context (source : jsstring) (schema : BillingUsageSchema) (facts : list (jsstring * literal_value)).
Context (holds : ExpressionNode → bool) (truth : jsstring → bool) (root : ExpressionNode).
Context (Hdeclared : declared_facts schema facts) (Hshows : shows_truth source schema facts holds truth root).
Context (Hproto : own schema (js "__proto__") = None).
#[local] Set Default Proof Using "All".

Lemma decided_usage op l r s e key v b :
  op = js "==" ∨ op = js "!=" → compares l r key v →
  usage_condition schema facts op key v = Some b → decided facts holds (Binary op l r s e) b.
Proof.
  intros Hop Hc Hb. unfold usage_condition in Hb. destruct (own facts key) as [fact|] eqn:Ef; [|done]. cbn in Hb.
  destruct (Hdeclared key fact Ef) as (values & Hv & Hin). unfold category_values in Hv.
  assert (b = if op =s js "==" then bool_decide (fact = v) else bool_decide (fact ≠ v)) as ->.
  { destruct (own schema key ≫= field_type) as [[|]|] eqn:Et; cbn in Hv, Hb; [done| |].
    - destruct v; try done. injection Hb as <-. destruct (op =s js "=="); [done|]. by rewrite bool_decide_not.
    - rewrite bool_decide_eq_false_2 in Hb by done. destruct v as [t| | |]; try done. injection Hv as <-.
      destruct (str_in t _) eqn:Ht; [injection Hb as <-; destruct (op =s js "=="); [done|by rewrite bool_decide_not]|].
      assert (fact ≠ LString t) as Hne.
      { intros ->. apply not_true_iff_false in Ht. apply Ht, str_in_elem. apply list_elem_of_fmap in Hin as (x & [= ->] & Hx). done. }
      injection Hb as <-. destruct Hop as [-> | ->]; [change (js "==" =s js "!=") with false; change (js "==" =s js "==") with true
        |change (js "!=" =s js "!=") with true; change (js "!=" =s js "==") with false]; cbv iota;
        [by rewrite bool_decide_eq_false_2|by rewrite bool_decide_eq_true_2]. }
  destruct Hop as [-> | ->]; [change (js "==" =s js "==") with true|change (js "!=" =s js "==") with false]; cbv iota;
    by econstructor.
Qed.

Lemma usage_probe_compares l r key v : usage_probe l r = Some (key, v) → compares l r key v ∧ compares r l key v.
Proof. intros (i & p & q & rest & s & e & j & m & k & -> & ->)%usage_probe_Some. split; constructor. Qed.

(** A condition has the truth its displayed form resolves to. *)
Lemma condition_decided n : in_tree n root → ∀ r d r',
  taskDisplayCondition source schema facts n r = (Some d, r') → decided facts holds n (resolve truth d).
Proof.
  induction n as [n IH] using node_induction. rewrite Forall_forall in IH. intros Htree r d r' Hc.
  assert (Hsub : ∀ x, x ∈ children n → in_tree x root)
    by (intros x Hx; eapply in_tree_trans; [eapply in_tree_child; [exact Hx|apply in_tree_self]|exact Htree]).
  destruct d as [b|text]; [|by eapply Hshows].
  destruct n as [[t|v|b0|] i s e| |f args s e|op x s e|op lhs rhs s e|c y n s e];
    cbn [taskDisplayCondition] in Hc; apply spend_Some in Hc as [r0 Hc]; try done.
  - injection Hc as <- _. constructor.
  - destruct (op =s js "!") eqn:Eo; [|done]. apply str_eqb_eq in Eo as ->. apply then_Some in Hc as ([b1|] & r1 & Hx & Hk); [|done].
    injection Hk as <- _. cbn. constructor. by eapply (IH x ltac:(simpl; set_solver) ltac:(apply Hsub; simpl; set_solver) _ (Decided b1)).
  - destruct ((op =s js "&&") || (op =s js "||")) eqn:Eop.
    + apply both_Some in Hc as (dl & r1 & dr & Hl & Hr & Hk). injection Hk as Hk.
      pose proof (IH lhs ltac:(simpl; set_solver) ltac:(apply Hsub; simpl; set_solver) _ _ _ Hl) as Dl.
      pose proof (IH rhs ltac:(simpl; set_solver) ltac:(apply Hsub; simpl; set_solver) _ _ _ Hr) as Dr.
      assert (b = if op =s js "||" then resolve truth dl || resolve truth dr else resolve truth dl && resolve truth dr) as ->.
      { unfold combine in Hk. destruct (op =s js "||"), dl as [[]|], dr as [[]|]; cbn in *; try done;
          injection Hk as <-; by rewrite ?orb_true_r, ?andb_false_r. }
      apply orb_true_iff in Eop as [->%str_eqb_eq| ->%str_eqb_eq]; cbn [resolve];
        [change (js "&&" =s js "||") with false|change (js "||" =s js "||") with true]; cbv iota; by constructor.
    + injection Hc as Hc _. unfold comparison in Hc. destruct (str_in op [js "=="; js "!="]) eqn:Eeq.
      * assert (op = js "==" ∨ op = js "!=") as Hop by (apply str_in_elem in Eeq; set_solver).
        destruct (usage_probe lhs rhs) as [[key v]|] eqn:El.
        { destruct (usage_condition _ _ _ _ _) eqn:Eu; [|done]. injection Hc as <-.
          by eapply decided_usage; [|apply (usage_probe_compares _ _ _ _ El)|]. }
        destruct (usage_probe rhs lhs) as [[key v]|] eqn:Er; [|by destruct (_ && _)].
        destruct (usage_condition _ _ _ _ _) eqn:Eu; [|done]. injection Hc as <-.
        by eapply decided_usage; [|apply (usage_probe_compares _ _ _ _ Er)|].
      * by destruct (_ && _).
Qed.

(** Following the branch gives the amounts of the expression. *)
Lemma followed_priced n : ∀ lbl k prices, in_tree n root →
  followed source schema facts truth n lbl k prices →
  plain_fields prices ∧ priced schema facts holds n lbl k (own prices).
Proof.
  intros lbl k prices Htree Hf. revert Htree.
  induction Hf as [v i s e Hv|field i p q rest s e b Hb|name i p q body rest s e k prices _ IH
    |c y n s e r c' r' lbl k prices Hc _ IH|op l r s e la ka pa lb kb pb k prices Hop _ IHl _ IHr Hlab Hp Ham]; intros Htree.
  all: assert (Hsub : ∀ x, x ∈ children _ → in_tree x root)
      by (intros x Hx; eapply in_tree_trans; [eapply in_tree_child; [exact Hx|apply in_tree_self]|exact Htree]).
  - split; [split; [constructor|set_solver]|]. by apply priced_number.
  - pose proof (usage_branch_single _ _ _ Hb) as [= ->]. unfold usage_branch in Hb. cbn [branch_constant branch_prices].
    destruct (own schema field) as [definition|] eqn:Ed; [|done].
    destruct (_ && _) eqn:E; [|done]. apply andb_true_iff in E as [Et%bool_decide_eq_true Eu%bool_decide_eq_true].
    assert (field ≠ js "__proto__") as Hne by (intros ->; congruence).
    split; [split; [apply NoDup_singleton|by intros ?%list_elem_of_singleton]|].
    eapply priced_usage; [done..|]. intros f. cbn. unfold str_eqb.
    repeat case_decide; repeat case_bool_decide; congruence.
  - destruct (IH (Hsub body ltac:(simpl; set_solver))) as [Hpl Hpr]. split; [done|]. by constructor.
  - destruct (IH ltac:(destruct (resolve truth c'); apply Hsub; simpl; set_solver)) as [Hpl Hpr]. split; [done|].
    eapply priced_choice; [|exact Hpr]. eapply condition_decided; [apply Hsub; simpl; set_solver|exact Hc].
  - destruct (IHl (Hsub l ltac:(simpl; set_solver))) as [Hpla Hpra]. destruct (IHr (Hsub r ltac:(simpl; set_solver))) as [Hplb Hprb].
    apply str_in_elem in Hop. assert (op = js "+" ∨ op = js "*" ∨ op = js "/") as [-> |[-> | ->]] by set_solver.
    + destruct (amounts_sum (mkBranch la ka pa []) (mkBranch lb kb pb []) _ _ Hpla Hplb Ham Hp) as (-> & Hpl & Hr). split; [done|].
      by eapply priced_sum.
    + destruct (amounts_product (mkBranch la ka pa []) (mkBranch lb kb pb []) _ _ Hpla Hplb Ham Hp) as (-> & Hpl & [[Hn Hr]|[Hn Hr]]); (split; [done|]).
      * by eapply priced_scaled.
      * by eapply priced_scales.
    + destruct (amounts_quotient (mkBranch la ka pa []) (mkBranch lb kb pb []) _ _ Hpla Hplb Ham Hp) as (-> & Hpl & Hz & Hn & Hr). split; [done|].
      eapply priced_quotient; [exact Hpra|exact Hprb|done|done| |done].
      cbn [branch_constant] in Hz, Ham |- *. apply positive_divisor with (x := ka); [done|]. cbn [forallb] in Ham.
      by apply andb_true_iff in Ham as [Ham _].
Qed.
End Sound.

(** ** Combinations of facts *)

Lemma obj_insert_elem {A} (obj : list (jsstring * A)) k v e :
  e ∈ obj_insert obj k v ↔ e = (k, v) ∨ e ∈ obj.
Proof.
  induction obj as [|[k' v'] obj IH]; simpl; [set_solver|].
  destruct (key_before k k'); [set_solver|]. rewrite elem_of_cons, IH. set_solver.
Qed.
Lemma map_set_incl {A} (m : list (jsstring * A)) k v e : e ∈ map_set m k v → e = (k, v) ∨ e ∈ m.
Proof.
  induction m as [|[k' v'] m IH]; simpl; [set_solver|]. destruct (k' =s k) eqn:E; [|set_solver].
  apply str_eqb_eq in E as ->. set_solver.
Qed.
Lemma obj_define_incl {A} (obj : list (jsstring * A)) k v e :
  e ∈ obj_define obj k v → e = (k, v) ∨ e ∈ obj.
Proof.
  unfold obj_define. destruct (own obj k); [apply map_set_incl|]. by rewrite obj_insert_elem.
Qed.

(** The fact a request gives for a field. *)
Definition given_fact (given : list (jsstring * jsval)) (field : jsstring) : literal_value :=
  match own given field with
  | Some (VString s) => LString s
  | Some (VBoolean b) => LBoolean b
  | _ => LNull
  end.
Definition declares (schema : BillingUsageSchema) (given : list (jsstring * jsval)) (field : jsstring) : Prop :=
  ∀ values, category_values (own schema field) = Some values →
    ∃ fact, fact ∈ values ∧ own given field = Some (literal_to_value fact).

Lemma declares_given schema given field values :
  declares schema given field → category_values (own schema field) = Some values →
  given_fact given field ∈ values ∧ own given field = Some (literal_to_value (given_fact given field)).
Proof.
  intros Hd Hv. destruct (Hd _ Hv) as (fact & Hin & Hg). unfold given_fact. rewrite Hg.
  assert ((∃ s, fact = LString s) ∨ ∃ b, fact = LBoolean b) as [[s ->] | [b ->]]; [|done|done].
  unfold category_values in Hv. destruct (own schema field ≫= field_type) as [[|]|]; [done| |];
    injection Hv as <-; [set_unfold in Hin; naive_solver|].
  apply list_elem_of_fmap in Hin as (x & -> & _). eauto.
Qed.

(** The combination of the request is among those displayed. *)
Lemma given_combination schema given fields combinations found facts :
  fact_combinations schema fields combinations = Some found →
  (∀ field, field ∈ fields → declares schema given field) →
  facts ∈ combinations → (∀ k fact, (k, fact) ∈ facts → facts_of schema given [(k, fact)]) →
  ∃ facts', facts' ∈ found ∧ ∀ k fact, (k, fact) ∈ facts' → facts_of schema given [(k, fact)].
Proof.
  revert combinations facts. induction fields as [|field fields IH]; intros combinations facts Hf Hd Hin Hgood;
    cbn [fact_combinations] in Hf; [injection Hf as <-; by exists facts|].
  assert (Hd' : ∀ x, x ∈ fields → declares schema given x) by (intros; apply Hd; set_solver).
  destruct (category_values (own schema field)) as [values|] eqn:Ev; [|by eapply IH].
  destruct (_ || _); [done|].
  destruct (declares_given _ _ _ _ (Hd field ltac:(set_solver)) Ev) as [Hval Hgiven].
  eapply (IH _ (obj_define facts field (given_fact given field))); [exact Hf|done| |].
  - apply list_elem_of_In, in_flat_map. exists facts. split; [by apply list_elem_of_In|].
    by apply in_map, list_elem_of_In.
  - intros k fact Hk. apply obj_define_incl in Hk as [[= -> ->]|Hk]; [|by apply Hgood].
    intros x y Hxy. simpl in Hxy. destruct (field =s x) eqn:E; [|done]. apply str_eqb_eq in E as <-.
    injection Hxy as <-. split; [done|]. eauto.
Qed.

Lemma facts_of_entries schema given facts :
  (∀ k fact, (k, fact) ∈ facts → facts_of schema given [(k, fact)]) → facts_of schema given facts.
Proof.
  intros Hall k fact Hown. apply (Hall k fact); [by apply own_Some_elem|]. simpl. by rewrite str_eqb_refl.
Qed.

(** ** Rows *)
Lemma display_rows_branches source schema ast fields combinations remaining tiers rows :
  display_rows source schema ast fields combinations remaining tiers = Some rows →
  length tiers ≤ MAX_DISPLAY_ROWS →
  length rows ≤ MAX_DISPLAY_ROWS ∧
  ∃ new, rows = tiers ++ new ∧
    (∀ facts, facts ∈ combinations → ∃ r branches r',
       taskPriceBranches source schema facts ast r = (Some branches, r') ∧
       ∀ b, b ∈ branches → ∃ row, display_row schema fields facts b = Some row ∧ row ∈ new) ∧
    (∀ row, row ∈ new → ∃ facts b, facts ∈ combinations ∧ display_row schema fields facts b = Some row).
Proof.
  revert remaining tiers. induction combinations as [|facts combinations IH]; intros remaining tiers Hd Hl;
    cbn [display_rows] in Hd.
  { injection Hd as <-. split; [done|]. exists []. rewrite app_nil_r. set_solver. }
  destruct (taskPriceBranches _ _ _ _ _) as [[branches|] r'] eqn:Eb; [|done].
  cbn [mbind option_bind] in Hd. destruct (MAX_DISPLAY_ROWS <? _) eqn:Em; [done|]. apply Nat.ltb_ge in Em.
  destruct (map_option _ _) as [new|] eqn:En; [|done]. cbn [mbind option_bind] in Hd.
  apply map_option_Forall2 in En. pose proof (Forall2_length _ _ _ En).
  destruct (IH _ _ Hd ltac:(rewrite length_app; lia)) as (Hlen & more & -> & Hall & Hrow).
  split; [done|]. exists (new ++ more). split; [by rewrite <- app_assoc|]. split.
  - intros f [-> | Hf]%elem_of_cons.
    + exists remaining, branches, r'. split; [done|]. intros b Hb.
      apply list_elem_of_lookup in Hb as [i Hi].
      destruct (Forall2_lookup_l _ _ _ _ _ En Hi) as (row & Hrow' & Hdisp). exists row. split; [done|].
      apply elem_of_app. left. by apply list_elem_of_lookup_2 in Hrow'.
    + destruct (Hall f Hf) as (r & bs & r1 & Hbs & Hrows). exists r, bs, r1. split; [done|].
      intros b Hb. destruct (Hrows b Hb) as (row & ? & ?). exists row. split; [done|]. set_solver.
  - intros row [Hin|Hin]%elem_of_app.
    + apply list_elem_of_lookup in Hin as [i Hi].
      destruct (Forall2_lookup_r _ _ _ _ _ En Hi) as (b & _ & Hdisp). exists facts, b. set_solver.
    + destruct (Hrow row Hin) as (f & b & Hf & Hdisp). exists f, b. set_solver.
Qed.

(** A call of [u] on a field. *)
Definition names_usage (field : jsstring) (node : ExpressionNode) : Prop :=
  ∃ i p q rest s e, in_tree (Call (js "u") (Literal (LString field) i p q :: rest) s e) node.

Lemma usage_visit schema l fields valid :
  ∃ fields' valid', run_visitor (usage_visitor schema) l (fields, valid) = Ok (tt, (fields', valid')) ∧
    ∀ field, field ∈ fields' → field ∈ fields ∨
      ∃ i p q rest s e, Call (js "u") (Literal (LString field) i p q :: rest) s e ∈ l.
Proof.
  revert fields valid. induction l as [|n l IH]; intros fields valid; cbn [run_visitor].
  { exists fields, valid. split; [done|]. auto. }
  unfold mbind, stateR_bind.
  assert (∃ fields1 valid1, usage_visitor schema n (fields, valid) = Ok (tt, (fields1, valid1)) ∧
    ∀ field, field ∈ fields1 → field ∈ fields ∨
      ∃ i p q rest s e, n = Call (js "u") (Literal (LString field) i p q :: rest) s e) as (f1 & v1 & -> & H1).
  { destruct n as [| |f args s e| | |]; try (exists fields, valid; split; [done|auto]).
    unfold usage_visitor. destruct (f =s js "u") eqn:Ef; [|exists fields, valid; split; [done|auto]].
    apply str_eqb_eq in Ef as ->.
    destruct args as [|[[t| | |] i p q| | | | |] rest];
      try (exists fields, false; split; [done|auto]).
    destruct (own schema t); [|exists fields, false; split; [done|auto]].
    eexists _, valid. split; [reflexivity|]. intros field. destruct (str_in t fields); [auto|].
    intros [Hf|Hf]%elem_of_app; [auto|]. apply list_elem_of_singleton in Hf as ->. right. by repeat eexists. }
  destruct (IH f1 v1) as (f2 & v2 & -> & H2). exists f2, v2. split; [done|].
  intros field Hf. destruct (H2 _ Hf) as [Hf1|(i & p & q & rest & s & e & Hin)].
  - destruct (H1 _ Hf1) as [|(i & p & q & rest & s & e & ->)]; [auto|]. right. repeat eexists. by left.
  - right. repeat eexists. right. exact Hin.
Qed.

(** The parts of a table that was read. *)
Lemma read_rows source schema c rows :
  compile_source source = Ready c → readConditionalTaskPricing source schema = Ok (Some rows) →
  ∃ fields combinations,
    (∀ field, field ∈ fields → names_usage field (c_ast c)) ∧
    fact_combinations schema fields [[]] = Some combinations ∧
    display_rows source schema (c_ast c) fields combinations display_budget [] = Some rows.
Proof.
  intros Hc Hr. unfold readConditionalTaskPricing in Hr. rewrite Hc in Hr.
  rewrite visitExpression_reference, visit_postorder_within in Hr by apply (compile_source_ready _ _ Hc).
  destruct (usage_visit schema (postorder (c_ast c)) [] true) as (fields & valid & Hrun & Hf).
  rewrite Hrun in Hr. cbn [mbind result_bind] in Hr. injection Hr as Hr.
  destruct (negb valid); [done|]. destruct (fact_combinations _ _ _) as [combinations|] eqn:Ec; [|done].
  exists fields, combinations. split; [|done]. intros field Hin.
  destruct (Hf _ Hin) as [Hn|(i & p & q & rest & s & e & Hcall)]; [set_solver|]. by repeat eexists.
Qed.

(** ** Theorems *)

(** C12. The branches of a task price are exact: for every truth assignment to
    the displayed conditions on the time, one and only one branch applies. When
    the assigned truths are those of the comparisons with the time, the facts
    are declared values and no field is named [__proto__], its label, its
    constant and its price for each field are the amounts of the expression: the
    sums, products and quotients along the sides its conditions choose. *)
Theorem price_branches_exact source schema facts node r branches r' truth :
  taskPriceBranches source schema facts node r = (Some branches, r') →
  ∃ branch, applicable truth branches = [branch] ∧
    ∀ holds, shows_truth source schema facts holds truth node → declared_facts schema facts →
      own schema (js "__proto__") = None →
      ∀ lbl k rates, priced schema facts holds node lbl k rates ↔
        lbl = branch_label branch ∧ k = branch_constant branch ∧ ∀ f, rates f = own (branch_prices branch) f.
Proof.
  intros Hb. apply branches_applicable with (truth := truth) in Hb as (_ & branch & Happ & Hf).
  exists branch. split; [done|]. intros holds Hshows Hdecl Hproto lbl k rates.
  destruct (followed_priced _ _ _ _ _ _ Hdecl Hshows Hproto _ _ _ _ (in_tree_self node) Hf) as [_ Hp]. split.
  - intros Hp'. by apply (priced_unique _ _ _ _ _ _ _ Hp').
  - intros (-> & -> & Hr). by eapply priced_pointwise.
Qed.

Definition example_compiled : CompiledBillingExpression :=
  Eval vm_compute in compiled_of (compile_source example_source).
Lemma example_compiles : compile_source example_source = Ready example_compiled.
Proof. vm_compute. reflexivity. Qed.
Definition example_facts : list (jsstring * literal_value) :=
  [(js "resolution", LString (js "1080p")); (js "audio", LBoolean true)].
Definition example_branches : list PriceBranch :=
  Eval vm_compute in
    default [] (taskPriceBranches example_source example_schema example_facts
                  (c_ast example_compiled) display_budget).1.

(** It is not before eight o'clock, the only comparison with the time. *)
Lemma example_shows : shows_truth example_source example_schema example_facts (λ _, false) (λ _, false) (c_ast example_compiled).
Proof.
  assert (Forall (λ n, ∀ r text r', taskDisplayCondition example_source example_schema example_facts n r = (Some (Pending text), r') →
    decided example_facts (λ _, false) n false) (postorder (c_ast example_compiled))) as H;
    [|rewrite Forall_forall in H; intros n r text r' Hn; by apply H].
  let l := eval vm_compute in (postorder (c_ast example_compiled)) in change (postorder (c_ast example_compiled)) with l.
  repeat (apply Forall_cons; split; [|]); [..|constructor].
  all: intros r text r' Hc; try (apply spend_Some in Hc as [r0 Hc]; done).
  clear. apply (decided_time _ (λ _, false)); [by apply str_in_elem|].
  intros (args & s & e & Hin). unfold in_tree in Hin. change (js "u") with [117%N] in Hin. cbn in Hin.
  repeat (apply elem_of_cons in Hin as [[=]|Hin]). by apply not_elem_of_nil in Hin.
Qed.
Lemma example_declared : declared_facts example_schema example_facts.
Proof.
  intros field fact Hf%own_Some_elem. unfold example_facts in Hf.
  repeat (apply elem_of_cons in Hf as [[= -> ->]|Hf]); [..|by apply not_elem_of_nil in Hf];
    (eexists; split; [vm_compute; reflexivity|]); repeat first [by left|right].
Qed.

Example price_branches_exact_witness :
  length example_branches = 2 ∧
  ∃ branch, applicable (λ _, false) example_branches = [branch] ∧ branch_label branch = Some (js "day") ∧
    own (branch_prices branch) (js "seconds") = Some (num_div (num_of_Z 1) (num_of_Z 2)) ∧
    priced example_schema example_facts (λ _, false) (c_ast example_compiled)
      (branch_label branch) (branch_constant branch) (own (branch_prices branch)).
Proof.
  assert (Hb : ∃ r', taskPriceBranches example_source example_schema example_facts
    (c_ast example_compiled) display_budget = (Some example_branches, r')) by (eexists; vm_compute; reflexivity).
  destruct Hb as [r' Hb].
  destruct (price_branches_exact _ _ _ _ _ _ _ (λ _, false) Hb) as (branch & Ha & Hp).
  split; [vm_compute; reflexivity|]. exists branch. split; [exact Ha|].
  pose proof Ha as Ha'. vm_compute in Ha'. injection Ha' as Hbr. rewrite <- Hbr at 1 2. split; [reflexivity|]. split; [reflexivity|].
  apply (Hp (λ _, false) example_shows example_declared); [reflexivity|]. split_and!; done.
Defined.

(** C2. The displayed rows cover the bill: when an expression is shown as rows
    of facts and times, and a request gives every category field the expression
    names one of its declared values, a successful evaluation ends with the
    tier label of a row whose facts are those of the request and whose
    conditions on the time all hold. *)
Theorem task_row_billed `{Host} clock source schema c context given rows truth v st :
  compile_source source = Ready c →
  readConditionalTaskPricing source schema = Ok (Some rows) →
  usage context = Some given →
  (∀ field, names_usage field (c_ast c) → declares schema given field) →
  (∀ facts n r text r' w s',
     in_tree n (c_ast c) → facts_of schema given facts →
     taskDisplayCondition source schema facts n r = (Some (Pending text), r') →
     run_billing clock c context n = Ok (w, s') → rv_value w = VBoolean (truth text)) →
  run_billing clock c context (c_ast c) = Ok (v, st) →
  ∃ row times, row ∈ rows ∧ task_label row = matchedTier st ∧
    (∀ field value, (field, value) ∈ task_conditions row →
       ∃ fact, own given field = Some (literal_to_value fact) ∧ value = fact_text fact) ∧
    applies truth times = true ∧ default [] (task_conditionText row) = describe_times times.
Proof.
  intros Hc Hread Hu Hd Htruth Hrun. pose proof (compile_source_ready _ _ Hc) as Hok.
  destruct (read_rows _ _ _ _ Hc Hread) as (fields & combinations & Hfields & Hcomb & Hrows).
  destruct (given_combination _ given _ _ _ [] Hcomb) as (facts & Hfacts & Hentries);
    [by auto|set_solver|set_solver|].
  pose proof (facts_of_entries _ _ _ Hentries) as Hof.
  destruct (display_rows_branches _ _ _ _ _ _ _ _ Hrows ltac:(simpl; lia)) as (_ & new & -> & Hall & _).
  destruct (Hall _ Hfacts) as (r & branches & r' & Hb & Hdisplay).
  destruct (branches_applicable _ _ _ truth _ _ _ _ Hb) as (_ & b & Happ & Hp).
  assert (Hin : In b (applicable truth branches)) by (rewrite Happ; by left).
  apply filter_In in Hin as [Hin Htimes]. destruct (Hdisplay b ltac:(by apply list_elem_of_In)) as (row & Hrow & Hnew).
  unfold run_billing in Hrun. apply bind_Ok in Hrun as (hs & Hh & Hev).
  assert (Hmatched : matchedTier st = default (matchedTier (initial_state c)) (branch_label b)).
  { eapply (followed_matched c context _ hs source schema facts truth given); try exact Hev; try done.
    - intros n r0 text r0' w s' Hn Hcond Hev0. eapply Htruth; [done|exact Hof|exact Hcond|].
      unfold run_billing. rewrite Hh. exact Hev0.
    - apply Hok.
    - apply in_tree_self. }
  unfold display_row in Hrow. destruct (branch_label b) as [label|] eqn:El; [|done].
  cbn [mbind option_bind] in Hrow. destruct (_ || _); [done|]. injection Hrow as <-.
  eexists _, (branch_times b). split; [exact Hnew|]. cbn. split_and!; [done| |done|].
  - intros field value Hfv. apply list_elem_of_In, in_map_iff in Hfv as ([k fact] & [= <- <-] & Hk).
    apply list_elem_of_In in Hk. exists fact. split; [|done].
    apply (Hentries _ _ Hk k fact). simpl. by rewrite str_eqb_refl.
  - destruct (describe_times (branch_times b) =s []) eqn:E; [|done]. by apply str_eqb_eq in E as ->.
Qed.

Definition night_source : jsstring :=
  js "hour('UTC') < 8 ? tier('night', u('seconds') * 1) : tier('day', u('seconds') * 3)".
Definition night_schema : BillingUsageSchema :=
  [(js "seconds", plain_field (Some type_number) (Some unit_second) None)].
Definition night_compiled : CompiledBillingExpression :=
  Eval vm_compute in compiled_of (compile_source night_source).
Lemma night_compiles : compile_source night_source = Ready night_compiled.
Proof. vm_compute. reflexivity. Qed.
Definition night_rows : list TaskTier :=
  Eval vm_compute in match readConditionalTaskPricing night_source night_schema with
                     | Ok (Some rows) => rows | _ => [] end.
Lemma night_reads : readConditionalTaskPricing night_source night_schema = Ok (Some night_rows).
Proof. vm_compute. reflexivity. Qed.
Definition night_given : list (jsstring * jsval) := [(js "seconds", VNumber (num_of_Z 5))].
Definition night_context : BillingSimulationContext :=
  mkContext None None None (Some night_given) (Some (Some 36000000%Z)).

Lemma night_declares field : names_usage field (c_ast night_compiled) → declares night_schema night_given field.
Proof.
  intros (i & p & q & rest & s & e & Hin) values Hv. unfold in_tree in Hin.
  assert (field = js "seconds") as ->.
  { vm_compute in Hin. repeat (apply elem_of_cons in Hin as [Hin|Hin];
      [try discriminate Hin; injection Hin as -> _; vm_compute; reflexivity|]). by apply elem_of_nil in Hin. }
  discriminate Hv.
Qed.

(** At ten o'clock no condition on the time holds. *)
Lemma night_truth facts n r text r' w s' :
  in_tree n (c_ast night_compiled) →
  taskDisplayCondition night_source night_schema facts n r = (Some (Pending text), r') →
  @run_billing utc_host None night_compiled night_context n = Ok (w, s') → rv_value w = VBoolean false.
Proof.
  intros Hin Hc Hrun. unfold in_tree in Hin.
  assert (n = match c_ast night_compiled with Conditional c _ _ _ _ => c | n => n end) as ->.
  { vm_compute in Hin. vm_compute.
    repeat (apply elem_of_cons in Hin as [->|Hin]; [try reflexivity;
      exfalso; cbn [taskDisplayCondition] in Hc; apply spend_Some in Hc as [r0 Hc];
      vm_compute in Hc; discriminate Hc|]). by apply elem_of_nil in Hin. }
  vm_compute in Hrun. injection Hrun as <- _. reflexivity.
Qed.

Example task_row_billed_witness :
  ∃ v st row times, @run_billing utc_host None night_compiled night_context (c_ast night_compiled) = Ok (v, st) ∧
    matchedTier st = js "day" ∧ row ∈ night_rows ∧ task_label row = matchedTier st ∧
    applies (λ _, false) times = true ∧ default [] (task_conditionText row) = describe_times times.
Proof.
  assert (∃ v st, @run_billing utc_host None night_compiled night_context (c_ast night_compiled) = Ok (v, st)
    ∧ matchedTier st = js "day") as (v & st & Hrun & Hday) by (do 2 eexists; vm_compute; split; reflexivity).
  assert (Hu : usage night_context = Some night_given) by reflexivity.
  destruct (task_row_billed None night_source night_schema night_compiled night_context night_given night_rows
    (λ _, false) v st night_compiles night_reads Hu night_declares
    (λ facts n r text r' w s' Hin _ Hc Hr, night_truth facts n r text r' w s' Hin Hc Hr) Hrun)
    as (row & times & Hrow & Hl & _ & Ht & Htext).
  exists v, st, row, times. split; [exact Hrun|]. split; [exact Hday|]. split; [exact Hrow|].
  split; [exact Hl|]. split; [exact Ht|exact Htext].
Defined.

(** The table is bounded and never fails: reading it does not throw for any
    source and schema; a table has at most 128 rows; and every row has at least
    one unit price and only finite ones. *)
Theorem task_rows_bounded source schema :
  (∀ e, readConditionalTaskPricing source schema ≠ Err e) ∧
  (∀ rows, readConditionalTaskPricing source schema = Ok (Some rows) →
     length rows ≤ 128 ∧
     ∀ row, row ∈ rows → unitPrices row ≠ [] ∧ Forall (λ p, is_finite (snd p) = true) (unitPrices row)).
Proof.
  split.
  - intros e. unfold readConditionalTaskPricing.
    destruct (compile_source source) as [c|] eqn:Hc; [|done].
    rewrite visitExpression_reference, visit_postorder_within by apply (compile_source_ready _ _ Hc).
    destruct (usage_visit schema (postorder (c_ast c)) [] true) as (fields & valid & -> & _). done.
  - intros rows Hr. destruct (compile_source source) as [c|] eqn:Hc;
      [|unfold readConditionalTaskPricing in Hr; by rewrite Hc in Hr].
    destruct (read_rows _ _ _ _ Hc Hr) as (fields & combinations & _ & _ & Hrows).
    destruct (display_rows_branches _ _ _ _ _ _ _ _ Hrows ltac:(simpl; lia)) as (Hlen & new & -> & _ & Hrow).
    split; [exact Hlen|]. intros row Hin. destruct (Hrow row Hin) as (facts & b & _ & Hd).
    unfold display_row in Hd. destruct (branch_label b); [|done]. cbn [mbind option_bind] in Hd.
    destruct (is_empty (unit_prices schema fields b) || _) eqn:E; [done|]. injection Hd as <-. simpl.
    apply orb_false_iff in E as [He Hf]. split; [by intros Hnil; rewrite Hnil in He|].
    apply negb_false_iff in Hf. rewrite forallb_forall in Hf. apply Forall_forall. intros p Hp.
    apply Hf, in_map. by apply list_elem_of_In.
Qed.
