(* ===== verification/ConditionDisplay.v ===== *)
(** * billing-expression/condition-display.ts

    Conditions of tiers and rules in words: ranges of the hour, the weekday,
    the month and so on, joined by translated phrases. The translation function
    and the browser's locale services are the class [DisplayHost]; each can
    throw, and [formatBillingCondition] catches everything. *)

From S2P Require Import Prelude JsNumber JsText JsNumberFacts JsIntegers Types Parser Compile Runtime.
From S2P Require Import Display.

(** [t(key, options)], [new Intl.DateTimeFormat(locale, {weekday: 'short',
    timeZone: 'UTC'}).format] of a time value, [n.toLocaleString(locale)] and
    [Intl.getCanonicalLocales(tag)[0]]. An absent locale is [undefined]. *)
Class DisplayHost := {
  translation : jsstring → list (jsstring * jsval) → result jsstring;
  format_weekday : option jsstring → Z → result jsstring;
  to_locale_string : option jsstring → num → result jsstring;
  canonical_locale : jsstring → result jsstring
}.

Inductive DescriptionKind := kind_calendar | kind_clock | kind_combined.
#[export] Instance DescriptionKind_eq_dec : EqDecision DescriptionKind.
Proof. solve_decision. Defined.

Record Description := mkDescription {
  d_text : jsstring;
  d_kind : DescriptionKind;
  d_timezone : jsstring;
  disjunction : bool
}.
Record TimeComparison := mkComparison {
  cmp_name : jsstring;
  cmp_timezone : jsstring;
  cmp_operator : jsstring;
  cmp_value : num
}.

(** The start and the end of a function's values; [month] and [day] from 1. *)
Definition DOMAINS (name : jsstring) : num * num :=
  let range a b := (num_of_Z a, num_of_Z b) in
  if name =s js "hour" then range 0%Z 24%Z
  else if name =s js "minute" then range 0%Z 60%Z
  else if name =s js "weekday" then range 0%Z 7%Z
  else if name =s js "month" then range 1%Z 13%Z
  else range 1%Z 32%Z.

Definition range_operators : list jsstring := map js ["=="; ">="; ">"; "<="; "<"]%string.

Definition timeComparison (node : ExpressionNode) : option TimeComparison :=
  match node with
  | Binary op (Call f (Literal (LString zone) _ _ _ :: _) _ _) (Literal (LNumber v) _ _ _) _ _ =>
      if str_in op range_operators && str_in f TIME_FUNCTIONS && is_integer v then
        let zone := trim zone in
        Some (mkComparison f (if zone =s [] then js "UTC" else zone) op v)
      else None
  | _ => None
  end.

(** One iteration of the [switch] on (start, end). *)
Definition narrow (range : num * num) (comparison : TimeComparison) : num * num :=
  let '(start, stop) := range in
  let v := cmp_value comparison in
  let after := num_add v (num_of_Z 1) in
  let op := cmp_operator comparison in
  if op =s js ">=" then (num_max start v, stop)
  else if op =s js ">" then (num_max start after, stop)
  else if op =s js "<" then (start, num_min stop v)
  else if op =s js "<=" then (start, num_min stop after)
  else if op =s js "==" then (num_max start v, num_min stop after)
  else range.

Definition time_range (first : TimeComparison) (comparisons : list TimeComparison) : num * num :=
  foldl narrow (DOMAINS (cmp_name first)) comparisons.

(** [Date.UTC(2026, 0, 4 + day)], 2026-01-04 being day 20457. *)
Definition weekday_date (day : num) : Z := ((20457 + trunc_Z day) * ms_per_day)%Z.

(** The en dash between the start and the end. *)
Definition range_key : jsstring := js "{{start}}" ++ [8211%N] ++ js "{{end}}".

Section Words.
Context `{DisplayHost}.

(** toIntlLocale of i18n/languages.ts. *)
Definition toIntlLocale (value : option jsstring) : option jsstring :=
  match value with
  | None | Some [] => None
  | Some value =>
      if value =s js "zhCN" then Some (js "zh-CN")
      else if value =s js "zhTW" then Some (js "zh-TW")
      else match canonical_locale value with Ok tag => Some tag | Err _ => None end
  end.

(** The [translate] that formatBillingCondition passes down. *)
Definition translate (key : jsstring) (options : list (jsstring * jsval)) : result jsstring :=
  translation key
    (options ++ [(js "interpolation", VObject [(js "escapeValue", VBoolean false)])]).

Section Locale.
Context (locale : jsstring).

Definition two_digits (n : num) : jsval :=
  VString (pad_start 2 48%N (num_to_string n) ++ js ":00").

Definition describeTimeRange (first : TimeComparison) (comparisons : list TimeComparison)
    : result (option Description) :=
  let '(start, stop) := time_range first comparisons in
  if num_leb stop start then Ok None
  else
    let last := num_sub stop (num_of_Z 1) in
    let single := num_eqb start last in
    let name := cmp_name first in
    '(text, kind) ←
      (if name =s js "hour" then
         text ← translate range_key [(js "start", two_digits start); (js "end", two_digits stop)];
         Ok (text, kind_clock)
       else if name =s js "weekday" then
         let format day := format_weekday (toIntlLocale (Some locale)) (weekday_date day) in
         from ← format start;
         to ← format last;
         text ← (if single then Ok from
                 else translate range_key [(js "start", VString from); (js "end", VString to)]);
         Ok (text, kind_calendar)
       else
         values ← (if single then Ok (num_to_string start)
                   else translate range_key [(js "start", VNumber start); (js "end", VNumber last)]);
         unit ← translate (if name =s js "minute" then js "Minute"
                           else if name =s js "month" then js "Month" else js "Day") [];
         Ok (unit ++ js ": " ++ values, kind_calendar));
    Ok (Some (mkDescription text kind (cmp_timezone first) false)).

(** A variable against a number. *)
Definition variable_label (name : jsstring) : option jsstring :=
  own [(js "p", js "Input"); (js "c", js "Output"); (js "len", js "Full input length")] name.
Definition variable_comparison (node : ExpressionNode) : option (jsstring * jsstring * num) :=
  match node with
  | Binary op (Variable_ name _ _) (Literal (LNumber v) _ _ _) _ _ =>
      if str_in op comparisons then Some (name, op, v) else None
  | _ => None
  end.
Definition describeVariable (name op : jsstring) (v : num) : result (option Description) :=
  match variable_label name with
  | None => Ok None
  | Some label =>
      text ← translate label [];
      number ← to_locale_string (toIntlLocale (Some locale)) v;
      Ok (Some (mkDescription (text ++ js " " ++ op ++ js " " ++ number) kind_combined [] false))
  end.

(** ** A chain of one operator *)

(** Steps that return [null] at the first [null]. *)
Fixpoint collect {A} (f : A → result (option Description)) (l : list A)
    : result (option (list Description)) :=
  match l with
  | [] => Ok (Some [])
  | x :: l =>
      description ← f x;
      match description with
      | None => Ok None
      | Some d => ds ← collect f l; Ok (ds ← ds; Some (d :: ds))
      end
  end.

(** [&&]: the comparisons of one function and zone form one range. *)
Definition range_name (c : TimeComparison) : jsstring := cmp_name c ++ js ":" ++ cmp_timezone c.
Definition gather (ranges : list (jsstring * list TimeComparison)) (c : TimeComparison)
    : list (jsstring * list TimeComparison) :=
  map_set ranges (range_name c) (default [] (own ranges (range_name c)) ++ [c]).
Definition describe_ranges (ranges : list (jsstring * list TimeComparison))
    : result (option (list Description)) :=
  collect (λ '(_, range),
    match range with
    | first :: _ => describeTimeRange first range
    | [] => Ok None
    end) ranges.

(** Each part comes with its own description. *)
Abbreviation parts_of := (list (ExpressionNode * result (option Description))).
Definition and_parts (nodes : parts_of) : result (option (list Description)) :=
  let ranges := foldl (λ ranges part,
    match timeComparison part.1 with Some c => gather ranges c | None => ranges end) [] nodes in
  others ← collect snd
    (List.filter (λ part, bool_decide (timeComparison part.1 = None)) nodes);
  match others with
  | None => Ok None
  | Some others =>
      described ← describe_ranges ranges;
      Ok (described ← described; Some (others ++ described))
  end.
Definition or_parts (nodes : parts_of) : result (option (list Description)) := collect snd nodes.

Definition bracketed (operator : jsstring) (part : Description) : jsstring :=
  if (operator =s js "&&") && disjunction part then js "(" ++ d_text part ++ js ")" else d_text part.

Fixpoint join_parts (operator : jsstring) (text : jsstring) (parts : list Description)
    : result jsstring :=
  match parts with
  | [] => Ok text
  | part :: parts =>
      text ← translate (if operator =s js "&&" then js "{{first}} and {{second}}"
                        else js "{{first}} or {{second}}")
               [(js "first", VString text); (js "second", VString (bracketed operator part))];
      join_parts operator text parts
  end.

Definition of_kind (k : DescriptionKind) (parts : list Description) : list Description :=
  List.filter (λ part, bool_decide (d_kind part = k)) parts.

Definition combine_parts (operator : jsstring) (parts : list Description)
    : result (option Description) :=
  let zones := remove_dups (List.filter (λ z, negb (z =s [])) (map d_timezone parts)) in
  match parts with
  | [] => Ok None
  | first :: others =>
      if 1 <? length zones then Ok None
      else
        match others, of_kind kind_calendar parts, of_kind kind_clock parts with
        | [], _, _ => Ok (Some first)
        | _, calendars, clocks =>
            let joined :=
              text ← join_parts operator (bracketed operator first) others;
              Ok (Some (mkDescription text
                          (if length clocks =? length parts then kind_clock else kind_combined)
                          (default [] (head zones)) (operator =s js "||"))) in
            match others, calendars, clocks with
            | [_], [calendar], [clock] =>
                if operator =s js "&&" then
                  Ok (Some (mkDescription (d_text calendar ++ js " " ++ d_text clock)
                              kind_combined (d_timezone first) false))
                else joined
            | _, _, _ => joined
            end
        end
  end.

Fixpoint describeBillingCondition (node : ExpressionNode) : result (option Description) :=
  match node with
  | Unary operator operand _ _ =>
      if operator =s js "!" then
        description ← describeBillingCondition operand;
        match description with
        | None => Ok None
        | Some d =>
            text ← translate (js "Outside these times: {{condition}}")
                     [(js "condition", VString (d_text d))];
            Ok (Some (mkDescription text kind_combined (d_timezone d) (disjunction d)))
        end
      else Ok None
  | Binary operator lhs rhs _ _ =>
      match variable_comparison node, timeComparison node with
      | Some (name, op, v), _ => describeVariable name op v
      | None, Some single => describeTimeRange single [single]
      | None, None =>
          let flatten :=
            fix flatten (n : ExpressionNode) : parts_of :=
              match n with
              | Binary op l r _ _ =>
                  if op =s operator then flatten l ++ flatten r
                  else [(n, describeBillingCondition n)]
              | _ => [(n, describeBillingCondition n)]
              end in
          if str_in operator [js "&&"; js "||"] then
            let nodes := flatten lhs ++ flatten rhs in
            parts ← (if operator =s js "&&" then and_parts nodes else or_parts nodes);
            match parts with
            | None => Ok None
            | Some parts => combine_parts operator parts
            end
          else Ok None
      end
  | _ => Ok None
  end.

(** The [try]; an exception is [null]. *)
Definition formatBillingCondition (source : jsstring) : option jsstring :=
  match compile_source source with
  | CompileFailed _ => None
  | Ready compiled =>
      let formatted :=
        description ← describeBillingCondition (c_ast compiled);
        match description with
        | None => Ok None
        | Some d =>
            if d_timezone d =s [] then Ok (Some (d_text d))
            else
              text ← translate (js "{{condition}} ({{timezone}})")
                       [(js "condition", VString (d_text d));
                        (js "timezone", VString (d_timezone d))];
              Ok (Some text)
        end in
      match formatted with Ok text => text | Err _ => None end
  end.
End Locale.
End Words.

(** A host that keeps keys and prints the texts of its options. *)
Definition plain_host : DisplayHost := {|
  translation := λ key options, Ok (key ++ List.concat
    (map (λ '(k, v), match v with VString s => js "[" ++ s ++ js "]" | _ => [] end) options));
  format_weekday := λ _ t, Ok (dec_string (Z.to_N (utc_day_of_week t)));
  to_locale_string := λ _ n, Ok (num_to_string n);
  canonical_locale := λ tag, Ok tag
|}.
Example overnight :
  formatBillingCondition (H := plain_host) (js "en")
    (js "hour('UTC') >= 9 && weekday('UTC') <= 5 && hour('UTC') < 18 && weekday('UTC') > 0") =
  Some (js "{{condition}} ({{timezone}})[" ++ range_key ++ js "[1][5] " ++ range_key
        ++ js "[09:00][18:00]][UTC]").
Proof. vm_compute. reflexivity. Qed.
Example contradiction_not_described :
  formatBillingCondition (H := plain_host) (js "en") (js "hour('UTC') >= 9 && hour('UTC') < 6") = None.
Proof. vm_compute. reflexivity. Qed.

(** * What is shown holds *)

(** The values of a function: from the first to before the second. *)
Definition domain (name : jsstring) : Z * Z :=
  if name =s js "hour" then (0, 24)%Z
  else if name =s js "minute" then (0, 60)%Z
  else if name =s js "weekday" then (0, 7)%Z
  else if name =s js "month" then (1, 13)%Z
  else (1, 32)%Z.

Lemma DOMAINS_domain name :
  DOMAINS name = (num_of_Z (domain name).1, num_of_Z (domain name).2) ∧
  (0 ≤ (domain name).1 ∧ (domain name).2 ≤ 60)%Z.
Proof. unfold DOMAINS, domain. repeat case_match; split; try done; simpl; lia. Qed.

(** The interpreter's value of the comparison when the function gives [v]. *)
Definition compares (v : Z) (c : TimeComparison) : Prop :=
  ∃ w, apply_binary (cmp_operator c) 0 (mkValue (VNumber (num_of_Z v)) true)
         (mkValue (VNumber (cmp_value c)) true) = Ok w ∧ rv_value w = VBoolean true.

(** A comparison with an integer that the interpreter accepts. *)
Definition integer_comparison (c : TimeComparison) : Prop :=
  cmp_operator c ∈ range_operators ∧
  ∃ z, (Z.abs z ≤ max_safe_integer - 1)%Z ∧ cmp_value c = num_of_Z z.

(** The range of integers after a comparison. *)
Definition narrow_Z (range : Z * Z) (op : jsstring) (z : Z) : Z * Z :=
  let '(start, stop) := range in
  if op =s js ">=" then (Z.max start z, stop)
  else if op =s js ">" then (Z.max start (z + 1), stop)
  else if op =s js "<" then (start, Z.min stop z)
  else if op =s js "<=" then (start, Z.min stop (z + 1))
  else if op =s js "==" then (Z.max start z, Z.min stop (z + 1))
  else range.

Lemma narrow_exact start stop c z :
  small start → small stop → (Z.abs z ≤ max_safe_integer - 1)%Z → cmp_value c = num_of_Z z →
  narrow (num_of_Z start, num_of_Z stop) c =
  (num_of_Z (narrow_Z (start, stop) (cmp_operator c) z).1,
   num_of_Z (narrow_Z (start, stop) (cmp_operator c) z).2).
Proof.
  intros Hs He Hz Hv. unfold narrow. rewrite Hv.
  assert (small z ∧ small (z + 1)) as [Hsz Hsz1] by (unfold small, max_safe_integer in *; lia).
  assert (num_add (num_of_Z z) (num_of_Z 1) = num_of_Z (z + 1)) as ->.
  { apply num_add_Z; [done|by vm_compute|done]. }
  rewrite !num_max_Z, !num_min_Z by done. unfold narrow_Z. by repeat case_match.
Qed.

Lemma narrow_Z_small start stop op z :
  small start → small stop → (Z.abs z ≤ max_safe_integer - 1)%Z →
  small (narrow_Z (start, stop) op z).1 ∧ small (narrow_Z (start, stop) op z).2.
Proof.
  unfold small, max_safe_integer, narrow_Z. intros. repeat case_match; simpl; lia.
Qed.

(** The interpreter on a comparison of two numbers. *)
Definition compare_numbers (op : jsstring) (a b : num) : bool :=
  if op =s js "==" then num_eqb a b
  else if op =s js ">=" then num_leb b a
  else if op =s js ">" then num_ltb b a
  else if op =s js "<=" then num_leb a b
  else num_ltb a b.
Lemma apply_comparison op a b i j :
  op ∈ range_operators →
  apply_binary op 0 (mkValue (VNumber a) i) (mkValue (VNumber b) j) =
  Ok (value (VBoolean (compare_numbers op a b))).
Proof.
  unfold range_operators. simpl. intros Hop. set_unfold in Hop. destruct_or!; subst op; reflexivity.
Qed.

(** One comparison keeps exactly the values for which it holds. *)
Lemma compares_narrow v start stop c z :
  small v → (Z.abs z ≤ max_safe_integer - 1)%Z → cmp_operator c ∈ range_operators →
  cmp_value c = num_of_Z z →
  let range := narrow_Z (start, stop) (cmp_operator c) z in
  (range.1 ≤ v < range.2)%Z ↔ (start ≤ v < stop)%Z ∧ compares v c.
Proof.
  intros Hv Hz Hop Hval. unfold compares. rewrite Hval.
  assert (small z) as Hsz by (unfold small, max_safe_integer in *; lia).
  assert (Hb : ∀ b : bool, (∃ w, Ok (value (VBoolean b)) = Ok w ∧ rv_value w = VBoolean true) ↔ b = true).
  { intros b. split; [intros (w & [= <-] & [= ->]); done|]. intros ->. eauto. }
  rewrite apply_comparison, Hb by done. unfold compare_numbers, narrow_Z.
  rewrite num_eqb_Z, !num_ltb_Z, !num_leb_Z by done.
  unfold range_operators in Hop. simpl in Hop. set_unfold in Hop.
  destruct_or!; rewrite Hop;
    repeat match goal with |- context [js ?x =s js ?y] =>
      let b := eval vm_compute in (js x =s js y) in change (js x =s js y) with b end;
    cbv iota; simpl fst; simpl snd; lia.
Qed.

(** The range of a chain. *)
Lemma chain_range cs start stop :
  small start → small stop → Forall integer_comparison cs →
  ∃ start' stop', foldl narrow (num_of_Z start, num_of_Z stop) cs = (num_of_Z start', num_of_Z stop') ∧
    small start' ∧ small stop' ∧
    ∀ v, small v → (start' ≤ v < stop')%Z ↔ (start ≤ v < stop)%Z ∧ Forall (compares v) cs.
Proof.
  revert start stop. induction cs as [|c cs IH]; intros start stop Hs He Hall.
  { exists start, stop. split_and!; [done..|]. intros v _. split; [|tauto]. intros Hr. by split. }
  apply Forall_cons in Hall as [(Hop & z & Hz & Hval) Hall]. cbn [foldl].
  rewrite (narrow_exact _ _ _ _ Hs He Hz Hval).
  destruct (narrow_Z_small start stop (cmp_operator c) z Hs He Hz) as [Hs' He'].
  destruct (IH _ _ Hs' He' Hall) as (start' & stop' & Hf & Hs2 & He2 & Hv).
  exists start', stop'. split_and!; [done..|]. intros v Hsv.
  rewrite (Hv v Hsv), (compares_narrow v start stop c z Hsv Hz Hop Hval), Forall_cons. tauto.
Qed.

(** The range shown for a chain of comparisons of one time function is
    exact: it is a pair of integers [start] and [stop], and a value of the
    function is in it exactly when the interpreter finds every comparison of
    the chain true; the chain is left undescribed exactly when no value of the
    function satisfies it. *)
Theorem time_range_exact first comparisons :
  Forall integer_comparison comparisons →
  ∃ start stop,
    time_range first comparisons = (num_of_Z start, num_of_Z stop) ∧
    (∀ v, (domain (cmp_name first)).1 ≤ v < (domain (cmp_name first)).2 →
       (start ≤ v < stop ↔ Forall (compares v) comparisons))%Z ∧
    (num_leb (num_of_Z stop) (num_of_Z start) = true ↔
       ¬ ∃ v, ((domain (cmp_name first)).1 ≤ v < (domain (cmp_name first)).2)%Z ∧
           Forall (compares v) comparisons).
Proof.
  intros Hall. unfold time_range. destruct (DOMAINS_domain (cmp_name first)) as (-> & Hlo & Hhi).
  destruct (domain (cmp_name first)) as [lo hi] eqn:Ed. simpl fst in *. simpl snd in *.
  assert (small lo ∧ small hi) as [Hslo Hshi].
  { unfold domain in Ed. repeat case_match; simplify_eq; by vm_compute. }
  destruct (chain_range comparisons lo hi Hslo Hshi Hall) as (start & stop & Hf & Hs & He & Hv).
  exists start, stop. split; [done|]. assert (Hsmall : ∀ v, (lo ≤ v < hi)%Z → small v).
  { unfold small in *. intros v Hr. lia. }
  split.
  - intros v Hr. rewrite (Hv v (Hsmall v Hr)). tauto.
  - rewrite num_leb_Z, Z.leb_le by done. split.
    + intros Hle (v & Hr & Hc). assert ((start ≤ v < stop)%Z) by (apply Hv; auto). lia.
    + intros Hno. destruct (decide (stop ≤ start)%Z) as [|Hlt]; [done|]. destruct Hno.
      assert (Hin : (start ≤ start < stop)%Z) by lia. apply (Hv start Hs) in Hin as [Hr Hc]. by exists start.
Qed.

Definition office_hours : list TimeComparison :=
  [mkComparison (js "hour") (js "UTC") (js ">=") (num_of_Z 9);
   mkComparison (js "hour") (js "UTC") (js "<") (num_of_Z 18)].
Example time_range_exact_witness :
  ∃ start stop, time_range (mkComparison (js "hour") (js "UTC") (js ">=") (num_of_Z 9)) office_hours =
      (num_of_Z start, num_of_Z stop) ∧
    (∀ v, 0 ≤ v < 24 → (start ≤ v < stop ↔ Forall (compares v) office_hours))%Z.
Proof.
  assert (Hall : Forall integer_comparison office_hours).
  { constructor; [split; [set_solver|]; exists 9%Z; split; [vm_compute; discriminate|reflexivity]|].
    constructor; [split; [set_solver|]; exists 18%Z; split; [vm_compute; discriminate|reflexivity]|constructor]. }
  destruct (time_range_exact (mkComparison (js "hour") (js "UTC") (js ">=") (num_of_Z 9)) office_hours Hall)
    as (start & stop & Hr & Hv & _).
  exists start, stop. split; [exact Hr|]. exact Hv.
Defined.
