(* ===== verification/TaskExpr.v ===== *)
(** * features/pricing/lib/task-expr.ts

    The task price editor: number and category fields of a usage schema, the
    matrix of category combinations, tiers and their text, and previews. The
    order of [localeCompare] is the class [LocaleHost]. *)

From S2P Require Import Prelude JsNumber JsText Types Parser Compile Runtime Display JsRegex.
From S2P Require Import BillingExpr TaskDisplay.

(** [locale_le x y]: [x.localeCompare(y) <= 0]. *)
Class LocaleHost := locale_le : jsstring → jsstring → bool.

Definition TASK_TOKEN_PRICE_SCALE : num := num_of_Z 1000000.

Abbreviation Prices := (list (jsstring * num)).
Abbreviation Combination := (list (jsstring * jsstring)).

Record TaskVisualTier := mkTaskVisualTier {
  tv_label : jsstring;
  tv_conditions : list (jsstring * jsstring);
  tv_constant : num;
  tv_unitPrices : Prices
}.
Abbreviation TaskVisualConfig := (list TaskVisualTier).

Record TaskMatrixRow := mkRow {
  combination : Combination;
  row_constant : num;
  row_unitPrices : Prices
}.
Abbreviation TaskMatrixConfig := (list TaskMatrixRow).

Inductive PreviewPart :=
  | ConstantPart (amount : num)
  | UsagePart (field : jsstring) (amount quantity unitPrice : num).
Record TaskPreviewResult := mkPreview {
  preview_tier : TaskVisualTier;
  total : num;
  preview_parts : list PreviewPart
}.

(** [Object.fromEntries]. *)
Definition from_entries {A} (entries : list (jsstring * A)) : list (jsstring * A) :=
  foldl (λ obj e, obj_define obj e.1 e.2) [] entries.

Section Fields.
Context `{LocaleHost}.

(** [entries.sort(([left], [right]) => left.localeCompare(right))]: stable. *)
Fixpoint insert_field {A} (x : jsstring * A) (l : list (jsstring * A)) : list (jsstring * A) :=
  match l with
  | [] => [x]
  | y :: l' => if locale_le x.1 y.1 then x :: l else y :: insert_field x l'
  end.
Definition sort_fields {A} (l : list (jsstring * A)) : list (jsstring * A) :=
  fold_right insert_field [] l.

Definition is_number_field (definition : BillingUsageFieldSchema) : bool :=
  bool_decide (field_type definition = Some type_number) && bool_decide (is_Some (field_unit definition)).
Definition getTaskNumberFields (schema : option BillingUsageSchema) : BillingUsageSchema :=
  match schema with
  | None => []
  | Some schema => sort_fields (List.filter (λ entry, is_number_field entry.2) schema)
  end.

Definition enum_values (definition : BillingUsageFieldSchema) : list jsstring :=
  default [] (field_enum definition).
Definition getTaskEnumFields (schema : option BillingUsageSchema) : BillingUsageSchema :=
  match schema with
  | None => []
  | Some schema => sort_fields (List.filter (λ entry, negb (is_empty (enum_values entry.2))) schema)
  end.

(** The loops: every combination so far with every value of the next field. *)
Fixpoint enum_combinations (fields : BillingUsageSchema) (combinations : list Combination)
    : list Combination :=
  match fields with
  | [] => combinations
  | (field, definition) :: fields =>
      enum_combinations fields
        (flat_map (λ c, map (obj_define c field) (enum_values definition)) combinations)
  end.
Definition getTaskEnumCombinations (schema : option BillingUsageSchema) : list Combination :=
  enum_combinations (getTaskEnumFields schema) [[]].

Definition zero_prices (schema : BillingUsageSchema) : Prices :=
  from_entries (map (λ entry, (entry.1, zero)) (getTaskNumberFields (Some schema))).
Definition createDefaultTaskVisualConfig (schema : BillingUsageSchema) : TaskVisualConfig :=
  [mkTaskVisualTier (js "base") [] zero (zero_prices schema)].
Definition createDefaultTaskMatrixConfig (schema : BillingUsageSchema) : TaskMatrixConfig :=
  map (λ c, mkRow c zero (zero_prices schema)) (getTaskEnumCombinations (Some schema)).

(** ** Matrix and tiers *)
Definition taskMatrixRowLabel (c : Combination) : jsstring :=
  match map snd (sort_fields c) with
  | [] => js "base"
  | values => join (js "·") values
  end.

(** The given fields with their prices, 0 where there is none. *)
Definition field_prices (fields : BillingUsageSchema) (prices : Prices) : Prices :=
  from_entries (map (λ entry, (entry.1, read_price prices entry.1)) fields).

Definition same_price (a b : option num) : bool :=
  match a, b with
  | Some a, Some b => num_eqb a b
  | None, None => true
  | _, _ => false
  end.
Definition same_row (fields : BillingUsageSchema) (row first : TaskMatrixRow) : bool :=
  num_eqb (row_constant row) (row_constant first)
  && forallb (λ entry, same_price (own (row_unitPrices row) entry.1)
                         (own (row_unitPrices first) entry.1)) fields.

Definition row_tier (fields : BillingUsageSchema) (last : bool) (row : TaskMatrixRow)
    : TaskVisualTier :=
  mkTaskVisualTier (taskMatrixRowLabel (combination row))
    (if last then [] else sort_fields (combination row))
    (row_constant row) (field_prices fields (row_unitPrices row)).
Fixpoint row_tiers (fields : BillingUsageSchema) (rows : TaskMatrixConfig) : TaskVisualConfig :=
  match rows with
  | [] => []
  | [row] => [row_tier fields true row]
  | row :: rows => row_tier fields false row :: row_tiers fields rows
  end.

Definition taskMatrixToTiers (config : TaskMatrixConfig) (schema : BillingUsageSchema)
    : TaskVisualConfig :=
  let numberFields := getTaskNumberFields (Some schema) in
  match numberFields, config with
  | [], _ | _, [] => []
  | _, firstRow :: _ =>
      if forallb (λ row, same_row numberFields row firstRow) config then
        [mkTaskVisualTier (js "base") [] (row_constant firstRow)
           (field_prices numberFields (row_unitPrices firstRow))]
      else row_tiers numberFields config
  end.

(** [combination[condition.field] === condition.value] for every condition. *)
Definition combination_matches (c : Combination) (conditions : list (jsstring * jsstring)) : bool :=
  forallb (λ condition, bool_decide (own c condition.1 = Some condition.2)) conditions.

Definition distinct_fields (tier : TaskTier) : bool :=
  length (new_set (map fst (task_conditions tier))) =? length (task_conditions tier).

Definition matrix_row (fields : BillingUsageSchema) (tiers : list TaskTier) (fallback : TaskTier)
    (c : Combination) : TaskMatrixRow :=
  let tier := default fallback
    (List.find (λ candidate, combination_matches c (task_conditions candidate)) tiers) in
  mkRow c (constant tier) (field_prices fields (unitPrices tier)).

(** An absent or empty expression is the empty text. *)
Definition tryParseTaskMatrixConfig (expression : jsstring) (schema : BillingUsageSchema)
    : result (option TaskMatrixConfig) :=
  if expression =s [] then Ok None
  else
    tiers ← parseTaskTiersFromExpr expression (Some schema) false;
    Ok (fallback ← last tiers;
        if negb (is_empty (task_conditions fallback)) || negb (forallb distinct_fields tiers) then None
        else
          Some (map (matrix_row (getTaskNumberFields (Some schema)) tiers fallback)
                  (getTaskEnumCombinations (Some schema)))).

(** ** normalizeTaskVisualConfig *)
Definition amount_or_zero (v : num) : num := if is_amount v then v else zero.
Definition tier_label (index : nat) (label : jsstring) : jsstring :=
  match label with
  | [] => if index =? 0 then js "base" else js "tier_" ++ dec_string (N.of_nat (index + 1))
  | _ => label
  end.
Definition normalize_tier (schema : BillingUsageSchema) (index : nat) (tier : TaskVisualTier)
    : TaskVisualTier :=
  let enumFields := from_entries (getTaskEnumFields (Some schema)) in
  mkTaskVisualTier (tier_label index (tv_label tier))
    (List.filter (λ condition,
       match own enumFields condition.1 with
       | Some definition => str_in condition.2 (enum_values definition)
       | None => false
       end) (tv_conditions tier))
    (amount_or_zero (tv_constant tier))
    (from_entries
       (map (λ field, (field, amount_or_zero (default nan (own (tv_unitPrices tier) field))))
          (new_set (map fst (getTaskNumberFields (Some schema)))))).
Definition normalizeTaskVisualConfig (config : option TaskVisualConfig)
    (schema : BillingUsageSchema) : TaskVisualConfig :=
  match config with
  | None | Some [] => createDefaultTaskVisualConfig schema
  | Some tiers => imap (normalize_tier schema) tiers
  end.

(** ** Text *)
Definition usage_text (field : jsstring) : jsstring := js "u(" ++ json_stringify field ++ js ")".
Definition generateTaskTierBody (tier : TaskVisualTier) (numberFields : BillingUsageSchema)
    : jsstring :=
  let constant := if num_ltb zero (tv_constant tier) then [num_to_string (tv_constant tier)] else [] in
  let term entry :=
    usage_text entry.1 ++ js " * " ++ num_to_string (read_price (tv_unitPrices tier) entry.1)
    ++ (if bool_decide (field_unit entry.2 = Some unit_usage_token)
        then js " / " ++ num_to_string TASK_TOKEN_PRICE_SCALE else []) in
  join (js " + ") (constant ++ map term numberFields).
Definition generateTaskTierCall (tier : TaskVisualTier) (numberFields : BillingUsageSchema)
    : jsstring :=
  js "tier(" ++ json_stringify (tv_label tier) ++ js ", "
  ++ generateTaskTierBody tier numberFields ++ js ")".
Definition generateTaskCondition (conditions : list (jsstring * jsstring)) : jsstring :=
  join (js " && ")
    (map (λ condition, usage_text condition.1 ++ js " == " ++ json_stringify condition.2) conditions).

(** The loop; [None] is the return of the empty text. *)
Fixpoint tier_texts (numberFields : BillingUsageSchema) (tiers : TaskVisualConfig)
    : option (list jsstring) :=
  match tiers with
  | [] => Some []
  | [tier] => Some [generateTaskTierCall tier numberFields]
  | tier :: tiers =>
      match generateTaskCondition (tv_conditions tier) with
      | [] => None
      | condition =>
          texts ← tier_texts numberFields tiers;
          Some ((condition ++ js " ? " ++ generateTaskTierCall tier numberFields) :: texts)
      end
  end.
Definition generateTaskExprFromConfig (config : option TaskVisualConfig)
    (schema : BillingUsageSchema) : jsstring :=
  let numberFields := getTaskNumberFields (Some schema) in
  match numberFields with
  | [] => []
  | _ =>
      match normalizeTaskVisualConfig config schema with
      | [tier] => generateTaskTierCall tier numberFields
      | tiers =>
          match tier_texts numberFields tiers with
          | None => []
          | Some parts => join (js " : ") parts
          end
      end
  end.

Definition tryParseTaskVisualConfig (expression : jsstring) (schema : BillingUsageSchema)
    : result (option TaskVisualConfig) :=
  if expression =s [] then Ok None
  else
    tiers ← parseTaskTiersFromExpr expression (Some schema) false;
    Ok (match tiers with
        | [] => None
        | _ =>
            Some (normalizeTaskVisualConfig
              (Some (map (λ tier, mkTaskVisualTier (task_label tier) (task_conditions tier)
                                    (constant tier) (unitPrices tier)) tiers)) schema)
        end).
End Fields.

(** ** Previews *)

(** [Number(value)] of a sample's value, which is a number or a text. *)
Definition number_of_sample (v : option jsval) : num :=
  match v with
  | Some (VNumber n) => n
  | Some (VString s) => number_of_string s
  | _ => nan
  end.

Abbreviation Sample := (list (jsstring * jsval)).

Definition sample_matches (sample : Sample) (conditions : list (jsstring * jsstring)) : bool :=
  forallb (λ condition,
    match own sample condition.1 with
    | Some v => strict_eqb v (VString condition.2)
    | None => false
    end) conditions.

(** The loop over all tiers but the last. *)
Fixpoint match_tier (sample : Sample) (tiers : TaskVisualConfig) : option TaskVisualTier :=
  match tiers with
  | [] => None
  | [fallback] => Some fallback
  | tier :: tiers =>
      if sample_matches sample (tv_conditions tier) then Some tier else match_tier sample tiers
  end.

Definition token_field (schema : option BillingUsageSchema) (field : jsstring) : bool :=
  bool_decide ((schema ← schema; definition ← own schema field; field_unit definition)
               = Some unit_usage_token).

Fixpoint usage_parts (schema : option BillingUsageSchema) (sample : Sample) (prices : Prices)
    : option (list PreviewPart) :=
  match prices with
  | [] => Some []
  | (field, unitPrice) :: prices =>
      if negb (is_amount unitPrice) then None
      else if num_eqb unitPrice zero then usage_parts schema sample prices
      else
        let quantity := number_of_sample (own sample field) in
        if negb (is_amount quantity) then None
        else
          let product := num_mul quantity unitPrice in
          let amount :=
            if token_field schema field then num_div product TASK_TOKEN_PRICE_SCALE else product in
          if negb (is_finite amount) then None
          else
            parts ← usage_parts schema sample prices;
            Some (UsagePart field amount quantity unitPrice :: parts)
  end.

(** The terms of the expression and the usage it is evaluated with. *)
Definition part_term (schema : option BillingUsageSchema) (field : jsstring) (unitPrice : num)
    : jsstring :=
  usage_text field ++ js " * " ++ num_to_string unitPrice
  ++ (if token_field schema field then js " / 1000000" else []).
Fixpoint preview_terms (schema : option BillingUsageSchema) (parts : list PreviewPart)
    (terms : list jsstring) (usage : Sample) : list jsstring * Sample :=
  match parts with
  | [] => (terms, usage)
  | UsagePart field _ quantity unitPrice :: parts =>
      if field =s [] then preview_terms schema parts terms usage
      else
        preview_terms schema parts (terms ++ [part_term schema field unitPrice])
          (obj_set usage field (VNumber quantity))
  | ConstantPart _ :: parts => preview_terms schema parts terms usage
  end.

Section Preview.
Context `{Host} `{LocaleHost}.

Definition evaluateTaskVisualConfig (clock : Date) (config : TaskVisualConfig) (sample : Sample)
    (schema : option BillingUsageSchema) : option TaskPreviewResult :=
  tier ← match_tier sample config;
  let constant := tv_constant tier in
  if negb (is_amount constant) then None
  else
    usage ← usage_parts schema sample (tv_unitPrices tier);
    let parts := (if num_ltb zero constant then [ConstantPart constant] else []) ++ usage in
    let '(terms, normalizedUsage) :=
      preview_terms schema parts [num_to_string constant] sample in
    let source :=
      js "tier(" ++ json_stringify (tv_label tier) ++ js ", " ++ join (js " + ") terms ++ js ")" in
    match evaluateBillingExpression clock source
            (mkContext None None None (Some normalizedUsage) None) with
    | Success s => Some (mkPreview tier (cost s) parts)
    | EvalFailed _ => None
    end.

(** Examples are pairs of a label and facts. *)
Definition evaluateTaskUsageExamples (clock : Date) (expression : jsstring)
    (schema : option BillingUsageSchema) (examples : list (jsstring * Sample))
    : result (list (jsstring * num)) :=
  match schema, examples with
  | None, _ | _, [] => Ok []
  | Some schema, _ =>
      if expression =s [] then Ok []
      else
        split ← splitBillingExprAndRequestRules expression;
        config ← tryParseTaskVisualConfig (billingExpr split) schema;
        Ok (match config with
            | None => []
            | Some config =>
                omap (λ '(label, facts),
                  result ← evaluateTaskVisualConfig clock config facts (Some schema);
                  Some (label, total result)) examples
            end)
  end.
End Preview.
