(* ===== verification/TierExpr.v ===== *)
(** * features/pricing/lib/tier-expr.ts

    The older token-price editor: tiers as cost fields, their text, reading the
    text back with regular expressions, and the estimator's evaluation. *)

From S2P Require Import Prelude JsNumber JsText Types Parser Compile Runtime Structure Display.
From S2P Require Import JsRegex.
From S2P Require Import BillingExpr.

Inductive CacheMode := CACHE_MODE_TIMED | CACHE_MODE_GENERIC.
#[export] Instance CacheMode_eq_dec : EqDecision CacheMode.
Proof. solve_decision. Defined.

(** [value: number | string]. *)
Inductive ConditionValue := NumberValue (n : num) | TextValue (s : jsstring).
Record TierConditionInput := mkInput { ci_var : jsstring; ci_op : jsstring; ci_value : ConditionValue }.

(** [Partial<VisualTier>]; the [..._unit_cost] fields are one object. *)
Record VisualTier := mkVisual {
  billing_unit : option BillingUnit;
  fixed_price : option jsstring;
  vt_label : option jsstring;
  vt_conditions : option (list TierConditionInput);
  unit_costs : list (jsstring * num);
  cache_mode : option CacheMode
}.
Abbreviation VisualConfig := (list VisualTier).

(** [Number(v) || 0]. *)
Definition number_or_zero (v : option num) : num :=
  match v with
  | Some v => if is_nan v || num_eqb v zero then zero else v
  | None => zero
  end.
Definition unit_cost (tier : VisualTier) (field : jsstring) : num :=
  number_or_zero (own (unit_costs tier) field).

Definition getTierCacheMode (tier : VisualTier) : CacheMode :=
  match cache_mode tier with
  | Some mode => mode
  | None =>
      if num_ltb zero (default nan (own (unit_costs tier) (js "cache_create_1h_unit_cost")))
      then CACHE_MODE_TIMED else CACHE_MODE_GENERIC
  end.

(** The cost fields that follow the spread of the tier. *)
Definition normalized_fields : list jsstring :=
  map js ["cache_read_unit_cost"; "cache_create_unit_cost"; "cache_create_1h_unit_cost";
          "image_unit_cost"; "image_output_unit_cost"; "audio_input_unit_cost";
          "audio_output_unit_cost"]%string.
Definition set_all (obj entries : list (jsstring * num)) : list (jsstring * num) :=
  foldl (λ obj e, map_set obj e.1 e.2) obj entries.

Definition normalizeVisualTier (tier : VisualTier) : VisualTier :=
  let first := map (λ f, (f, unit_cost tier f)) [js "input_unit_cost"; js "output_unit_cost"] in
  let last := map (λ f, (f, unit_cost tier f)) normalized_fields in
  mkVisual (billing_unit tier) (fixed_price tier)
    (Some (default [] (vt_label tier))) (Some (default [] (vt_conditions tier)))
    (set_all (set_all first (unit_costs tier)) last)
    (Some (getTierCacheMode tier)).

Definition createDefaultVisualConfig : VisualConfig :=
  [normalizeVisualTier
     (mkVisual None None (Some (js "base")) (Some [])
        [(js "input_unit_cost", zero); (js "output_unit_cost", zero)] (Some CACHE_MODE_GENERIC))].

Definition normalizeVisualConfig (config : option VisualConfig) : VisualConfig :=
  match config with
  | None | Some [] => createDefaultVisualConfig
  | Some tiers => map normalizeVisualTier tiers
  end.

(** ** Text *)
Definition condition_value_text (v : ConditionValue) : jsstring :=
  match v with NumberValue n => num_to_string n | TextValue s => s end.
Definition complete_input (c : TierConditionInput) : bool :=
  negb (ci_var c =s []) && negb (ci_op c =s [])
  && match ci_value c with TextValue [] => false | _ => true end.
Definition buildConditionStr (conditions : list TierConditionInput) : jsstring :=
  join (js " && ")
    (map (λ c, ci_var c ++ js " " ++ ci_op c ++ js " " ++ condition_value_text (ci_value c))
       (List.filter complete_input conditions)).

Definition cost_term (variable : jsstring) (v : num) : jsstring :=
  variable ++ js " * " ++ num_to_string v.
Definition buildTierBodyExpr (tier : VisualTier) : jsstring :=
  if bool_decide (billing_unit tier = Some unit_request) then
    js "fixed(" ++ default [] (fixed_price tier) ++ js ")"
  else
    join (js " + ")
      ([cost_term (js "p") (unit_cost tier (js "input_unit_cost"));
        cost_term (js "c") (unit_cost tier (js "output_unit_cost"))]
       ++ map (λ cv, cost_term cv.2 (unit_cost tier cv.1))
            (List.filter (λ cv, negb (num_eqb (unit_cost tier cv.1) zero)) BILLING_CACHE_VAR_MAP)).

(** [tier("label", body)]; the label is not escaped. *)
Definition tier_text (label : jsstring) (tier : VisualTier) : jsstring :=
  js "tier(" ++ [34%N] ++ label ++ [34%N] ++ js ", " ++ buildTierBodyExpr tier ++ js ")".
Definition tier_condition (tier : VisualTier) : jsstring :=
  buildConditionStr (default [] (vt_conditions tier)).
Definition zero_prices_text : jsstring := js "p * 0 + c * 0".

Fixpoint tier_parts (index : nat) (tiers : VisualConfig) : list jsstring :=
  match tiers with
  | [] => []
  | tier :: rest =>
      let label := or_text (vt_label tier) (js "tier_" ++ dec_string (N.of_nat (index + 1))) in
      let body := tier_text label tier in
      let cond := tier_condition tier in
      (if negb (length rest =? 0) && nonempty cond then cond ++ js " ? " ++ body else body)
      :: tier_parts (index + 1) rest
  end.

Definition generateExprFromVisualConfig (config : option VisualConfig) : jsstring :=
  match config with
  | None | Some [] => zero_prices_text
  | Some [tier] =>
      let body := tier_text (or_text (vt_label tier) (js "default")) tier in
      let cond := tier_condition tier in
      if nonempty cond then cond ++ js " ? " ++ body ++ js " : " ++ zero_prices_text else body
  | Some tiers => join (js " : ") (tier_parts 0 tiers)
  end.

(** ** Reading the text back *)
Definition rspace : regex := RStar (RUnit is_space).
Definition rsign (s : String.string) : regex := rseq [rspace; rtext (js s); rspace].
(** The names of the costs, in order; the groups of their numbers count on. *)
Definition cost_pattern (variable : jsstring) (i : nat) : regex :=
  rseq [rtext variable; rsign "*"; r_number i].
Fixpoint extra_costs (variables : list jsstring) (i : nat) : regex :=
  match variables with
  | [] => REmpty
  | v :: variables =>
      RSeq (roption (rseq [rsign "+"; cost_pattern v i])) (extra_costs variables (i + 1))
  end.
Definition tier_pattern (i : nat) : regex :=
  rseq [rtext (js "tier(" ++ [34%N]); RGroup i (RStar (RUnit not_quote)); rtext ([34%N] ++ js ",");
        rspace; cost_pattern (js "p") (i + 1); rsign "+"; cost_pattern (js "c") (i + 2);
        extra_costs (map snd BILLING_CACHE_VAR_MAP) (i + 3); rtext (js ")")].

Definition positive_unit (c : code_unit) : bool := is_digit c || existsb (N.eqb c) (js ".eE+").
Definition r_variable : regex := rtexts [js "p"; js "c"; js "len"].
Definition r_order : regex := rtexts [js "<"; js "<="; js ">"; js ">="].
Definition input_pattern : regex :=
  rseq [RGroup 1 r_variable; rspace; RGroup 2 r_order; rspace;
        RGroup 3 (rplus (RUnit positive_unit))].
Definition plain_input : regex :=
  rseq [r_variable; rspace; r_order; rspace; rplus (RUnit positive_unit)].
Definition chained_tier_pattern : regex :=
  RSeq (roption (rseq [RGroup 1 (RSeq plain_input (RStar (RSeq (rsign "&&") plain_input)));
                       rsign "?"]))
       (tier_pattern 2).

(** [condStr.split] at [&&] with the white space around it; every piece
    consumes a character. *)
Fixpoint split_and (fuel : nat) (text piece : jsstring) : list jsstring :=
  match fuel with
  | O => [piece]
  | S fuel =>
      match strip_prefix (js "&&") (drop_while is_space text), text with
      | Some rest, _ => piece :: split_and fuel (drop_while is_space rest) []
      | None, c :: text => split_and fuel text (piece ++ [c])
      | None, [] => [piece]
      end
  end.
Definition read_input (piece : jsstring) : option TierConditionInput :=
  m ← match_whole input_pattern (trim piece);
  Some (mkInput (cap m 1) (cap m 2) (NumberValue (number_of_string (cap m 3)))).
Definition read_inputs (condStr : jsstring) : list TierConditionInput :=
  if condStr =s [] then [] else omap read_input (split_and (S (length condStr)) condStr []).

(** The tier of a match; [i] is the group of the label. *)
Definition read_tier (m : captures) (i : nat) (conditions : list TierConditionInput) : VisualTier :=
  let number j := number_of_string (cap m j) in
  let extra := omap (λ '(j, cv),
    text ← capture m (i + 3 + j); Some (cv.1, number_of_string text))
    (imap pair BILLING_CACHE_VAR_MAP) in
  normalizeVisualTier
    (mkVisual None None (Some (cap m i)) (Some conditions)
       ([(js "input_unit_cost", number (i + 1)); (js "output_unit_cost", number (i + 2))] ++ extra)
       None).

(** The loop over the matches; a match is not empty. *)
Fixpoint read_tiers (fuel : nat) (body : jsstring) : list VisualTier :=
  match fuel with
  | O => []
  | S fuel =>
      match search chained_tier_pattern body with
      | None => []
      | Some (m, rest) => read_tier m 2 (read_inputs (cap m 1)) :: read_tiers fuel rest
      end
  end.

(** A version and the text after it. *)
Definition version_pattern : regex :=
  rseq [rtext (js "v"); rplus (RUnit is_digit); rtext (js ":"); RGroup 1 (RStar rany)].
Definition strip_space (s : jsstring) : jsstring := List.filter (λ c, negb (is_space c)) s.

Definition tryParseVisualConfig (exprStr : jsstring) : option VisualConfig :=
  if exprStr =s [] then None
  else
    let body := match match_whole version_pattern exprStr with
                | Some m => cap m 1
                | None => exprStr
                end in
    match match_whole (tier_pattern 1) body with
    | Some m => Some (normalizeVisualConfig (Some [normalizeVisualTier (read_tier m 1 [])]))
    | None =>
        match read_tiers (length body) body with
        | [] => None
        | tiers =>
            let cfg := normalizeVisualConfig (Some tiers) in
            if strip_space (generateExprFromVisualConfig (Some cfg)) =s strip_space body
            then Some cfg else None
        end
    end.

(** ** The estimator *)

(** Pairs of [var] and [stateKey]. *)
Definition ESTIMATOR_VARS : list (jsstring * jsstring) :=
  [(js "cr", js "cacheReadTokens"); (js "cc", js "cacheCreateTokens");
   (js "cc1h", js "cacheCreate1hTokens"); (js "img", js "imageTokens");
   (js "img_cr", js "imageCacheTokens"); (js "img_o", js "imageOutputTokens");
   (js "ai", js "audioInputTokens"); (js "ao", js "audioOutputTokens")].

Record ExtraTokenValues := mkExtra {
  cacheReadTokens : num;
  cacheCreateTokens : num;
  cacheCreate1hTokens : num;
  imageTokens : num;
  imageCacheTokens : num;
  imageOutputTokens : num;
  audioInputTokens : num;
  audioOutputTokens : num
}.

Definition buildEstimatorTokens (promptTokens completionTokens : num) (extra : ExtraTokenValues)
    : list (jsstring * jsval) :=
  let len := foldl num_add promptTokens
    [cacheReadTokens extra; imageCacheTokens extra; imageTokens extra; audioInputTokens extra;
     cacheCreateTokens extra; cacheCreate1hTokens extra] in
  map (λ '(name, v), (name, VNumber v))
    [(js "p", promptTokens); (js "c", completionTokens); (js "len", len);
     (js "cr", cacheReadTokens extra); (js "cc", cacheCreateTokens extra);
     (js "cc1h", cacheCreate1hTokens extra); (js "img", imageTokens extra);
     (js "img_cr", imageCacheTokens extra); (js "img_o", imageOutputTokens extra);
     (js "ai", audioInputTokens extra); (js "ao", audioOutputTokens extra)].

Record EvalResult := mkEval {
  eval_cost : num;
  eval_matchedTier : jsstring;
  eval_error : option jsstring;
  eval_billingUnit : option BillingUnit
}.

Definition evalExprLocally `{Host} (clock : Date) (exprStr : jsstring)
    (promptTokens completionTokens : num) (extra : ExtraTokenValues)
    (context : BillingSimulationContext) : EvalResult :=
  if trim exprStr =s [] then mkEval zero [] None None
  else
    let own_tokens := default [] (tokens context) in
    let merged := foldl (λ obj e, map_set obj e.1 e.2)
      (buildEstimatorTokens promptTokens completionTokens extra) own_tokens in
    match evaluateBillingExpression clock exprStr
            (mkContext (imageCount context) (Some merged) (request context) (usage context)
               (context_now context)) with
    | EvalFailed failure => mkEval zero [] (Some (diag_detail (f_diagnostic failure))) None
    | Success s =>
        mkEval (cost s) (s_matchedTier s) None
          (if bool_decide (s_billingUnit s = unit_request) then Some (s_billingUnit s) else None)
    end.

Definition exprUsesExtraVars (exprStr : jsstring) : bool :=
  if exprStr =s [] then false
  else
    match compile_source exprStr with
    | CompileFailed _ => false
    | Ready compiled => existsb (λ field, str_in field.1 (c_variables compiled)) ESTIMATOR_VARS
    end.

Definition visual_tiers : VisualConfig :=
  [mkVisual None None (Some (js "small")) (Some [mkInput (js "len") (js "<=") (NumberValue (num_of_Z 2000))])
     [(js "input_unit_cost", num_of_Z 2); (js "output_unit_cost", num_of_Z 6);
      (js "cache_create_1h_unit_cost", num_of_Z 3)] None;
   mkVisual None None (Some (js "large")) (Some []) [(js "input_unit_cost", num_of_Z 4)] None].
Example visual_tiers_text :
  generateExprFromVisualConfig (Some visual_tiers) =
  quoted "len <= 2000 ? tier('small', p * 2 + c * 6 + cc1h * 3) : tier('large', p * 4 + c * 0)".
Proof. vm_compute. reflexivity. Qed.
Example visual_tiers_read :
  match tryParseVisualConfig (generateExprFromVisualConfig (Some visual_tiers)) with
  | Some cfg => cfg = map normalizeVisualTier
      [mkVisual None None (Some (js "small"))
         (Some [mkInput (js "len") (js "<=") (NumberValue (num_of_Z 2000))])
         [(js "input_unit_cost", num_of_Z 2); (js "output_unit_cost", num_of_Z 6);
          (js "cache_create_1h_unit_cost", num_of_Z 3)] None;
       mkVisual None None (Some (js "large")) (Some [])
         [(js "input_unit_cost", num_of_Z 4); (js "output_unit_cost", num_of_Z 0)] None]
  | None => False
  end.
Proof. vm_compute. reflexivity. Qed.
