(* ===== verification/BreakdownMatch.v ===== *)
(** * features/pricing/lib/breakdown-tier-match.ts

    Which row of a price table is the tier a settlement used. *)

From S2P Require Import Prelude JsNumber JsText Types Parser Compile Runtime Display BillingExpr.

(** A row of token prices, or of task prices: the one with [unitPrices]. *)
Inductive BreakdownMatchTier :=
  | TokenRow (tier : ParsedTier)
  | TaskRow (tier : TaskTier).

Definition row_label (tier : BreakdownMatchTier) : jsstring :=
  match tier with TokenRow t => pt_label t | TaskRow t => task_label t end.

(** [string | number]. *)
Inductive UsageFact := FactText (s : jsstring) | FactNumber (n : num).
Definition fact_string (fact : UsageFact) : jsstring :=
  match fact with FactText s => s | FactNumber n => num_to_string n end.
Abbreviation UsageFacts := (list (jsstring * UsageFact)).

Section Match.
Context `{Host}.

Definition tierMatchesNormalizedLabel (tier : BreakdownMatchTier) (normalized : jsstring) : bool :=
  negb (normalized =s []) && (normalizeTierLabel (Some (row_label tier)) =s normalized).

(** The guard on the billing unit of token rows. *)
Definition unit_mismatch (tier : BreakdownMatchTier) (unit : option BillingUnit)
    (price : option num) : bool :=
  match tier, unit with
  | TokenRow t, Some unit =>
      negb (bool_decide (default unit_token (pt_billingUnit t) = unit))
      || (bool_decide (unit = unit_request)
          && match price with
             | Some price =>
                 match pt_fixedPrice t with Some p => negb (num_eqb p price) | None => true end
             | None => false
             end)
  | _, _ => false
  end.

(** [String(usageFacts?.[field]) === value]; a missing fact is [undefined]. *)
Definition printed_fact (facts : UsageFacts) (field : jsstring) : jsstring :=
  match own facts field with Some fact => fact_string fact | None => js "undefined" end.

Definition label_row_matched (tier : BreakdownMatchTier) (tiers : list BreakdownMatchTier)
    (normalized : jsstring) (usageFacts : option UsageFacts) : bool :=
  match tier with
  | TokenRow _ => true
  | TaskRow t =>
      if 1 <? length (List.filter (λ c, tierMatchesNormalizedLabel c normalized) tiers) then
        match usageFacts, task_conditions t, truthy_text (task_conditionText t) with
        | Some facts, _ :: _, None =>
            forallb (λ c, printed_fact facts c.1 =s c.2) (task_conditions t)
        | _, _, _ => false
        end
      else true
  end.

(** The fallback on usage facts; a token row has no usage conditions. *)
Definition facts_row_matched (tier : BreakdownMatchTier) (usageFacts : option UsageFacts) : bool :=
  match tier, usageFacts with
  | TaskRow t, Some facts =>
      match task_conditions t, truthy_text (task_conditionText t) with
      | _ :: _, None =>
          forallb (λ c, match own facts c.1 with
                        | Some fact => fact_string fact =s c.2
                        | None => false
                        end) (task_conditions t)
      | _, _ => false
      end
  | _, _ => false
  end.

Definition isBreakdownTierMatched (tier : BreakdownMatchTier) (tiers : list BreakdownMatchTier)
    (matchedTierLabel : option jsstring) (usageFacts : option UsageFacts)
    (unit : option BillingUnit) (price : option num) : bool :=
  if unit_mismatch tier unit price then false
  else
    let normalized := normalizeTierLabel matchedTierLabel in
    if tierMatchesNormalizedLabel tier normalized then
      label_row_matched tier tiers normalized usageFacts
    else if existsb (λ c, tierMatchesNormalizedLabel c normalized) tiers then false
    else facts_row_matched tier usageFacts.
End Match.
