(* ===== verification/PluginPricing.v ===== *)
(** * features/pricing/lib/plugin-pricing.ts

    Prices of a model under a task plugin: the keys of plugin expressions, the
    check of an expression against a schema and the choice of a variant. *)

From S2P Require Import Prelude JsNumber JsText Types Parser ParserFacts Compile CompileFacts.
From S2P Require Import Runtime Display.

(** [key.indexOf(text)]. *)
Fixpoint index_of_text (text key : jsstring) (i : nat) : option nat :=
  if starts_with text key then Some i
  else match key with [] => None | _ :: key => index_of_text text key (i + 1) end.

(** The pattern of a plugin's name: 1 to 30 units, the first not [_] or [-]. *)
Definition is_lower_alnum (c : code_unit) : bool := ((97 <=? c) && (c <=? 122))%N || is_digit c.
Definition plugin_name (plugin : jsstring) : bool :=
  match plugin with
  | c :: r =>
      is_lower_alnum c && forallb (λ c, is_lower_alnum c || (c =? 95)%N || (c =? 45)%N) r
      && (length r <=? 29)
  | [] => false
  end.

Definition splitPluginBillingExprKey (key : jsstring) : option (jsstring * jsstring) :=
  match index_of_text (js "::") key 0 with
  | None | Some 0 => None
  | Some separator =>
      let plugin := take separator key in
      let model := drop (separator + 2) key in
      if negb (plugin_name plugin) || (trim model =s []) then None else Some (plugin, model)
  end.

(** The visitor: an undeclared usage field makes the expression incompatible. *)
Definition compatible_visitor (schema : BillingUsageSchema) (node : ExpressionNode)
    : stateR bool unit :=
  match node with
  | Call name (Literal (LString key) _ _ _ :: _) _ _ =>
      if (name =s js "u") && bool_decide (own schema key = None) then put_st false else mret tt
  | _ => mret tt
  end.

(** [None] is undefined: the browser cannot tell. *)
Definition taskExpressionCompatible (expression : jsstring) (schema : BillingUsageSchema)
    : result (option bool) :=
  if trim expression =s [] then Ok (Some false)
  else
    match compile_source expression with
    | CompileFailed _ => Ok None
    | Ready compiled =>
        '(_, compatible) ← visitExpression (compatible_visitor schema) (c_ast compiled)
          (negb (str_in (js "fixed") (c_functions compiled)));
        Ok (Some compatible)
    end.

Inductive BillingMode := mode_ratio | mode_tiered_expr.
#[export] Instance BillingMode_eq_dec : EqDecision BillingMode.
Proof. solve_decision. Defined.

Definition mode_text (mode : BillingMode) : jsstring :=
  match mode with mode_ratio => js "ratio" | mode_tiered_expr => js "tiered_expr" end.

Abbreviation UsageExamples := (list (jsstring * list (jsstring * jsval))).

Record BillingPluginVariant := mkVariant {
  plugin_key : jsstring;
  variant_expr : jsstring;
  variant_mode : option BillingMode;
  variant_schema : BillingUsageSchema;
  variant_examples : option UsageExamples
}.
(** The fields of [PricingModel] that depend on the plugin; the others are
    [model_rest]. *)
Record PricingModel (Rest : Type) := mkModel {
  model_rest : Rest;
  quota_type : num;
  billing_mode : option jsstring;
  billing_expr : option jsstring;
  billing_usage_schema : option BillingUsageSchema;
  billing_usage_examples : option UsageExamples;
  billing_plugin_variants : option (list BillingPluginVariant)
}.
Arguments mkModel {Rest}. Arguments model_rest {Rest}. Arguments quota_type {Rest}.
Arguments billing_mode {Rest}. Arguments billing_expr {Rest}.
Arguments billing_usage_schema {Rest}. Arguments billing_usage_examples {Rest}.
Arguments billing_plugin_variants {Rest}.

Definition withPluginPricing {Rest} (model : PricingModel Rest) (variant : BillingPluginVariant)
    : PricingModel Rest :=
  mkModel (model_rest model)
    (if bool_decide (variant_mode variant = Some mode_ratio) then quota_type model else zero)
    (Some (mode_text (default mode_tiered_expr (variant_mode variant))))
    (Some (variant_expr variant)) (Some (variant_schema variant)) (variant_examples variant) None.

(** An omitted argument is the empty object. *)
Definition pluginExpressionsEqual (left right : list (jsstring * jsstring)) : bool :=
  (length left =? length right)
  && forallb (λ '(key, _), bool_decide (is_Some (own right key)) && bool_decide (own left key = own right key))
       left.

Definition pluginUsageSchema {Rest} (model : option (PricingModel Rest))
    (pluginKey : option jsstring) : option BillingUsageSchema :=
  model ← model;
  let variant :=
    List.find (λ item, bool_decide (Some (plugin_key item) = pluginKey))
      (default [] (billing_plugin_variants model)) in
  match variant with
  | Some variant => Some (variant_schema variant)
  | None => billing_usage_schema model
  end.

(** ** Keys *)

(** The first occurrence: nothing before it starts with the text. *)
Lemma index_of_text_spec text key i n :
  index_of_text text key i = Some n ↔
  i ≤ n ∧ starts_with text (drop (n - i) key) = true ∧ n - i ≤ length key ∧
  ∀ j, j < n - i → starts_with text (drop j key) = false.
Proof.
  revert i. induction key as [|c key IH]; intros i; cbn [index_of_text].
  - destruct (starts_with text []) eqn:E.
    + split; [intros [= ->]; rewrite Nat.sub_diag; simpl; naive_solver lia|].
      intros (? & _ & Hn & _). simpl in Hn. f_equal. lia.
    + split; [done|]. intros (? & Hs & _). by rewrite drop_nil, E in Hs.
  - destruct (starts_with text (c :: key)) eqn:E.
    + split; [intros [= ->]; rewrite Nat.sub_diag; simpl; naive_solver lia|].
      intros (? & Hs & Hn & Hlt). f_equal. destruct (decide (n = i)) as [|Hne]; [done|].
      specialize (Hlt 0 ltac:(lia)). by rewrite drop_0, E in Hlt.
    + rewrite IH. split.
      * intros (? & Hs & Hn & Hlt). replace (n - i) with (S (n - (i + 1))) by lia.
        split_and!; [lia|exact Hs|simpl; lia|]. intros [|j] Hj; [by rewrite drop_0|]. apply Hlt. lia.
      * intros (? & Hs & Hn & Hlt). destruct (n - i) as [|k] eqn:Ek; [by rewrite drop_0, E in Hs|].
        replace (n - (i + 1)) with k by lia. split_and!; [lia|exact Hs|simpl in Hn; lia|].
        intros j Hj. apply (Hlt (S j)). lia.
Qed.

Lemma plugin_name_no_colon plugin : plugin_name plugin = true → 58%N ∉ plugin.
Proof.
  destruct plugin as [|c r]; [done|]. unfold plugin_name. rewrite !andb_true_iff, forallb_forall.
  intros [[Hc Hr] _]. apply not_elem_of_cons. split.
  - intros <-. discriminate Hc.
  - intros Hin. apply list_elem_of_In, Hr in Hin. discriminate Hin.
Qed.

(** [splitPluginBillingExprKey] inverts [plugin + '::' + model]: it gives
    the plugin and the model exactly for the keys of that form whose plugin is
    a valid name and whose model is not blank, and [null] for all others; a
    model that contains colons is kept whole. *)
Theorem splitPluginBillingExprKey_inverse key plugin model :
  splitPluginBillingExprKey key = Some (plugin, model) ↔
  key = plugin ++ js "::" ++ model ∧ plugin_name plugin = true ∧ trim model ≠ [].
Proof.
  unfold splitPluginBillingExprKey. split.
  - destruct (index_of_text (js "::") key 0) as [[|n]|] eqn:E; [done| |done].
    apply index_of_text_spec in E as (_ & Hs & _ & _). rewrite Nat.sub_0_r in Hs.
    destruct (_ || _) eqn:Hok; [done|]. apply orb_false_iff in Hok as [Hp Hm].
    intros [= <- <-]. apply starts_with_spec in Hs as [r Hr].
    apply negb_false_iff in Hp. apply str_eqb_neq in Hm. split_and!; [|done|done].
    rewrite <- (take_drop (S n) key) at 1. f_equal. rewrite Hr. do 2 f_equal.
    change (S (n + 2)) with (S n + 2). rewrite <- drop_drop, Hr. done.
  - intros (-> & Hp & Hm).
    assert (index_of_text (js "::") (plugin ++ js "::" ++ model) 0 = Some (length plugin)) as ->.
    { apply index_of_text_spec. rewrite Nat.sub_0_r. split_and!; [lia| |rewrite length_app; lia|].
      - rewrite drop_app_length. apply starts_with_spec. by eexists.
      - intros j Hj. destruct (starts_with _ _) eqn:E; [|done].
        apply starts_with_spec in E as [r Hr]. destruct (plugin_name_no_colon _ Hp).
        rewrite drop_app_le in Hr by lia.
        destruct (drop j plugin) as [|c d] eqn:Ed.
        { apply (f_equal length) in Ed. rewrite length_drop in Ed. simpl in Ed. lia. }
        injection Hr as -> _. rewrite <- (take_drop j plugin), Ed. set_solver. }
    rewrite take_app_length. destruct (length plugin) as [|n] eqn:El.
    { by destruct plugin. }
    rewrite drop_app_ge, El by lia. replace (S n + 2 - S n) with 2 by lia.
    change (drop 2 (js "::" ++ model)) with model. rewrite Hp.
    by rewrite (proj2 (str_eqb_neq (trim model) []) Hm).
Qed.

(** ** Compatibility *)

(** A usage field that the schema does not declare. *)
Definition undeclared_usage (schema : BillingUsageSchema) (node : ExpressionNode) : Prop :=
  ∃ key i s' e' rest s e,
    node = Call (js "u") (Literal (LString key) i s' e' :: rest) s e ∧ own schema key = None.

Lemma compatible_visit schema node b :
  (∃ b', compatible_visitor schema node b = Ok (tt, b') ∧
    (b' = true ↔ b = true ∧ ¬ undeclared_usage schema node)).
Proof.
  destruct node as [| |f args s e| | |]; try (exists b; split; [done|];
    split; [|naive_solver]; intros ->; split; [done|]; intros (?&?&?&?&?&?&?&?&?); discriminate).
  destruct args as [|[[key| | |] i s' e'| | | | |] rest];
    try (exists b; split; [done|]; split; [|naive_solver]; intros ->; split; [done|];
         intros (?&?&?&?&?&?&?&?&?); discriminate).
  unfold compatible_visitor. destruct (f =s js "u") eqn:Ef.
  - apply str_eqb_eq in Ef as ->. case_bool_decide as Hk.
    + exists false. split; [done|]. split; [done|]. intros [_ []]. by repeat eexists.
    + exists b. split; [done|]. split; [|naive_solver]. intros ->. split; [done|].
      intros (?&?&?&?&?&?&?&Heq&?). by simplify_eq.
  - exists b. split; [done|]. split; [|naive_solver]. intros ->. split; [done|].
    intros (?&?&?&?&?&?&?&Heq&?). injection Heq as -> _. by rewrite str_eqb_refl in Ef.
Qed.

Lemma compatible_run schema l b :
  ∃ b', run_visitor (compatible_visitor schema) l b = Ok (tt, b') ∧
    (b' = true ↔ b = true ∧ ∀ node, node ∈ l → ¬ undeclared_usage schema node).
Proof.
  revert b. induction l as [|n l IH]; intros b; cbn [run_visitor].
  - exists b. split; [done|]. set_solver.
  - destruct (compatible_visit schema n b) as (b1 & Hv & H1). unfold mbind, stateR_bind.
    rewrite Hv. destruct (IH b1) as (b2 & -> & H2). exists b2. split; [done|].
    rewrite H2, H1. set_solver.
Qed.

(** [taskExpressionCompatible] answers true exactly for the expressions
    that compile, call no [fixed], and name only declared fields in their calls
    of [u]; it answers undefined exactly when a text that is not blank does not
    compile; and it never throws. *)
Theorem taskExpressionCompatible_exact expression schema :
  (taskExpressionCompatible expression schema = Ok (Some true) ↔
     trim expression ≠ [] ∧ ∃ c, compile_source expression = Ready c ∧
       ¬ uses_function (js "fixed") (c_ast c) ∧
       ∀ node, in_tree node (c_ast c) → ¬ undeclared_usage schema node) ∧
  (taskExpressionCompatible expression schema = Ok None ↔
     trim expression ≠ [] ∧ ∃ failure, compile_source expression = CompileFailed failure) ∧
  (∀ e, taskExpressionCompatible expression schema ≠ Err e).
Proof.
  unfold taskExpressionCompatible. destruct (trim expression =s []) eqn:Et.
  { apply str_eqb_eq in Et. rewrite Et. naive_solver. }
  apply str_eqb_neq in Et. destruct (compile_source expression) as [c|failure] eqn:Ec; [|naive_solver].
  pose proof (compile_source_ready _ _ Ec) as Hok.
  destruct (compatible_run schema (postorder (c_ast c)) (negb (str_in (js "fixed") (c_functions c))))
    as (b & Hrun & Hb).
  rewrite visitExpression_reference, visit_postorder_within by apply Hok.
  rewrite Hrun. cbn [mbind result_bind].
  assert (b = true ↔ ¬ uses_function (js "fixed") (c_ast c) ∧
            ∀ node, in_tree node (c_ast c) → ¬ undeclared_usage schema node) as Hb'.
  { rewrite Hb, negb_true_iff. unfold in_tree. f_equiv.
    rewrite <- not_true_iff_false, str_in_elem. by rewrite (co_functions _ _ Hok). }
  split_and!; [|naive_solver|done].
  split; [intros [= ->]; naive_solver|]. intros (_ & ? & [= <-] & H). do 2 f_equal. by apply Hb'.
Qed.

(** ** Equality of expression tables *)

(** Two tables of plugin expressions are equal for [pluginExpressionsEqual]
    exactly when every plugin has the same expression, or none, in both; the
    order of the keys does not matter. *)
Theorem pluginExpressionsEqual_extensional left right :
  NoDup (map fst left) → NoDup (map fst right) →
  (pluginExpressionsEqual left right = true ↔ ∀ key, own left key = own right key).
Proof.
  intros Hl Hr. unfold pluginExpressionsEqual. rewrite andb_true_iff, Nat.eqb_eq, forallb_forall.
  split.
  - intros [Hlen Hall].
    assert (∀ key, key ∈ map fst left → is_Some (own right key) ∧ own left key = own right key) as Hin.
    { intros key Hkey. apply list_elem_of_In, in_map_iff in Hkey as ([k v] & <- & Hk).
      specialize (Hall _ Hk). simpl in Hall. apply andb_true_iff in Hall as [?%bool_decide_eq_true ?%bool_decide_eq_true].
      done. }
    assert (map fst right ⊆ map fst left) as Hsub.
    { intros key Hkey. assert (map fst left ⊆+ map fst right) as Hs.
      { apply NoDup_submseteq; [done|]. intros k Hk. destruct (Hin k Hk) as [Hs _].
        destruct (own right k) eqn:E; [|by destruct Hs]. apply own_Some_elem in E.
        apply (list_elem_of_fmap_2 fst) in E. exact E. }
      apply submseteq_length_Permutation in Hs; [by rewrite Hs|].
      rewrite !length_map. lia. }
    intros key. destruct (decide (key ∈ map fst left)) as [Hk|Hk]; [by apply Hin|].
    rewrite (proj2 (own_None_notin left key) Hk). symmetry. apply own_None_notin. set_solver.
  - intros Heq.
    assert (∀ key, key ∈ map fst left ↔ key ∈ map fst right) as Hiff.
    { intros key. pose proof (own_None_notin left key). pose proof (own_None_notin right key).
      rewrite Heq in *. destruct (decide (key ∈ map fst left)), (decide (key ∈ map fst right)); naive_solver. }
    split.
    + rewrite <- (length_map fst left), <- (length_map fst right). apply Permutation_length.
      by apply NoDup_Permutation.
    + intros [k v] Hk. apply andb_true_iff. split; apply bool_decide_eq_true; [|done].
      destruct (own right k) eqn:E; [done|]. apply own_None_notin in E. destruct E. apply Hiff.
      apply list_elem_of_In in Hk. apply (list_elem_of_fmap_2 fst) in Hk. exact Hk.
Qed.
Example pluginExpressionsEqual_extensional_witness :
  let left := [(js "a", js "p * 1"); (js "b", js "p * 2")] in
  let right := [(js "b", js "p * 2"); (js "a", js "p * 1")] in
  pluginExpressionsEqual left right = true ↔ ∀ key, own left key = own right key.
Proof.
  intros left right.
  assert (NoDup (map fst left)) as Hl by (refine (bool_decide_unpack (NoDup _) _); vm_compute; exact I).
  assert (NoDup (map fst right)) as Hr by (refine (bool_decide_unpack (NoDup _) _); vm_compute; exact I).
  exact (pluginExpressionsEqual_extensional left right Hl Hr).
Defined.
