(* ===== verification/JsMap.v ===== *)
(** * Map, Set and Array.prototype.sort

    A JavaScript Map is its list of entries in insertion order, a Set the list
    of its members; [sort] is the stable sort by a comparator. *)

From S2P Require Import Prelude JsNumber JsIntegers.

Section Maps.
Context {K : Type} `{EqDecision K}.

Section Values.
Context {V : Type}.

(** [map.get(k)]. *)
Fixpoint mget (m : list (K * V)) (k : K) : option V :=
  match m with
  | [] => None
  | (k', v) :: m => if decide (k' = k) then Some v else mget m k
  end.

(** [map.set(k, v)]: an existing entry keeps its place. *)
Fixpoint mset (m : list (K * V)) (k : K) (v : V) : list (K * V) :=
  match m with
  | [] => [(k, v)]
  | (k', v') :: m => if decide (k' = k) then (k, v) :: m else (k', v') :: mset m k v
  end.

Lemma mget_mset m k v k' : mget (mset m k v) k' = if decide (k = k') then Some v else mget m k'.
Proof.
  induction m as [|[k0 v0] m IH]; cbn; [done|].
  destruct (decide (k0 = k)) as [->|Hk0]; cbn; [by destruct (decide (k = k'))|].
  rewrite IH. repeat case_decide; congruence.
Qed.

Lemma mget_Some m k v : mget m k = Some v → (k, v) ∈ m.
Proof.
  induction m as [|[k0 v0] m IH]; cbn; [done|]. case_decide as Hk; [|set_solver].
  intros [= ->]. subst. set_solver.
Qed.

Lemma mget_None m k : mget m k = None ↔ k ∉ m.*1.
Proof.
  induction m as [|[k0 v0] m IH]; cbn; [set_solver|]. case_decide as Hk; [set_solver|].
  rewrite IH. set_solver.
Qed.

Lemma mget_unique m k v : NoDup m.*1 → (k, v) ∈ m → mget m k = Some v.
Proof.
  induction m as [|[k0 v0] m IH]; cbn; [set_solver|].
  intros [Hn Hd]%NoDup_cons [[= -> ->]|Hin]%elem_of_cons; [by rewrite decide_True|].
  rewrite decide_False; [by apply IH|]. intros ->. apply Hn. apply (list_elem_of_fmap_2 fst _ _ Hin).
Qed.

Lemma mset_keys m k v : (mset m k v).*1 = if decide (k ∈ m.*1) then m.*1 else m.*1 ++ [k].
Proof.
  induction m as [|[k0 v0] m IH]; cbn; [done|]. destruct (decide (k0 = k)) as [->|Hk].
  - rewrite decide_True by set_solver. done.
  - cbn. rewrite IH. repeat case_decide; set_solver.
Qed.

Lemma mset_NoDup m k v : NoDup m.*1 → NoDup (mset m k v).*1.
Proof.
  intros Hd. rewrite mset_keys. case_decide; [done|]. apply NoDup_app. split_and!; [done| |apply NoDup_singleton].
  set_solver.
Qed.

(** An entry is new, or replaces the one it was computed from. *)
Lemma mset_split m k v :
  (k ∉ m.*1 ∧ mset m k v = m ++ [(k, v)]) ∨
  (∃ a v0 b, m = a ++ (k, v0) :: b ∧ mget m k = Some v0 ∧ k ∉ a.*1 ∧ mset m k v = a ++ (k, v) :: b).
Proof.
  induction m as [|[k0 v0] m IH]; cbn; [left; set_solver|]. destruct (decide (k0 = k)) as [->|Hk].
  - right. exists [], v0, m. split_and!; [done..|set_solver|done].
  - destruct IH as [[Hn ->]|(a & v1 & b & -> & Hg & Hn & ->)].
    + left. set_solver.
    + right. exists ((k0, v0) :: a), v1, b. split_and!; [done|done|set_solver|done].
Qed.
End Values.

(** [set.add(k)], [new Set(items)]. *)
Definition sadd (s : list K) (k : K) : list K := if decide (k ∈ s) then s else s ++ [k].
Definition unique (items : list K) : list K := foldl sadd [] items.

Lemma sadd_elem s k x : x ∈ sadd s k ↔ x ∈ s ∨ x = k.
Proof. unfold sadd. case_decide; set_solver. Qed.
Lemma sadd_NoDup s k : NoDup s → NoDup (sadd s k).
Proof. intros Hs. unfold sadd. case_decide; [done|]. apply NoDup_app. split_and!; [done|set_solver|apply NoDup_singleton]. Qed.

Lemma unique_spec items : ∀ s, NoDup s →
  NoDup (foldl sadd s items) ∧ ∀ x, x ∈ foldl sadd s items ↔ x ∈ s ∨ x ∈ items.
Proof.
  induction items as [|k items IH]; intros s Hs; cbn; [set_solver|].
  destruct (IH (sadd s k) (sadd_NoDup s k Hs)) as [Hd Hin]. split; [done|].
  intros x. rewrite Hin, sadd_elem. set_solver.
Qed.
Lemma unique_elem items x : x ∈ unique items ↔ x ∈ items.
Proof. unfold unique. rewrite (proj2 (unique_spec items [] (NoDup_nil_2)) x). set_solver. Qed.
Lemma unique_NoDup items : NoDup (unique items).
Proof. apply (unique_spec items [] NoDup_nil_2). Qed.
End Maps.

(** ** Sorting

    A comparator gives a number; [a || b] between numbers takes [b] when [a] is
    zero or NaN. Elements that compare as zero or NaN keep their order. *)
Definition num_or (a b : num) : num := if num_eqb a zero || is_nan a then b else a.

Section Sort.
Context {A : Type} (compare : A → A → num).

Fixpoint sort_insert (x : A) (l : list A) : list A :=
  match l with
  | [] => [x]
  | y :: l' => if num_ltb zero (compare x y) then y :: sort_insert x l' else x :: l
  end.
Definition sort_by (l : list A) : list A := fold_right sort_insert [] l.

Lemma sort_insert_Permutation x l : sort_insert x l ≡ₚ x :: l.
Proof.
  induction l as [|y l IH]; cbn; [done|]. destruct (num_ltb zero (compare x y)); [|done].
  rewrite IH. apply Permutation_swap.
Qed.
Lemma sort_by_Permutation l : sort_by l ≡ₚ l.
Proof. induction l as [|x l IH]; cbn; [done|]. by rewrite sort_insert_Permutation, IH. Qed.

(** The result is ordered, where the comparator is a total preorder. *)
Definition precedes (x y : A) : Prop := num_ltb zero (compare x y) = false.
Lemma sort_by_ordered l :
  (∀ x y, precedes x y ∨ precedes y x) → (∀ x y z, precedes x y → precedes y z → precedes x z) →
  StronglySorted precedes (sort_by l).
Proof.
  intros Htotal Htrans. induction l as [|x l IH]; [constructor|].
  change (sort_by (x :: l)) with (sort_insert x (sort_by l)). revert IH.
  generalize (sort_by l). clear l. intros l. induction l as [|y l IHl]; cbn; [by repeat constructor|].
  intros [Hs Hy]%StronglySorted_inv. destruct (num_ltb zero (compare x y)) eqn:E.
  - constructor; [by apply IHl|]. rewrite sort_insert_Permutation. constructor; [|done].
    destruct (Htotal x y) as [Hxy|?]; [|done]. unfold precedes in Hxy. congruence.
  - constructor; [by constructor|]. constructor; [done|]. eapply Forall_impl; [done|]. intros z. by apply Htrans.
Qed.
End Sort.

(** ** Sums of integers, exact below 2^53 *)

Definition num_sum (l : list num) : num := foldl num_add zero l.

Definition natural (x : num) (z : Z) : Prop := x = num_of_Z z ∧ (0 <= z)%Z.

Lemma natural_add x y a b :
  natural x a → natural y b → (a + b < 2 ^ 53)%Z → natural (num_add x y) (a + b).
Proof.
  intros [-> Ha] [-> Hb] Hab. split; [|lia]. apply num_add_Z; unfold small; lia.
Qed.

Lemma natural_unique x a b : natural x a → natural x b → (a < 2 ^ 53)%Z → (b < 2 ^ 53)%Z → a = b.
Proof.
  intros [-> Ha] [Hx Hb] Ha' Hb'. apply Z.eqb_eq.
  rewrite <- num_eqb_Z by (unfold small; lia). rewrite Hx, num_eqb_Z by (unfold small; lia). apply Z.eqb_refl.
Qed.

Definition zsum (l : list Z) : Z := foldr Z.add 0%Z l.

Lemma zsum_app a b : zsum (a ++ b) = (zsum a + zsum b)%Z.
Proof. induction a as [|x a IH]; cbn; [done|]. fold (zsum (a ++ b)). rewrite IH. fold (zsum a). lia. Qed.
Lemma zsum_nonneg l : Forall (Z.le 0) l → (0 <= zsum l)%Z.
Proof. induction 1 as [|x l Hx _ IH]; cbn; [lia|]. fold (zsum l). lia. Qed.
Lemma zsum_Permutation a b : a ≡ₚ b → zsum a = zsum b.
Proof.
  induction 1 as [|x l k _ IH|x y l|l k j _ IH1 _ IH2]; [done|unfold zsum in *; cbn; lia..].
Qed.

Lemma num_sum_natural l zs : Forall2 natural l zs → (zsum zs < 2 ^ 53)%Z → natural (num_sum l) (zsum zs).
Proof.
  unfold num_sum. intros Hl Hb. assert (natural zero 0) as H0 by done.
  replace (zsum zs) with (0 + zsum zs)%Z by lia. revert H0.
  assert (0 + zsum zs < 2 ^ 53)%Z as Hb' by lia. clear Hb. revert Hb'.
  generalize 0%Z, zero. induction Hl as [|x z l zs Hx Hl IH]; intros acc a Hb Ha; cbn.
  { by rewrite Z.add_0_r. }
  fold (zsum zs) in *. cbn in Hb. fold (zsum zs) in Hb.
  assert (0 <= zsum zs)%Z.
  { apply zsum_nonneg. clear -Hl. induction Hl as [|?? ?? [_ ?] ? IH]; constructor; auto. }
  replace (acc + (z + zsum zs))%Z with (acc + z + zsum zs)%Z by lia.
  apply IH; [lia|]. apply natural_add; [done|done|lia].
Qed.
