(* ===== verification/JsValue.v ===== *)
(** * Values of unknown type, and searching in strings

    Property access and truthiness on the values [JSON.parse] returns, and
    [indexOf] from a position. *)

From S2P Require Import Prelude JsNumber JsText Types Runtime.

(** [value.key]: no name used with it is a property of arrays or of prototypes. *)
Definition prop (v : jsval) (key : jsstring) : jsval :=
  match v with VObject entries => default VUndefined (own entries key) | _ => VUndefined end.

(** [value?.[0]]. *)
Definition first_item (v : jsval) : jsval :=
  match v with
  | VArray items => default VUndefined (head items)
  | VObject entries => default VUndefined (own entries (js "0"))
  | VString (c :: _) => VString [c]
  | _ => VUndefined
  end.

(** [Boolean(value)]. *)
Definition truthy (v : jsval) : bool :=
  match v with
  | VUndefined | VNull => false
  | VBoolean b => b
  | VNumber n => negb (num_eqb n zero || is_nan n)
  | VString s => negb (s =s [])
  | VArray _ | VObject _ => true
  end.

(** [Number(value)] goes through [String(value)] for an array; the objects here
    come from JSON and have no [toString] of their own. *)
Fixpoint string_of (v : jsval) : jsstring :=
  match v with
  | VUndefined => js "undefined"
  | VNull => js "null"
  | VBoolean b => if b then js "true" else js "false"
  | VNumber n => num_to_string n
  | VString s => s
  | VArray items =>
      join (js ",") (map (λ item, match item with VUndefined | VNull => [] | _ => string_of item end) items)
  | VObject _ => js "[object Object]"
  end.
Definition to_number (v : jsval) : num :=
  match v with
  | VUndefined => nan
  | VNull => zero
  | VBoolean b => if b then num_of_Z 1 else zero
  | VNumber n => n
  | VString s => number_of_string s
  | VArray _ | VObject _ => number_of_string (string_of v)
  end.

(** [a || b] on values, on strings. *)
Definition or_value (a b : jsval) : jsval := if truthy a then a else b.
Definition or_text (a b : jsstring) : jsstring := if a =s [] then b else a.

(** [value === text]. *)
Definition is_text (v : jsval) (s : jsstring) : bool := match v with VString t => t =s s | _ => false end.

(** [typeof value === 'string']. *)
Definition is_string (v : jsval) : bool := match v with VString _ => true | _ => false end.

(** [a === b] on values that are not the same object. *)
Definition strict_eq (a b : jsval) : bool :=
  match a, b with
  | VUndefined, VUndefined | VNull, VNull => true
  | VBoolean x, VBoolean y => Bool.eqb x y
  | VNumber x, VNumber y => num_eqb x y
  | VString x, VString y => x =s y
  | _, _ => false
  end.

(** A property that is there. *)
Definition is_some {A} (o : option A) : bool := match o with Some _ => true | None => false end.

(** ** [s.indexOf(word)] *)
Fixpoint index_of (word s : jsstring) : option nat :=
  if starts_with word s then Some 0
  else match s with [] => None | _ :: s => S <$> index_of word s end.

Lemma index_of_Some word s n : index_of word s = Some n →
  ∃ a b, s = a ++ word ++ b ∧ length a = n.
Proof.
  revert n. induction s as [|c s IH]; intros n; cbn [index_of].
  - destruct (starts_with word []) eqn:E; [|done]. intros [= <-]. apply starts_with_spec in E as [r Hr].
    by exists [], r.
  - destruct (starts_with word (c :: s)) eqn:E.
    + intros [= <-]. apply starts_with_spec in E as [r Hr]. by exists [], r.
    + destruct (index_of word s) as [m|] eqn:Hm; [|done]. intros [= <-].
      destruct (IH m eq_refl) as (a & b & -> & <-). by exists (c :: a), b.
Qed.

Lemma index_of_None word s : index_of word s = None ↔ includes word s = false.
Proof.
  induction s as [|c s IH]; cbn [index_of includes].
  - destruct (starts_with word []); by split.
  - destruct (starts_with word (c :: s)); [by split|]. cbn [orb]. rewrite <- IH.
    destruct (index_of word s); by split.
Qed.

(** A word that never overlaps itself: its first unit occurs in it once. *)
Definition borderless (word : jsstring) : Prop := ∃ c r, word = c :: r ∧ c ∉ r.

Lemma starts_with_overlap c r a b :
  c ∉ r → starts_with (c :: r) (a ++ (c :: r) ++ b) = true → a ≠ [] → includes (c :: r) a = true.
Proof.
  intros Hc Hs Ha. apply starts_with_spec in Hs as [t Ht].
  assert (length (c :: r) ≤ length a) as Hl.
  { destruct (decide (length (c :: r) ≤ length a)) as [|Hn]; [done|]. exfalso. apply Hc.
    destruct a as [|x a]; [done|]. cbn in Hn. apply (list_elem_of_lookup_2 _ (length a)).
    assert (((x :: a) ++ (c :: r) ++ b) !! S (length a) = Some c) as H1.
    { rewrite lookup_app_r by (cbn; lia). replace (S (length a) - length (x :: a)) with 0 by (cbn; lia). done. }
    rewrite Ht, lookup_app_l in H1 by (cbn; lia). exact H1. }
  apply includes_spec. exists [], (drop (length (c :: r)) a).
  assert (take (length (c :: r)) (a ++ (c :: r) ++ b) = take (length (c :: r)) ((c :: r) ++ t)) as H by (by rewrite Ht).
  rewrite take_app_le in H by done. rewrite take_app_length in H.
  etrans; [symmetry; apply (take_drop (length (c :: r)) a)|]. by rewrite H at 1.
Qed.

(** The first occurrence of a borderless word is the one after a text that
    does not contain it. *)
Lemma index_of_first word a b : borderless word → includes word a = false →
  index_of word (a ++ word ++ b) = Some (length a).
Proof.
  intros (c & r & -> & Hc). induction a as [|x a IH]; intros Ha.
  - cbn [app length]. pose proof (starts_with_app (c :: r) b) as H. cbn [app] in H. unfold index_of. by rewrite H.
  - cbn [includes] in Ha. apply orb_false_iff in Ha as [Hx Ha].
    cbn [app index_of length]. destruct (starts_with (c :: r) (x :: a ++ (c :: r) ++ b)) eqn:E.
    + change (x :: a ++ (c :: r) ++ b) with ((x :: a) ++ (c :: r) ++ b) in E.
      apply starts_with_overlap in E; [|done..]. cbn [includes] in E. by rewrite Hx, Ha in E.
    + specialize (IH Ha). cbn [app] in IH, E. by rewrite E, IH.
Qed.

Lemma includes_app_l word a b : includes word a = true → includes word (a ++ b) = true.
Proof. rewrite !includes_spec. intros (x & y & ->). exists x, (y ++ b). by rewrite <- !app_assoc. Qed.

Lemma index_of_least word s n a b : index_of word s = Some n → s = a ++ word ++ b → n ≤ length a.
Proof.
  revert s n. induction a as [|c a IH]; intros s n Hn ->.
  - cbn [app] in Hn. pose proof (starts_with_app word b) as Hs. destruct (word ++ b); cbn [index_of] in Hn; rewrite Hs in Hn; by simplify_eq.
  - cbn [app index_of length] in *. destruct (starts_with word _); [injection Hn as <-; lia|].
    destruct (index_of word (a ++ word ++ b)) as [m|] eqn:Hm; [|done]. injection Hn as <-.
    specialize (IH _ _ Hm eq_refl). lia.
Qed.

(** The text before the first occurrence does not contain the word. *)
Lemma index_of_split word s n : borderless word → index_of word s = Some n →
  ∃ a b, s = a ++ word ++ b ∧ length a = n ∧ includes word a = false.
Proof.
  intros (c & r & -> & _) Hn. destruct (index_of_Some _ _ _ Hn) as (a & b & Hs & Ha).
  exists a, b. split_and!; [done..|]. apply not_true_is_false. intros (x & y & ->)%includes_spec.
  rewrite Hs, <- !app_assoc in Hn. pose proof (index_of_least _ _ _ x _ Hn eq_refl) as Hle.
  rewrite !length_app in Ha. cbn in *. lia.
Qed.
