(* ===== verification/FlowPath.v ===== *)
(** * features/dashboard/lib/flow.ts: rows, paths and filters

    A row of the usage table becomes a path through the visible stages of the
    Sankey graph; rows are selected by the nodes of their paths, and the nodes
    beyond the limit of a stage are merged into one or hidden. *)

From S2P Require Import Prelude JsNumber JsText Types Runtime JsMap JsValue.

(** ** Data *)

Inductive FlowNodeKind := KUser | KNode | KToken | KGroup | KModel | KChannel.
#[export] Instance FlowNodeKind_eq_dec : EqDecision FlowNodeKind.
Proof. solve_decision. Defined.

Inductive FlowMetric := MQuota | MTokens | MRequests.
Inductive FlowOverflowMode := OverflowAggregate | OverflowHide.
Inductive FlowRole := RoleUser | RoleAdmin | RoleRoot.

(** A field that is [undefined] is [None]. *)
Record FlowQuotaDataItem := mkRow {
  row_user_id : option num;
  row_username : option jsstring;
  row_node_name : option jsstring;
  row_use_group : option jsstring;
  row_token_id : option num;
  row_token_name : option jsstring;
  row_channel_id : option num;
  row_channel_name : option jsstring;
  row_model_name : option jsstring;
  row_token_used : option num;
  row_count : option num;
  row_quota : option num
}.

Record FlowMetrics := mkMetrics { m_quota : num; m_tokens : num; m_requests : num }.
Record FlowPathNode := mkPathNode { path_id : jsstring; path_label : jsstring; path_kind : FlowNodeKind }.
Record PreparedFlowPath := mkPrepared { prepared_path : list FlowPathNode; prepared_metrics : FlowMetrics }.
Record FlowNodeRank := mkRank { rank_node : FlowPathNode; rank_value : num }.
Record FlowPathContext := mkContext { ctx_deletedTokenLabel : option (num → jsstring) }.
Record FlowNodeFilter := mkFilter { filter_kind : FlowNodeKind; filter_id : jsstring }.
Record FlowLinkSelection := mkSelection { selected_source : jsstring; selected_target : jsstring }.

Definition EMPTY_FLOW_PATH_CONTEXT : FlowPathContext := mkContext None.
Definition DEFAULT_FLOW_ROLE : FlowRole := RoleUser.
Definition DEFAULT_FLOW_OVERFLOW_MODE : FlowOverflowMode := OverflowAggregate.

Definition FLOW_NODE_KINDS : list FlowNodeKind := [KUser; KNode; KToken; KGroup; KModel; KChannel].

(** The text of a kind. *)
Definition kind_name (k : FlowNodeKind) : jsstring :=
  js match k with
     | KUser => "user" | KNode => "node" | KToken => "token"
     | KGroup => "group" | KModel => "model" | KChannel => "channel"
     end%string.

Definition OTHER_FLOW_NODE_IDS (k : FlowNodeKind) : jsstring := kind_name k ++ js ":__other__".
Definition DEFAULT_OTHER_FLOW_NODE_LABELS (k : FlowNodeKind) : jsstring :=
  js match k with
     | KUser => "Other users" | KNode => "Other nodes" | KToken => "Other tokens"
     | KGroup => "Other groups" | KModel => "Other models" | KChannel => "Other channels"
     end%string.
Definition SENSITIVE_FLOW_KINDS : list FlowNodeKind := [KUser; KNode; KToken; KGroup; KChannel].
Definition OTHER_FLOW_NODE_ID_SET : list jsstring := map OTHER_FLOW_NODE_IDS FLOW_NODE_KINDS.

(** ** Values *)

Definition numberValue (v : jsval) : num :=
  let n := to_number v in if is_finite n then n else zero.

Definition field_value (n : option num) : jsval := from_option VNumber VUndefined n.
Definition number_field (n : option num) : num := numberValue (field_value n).

(** [text || fallback]. *)
Definition text_or (s : option jsstring) (fallback : jsstring) : jsstring :=
  match s with Some (c :: r) => c :: r | _ => fallback end.

Definition rowMetrics (row : FlowQuotaDataItem) : FlowMetrics :=
  mkMetrics (number_field (row_quota row)) (number_field (row_token_used row)) (number_field (row_count row)).

Definition metricValue (metrics : FlowMetrics) (metric : FlowMetric) : num :=
  match metric with
  | MRequests => m_requests metrics
  | MTokens => m_tokens metrics
  | MQuota => m_quota metrics
  end.

(** ** The node of a row at each stage *)

Definition is_positive (n : num) : bool := num_ltb zero n.

Definition userNode (row : FlowQuotaDataItem) : FlowPathNode :=
  let userID := number_field (row_user_id row) in
  mkPathNode
    (if is_positive userID then js "user:" ++ num_to_string userID
     else js "user:" ++ text_or (row_username row) (js "unknown"))
    (text_or (row_username row)
       (if is_positive userID then js "user-" ++ num_to_string userID else js "Unknown User"))
    KUser.

Definition nodeNameNode (row : FlowQuotaDataItem) : FlowPathNode :=
  let nodeName := text_or (row_node_name row) (js "default-node") in
  mkPathNode (js "node:" ++ nodeName) nodeName KNode.

Definition deletedTokenLabel (tokenID : num) (ctx : FlowPathContext) : jsstring :=
  if num_leb tokenID zero then js "Unknown Token"
  else
    match ctx_deletedTokenLabel ctx with
    | Some label => label tokenID
    | None => js "token-" ++ num_to_string tokenID
    end.

Definition tokenNode (row : FlowQuotaDataItem) (ctx : FlowPathContext) : FlowPathNode :=
  let tokenID := number_field (row_token_id row) in
  mkPathNode
    (if is_positive tokenID then js "token:" ++ num_to_string tokenID
     else js "token:" ++ text_or (row_token_name row) (js "unknown"))
    (text_or (row_token_name row) (deletedTokenLabel tokenID ctx))
    KToken.

Definition groupNode (row : FlowQuotaDataItem) : FlowPathNode :=
  let useGroup := text_or (row_use_group row) (js "unknown") in
  mkPathNode (js "group:" ++ useGroup) useGroup KGroup.

Definition modelNode (row : FlowQuotaDataItem) : FlowPathNode :=
  mkPathNode (js "model:" ++ text_or (row_model_name row) (js "unknown"))
    (text_or (row_model_name row) (js "Unknown Model")) KModel.

Definition channelNode (row : FlowQuotaDataItem) : FlowPathNode :=
  let channelID := number_field (row_channel_id row) in
  mkPathNode
    (if is_positive channelID then js "channel:" ++ num_to_string channelID
     else js "channel:" ++ text_or (row_channel_name row) (js "unknown"))
    (text_or (row_channel_name row)
       (if is_positive channelID then js "channel-" ++ num_to_string channelID else js "Unknown"))
    KChannel.

Definition NODE_BUILDERS (k : FlowNodeKind) (row : FlowQuotaDataItem) (ctx : FlowPathContext) : FlowPathNode :=
  match k with
  | KUser => userNode row
  | KNode => nodeNameNode row
  | KToken => tokenNode row ctx
  | KGroup => groupNode row
  | KModel => modelNode row
  | KChannel => channelNode row
  end.

(** ** Stages *)

Definition ROLE_FLOW_STAGES (role : FlowRole) : list FlowNodeKind :=
  match role with
  | RoleRoot => [KUser; KNode; KToken; KGroup; KModel; KChannel]
  | RoleAdmin => [KUser; KGroup; KModel; KChannel]
  | RoleUser => [KToken; KGroup; KModel]
  end.
Definition MIN_FLOW_STAGES : nat := 2.
Definition getFlowStages (role : FlowRole) : list FlowNodeKind := ROLE_FLOW_STAGES role.

Definition in_list {A} `{EqDecision A} (x : A) (l : list A) : bool := bool_decide (x ∈ l).

Definition resolveVisibleStages (role : FlowRole) (visibleStages : option (list FlowNodeKind)) : list FlowNodeKind :=
  let stages := getFlowStages role in
  match visibleStages with
  | None => stages
  | Some visible =>
      let filtered := List.filter (λ stage, in_list stage visible) stages in
      if MIN_FLOW_STAGES <=? length filtered then filtered else stages
  end.

Definition flowPathForStages (row : FlowQuotaDataItem) (stages : list FlowNodeKind) (ctx : FlowPathContext)
    : list FlowPathNode :=
  map (λ stage, NODE_BUILDERS stage row ctx) stages.

(** ** Filters *)

(** [selectedUsers]: the option of the caller, or none. *)
Definition filterRows (rows : list FlowQuotaDataItem) (selectedUsers : option (list jsstring)) : list FlowQuotaDataItem :=
  match default [] selectedUsers with
  | [] => rows
  | selected => List.filter (λ row, in_list (path_id (userNode row)) selected) rows
  end.

Definition nodeFilterKey (filter : FlowNodeFilter) : jsstring :=
  kind_name (filter_kind filter) ++ [0%N] ++ filter_id filter.

Abbreviation NodeFilters := (list (FlowNodeKind * list jsstring)).

Definition add_filter (stages : list FlowNodeKind) (filters : NodeFilters) (filter : FlowNodeFilter) : NodeFilters :=
  if in_list (filter_kind filter) stages then
    mset filters (filter_kind filter)
      (sadd (default [] (mget filters (filter_kind filter))) (filter_id filter))
  else filters.
Definition normalizeSelectedNodeFilters (selectedNodes : option (list FlowNodeFilter))
    (stages : list FlowNodeKind) : NodeFilters :=
  foldl (add_filter stages) [] (default [] selectedNodes).

Definition path_ids_by_kind (path : list FlowPathNode) : NodeFilters :=
  foldl (λ m node, mset m (path_kind node) (sadd (default [] (mget m (path_kind node))) (path_id node))) [] path.

Definition pathMatchesNodeFilters (path : list FlowPathNode) (filters : NodeFilters) : bool :=
  match filters with
  | [] => true
  | _ =>
      let pathNodesByKind := path_ids_by_kind path in
      forallb (λ '(kind, selectedIds),
                 match mget pathNodesByKind kind with
                 | None => false
                 | Some pathIds => existsb (λ id, in_list id pathIds) selectedIds
                 end) filters
  end.

Definition filterRowsByNodes (rows : list FlowQuotaDataItem) (selectedNodes : option (list FlowNodeFilter))
    (stages : list FlowNodeKind) (ctx : FlowPathContext) : list FlowQuotaDataItem :=
  match normalizeSelectedNodeFilters selectedNodes stages with
  | [] => rows
  | filters => List.filter (λ row, pathMatchesNodeFilters (flowPathForStages row stages ctx) filters) rows
  end.

Definition selectedNodeFiltersExceptKind (selectedNodes : option (list FlowNodeFilter)) (kind : FlowNodeKind)
    : option (list FlowNodeFilter) :=
  match List.filter (λ filter, negb (bool_decide (filter_kind filter = kind))) (default [] selectedNodes) with
  | [] => None
  | filtered => Some filtered
  end.

(** ** The limit of nodes per stage *)

Definition normalizeTopNodeLimit (limit : option num) : option num :=
  limit ← limit;
  let parsed := num_floor limit in
  if is_finite parsed && num_ltb zero parsed then Some parsed else None.

Definition otherFlowNode (kind : FlowNodeKind) (labeler : option (FlowNodeKind → jsstring)) : FlowPathNode :=
  mkPathNode (OTHER_FLOW_NODE_IDS kind)
    (match labeler with Some f => f kind | None => DEFAULT_OTHER_FLOW_NODE_LABELS kind end) kind.

(** [a.localeCompare(b)], of the browser's locale. *)
Class FlowHost := {
  localeCompare : jsstring → jsstring → num;
  (* [Intl.NumberFormat(undefined, { maximumFractionDigits: 0 }).format] *)
  formatNumber : num → jsstring;
  (* [vchartDefaultDataScheme] of the chart library: its colours (the strings
     of [scheme]) with [maxDomainLength]; it is not empty *)
  vchartDefaultDataScheme : list (list jsstring * option num);
  vchartLastScheme : list jsstring
}.

Section Top.
Context `{FlowHost}.

Abbreviation StageTotals := (list (jsstring * FlowNodeRank)).

Definition rank_node_of (value : num) (totals : list (FlowNodeKind * StageTotals)) (node : FlowPathNode)
    : list (FlowNodeKind * StageTotals) :=
  match mget totals (path_kind node) with
  | None => totals
  | Some stageTotals =>
      let current := default (mkRank node zero) (mget stageTotals (path_id node)) in
      mset totals (path_kind node)
        (mset stageTotals (path_id node) (mkRank (rank_node current) (num_add (rank_value current) value)))
  end.

Definition compare_ranks (a b : FlowNodeRank) : num :=
  num_or (num_sub (rank_value b) (rank_value a))
    (num_or (localeCompare (path_label (rank_node a)) (path_label (rank_node b)))
       (localeCompare (path_id (rank_node a)) (path_id (rank_node b)))).

(** [slice(0, limit)] of a positive integer. *)
Definition top_ids (limit : num) (stageTotals : StageTotals) : list jsstring :=
  map (λ rank, path_id (rank_node rank))
    (take (Z.to_nat (trunc_Z limit)) (sort_by compare_ranks stageTotals.*2)).

Definition stage_totals (rows : list FlowQuotaDataItem) (metric : FlowMetric) (stages : list FlowNodeKind)
    (ctx : FlowPathContext) : list (FlowNodeKind * StageTotals) :=
  foldl (λ totals row,
           foldl (rank_node_of (metricValue (rowMetrics row) metric)) totals (flowPathForStages row stages ctx))
    (foldl (λ m stage, mset m stage []) [] stages) rows.

Definition buildTopNodeSets (rows : list FlowQuotaDataItem) (metric : FlowMetric) (stages : list FlowNodeKind)
    (limit : option num) (ctx : FlowPathContext) : option NodeFilters :=
  limit ← limit;
  Some (map (λ '(kind, stageTotals), (kind, unique (top_ids limit stageTotals)))
          (stage_totals rows metric stages ctx)).
End Top.

Definition isTopFlowNode (node : FlowPathNode) (topNodeSets : NodeFilters) : bool :=
  match mget topNodeSets (path_kind node) with
  | None => true
  | Some topNodes => in_list (path_id node) topNodes
  end.

Definition applyTopNodeLimit (path : list FlowPathNode) (topNodeSets : option NodeFilters)
    (mode : FlowOverflowMode) (labeler : option (FlowNodeKind → jsstring)) : option (list FlowPathNode) :=
  match topNodeSets with
  | None => Some path
  | Some sets =>
      if negb (existsb (λ node, negb (isTopFlowNode node sets)) path) then Some path
      else
        match mode with
        | OverflowHide => None
        | OverflowAggregate =>
            Some (map (λ node, if isTopFlowNode node sets then node
                               else otherFlowNode (path_kind node) labeler) path)
        end
  end.
