(* ===== verification/FlowGraph.v ===== *)
(** * features/dashboard/lib/flow.ts: the graph, its colours and options

    Paths are added up into nodes and links, labels masked and highlights set
    in place, links coloured; then the options of the filters and the data of
    the chart. *)

From Stdlib Require Import SpecFloat.
From S2P Require Import Prelude JsNumber JsText Types Runtime JsMap JsValue FlowPath.

Record DashboardFlowNode := mkNode {
  n_id : jsstring;
  n_label : jsstring;
  n_kind : FlowNodeKind;
  n_value : num;
  n_requests : num;
  n_quota : num;
  n_tokens : num;
  n_color : jsstring;
  n_colorKey : jsstring;
  n_highlighted : option bool;
  n_dimmed : option bool
}.

Record DashboardFlowLink := mkLink {
  l_source : jsstring;
  l_target : jsstring;
  l_value : num;
  l_requests : num;
  l_quota : num;
  l_tokens : num;
  l_sourceLabel : jsstring;
  l_targetLabel : jsstring;
  l_color : jsstring;
  l_linkColor : jsstring;
  l_linkAlpha : num;
  l_hoverColor : jsstring;
  l_colorKey : jsstring;
  l_share : num;
  l_highlighted : option bool;
  l_dimmed : option bool
}.

Record DashboardFlowGraph := mkGraph { nodes : list DashboardFlowNode; links : list DashboardFlowLink }.

Record FlowGraphOptions := mkGraphOptions {
  o_topNodeLimit : option num;
  o_overflowMode : option FlowOverflowMode;
  o_otherNodeLabel : option (FlowNodeKind → jsstring);
  o_activeNode : option FlowNodeFilter;
  o_activeLink : option FlowLinkSelection;
  o_maskSensitive : bool
}.

(** ** Adding a path *)

Abbreviation NodeMap := (list (jsstring * DashboardFlowNode)).
Abbreviation LinkMap := (list (jsstring * DashboardFlowLink)).

Definition grow_node (metrics : FlowMetrics) (metric : FlowMetric) (n : DashboardFlowNode) : DashboardFlowNode :=
  mkNode (n_id n) (n_label n) (n_kind n) (num_add (n_value n) (metricValue metrics metric))
    (num_add (n_requests n) (m_requests metrics)) (num_add (n_quota n) (m_quota metrics))
    (num_add (n_tokens n) (m_tokens metrics)) (n_color n) (n_colorKey n) (n_highlighted n) (n_dimmed n).

Definition new_node (pathNode : FlowPathNode) (color colorKey : jsstring) : DashboardFlowNode :=
  mkNode (path_id pathNode) (path_label pathNode) (path_kind pathNode) zero zero zero zero color colorKey None None.

Definition addNode (map : NodeMap) (pathNode : FlowPathNode) (metrics : FlowMetrics) (metric : FlowMetric)
    (color colorKey : jsstring) : NodeMap :=
  let previous := default (new_node pathNode color colorKey) (mget map (path_id pathNode)) in
  mset map (path_id pathNode) (grow_node metrics metric previous).

Definition grow_link (metrics : FlowMetrics) (metric : FlowMetric) (l : DashboardFlowLink) : DashboardFlowLink :=
  mkLink (l_source l) (l_target l) (num_add (l_value l) (metricValue metrics metric))
    (num_add (l_requests l) (m_requests metrics)) (num_add (l_quota l) (m_quota metrics))
    (num_add (l_tokens l) (m_tokens metrics)) (l_sourceLabel l) (l_targetLabel l) (l_color l)
    (l_linkColor l) (l_linkAlpha l) (l_hoverColor l) (l_colorKey l) (l_share l)
    (l_highlighted l) (l_dimmed l).

Definition new_link (source target : FlowPathNode) (color colorKey : jsstring) : DashboardFlowLink :=
  mkLink (path_id source) (path_id target) zero zero zero zero (path_label source) (path_label target)
    color color (num_of_Z 1) color colorKey zero None None.

Definition link_key (source target : jsstring) : jsstring := source ++ [0%N] ++ target.
Definition pathLinkKey (source target : FlowPathNode) : jsstring := link_key (path_id source) (path_id target).
Definition linkStableKey (link : DashboardFlowLink) : jsstring := link_key (l_source link) (l_target link).

Definition addLink (map : LinkMap) (source target : FlowPathNode) (metrics : FlowMetrics) (metric : FlowMetric)
    (color colorKey : jsstring) : LinkMap :=
  let key := pathLinkKey source target in
  let previous := default (new_link source target color colorKey) (mget map key) in
  mset map key (grow_link metrics metric previous).

(** The consecutive pairs of a path: the loop on [i] from 0 below [length - 1]. *)
Fixpoint steps {A} (path : list A) : list (A * A) :=
  match path with
  | a :: ((b :: _) as rest) => (a, b) :: steps rest
  | _ => []
  end.

(** ** Colours *)

Definition DEFAULT_FLOW_CHART_COLOR : jsstring := js "#1664FF".

Section Host.
Context `{FlowHost}.

Definition getDashboardChartColors (domainLength : nat) : list jsstring :=
  match List.find (λ item,
      match item.2 with
      | Some limit => num_eqb limit zero || is_nan limit || num_leb (num_of_Z (Z.of_nat domainLength)) limit
      | None => true
      end) vchartDefaultDataScheme with
  | Some item => item.1
  | None => vchartLastScheme
  end.

Definition colorAt (index : nat) (palette : option (list jsstring)) : jsstring :=
  let colors := match palette with
                | Some (c :: r) => c :: r
                | _ => getDashboardChartColors (index + 1)
                end in
  match colors with
  | [] => DEFAULT_FLOW_CHART_COLOR
  | _ => default DEFAULT_FLOW_CHART_COLOR (colors !! (index mod length colors))
  end.

Definition colorPalette (colorCount : nat) (palette : option (list jsstring)) : list jsstring :=
  match palette with
  | Some (c :: r) => c :: r
  | _ =>
      match getDashboardChartColors colorCount with
      | [] => [DEFAULT_FLOW_CHART_COLOR]
      | colors => colors
      end
  end.

Definition stableColorMap (keys : list jsstring) (palette : option (list jsstring)) : list (jsstring * jsstring) :=
  let uniqueKeys := unique keys in
  let colors := colorPalette (length uniqueKeys) palette in
  foldl (λ m '(key, index), mset m key (colorAt index (Some colors))) []
    (zip uniqueKeys (seq 0 (length uniqueKeys))).

(** [x.toFixed(2)] of a finite number below 10^21 in absolute value: two
    decimals, halves away from zero. *)
Definition hundredths (m : positive) (e : Z) : Z :=
  if (0 <=? e)%Z then (Z.pos m * 2 ^ e * 100)%Z
  else ((Z.pos m * 200 + 2 ^ (- e)) / (2 * 2 ^ (- e)))%Z.
Definition to_fixed_2 (x : num) : jsstring :=
  let '(negative, n) :=
    match x with S754_finite s m e => (s, Z.to_N (hundredths m e)) | _ => (false, 0%N) end in
  (if negative then js "-" else []) ++ dec_string (n / 100) ++ js "."
  ++ pad_start 2 48%N (dec_string (n mod 100)).

(** The six hexadecimal digits of the pattern, as a number. *)
Definition hex_color (color : jsstring) : option Z :=
  let normalized := trim color in
  let hex := match normalized with 35%N :: r => r | _ => normalized end in
  if length hex =? 6 then Z.of_N <$> radix_value 16 hex 0 else None.

Definition alphaColor (color : jsstring) (alpha : num) : jsstring * num :=
  match hex_color color with
  | None => (trim color, alpha)
  | Some v =>
      let channel shift := dec_string (Z.to_N (Z.land (Z.shiftr v shift) 255)) in
      (js "rgba(" ++ channel 16 ++ js ", " ++ channel 8 ++ js ", " ++ channel 0 ++ js ", "
         ++ to_fixed_2 alpha ++ js ")",
       num_of_Z 1)
  end%Z.

Definition set_display (display : jsstring * num) (l : DashboardFlowLink) : DashboardFlowLink :=
  mkLink (l_source l) (l_target l) (l_value l) (l_requests l) (l_quota l) (l_tokens l)
    (l_sourceLabel l) (l_targetLabel l) (l_color l) display.1 display.2 (l_color l) (l_colorKey l)
    (l_share l) (l_highlighted l) (l_dimmed l).

Definition compare_links (a b : DashboardFlowLink) : num :=
  num_or (num_sub (l_value b) (l_value a)) (localeCompare (linkStableKey a) (linkStableKey b)).

(** The alpha of the link at [index] among [count] of its source. *)
Definition link_alpha (count index : nat) : num :=
  if count =? 1 then of_decimal 34 (-2)
  else
    num_add (of_decimal 24 (-2))
      (num_mul (num_div (num_of_Z (Z.of_nat index)) (num_of_Z (Z.of_nat (Nat.max (count - 1) 1))))
         (of_decimal 2 (-1))).

(** The links are objects shared by the groups and the list: the assignments
    are read off here at the place of a link in its sorted group. Links are told
    apart by their key, under which [addLink] stores one link only. *)
Definition position_in (sorted : list DashboardFlowLink) (link : DashboardFlowLink) : nat :=
  default 0 (list_find (λ l, linkStableKey l = linkStableKey link) sorted ≫= λ p, Some p.1).

Definition assignLinkDisplayColors (flowLinks : list DashboardFlowLink) : list DashboardFlowLink :=
  map (λ link,
         let sourceLinks := List.filter (λ l, bool_decide (l_source l = l_source link)) flowLinks in
         let sortedLinks := sort_by compare_links sourceLinks in
         set_display (alphaColor (l_color link) (link_alpha (length sortedLinks) (position_in sortedLinks link)))
           link) flowLinks.

(** ** Highlights *)

Record FlowHighlightSets := mkHighlights { h_nodes : list jsstring; h_links : list jsstring }.

Definition pathContainsFlowNode (path : list FlowPathNode) (filter : FlowNodeFilter) : bool :=
  existsb (λ node, bool_decide (path_kind node = filter_kind filter)
                   && bool_decide (path_id node = filter_id filter)) path.
Definition pathContainsFlowLink (path : list FlowPathNode) (link : FlowLinkSelection) : bool :=
  existsb (λ '(a, b), bool_decide (path_id a = selected_source link)
                      && bool_decide (path_id b = selected_target link)) (steps path).

Definition matchesPath (activeNode : option FlowNodeFilter) (activeLink : option FlowLinkSelection)
    (path : list FlowPathNode) : bool :=
  match activeLink, activeNode with
  | Some link, _ => pathContainsFlowLink path link
  | None, Some node => pathContainsFlowNode path node
  | None, None => false
  end.

Definition highlight_path (sets : FlowHighlightSets) (path : list FlowPathNode) : FlowHighlightSets :=
  mkHighlights (foldl (λ s node, sadd s (path_id node)) (h_nodes sets) path)
    (foldl (λ s '(a, b), sadd s (pathLinkKey a b)) (h_links sets) (steps path)).

Definition buildFlowHighlightSets (preparedPaths : list PreparedFlowPath) (activeNode : option FlowNodeFilter)
    (activeLink : option FlowLinkSelection) (stages : list FlowNodeKind) : option FlowHighlightSets :=
  let nodeActive := match activeNode with
                    | Some node => in_list (filter_kind node) stages
                    | None => false
                    end in
  if negb nodeActive && negb (bool_decide (is_Some activeLink)) then None
  else
    let matching := List.filter (matchesPath activeNode activeLink) (map prepared_path preparedPaths) in
    let sets := foldl highlight_path (mkHighlights [] []) matching in
    match h_nodes sets with [] => None | _ => Some sets end.

Definition highlight_node (sets : FlowHighlightSets) (n : DashboardFlowNode) : DashboardFlowNode :=
  let highlighted := in_list (n_id n) (h_nodes sets) in
  mkNode (n_id n) (n_label n) (n_kind n) (n_value n) (n_requests n) (n_quota n) (n_tokens n)
    (n_color n) (n_colorKey n) (Some highlighted) (Some (negb highlighted)).
Definition highlight_link (sets : FlowHighlightSets) (l : DashboardFlowLink) : DashboardFlowLink :=
  let highlighted := in_list (linkStableKey l) (h_links sets) in
  mkLink (l_source l) (l_target l) (l_value l) (l_requests l) (l_quota l) (l_tokens l)
    (l_sourceLabel l) (l_targetLabel l) (l_color l) (l_linkColor l) (l_linkAlpha l) (l_hoverColor l)
    (l_colorKey l) (l_share l) (Some highlighted) (Some (negb highlighted)).

(** On the values of the two maps. *)
Definition applyFlowHighlights (nodes : NodeMap) (links : LinkMap) (highlightSets : option FlowHighlightSets)
    : NodeMap * LinkMap :=
  match highlightSets with
  | None => (nodes, links)
  | Some sets =>
      (map (λ '(k, n), (k, highlight_node sets n)) nodes, map (λ '(k, l), (k, highlight_link sets l)) links)
  end.

(** ** Masking *)

(** Four bullets. *)
Definition FLOW_MASK_TEXT : jsstring := [8226; 8226; 8226; 8226]%N.
Definition maskFlowLabel (label : jsstring) : jsstring :=
  match label with [] => label | _ => FLOW_MASK_TEXT end.

Definition is_masked (n : DashboardFlowNode) : bool :=
  in_list (n_kind n) SENSITIVE_FLOW_KINDS && negb (in_list (n_id n) OTHER_FLOW_NODE_ID_SET).

Definition relabel_node (label : jsstring) (n : DashboardFlowNode) : DashboardFlowNode :=
  mkNode (n_id n) label (n_kind n) (n_value n) (n_requests n) (n_quota n) (n_tokens n)
    (n_color n) (n_colorKey n) (n_highlighted n) (n_dimmed n).
Definition relabel_link (sourceLabel targetLabel : jsstring) (l : DashboardFlowLink) : DashboardFlowLink :=
  mkLink (l_source l) (l_target l) (l_value l) (l_requests l) (l_quota l) (l_tokens l)
    sourceLabel targetLabel (l_color l) (l_linkColor l) (l_linkAlpha l) (l_hoverColor l)
    (l_colorKey l) (l_share l) (l_highlighted l) (l_dimmed l).

Definition maskFlowGraphLabels (nodes : NodeMap) (links : LinkMap) : NodeMap * LinkMap :=
  let maskedById :=
    foldl (λ m '(_, n), if is_masked n then mset m (n_id n) (maskFlowLabel (n_label n)) else m) [] nodes in
  (map (λ '(k, n), (k, if is_masked n then relabel_node (maskFlowLabel (n_label n)) n else n)) nodes,
   map (λ '(k, l), (k, relabel_link (default (l_sourceLabel l) (mget maskedById (l_source l)))
                         (default (l_targetLabel l) (mget maskedById (l_target l))) l)) links).

(** ** buildFlowGraph *)

Definition preparePaths (rows : list FlowQuotaDataItem) (stages : list FlowNodeKind) (ctx : FlowPathContext)
    (topNodeSets : option NodeFilters) (mode : FlowOverflowMode)
    (labeler : option (FlowNodeKind → jsstring)) : list PreparedFlowPath :=
  omap (λ row,
    path ← applyTopNodeLimit (flowPathForStages row stages ctx) topNodeSets mode labeler;
    Some (mkPrepared path (rowMetrics row))) rows.

(** [prepared.path[0]?.id], the missing and the empty ones left out. *)
Definition root_ids (preparedPaths : list PreparedFlowPath) : list jsstring :=
  omap (λ prepared,
    match prepared_path prepared with
    | root :: _ => match path_id root with [] => None | id => Some id end
    | [] => None
    end) preparedPaths.

Definition add_path (metric : FlowMetric) (palette : option (list jsstring)) (colors : list (jsstring * jsstring))
    (state : NodeMap * LinkMap) (prepared : PreparedFlowPath) : NodeMap * LinkMap :=
  match prepared_path prepared with
  | [] => state
  | root :: _ =>
      let path := prepared_path prepared in
      let metrics := prepared_metrics prepared in
      let color := default (colorAt 0 palette) (mget colors (path_id root)) in
      (foldl (λ m node, addNode m node metrics metric color (path_id root)) state.1 path,
       foldl (λ m '(source, target), addLink m source target metrics metric color (path_id root))
         state.2 (steps path))
  end.

Definition set_share (total : num) (l : DashboardFlowLink) : DashboardFlowLink :=
  mkLink (l_source l) (l_target l) (l_value l) (l_requests l) (l_quota l) (l_tokens l)
    (l_sourceLabel l) (l_targetLabel l) (l_color l) (l_linkColor l) (l_linkAlpha l) (l_hoverColor l)
    (l_colorKey l) (if num_ltb zero total then num_div (l_value l) total else zero)
    (l_highlighted l) (l_dimmed l).

Definition byValueThenLabel (a b : DashboardFlowNode) : num :=
  num_or (num_sub (n_value b) (n_value a)) (localeCompare (n_label a) (n_label b)).
Definition by_ends (a b : DashboardFlowLink) : num :=
  num_or (localeCompare (l_source a) (l_source b)) (localeCompare (l_target a) (l_target b)).

(** From the paths on. *)
Definition graph_of_paths (preparedPaths : list PreparedFlowPath) (metric : FlowMetric)
    (palette : option (list jsstring)) (stages : list FlowNodeKind) (options : FlowGraphOptions)
    : DashboardFlowGraph :=
  let colors := stableColorMap (sort_by localeCompare (root_ids preparedPaths)) palette in
  let '(nodes, links) := foldl (add_path metric palette colors) ([], []) preparedPaths in
  let '(nodes, links) := if o_maskSensitive options then maskFlowGraphLabels nodes links else (nodes, links) in
  let '(nodes, links) :=
    applyFlowHighlights nodes links
      (buildFlowHighlightSets preparedPaths (o_activeNode options) (o_activeLink options) stages) in
  let flowLinks := sort_by by_ends links.*2 in
  let firstStepSources := unique (root_ids preparedPaths) in
  let total := num_sum (map l_value (List.filter (λ link, in_list (l_source link) firstStepSources) flowLinks)) in
  mkGraph (sort_by byValueThenLabel nodes.*2) (assignLinkDisplayColors (map (set_share total) flowLinks)).

Definition buildFlowGraph (rows : list FlowQuotaDataItem) (metric : FlowMetric) (role : FlowRole)
    (palette : option (list jsstring)) (visibleStages : option (list FlowNodeKind)) (ctx : FlowPathContext)
    (options : FlowGraphOptions) : DashboardFlowGraph :=
  let stages := resolveVisibleStages role visibleStages in
  let topNodeSets := buildTopNodeSets rows metric stages (normalizeTopNodeLimit (o_topNodeLimit options)) ctx in
  let overflowMode := default DEFAULT_FLOW_OVERFLOW_MODE (o_overflowMode options) in
  graph_of_paths (preparePaths rows stages ctx topNodeSets overflowMode (o_otherNodeLabel options))
    metric palette stages options.
End Host.
