(* ===== verification/FlowData.v ===== *)
(** * features/dashboard/lib/flow.ts: summary, filter options, chart data

    The entry points of the module over the graph of FlowGraph. *)

From S2P Require Import Prelude JsNumber JsText Types Runtime JsMap JsValue FlowPath FlowGraph.

Record FlowSummary := mkSummary { s_quota : num; s_tokens : num; s_requests : num }.

Definition add_summary (summary : FlowSummary) (row : FlowQuotaDataItem) : FlowSummary :=
  let metrics := rowMetrics row in
  mkSummary (num_add (s_quota summary) (m_quota metrics)) (num_add (s_tokens summary) (m_tokens metrics))
    (num_add (s_requests summary) (m_requests metrics)).
Definition buildSummary (rows : list FlowQuotaDataItem) : FlowSummary :=
  foldl add_summary (mkSummary zero zero zero) rows.
Definition summaryValue (summary : FlowSummary) (metric : FlowMetric) : num :=
  match metric with MRequests => s_requests summary | MTokens => s_tokens summary | MQuota => s_quota summary end.

Record FlowUserFilterOption := mkUserOption {
  uo_value : jsstring;
  uo_label : jsstring;
  uo_valueLabel : jsstring;
  uo_valueRaw : num;
  uo_color : jsstring
}.
Record FlowNodeFilterOption := mkNodeOption {
  no_kind : FlowNodeKind;
  no_value : jsstring;
  no_label : jsstring;
  no_valueLabel : jsstring;
  no_valueRaw : num;
  no_color : jsstring
}.

(** The entry of a user while rows are added up. *)
Record UserTotal := mkUserTotal { ut_label : jsstring; ut_value : num; ut_color : jsstring }.

(** [!n], [!text] of an optional field. *)
Definition falsy_number (n : option num) : bool :=
  match n with Some x => num_eqb x zero || is_nan x | None => true end.
Definition falsy_text (s : option jsstring) : bool :=
  match s with Some (_ :: _) => false | _ => true end.

Section Data.
Context `{FlowHost}.

Definition add_user (metric : FlowMetric) (palette : option (list jsstring)) (colors : list (jsstring * jsstring))
    (users : list (jsstring * UserTotal)) (row : FlowQuotaDataItem) : list (jsstring * UserTotal) :=
  let user := userNode row in
  if falsy_number (row_user_id row) && falsy_text (row_username row) then users
  else
    let value := metricValue (rowMetrics row) metric in
    let current := default
      (mkUserTotal (path_label user) zero (default (colorAt 0 palette) (mget colors (path_id user))))
      (mget users (path_id user)) in
    mset users (path_id user) (mkUserTotal (ut_label current) (num_add (ut_value current) value) (ut_color current)).

Definition compare_user_options (a b : FlowUserFilterOption) : num :=
  num_or (num_sub (uo_valueRaw b) (uo_valueRaw a)) (localeCompare (uo_label a) (uo_label b)).

Definition buildUserFilterOptions (rows : list FlowQuotaDataItem) (metric : FlowMetric)
    (palette : option (list jsstring)) : list FlowUserFilterOption :=
  let colors := stableColorMap (sort_by localeCompare (map (λ row, path_id (userNode row)) rows)) palette in
  let users := foldl (add_user metric palette colors) [] rows in
  sort_by compare_user_options
    (map (λ '(value, user), mkUserOption value (ut_label user) (formatNumber (ut_value user)) (ut_value user)
                              (ut_color user)) users).

(** The totals of the nodes of one stage, by their filter key. *)
Definition add_stage_node (metric : FlowMetric) (ctx : FlowPathContext) (stage : FlowNodeKind)
    (totals : list (jsstring * FlowNodeRank)) (row : FlowQuotaDataItem) : list (jsstring * FlowNodeRank) :=
  let value := metricValue (rowMetrics row) metric in
  let node := NODE_BUILDERS stage row ctx in
  let key := nodeFilterKey (mkFilter (path_kind node) (path_id node)) in
  let current := default (mkRank node zero) (mget totals key) in
  mset totals key (mkRank (rank_node current) (num_add (rank_value current) value)).

Definition stage_options (rows : list FlowQuotaDataItem) (metric : FlowMetric) (palette : option (list jsstring))
    (ctx : FlowPathContext) (stages : list FlowNodeKind) (selectedNodes : option (list FlowNodeFilter))
    (colors : list (jsstring * jsstring)) (stage : FlowNodeKind) : list FlowNodeFilterOption :=
  let candidateRows := filterRowsByNodes rows (selectedNodeFiltersExceptKind selectedNodes stage) stages ctx in
  map (λ '(_, rank),
         let node := rank_node rank in
         mkNodeOption (path_kind node) (path_id node) (path_label node) (formatNumber (rank_value rank))
           (rank_value rank) (default (colorAt 0 palette) (mget colors (path_id node))))
    (foldl (add_stage_node metric ctx stage) [] candidateRows).

(** [stageOrder.get(kind) ?? 0]. *)
Definition stage_order (stages : list FlowNodeKind) (kind : FlowNodeKind) : num :=
  num_of_Z (Z.of_nat (default 0 (list_find (eq kind) stages ≫= λ p, Some p.1))).

Definition compare_node_options (stages : list FlowNodeKind) (a b : FlowNodeFilterOption) : num :=
  num_or (num_sub (stage_order stages (no_kind a)) (stage_order stages (no_kind b)))
    (num_or (num_sub (no_valueRaw b) (no_valueRaw a))
       (num_or (localeCompare (no_label a) (no_label b)) (localeCompare (no_value a) (no_value b)))).

Definition buildNodeFilterOptions (rows : list FlowQuotaDataItem) (metric : FlowMetric) (role : FlowRole)
    (visibleStages : option (list FlowNodeKind)) (palette : option (list jsstring)) (ctx : FlowPathContext)
    (selectedNodes : option (list FlowNodeFilter)) : list FlowNodeFilterOption :=
  let stages := resolveVisibleStages role visibleStages in
  let colorIds := unique (flat_map (λ row, map path_id (flowPathForStages row stages ctx)) rows) in
  let colors := stableColorMap (sort_by localeCompare colorIds) palette in
  sort_by (compare_node_options stages)
    (flat_map (stage_options rows metric palette ctx stages selectedNodes colors) stages).

Definition buildFlowFilterOptions (rows : list FlowQuotaDataItem) (metric : FlowMetric)
    (palette : option (list jsstring)) (role : FlowRole) (visibleStages : option (list FlowNodeKind))
    (selectedNodes : option (list FlowNodeFilter)) : list FlowUserFilterOption * list FlowNodeFilterOption :=
  (buildUserFilterOptions rows metric palette,
   buildNodeFilterOptions rows metric role visibleStages palette EMPTY_FLOW_PATH_CONTEXT selectedNodes).

Record FlowBuildOptions := mkBuildOptions {
  b_role : option FlowRole;
  b_selectedUsers : option (list jsstring);
  b_selectedNodes : option (list FlowNodeFilter);
  b_activeNode : option FlowNodeFilter;
  b_activeLink : option FlowLinkSelection;
  b_colorPalette : option (list jsstring);
  b_visibleStages : option (list FlowNodeKind);
  b_topNodeLimit : option num;
  b_overflowMode : option FlowOverflowMode;
  b_maskSensitive : bool;
  b_deletedTokenLabel : option (num → jsstring);
  b_otherNodeLabel : option (FlowNodeKind → jsstring)
}.

Record ProcessedFlowData := mkFlowData {
  summary : FlowSummary;
  flow : DashboardFlowGraph;
  user_options : list FlowUserFilterOption;
  node_options : list FlowNodeFilterOption
}.

Definition graph_options (options : FlowBuildOptions) : FlowGraphOptions :=
  mkGraphOptions (b_topNodeLimit options) (b_overflowMode options) (b_otherNodeLabel options)
    (b_activeNode options) (b_activeLink options) (b_maskSensitive options).

Definition buildDashboardFlowData (rows : list FlowQuotaDataItem) (metric : FlowMetric)
    (options : FlowBuildOptions) : ProcessedFlowData :=
  let role := default DEFAULT_FLOW_ROLE (b_role options) in
  let palette := b_colorPalette options in
  let ctx := mkContext (b_deletedTokenLabel options) in
  let stages := resolveVisibleStages role (b_visibleStages options) in
  let userFilteredRows := filterRows rows (b_selectedUsers options) in
  let filteredRows := filterRowsByNodes userFilteredRows (b_selectedNodes options) stages ctx in
  mkFlowData (buildSummary filteredRows)
    (buildFlowGraph filteredRows metric role palette (b_visibleStages options) ctx (graph_options options))
    (buildUserFilterOptions rows metric palette)
    (buildNodeFilterOptions userFilteredRows metric role (b_visibleStages options) palette ctx
       (b_selectedNodes options)).

(** ** The data of the chart *)

(** [Number(a.dimmed) - Number(b.dimmed)]: [undefined] gives NaN. *)
Definition flag_number (flag : option bool) : num :=
  match flag with Some true => num_of_Z 1 | Some false => zero | None => nan end.

Definition byLinkDrawPriority (a b : DashboardFlowLink) : num :=
  num_or (num_sub (flag_number (l_dimmed a)) (flag_number (l_dimmed b)))
    (num_or (num_sub (flag_number (l_highlighted b)) (flag_number (l_highlighted a)))
       (num_or (num_sub (l_value b) (l_value a)) (localeCompare (linkStableKey a) (linkStableKey b)))).

Definition is_true (flag : option bool) : bool := match flag with Some b => b | None => false end.

Definition z_index (index : nat) (link : DashboardFlowLink) : Z :=
  if is_true (l_highlighted link) then (1000000 + Z.of_nat index)%Z
  else if is_true (l_dimmed link) then Z.of_nat index
  else (100000 + Z.of_nat index)%Z.

(** The links of the chart, with their key and z-index; [data] of
    [buildFlowSankeySpec] adds the fields of the link. *)
Definition sankey_links (flow : DashboardFlowGraph) : list (DashboardFlowLink * jsstring * Z) :=
  let drawn := sort_by byLinkDrawPriority (List.filter (λ link, num_ltb zero (l_value link)) (links flow)) in
  map (λ '(index, link), (link, linkStableKey link, z_index index link)) (zip (seq 0 (length drawn)) drawn).

(** ** What a click on the chart selects *)

Definition recordValue (value : jsval) : option jsval := if is_object value then Some value else None.

(** [datum[key]], the keys here being no property of arrays. *)
Definition datum_prop (datum : jsval) (key : jsstring) : jsval :=
  match datum with VObject entries => default VUndefined (own entries key) | _ => VUndefined end.

(** [nested[depth]] of an array: a natural number of its length or nothing. *)
Definition array_item (items : list jsval) (depth : num) : jsval :=
  if is_integer depth && num_leb zero depth then default VUndefined (items !! Z.to_nat (trunc_Z depth))
  else VUndefined.

Definition sankeyDatumSource (datum : jsval) : jsval :=
  match datum_prop datum (js "datum") with
  | VArray nested =>
      let depth := numberValue (datum_prop datum (js "depth")) in
      match recordValue (array_item nested depth) with
      | Some r => r
      | None => default datum (recordValue (array_item nested zero))
      end
  | nested => default datum (recordValue nested)
  end.

Definition sankeyDatumValue (datum : jsval) (key : jsstring) : jsval :=
  match datum_prop datum key with
  | VUndefined => datum_prop (sankeyDatumSource datum) key
  | v => v
  end.
Definition sankeyDatumFlag (datum : jsval) (key : jsstring) : bool :=
  match sankeyDatumValue datum key with VBoolean true => true | _ => false end.

Definition flowSankeyDatumValue (datum : jsval) (key : jsstring) : jsval :=
  match recordValue datum with Some record => sankeyDatumValue record key | None => VUndefined end.

Definition is_undefined (v : jsval) : bool := match v with VUndefined => true | _ => false end.
Definition isSankeyLinkDatum (datum : jsval) : bool :=
  negb (is_undefined (sankeyDatumValue datum (js "source")))
  && negb (is_undefined (sankeyDatumValue datum (js "target"))).

Definition isFlowNodeKind (value : jsval) : option FlowNodeKind :=
  match value with
  | VString s => List.find (λ k, kind_name k =s s) FLOW_NODE_KINDS
  | _ => None
  end.

Definition flowNodeFilterFromSankeyDatum (datum : jsval) : option FlowNodeFilter :=
  record ← recordValue datum;
  if isSankeyLinkDatum record then None
  else
    let id := flowSankeyDatumValue record (js "key") in
    kind ← isFlowNodeKind (flowSankeyDatumValue record (js "kind"));
    match id with
    | VString _ | VNumber _ => Some (mkFilter kind (string_of id))
    | _ => None
    end.
End Data.
