(* ===== verification/FlowFacts.v ===== *)
(** * Facts about the flow graph

    Adding up contributions in a map, the shape of paths, and what each node
    and link of the graph amounts to. *)

From Stdlib Require Import SpecFloat.
From S2P Require Import Prelude JsNumber JsIntegers JsText Types Runtime JsMap JsValue FlowPath FlowGraph FlowData.

(** ** Sums *)

Lemma trunc_num_of_Z z : (0 <= z < 2 ^ 53)%Z → trunc_Z (num_of_Z z) = z.
Proof.
  intros Hz. destruct z as [|p|p]; [done| |lia].
  destruct (num_of_positive p ltac:(lia)) as (m & Hm & ->). pose proof (log2_small p ltac:(lia)).
  unfold trunc_Z. destruct (0 <=? Z.log2 (Z.pos p) - 52)%Z eqn:E.
  - apply Z.leb_le in E. assert (Z.log2 (Z.pos p) - 52 = 0)%Z as Hz0 by lia.
    rewrite Hm, Hz0. replace (52 - Z.log2 (Z.pos p))%Z with 0%Z by lia. lia.
  - rewrite Hm. replace (52 - Z.log2 (Z.pos p))%Z with (- (Z.log2 (Z.pos p) - 52))%Z by lia.
    apply Z.div_mul. apply Z.pow_nonzero; lia.
Qed.

Lemma zsum_map_add {A} (f g : A → Z) l : zsum (map (λ x, f x + g x)%Z l) = (zsum (map f l) + zsum (map g l))%Z.
Proof. unfold zsum. induction l as [|x l IH]; cbn; lia. Qed.
Lemma zsum_map_ext {A} (f g : A → Z) l : (∀ x, x ∈ l → f x = g x) → zsum (map f l) = zsum (map g l).
Proof.
  intros Hfg. f_equal. apply map_ext_in. intros x Hx. apply Hfg. by apply list_elem_of_In.
Qed.
Lemma zsum_map_zero {A} (l : list A) : zsum (map (λ _ : A, 0%Z) l) = 0%Z.
Proof. unfold zsum. induction l as [|x l IH]; cbn; lia. Qed.
Lemma zsum_swap {A B} (f : A → B → Z) l k :
  zsum (map (λ a, zsum (map (f a) k)) l) = zsum (map (λ b, zsum (map (λ a, f a b) l)) k).
Proof.
  induction l as [|a l IH]; cbn.
  - rewrite zsum_map_zero. done.
  - fold (zsum (map (λ a, zsum (map (f a) k)) l)). rewrite IH, <- zsum_map_add. done.
Qed.

(** A sum with one term that may differ from zero. *)
Lemma zsum_single {A} `{EqDecision A} (l : list A) (x : A) (v : Z) :
  NoDup l → x ∈ l → zsum (map (λ y, if decide (y = x) then v else 0%Z) l) = v.
Proof.
  induction l as [|y l IH]; cbn; [set_solver|]. intros [Hn Hd]%NoDup_cons Hx.
  fold (zsum (map (λ y, if decide (y = x) then v else 0%Z) l)). destruct (decide (y = x)) as [->|Hy].
  - rewrite (zsum_map_ext _ (λ _, 0%Z)); [rewrite zsum_map_zero; lia|].
    intros z Hz. rewrite decide_False; [done|]. intros ->. done.
  - rewrite IH; [lia|done|set_solver].
Qed.

(** The same over the values of a function that takes none of them twice. *)
Lemma zsum_indicator {A K} `{EqDecision K} (f : A → K) (l : list A) (k : K) (v : Z) :
  NoDup (map f l) →
  zsum (map (λ x, if decide (f x = k) then v else 0%Z) l) = if decide (k ∈ map f l) then v else 0%Z.
Proof.
  intros Hd. assert (zsum (map (λ x, if decide (f x = k) then v else 0%Z) l) =
    zsum (map (λ y, if decide (y = k) then v else 0%Z) (map f l))) as -> by (by rewrite map_map).
  case_decide as Hk; [by apply zsum_single|]. etrans; [|apply (zsum_map_zero (map f l))].
  apply zsum_map_ext. intros y Hy. rewrite decide_False; [done|]. by intros ->.
Qed.

Lemma zsum_filter {A} (p : A → bool) (f : A → Z) l :
  zsum (map f (List.filter p l)) = zsum (map (λ x, if p x then f x else 0%Z) l).
Proof. unfold zsum. induction l as [|x l IH]; cbn; [done|]. destruct (p x); cbn; lia. Qed.

Lemma zsum_le {A} (f g : A → Z) l : (∀ x, x ∈ l → (f x <= g x)%Z) → (zsum (map f l) <= zsum (map g l))%Z.
Proof.
  unfold zsum. induction l as [|x l IH]; cbn; [lia|]. intros Hfg.
  pose proof (Hfg x ltac:(set_solver)). pose proof (IH ltac:(set_solver)). lia.
Qed.
Lemma zsum_map_nonneg {A} (f : A → Z) l : (∀ x, x ∈ l → (0 <= f x)%Z) → (0 <= zsum (map f l))%Z.
Proof. intros Hf. pose proof (zsum_le (λ _, 0%Z) f l Hf) as Hle. by rewrite zsum_map_zero in Hle. Qed.

Lemma num_sum_map {A} (f : A → num) (w : A → Z) l :
  (∀ x, x ∈ l → natural (f x) (w x)) → (zsum (map w l) < 2 ^ 53)%Z →
  natural (num_sum (map f l)) (zsum (map w l)).
Proof.
  intros Hf Hb. apply num_sum_natural; [|done].
  clear Hb. induction l as [|x l IH]; cbn; constructor; [apply Hf; set_solver|apply IH; set_solver].
Qed.

(** ** Adding up contributions

    A map is filled by contributions: each finds the entry of its key, or
    makes one worth zero, and grows it by its amount. *)
Section Accumulate.
Context {K V C : Type} `{EqDecision K}.
Context (key : C → K) (make : C → V) (grow : C → V → V) (val : V → num) (amount : C → num).
Context (good : K → V → Prop).
Context (val_make : ∀ c, val (make c) = zero).
Context (val_grow : ∀ c v, val (grow c v) = num_add (val v) (amount c)).
Context (good_grow : ∀ c v, good (key c) v → good (key c) (grow c v)).

Definition accumulate (m : list (K * V)) (c : C) : list (K * V) :=
  mset m (key c) (grow c (default (make c) (mget m (key c)))).

(** The amounts that went to a key. *)
Definition collected (w : C → Z) (k : K) (cs : list C) : Z :=
  zsum (map (λ c, if decide (key c = k) then w c else 0%Z) cs).

Lemma collected_nonneg w k cs : (∀ c, c ∈ cs → (0 <= w c)%Z) → (0 <= collected w k cs)%Z.
Proof. intros Hw. apply zsum_map_nonneg. intros c Hc. pose proof (Hw c Hc). case_decide; lia. Qed.

Lemma collected_snoc w k cs c :
  collected w k (cs ++ [c]) = (collected w k cs + if decide (key c = k) then w c else 0)%Z.
Proof. unfold collected. rewrite map_app, zsum_app. cbn. lia. Qed.

Lemma collected_none w k cs : k ∉ map key cs → collected w k cs = 0%Z.
Proof.
  intros Hk. unfold collected. etrans; [|apply (zsum_map_zero cs)]. apply zsum_map_ext. intros c Hc.
  rewrite decide_False; [done|]. intros Heq. apply Hk. rewrite <- Heq. by apply list_elem_of_fmap_2.
Qed.

#[local] Set Default Proof Using "All".
Lemma accumulate_spec (w : C → Z) cs :
  (∀ c, c ∈ cs → natural (amount c) (w c) ∧ good (key c) (make c)) → (∀ k, collected w k cs < 2 ^ 53)%Z →
  let m := foldl accumulate [] cs in
  NoDup m.*1 ∧ (∀ k, k ∈ m.*1 ↔ k ∈ map key cs) ∧
  ∀ k v, (k, v) ∈ m → natural (val v) (collected w k cs) ∧ good k v.
Proof.
  induction cs as [|c cs IH] using rev_ind; [cbn; intros _ _; split_and!; [constructor|set_solver..]|].
  intros Hw Hb. destruct (Hw c ltac:(set_solver)) as [Hc Hmake]. pose proof (proj2 Hc) as Hc0.
  destruct IH as (Hd & Hk & Hv); [intros c' Hc'; apply Hw; set_solver| |].
  { intros k. specialize (Hb k). rewrite collected_snoc in Hb. case_decide; lia. }
  cbv zeta in *. rewrite foldl_app. cbn [foldl]. set (m := foldl accumulate [] cs) in *. split_and!.
  - by apply mset_NoDup.
  - intros k. unfold accumulate. rewrite mset_keys, map_app, elem_of_app, <- Hk. cbn. case_decide; set_solver.
  - intros k v Hin. unfold accumulate in Hin.
    pose proof (mget_unique _ _ _ (mset_NoDup m (key c) _ Hd) Hin) as Hget. rewrite mget_mset in Hget.
    specialize (Hb k). rewrite collected_snoc in Hb |- *. destruct (decide (key c = k)) as [<-|Hne].
    + injection Hget as <-. rewrite val_grow.
      destruct (mget m (key c)) as [v0|] eqn:Hg; cbn [default from_option id].
      * destruct (Hv _ _ (mget_Some _ _ _ Hg)) as [Hn Hgood]. split; [|by apply good_grow].
        by apply natural_add.
      * split; [|by apply good_grow]. apply mget_None in Hg. rewrite Hk in Hg.
        rewrite collected_none in Hb |- * by done. rewrite val_make. by apply natural_add.
    + rewrite Z.add_0_r. apply Hv. by apply mget_Some.
Qed.

(** The keys, and what every entry satisfies, whatever the amounts. *)
Lemma accumulate_keys cs :
  (∀ c, c ∈ cs → good (key c) (make c)) →
  let m := foldl accumulate [] cs in
  NoDup m.*1 ∧ (∀ k, k ∈ m.*1 ↔ k ∈ map key cs) ∧ ∀ k v, (k, v) ∈ m → good k v.
Proof.
  induction cs as [|c cs IH] using rev_ind; [cbn; intros _; split_and!; [constructor|set_solver..]|].
  intros Hmake. destruct IH as (Hd & Hk & Hv); [intros c' Hc'; apply Hmake; set_solver|].
  cbv zeta in *. rewrite foldl_app. cbn [foldl]. set (m := foldl accumulate [] cs) in *. split_and!.
  - by apply mset_NoDup.
  - intros k. unfold accumulate. rewrite mset_keys, map_app, elem_of_app, <- Hk. cbn. case_decide; set_solver.
  - intros k v Hin. unfold accumulate in Hin.
    pose proof (mget_unique _ _ _ (mset_NoDup m (key c) _ Hd) Hin) as Hget. rewrite mget_mset in Hget.
    destruct (decide (key c = k)) as [<-|]; [|apply Hv; by apply mget_Some]. injection Hget as <-. apply good_grow.
    destruct (mget m (key c)) eqn:Hg; cbn [default from_option id]; [apply Hv; by apply mget_Some|].
    apply Hmake. set_solver.
Qed.

(** The entries that a test selects add up to the contributions it selects. *)
Lemma accumulate_total (w : C → Z) cs (sel : V → bool) (chosen : C → bool) :
  (∀ c, c ∈ cs → natural (amount c) (w c) ∧ good (key c) (make c)) → (∀ k, collected w k cs < 2 ^ 53)%Z →
  (∀ c v, c ∈ cs → good (key c) v → sel v = chosen c) →
  let m := foldl accumulate [] cs in
  zsum (map (λ kv, if sel kv.2 then collected w kv.1 cs else 0%Z) m) =
  zsum (map (λ c, if chosen c then w c else 0%Z) cs).
Proof.
  intros Hw Hb Hsel. destruct (accumulate_spec w cs Hw Hb) as (Hd & Hk & Hv). cbv zeta in *.
  set (m := foldl accumulate [] cs) in *.
  rewrite (zsum_map_ext _ (λ kv, zsum (map (λ c, if sel kv.2 then if decide (key c = kv.1) then w c else 0 else 0)%Z cs))).
  2:{ intros kv _. destruct (sel kv.2); [done|]. by rewrite zsum_map_zero. }
  rewrite zsum_swap. apply zsum_map_ext. intros c Hc.
  assert (key c ∈ m.*1) as ([k v] & Hkey & Hin)%list_elem_of_fmap.
  { apply Hk. by apply list_elem_of_fmap_2. }
  cbn in Hkey. subst k. destruct (Hv _ _ Hin) as [_ Hgood]. pose proof (Hsel c v Hc Hgood) as Hs.
  rewrite (zsum_map_ext _ (λ kv, (λ k, if decide (k = key c) then if chosen c then w c else 0 else 0)%Z kv.1)).
  - etrans; [apply (zsum_indicator fst m); exact Hd|]. rewrite decide_True; [done|].
    apply (list_elem_of_fmap_2 fst _ _ Hin).
  - intros [k v'] Hin'. cbn. destruct (decide (key c = k)) as [<-|Hne].
    + rewrite decide_True by done. assert (v' = v) as ->.
      { pose proof (mget_unique _ _ _ Hd Hin). pose proof (mget_unique _ _ _ Hd Hin'). congruence. }
      by rewrite Hs.
    + rewrite decide_False by congruence. by destruct (sel v').
Qed.
End Accumulate.

(** ** The shape of paths *)

Definition kind_prefix (k : FlowNodeKind) : jsstring := kind_name k ++ js ":".

(** The id of a node starts with its kind. *)
Definition node_ok (node : FlowPathNode) : Prop := ∃ r, path_id node = kind_prefix (path_kind node) ++ r.

Lemma kind_of_id k k' r r' : kind_prefix k ++ r = kind_prefix k' ++ r' → k = k'.
Proof. by destruct k, k'. Qed.

Lemma builder_ok k row ctx : path_kind (NODE_BUILDERS k row ctx) = k ∧ node_ok (NODE_BUILDERS k row ctx).
Proof.
  destruct k; (split; [done|]); unfold node_ok; cbn [NODE_BUILDERS path_kind path_id userNode nodeNameNode
    tokenNode groupNode modelNode channelNode];
    try (destruct (is_positive _)); by eexists.
Qed.
Lemma other_ok k labeler : node_ok (otherFlowNode k labeler).
Proof. exists (js "__other__"). by destruct k. Qed.

Definition path_ok (stages : list FlowNodeKind) (path : list FlowPathNode) : Prop :=
  map path_kind path = stages ∧ Forall node_ok path.

Lemma flow_path_ok row stages ctx : path_ok stages (flowPathForStages row stages ctx).
Proof.
  unfold flowPathForStages. split.
  - rewrite map_map. rewrite <- (map_id stages) at 2. apply map_ext. intros k. apply builder_ok.
  - apply Forall_map. apply Forall_true. intros k. apply builder_ok.
Qed.

Lemma limited_path_ok stages path sets mode labeler path' :
  applyTopNodeLimit path sets mode labeler = Some path' → path_ok stages path → path_ok stages path'.
Proof.
  intros Ha [Hk Hf]. unfold applyTopNodeLimit in Ha. destruct sets as [sets|]; [|by injection Ha as <-].
  destruct (negb _); [by injection Ha as <-|]. destruct mode; [|done]. injection Ha as <-. split.
  - rewrite <- Hk, map_map. apply map_ext. intros node. by destruct (isTopFlowNode node sets).
  - apply Forall_map. eapply Forall_impl; [done|]. intros node Hnode.
    destruct (isTopFlowNode node sets); [done|apply other_ok].
Qed.

Lemma role_stages_NoDup role : NoDup (ROLE_FLOW_STAGES role).
Proof. apply (bool_decide_unpack _). by destruct role. Qed.
Lemma role_stages_long role : 2 ≤ length (ROLE_FLOW_STAGES role).
Proof. destruct role; cbn; lia. Qed.
Lemma filter_NoDup {A} (p : A → bool) l : NoDup l → NoDup (List.filter p l).
Proof. intros H. apply NoDup_ListNoDup. apply List.NoDup_filter. by apply NoDup_ListNoDup. Qed.

Lemma stages_ok role visible :
  NoDup (resolveVisibleStages role visible) ∧ 2 ≤ length (resolveVisibleStages role visible).
Proof.
  unfold resolveVisibleStages, getFlowStages. destruct visible as [visible|].
  - destruct (MIN_FLOW_STAGES <=? _) eqn:E.
    + split; [apply filter_NoDup, role_stages_NoDup|by apply Nat.leb_le].
    + split; [apply role_stages_NoDup|apply role_stages_long].
  - split; [apply role_stages_NoDup|apply role_stages_long].
Qed.

Lemma ids_NoDup stages path : NoDup stages → path_ok stages path → NoDup (map path_id path).
Proof.
  intros Hd [Hk Hf]. subst stages. induction path as [|node path IH]; cbn in *; [constructor|].
  apply NoDup_cons in Hd as [Hn Hd]. apply Forall_cons in Hf as [[r Hr] Hf]. constructor; [|by apply IH].
  intros (node' & Hid & Hin)%list_elem_of_fmap. apply Hn. apply list_elem_of_fmap. exists node'. split; [|done].
  destruct (proj1 (Forall_forall _ _) Hf node' Hin) as [r' Hr']. rewrite Hr, Hr' in Hid.
  by apply kind_of_id in Hid.
Qed.

(** ** Steps *)

Lemma last_default {A} (l : list A) (x d : A) : List.last (x :: l) d = List.last l x.
Proof.
  revert x d. induction l as [|y l IH]; intros x d; [done|].
  change (List.last (x :: y :: l) d) with (List.last (y :: l) d). by rewrite !IH.
Qed.
Lemma last_in {A} (l : list A) (x : A) : List.last l x ∈ x :: l.
Proof. revert x. induction l as [|y l IH]; intros x; [set_solver|]. rewrite last_default. specialize (IH y). set_solver. Qed.
Lemma steps_left {A} (f : A → Z) x l :
  (zsum (map (λ ab, f ab.1) (steps (x :: l))) + f (List.last l x) = zsum (map f (x :: l)))%Z.
Proof.
  revert x. induction l as [|y l IH]; intros x; [cbn; lia|].
  change (steps (x :: y :: l)) with ((x, y) :: steps (y :: l)).
  replace (List.last (y :: l) x) with (List.last l y).
  - specialize (IH y). unfold zsum in *. cbn [map foldr fst] in *. lia.
  - symmetry. apply last_default.
Qed.
Lemma steps_right {A} (f : A → Z) x l :
  (zsum (map (λ ab, f ab.2) (steps (x :: l))) + f x = zsum (map f (x :: l)))%Z.
Proof.
  revert x. induction l as [|y l IH]; intros x; [cbn; lia|].
  change (steps (x :: y :: l)) with ((x, y) :: steps (y :: l)).
  specialize (IH y). unfold zsum in *. cbn [map foldr snd] in *. lia.
Qed.
Lemma steps_elem {A} (l : list A) a b : (a, b) ∈ steps l → a ∈ l ∧ b ∈ l.
Proof.
  induction l as [|x [|y l] IH]; [set_solver..|].
  change (steps (x :: y :: l)) with ((x, y) :: steps (y :: l)).
  intros [[= -> ->]|Hin]%elem_of_cons; [set_solver|]. apply IH in Hin. set_solver.
Qed.

(** ** What the nodes and the links of a graph amount to *)

Lemma foldl_flat_map {A B S} (f : S → B → S) (g : A → list B) l : ∀ s,
  foldl f s (flat_map g l) = foldl (λ s a, foldl f s (g a)) s l.
Proof. induction l as [|a l IH]; intros s; cbn; [done|]. by rewrite foldl_app, IH. Qed.
Lemma foldl_map {A B S} (f : S → B → S) (g : A → B) l : ∀ s,
  foldl f s (map g l) = foldl (λ s a, f s (g a)) s l.
Proof. induction l as [|a l IH]; intros s; cbn; [done|]. by rewrite IH. Qed.
Lemma zsum_flat_map {A B} (f : B → Z) (g : A → list B) l :
  zsum (map f (flat_map g l)) = zsum (map (λ a, zsum (map f (g a))) l).
Proof. induction l as [|a l IH]; cbn; [done|]. by rewrite map_app, zsum_app, IH. Qed.

Lemma link_key_inj s t s' t' : 0%N ∉ s → 0%N ∉ s' → link_key s t = link_key s' t' → s = s' ∧ t = t'.
Proof.
  unfold link_key. revert s'. induction s as [|c s IH]; intros [|c' s'] Hs Hs' Heq; cbn in Heq.
  - by injection Heq as ->.
  - injection Heq as <- _. set_solver.
  - injection Heq as -> _. set_solver.
  - injection Heq as -> Heq. apply IH in Heq as [-> ->]; [done|set_solver..].
Qed.

Section Graph.
Context `{FlowHost} (metric : FlowMetric) (palette : option (list jsstring)) (colors : list (jsstring * jsstring)).

(** A path's contributions: a node or a step, the metrics, colour and root. *)
Definition path_color (p : PreparedFlowPath) : jsstring :=
  match prepared_path p with root :: _ => default (colorAt 0 palette) (mget colors (path_id root)) | [] => [] end.
Definition path_root (p : PreparedFlowPath) : jsstring :=
  match prepared_path p with root :: _ => path_id root | [] => [] end.
Definition node_part : Type := FlowPathNode * PreparedFlowPath.
Definition link_part : Type := (FlowPathNode * FlowPathNode) * PreparedFlowPath.
Definition node_parts (ps : list PreparedFlowPath) : list node_part :=
  flat_map (λ p, map (λ node, (node, p)) (prepared_path p)) ps.
Definition link_parts (ps : list PreparedFlowPath) : list link_part :=
  flat_map (λ p, map (λ ab, (ab, p)) (steps (prepared_path p))) ps.

Definition node_key (c : node_part) : jsstring := path_id c.1.
Definition node_make (c : node_part) : DashboardFlowNode := new_node c.1 (path_color c.2) (path_root c.2).
Definition node_grow (c : node_part) : DashboardFlowNode → DashboardFlowNode :=
  grow_node (prepared_metrics c.2) metric.
Definition link_part_key (c : link_part) : jsstring := pathLinkKey c.1.1 c.1.2.
Definition link_make (c : link_part) : DashboardFlowLink := new_link c.1.1 c.1.2 (path_color c.2) (path_root c.2).
Definition link_grow (c : link_part) : DashboardFlowLink → DashboardFlowLink :=
  grow_link (prepared_metrics c.2) metric.

Definition node_map (ps : list PreparedFlowPath) : list (jsstring * DashboardFlowNode) :=
  foldl (accumulate node_key node_make node_grow) [] (node_parts ps).
Definition link_map (ps : list PreparedFlowPath) : list (jsstring * DashboardFlowLink) :=
  foldl (accumulate link_part_key link_make link_grow) [] (link_parts ps).

Lemma add_paths ps : foldl (add_path metric palette colors) ([], []) ps = (node_map ps, link_map ps).
Proof.
  unfold node_map, link_map, node_parts, link_parts. rewrite !foldl_flat_map.
  generalize (@nil (jsstring * DashboardFlowNode)), (@nil (jsstring * DashboardFlowLink)).
  induction ps as [|p ps IH]; intros nodes links; [done|]. cbn [foldl].
  rewrite <- IH. f_equal. unfold add_path. destruct p as [[|root path] metrics]; [done|].
  cbn [prepared_path prepared_metrics fst snd]. rewrite !foldl_map.
  f_equal. generalize (steps (root :: path)). intros l. revert links. clear.
  induction l as [|[a b] l IH]; intros links; [done|]. cbn [foldl]. by rewrite IH.
Qed.

Context (stages : list FlowNodeKind) (ps : list PreparedFlowPath) (w : PreparedFlowPath → Z).
Context (Hstages : NoDup stages).
Context (Hpaths : ∀ p, p ∈ ps → path_ok stages (prepared_path p)).
Context (Hw : ∀ p, p ∈ ps → natural (metricValue (prepared_metrics p) metric) (w p)).
Context (Hb : (zsum (map w ps) < 2 ^ 53)%Z).
#[local] Set Default Proof Using "All".

Lemma node_part_in c : c ∈ node_parts ps → c.2 ∈ ps ∧ c.1 ∈ prepared_path c.2.
Proof using Type.
  unfold node_parts. intros (p & Hp & Hin)%list_elem_of_In%in_flat_map.
  apply in_map_iff in Hin as (node & <- & Hin). by split; apply list_elem_of_In.
Qed.
Lemma link_part_in c : c ∈ link_parts ps → c.2 ∈ ps ∧ c.1 ∈ steps (prepared_path c.2).
Proof using Type.
  unfold link_parts. intros (p & Hp & Hin)%list_elem_of_In%in_flat_map.
  apply in_map_iff in Hin as (node & <- & Hin). by split; apply list_elem_of_In.
Qed.

Lemma weight_nonneg p : p ∈ ps → (0 <= w p)%Z.
Proof. intros Hp. by apply Hw. Qed.

Lemma path_node_ok p node : p ∈ ps → node ∈ prepared_path p → node_ok node.
Proof. intros Hp Hin. destruct (Hpaths p Hp) as [_ Hf]. by apply (proj1 (Forall_forall _ _) Hf). Qed.

(** A path goes through an id once at most. *)
Lemma path_share p i : p ∈ ps →
  (0 <= zsum (map (λ node, if decide (path_id node = i) then w p else 0%Z) (prepared_path p)) <= w p)%Z.
Proof.
  intros Hp. pose proof (weight_nonneg p Hp). pose proof (ids_NoDup _ _ Hstages (Hpaths p Hp)) as Hd.
  rewrite (zsum_indicator path_id _ i _ Hd). case_decide; lia.
Qed.

(** The weight of the paths through an id. *)
Definition through (i : jsstring) : Z :=
  zsum (map (λ p, zsum (map (λ node, if decide (path_id node = i) then w p else 0%Z) (prepared_path p))) ps).

Lemma through_bound i : (0 <= through i < 2 ^ 53)%Z.
Proof.
  unfold through. split.
  - apply zsum_map_nonneg. intros p Hp. apply path_share, Hp.
  - eapply Z.le_lt_trans; [|exact Hb]. apply zsum_le. intros p Hp. apply path_share, Hp.
Qed.

Lemma collected_nodes i : collected node_key (λ c, w c.2) i (node_parts ps) = through i.
Proof.
  unfold collected, node_parts, through. rewrite zsum_flat_map. apply zsum_map_ext. intros p _.
  by rewrite map_map.
Qed.

(** The entry of an id keeps it, with the kind its prefix tells. *)
Definition node_good (i : jsstring) (n : DashboardFlowNode) : Prop :=
  n_id n = i ∧ ∃ r, i = kind_prefix (n_kind n) ++ r.

Lemma nodes_spec :
  NoDup (node_map ps).*1 ∧
  (∀ i, i ∈ (node_map ps).*1 ↔ i ∈ map node_key (node_parts ps)) ∧
  ∀ i n, (i, n) ∈ node_map ps → natural (n_value n) (through i) ∧ node_good i n.
Proof.
  destruct (accumulate_spec node_key node_make node_grow n_value
    (λ c, metricValue (prepared_metrics c.2) metric) node_good) with (w := λ c : node_part, w c.2)
    (cs := node_parts ps) as (Hd & Hk & Hv); try done.
  - intros c Hc. apply node_part_in in Hc as [Hp Hin]. split; [by apply Hw|]. split; [done|].
    by eapply path_node_ok.
  - intros i. rewrite collected_nodes. apply through_bound.
  - split_and!; [done|done|]. intros i n Hin. rewrite <- collected_nodes. by apply Hv.
Qed.

(** The nodes of a visible stage add up to all the paths. *)
Lemma stage_total k : k ∈ stages →
  zsum (map (λ kv, if decide (n_kind kv.2 = k) then through kv.1 else 0%Z) (node_map ps)) = zsum (map w ps).
Proof.
  intros Hk. pose proof (accumulate_total node_key node_make node_grow n_value
    (λ c, metricValue (prepared_metrics c.2) metric) node_good) as Htotal.
  specialize (Htotal ltac:(done) ltac:(done) ltac:(done) (λ c : node_part, w c.2) (node_parts ps)
    (λ n, bool_decide (n_kind n = k)) (λ c, bool_decide (path_kind c.1 = k))).
  cbv zeta in Htotal. rewrite (zsum_map_ext _ (λ kv, if bool_decide (n_kind kv.2 = k)
    then collected node_key (λ c, w c.2) kv.1 (node_parts ps) else 0%Z)).
  2:{ intros kv _. rewrite collected_nodes. by repeat case_decide; case_bool_decide. }
  unfold node_map. rewrite Htotal.
  - unfold node_parts. rewrite zsum_flat_map. apply zsum_map_ext. intros p Hp. rewrite map_map. cbn [fst snd].
    destruct (Hpaths p Hp) as [Hkinds _].
    rewrite (zsum_map_ext _ (λ node, if decide (path_kind node = k) then w p else 0%Z)).
    2:{ intros node _. by case_bool_decide; case_decide. }
    rewrite (zsum_indicator path_kind) by (by rewrite Hkinds). by rewrite decide_True by (by rewrite Hkinds).
  - intros c Hc. apply node_part_in in Hc as [Hp Hin]. split; [by apply Hw|]. split; [done|].
    by eapply path_node_ok.
  - intros i. rewrite collected_nodes. apply through_bound.
  - intros c n Hc [_ [r Hr]]. apply node_part_in in Hc as [Hp Hin].
    destruct (path_node_ok _ _ Hp Hin) as [r' Hr']. unfold node_key in Hr. rewrite Hr' in Hr.
    apply kind_of_id in Hr. by rewrite Hr.
Qed.

(** ** Links *)

Context (Hclean : ∀ p node, p ∈ ps → node ∈ prepared_path p → 0%N ∉ path_id node).
Context (Hlong : stages ≠ []).

Definition link_good (key : jsstring) (l : DashboardFlowLink) : Prop :=
  key = link_key (l_source l) (l_target l) ∧ 0%N ∉ l_source l.

Lemma link_part_ends c : c ∈ link_parts ps →
  c.2 ∈ ps ∧ c.1.1 ∈ prepared_path c.2 ∧ c.1.2 ∈ prepared_path c.2 ∧ 0%N ∉ path_id c.1.1.
Proof.
  intros Hc. apply link_part_in in Hc as [Hp Hin]. destruct c as [[a b] p]. cbn in *.
  apply steps_elem in Hin as [Ha Hb']. split_and!; [done..|]. by eapply Hclean.
Qed.

(** The weight of the steps out of an id, or into it. *)
Definition leaving (i : jsstring) : Z :=
  zsum (map (λ p, zsum (map (λ ab, if decide (path_id ab.1 = i) then w p else 0%Z) (steps (prepared_path p)))) ps).
Definition entering (i : jsstring) : Z :=
  zsum (map (λ p, zsum (map (λ ab, if decide (path_id ab.2 = i) then w p else 0%Z) (steps (prepared_path p)))) ps).

Lemma path_nonempty p : p ∈ ps → ∃ x l, prepared_path p = x :: l ∧ map path_kind (x :: l) = stages.
Proof.
  intros Hp. destruct (Hpaths p Hp) as [Hk _]. destruct (prepared_path p) as [|x l]; [|by exists x, l].
  cbn in Hk. by subst stages.
Qed.

Lemma last_map {A B} (f : A → B) x l : f (List.last l x) = List.last (map f l) (f x).
Proof. revert x. induction l as [|y [|z l] IH]; intros x; [done..|]. apply (IH x). Qed.

(** The first and last stages, for the statements below. *)
Definition first_stage : FlowNodeKind := hd KUser stages.
Definition last_stage : FlowNodeKind := List.last stages KUser.

Lemma leaving_through i k r : i = kind_prefix k ++ r → k ≠ last_stage → leaving i = through i.
Proof.
  intros Hi Hk. apply zsum_map_ext. intros p Hp. destruct (path_nonempty p Hp) as (x & l & Hpath & Hkinds).
  rewrite Hpath. rewrite <- (steps_left (λ node, if decide (path_id node = i) then w p else 0%Z) x l).
  rewrite decide_False; [lia|]. intros Hlast. apply Hk.
  assert (List.last l x ∈ prepared_path p) as Hin by (rewrite Hpath; apply last_in).
  destruct (path_node_ok p _ Hp Hin) as [r' Hr']. rewrite Hlast, Hi in Hr'. apply kind_of_id in Hr'.
  rewrite Hr', last_map. unfold last_stage. rewrite <- Hkinds. cbn [map]. symmetry. apply last_default.
Qed.

Lemma entering_through i k r : i = kind_prefix k ++ r → k ≠ first_stage → entering i = through i.
Proof.
  intros Hi Hk. apply zsum_map_ext. intros p Hp. destruct (path_nonempty p Hp) as (x & l & Hpath & Hkinds).
  rewrite Hpath. rewrite <- (steps_right (λ node, if decide (path_id node = i) then w p else 0%Z) x l).
  rewrite decide_False; [lia|]. intros Hfirst. apply Hk.
  assert (x ∈ prepared_path p) as Hin by (rewrite Hpath; set_solver).
  destruct (path_node_ok p _ Hp Hin) as [r' Hr']. rewrite Hfirst, Hi in Hr'. apply kind_of_id in Hr'.
  rewrite Hr'. unfold first_stage. by rewrite <- Hkinds.
Qed.

Lemma collected_links_bound key : (collected link_part_key (λ c, w c.2) key (link_parts ps) < 2 ^ 53)%Z.
Proof.
  destruct (decide (key ∈ map link_part_key (link_parts ps))) as [Hin|Hn].
  2:{ rewrite collected_none by done. lia. }
  apply list_elem_of_fmap in Hin as (c0 & -> & Hc0). destruct (link_part_ends c0 Hc0) as (_ & _ & _ & Hz0).
  eapply Z.le_lt_trans; [|apply (through_bound (path_id c0.1.1))]. unfold collected, through, link_parts.
  etrans; [apply (zsum_le _ (λ c : link_part, if decide (path_id c.1.1 = path_id c0.1.1) then w c.2 else 0%Z))|].
  - intros c Hc. destruct (link_part_ends c Hc) as (Hp & _ & _ & Hz). pose proof (weight_nonneg _ Hp).
    case_decide as Heq; [|case_decide; lia]. apply link_key_inj in Heq as [-> _]; [|done..].
    rewrite decide_True by done. lia.
  - rewrite zsum_flat_map. apply zsum_le. intros p Hp. rewrite map_map. cbn [fst snd].
    destruct (path_nonempty p Hp) as (x & l & -> & _).
    rewrite <- (steps_left (λ node, if decide (path_id node = path_id c0.1.1) then w p else 0%Z) x l).
    pose proof (weight_nonneg p Hp). case_decide; lia.
Qed.

Lemma link_make_good c : c ∈ link_parts ps →
  natural (metricValue (prepared_metrics c.2) metric) (w c.2) ∧ link_good (link_part_key c) (link_make c).
Proof. intros Hc. destruct (link_part_ends c Hc) as (Hp & _ & _ & Hz). split; [by apply Hw|]. by split. Qed.

Lemma links_spec :
  NoDup (link_map ps).*1 ∧
  (∀ key, key ∈ (link_map ps).*1 ↔ key ∈ map link_part_key (link_parts ps)) ∧
  ∀ key l, (key, l) ∈ link_map ps →
    natural (l_value l) (collected link_part_key (λ c, w c.2) key (link_parts ps)) ∧ link_good key l.
Proof.
  apply (accumulate_spec link_part_key link_make link_grow l_value
    (λ c, metricValue (prepared_metrics c.2) metric) link_good); try done.
  - apply link_make_good.
  - apply collected_links_bound.
Qed.

(** The links that a test on their ends selects. *)
Lemma links_total (sel : DashboardFlowLink → bool) (chosen : (FlowPathNode * FlowPathNode) → bool) :
  (∀ c l, c ∈ link_parts ps → link_good (link_part_key c) l → sel l = chosen c.1) →
  zsum (map (λ kv, if sel kv.2 then collected link_part_key (λ c, w c.2) kv.1 (link_parts ps) else 0%Z) (link_map ps)) =
  zsum (map (λ p, zsum (map (λ ab, if chosen ab then w p else 0%Z) (steps (prepared_path p)))) ps).
Proof.
  intros Hsel. unfold link_map. rewrite (accumulate_total link_part_key link_make link_grow l_value
    (λ c, metricValue (prepared_metrics c.2) metric) link_good) with (chosen := λ c, chosen c.1); try done.
  - unfold link_parts. rewrite zsum_flat_map. apply zsum_map_ext. intros p _. by rewrite map_map.
  - apply link_make_good.
  - apply collected_links_bound.
Qed.

Lemma good_link_ends c l : c ∈ link_parts ps → link_good (link_part_key c) l →
  l_source l = path_id c.1.1 ∧ l_target l = path_id c.1.2.
Proof.
  intros Hc [Hkey Hz]. destruct (link_part_ends c Hc) as (_ & _ & _ & Hz').
  by apply link_key_inj in Hkey as [-> ->].
Qed.

Lemma outflow i :
  zsum (map (λ kv, if bool_decide (l_source kv.2 = i)
    then collected link_part_key (λ c, w c.2) kv.1 (link_parts ps) else 0%Z) (link_map ps)) = leaving i.
Proof.
  pose proof (links_total (λ l, bool_decide (l_source l = i)) (λ ab, bool_decide (path_id ab.1 = i))) as Htotal.
  etrans; [apply Htotal|].
  2:{ apply zsum_map_ext. intros p _. apply zsum_map_ext. intros ab _. by case_bool_decide; case_decide. }
  - intros c l Hc Hl. by destruct (good_link_ends c l Hc Hl) as [-> _].
Qed.
Lemma inflow i :
  zsum (map (λ kv, if bool_decide (l_target kv.2 = i)
    then collected link_part_key (λ c, w c.2) kv.1 (link_parts ps) else 0%Z) (link_map ps)) = entering i.
Proof.
  pose proof (links_total (λ l, bool_decide (l_target l = i)) (λ ab, bool_decide (path_id ab.2 = i))) as Htotal.
  etrans; [apply Htotal|].
  2:{ apply zsum_map_ext. intros p _. apply zsum_map_ext. intros ab _. by case_bool_decide; case_decide. }
  - intros c l Hc Hl. by destruct (good_link_ends c l Hc Hl) as [_ ->].
Qed.
End Graph.
