(* ===== verification/FlowTheorems.v ===== *)
(** * The flow graph: its properties *)

From Stdlib Require Import SpecFloat.
From S2P Require Import Prelude JsNumber JsIntegers JsText Types Runtime JsMap JsValue FlowPath FlowGraph FlowData.
From S2P Require Import FlowFacts.

(** ** From the maps to the graph *)

Definition node_view (n : DashboardFlowNode) : jsstring * FlowNodeKind * num := (n_id n, n_kind n, n_value n).
Definition link_view (l : DashboardFlowLink) : jsstring * jsstring * num := (l_source l, l_target l, l_value l).

(** A link with a given view. *)
Definition plain_link (v : jsstring * jsstring * num) : DashboardFlowLink :=
  mkLink v.1.1 v.1.2 v.2 zero zero zero [] [] [] [] zero [] [] zero None None.

Section Graph.
Context `{FlowHost} (metric : FlowMetric) (palette : option (list jsstring)).

Definition path_colors (ps : list PreparedFlowPath) : list (jsstring * jsstring) :=
  stableColorMap (sort_by localeCompare (root_ids ps)) palette.

Lemma snd_map {K V} (f : V → V) (m : list (K * V)) : (map (λ '(k, v), (k, f v)) m).*2 = map f m.*2.
Proof. induction m as [|[k v] m IH]; cbn; [done|]. by rewrite <- IH. Qed.

Lemma masked_views ns ls :
  map node_view (maskFlowGraphLabels ns ls).1.*2 = map node_view ns.*2 ∧
  map link_view (maskFlowGraphLabels ns ls).2.*2 = map link_view ls.*2.
Proof.
  unfold maskFlowGraphLabels. cbn [fst snd]. split.
  - rewrite (snd_map (λ n, if is_masked n then relabel_node (maskFlowLabel (n_label n)) n else n)), map_map.
    apply map_ext. intros n. by destruct (is_masked n).
  - set (m := foldl _ _ _). rewrite (snd_map (λ l, relabel_link (default (l_sourceLabel l) (mget m (l_source l)))
      (default (l_targetLabel l) (mget m (l_target l))) l)), map_map. by apply map_ext.
Qed.
Lemma highlighted_views ns ls sets :
  map node_view (applyFlowHighlights ns ls sets).1.*2 = map node_view ns.*2 ∧
  map link_view (applyFlowHighlights ns ls sets).2.*2 = map link_view ls.*2.
Proof.
  destruct sets as [sets|]; [|done]. cbn [applyFlowHighlights fst snd].
  rewrite (snd_map (highlight_node sets)), (snd_map (highlight_link sets)), !map_map. by split; apply map_ext.
Qed.

Lemma graph_views ps stages options :
  let g := graph_of_paths ps metric palette stages options in
  map node_view (nodes g) ≡ₚ map node_view (node_map metric palette (path_colors ps) ps).*2 ∧
  map link_view (links g) ≡ₚ map link_view (link_map metric palette (path_colors ps) ps).*2.
Proof.
  unfold graph_of_paths. fold (path_colors ps). rewrite add_paths.
  set (ns := node_map _ _ _ _). set (ls := link_map _ _ _ _). set (sets := buildFlowHighlightSets _ _ _ _).
  destruct (if o_maskSensitive options then _ else _) as [ns1 ls1] eqn:Hmask.
  assert (map node_view ns1.*2 = map node_view ns.*2 ∧ map link_view ls1.*2 = map link_view ls.*2) as [Hn1 Hl1].
  { destruct (o_maskSensitive options); [|by injection Hmask as <- <-].
    pose proof (masked_views ns ls) as Hv. by rewrite Hmask in Hv. }
  pose proof (highlighted_views ns1 ls1 sets) as [Hn2 Hl2].
  destruct (applyFlowHighlights ns1 ls1 sets) as [ns2 ls2]. cbn [fst snd nodes links] in *.
  split.
  - by rewrite (sort_by_Permutation byValueThenLabel ns2.*2), Hn2, Hn1.
  - unfold assignLinkDisplayColors. rewrite !map_map.
    change (map _ (sort_by by_ends ls2.*2)) with (map link_view (sort_by by_ends ls2.*2)).
    rewrite (sort_by_Permutation by_ends ls2.*2), Hl2, Hl1. by rewrite (map_map snd link_view).
Qed.
End Graph.

(** ** Sums over a graph *)

Section Sums.
Context `{FlowHost} (metric : FlowMetric) (palette : option (list jsstring)) (stages : list FlowNodeKind).
Context (options : FlowGraphOptions) (ps : list PreparedFlowPath) (w : PreparedFlowPath → Z).
Context (Hstages : NoDup stages).
Context (Hpaths : ∀ p, p ∈ ps → path_ok stages (prepared_path p)).
Context (Hw : ∀ p, p ∈ ps → natural (metricValue (prepared_metrics p) metric) (w p)).
Context (Hb : (zsum (map w ps) < 2 ^ 53)%Z).
#[local] Set Default Proof Using "All".

Let g := graph_of_paths ps metric palette stages options.
Let nmap := node_map metric palette (path_colors palette ps) ps.
Let lmap := link_map metric palette (path_colors palette ps) ps.

(** A node or link of the graph is an entry of its map, but for what the views
    leave out. *)
Lemma graph_node n : n ∈ nodes g → ∃ i n', (i, n') ∈ nmap ∧ node_view n = node_view n'.
Proof.
  intros Hin. destruct (graph_views metric palette ps stages options) as [Hv _].
  assert (node_view n ∈ map node_view nmap.*2) as Hin'.
  { unfold nmap. rewrite <- Hv. by apply list_elem_of_fmap_2. }
  apply list_elem_of_fmap in Hin' as (n' & Hview & ([i n''] & -> & Hin')%list_elem_of_fmap). by exists i, n''.
Qed.
Lemma graph_link l : l ∈ links g → ∃ key l', (key, l') ∈ lmap ∧ link_view l = link_view l'.
Proof.
  intros Hin. destruct (graph_views metric palette ps stages options) as [_ Hv].
  assert (link_view l ∈ map link_view lmap.*2) as Hin'.
  { unfold lmap. rewrite <- Hv. by apply list_elem_of_fmap_2. }
  apply list_elem_of_fmap in Hin' as (l' & Hview & ([key l''] & -> & Hin')%list_elem_of_fmap). by exists key, l''.
Qed.

Lemma graph_node_spec n : n ∈ nodes g →
  natural (n_value n) (through ps w (n_id n)) ∧ ∃ r, n_id n = kind_prefix (n_kind n) ++ r.
Proof.
  intros (i & n' & Hin & Hview)%graph_node. injection Hview as -> -> ->.
  by apply (nodes_spec metric palette (path_colors palette ps) stages ps w) in Hin as [Hn [<- Hr]].
Qed.

(** Sums over the graph's nodes are sums over the map. *)
Lemma nodes_zsum (f : jsstring * FlowNodeKind * num → Z) :
  zsum (map (λ n, f (node_view n)) (nodes g)) = zsum (map (λ kv, f (node_view kv.2)) nmap).
Proof.
  destruct (graph_views metric palette ps stages options) as [Hv _].
  pose proof (zsum_Permutation _ _ (Permutation_map f Hv)) as Hsum. rewrite !map_map in Hsum. exact Hsum.
Qed.
Lemma links_zsum (f : jsstring * jsstring * num → Z) :
  zsum (map (λ l, f (link_view l)) (links g)) = zsum (map (λ kv, f (link_view kv.2)) lmap).
Proof.
  destruct (graph_views metric palette ps stages options) as [_ Hv].
  pose proof (zsum_Permutation _ _ (Permutation_map f Hv)) as Hsum. rewrite !map_map in Hsum. exact Hsum.
Qed.

Lemma column_total k : k ∈ stages →
  natural (num_sum (map n_value (List.filter (λ n, bool_decide (n_kind n = k)) (nodes g)))) (zsum (map w ps)).
Proof.
  intros Hk. set (f := λ v : jsstring * FlowNodeKind * num,
    if decide (v.1.2 = k) then through ps w v.1.1 else 0%Z).
  assert (zsum (map (λ n, through ps w (n_id n)) (List.filter (λ n, bool_decide (n_kind n = k)) (nodes g))) =
          zsum (map w ps)) as Htotal.
  { rewrite zsum_filter, <- (stage_total metric palette (path_colors palette ps) stages ps w Hstages Hpaths Hw Hb k Hk).
    transitivity (zsum (map (λ n, f (node_view n)) (nodes g))).
    - apply zsum_map_ext. intros n _. unfold f. cbn. by case_bool_decide; case_decide.
    - rewrite nodes_zsum. apply zsum_map_ext. intros [i n] Hin.
      apply (nodes_spec metric palette (path_colors palette ps) stages ps w) in Hin as [_ [Hi _]]; [|done..].
      unfold f. cbn. by rewrite Hi. }
  rewrite <- Htotal. apply num_sum_map; [|lia].
  intros n Hin. apply graph_node_spec. apply list_elem_of_In, filter_In in Hin as [Hin _]. by apply list_elem_of_In.
Qed.

Context (Hclean : ∀ p node, p ∈ ps → node ∈ prepared_path p → 0%N ∉ path_id node).
Context (Hlong : stages ≠ []).

Let weight (l : DashboardFlowLink) : Z :=
  collected link_part_key (λ c, w c.2) (link_key (l_source l) (l_target l)) (link_parts ps).

Lemma graph_link_spec l : l ∈ links g → natural (l_value l) (weight l).
Proof.
  intros (key & l' & Hin & Hview)%graph_link. unfold weight. injection Hview as -> -> ->.
  apply (links_spec metric palette (path_colors palette ps) stages ps w) in Hin as [Hn [<- _]]; done.
Qed.

Lemma links_sum (sel : DashboardFlowLink → bool) (total : Z) :
  (∀ l l', link_view l = link_view l' → sel l = sel l') → (total < 2 ^ 53)%Z →
  zsum (map (λ kv, if sel kv.2 then collected link_part_key (λ c, w c.2) kv.1 (link_parts ps) else 0%Z) lmap) = total →
  natural (num_sum (map l_value (List.filter sel (links g)))) total.
Proof.
  intros Hsel Ht Hsum.
  assert (zsum (map weight (List.filter sel (links g))) = total) as Htotal.
  { rewrite zsum_filter, <- Hsum.
    set (f := λ v : jsstring * jsstring * num,
      if sel (plain_link v)
      then collected link_part_key (λ c, w c.2) (link_key v.1.1 v.1.2) (link_parts ps) else 0%Z).
    transitivity (zsum (map (λ l, f (link_view l)) (links g))).
    - apply zsum_map_ext. intros l _. unfold f, weight. by rewrite (Hsel l (plain_link (link_view l)) eq_refl).
    - rewrite links_zsum. apply zsum_map_ext. intros [key l] Hin.
      apply (links_spec metric palette (path_colors palette ps) stages ps w) in Hin as [_ [Hkey _]]; [|done..].
      unfold f. cbn [link_view fst snd]. rewrite Hkey.
      by rewrite (Hsel l (plain_link (link_view l)) eq_refl). }
  rewrite <- Htotal. apply num_sum_map; [|lia].
  intros l Hin. apply graph_link_spec. apply list_elem_of_In, filter_In in Hin as [Hin _]. by apply list_elem_of_In.
Qed.

Lemma node_balance n : n ∈ nodes g →
  (n_kind n ≠ last_stage stages →
     num_sum (map l_value (List.filter (λ l, bool_decide (l_source l = n_id n)) (links g))) = n_value n) ∧
  (n_kind n ≠ first_stage stages →
     num_sum (map l_value (List.filter (λ l, bool_decide (l_target l = n_id n)) (links g))) = n_value n).
Proof.
  intros Hin. destruct (graph_node_spec n Hin) as [[Hn _] [r Hr]].
  pose proof (through_bound metric palette (path_colors palette ps) stages ps w Hstages Hpaths Hw Hb (n_id n)) as [_ Hbound].
  split; intros Hk.
  - destruct (links_sum (λ l, bool_decide (l_source l = n_id n)) (through ps w (n_id n))) as [-> _]; [| | |done].
    + intros l l' Hv. by injection Hv as -> _ _.
    + done.
    + etrans; [exact (outflow metric palette (path_colors palette ps) stages ps w Hstages Hpaths Hw Hb Hclean Hlong (n_id n))|].
      exact (leaving_through metric palette [] stages ps w Hstages Hpaths Hw Hb Hclean Hlong _ _ _ Hr Hk).
  - destruct (links_sum (λ l, bool_decide (l_target l = n_id n)) (through ps w (n_id n))) as [-> _]; [| | |done].
    + intros l l' Hv. by injection Hv as _ -> _.
    + done.
    + etrans; [exact (inflow metric palette (path_colors palette ps) stages ps w Hstages Hpaths Hw Hb Hclean Hlong (n_id n))|].
      exact (entering_through metric palette [] stages ps w Hstages Hpaths Hw Hb Hclean Hlong _ _ _ Hr Hk).
Qed.
End Sums.

(** ** From rows to paths *)

(** The counts of the rows are natural numbers whose sum is exact. *)
Definition counts (rows : list FlowQuotaDataItem) (metric : FlowMetric) : list num :=
  map (λ row, metricValue (rowMetrics row) metric) rows.
Definition exact_counts (rows : list FlowQuotaDataItem) (metric : FlowMetric) : Prop :=
  Forall (λ x, natural x (trunc_Z x)) (counts rows metric) ∧
  (zsum (map trunc_Z (counts rows metric)) < 2 ^ 53)%Z.

Definition row_weight (metric : FlowMetric) (row : FlowQuotaDataItem) : Z :=
  trunc_Z (metricValue (rowMetrics row) metric).
Definition path_weight (metric : FlowMetric) (p : PreparedFlowPath) : Z :=
  trunc_Z (metricValue (prepared_metrics p) metric).

Lemma exact_row rows metric row :
  exact_counts rows metric → row ∈ rows → natural (metricValue (rowMetrics row) metric) (row_weight metric row).
Proof. intros [Hf _] Hin. apply (proj1 (Forall_forall _ _) Hf). by apply (list_elem_of_fmap_2 (λ row, metricValue (rowMetrics row) metric)). Qed.

Lemma row_weights rows metric : map trunc_Z (counts rows metric) = map (row_weight metric) rows.
Proof. unfold counts. by rewrite map_map. Qed.

Lemma exact_filter p rows metric : exact_counts rows metric → exact_counts (List.filter p rows) metric.
Proof.
  intros Hx. pose proof Hx as [Hf Hb]. split.
  - unfold counts. apply Forall_map, Forall_forall. intros row [Hin _]%list_elem_of_In%filter_In.
    apply (exact_row rows metric row Hx). by apply list_elem_of_In.
  - rewrite row_weights in Hb |- *. eapply Z.le_lt_trans; [|exact Hb]. rewrite zsum_filter. apply zsum_le.
    intros row Hin. pose proof (proj2 (exact_row rows metric row Hx Hin)). destruct (p row); lia.
Qed.

(** The rows that [buildDashboardFlowData] keeps. *)
Definition kept_rows (rows : list FlowQuotaDataItem) (options : FlowBuildOptions) : list FlowQuotaDataItem :=
  filterRowsByNodes (filterRows rows (b_selectedUsers options)) (b_selectedNodes options)
    (resolveVisibleStages (default DEFAULT_FLOW_ROLE (b_role options)) (b_visibleStages options))
    (mkContext (b_deletedTokenLabel options)).

Lemma kept_filter rows options : ∃ p, kept_rows rows options = List.filter p rows.
Proof.
  unfold kept_rows, filterRowsByNodes, filterRows.
  assert (∀ p q (l : list FlowQuotaDataItem), List.filter p (List.filter q l) = List.filter (λ x, q x && p x) l) as Hff.
  { clear. intros p q l. induction l as [|x l IH]; [done|]. cbn. destruct (q x); cbn; [|done]. destruct (p x); by rewrite IH. }
  assert (∃ q, match default [] (b_selectedUsers options) with
               | [] => rows | selected => List.filter (λ row, in_list (path_id (userNode row)) selected) rows end
               = List.filter q rows) as [q ->].
  { destruct (default [] (b_selectedUsers options)); [|by eexists]. exists (λ _, true).
    induction rows as [|row rows IH]; cbn; [done|]. by rewrite <- IH. }
  destruct (normalizeSelectedNodeFilters _ _); [by eexists|]. rewrite Hff. by eexists.
Qed.

Lemma prepared_spec rows stages ctx sets mode labeler p :
  p ∈ preparePaths rows stages ctx sets mode labeler →
  path_ok stages (prepared_path p) ∧ ∃ row, row ∈ rows ∧ prepared_metrics p = rowMetrics row ∧
    applyTopNodeLimit (flowPathForStages row stages ctx) sets mode labeler = Some (prepared_path p).
Proof.
  unfold preparePaths. intros (row & Hin & Hp)%list_elem_of_omap.
  destruct (applyTopNodeLimit _ _ _ _) as [path|] eqn:Hpath; [|done]. injection Hp as <-. split.
  - eapply limited_path_ok; [done|]. apply flow_path_ok.
  - by exists row.
Qed.

Lemma prepared_weight metric rows stages ctx sets mode labeler :
  exact_counts rows metric →
  (zsum (map (path_weight metric) (preparePaths rows stages ctx sets mode labeler)) <= zsum (map (row_weight metric) rows))%Z.
Proof.
  intros Hx. pose proof (λ row Hin, proj2 (exact_row rows metric row Hx Hin)) as Hrow. clear Hx.
  unfold preparePaths. induction rows as [|row rows IH]; [done|]. cbn [omap list_omap].
  specialize (IH ltac:(intros; apply Hrow; set_solver)). specialize (Hrow row ltac:(set_solver)).
  destruct (applyTopNodeLimit _ _ _ _); cbn [mbind option_bind]; unfold zsum in *; cbn [map foldr];
    unfold row_weight, path_weight in *; cbn [prepared_metrics]; lia.
Qed.

(** Nothing is lost unless overflow is hidden. *)
Lemma prepared_all metric rows stages ctx sets mode labeler :
  mode ≠ OverflowHide →
  zsum (map (path_weight metric) (preparePaths rows stages ctx sets mode labeler)) = zsum (map (row_weight metric) rows).
Proof.
  intros Hmode. unfold preparePaths. induction rows as [|row rows IH]; [done|]. cbn [omap list_omap].
  assert (is_Some (applyTopNodeLimit (flowPathForStages row stages ctx) sets mode labeler)) as [path ->].
  { unfold applyTopNodeLimit. destruct sets; [|done]. destruct (negb _); [done|]. by destruct mode. }
  cbn [mbind option_bind]. unfold zsum in *. cbn [map foldr]. unfold row_weight, path_weight in *.
  cbn [prepared_metrics]. lia.
Qed.

Lemma summary_total rows metric :
  exact_counts rows metric →
  natural (summaryValue (buildSummary rows) metric) (zsum (map (row_weight metric) rows)).
Proof.
  intros Hx.
  assert (summaryValue (buildSummary rows) metric = num_sum (map (λ row, metricValue (rowMetrics row) metric) rows)) as ->.
  { assert (∀ s, summaryValue (foldl add_summary s rows) metric =
              foldl num_add (summaryValue s metric) (map (λ row, metricValue (rowMetrics row) metric) rows)) as Hfold.
    { clear Hx. induction rows as [|row rows IH]; intros s; [done|]. cbn [foldl map]. rewrite IH. f_equal.
      by destruct metric. }
    unfold buildSummary, num_sum. rewrite Hfold. by destruct metric. }
  apply num_sum_map; [intros row Hin; by apply (exact_row rows)|].
  rewrite <- row_weights. apply Hx.
Qed.

(** No id of a row's path has the separator of the link keys. *)
Definition clean_row (stages : list FlowNodeKind) (ctx : FlowPathContext) (row : FlowQuotaDataItem) : Prop :=
  Forall (λ node, 0%N ∉ path_id node) (flowPathForStages row stages ctx).

Lemma limited_clean row stages ctx sets mode labeler path :
  clean_row stages ctx row →
  applyTopNodeLimit (flowPathForStages row stages ctx) sets mode labeler = Some path →
  Forall (λ node, 0%N ∉ path_id node) path.
Proof.
  unfold clean_row, applyTopNodeLimit. intros Hc Ha. destruct sets as [sets|]; [|by injection Ha as <-].
  destruct (negb _); [by injection Ha as <-|]. destruct mode; [|done]. injection Ha as <-.
  apply Forall_map. eapply Forall_impl; [exact Hc|]. intros node Hnode.
  destruct (isTopFlowNode node sets); [done|]. apply (bool_decide_unpack _). by destruct (path_kind node).
Qed.

Section Properties.
Context `{FlowHost}.

Definition visible_stages (options : FlowBuildOptions) : list FlowNodeKind :=
  resolveVisibleStages (default DEFAULT_FLOW_ROLE (b_role options)) (b_visibleStages options).

(** The paths of the graph of [buildDashboardFlowData]. *)
Definition graph_paths (rows : list FlowQuotaDataItem) (metric : FlowMetric) (options : FlowBuildOptions)
    : list PreparedFlowPath :=
  let ctx := mkContext (b_deletedTokenLabel options) in
  let stages := visible_stages options in
  let kept := kept_rows rows options in
  preparePaths kept stages ctx
    (buildTopNodeSets kept metric stages (normalizeTopNodeLimit (b_topNodeLimit options)) ctx)
    (default DEFAULT_FLOW_OVERFLOW_MODE (b_overflowMode options)) (b_otherNodeLabel options).

Lemma flow_is_graph rows metric options :
  flow (buildDashboardFlowData rows metric options) =
  graph_of_paths (graph_paths rows metric options) metric (b_colorPalette options) (visible_stages options)
    (graph_options options).
Proof. done. Qed.

Lemma graph_paths_spec rows metric options :
  exact_counts rows metric →
  (∀ p, p ∈ graph_paths rows metric options → path_ok (visible_stages options) (prepared_path p)) ∧
  (∀ p, p ∈ graph_paths rows metric options →
     natural (metricValue (prepared_metrics p) metric) (path_weight metric p)) ∧
  (zsum (map (path_weight metric) (graph_paths rows metric options)) < 2 ^ 53)%Z.
Proof.
  intros Hx. destruct (kept_filter rows options) as [keep Hkeep].
  assert (exact_counts (kept_rows rows options) metric) as Hk by (rewrite Hkeep; by apply exact_filter).
  unfold graph_paths. split_and!.
  - intros p Hp. by apply prepared_spec in Hp as [? _].
  - intros p Hp. apply prepared_spec in Hp as (_ & row & Hin & Hm & _). unfold path_weight. rewrite Hm.
    by apply (exact_row (kept_rows rows options)).
  - eapply Z.le_lt_trans; [by apply prepared_weight|]. rewrite <- row_weights. apply Hk.
Qed.

(** C34. Every column of the flow graph shows the whole: when no row is hidden,
    the values of the nodes of each visible stage add up to the summary above
    the graph, whatever the filters, the limit of nodes, the colours and the
    selection; the counts of the rows being natural numbers of exact sum. *)
Theorem flow_columns_conserved rows metric options :
  exact_counts rows metric → b_overflowMode options ≠ Some OverflowHide →
  let d := buildDashboardFlowData rows metric options in
  ∀ k, k ∈ visible_stages options →
    num_sum (map n_value (List.filter (λ n, bool_decide (n_kind n = k)) (nodes (flow d)))) =
    summaryValue (summary d) metric.
Proof.
  intros Hx Hmode d k Hk. unfold d. rewrite flow_is_graph.
  destruct (graph_paths_spec rows metric options Hx) as (Hpaths & Hw & Hb).
  destruct (stages_ok (default DEFAULT_FLOW_ROLE (b_role options)) (b_visibleStages options)) as [Hd _].
  destruct (column_total metric (b_colorPalette options) (visible_stages options) (graph_options options)
    (graph_paths rows metric options) (path_weight metric) Hd Hpaths Hw Hb k Hk) as [-> _].
  destruct (kept_filter rows options) as [keep Hkeep].
  assert (exact_counts (kept_rows rows options) metric) as Hk' by (rewrite Hkeep; by apply exact_filter).
  destruct (summary_total (kept_rows rows options) metric Hk') as [Hs _].
  change (summary (buildDashboardFlowData rows metric options)) with (buildSummary (kept_rows rows options)).
  rewrite Hs. f_equal. apply prepared_all. by destruct (b_overflowMode options) as [[]|].
Qed.

(** What flows into a node flows out of it: the values of the links that
    leave a node of the graph add up to the node's value, unless it is in the
    last visible stage, and so do those of the links that enter it, unless it
    is in the first; in both overflow modes. *)
Theorem flow_balanced rows metric options :
  exact_counts rows metric →
  Forall (clean_row (visible_stages options) (mkContext (b_deletedTokenLabel options))) rows →
  let g := flow (buildDashboardFlowData rows metric options) in
  ∀ n, n ∈ nodes g →
    (n_kind n ≠ last_stage (visible_stages options) →
       num_sum (map l_value (List.filter (λ l, bool_decide (l_source l = n_id n)) (links g))) = n_value n) ∧
    (n_kind n ≠ first_stage (visible_stages options) →
       num_sum (map l_value (List.filter (λ l, bool_decide (l_target l = n_id n)) (links g))) = n_value n).
Proof.
  intros Hx Hclean g. unfold g. rewrite flow_is_graph.
  destruct (graph_paths_spec rows metric options Hx) as (Hpaths & Hw & Hb).
  destruct (stages_ok (default DEFAULT_FLOW_ROLE (b_role options)) (b_visibleStages options)) as [Hd Hlong].
  apply (node_balance metric (b_colorPalette options) (visible_stages options) (graph_options options)
    (graph_paths rows metric options) (path_weight metric)); try done.
  - intros p node Hp Hnode. apply prepared_spec in Hp as (_ & row & Hin & _ & Hpath).
    destruct (kept_filter rows options) as [keep Hkeep]. rewrite Hkeep in Hin.
    apply list_elem_of_In, filter_In in Hin as [Hin%list_elem_of_In _].
    apply limited_clean in Hpath; [by apply (proj1 (Forall_forall _ _) Hpath)|].
    by apply (proj1 (Forall_forall _ _) Hclean).
  - intros Hnil. unfold visible_stages in Hnil. rewrite Hnil in Hlong. cbn in Hlong. lia.
Qed.
End Properties.

(** ** Labels and limits, whatever the counts *)

(** The entry of a node, after masking. *)
Definition masked_text (s : jsstring) : Prop := s = [] ∨ s = FLOW_MASK_TEXT.
Lemma masked_label s : masked_text (maskFlowLabel s).
Proof. destruct s; [by left|by right]. Qed.

Lemma masked_ids_spec (ns : list (jsstring * DashboardFlowNode)) : ∀ m,
  (∀ k s, mget m k = Some s → masked_text s) →
  let m' := foldl (λ m '(_, n), if is_masked n then mset m (n_id n) (maskFlowLabel (n_label n)) else m) m ns in
  (∀ k s, mget m' k = Some s → masked_text s) ∧ (∀ k, is_Some (mget m k) → is_Some (mget m' k)) ∧
  ∀ i n, (i, n) ∈ ns → is_masked n = true → is_Some (mget m' (n_id n)).
Proof.
  induction ns as [|[i n] ns IH]; intros m Hm; cbn [foldl]; [set_solver|].
  assert (∀ k s, mget (if is_masked n then mset m (n_id n) (maskFlowLabel (n_label n)) else m) k = Some s → masked_text s)
    as Hm'.
  { destruct (is_masked n); [|done]. intros k s. rewrite mget_mset. case_decide; [|apply Hm].
    intros [= <-]. apply masked_label. }
  destruct (IH _ Hm') as (Hv & Hkeep & Hin). split_and!; [done| |].
  - intros k Hk. apply Hkeep. destruct (is_masked n); [|done]. rewrite mget_mset. by case_decide.
  - intros i' n' [[= -> ->]|Hin']%elem_of_cons Hmask; [|by eapply Hin].
    apply Hkeep. rewrite Hmask, mget_mset, decide_True by done. by eexists.
Qed.

Lemma is_masked_id k i n :
  node_good i n → n_kind n = k → i ∉ OTHER_FLOW_NODE_ID_SET → in_list k SENSITIVE_FLOW_KINDS = true → is_masked n = true.
Proof.
  intros [<- _] <- Hother Hs. unfold is_masked. rewrite Hs. unfold in_list. by rewrite bool_decide_eq_false_2.
Qed.

Section Shape.
Context `{FlowHost} (metric : FlowMetric) (palette : option (list jsstring)) (stages : list FlowNodeKind).
Context (options : FlowGraphOptions) (ps : list PreparedFlowPath).
Context (Hpaths : ∀ p, p ∈ ps → path_ok stages (prepared_path p)).
#[local] Set Default Proof Using "All".

Let nmap := node_map metric palette (path_colors palette ps) ps.
Let lmap := link_map metric palette (path_colors palette ps) ps.

Lemma node_part_ok c : c ∈ node_parts ps → node_ok c.1.
Proof.
  intros Hc. apply node_part_in in Hc as [Hp Hin]. destruct (Hpaths _ Hp) as [_ Hf].
  by apply (proj1 (Forall_forall _ _) Hf).
Qed.

Lemma nmap_spec :
  NoDup nmap.*1 ∧ (∀ i, i ∈ nmap.*1 ↔ ∃ p node, p ∈ ps ∧ node ∈ prepared_path p ∧ path_id node = i) ∧
  ∀ i n, (i, n) ∈ nmap → node_good i n.
Proof.
  destruct (accumulate_keys node_key (node_make palette (path_colors palette ps)) (node_grow metric) n_value
    (λ c, metricValue (prepared_metrics c.2) metric) node_good ltac:(done) ltac:(done) ltac:(done) (node_parts ps))
    as (Hd & Hk & Hv).
  { intros c Hc. split; [done|]. by apply node_part_ok. }
  split_and!; [done| |done]. intros i. etrans; [apply Hk|]. split.
  - intros ([node p] & -> & Hc)%list_elem_of_fmap. apply node_part_in in Hc as [? ?]. by exists p, node.
  - intros (p & node & Hp & Hin & <-). apply (list_elem_of_fmap_2 node_key (node_parts ps) (node, p)).
    apply list_elem_of_In, in_flat_map. exists p. split; [by apply list_elem_of_In|].
    apply in_map_iff. exists node. split; [done|by apply list_elem_of_In].
Qed.

(** The ends of a link are nodes of the graph. *)
Lemma lmap_ends key l : (key, l) ∈ lmap → l_source l ∈ nmap.*1 ∧ l_target l ∈ nmap.*1.
Proof.
  intros Hin. destruct nmap_spec as (_ & Hkeys & _).
  assert (∃ p a b, p ∈ ps ∧ (a, b) ∈ steps (prepared_path p) ∧ l_source l = path_id a ∧ l_target l = path_id b)
    as (p & a & b & Hp & Hab & -> & ->).
  { destruct (accumulate_keys link_part_key (link_make palette (path_colors palette ps)) (link_grow metric) l_value
      (λ c, metricValue (prepared_metrics c.2) metric)
      (λ _ l, ∃ p a b, p ∈ ps ∧ (a, b) ∈ steps (prepared_path p) ∧ l_source l = path_id a ∧ l_target l = path_id b)
      ltac:(done) ltac:(done) ltac:(done) (link_parts ps)) as (_ & _ & Hv); [|by eapply Hv].
    intros [[a b] p] Hc. apply link_part_in in Hc as [Hp Hab]. by exists p, a, b. }
  apply steps_elem in Hab as [Ha Hb]. rewrite !Hkeys. by split; [exists p, a|exists p, b].
Qed.

Lemma masked_nodes i n :
  (i, n) ∈ (maskFlowGraphLabels nmap lmap).1 →
  in_list (n_kind n) SENSITIVE_FLOW_KINDS = true → n_id n ∉ OTHER_FLOW_NODE_ID_SET → masked_text (n_label n).
Proof.
  cbn [maskFlowGraphLabels fst]. intros ([i' n'] & [= -> ->] & Hin)%list_elem_of_fmap Hs Ho.
  destruct nmap_spec as (_ & _ & Hgood). pose proof (Hgood _ _ Hin) as Hn'.
  assert (is_masked n' = true) as Hmask.
  { destruct (is_masked n') eqn:E; [done|]. rewrite <- E. destruct Hn' as [Hid Hr].
    eapply is_masked_id; [by split|done| |exact Hs]. by rewrite <- Hid. }
  rewrite Hmask. cbn [relabel_node n_label]. apply masked_label.
Qed.

Lemma masked_links key l :
  (key, l) ∈ (maskFlowGraphLabels nmap lmap).2 →
  ∀ k r, in_list k SENSITIVE_FLOW_KINDS = true →
    (l_source l = kind_prefix k ++ r → l_source l ∉ OTHER_FLOW_NODE_ID_SET → masked_text (l_sourceLabel l)) ∧
    (l_target l = kind_prefix k ++ r → l_target l ∉ OTHER_FLOW_NODE_ID_SET → masked_text (l_targetLabel l)).
Proof.
  cbn [maskFlowGraphLabels snd]. set (m := foldl _ _ _).
  intros ([key' l'] & [= -> ->] & Hin)%list_elem_of_fmap k r Hs. cbn [relabel_link l_source l_target l_sourceLabel l_targetLabel].
  destruct (masked_ids_spec nmap [] ltac:(done)) as (Hv & _ & Hmasked). fold m in Hv, Hmasked.
  destruct nmap_spec as (_ & _ & Hgood). destruct (lmap_ends _ _ Hin) as [Hsrc Htgt].
  assert (∀ i, i ∈ nmap.*1 → i = kind_prefix k ++ r → i ∉ OTHER_FLOW_NODE_ID_SET →
            ∃ s, mget m i = Some s ∧ masked_text s) as Hget.
  { intros i ([i' n] & -> & Hn)%list_elem_of_fmap Hi Ho. cbn [fst] in *. pose proof (Hgood _ _ Hn) as Hg.
    pose proof Hg as [Hid [r' Hr']]. rewrite Hi in Hr'. apply kind_of_id in Hr' as Hk.
    destruct (Hmasked i' n Hn) as [s Hm]; [by eapply is_masked_id|].
    rewrite Hid in Hm. exists s. split; [done|]. by eapply Hv. }
  split; intros Hi Ho.
  - by destruct (Hget _ Hsrc Hi Ho) as (s & -> & ?).
  - by destruct (Hget _ Htgt Hi Ho) as (s & -> & ?).
Qed.

(** The rest of the construction keeps labels, kinds and ids. *)
Lemma graph_of_masked :
  let g := graph_of_paths ps metric palette stages options in
  let masked := if o_maskSensitive options then maskFlowGraphLabels nmap lmap else (nmap, lmap) in
  (∀ n, n ∈ nodes g → ∃ i n', (i, n') ∈ masked.1 ∧ n_id n = n_id n' ∧ n_kind n = n_kind n' ∧ n_label n = n_label n') ∧
  (∀ l, l ∈ links g → ∃ key l', (key, l') ∈ masked.2 ∧ l_source l = l_source l' ∧ l_target l = l_target l' ∧
     l_sourceLabel l = l_sourceLabel l' ∧ l_targetLabel l = l_targetLabel l') ∧
  map n_id (nodes g) ≡ₚ nmap.*1.
Proof.
  pose proof (graph_views metric palette ps stages options) as [Hviews _].
  assert (∀ g', g' = graph_of_paths ps metric palette stages options → map n_id (nodes g') ≡ₚ nmap.*1) as Hids.
  { intros g' ->. pose proof (Permutation_map (λ v : jsstring * FlowNodeKind * num, v.1.1) Hviews) as Hp.
    rewrite !map_map in Hp.
    assert (map (λ kv : jsstring * DashboardFlowNode, (node_view kv.2).1.1) nmap = nmap.*1) as <-; [|exact Hp].
    change (nmap.*1) with (map fst nmap). apply map_ext_in. intros [i n] Hin%list_elem_of_In.
    destruct nmap_spec as (_ & _ & Hgood). by destruct (Hgood _ _ Hin) as [Hid _]. }
  cbv zeta. split_and!; [..|by apply Hids]; unfold graph_of_paths; fold (path_colors palette ps); rewrite add_paths;
    fold nmap lmap; set (sets := buildFlowHighlightSets _ _ _ _);
    destruct (if o_maskSensitive options then _ else _) as [ns ls]; cbn [fst snd].
  - intros n. destruct (applyFlowHighlights ns ls sets) as [ns' ls'] eqn:Hh. cbn [nodes].
    rewrite sort_by_Permutation. intros ([i n'] & -> & Hin)%list_elem_of_fmap. destruct sets as [sets|].
    + injection Hh as <- <-. apply list_elem_of_fmap in Hin as ([i0 n0] & [= -> ->] & Hin). by exists i0, n0.
    + injection Hh as <- <-. by exists i, n'.
  - intros l. destruct (applyFlowHighlights ns ls sets) as [ns' ls'] eqn:Hh. cbn [links].
    unfold assignLinkDisplayColors. intros (l1 & -> & (l2 & -> & Hin)%list_elem_of_fmap)%list_elem_of_fmap.
    rewrite sort_by_Permutation in Hin. apply list_elem_of_fmap in Hin as ([key l3] & -> & Hin). destruct sets as [sets|].
    + injection Hh as <- <-. apply list_elem_of_fmap in Hin as ([i0 l0] & [= -> ->] & Hin). by exists i0, l0.
    + injection Hh as <- <-. by exists key, l3.
Qed.

(** A node of the graph is a node of some path. *)
Lemma graph_node_on_path n : n ∈ nodes (graph_of_paths ps metric palette stages options) →
  ∃ p node, p ∈ ps ∧ node ∈ prepared_path p ∧ path_id node = n_id n ∧ path_kind node = n_kind n.
Proof.
  intros Hin. destruct nmap_spec as (_ & Hkeys & Hgood). destruct graph_of_masked as (Hnodes & _ & Hids).
  assert (n_id n ∈ nmap.*1) as (p & node & Hp & Hnode & Hpid)%Hkeys.
  { rewrite <- Hids. by apply list_elem_of_fmap_2. }
  exists p, node. split_and!; [done..|].
  destruct (Hnodes n Hin) as (i0 & n0 & Hin0 & Hi & Hki & _). destruct (Hpaths p Hp) as [_ Hf].
  destruct (proj1 (Forall_forall _ _) Hf node Hnode) as [r Hr]. rewrite Hpid, Hi in Hr.
  assert (∃ r', n_id n0 = kind_prefix (n_kind n0) ++ r') as [r' Hr'].
  { destruct (o_maskSensitive options); [|by destruct (Hgood _ _ Hin0) as [<- Hr0]].
    apply list_elem_of_fmap in Hin0 as ([i1 n1] & [= -> ->] & Hin1). destruct (Hgood _ _ Hin1) as [<- Hr0].
    by destruct (is_masked n1). }
  rewrite Hr' in Hr. apply kind_of_id in Hr. congruence.
Qed.
End Shape.

Lemma NoDup_map_filter {A B} (f : A → B) (p : A → bool) l : NoDup (map f l) → NoDup (map f (List.filter p l)).
Proof.
  induction l as [|x l IH]; [constructor|]. cbn. intros [Hn Hd]%NoDup_cons. destruct (p x); [|by apply IH].
  cbn. constructor; [|by apply IH]. intros (y & Heq & Hin)%list_elem_of_fmap. apply Hn. rewrite Heq.
  apply list_elem_of_fmap_2. apply list_elem_of_In, filter_In in Hin as [Hin _]. by apply list_elem_of_In.
Qed.

(** ** The limit of nodes *)

Section Limit.
Context `{FlowHost}.

Lemma rank_keys value totals node : (rank_node_of value totals node).*1 = totals.*1.
Proof.
  unfold rank_node_of. destruct (mget totals (path_kind node)) as [t|] eqn:Hg; [|done].
  rewrite mset_keys, decide_True; [done|]. apply mget_Some in Hg. apply (list_elem_of_fmap_2 fst _ _ Hg).
Qed.

Lemma stage_totals_keys rows metric stages ctx k :
  k ∈ (stage_totals rows metric stages ctx).*1 ↔ k ∈ stages.
Proof.
  unfold stage_totals.
  assert (∀ m, (foldl (λ totals row, foldl (rank_node_of (metricValue (rowMetrics row) metric)) totals
                         (flowPathForStages row stages ctx)) m rows).*1 = m.*1) as ->.
  { induction rows as [|row rows IH]; intros m; [done|]. cbn [foldl]. rewrite IH. clear IH. revert m.
    induction (flowPathForStages row stages ctx) as [|node path IH]; intros m; [done|]. cbn [foldl].
    by rewrite IH, rank_keys. }
  assert (∀ m : list (FlowNodeKind * list (jsstring * FlowNodeRank)),
    k ∈ (foldl (λ m stage, mset m stage []) m stages).*1 ↔ k ∈ m.*1 ∨ k ∈ stages) as Hset.
  { induction stages as [|s stages IH]; intros m; cbn [foldl]; [set_solver|].
    rewrite IH, mset_keys. case_decide; set_solver. }
  rewrite Hset. set_solver.
Qed.

Lemma mget_map {K V W} `{EqDecision K} (f : V → W) (m : list (K * V)) k :
  mget (map (λ '(k, v), (k, f v)) m) k = f <$> mget m k.
Proof. induction m as [|[k' v] m IH]; cbn; [done|]. by destruct (decide (k' = k)). Qed.

Lemma foldl_sadd_length {K} `{EqDecision K} (items : list K) : ∀ s, length (foldl sadd s items) ≤ length s + length items.
Proof.
  induction items as [|x items IH]; intros s; cbn; [lia|]. etrans; [apply IH|]. unfold sadd.
  case_decide; [lia|]. rewrite length_app. cbn. lia.
Qed.

Lemma top_set rows metric stages limit ctx sets k :
  buildTopNodeSets rows metric stages (Some limit) ctx = Some sets → k ∈ stages →
  ∃ ids, mget sets k = Some ids ∧ length ids ≤ Z.to_nat (trunc_Z limit).
Proof.
  intros [= <-] Hk. apply (stage_totals_keys rows metric stages ctx) in Hk.
  destruct (mget (stage_totals rows metric stages ctx) k) as [t|] eqn:Ht; [|by apply mget_None in Ht].
  rewrite (mget_map (λ t, unique (top_ids limit t))), Ht. eexists. split; [done|].
  unfold unique. etrans; [apply foldl_sadd_length|]. cbn. unfold top_ids. rewrite length_map, length_take. lia.
Qed.

(** A node of a limited path is one of the top nodes, or the merged one. *)
Lemma limited_node path sets mode labeler path' node ids :
  applyTopNodeLimit path (Some sets) mode labeler = Some path' → node ∈ path' →
  mget sets (path_kind node) = Some ids →
  path_id node ∈ ids ∨ (mode = OverflowAggregate ∧ path_id node = OTHER_FLOW_NODE_IDS (path_kind node)).
Proof.
  unfold applyTopNodeLimit. intros Ha Hin Hids.
  assert (∀ n, isTopFlowNode n sets = true → mget sets (path_kind n) = Some ids → path_id n ∈ ids) as Htop.
  { intros n Hn Hn'. unfold isTopFlowNode in Hn. rewrite Hn' in Hn. by apply bool_decide_eq_true in Hn. }
  destruct (existsb _ path) eqn:He; cbn [negb] in Ha.
  - destruct mode; [|done]. injection Ha as <-. apply list_elem_of_fmap in Hin as (n & -> & Hin).
    destruct (isTopFlowNode n sets) eqn:Hn; [left; by apply Htop|by right].
  - injection Ha as <-. left. apply Htop; [|done]. destruct (isTopFlowNode node sets) eqn:Hn; [done|].
    assert (existsb (λ node, negb (isTopFlowNode node sets)) path = true) as Htrue; [|congruence].
    apply existsb_exists. exists node. rewrite Hn. split; [by apply list_elem_of_In|done].
Qed.

(** No stage of the graph shows more nodes than the limit: at most as many
    as it says, and one more that stands for the others when these are
    aggregated instead of hidden; no two nodes of the graph have the same id. *)
Theorem flow_nodes_limited rows metric options limit :
  normalizeTopNodeLimit (b_topNodeLimit options) = Some limit →
  let g := flow (buildDashboardFlowData rows metric options) in
  NoDup (map n_id (nodes g)) ∧
  ∀ k, k ∈ visible_stages options →
    length (List.filter (λ n, bool_decide (n_kind n = k)) (nodes g)) ≤
    Z.to_nat (trunc_Z limit) + (if b_overflowMode options is Some OverflowHide then 0 else 1).
Proof.
  intros Hlimit g. unfold g. rewrite flow_is_graph. set (ps := graph_paths rows metric options).
  assert (∀ p, p ∈ ps → path_ok (visible_stages options) (prepared_path p)) as Hpaths.
  { intros p Hp. by apply prepared_spec in Hp as [? _]. }
  destruct (graph_of_masked metric (b_colorPalette options) _ (graph_options options) ps Hpaths) as (_ & _ & Hids).
  pose proof (graph_node_on_path metric (b_colorPalette options) _ (graph_options options) ps Hpaths) as Hnodes.
  set (gr := graph_of_paths _ _ _ _ _) in *.
  assert (NoDup (map n_id (nodes gr))) as Hnd.
  { rewrite Hids. apply (nmap_spec metric (b_colorPalette options) _ (graph_options options) ps Hpaths). }
  split; [done|].
  intros k Hk. destruct (buildTopNodeSets (kept_rows rows options) metric (visible_stages options)
    (normalizeTopNodeLimit (b_topNodeLimit options)) (mkContext (b_deletedTokenLabel options))) as [sets|] eqn:Hsets;
    [|by rewrite Hlimit in Hsets].
  pose proof Hsets as Hsets'. rewrite Hlimit in Hsets'. destruct (top_set _ _ _ _ _ _ k Hsets' Hk) as (ids & Hget & Hlen).
  set (mode := default DEFAULT_FLOW_OVERFLOW_MODE (b_overflowMode options)).
  set (allowed := ids ++ (if mode is OverflowHide then [] else [OTHER_FLOW_NODE_IDS k])).
  assert (length allowed ≤ Z.to_nat (trunc_Z limit) + (if b_overflowMode options is Some OverflowHide then 0 else 1)) as Hall.
  { unfold allowed, mode. rewrite length_app. destruct (b_overflowMode options) as [[]|]; cbn; lia. }
  etrans; [|exact Hall]. rewrite <- (length_map n_id). apply NoDup_incl_length.
  - by apply NoDup_ListNoDup, NoDup_map_filter.
  - intros i (n & <- & [Hin Hkind]%filter_In)%in_map_iff. apply list_elem_of_In in Hin. apply list_elem_of_In.
    apply bool_decide_eq_true in Hkind. destruct (Hnodes n Hin) as (p & node & Hp & Hnode & <- & Hnk).
    rewrite Hkind in Hnk.
    apply prepared_spec in Hp as (_ & row & _ & _ & Happ). rewrite Hsets in Happ. rewrite <- Hnk in Hget.
    unfold allowed. apply elem_of_app. destruct (limited_node _ _ _ _ _ _ _ Happ Hnode Hget) as [Hin'|[Hmode Hother]]; [by left|].
    right. fold mode in Hmode. rewrite Hmode, Hother, Hnk. set_solver.
Qed.

(** The options without masking. *)
Definition unmasked (options : FlowBuildOptions) : FlowBuildOptions :=
  mkBuildOptions (b_role options) (b_selectedUsers options) (b_selectedNodes options) (b_activeNode options)
    (b_activeLink options) (b_colorPalette options) (b_visibleStages options) (b_topNodeLimit options)
    (b_overflowMode options) false (b_deletedTokenLabel options) (b_otherNodeLabel options).

(** With masking on, no label of a user, node, token, group or channel is
    left in the graph, on a node or at either end of a link, the merged nodes
    apart: each is empty or four bullets. The nodes, links and values are those
    of the graph without masking. *)
Theorem flow_labels_masked rows metric options :
  b_maskSensitive options = true →
  let g := flow (buildDashboardFlowData rows metric options) in
  let plain := flow (buildDashboardFlowData rows metric (unmasked options)) in
  (∀ n, n ∈ nodes g → in_list (n_kind n) SENSITIVE_FLOW_KINDS = true → n_id n ∉ OTHER_FLOW_NODE_ID_SET →
     n_label n = [] ∨ n_label n = FLOW_MASK_TEXT) ∧
  (∀ l, l ∈ links g → ∀ k r, in_list k SENSITIVE_FLOW_KINDS = true →
     (l_source l = kind_prefix k ++ r → l_source l ∉ OTHER_FLOW_NODE_ID_SET →
        l_sourceLabel l = [] ∨ l_sourceLabel l = FLOW_MASK_TEXT) ∧
     (l_target l = kind_prefix k ++ r → l_target l ∉ OTHER_FLOW_NODE_ID_SET →
        l_targetLabel l = [] ∨ l_targetLabel l = FLOW_MASK_TEXT)) ∧
  map node_view (nodes g) ≡ₚ map node_view (nodes plain) ∧ map link_view (links g) ≡ₚ map link_view (links plain).
Proof.
  intros Hmask g plain. unfold g, plain. rewrite !flow_is_graph.
  change (graph_paths rows metric (unmasked options)) with (graph_paths rows metric options).
  change (visible_stages (unmasked options)) with (visible_stages options).
  change (b_colorPalette (unmasked options)) with (b_colorPalette options).
  set (ps := graph_paths rows metric options).
  assert (∀ p, p ∈ ps → path_ok (visible_stages options) (prepared_path p)) as Hpaths.
  { intros p Hp. by apply prepared_spec in Hp as [? _]. }
  destruct (graph_of_masked metric (b_colorPalette options) _ (graph_options options) ps Hpaths) as (Hnodes & Hlinks & _).
  change (o_maskSensitive (graph_options options)) with (b_maskSensitive options) in Hnodes, Hlinks. rewrite Hmask in Hnodes, Hlinks.
  pose proof (graph_views metric (b_colorPalette options) ps (visible_stages options) (graph_options options)) as [Hn Hl].
  pose proof (graph_views metric (b_colorPalette options) ps (visible_stages options) (graph_options (unmasked options))) as [Hn' Hl'].
  split_and!; [| |by rewrite Hn, Hn'|by rewrite Hl, Hl'].
  - intros n (i & n' & Hin & -> & -> & ->)%Hnodes.
    by eapply (masked_nodes metric (b_colorPalette options) _ (graph_options options) ps Hpaths).
  - intros l (key & l' & Hin & -> & -> & -> & ->)%Hlinks.
    by eapply (masked_links metric (b_colorPalette options) _ (graph_options options) ps Hpaths).
Qed.
End Limit.

(** ** Witnesses: three rows, one node shown per stage *)

#[local] Instance example_host : FlowHost := {
  localeCompare a b := if str_ltb a b then num_of_Z (-1) else if bool_decide (a = b) then zero else num_of_Z 1;
  formatNumber := num_to_string;
  vchartDefaultDataScheme := [([js "#1664FF"; js "#1AC6FF"], Some (num_of_Z 10))];
  vchartLastScheme := [js "#1664FF"]
}.
Definition example_row (user group model : String.string) (quota : Z) : FlowQuotaDataItem :=
  mkRow None (Some (js user)) None (Some (js group)) None None None None (Some (js model))
    None None (Some (num_of_Z quota)).
Definition example_rows : list FlowQuotaDataItem :=
  [example_row "alice" "vip" "gpt" 70; example_row "bob" "vip" "claude" 20; example_row "carol" "default" "gpt" 10].
Definition example_options : FlowBuildOptions :=
  mkBuildOptions (Some RoleAdmin) None None None None None None (Some (num_of_Z 1)) None true None None.

Lemma example_exact : exact_counts example_rows MQuota.
Proof. split; [repeat constructor; by vm_compute|by vm_compute]. Qed.

Example flow_columns_conserved_witness :
  num_sum (map n_value (List.filter (λ n, bool_decide (n_kind n = KModel))
    (nodes (flow (buildDashboardFlowData example_rows MQuota example_options))))) = num_of_Z 100.
Proof.
  rewrite (flow_columns_conserved example_rows MQuota example_options); [by vm_compute|exact example_exact|done|].
  apply (bool_decide_unpack _). by vm_compute.
Defined.

Definition example_graph : DashboardFlowGraph := flow (buildDashboardFlowData example_rows MQuota example_options).
(** The node of the group that two of the rows share. *)
Definition vip_node : DashboardFlowNode :=
  default (new_node (groupNode (example_row "" "" "" 0)) [] [])
    (List.find (λ n, bool_decide (n_id n = js "group:vip")) (nodes example_graph)).

Lemma vip_node_in : vip_node ∈ nodes example_graph.
Proof.
  unfold vip_node. destruct (List.find _ _) as [n|] eqn:Hn; [|by vm_compute in Hn].
  apply find_some in Hn as [Hin _]. by apply list_elem_of_In.
Qed.

Example flow_balanced_witness :
  n_value vip_node = num_of_Z 90 ∧
  num_sum (map l_value (List.filter (λ l, bool_decide (l_target l = n_id vip_node)) (links example_graph))) = n_value vip_node.
Proof.
  split; [by vm_compute|].
  apply (flow_balanced example_rows MQuota example_options); [exact example_exact| |exact vip_node_in|by vm_compute].
  apply (bool_decide_unpack _). by vm_compute.
Defined.

Example flow_nodes_limited_witness :
  length (List.filter (λ n, bool_decide (n_kind n = KUser)) (nodes example_graph)) ≤ 2.
Proof.
  apply (flow_nodes_limited example_rows MQuota example_options (num_of_Z 1)); [by vm_compute|].
  apply (bool_decide_unpack _). by vm_compute.
Defined.

Example flow_labels_masked_witness :
  n_id vip_node = js "group:vip" ∧ (n_label vip_node = [] ∨ n_label vip_node = FLOW_MASK_TEXT).
Proof.
  split; [by vm_compute|].
  destruct (flow_labels_masked example_rows MQuota example_options eq_refl) as (Hnodes & _).
  apply (Hnodes vip_node vip_node_in); [by vm_compute|].
  apply (bool_decide_unpack _). by vm_compute.
Defined.
