(* ===== verification/JsObject.v ===== *)
(** * Objects as JSON documents

    The order in which an object lists its keys, assignment to a key, and
    [JSON.stringify]: what it writes reads back as it was. The entries of a [VObject] are in the
    order of creation; what enumerates them goes through [own_order]. *)

From S2P Require Import Prelude JsNumber JsNumberFacts JsText Types CompileFacts Runtime RuntimeFacts JsRegex JsRegexFacts.
From Stdlib Require Import Floats.SpecFloat.

(** ** The order of keys *)

(** An array index: the decimal text of a natural number below [2^32 - 1]. *)
Definition key_index (k : jsstring) : option N :=
  if forallb is_digit k && (length k <=? 10) then
    let n := dec_value k in
    if (dec_string n =s k) && (n <? 4294967295)%N then Some n else None
  else None.

Section Order.
Context {A : Type}.

Fixpoint insert_index (n : N) (e : jsstring * A) (l : list (N * (jsstring * A))) : list (N * (jsstring * A)) :=
  match l with
  | [] => [(n, e)]
  | (m, e') :: l' => if (n <=? m)%N then (n, e) :: l else (m, e') :: insert_index n e l'
  end.

Fixpoint index_entries (l : list (jsstring * A)) : list (N * (jsstring * A)) :=
  match l with
  | [] => []
  | e :: l => match key_index e.1 with Some n => insert_index n e (index_entries l) | None => index_entries l end
  end.
Definition name_entries (l : list (jsstring * A)) : list (jsstring * A) :=
  List.filter (λ e, match key_index e.1 with Some _ => false | None => true end) l.

(** [Object.entries]: the array indices in ascending order, then the other
    keys in the order of creation. *)
Definition own_order (l : list (jsstring * A)) : list (jsstring * A) :=
  map snd (index_entries l) ++ name_entries l.

Lemma insert_index_Permutation n e l : map snd (insert_index n e l) ≡ₚ e :: map snd l.
Proof.
  induction l as [|[m e'] l IH]; cbn; [done|]. destruct (n <=? m)%N; [done|]. cbn. rewrite IH.
  apply Permutation_swap.
Qed.

Lemma own_order_Permutation l : own_order l ≡ₚ l.
Proof.
  unfold own_order. induction l as [|e l IH]; cbn; [done|]. destruct (key_index e.1).
  - rewrite insert_index_Permutation. cbn. by rewrite IH.
  - by rewrite <- Permutation_middle, IH.
Qed.

(** Without array indices among the keys it is the order of creation. *)
Definition plain_keys (l : list (jsstring * A)) : Prop := Forall (λ e, key_index e.1 = None) l.

Lemma own_order_plain l : plain_keys l → own_order l = l.
Proof.
  intros Hl. assert (index_entries l = [] ∧ name_entries l = l) as [Hi Hn].
  { induction Hl as [|e l He _ [IHi IHn]]; [done|]. cbn. rewrite He. cbn. split; [done|by f_equal]. }
  unfold own_order. by rewrite Hi, Hn.
Qed.

(** Enumerating twice is enumerating once. *)
Definition index_sorted (l : list (N * (jsstring * A))) : Prop :=
  StronglySorted (λ a b, (a.1 <= b.1)%N) l ∧ Forall (λ x, key_index x.2.1 = Some x.1) l.

Lemma insert_index_sorted n e l :
  key_index e.1 = Some n → index_sorted l → index_sorted (insert_index n e l).
Proof.
  intros He [Hs Hl]. induction Hs as [|[m e'] l Hs IH Hm]; cbn; [repeat constructor; done|].
  apply Forall_cons in Hl as [He' Hl]. specialize (IH Hl). destruct (n <=? m)%N eqn:Hle.
  - apply N.leb_le in Hle. split; [|by repeat constructor]. constructor; [by constructor|].
    constructor; [done|]. eapply Forall_impl; [exact Hm|]. cbn. lia.
  - apply N.leb_gt in Hle. destruct IH as [IHs IHl]. split; [|by constructor]. constructor; [done|].
    apply Forall_forall. intros x Hx. assert (x ∈ (n, e) :: l) as Hin.
    { clear -Hx. induction l as [|[m e'] l IH]; cbn in *; [done|]. destruct (n <=? m)%N; [done|]. set_solver. }
    apply elem_of_cons in Hin as [->|Hin]; [cbn; lia|]. rewrite Forall_forall in Hm. by apply Hm.
Qed.
Lemma index_entries_sorted l : index_sorted (index_entries l).
Proof.
  induction l as [|e l IH]; cbn; [by split; constructor|]. destruct (key_index e.1) eqn:E; [|done].
  by apply insert_index_sorted.
Qed.

Lemma insert_index_head n e l : Forall (λ x, (n <= x.1)%N) l → insert_index n e l = (n, e) :: l.
Proof. destruct 1 as [|[m e'] l Hm _]; [done|]. cbn in *. by rewrite (proj2 (N.leb_le n m) Hm). Qed.

Lemma index_entries_again l names :
  index_sorted l → plain_keys names → index_entries (map snd l ++ names) = l.
Proof.
  intros [Hs Hl] Hn. induction Hs as [|[n e] l Hs IH Hm]; cbn.
  - induction Hn as [|e names He _ IH]; cbn; [done|]. by rewrite He.
  - apply Forall_cons in Hl as [He Hl]. cbn in He. rewrite He, (IH Hl). by apply insert_index_head.
Qed.
Lemma name_entries_again (l : list (N * (jsstring * A))) names :
  Forall (λ x, key_index x.2.1 = Some x.1) l → plain_keys names → name_entries (map snd l ++ names) = names.
Proof.
  intros Hl Hn. unfold name_entries. induction Hl as [|[n e] l He _ IH]; cbn.
  - induction Hn as [|e names He _ IH]; cbn; [done|]. by rewrite He, IH.
  - cbn in He. by rewrite He.
Qed.

Lemma own_order_idemp l : own_order (own_order l) = own_order l.
Proof.
  assert (plain_keys (name_entries l)) as Hn.
  { apply Forall_forall. intros e [_ He]%list_elem_of_In%filter_In. by destruct (key_index e.1). }
  pose proof (index_entries_sorted l) as Hi. unfold own_order at 1.
  assert (own_order l = map snd (index_entries l) ++ name_entries l) as -> by done.
  rewrite (index_entries_again _ _ Hi Hn), (name_entries_again _ _ (proj2 Hi) Hn). done.
Qed.

Lemma own_perm (l l' : list (jsstring * A)) k : l ≡ₚ l' → NoDup l.*1 → own l k = own l' k.
Proof.
  intros Hp Hd. destruct (own l k) as [v|] eqn:Hv.
  - apply own_Some_elem in Hv. rewrite Hp in Hv, Hd. destruct (own l' k) as [w|] eqn:Hw.
    + apply own_Some_elem in Hw. f_equal. clear Hp. induction l' as [|[k0 v0] l' IH]; [by apply not_elem_of_nil in Hv|].
      apply NoDup_cons in Hd as [Hk0 Hd]. apply elem_of_cons in Hv, Hw.
      assert (∀ x, (k0, x) ∈ l' → False) as Hno by (intros x Hx; apply Hk0, list_elem_of_fmap; by exists (k0, x)).
      destruct Hv as [Hv|Hv], Hw as [Hw|Hw]; simplify_eq; [done|by apply Hno in Hw|by apply Hno in Hv|by apply IH].
    + apply own_None_notin in Hw. exfalso. apply Hw. apply list_elem_of_fmap. by exists (k, v).
  - apply own_None_notin in Hv. symmetry. apply own_None_notin. by rewrite <- Hp.
Qed.
Lemma own_own_order l k : NoDup l.*1 → own (own_order l) k = own l k.
Proof. intros Hd. symmetry. apply own_perm; [by rewrite own_order_Permutation|done]. Qed.
End Order.

Lemma map_insert_index {A B} (f : A → B) n e l :
  insert_index n (e.1, f e.2) (map (λ x, (x.1, (x.2.1, f x.2.2))) l)
  = map (λ x, (x.1, (x.2.1, f x.2.2))) (insert_index n e l).
Proof. induction l as [|[m e'] l IH]; cbn; [done|]. destruct (n <=? m)%N; [done|]. cbn. by rewrite IH. Qed.

(** The order depends on the keys only. *)
Lemma own_order_map {A B} (f : A → B) (l : list (jsstring * A)) :
  own_order (map (λ e, (e.1, f e.2)) l) = map (λ e, (e.1, f e.2)) (own_order l).
Proof.
  unfold own_order. rewrite map_app. f_equal.
  - transitivity (map snd (map (λ x, (x.1, (x.2.1, f x.2.2))) (index_entries l))); [|by rewrite !map_map].
    f_equal. induction l as [|e l IH]; cbn; [done|]. destruct (key_index e.1); [|done]. rewrite IH.
    apply map_insert_index.
  - unfold name_entries. induction l as [|e l IH]; cbn; [done|]. destruct (key_index e.1); [done|]. cbn. by rewrite IH.
Qed.

(** [obj[key] = value], of an object literal: the key [__proto__] names the
    prototype, which only an object or null replaces. *)
Definition set_key {A} (l : list (jsstring * A)) (k : jsstring) (v : A) : list (jsstring * A) :=
  if k =s js "__proto__" then l else map_set l k v.

(** ** JSON.stringify(value, null, space) *)

(** The entries with a value other than undefined. *)
Fixpoint defined_entries {A} (l : list (jsstring * option A)) : list (jsstring * A) :=
  match l with
  | [] => []
  | (k, Some v) :: l => (k, v) :: defined_entries l
  | (_, None) :: l => defined_entries l
  end.
Definition is_undefined (v : jsval) : bool := match v with VUndefined => true | _ => false end.

Section Print.
Context (space : nat).

(** A new line indented by [n], and what separates a key from its value; no
    white space when [space] is zero. *)
Definition line_break (n : nat) : jsstring :=
  match space with O => [] | _ => 10%N :: replicate n 32%N end.
Definition colon : jsstring := match space with O => [58%N] | _ => [58; 32]%N end.

(** The items of a level, one per line. *)
Definition json_block (left right : code_unit) (n : nat) (items : list jsstring) : jsstring :=
  match items with
  | [] => [left; right]
  | _ => left :: line_break (n + space) ++ join (44%N :: line_break (n + space)) items ++ line_break n ++ [right]
  end.

Fixpoint json_print (n : nat) (v : jsval) : jsstring :=
  match v with
  | VUndefined | VNull => js "null"
  | VBoolean b => if b then js "true" else js "false"
  | VNumber x => if is_finite x then num_to_string x else js "null"
  | VString s => json_stringify s
  | VArray items => json_block 91 93 n (map (json_print (n + space)) items)
  | VObject entries =>
      json_block 123 125 n
        (map (λ e, json_stringify e.1 ++ colon ++ e.2)
           (own_order (defined_entries
              (map (λ '(k, v), (k, if is_undefined v then None else Some (json_print (n + space) v))) entries))))
  end.
End Print.

(** [JSON.stringify(value, null, 2)] from level [n], and [JSON.stringify(value)]. *)
Abbreviation json_pretty n v := (json_print 2 n v).
Definition json_text (v : jsval) : jsstring := json_print 0 0 v.

(** ** Reading a document back *)

(** What may follow a number: nothing that would continue it. *)
Definition continues (c : code_unit) : bool := is_digit c || existsb (N.eqb c) [46; 101; 69]%N.
Definition ends (r : jsstring) : Prop := stops continues r.

Lemma ends_stops p r : (∀ c, p c = true → continues c = true) → ends r → stops p r.
Proof. destruct r as [|c r]; [done|]. unfold ends. cbn. intros Hp Hc. destruct (p c) eqn:E; [|done]. by rewrite (Hp c E) in Hc. Qed.

Lemma ends_break space n c r : continues c = false → ends (line_break space n ++ c :: r).
Proof. by destruct space. Qed.

Lemma skip_break space n s : json_skip (line_break space n ++ s) = json_skip s.
Proof.
  unfold line_break. destruct space; [done|]. change (json_skip (replicate n 32%N ++ s) = json_skip s).
  induction n as [|n IH]; [done|]. exact IH.
Qed.

Lemma map_set_new {A} (l : list (jsstring * A)) k v : k ∉ l.*1 → map_set l k v = l ++ [(k, v)].
Proof.
  induction l as [|[k' v'] l IH]; cbn; [done|]. intros [Hk Hl]%not_elem_of_cons.
  rewrite (proj2 (str_eqb_neq k' k)) by done. by rewrite IH.
Qed.

(** The loops of [json_value] over the items of an array and the entries of an
    object, for any reader of values. *)
Section Loops.
Context (read : jsstring → option (jsval * jsstring)).

Fixpoint items_loop (n : nat) (s : jsstring) (acc : list jsval) : option (jsval * jsstring) :=
  match n with
  | O => None
  | S n =>
      '(v, r) ← read s;
      match json_skip r with
      | 44%N :: r => items_loop n r (acc ++ [v])
      | 93%N :: r => Some (VArray (acc ++ [v]), r)
      | _ => None
      end
  end.

Fixpoint entries_loop (n : nat) (s : jsstring) (acc : list (jsstring * jsval)) : option (jsval * jsstring) :=
  match n with
  | O => None
  | S n =>
      match json_skip s with
      | 34%N :: r =>
          '(key, r) ← json_string r [];
          match json_skip r with
          | 58%N :: r =>
              '(v, r) ← read r;
              match json_skip r with
              | 44%N :: r => entries_loop n r (map_set acc key v)
              | 125%N :: r => Some (VObject (map_set acc key v), r)
              | _ => None
              end
          | _ => None
          end
      | _ => None
      end
  end.

Context (space : nat) (Hskip : ∀ s s', json_skip s = json_skip s' → read s = read s').
#[local] Set Default Proof Using "All".

Lemma read_break n s : read (line_break space n ++ s) = read s.
Proof. apply Hskip, skip_break. Qed.

(** Texts that [read] reads, whatever follows them. *)
Definition reads (p : jsstring * jsval) : Prop := ∀ r, ends r → read (p.1 ++ r) = Some (p.2, r).

Lemma items_loop_reads k k' ts : ∀ m r acc,
  Forall reads ts → ts ≠ [] → length ts ≤ m →
  items_loop m (line_break space k ++ join (44%N :: line_break space k) (map fst ts) ++ line_break space k' ++ 93%N :: r) acc
  = Some (VArray (acc ++ map snd ts), r).
Proof.
  induction ts as [|t ts IH]; intros m r acc Hts Hne Hm; [done|]. apply Forall_cons in Hts as [Ht Hts].
  destruct m as [|m]; [cbn in Hm; lia|]. cbn [items_loop]. rewrite read_break.
  destruct ts as [|t2 ts].
  - cbn [map join]. rewrite Ht by (by apply ends_break). cbn [mbind option_bind]. rewrite skip_break. done.
  - cbn [map]. change (join ?sep (t.1 :: ?x :: ?l)) with (t.1 ++ sep ++ join sep (x :: l)).
    rewrite <- !app_assoc, Ht by done. cbn [mbind option_bind]. change (json_skip ((44%N :: ?x) ++ ?y)) with (44%N :: x ++ y).
    cbv iota. change (t2.1 :: map fst ts) with (map fst (t2 :: ts)). rewrite IH by (done || (cbn in *; lia)).
    by rewrite <- app_assoc.
Qed.

Definition entry_text (p : jsstring * (jsstring * jsval)) : jsstring := json_stringify p.1 ++ colon space ++ p.2.1.

Lemma read_colon t : ∃ gap, colon space ++ t = 58%N :: gap ++ t ∧ read (gap ++ t) = read t.
Proof. destruct space; [by exists []|]. exists [32%N]. split; [done|]. by apply Hskip. Qed.

Lemma entries_loop_reads k k' ts : ∀ m r acc,
  Forall (λ e, code_units e.1 ∧ reads e.2) ts → NoDup (acc.*1 ++ ts.*1) → ts ≠ [] → length ts ≤ m →
  entries_loop m (line_break space k ++ join (44%N :: line_break space k) (map entry_text ts) ++ line_break space k' ++ 125%N :: r) acc
  = Some (VObject (acc ++ map (λ e, (e.1, e.2.2)) ts), r).
Proof.
  induction ts as [|t ts IH]; intros m r acc Hts Hd Hne Hm; [done|]. apply Forall_cons in Hts as [[Hk Ht] Hts].
  destruct m as [|m]; [cbn in Hm; lia|]. cbn [entries_loop]. rewrite skip_break.
  assert (t.1 ∉ acc.*1) as Hnew.
  { apply NoDup_app in Hd as (_ & Hdis & _). intros Hin. apply (Hdis _ Hin). cbn. set_solver. }
  set (rest := line_break space k' ++ 125%N :: r).
  set (w := match ts with [] => [] | _ => 44%N :: line_break space k ++ join (44%N :: line_break space k) (map entry_text ts) end
            ++ rest).
  assert (ends w) as Hw by (unfold w; destruct ts; [by apply ends_break|done]).
  assert (join (44%N :: line_break space k) (map entry_text (t :: ts)) ++ rest
          = 34%N :: quote_units t.1 ++ 34%N :: colon space ++ t.2.1 ++ w) as ->.
  { unfold w. destruct ts as [|t2 ts]; cbn [map];
      [cbn [join]|change (join ?sep (entry_text t :: ?x :: ?l)) with (entry_text t ++ sep ++ join sep (x :: l))];
      unfold entry_text, json_stringify; rewrite <- !app_assoc; cbn [app]; rewrite <- ?app_assoc; done. }
  change (json_skip (34%N :: ?x)) with (34%N :: x). cbv iota.
  rewrite json_string_quote_units by done. cbn [mbind option_bind app].
  destruct (read_colon (t.2.1 ++ w)) as (gap & -> & Hgap).
  change (json_skip (58%N :: ?x)) with (58%N :: x). cbv iota. rewrite Hgap, Ht by done. cbn [mbind option_bind].
  rewrite map_set_new by done. unfold w, rest. destruct ts as [|t2 ts].
  - cbn [app]. rewrite skip_break. done.
  - cbn [app]. change (json_skip (44%N :: ?x)) with (44%N :: x). cbv iota. rewrite <- app_assoc.
    rewrite IH; [by rewrite <- app_assoc|done| |done|cbn in *; lia].
    rewrite fmap_app, <- app_assoc. exact Hd.
Qed.
End Loops.

Lemma json_value_step fuel s :
  json_value (S fuel) s =
  match json_skip s with
  | [] => None
  | c :: r =>
      if (c =? 34)%N then '(t, r) ← json_string r []; Some (VString t, r)
      else if (c =? 91)%N then
        match json_skip r with 93%N :: r => Some (VArray [], r) | _ => items_loop (json_value fuel) fuel r [] end
      else if (c =? 123)%N then
        match json_skip r with 125%N :: r => Some (VObject [], r) | _ => entries_loop (json_value fuel) fuel r [] end
      else
        match json_word (c :: r) with
        | Some p => Some p
        | None => '(n, r) ← json_number (c :: r); Some (VNumber n, r)
        end
  end.
Proof. reflexivity. Qed.

Lemma json_value_skip fuel s s' : json_skip s = json_skip s' → json_value fuel s = json_value fuel s'.
Proof. intros Hs. destruct fuel as [|fuel]; [done|]. by rewrite !json_value_step, Hs. Qed.

(** Values without undefined, whose numbers are finite and not the negative
    zero, whose strings are code units and whose objects have distinct keys. *)
Inductive document : jsval → Prop :=
  | document_null : document VNull
  | document_boolean b : document (VBoolean b)
  | document_number x : valid_binary prec emax x = true → is_finite x = true → x ≠ neg_zero → document (VNumber x)
  | document_string s : code_units s → document (VString s)
  | document_array l : Forall document l → document (VArray l)
  | document_object l :
      NoDup l.*1 → Forall (λ e, code_units e.1) l → Forall (λ e, document e.2) l → document (VObject l).

(** *** Numbers *)

Lemma dec_value_bound ds : forallb is_digit ds = true → (dec_value ds < 10 ^ N.of_nat (length ds))%N.
Proof.
  induction ds as [|d ds IH]; [done|]. cbn [forallb]. intros [Hd Hds]%andb_true_iff.
  change (d :: ds) with ([d] ++ ds). rewrite dec_value_app, length_app. specialize (IH Hds).
  unfold is_digit in Hd. apply andb_true_iff in Hd as [Hl%N.leb_le Hh%N.leb_le].
  change (dec_value [d]) with (0 * 10 + (d - 48))%N. cbn [length]. rewrite Nat.add_1_l, Nat2N.inj_succ, N.pow_succ_r'. nia.
Qed.

(** The first digit is not zero. *)
Lemma digits_lead M ds : digits_of M ds → (0 < M)%N → head ds ≠ Some 48%N.
Proof.
  intros [Hd Hv Hlo _ Hne] HM. destruct ds as [|d ds]; [done|]. intros [= ->].
  cbn [forallb] in Hd. apply andb_true_iff in Hd as [_ Hd]. pose proof (dec_value_bound ds Hd) as Hb.
  change (48%N :: ds) with ([48%N] ++ ds) in Hv, Hlo. rewrite dec_value_app in Hv. change (dec_value [48%N]) with 0%N in Hv.
  rewrite length_app in Hlo. cbn [length] in Hlo. replace (N.of_nat (1 + length ds) - 1)%N with (N.of_nat (length ds)) in Hlo by lia.
  lia.
Qed.

(** The parts of a number text: no leading zero, digits on both sides of a
    point, an exponent. *)
Definition fraction_text (fp : jsstring) : jsstring := match fp with [] => [] | _ => 46%N :: fp end.
Definition no_leading_zero (ip : jsstring) : Prop := ip ≠ [] ∧ (ip = [48%N] ∨ head ip ≠ Some 48%N).
Definition exponent_part (ex : jsstring) : Prop := ex = [] ∨ ∃ x, ex = exponent_text x.

Lemma format_shape ds n :
  forallb is_digit ds = true → ds ≠ [] → head ds ≠ Some 48%N →
  ∃ ip fp ex, format_decimal ds n = ip ++ fraction_text fp ++ ex ∧ forallb is_digit ip = true ∧
    forallb is_digit fp = true ∧ no_leading_zero ip ∧ exponent_part ex.
Proof.
  intros Hd Hne Hh. unfold format_decimal. destruct (_ && _) eqn:E1; [|destruct ((0 <? n)%Z && _) eqn:E2; [|destruct ((-6 <? n)%Z && _) eqn:E3]].
  - exists (ds ++ replicate (Z.to_nat (n - Z.of_nat (length ds))) 48%N), [], []. split_and!;
      [by rewrite app_nil_r|by rewrite forallb_app, Hd, digits_zeros|done| |by left].
    split; [by destruct ds|right; by destruct ds].
  - apply andb_true_iff in E2 as [E2%Z.ltb_lt E2'%Z.leb_le]. apply andb_false_iff in E1.
    destruct (digits_take_drop (Z.to_nat n) ds Hd) as [Ht Hdr].
    exists (take (Z.to_nat n) ds), (drop (Z.to_nat n) ds), []. split_and!; [|done|done| |by left].
    + rewrite app_nil_r. destruct (drop (Z.to_nat n) ds) eqn:Edr; [|done]. apply nil_length_inv in Edr || idtac.
      apply (f_equal length) in Edr. rewrite length_drop in Edr. cbn in Edr. destruct E1 as [?%Z.leb_gt|?%Z.leb_gt]; lia.
    + destruct (Z.to_nat n) eqn:En; [lia|]. destruct ds; [done|]. split; [done|by right].
  - exists [48%N], (replicate (Z.to_nat (- n)) 48%N ++ ds), []. split_and!; [|done|by rewrite forallb_app, digits_zeros, Hd|split; [done|by left]|by left].
    rewrite app_nil_r. unfold fraction_text. by destruct (Z.to_nat (- n)), ds.
  - destruct ds as [|d ds]; [done|]. cbn in Hd. apply andb_true_iff in Hd as [Hd1 Hd].
    exists [d], ds, (exponent_text (n - 1)). split_and!; [|by cbn; rewrite Hd1|done|split; [done|by right]|right; by eexists].
    by destruct ds.
Qed.

Lemma ends_digit r : ends r → stops is_digit r.
Proof. apply ends_stops. intros c Hc. unfold continues. by rewrite Hc. Qed.

Lemma scan_exponent_part ex : exponent_part ex →
  (∃ x, ∀ r, ends r → scan_exponent (ex ++ r) = (x, r)) ∧
  ∀ r, ends r → stops is_digit (ex ++ r) ∧ stops (N.eqb 46) (ex ++ r).
Proof.
  intros [->|[x ->]]; [split|rewrite exponent_text_spec; split].
  - exists 0%Z. intros [|c r] Hr; [done|]. cbn [app scan_exponent].
    destruct ((c =? 101)%N || (c =? 69)%N) eqn:E; [|done]. exfalso. unfold ends in Hr.
    apply orb_true_iff in E as [->%N.eqb_eq| ->%N.eqb_eq]; done.
  - intros r Hr. split; [by apply ends_digit|]. revert Hr. apply ends_stops. by intros c <-%N.eqb_eq.
  - exists x. intros r Hr. destruct (dec_string_spec (Z.to_N (Z.abs x))) as (Hd & Hv & Hne).
    cbn [app scan_exponent]. change ((101 =? 101) || (101 =? 69))%N with true. cbn match.
    pose proof (span_stops is_digit (dec_string (Z.to_N (Z.abs x))) r Hd (ends_digit r Hr)) as Hsp.
    destruct (x <? 0)%Z eqn:E; cbn [app scan_sign];
      [change ((45 =? 45)%N) with true|change ((43 =? 45)%N) with false; change ((43 =? 43)%N) with true];
      cbn match; rewrite Hsp; (destruct (dec_string _) eqn:Es; [done|]); rewrite Hv;
      [apply Z.ltb_lt in E|apply Z.ltb_ge in E]; f_equal; lia.
  - intros r Hr. by destruct (x <? 0)%Z.
Qed.

Lemma scan_mantissa_parts ip fp r :
  forallb is_digit ip = true → forallb is_digit fp = true → ip ≠ [] → stops is_digit r → stops (N.eqb 46) r →
  scan_mantissa (ip ++ fraction_text fp ++ r) = Some (ip, fp, r).
Proof.
  intros Hi Hf Hne Hr Hp. destruct fp as [|d fp].
  - apply scan_mantissa_integer; [done..|]. destruct r as [|c r]; [done|]. cbn in *. by rewrite N.eqb_sym.
  - cbn [fraction_text]. rewrite <- app_comm_cons. by apply scan_mantissa_point.
Qed.

Lemma digits_no_sign ip r : forallb is_digit ip = true → ip ≠ [] →
  ∃ c t, ip ++ r = c :: t ∧ is_digit c = true ∧ (c =? 45)%N = false.
Proof.
  intros Hi Hne. destruct ip as [|c ip]; [done|]. cbn in Hi. apply andb_true_iff in Hi as [Hc _].
  exists c, (ip ++ r). split_and!; [done..|]. by destruct (N.eqb_spec c 45) as [->|].
Qed.

(** Reading the text of a positive number in JSON. *)
Lemma json_number_unsigned ip fp ex r :
  forallb is_digit ip = true → forallb is_digit fp = true → no_leading_zero ip → exponent_part ex → ends r →
  ∃ v, scan_decimal (ip ++ fraction_text fp ++ ex) = Some (v, []) ∧
    json_number (ip ++ fraction_text fp ++ ex ++ r) = Some (v, r) ∧
    json_number (45%N :: ip ++ fraction_text fp ++ ex ++ r) = Some (num_neg v, r).
Proof.
  intros Hi Hf [Hne Hz] Hex Hr. destruct (scan_exponent_part ex Hex) as [[x Hx] Hstop].
  exists (of_decimal (dec_value (ip ++ fp)) (x - Z.of_nat (length fp))).
  assert (∀ r, ends r → scan_mantissa (ip ++ fraction_text fp ++ ex ++ r) = Some (ip, fp, ex ++ r)) as Hm.
  { intros r' Hr'. destruct (Hstop r' Hr'). by apply scan_mantissa_parts. }
  pose proof (Hm [] I) as Hm0. rewrite app_nil_r in Hm0. pose proof (Hx [] I) as Hx0. rewrite app_nil_r in Hx0.
  split; [unfold scan_decimal; by rewrite Hm0, Hx0|].
  assert (((ip =s []) || (starts_with (js "0") ip && negb (ip =s js "0"))
           || (negb (length (ip ++ fraction_text fp ++ ex ++ r) =? length ip + length (ex ++ r)) && (fp =s []))) = false) as Hok.
  { rewrite !orb_false_iff. split_and!.
    - by apply str_eqb_neq.
    - destruct Hz as [->|Hz]; [done|]. destruct ip as [|c ip]; [done|]. cbn [starts_with].
      change (js "0") with [48%N]. cbn [starts_with]. destruct (N.eqb_spec 48 c) as [<-|]; [done|].
      by destruct (starts_with [] ip).
    - destruct fp; [|by rewrite andb_comm]. cbn [fraction_text app]. rewrite length_app, Nat.eqb_refl. done. }
  split.
  - destruct (digits_no_sign ip (fraction_text fp ++ ex ++ r) Hi Hne) as (c & t & Hct & _ & Hc).
    unfold json_number. rewrite Hct, Hc, <- Hct, (Hm r Hr). cbn [fst snd]. rewrite Hok, (Hx r Hr). done.
  - unfold json_number. change (45 =? 45)%N with true. cbv iota. rewrite (Hm r Hr). cbn [fst snd]. rewrite Hok, (Hx r Hr). done.
Qed.

Lemma json_number_text x r :
  valid_binary prec emax x = true → is_finite x = true → x ≠ neg_zero → ends r →
  json_number (num_to_string x ++ r) = Some (x, r).
Proof.
  intros Hv Hfin Hz Hr. destruct x as [[]|[]| |s m e]; try done.
  - assert (ex_ends : ends r) by done. destruct (json_number_unsigned [48%N] [] [] r) as (v & Hs & Hj & _); try done; [split; [done|by left]|by left|].
    change (num_to_string (S754_zero false)) with [48%N]. cbn [app fraction_text] in *. rewrite Hj. vm_compute in Hs. congruence.
  - cbn in Hv. destruct (shortest_spec m e Hv) as [HM Hof]. cbn [num_to_string]. destruct (number_text m e Hv) as (_ & _ & Ht).
    cbn [num_to_string] in Ht. destruct (shortest m e) as [M E]. cbn [fst snd app] in *.
    pose proof (dec_string_digits M HM) as Hds. pose proof (digits_lead _ _ Hds HM) as Hh. destruct Hds as [Hd _ _ _ Hne].
    destruct (format_shape (dec_string M) (E + Z.of_nat (length (dec_string M))) Hd Hne Hh) as (ip & fp & ex & Heq & Hi & Hf & Hl & Hex).
    rewrite Heq in *. destruct (json_number_unsigned ip fp ex r Hi Hf Hl Hex Hr) as (v & Hs & Hp & Hn).
    rewrite Ht in Hs. injection Hs as <-. destruct s; cbn [app]; rewrite <- !app_assoc; [exact Hn|exact Hp].
Qed.

(** The first character of a number text. *)
Lemma number_text_head x : valid_binary prec emax x = true → is_finite x = true →
  ∃ c t, num_to_string x = c :: t ∧ (is_digit c = true ∨ c = 45%N).
Proof.
  intros Hv Hfin. destruct x as [[]|[]| |s m e]; try done; [eexists _, _; split; [done|by left]..|].
  cbn [num_to_string]. destruct (shortest m e) as [M E] eqn:Es. destruct s; [eexists _, _; split; [done|by right]|].
  cbn in Hv. destruct (number_text m e Hv) as (_ & Hs & Ht). cbn [num_to_string] in *. rewrite Es in *. cbn [app] in *.
  destruct (format_decimal _ _) as [|c t]; [done|]. exists c, t. split; [done|left]. by apply negb_false_iff in Hs.
Qed.

(** What is read back: every object lists its keys in the order of
    enumeration. *)
Fixpoint enumerated (v : jsval) : jsval :=
  match v with
  | VArray l => VArray (map enumerated l)
  | VObject l => VObject (own_order (map (λ '(k, v), (k, enumerated v)) l))
  | _ => v
  end.

Lemma join_part_length sep (l : list jsstring) t : t ∈ l → length t ≤ length (join sep l).
Proof.
  induction l as [|a l IH]; [by intros ?%not_elem_of_nil|]. destruct l as [|b l].
  - intros ->%list_elem_of_singleton. done.
  - change (join sep (a :: b :: l)) with (a ++ sep ++ join sep (b :: l)). rewrite !length_app.
    intros [->|Ht]%elem_of_cons; [lia|]. specialize (IH Ht). lia.
Qed.
Lemma join_count sep (l : list jsstring) : sep ≠ [] → length l ≤ S (length (join sep l)).
Proof.
  intros Hs. induction l as [|a l IH]; [cbn; lia|]. destruct l as [|b l]; [cbn; lia|].
  change (join sep (a :: b :: l)) with (a ++ sep ++ join sep (b :: l)). rewrite !length_app.
  destruct sep; [done|]. cbn [length] in *. lia.
Qed.
Lemma match_93 {A} (s : jsstring) (x : jsstring → A) (y : A) :
  head s ≠ Some 93%N → match s with 93%N :: r => x r | _ => y end = y.
Proof. destruct s as [|c s]; [done|]. intros H. destruct c as [|p]; [done|]. do 7 (destruct p as [p|p|]; try done). Qed.
Lemma match_125 {A} (s : jsstring) (x : jsstring → A) (y : A) :
  head s ≠ Some 125%N → match s with 125%N :: r => x r | _ => y end = y.
Proof. destruct s as [|c s]; [done|]. intros H. destruct c as [|p]; [done|]. do 7 (destruct p as [p|p|]; try done). Qed.

Section Reading.
Context (space : nat).
#[local] Set Default Proof Using "Type".

Definition document_texts (n : nat) (l : list jsval) : list (jsstring * jsval) :=
  map (λ v, (json_print space n v, enumerated v)) l.
Definition entry_texts (n : nat) (l : list (jsstring * jsval)) : list (jsstring * (jsstring * jsval)) :=
  own_order (map (λ e, (e.1, (json_print space n e.2, enumerated e.2))) l).

Lemma json_print_array n l :
  json_print space n (VArray l) = json_block space 91 93 n (map fst (document_texts (n + space) l)).
Proof. unfold document_texts. cbn [json_print]. by rewrite map_map. Qed.

Lemma json_print_object n l :
  Forall (λ e, document e.2) l →
  json_print space n (VObject l) = json_block space 123 125 n (map (entry_text space) (entry_texts (n + space) l)).
Proof.
  intros Hl. cbn [json_print]. f_equal. unfold entry_texts, entry_text.
  assert (defined_entries (map (λ '(k, v), (k, if is_undefined v then None else Some (json_print space (n + space) v))) l)
          = map (λ e, (e.1, json_print space (n + space) e.2)) l) as ->.
  { induction Hl as [|[k v] l Hv _ IH]; [done|]. cbn. cbn in Hv. rewrite IH. by destruct Hv. }
  by rewrite (own_order_map (json_print space (n + space)) l),
    (own_order_map (λ v, (json_print space (n + space) v, enumerated v)) l), !map_map.
Qed.

Lemma enumerated_object n l :
  enumerated (VObject l) = VObject (map (λ e, (e.1, e.2.2)) (entry_texts n l)).
Proof.
  cbn [enumerated]. f_equal. unfold entry_texts.
  rewrite (own_order_map (λ v, (json_print space n v, enumerated v)) l), map_map. cbn.
  rewrite <- (own_order_map enumerated l). f_equal. apply map_ext. by intros [].
Qed.

Lemma block_lengths a b n (l : list jsstring) :
  length l < length (json_block space a b n l) ∧ ∀ t, t ∈ l → length t < length (json_block space a b n l).
Proof.
  destruct l as [|x l]; [split; [cbn; lia|by intros t ?%not_elem_of_nil]|]. unfold json_block.
  set (sep := 44%N :: line_break space (n + space)). pose proof (join_count sep (x :: l)) as Hc.
  assert (∀ t, t ∈ x :: l → length t ≤ length (join sep (x :: l))) as Ht by (intros t; apply join_part_length).
  remember (join sep (x :: l)) as body. cbn [length]. rewrite !length_app. cbn [length] in *.
  split; [|intros t Hin; specialize (Ht t Hin); lia]. specialize (Hc ltac:(done)). lia.
Qed.

(** A text that opens a value. *)
Definition opens (s : jsstring) : Prop :=
  ∃ c t, s = c :: t ∧ is_json_space c = false ∧ c ≠ 93%N ∧ c ≠ 125%N.

Lemma opens_block a b n l : is_json_space a = false → a ≠ 93%N → a ≠ 125%N → opens (json_block space a b n l).
Proof. intros. unfold json_block. destruct l; by eexists _, _. Qed.
Lemma document_opens n v : document v → opens (json_print space n v).
Proof.
  destruct 1 as [|[]|x Hx Hf Hz|s Hs|l Hl|l Hd Hk Hl]; try (by eexists _, _); try by apply opens_block.
  cbn [json_print]. rewrite Hf. destruct (number_text_head x Hx Hf) as (c & t & -> & Hc).
  exists c, t. split; [done|]. destruct Hc as [Hc| ->]; [|done]. clear -Hc.
  split_and!; [|by intros ->..]. destruct (is_json_space c) eqn:E; [|done]. exfalso. unfold is_json_space in E.
  repeat (apply orb_true_iff in E as [E|E]); try (apply N.eqb_eq in E; by subst); done.
Qed.
Lemma opens_skip n sep l s : (∃ t l', l = t :: l' ∧ opens t) →
  head (json_skip (line_break space n ++ join sep l ++ s)) ≠ Some 93%N ∧
  head (json_skip (line_break space n ++ join sep l ++ s)) ≠ Some 125%N.
Proof.
  intros (t & l' & -> & (c & u & -> & Hc & H93 & H125)). rewrite skip_break.
  assert (∃ w, join sep ((c :: u) :: l') ++ s = c :: w) as (w & ->).
  { destruct l' as [|b l']; [by eexists|]. change (join sep (?x :: b :: l')) with (x ++ sep ++ join sep (b :: l')).
    by eexists. }
  cbn. rewrite Hc. cbn. split; congruence.
Qed.

Lemma json_value_number fuel x r : document (VNumber x) → ends r →
  json_value (S fuel) (num_to_string x ++ r) = Some (VNumber x, r).
Proof using space.
  intros Hx Hr. inversion Hx as [| |? Hv Hf Hz| | |]; subst. pose proof (json_number_text x r Hv Hf Hz Hr) as Hn.
  destruct (document_opens 0 _ Hx) as (c & t & Hct & Hsp & _). cbn [json_print] in Hct. rewrite Hf in Hct.
  destruct (number_text_head x Hv Hf) as (c' & t' & Hct' & Hc). rewrite Hct in Hct'. injection Hct' as <- <-.
  rewrite Hct in *. rewrite json_value_step. cbn [app] in *. unfold json_skip. cbn [drop_while]. rewrite Hsp.
  assert (∃ k, k < 11 ∧ c = nth k [48; 49; 50; 51; 52; 53; 54; 55; 56; 57; 45]%N 0%N) as (k & Hk & ->).
  { destruct Hc as [Hc| ->]; [|exists 10; split; [lia|done]]. unfold is_digit in Hc. apply andb_true_iff in Hc as [Hl%N.leb_le Hh%N.leb_le].
    exists (N.to_nat (c - 48)). split; [lia|]. assert (∃ j, (j < 10)%nat ∧ c = (48 + N.of_nat j)%N) as (j & Hj & ->)
      by (exists (N.to_nat (c - 48)); lia). replace (N.to_nat _) with j by lia. do 10 (destruct j as [|j]; [done|]). lia. }
  clear -Hn Hk. do 11 (destruct k as [|k]; [cbn [nth] in *; by rewrite Hn|]). lia.
Qed.

Lemma json_value_print v : document v → ∀ n fuel r, ends r →
  length (json_print space n v) < fuel → json_value fuel (json_print space n v ++ r) = Some (enumerated v, r).
Proof.
  induction v as [| |b|x|s|l IH|l IH] using jsval_induction; intros Hv n fuel r Hr Hf;
    (destruct fuel as [|fuel]; [lia|]); [by inversion Hv|..].
  - reflexivity.
  - by destruct b.
  - inversion Hv as [| |? _ Hfin _| | |]; subst. cbn [json_print]. rewrite Hfin. by apply json_value_number.
  - inversion Hv as [| | |s' Hs| |]; subst.
    rewrite json_value_step. cbn [json_print]. unfold json_stringify. rewrite <- !app_assoc. cbn [app].
    change (json_skip (34%N :: ?x)) with (34%N :: x). cbv iota. change (34 =? 34)%N with true. cbv iota.
    by rewrite json_string_quote_units.
  - inversion Hv as [| | | |l' Hl|]; subst.
    rewrite json_print_array in *. destruct (block_lengths 91 93 n (map fst (document_texts (n + space) l))) as [Hc Ht].
    rewrite json_value_step. destruct l as [|v l]; [done|].
    set (ts := document_texts (n + space) (v :: l)) in *.
    assert (json_block space 91 93 n (map fst ts) ++ r = 91%N :: line_break space (n + space) ++
              join (44%N :: line_break space (n + space)) (map fst ts) ++ line_break space n ++ 93%N :: r) as ->.
    { change (json_block space 91 93 n (map fst ts)) with (91%N :: line_break space (n + space) ++
        join (44%N :: line_break space (n + space)) (map fst ts) ++ line_break space n ++ [93%N]).
      cbn [app]. by rewrite <- !app_assoc. }
    change (json_skip (91%N :: ?x)) with (91%N :: x). cbv iota. change (91 =? 34)%N with false.
    change (91 =? 91)%N with true. cbv iota.
    rewrite match_93; [|apply opens_skip; eexists _, _; split; [done|apply document_opens; by apply Forall_cons in Hl as [? _]]].
    assert (enumerated (VArray (v :: l)) = VArray ([] ++ map snd ts)) as ->
      by (unfold ts, document_texts; cbn [enumerated app]; by rewrite map_map).
    rewrite length_map in Hc. apply items_loop_reads; [apply json_value_skip| |done|lia].
    apply Forall_forall. intros t Hin. unfold ts, document_texts in Hin.
    apply list_elem_of_fmap in Hin as (w & -> & Hw). intros r' Hr'. rewrite Forall_forall in IH, Hl. cbn [fst snd].
    apply IH; [done|by apply Hl|done|].
    assert (json_print space (n + space) w ∈ map fst ts) as Hin'.
    { unfold ts, document_texts. rewrite map_map. apply list_elem_of_fmap. by exists w. }
    specialize (Ht _ Hin'). lia.
  - inversion Hv as [| | | | |l' Hd Hk Hl]; subst.
    rewrite (json_print_object n l Hl), (enumerated_object (n + space)) in *.
    set (ts := entry_texts (n + space) l) in *.
    destruct (block_lengths 123 125 n (map (entry_text space) ts)) as [Hc Ht]. rewrite length_map in Hc.
    assert (ts ≡ₚ map (λ e, (e.1, (json_print space (n + space) e.2, enumerated e.2))) l) as Hperm by apply own_order_Permutation.
    rewrite json_value_step. destruct ts as [|t ts'] eqn:Ets; [done|]. rewrite <- Ets in *.
    assert (json_block space 123 125 n (map (entry_text space) ts) ++ r = 123%N :: line_break space (n + space) ++
              join (44%N :: line_break space (n + space)) (map (entry_text space) ts) ++ line_break space n ++ 125%N :: r) as ->.
    { rewrite Ets. cbn [map json_block]. cbn [app]. by rewrite <- !app_assoc. }
    change (json_skip (123%N :: ?x)) with (123%N :: x). cbv iota. change (123 =? 34)%N with false.
    change (123 =? 91)%N with false. change (123 =? 123)%N with true. cbv iota.
    rewrite match_125; [|apply opens_skip; rewrite Ets; eexists _, _; split; [done|by eexists _, _]].
    change (map (λ e, (e.1, e.2.2)) ts) with ([] ++ map (λ e : jsstring * (jsstring * jsval), (e.1, e.2.2)) ts).
    apply entries_loop_reads; [apply json_value_skip| | |by rewrite Ets|lia].
    + apply Forall_forall. intros e He. pose proof He as He'. rewrite Hperm in He'.
      apply list_elem_of_fmap in He' as (w & -> & Hw). rewrite Forall_forall in IH, Hl, Hk. cbn [fst snd].
      split; [by apply Hk|]. intros r' Hr'. cbn [fst snd]. apply IH; [done|by apply Hl|done|].
      assert (entry_text space (w.1, (json_print space (n + space) w.2, enumerated w.2)) ∈ map (entry_text space) ts) as Hin
        by (apply list_elem_of_fmap; eexists; by split).
      specialize (Ht _ Hin).
      assert (∀ p, length p.2.1 ≤ length (entry_text space p)) as Hle by (intros p; unfold entry_text; rewrite !length_app; lia).
      specialize (Hle (w.1, (json_print space (n + space) w.2, enumerated w.2))). cbn [fst snd] in Hle. lia.
    + cbn [app fmap list_fmap]. rewrite Hperm, map_map. exact Hd.
Qed.

(** Parsing a written document gives it back, objects in enumeration order. *)
Lemma json_parse_print v : document v → json_parse (json_print space 0 v) = Ok (enumerated v).
Proof.
  intros Hv. unfold json_parse.
  pose proof (json_value_print v Hv 0 (S (length (json_print space 0 v))) [] I ltac:(lia)) as H.
  rewrite app_nil_r in H. by rewrite H.
Qed.
End Reading.

(** *** Reading, then writing, gives the same text *)

Lemma enumerated_idemp v : enumerated (enumerated v) = enumerated v.
Proof.
  induction v as [| |b|x|s|l IH|l IH] using jsval_induction; try done; cbn [enumerated]; f_equal.
  - rewrite map_map. apply map_ext_in. intros v Hv. rewrite Forall_forall in IH. by apply IH, list_elem_of_In.
  - assert (∀ l : list (jsstring * jsval), map (λ '(k, v), (k, enumerated v)) l = map (λ e, (e.1, enumerated e.2)) l) as E
      by (intros; apply map_ext; by intros []).
    rewrite !E, own_order_map, own_order_idemp, own_order_map, map_map.
    apply map_ext_in. intros [k v] Hv%list_elem_of_In. rewrite own_order_Permutation in Hv. cbn. f_equal.
    rewrite Forall_forall in IH. by apply (IH (k, v)).
Qed.

Lemma enumerated_document v : document v →
  document (enumerated v) ∧ ∀ space n, json_print space n (enumerated v) = json_print space n v.
Proof.
  induction v as [| |b|x|s|l IH|l IH] using jsval_induction; intros Hv; try done; rewrite Forall_forall in IH.
  - inversion Hv as [| | | |l' Hl|]; subst. rewrite Forall_forall in Hl. split.
    + cbn [enumerated]. constructor. apply Forall_forall. intros v Hin. apply list_elem_of_fmap in Hin as (w & -> & Hw).
      by apply IH, Hl.
    + intros space n. cbn [enumerated]. rewrite !json_print_array. f_equal. unfold document_texts. rewrite !map_map.
      apply map_ext_in. intros v Hin%list_elem_of_In. cbn. by apply IH, Hl.
  - inversion Hv as [| | | | |l' Hd Hk Hl]; subst.
    assert (∀ l : list (jsstring * jsval), map (λ '(k, v), (k, enumerated v)) l = map (λ e, (e.1, enumerated e.2)) l) as E
      by (intros; apply map_ext; by intros []).
    cbn [enumerated]. rewrite E. set (l2 := own_order (map (λ e, (e.1, enumerated e.2)) l)).
    assert (l2 ≡ₚ map (λ e, (e.1, enumerated e.2)) l) as Hp by apply own_order_Permutation.
    rewrite Forall_forall in Hl, Hk.
    assert (document (VObject l2)) as Hdoc.
    { constructor.
      - rewrite Hp, map_map. exact Hd.
      - rewrite Hp. apply Forall_forall. intros e (w & -> & Hw)%list_elem_of_fmap. cbn. by apply Hk.
      - rewrite Hp. apply Forall_forall. intros e (w & -> & Hw)%list_elem_of_fmap. cbn. apply (IH w); [done|by apply Hl]. }
    split; [exact Hdoc|]. intros space n. inversion Hdoc as [| | | | |? _ _ Hl2]; subst.
    rewrite (json_print_object space n l2 Hl2), json_print_object by (by apply Forall_forall). f_equal. f_equal.
    unfold entry_texts, l2. idtac.
    set (f := λ v, (json_print space (n + space) v, enumerated v)).
    transitivity (own_order (map (λ e, (e.1, f (enumerated e.2))) l)).
    + change (map ?g (own_order ?x)) with (map (λ e, (e.1, f e.2)) (own_order x)).
      rewrite own_order_map, own_order_idemp, <- own_order_map, map_map. done.
    + f_equal. apply map_ext_in. intros e Hin%list_elem_of_In. unfold f. rewrite enumerated_idemp.
      destruct (IH e Hin (Hl e Hin)) as [_ ->]. done.
Qed.
