(* ===== verification/Script.v ===== *)
(** * Asynchronous functions as scripts

    An async function that calls the network, the clock, the browser and the
    storage is the tree of what it does: a call, and what follows each answer.
    It runs against an environment that answers in any way, and leaves the
    trace of its calls. Only what terminates is written so. *)

From S2P Require Import Prelude.

Section Scripts.
(** The calls, and what each is answered with. *)
Context {C : Type} (answer : C → Type).

Inductive prog (A : Type) :=
  | Ret (a : A)
  | Call (c : C) (k : answer c → prog A).
Arguments Ret {A} a.
Arguments Call {A} c k.

Fixpoint then_do {A B} (p : prog A) (f : A → prog B) : prog B :=
  match p with Ret a => f a | Call c k => Call c (λ x, then_do (k x) f) end.

Definition event : Type := { c : C & answer c }.
Definition happened (c : C) (x : answer c) : event := existT c x.

(** A run against an environment with a state. *)
Section Run.
Context {S : Type} (environment : ∀ c : C, S → answer c * S).

Fixpoint run {A} (p : prog A) (s : S) : list event * A * S :=
  match p with
  | Ret a => ([], a, s)
  | Call c k =>
      let '(x, s) := environment c s in
      let '(t, a, s) := run (k x) s in
      (happened c x :: t, a, s)
  end.
Definition trace_of {A} (p : prog A) (s : S) : list event := (run p s).1.1.
Definition result_of {A} (p : prog A) (s : S) : A := (run p s).1.2.
End Run.

(** Every run of [p] has a trace and a result that satisfy [P]. *)
Fixpoint meets {A} (p : prog A) (P : list event → A → Prop) : Prop :=
  match p with
  | Ret a => P [] a
  | Call c k => ∀ x, meets (k x) (λ t a, P (happened c x :: t) a)
  end.

Lemma meets_mono {A} (p : prog A) (P Q : list event → A → Prop) :
  meets p P → (∀ t a, P t a → Q t a) → meets p Q.
Proof.
  revert P Q. induction p as [a|c k IH]; intros P Q Hp HQ; cbn in *; [by apply HQ|].
  intros x. apply (IH x _ _ (Hp x)). intros t a. apply HQ.
Qed.

Lemma meets_then {A B} (p : prog A) (f : A → prog B) (P : list event → B → Prop) :
  meets p (λ t a, meets (f a) (λ u b, P (t ++ u) b)) → meets (then_do p f) P.
Proof.
  revert P. induction p as [a|c k IH]; intros P Hp; cbn in *; [exact Hp|].
  intros x. apply (IH x _ (Hp x)).
Qed.

(** What every run satisfies, the run against an environment does. *)
Lemma meets_run {S A} (environment : ∀ c : C, S → answer c * S) (p : prog A) s P :
  meets p P → P (trace_of environment p s) (result_of environment p s).
Proof.
  revert s P. unfold trace_of, result_of. induction p as [a|c k IH]; intros s P Hp; cbn in *; [exact Hp|].
  destruct (environment c s) as [x s1]. specialize (IH x s1 _ (Hp x)).
  by destruct (run environment (k x) s1) as [[t a] s2].
Qed.

(** What holds of every trace and result. *)
Lemma meets_any {A} (p : prog A) (P : list event → A → Prop) : (∀ t a, P t a) → meets p P.
Proof. revert P. induction p as [a|c k IH]; intros P HP; cbn; [by apply HP|]. intros x. apply IH. intros t a. apply HP. Qed.

(** Two conditions together. *)
Lemma meets_split {A} (p : prog A) (P Q : list event → A → Prop) :
  meets p P → meets p Q → meets p (λ t a, P t a ∧ Q t a).
Proof.
  revert P Q. induction p as [a|c k IH]; intros P Q HP HQ; cbn in *; [done|]. intros x. by apply IH.
Qed.

(** ** Exceptions *)

Section Exceptions.
Context {X : Type}.

Inductive outcome (A : Type) :=
  | Done (a : A)
  | Threw (e : X).
Arguments Done {A} a.
Arguments Threw {A} e.

Definition script (A : Type) : Type := prog (outcome A).
Definition done_with {A} (a : A) : script A := Ret (Done a).
Definition raise {A} (e : X) : script A := Ret (Threw e).
Definition perform (c : C) : script (answer c) := Call c done_with.
Definition after {A B} (p : script A) (f : A → script B) : script B :=
  then_do p (λ o, match o with Done a => f a | Threw e => raise e end).
(** [try { p } catch (e) { f(e) }] *)
Definition catch {A} (p : script A) (f : X → script A) : script A :=
  then_do p (λ o, match o with Done a => done_with a | Threw e => f e end).
Definition of_outcome {A} (o : outcome A) : script A := Ret o.

Lemma meets_after {A B} (p : script A) (f : A → script B) P :
  meets p (λ t o, match o with Done a => meets (f a) (λ u b, P (t ++ u) b) | Threw e => P t (Threw e) end) →
  meets (after p f) P.
Proof.
  intros Hp. apply meets_then. refine (meets_mono _ _ _ Hp _). intros t [a|e]; [done|]. cbn. by rewrite app_nil_r.
Qed.
Lemma meets_catch {A} (p : script A) (f : X → script A) P :
  meets p (λ t o, match o with Done a => P t (Done a) | Threw e => meets (f e) (λ u b, P (t ++ u) b) end) →
  meets (catch p f) P.
Proof.
  intros Hp. apply meets_then. refine (meets_mono _ _ _ Hp _). intros t [a|e]; [|done]. cbn. by rewrite app_nil_r.
Qed.
End Exceptions.

(** How often a call happens. *)
Definition count (f : event → bool) (t : list event) : nat := length (List.filter f t).
Lemma count_app f t u : count f (t ++ u) = count f t + count f u.
Proof. unfold count. by rewrite List.filter_app, length_app. Qed.
Lemma count_cons f e t : count f (e :: t) = (if f e then 1 else 0) + count f t.
Proof. unfold count. cbn. by destruct (f e). Qed.
End Scripts.

Arguments Ret {C answer A} a.
Arguments Call {C answer A} c k.
Arguments Done {X A} a.
Arguments Threw {X A} e.
Arguments run {C answer S} environment {A} p s.
Arguments meets {C answer A} p P.
Arguments happened {C answer} c x.
Arguments count {C answer} f t.

#[export] Instance script_ret {C} {answer : C → Type} {X} : MRet (script answer (X := X)) := λ A, done_with answer.
#[export] Instance script_bind {C} {answer : C → Type} {X} : MBind (script answer (X := X)) := λ A B f p, after answer p f.
