(* ===== verification/ServerError.v ===== *)
(** * lib/server-error-message.ts, secure-verification.ts, handle-server-error.ts

    What is shown of a failed request. An error is an object with a cause, a
    payload and a response, which are objects again and may be shared or cyclic,
    so values live in a heap and an error is a reference into it. *)

From stdpp Require Import gmap.
From S2P Require Import Prelude JsNumber JsText Types JsValue.

(** ** Values and objects *)

Inductive value :=
  | Undefined
  | Null
  | Boolean (b : bool)
  | Number (n : num)
  | Text (s : jsstring)
  | Object (l : nat).

(** The properties as they are read, inherited ones included; the symbol
    [safeServerErrorMessage]; [instanceof Error] and [AuthOperationError]; what
    [axios.isAxiosError] says, and [isCancel] of axios or [isCancelledError] of
    the query client. *)
Record object := mkObject {
  fields : list (jsstring * value);
  safe : bool;
  is_error : bool;
  is_auth_error : bool;
  axios_error : bool;
  cancelled : bool
}.
Abbreviation Heap := (gmap nat object).

Definition truthy_value (v : value) : bool :=
  match v with
  | Undefined | Null => false
  | Boolean b => b
  | Number n => negb (num_eqb n zero || is_nan n)
  | Text s => negb (s =s [])
  | Object _ => true
  end.

(** [isRecord]; a reference out of the heap does not occur. *)
Definition record_of (h : Heap) (v : value) : option (nat * object) :=
  match v with Object l => o ← h !! l; Some (l, o) | _ => None end.
Definition isRecord (h : Heap) (v : value) : bool := is_some (record_of h v).

Definition field (o : object) (key : jsstring) : value := default Undefined (own (fields o) key).
(** [v?.key] *)
Definition get (h : Heap) (v : value) (key : jsstring) : value :=
  match record_of h v with Some (_, o) => field o key | None => Undefined end.

(** ** Message keys *)

Definition serverErrorMessageKeys : list (jsstring * jsstring) :=
  [(js "TELEGRAM_OAUTH_NOT_CONFIGURED", js "Telegram OAuth is not configured or enabled. Please contact your administrator.");
   (js "TELEGRAM_OAUTH_CONFLICT", js "The telegram OAuth provider name is reserved. Ask your administrator to rename the conflicting custom provider.");
   (js "TELEGRAM_OAUTH_FAILED", js "Telegram authorization failed. Please try again.");
   (js "TELEGRAM_ACCOUNT_NOT_BOUND", js "This Telegram account is not linked. Sign in using another method and link it first.");
   (js "TELEGRAM_LEGACY_AUTH_REMOVED", js "Telegram login has changed. Reload the page and start Telegram OAuth again.");
   (js "AUTH_INTERNAL_ERROR", js "Please try again later.");
   (js "SECURITY_VERIFICATION_FAILED", js "Verification failed. Please try again.");
   (js "PASSKEY_RP_ID_UNAVAILABLE", js "This Passkey domain is not available on this website. Use its original website or another verification method.");
   (js "PASSKEY_RP_ID_INVALID", js "Invalid Passkey domain. Enter a domain without a scheme, port, path or wildcard.");
   (js "SECURITY_VERIFICATION_FLOW_REQUIRED", js "This verification method requires its dedicated verification flow.");
   (js "SECURITY_VERIFICATION_LOCKED", js "Two-factor authentication is temporarily locked.");
   (js "OAUTH_ACCOUNT_MISMATCH", js "The OAuth account does not match the account linked to your profile.");
   (js "TWOFA_CODE_INVALID", js "The authenticator code is incorrect.");
   (js "TWOFA_ALREADY_ENABLED", js "Two-factor authentication is already enabled.");
   (js "TWOFA_NOT_ENABLED", js "Two-factor authentication is not enabled.");
   (js "PASSKEY_NOT_FOUND", js "No Passkey is registered.");
   (js "AUTH_FLOW_INVALID", js "Verification flow expired");
   (js "SECURITY_PROOF_REQUIRED", js "Additional verification required");
   (js "SECURITY_PROOF_EXPIRED", js "Security verification has expired. Please verify again.");
   (js "SECURITY_PROOF_INVALID", js "Security verification is no longer valid. Please verify again.");
   (js "SECURITY_PROOF_SCOPE_MISMATCH", js "Verification does not match this action.");
   (js "SECURITY_PROOF_CONSUMED", js "This verification has already been used. Please verify again.");
   (js "SECURITY_PROOF_CONTEXT_MISMATCH", js "Verification does not match this action's details. Please verify again.");
   (js "SECURITY_CONTEXT_INVALID", js "The action details are invalid.");
   (js "SECURITY_ACTION_FORBIDDEN", js "You do not have permission to perform this action.");
   (js "SECURITY_PROOF_METHOD_MISMATCH", js "This verification method is not allowed for this action.");
   (js "SECURITY_METHOD_UNAVAILABLE", js "This verification method is currently unavailable.");
   (js "TWOFA_SETUP_INVALID", js "The two-factor setup has expired or changed. Start setup again.");
   (js "AUTH_SESSION_LIMIT", js "Too many active login sessions. On a device where you are already signed in, open Login sessions and use “Sign out other sessions” to revoke them. If you cannot access a signed-in device, reset your password to sign out all sessions.");
   (js "AUTH_SESSION_ISSUANCE_LIMIT", js "Too many login sessions were created recently. Please wait for the rolling window to pass, then try again.");
   (js "TELEGRAM_BIND_DISABLED", js "Telegram binding is disabled.");
   (js "TELEGRAM_BIND_INVALID_REQUEST", js "The Telegram authorization request is invalid or expired.");
   (js "TELEGRAM_BIND_FLOW_INVALID", js "This Telegram binding request has expired or has already been used.");
   (js "TELEGRAM_BIND_SESSION_INVALID", js "The login session that started this Telegram binding is no longer valid.");
   (js "TELEGRAM_BIND_ALREADY_BOUND", js "This Telegram account is already bound.");
   (js "TELEGRAM_BIND_USER_DELETED", js "This user account no longer exists.");
   (js "TELEGRAM_BIND_USER_DISABLED", js "This user account is disabled.");
   (js "TELEGRAM_BIND_INTERNAL_ERROR", js "Telegram binding failed. Please try again.")].

(** What the table gives for a code: a text, or a member of [Object.prototype]
    that the table inherits, a function or an object, by its name. *)
Inductive MessageKey := KeyText (text : jsstring) | KeyMember (name : jsstring).
Definition message_key (code : jsstring) : option MessageKey :=
  match own serverErrorMessageKeys code with
  | Some key => Some (KeyText key)
  | None => if str_in code inherited_properties then Some (KeyMember code) else None
  end.

(** ** Origins of an error *)

(** What a source adds to the values still to look at. *)
Definition origins (h : Heap) (o : object) : list value :=
  (if isRecord h (field o (js "response")) then [get h (field o (js "response")) (js "data")] else [])
  ++ [field o (js "cause"); field o (js "error")].

(** The loop over [pending], from the current index on. *)
Fixpoint walk (fuel : nat) (h : Heap) (pending : list value) (seen : gset nat) (sources : list nat)
    : option (list nat) :=
  match fuel with
  | O => None
  | S fuel =>
      match pending with
      | [] => Some sources
      | source :: pending =>
          match record_of h source with
          | None => walk fuel h pending seen sources
          | Some (l, o) =>
              if decide (l ∈ seen) then walk fuel h pending seen sources
              else walk fuel h (pending ++ origins h o) ({[l]} ∪ seen) (sources ++ [l])
          end
      end
  end.
Definition walk_fuel (h : Heap) : nat := 3 * size h + 2.
Definition getServerErrorSources (h : Heap) (v : value) : list nat :=
  default [] (walk (walk_fuel h) h [v] ∅ []).

(** The objects of the sources. *)
Definition source_objects (h : Heap) (v : value) : list object :=
  omap (λ l, h !! l) (getServerErrorSources h v).

Fixpoint key_of_sources (sources : list object) : option MessageKey :=
  match sources with
  | [] => None
  | o :: sources =>
      let rest := if safe o then None else key_of_sources sources in
      match field o (js "code") with
      | Text code => match message_key code with Some key => Some key | None => rest end
      | _ => rest
      end
  end.
Definition getServerErrorMessageKey (h : Heap) (v : value) : option MessageKey := key_of_sources (source_objects h v).

Definition source_status (h : Heap) (o : object) : value :=
  if isRecord h (field o (js "response")) then get h (field o (js "response")) (js "status")
  else field o (js "status").
Definition number_of (v : value) : option num := match v with Number n => Some n | _ => None end.
Definition getServerErrorStatus (h : Heap) (v : value) : option num :=
  head (omap (λ o, number_of (source_status h o)) (source_objects h v)).

Definition value_is (v : value) (s : jsstring) : bool := match v with Text t => t =s s | _ => false end.
Definition isServerErrorCancelled (h : Heap) (v : value) : bool :=
  existsb (λ o, cancelled o || value_is (field o (js "name")) (js "AbortError")) (source_objects h v).

(** ** Messages *)

(** Case-insensitive comparison with a lower-case ASCII prefix. *)
Definition lower (c : code_unit) : code_unit := (if (65 <=? c) && (c <=? 90) then c + 32 else c)%N.
Definition starts_like (prefix s : jsstring) : bool := starts_with prefix (map lower s).

(** [/^\s*(?:<!doctype|<html[\s>])/i]. *)
Definition html_document (s : jsstring) : bool :=
  let text := trim_start s in
  starts_like (js "<!doctype") text ||
  (starts_like (js "<html") text &&
   match drop 5 text with c :: _ => is_space c || (c =? 62)%N | [] => false end).

Definition messageText (v : value) : option jsstring :=
  match v with
  | Text s =>
      if (trim s =s []) || (trim s =s js "success") then None
      else if html_document s then None else Some s
  | _ => None
  end.

(** [a || b] on messages. *)
Definition or_else (a b : option jsstring) : option jsstring := match a with Some _ => a | None => b end.
Definition something_wrong : jsstring := js "Something went wrong!".

(** The message of a payload, which is neither an error nor a response. *)
Definition payload_message (h : Heap) (o : object) : option jsstring :=
  if is_error o || truthy_value (field o (js "isAxiosError")) || isRecord h (field o (js "response")) then None
  else
    let error := field o (js "error") in
    let detail := if isRecord h error then messageText (get h error (js "message")) else messageText error in
    or_else (or_else (messageText (field o (js "message"))) detail) (messageText (field o (js "title"))).

Definition first_safe (h : Heap) (v : value) : option nat :=
  List.find (λ l, match h !! l with Some o => safe o | None => false end) (getServerErrorSources h v).

Definition is_status (status : option num) (code : Z) : bool :=
  match status with Some n => num_eqb n (num_of_Z code) | None => false end.

(** The text of a member as [String] gives it, which the language leaves to the
    implementation but for its shape, so it is a message and no document; what
    [i18next.t] makes of a member. *)
Class Members := {
  member_text : jsstring → jsstring;
  member_translation : jsstring → jsstring;
  member_texts_shown name : name ∈ inherited_properties → messageText (Text (member_text name)) = Some (member_text name)
}.

Section Messages.
Context `{Members}.
(** [i18next.t]. *)
Context (t : jsstring → jsstring).
Definition translate (key : MessageKey) : jsstring :=
  match key with KeyText text => t text | KeyMember name => member_translation name end.
(** [String(key)], as the constructor of an error converts its message. *)
Definition key_text (key : MessageKey) : jsstring :=
  match key with KeyText text => text | KeyMember name => member_text name end.

Definition getServerErrorMessage (h : Heap) (v : value) (fallback : option jsstring) : jsstring :=
  match first_safe h v with
  | Some l =>
      match getServerErrorMessageKey h (Object l) with
      | Some key => translate key
      | None =>
          t (match messageText (get h (Object l) (js "message")) with
             | Some message => message
             | None => or_text (default [] fallback) something_wrong
             end)
      end
  | None =>
      match getServerErrorMessageKey h v with
      | Some key => translate key
      | None =>
          match head (omap (payload_message h) (source_objects h v)) with
          | Some message => message
          | None =>
              let status := getServerErrorStatus h v in
              if is_status status 304 then t (js "Content not modified!")
              else if is_status status 204 then t (js "Content not found.")
              else
                match head (omap (λ o, messageText (field o (js "message"))) (source_objects h v)) with
                | Some message => message
                | None =>
                    match messageText v with
                    | Some message => message
                    | None => default (t something_wrong) fallback
                    end
                end
          end
      end
  end.

(** [new Error(message, { cause })]: the heap with the error, and the error. *)
Definition alloc (h : Heap) (o : object) : Heap * value :=
  let l := fresh (dom h) in (<[l := o]> h, Object l).
Definition new_error (message : jsstring) (cause : value) : object :=
  mkObject [(js "message", Text message); (js "name", Text (js "Error")); (js "cause", cause)]
    false true false false false.
Definition createServerError (h : Heap) (v : value) (fallback : option jsstring) : Heap * value :=
  alloc h (new_error (getServerErrorMessage h v (Some (default [] fallback))) v).

(** The response, or the error thrown. *)
Definition requireServerSuccess (h : Heap) (response : value) : Heap * (value + value) :=
  match get h response (js "success") with
  | Boolean false => let '(h, e) := createServerError h response None in (h, inr e)
  | _ => (h, inl response)
  end.

(** ** AuthOperationError *)

Definition verification_failed : jsstring := js "Verification failed. Please try again.".
Definition try_later : jsstring := js "Please try again later.".

Definition auth_error (message : jsstring) (code cause : value) : object :=
  mkObject [(js "message", Text message); (js "name", Text (js "AuthOperationError")); (js "code", code);
            (js "cause", cause)] true true true false false.

(** [String(value)] of an object; the message of a [TypeError]. *)
Context (object_text : nat → jsstring) (type_error_message : jsstring).

Definition text_of (v : value) : jsstring :=
  match v with
  | Undefined => js "undefined"
  | Null => js "null"
  | Boolean b => if b then js "true" else js "false"
  | Number n => num_to_string n
  | Text s => s
  | Object l => object_text l
  end.
Definition or_val (a b : value) : value := if truthy_value a then a else b.

(** The status of an axios response is a number. *)
Definition server_failure (h : Heap) (error : value) : bool :=
  let response := get h error (js "response") in
  truthy_value response &&
  match get h response (js "status") with
  | Number n => negb (num_ltb n (num_of_Z 500) || is_nan n)
  | _ => false
  end.
Definition failure_message (h : Heap) (error : value) (fallback : jsstring) : jsstring :=
  match getServerErrorMessageKey h error with
  | Some key => key_text key
  | None =>
      if server_failure h error then try_later
      else
        text_of (or_val (get h (get h (get h error (js "response")) (js "data")) (js "message"))
                   (or_val (get h error (js "message")) (Text fallback)))
  end.

Definition from (h : Heap) (error : value) (fallback : jsstring) : Heap * value :=
  match record_of h error with
  | Some (l, o) =>
      if is_auth_error o then (h, error)
      else if axios_error o then
        alloc h (auth_error (failure_message h error fallback)
                   (get h (get h (get h error (js "response")) (js "data")) (js "code")) error)
      else alloc h (auth_error (if is_error o then text_of (field o (js "message")) else fallback) Undefined error)
  | None => alloc h (auth_error fallback Undefined error)
  end.

(** [authResult]: the request gives a response of axios or an error; [inl] is
    the data, [inr] the error thrown. *)
Definition type_error_object : object :=
  mkObject [(js "message", Text type_error_message); (js "name", Text (js "TypeError"))] false true false false false.
Definition is_nullish_value (v : value) : bool := match v with Undefined | Null => true | _ => false end.
Definition is_undefined (v : value) : bool := match v with Undefined => true | _ => false end.

Definition auth_outcome (h : Heap) (outcome : value + value) (fallback : jsstring) : Heap * (value + value) :=
  match outcome with
  | inr error => (h, inr error)
  | inl result =>
      let response := get h result (js "data") in
      if is_nullish_value response then let '(h, e) := alloc h type_error_object in (h, inr e)
      else if negb (truthy_value (get h response (js "success"))) || is_undefined (get h response (js "data")) then
        let message := match getServerErrorMessageKey h response with
                       | Some key => key_text key
                       | None => text_of (or_val (get h response (js "message")) (Text fallback))
                       end in
        let '(h, e) := alloc h (auth_error message (get h response (js "code")) Undefined) in (h, inr e)
      else (h, inl (get h response (js "data")))
  end.
Definition authResult (h : Heap) (outcome : value + value) (fallback : jsstring) : Heap * (value + value) :=
  match auth_outcome h outcome fallback with
  | (h, inr error) => let '(h, e) := from h error fallback in (h, inr e)
  | done => done
  end.

(** ** handleServerError *)

(** The errors already reported, and the notices shown: a title and a
    description. *)
Record Notices := mkNotices { reportedErrors : gset nat; toasts : list (jsstring * option jsstring) }.

Definition markServerErrorHandled (h : Heap) (error : value) (s : Notices) : Notices :=
  mkNotices (list_to_set (getServerErrorSources h error) ∪ reportedErrors s) (toasts s).

Definition handleServerError (h : Heap) (error : value) (fallbackMessage : option jsstring)
    (presentation : option (jsstring * option jsstring)) (s : Notices) : Notices :=
  if isServerErrorCancelled h error then s
  else
    let reported := existsb (λ l, bool_decide (l ∈ reportedErrors s)) (getServerErrorSources h error) in
    let s := markServerErrorHandled h error s in
    if reported then s
    else
      let title := default [] (fst <$> presentation) in
      let message := if title =s [] then getServerErrorMessage h error fallbackMessage else title in
      let description := d ← presentation ≫= snd; if d =s [] then None else Some d in
      mkNotices (reportedErrors s) (toasts s ++ [(message, description)]).
End Messages.

(** ** The interface of the operations

    What the code reads of an [AuthOperationError]: its message and its code. *)
Record Failure := mkFailure { f_message : jsstring; f_code : option jsstring }.
#[export] Instance Failure_eq_dec : EqDecision Failure.
Proof. solve_decision. Defined.

(** Errors that the environment throws, and [AuthOperationError.from] on one
    that is no [AuthOperationError]. *)
Class ErrorSource (E : Type) := convert : E → Failure.

Inductive thrown (E : Type) :=
  | Raised (e : E)
  | Auth (failure : Failure).
Arguments Raised {E} e.
Arguments Auth {E} failure.

(** [AuthOperationError.from]. *)
Definition from_thrown {E} `{ErrorSource E} (e : thrown E) : Failure :=
  match e with Raised e => convert e | Auth failure => failure end.

Definition failure_of (h : Heap) (v : value) : Failure :=
  mkFailure (match get h v (js "message") with Text s => s | _ => [] end)
    (match get h v (js "code") with Text s => Some s | _ => None end).
(** Errors of a heap. *)
Record HeapError := mkHeapError { error_heap : Heap; error_value : value }.
#[export] Instance heap_errors `{Members} (object_text : nat → jsstring) : ErrorSource HeapError := λ e,
  let '(h, v) := from object_text (error_heap e) (error_value e) verification_failed in failure_of h v.
