(* ===== verification/ServerErrorFacts.v ===== *)
(** * What is shown of a failed request: theorems

    The walk over the origins of an error meets every object once; an error
    that is marked safe hides what it wraps; no error is reported twice. *)

From stdpp Require Import gmap.
From S2P Require Import Prelude JsNumber JsText Types JsValue ServerError.

(** ** The walk *)

(** [w] is a cause, an error or the payload of the response of [v]. *)
Definition origin (h : Heap) (v w : value) : Prop :=
  ∃ l o, record_of h v = Some (l, o) ∧ w ∈ origins h o.
(** The object at [l] is an origin of [v], over any number of steps. *)
Definition reaches (h : Heap) (v : value) (l : nat) : Prop := rtc (origin h) v (Object l) ∧ is_Some (h !! l).

Lemma record_of_inv h v l o : record_of h v = Some (l, o) ↔ v = Object l ∧ h !! l = Some o.
Proof.
  destruct v; cbn; try (split; [done|naive_solver]).
  destruct (h !! l0) eqn:E; cbn; naive_solver.
Qed.

Definition closed_under (h : Heap) (sources : list nat) (pending : list value) : Prop :=
  ∀ l o w l', l ∈ sources → h !! l = Some o → w ∈ origins h o → w = Object l' → is_Some (h !! l') →
    l' ∈ sources ∨ w ∈ pending.

Lemma origins_length h o : length (origins h o) ≤ 3.
Proof. unfold origins. rewrite length_app. destruct (isRecord _ _); cbn; lia. Qed.

Section Walk.
Context (h : Heap) (P : value → Prop).
Context (HP : ∀ v w, P v → origin h v w → P w).

#[local] Set Default Proof Using "All".

Lemma walk_spec fuel pending seen sources :
  Forall P pending → Forall (λ l, P (Object l) ∧ is_Some (h !! l)) sources → NoDup sources →
  (∀ l, l ∈ seen ↔ l ∈ sources) → closed_under h sources pending →
  3 * size (dom h ∖ seen) + length pending < fuel →
  ∃ r, walk fuel h pending seen sources = Some r ∧ sources `prefix_of` r ∧ NoDup r ∧
    Forall (λ l, P (Object l) ∧ is_Some (h !! l)) r ∧
    (∀ l, Object l ∈ pending → is_Some (h !! l) → l ∈ r) ∧ closed_under h r [].
Proof.
  revert pending seen sources. induction fuel as [|fuel IH]; intros pending seen sources Hp Hs Hn Hseen Hc Hf; [lia|].
  destruct pending as [|v pending]; cbn [walk].
  { exists sources. split_and!; [done..| |done]. by intros l ?%not_elem_of_nil. }
  apply (Forall_cons P) in Hp as [Hv Hp]. destruct (record_of h v) as [[l o]|] eqn:E.
  - apply record_of_inv in E as [-> Hl]. case_decide as Hin.
    + destruct (IH pending seen sources) as (r & Hw & Hpre & Hr); [done..| |cbn [length] in Hf; lia|].
      { intros l1 o1 w l' H1 H2 H3 -> H5. destruct (Hc _ _ _ _ H1 H2 H3 eq_refl H5) as [?|Hw]; [by left|].
        apply elem_of_cons in Hw as [[= ->]|?]; [left; by apply Hseen|by right]. }
      exists r. destruct Hr as (Hr1 & Hr2 & Hr3 & Hr4). split_and!; [done..| |done].
      intros l' Hl' Hd. apply elem_of_cons in Hl' as [[= ->]|Hl']; [|by apply Hr3]. apply (elem_of_prefix sources); [by apply Hseen|done].
    + destruct (IH (pending ++ origins h o) ({[l]} ∪ seen) (sources ++ [l])) as (r & Hw & Hpre & Hr1 & Hr2 & Hr3 & Hr4).
      * apply Forall_app. split; [done|]. apply Forall_forall. intros w Hw. apply (HP (Object l)); [done|].
        exists l, o. split; [|done]. by apply record_of_inv.
      * apply Forall_app. split; [done|]. apply Forall_singleton. by split.
      * apply NoDup_app. split_and!; [done| |apply NoDup_singleton].
        intros x Hx ->%list_elem_of_singleton. by apply Hin, Hseen.
      * intros x. rewrite elem_of_union, elem_of_singleton, elem_of_app, list_elem_of_singleton, Hseen. naive_solver.
      * intros l1 o1 w l' [H1| ->%list_elem_of_singleton]%elem_of_app H2 H3 -> H5.
        -- destruct (Hc _ _ _ _ H1 H2 H3 eq_refl H5) as [?|Hw]; [left; apply elem_of_app; by left|].
           apply elem_of_cons in Hw as [[= ->]|?].
           ++ left. apply elem_of_app. right. by apply list_elem_of_singleton.
           ++ right. apply elem_of_app. by left.
        -- right. apply elem_of_app. right. congruence.
      * rewrite length_app. pose proof (origins_length h o). cbn [length] in Hf.
        assert (size (dom h ∖ ({[l]} ∪ seen)) < size (dom h ∖ seen)) as Hlt.
        { apply subset_size. split; [set_solver|]. intros Hsub. specialize (Hsub l). apply elem_of_dom_2 in Hl. set_solver. }
        lia.
      * exists r. split_and!; [done| |done..| |done].
        -- etrans; [|done]. by eexists.
        -- intros l' Hl' Hd. apply elem_of_cons in Hl' as [[= ->]|Hl'].
           ++ apply (elem_of_prefix (sources ++ [l])); [apply elem_of_app; right; by apply list_elem_of_singleton|done].
           ++ apply Hr3; [|done]. apply elem_of_app. by left.
  - destruct (IH pending seen sources) as (r & Hw & Hpre & Hr1 & Hr2 & Hr3 & Hr4); [done..| |cbn [length] in Hf; lia|].
    { intros l1 o1 w l' H1 H2 H3 -> H5. destruct (Hc _ _ _ _ H1 H2 H3 eq_refl H5) as [?|Hw]; [by left|].
      apply elem_of_cons in Hw as [<-|?]; [|by right]. exfalso. destruct H5 as [o' Ho']. cbn in E. by rewrite Ho' in E. }
    exists r. split_and!; [done..| |done]. intros l Hl Hd. apply elem_of_cons in Hl as [<-|Hl]; [|by apply Hr3].
    exfalso. destruct Hd as [o' Ho']. cbn in E. by rewrite Ho' in E.
Qed.
End Walk.

Lemma sources_walk h v :
  ∃ r, walk (walk_fuel h) h [v] ∅ [] = Some r ∧ NoDup r ∧ (∀ l, l ∈ r ↔ reaches h v l).
Proof.
  destruct (walk_spec h (λ w, rtc (origin h) v w)) with (fuel := walk_fuel h) (pending := [v]) (seen := (∅ : gset nat))
    (sources := @nil nat) as (r & Hw & _ & Hn & Hr & Hp & Hc).
  - intros w w' Hw Hs. by eapply rtc_r.
  - apply Forall_singleton. apply rtc_refl.
  - by apply Forall_nil.
  - apply NoDup_nil_2.
  - intros l. split; [by intros ?%not_elem_of_empty|by intros ?%not_elem_of_nil].
  - by intros l o w l' ?%not_elem_of_nil.
  - unfold walk_fuel. cbn [length]. pose proof (size_dom (D := gset nat) h). rewrite difference_empty_L. lia.
  - exists r. split_and!; [done|done|]. intros l. split.
    + intros Hl. rewrite Forall_forall in Hr. destruct (Hr l Hl). done.
    + intros [Hreach Hd]. apply rtc_ind_r with (P := λ w, ∀ l, w = Object l → is_Some (h !! l) → l ∈ r) in Hreach; [by apply Hreach| |].
      * intros l' -> Hd'. apply Hp; [by apply list_elem_of_singleton|done].
      * intros w w' _ (l1 & o1 & [-> Ho1]%record_of_inv & Hin) IH l' -> Hd'.
        destruct (Hc l1 o1 (Object l') l') as [?|Hn']; [apply IH; [done|by exists o1]|done..|done|].
        by apply not_elem_of_nil in Hn'.
Qed.

Lemma sources_exact h v : NoDup (getServerErrorSources h v) ∧ ∀ l, l ∈ getServerErrorSources h v ↔ reaches h v l.
Proof. unfold getServerErrorSources. destruct (sources_walk h v) as (r & -> & Hn & Hr). done. Qed.

Lemma sources_head h l o : h !! l = Some o → ∃ rest, getServerErrorSources h (Object l) = l :: rest.
Proof.
  intros Hl. unfold getServerErrorSources. destruct (sources_walk h (Object l)) as (r & Hw & _ & _). rewrite Hw. cbn [default from_option id].
  unfold walk_fuel in Hw. rewrite Nat.add_comm in Hw. cbn [Nat.add walk] in Hw.
  assert (record_of h (Object l) = Some (l, o)) as E by (by apply record_of_inv). rewrite E in Hw.
  rewrite decide_False in Hw by set_solver. cbn [app] in Hw.
  assert (∀ fuel p sn ss, walk fuel h p sn ss = Some r → ss `prefix_of` r) as Hpre.
  { clear. intros fuel. induction fuel as [|fuel IH]; intros p sn ss; [done|]. cbn [walk].
    destruct p as [|v p]; [by intros [= ->]|]. destruct (record_of h v) as [[l o]|]; [|apply IH].
    case_decide; [apply IH|]. intros Hw%IH. etrans; [|done]. by eexists. }
  change (match origins h o with [] => _ | _ => _ end) with (walk (S (3 * size h)) h (origins h o) ({[l]} ∪ ∅) [l]) in Hw.
  apply Hpre in Hw as [rest ->]. by exists rest.
Qed.

(** The origins of an error are walked exactly: the walk ends on every heap,
    cyclic ones included, meets each object that the error is a wrapper,
    payload or cause of once and no other, and starts with the error itself. *)
Theorem error_sources_exact h v :
  walk (walk_fuel h) h [v] ∅ [] ≠ None ∧ NoDup (getServerErrorSources h v) ∧
  (∀ l, l ∈ getServerErrorSources h v ↔ reaches h v l) ∧
  (∀ l o, v = Object l → h !! l = Some o → head (getServerErrorSources h v) = Some l).
Proof.
  split_and!; [|apply sources_exact..|].
  - destruct (sources_walk h v) as (r & -> & _). done.
  - intros l o -> Hl. by destruct (sources_head h l o Hl) as [rest ->].
Qed.

(** ** Safe errors *)

Lemma source_objects_head h l o : h !! l = Some o → ∃ rest, source_objects h (Object l) = o :: rest.
Proof.
  intros Hl. unfold source_objects. destruct (sources_head h l o Hl) as [rest ->]. cbn. rewrite Hl. by eexists.
Qed.

(** What is shown of a safe error. *)
Definition safe_shown `{HM : Members} (t : jsstring → jsstring) (o : object) (fallback : option jsstring) : jsstring :=
  match (match field o (js "code") with Text code => message_key code | _ => None end) with
  | Some key => translate t key
  | None =>
      t (match messageText (field o (js "message")) with
         | Some message => message
         | None => or_text (default [] fallback) something_wrong
         end)
  end.

Lemma safe_message `{HM : Members} t h v fallback l o :
  first_safe h v = Some l → h !! l = Some o → getServerErrorMessage t h v fallback = safe_shown t o fallback.
Proof.
  intros Hf Ho. unfold getServerErrorMessage. rewrite Hf. unfold safe_shown.
  assert (safe o = true) as Hs.
  { unfold first_safe in Hf. apply find_some in Hf as [_ Hs]. by rewrite Ho in Hs. }
  unfold getServerErrorMessageKey. destruct (source_objects_head h l o Ho) as [rest ->]. cbn [key_of_sources]. rewrite Hs.
  unfold get. rewrite (proj2 (record_of_inv h (Object l) l o)) by done.
  destruct (field o (js "code")); try done. by destruct (message_key _).
Qed.

Lemma own_table {A} (m : list (jsstring * A)) k x : own m k = Some x → x ∈ map snd m.
Proof.
  induction m as [|[k' y] m IH]; [done|]. cbn [own map snd]. destruct (k' =s k).
  - intros [= ->]. apply elem_of_cons. by left.
  - intros H. apply elem_of_cons. right. by apply IH.
Qed.

(** The texts that name no detail of the server. *)
Definition fixed_texts : list jsstring := try_later :: map snd serverErrorMessageKeys.

Lemma fixed_texts_shown : forallb (λ s, bool_decide (messageText (Text s) = Some s)) fixed_texts = true.
Proof. vm_compute. reflexivity. Qed.
Lemma fixed_text_shown s : s ∈ fixed_texts → messageText (Text s) = Some s.
Proof.
  intros Hs. pose proof fixed_texts_shown as H. rewrite forallb_forall in H.
  apply (bool_decide_eq_true_1 _ (H s (proj1 (list_elem_of_In _ _) Hs))).
Qed.

Lemma alloc_spec h o h1 v : alloc h o = (h1, v) → ∃ l, v = Object l ∧ h !! l = None ∧ h1 = <[l := o]> h.
Proof.
  unfold alloc. intros [= <- <-]. exists (fresh (dom h)). split_and!; [done| |done].
  apply not_elem_of_dom. apply is_fresh.
Qed.

(** A key is a fixed text, or an inherited member. *)
Definition fixed_key (key : MessageKey) : Prop :=
  match key with KeyText text => text ∈ fixed_texts | KeyMember name => name ∈ inherited_properties end.
Lemma message_key_fixed code key : message_key code = Some key → fixed_key key.
Proof.
  unfold message_key. destruct (own serverErrorMessageKeys code) eqn:E.
  - intros [= <-]. apply elem_of_cons. right. by eapply own_table.
  - destruct (str_in code inherited_properties) eqn:Hc; [|done]. intros [= <-]. by apply str_in_elem.
Qed.
Lemma key_fixed h v key : getServerErrorMessageKey h v = Some key → fixed_key key.
Proof.
  unfold getServerErrorMessageKey. induction (source_objects h v) as [|o l IH]; [done|]. cbn [key_of_sources].
  assert ((if safe o then None else key_of_sources l) = Some key → fixed_key key) as Hrest by (destruct (safe o); [done|apply IH]).
  destruct (field o (js "code")); try exact Hrest. destruct (message_key _) eqn:E; [|exact Hrest].
  intros [= <-]. by eapply message_key_fixed.
Qed.

(** C21. Server details stay hidden. When a request failed with a status of 500
    or more, the operation error made of it, and every error that wraps that
    one, however deep, is shown with one of the fixed texts: nothing of the
    message of the server, of its cause or of a fallback reaches the user. Where
    a code of the server names a member of [Object.prototype], which the table
    of texts inherits, that member is shown, which is no detail of the server
    either. *)
Theorem server_details_hidden `{HM : Members} t object_text h error fallback h1 l1 o :
  from object_text h error fallback = (h1, Object l1) →
  snd <$> record_of h error = Some o → is_auth_error o = false → axios_error o = true → server_failure h error = true →
  ∀ h2 v fallback2, first_safe h2 v = Some l1 → h2 !! l1 = h1 !! l1 →
    (∃ text, text ∈ fixed_texts ∧ getServerErrorMessage t h2 v fallback2 = t text)
    ∨ ∃ name, name ∈ inherited_properties
        ∧ (getServerErrorMessage t h2 v fallback2 = member_translation name
           ∨ getServerErrorMessage t h2 v fallback2 = t (member_text name)).
Proof.
  intros Hf Hr Ha Hx Hs h2 v fallback2 Hfirst Hsame. unfold from in Hf.
  destruct (record_of h error) as [[l o']|] eqn:E; [|done]. injection Hr as ->. rewrite Ha, Hx in Hf.
  apply alloc_spec in Hf as (l' & [= <-] & _ & ->). rewrite lookup_insert_eq in Hsame.
  rewrite (safe_message t h2 v fallback2 l1 _ Hfirst Hsame). unfold safe_shown.
  set (m := failure_message object_text h error fallback).
  change (field (auth_error m ?c ?x) (js "code")) with c. change (field (auth_error m ?c ?x) (js "message")) with (Text m).
  destruct (match get h _ (js "code") with Text code => message_key code | _ => None end) as [key|] eqn:K.
  - assert (fixed_key key) as Hk by (destruct (get h _ (js "code")); try done; by eapply message_key_fixed).
    destruct key as [text|name]; [left; by exists text|right; exists name; split; [done|by left]].
  - assert (m = try_later ∨ ∃ key, fixed_key key ∧ m = key_text key) as [Hm|(key & Hk & Hm)].
    { unfold m, failure_message. rewrite Hs. destruct (getServerErrorMessageKey h error) as [key|] eqn:Hkey; [|by left].
      right. exists key. split; [by eapply key_fixed|done]. }
    + left. exists try_later. rewrite Hm. split; [apply elem_of_cons; by left|]. by rewrite (fixed_text_shown try_later) by (apply elem_of_cons; by left).
    + rewrite Hm. destruct key as [text|name]; cbn [key_text].
      * left. exists text. split; [done|]. by rewrite (fixed_text_shown text Hk).
      * right. exists name. split; [done|]. right. by rewrite (member_texts_shown name Hk).
Qed.

(** Members as a common implementation shows them. *)
#[local] Instance example_members : Members.
Proof.
  refine {| member_text name := js "function " ++ name ++ js "() { [native code] }"; member_translation _ := [] |}.
  assert (forallb (λ name, bool_decide (messageText (Text (js "function " ++ name ++ js "() { [native code] }"))
    = Some (js "function " ++ name ++ js "() { [native code] }"))) inherited_properties = true) as Hall by (vm_compute; reflexivity).
  intros name Hn%list_elem_of_In. rewrite forallb_forall in Hall. exact (bool_decide_eq_true_1 _ (Hall name Hn)).
Defined.

(** A failed request whose server leaks a detail, wrapped in another error. *)
Definition response_500 : object :=
  mkObject [(js "status", Number (num_of_Z 500)); (js "data", Object 2)] false false false false false.
Definition leaking_body : object :=
  mkObject [(js "success", Boolean false); (js "message", Text (js "pq: relation users"))] false false false false false.
Definition leaking_error : object :=
  mkObject [(js "message", Text (js "Request failed")); (js "isAxiosError", Boolean true); (js "response", Object 1)]
    false true false true false.
Definition leaking_heap : Heap := <[0 := leaking_error]> (<[1 := response_500]> (<[2 := leaking_body]> ∅)).
Definition plain_text (l : nat) : jsstring := js "[object Object]".
Definition operation_heap : Heap := fst (from plain_text leaking_heap (Object 0) verification_failed).
Definition wrapped_heap : Heap := <[4 := new_error (js "outer") (Object 3)]> operation_heap.

Lemma server_details_hidden_witness :
  (∃ text, text ∈ fixed_texts ∧ getServerErrorMessage id wrapped_heap (Object 4) (Some (js "pq")) = id text)
  ∨ ∃ name, name ∈ inherited_properties
      ∧ (getServerErrorMessage id wrapped_heap (Object 4) (Some (js "pq")) = member_translation name
         ∨ getServerErrorMessage id wrapped_heap (Object 4) (Some (js "pq")) = id (member_text name)).
Proof.
  apply (server_details_hidden id plain_text leaking_heap (Object 0) verification_failed operation_heap 3 leaking_error).
  - vm_compute. reflexivity.
  - vm_compute. reflexivity.
  - reflexivity.
  - reflexivity.
  - vm_compute. reflexivity.
  - vm_compute. reflexivity.
  - vm_compute. reflexivity.
Defined.

(** A code of the server that names an inherited member. *)
Definition member_body : object :=
  mkObject [(js "success", Boolean false); (js "code", Text (js "toString"))] false false false false false.
Example member_code_found : getServerErrorMessageKey (<[0 := member_body]> ∅) (Object 0) = Some (KeyMember (js "toString")).
Proof. vm_compute. reflexivity. Qed.

(** ** The errors of operations *)

(** Operation errors are marked safe, as their class declares. *)
Definition marked (h : Heap) : Prop := ∀ l o, h !! l = Some o → is_auth_error o = true → safe o = true.

Lemma alloc_auth_error h m c x h1 e :
  alloc h (auth_error m c x) = (h1, e) →
  h ⊆ h1 ∧ ∃ l, record_of h1 e = Some (l, auth_error m c x).
Proof.
  intros (l & -> & Hl & ->)%alloc_spec. split; [by apply insert_subseteq|]. exists l. apply record_of_inv.
  split; [done|by rewrite lookup_insert_eq].
Qed.

Lemma from_auth_error `{HM : Members} object_text h error fallback h1 e :
  marked h → from object_text h error fallback = (h1, e) →
  h ⊆ h1 ∧ ∃ l o, record_of h1 e = Some (l, o) ∧ is_auth_error o = true ∧ safe o = true ∧
    (e = error ∨ field o (js "cause") = error).
Proof.
  intros Hm. unfold from. destruct (record_of h error) as [[l o]|] eqn:E.
  - destruct (is_auth_error o) eqn:Ha.
    + intros [= <- <-]. split; [done|]. exists l, o. split_and!; [done..| |by left].
      apply record_of_inv in E as [_ Hl]. by apply (Hm l o).
    + destruct (axios_error o); intros [Hh [l' H]]%alloc_auth_error; (split; [done|]); eexists _, _;
        (split_and!; [exact H|done..|by right]).
  - intros [Hh [l' H]]%alloc_auth_error. split; [done|]. eexists _, _. split_and!; [exact H|done..|by right].
Qed.

(** Every failure of an operation is an [AuthOperationError] marked safe
    that is the error of the request or has it as its cause, and data is given
    exactly when the response says success and has some; nothing that existed
    is changed. *)
Theorem auth_result_outcome `{HM : Members} object_text type_error_message h outcome fallback h1 r :
  marked h → authResult object_text type_error_message h outcome fallback = (h1, r) →
  h ⊆ h1 ∧
  match r with
  | inl data => ∃ result, outcome = inl result ∧ data = get h (get h result (js "data")) (js "data") ∧
                  data ≠ Undefined ∧ truthy_value (get h (get h result (js "data")) (js "success")) = true
  | inr e => ∃ l o, record_of h1 e = Some (l, o) ∧ is_auth_error o = true ∧ safe o = true ∧
               ∀ error, outcome = inr error → e = error ∨ field o (js "cause") = error
  end.
Proof.
  intros Hm. unfold authResult. destruct (auth_outcome _ _ h outcome fallback) as [h0 [data|error]] eqn:E.
  - intros [= <- <-]. unfold auth_outcome in E. destruct outcome as [result|]; [|done].
    destruct (is_nullish_value _); [by destruct (alloc _ _)|].
    destruct (negb _ || is_undefined _) eqn:Hb; [by destruct (alloc _ _)|].
    injection E as <- <-. split; [done|]. exists result. apply orb_false_iff in Hb as [Hs Hu].
    split_and!; [done..| |by apply negb_false_iff]. intros Hd. by rewrite Hd in Hu.
  - assert (h ⊆ h0 ∧ marked h0 ∧ ∀ x, outcome = inr x → error = x) as (Hh & Hm0 & Ho).
    { unfold auth_outcome in E. destruct outcome as [result|x]; [|injection E as <- <-; split_and!; [done..|by intros ? [= ->]]].
      assert (∀ o, alloc h o = (h0, error) → (is_auth_error o = true → safe o = true) →
                h ⊆ h0 ∧ marked h0 ∧ ∀ x, inl result = inr x → error = x) as Halloc.
      { intros o (l & -> & Hl & ->)%alloc_spec Hsafe. split_and!; [by apply insert_subseteq| |done].
        intros l' o'. rewrite lookup_insert_Some. intros [[<- <-]|[_ Hl']]; [done|by apply (Hm l')]. }
      destruct (is_nullish_value _).
      - destruct (alloc _ _) as [h' e'] eqn:Ha. injection E as -> ->. by eapply Halloc.
      - destruct (negb _ || is_undefined _); [|done].
        destruct (alloc _ _) as [h' e'] eqn:Ha. injection E as -> ->. by eapply Halloc. }
    destruct (from _ h0 error fallback) as [h' e'] eqn:Hf. intros [= <- <-].
    destruct (from_auth_error _ _ _ _ _ _ Hm0 Hf) as (Hh' & l & o & H1 & H2 & H3 & H4).
    split; [by etrans|]. exists l, o. split_and!; [done..|]. intros x Hx. by rewrite <- (Ho x Hx).
Qed.

Lemma leaking_marked : marked leaking_heap.
Proof.
  intros l o Ho. unfold leaking_heap in Ho. apply lookup_insert_Some in Ho as [[_ <-]|[_ Ho]]; [done|].
  apply lookup_insert_Some in Ho as [[_ <-]|[_ Ho]]; [done|].
  apply lookup_insert_Some in Ho as [[_ <-]|[_ Ho]]; [done|]. by rewrite lookup_empty in Ho.
Qed.
Definition failed_operation : Heap * (value + value) :=
  authResult plain_text (js "TypeError") leaking_heap (inr (Object 0)) verification_failed.
Lemma auth_result_outcome_witness :
  marked leaking_heap ∧ leaking_heap ⊆ failed_operation.1 ∧ ∃ e, failed_operation.2 = inr e.
Proof.
  assert (failed_operation = (failed_operation.1, failed_operation.2)) as H by (destruct failed_operation; reflexivity).
  pose proof (auth_result_outcome plain_text (js "TypeError") leaking_heap (inr (Object 0)) verification_failed _ _
                leaking_marked H) as [Hh _].
  split; [exact leaking_marked|]. split; [exact Hh|]. exists (Object 3). vm_compute. reflexivity.
Defined.

(** ** Reports *)

Lemma handle_toasts `{HM : Members} t h e fb p s :
  toasts (handleServerError t h e fb p s) = toasts s ∨ ∃ x, toasts (handleServerError t h e fb p s) = toasts s ++ [x].
Proof.
  unfold handleServerError. destruct (isServerErrorCancelled h e); [by left|].
  destruct (existsb _ _); [by left|]. right. by eexists.
Qed.
Lemma handle_reported `{HM : Members} t h e fb p s :
  reportedErrors (handleServerError t h e fb p s)
  = if isServerErrorCancelled h e then reportedErrors s else list_to_set (getServerErrorSources h e) ∪ reportedErrors s.
Proof.
  unfold handleServerError. destruct (isServerErrorCancelled h e); [done|]. by destruct (existsb _ _).
Qed.

(** Further reports: the heap and error of each, its fallback and presentation. *)
Record report := mkReport {
  r_heap : Heap; r_error : value; r_fallback : option jsstring; r_presentation : option (jsstring * option jsstring)
}.
Definition report_all `{HM : Members} (t : jsstring → jsstring) (s : Notices) (reports : list report) : Notices :=
  foldl (λ s r, handleServerError t (r_heap r) (r_error r) (r_fallback r) (r_presentation r) s) s reports.

Lemma report_all_mono `{HM : Members} t s reports : reportedErrors s ⊆ reportedErrors (report_all t s reports).
Proof.
  revert s. induction reports as [|r reports IH]; intros s; [done|]. cbn [report_all foldl].
  etrans; [|apply IH]. rewrite handle_reported. destruct (isServerErrorCancelled _ _); set_solver.
Qed.

(** A failure is shown once. Reporting an error adds at most one notice, and
    exactly one when it is no cancellation and none of its origins was reported
    before; after that, whatever else is reported in between, an error that
    shares an origin with it, such as a wrapper of it, adds none. *)
Theorem reported_once `{HM : Members} t s h e fb p :
  (isServerErrorCancelled h e = true → handleServerError t h e fb p s = s) ∧
  (isServerErrorCancelled h e = false →
     let s1 := handleServerError t h e fb p s in
     ((∀ l, reaches h e l → l ∉ reportedErrors s) → ∃ x, toasts s1 = toasts s ++ [x]) ∧
     ((∃ l, reaches h e l ∧ l ∈ reportedErrors s) → toasts s1 = toasts s) ∧
     ∀ between r, (∃ l, reaches h e l ∧ reaches (r_heap r) (r_error r) l) →
       toasts (report_all t s1 (between ++ [r])) = toasts (report_all t s1 between)).
Proof.
  split; [intros Hc; unfold handleServerError; by rewrite Hc|]. intros Hc s1.
  assert (∀ h e fb p s, (∃ l, reaches h e l ∧ l ∈ reportedErrors s) → toasts (handleServerError t h e fb p s) = toasts s) as Hold.
  { clear. intros h e fb p s (l & Hl & Hin). unfold handleServerError. destruct (isServerErrorCancelled h e); [done|].
    assert (existsb (λ l, bool_decide (l ∈ reportedErrors s)) (getServerErrorSources h e) = true) as ->; [|done].
    apply existsb_exists. exists l. split; [|by apply bool_decide_eq_true]. by apply list_elem_of_In, sources_exact. }
  split_and!; [|apply Hold|].
  - intros Hnew. unfold s1, handleServerError. rewrite Hc.
    assert (existsb (λ l, bool_decide (l ∈ reportedErrors s)) (getServerErrorSources h e) = false) as ->; [|by eexists].
    apply Bool.not_true_iff_false. intros (l & Hl%list_elem_of_In & Hin%bool_decide_eq_true)%existsb_exists.
    apply (Hnew l); [by apply sources_exact|done].
  - intros between r (l & Hl & Hr). unfold report_all. rewrite foldl_app. cbn [foldl]. apply Hold. exists l. split; [done|].
    apply (report_all_mono t s1 between). unfold s1. rewrite handle_reported, Hc. apply elem_of_union_l.
    apply elem_of_list_to_set. by apply sources_exact.
Qed.
