(* ===== verification/Passkey.v ===== *)
(** * lib/passkey.ts

    Credentials of WebAuthn between JSON and the browser: base64url texts and
    bytes, the options the server sends, and the results it gets. [atob] and
    [btoa] are those of the web platform. *)

From Stdlib Require Import ZifyBool ZifyN.
From S2P Require Import Prelude JsNumber JsText Types Runtime JsRegex JsMap JsValue.

(** ** Base64 *)

Abbreviation bytes := (list N).

(** The character of six bits, and back. *)
Definition base64_char (n : N) : code_unit :=
  (if n <? 26 then n + 65 else if n <? 52 then n + 71 else if n <? 62 then n - 4 else if n =? 62 then 43 else 47)%N.
Definition base64_digit (c : code_unit) : option N :=
  (if (65 <=? c) && (c <=? 90) then Some (c - 65)
   else if (97 <=? c) && (c <=? 122) then Some (c - 71)
   else if (48 <=? c) && (c <=? 57) then Some (c + 4)
   else if c =? 43 then Some 62
   else if c =? 47 then Some 63
   else None)%N.

(** [btoa] on a string of bytes. *)
Fixpoint btoa (s : bytes) : jsstring :=
  match s with
  | [] => []
  | [a] => [base64_char (a / 4); base64_char (a mod 4 * 16); 61; 61]%N
  | [a; b] => [base64_char (a / 4); base64_char (a mod 4 * 16 + b / 16); base64_char (b mod 16 * 4); 61]%N
  | a :: b :: c :: s =>
      (base64_char (a / 4) :: base64_char (a mod 4 * 16 + b / 16) :: base64_char (b mod 16 * 4 + c / 64)
       :: base64_char (c mod 64) :: btoa s)%N
  end.

(** The digits of a text, four at a time; two or three at its end. *)
Fixpoint base64_bytes (s : jsstring) : option bytes :=
  match s with
  | [] => Some []
  | [_] => None
  | [a; b] => x ← base64_digit a; y ← base64_digit b; Some [x * 4 + y / 16]%N
  | [a; b; c] =>
      x ← base64_digit a; y ← base64_digit b; z ← base64_digit c;
      Some [x * 4 + y / 16; y mod 16 * 16 + z / 4]%N
  | a :: b :: c :: d :: s =>
      x ← base64_digit a; y ← base64_digit b; z ← base64_digit c; w ← base64_digit d;
      rest ← base64_bytes s;
      Some (x * 4 + y / 16 :: y mod 16 * 16 + z / 4 :: z mod 4 * 64 + w :: rest)%N
  end.

Definition ascii_space (c : code_unit) : bool := existsb (N.eqb c) [9; 10; 12; 13; 32]%N.
Definition drop_padding (s : jsstring) : jsstring := if ends_with [61%N] s then take (length s - 1) s else s.
(** [atob], which throws an InvalidCharacterError. *)
Definition invalid_character : exn := NativeError (js "InvalidCharacterError").
Definition atob (s : jsstring) : result bytes :=
  let s := List.filter (λ c, negb (ascii_space c)) s in
  let s := if length s mod 4 =? 0 then drop_padding (drop_padding s) else s in
  match base64_bytes s with Some b => Ok b | None => Err invalid_character end.

(** [s.replaceAll(c, d)] on characters. *)
Definition replace_units (c d : code_unit) (s : jsstring) : jsstring := map (λ x, if (x =? c)%N then d else x) s.

(** A text decoded, padded as one of [len] units. *)
Definition decode_padded (text : jsstring) (len : nat) : result bytes :=
  atob (replace_units 95 47 (replace_units 45 43 (text ++ replicate ((4 - len mod 4) mod 4) 61%N))).

(** [value] as it comes in a payload. What is not a string is written as one,
    with its own length: none for a number or a Boolean; that of an object does
    not matter, as no padding makes its text decode. *)
Definition base64UrlToArrayBuffer (value : jsval) : result bytes :=
  if negb (truthy value) then Ok []
  else
    match value with
    | VString s => decode_padded s (length s)
    | VArray items => text ← to_string value; decode_padded text (length items)
    | VObject _ => _ ← to_string (prop value (js "length")); text ← to_string value; decode_padded text 0
    | _ => text ← to_string value; decode_padded text 0
    end.

(** [.replaceAll(/=+$/g, '')]. *)
Definition strip_padding (s : jsstring) : jsstring := reverse (drop_while (λ c, (c =? 61)%N) (reverse s)).
Definition arrayBufferToBase64Url (buffer : option bytes) : jsstring :=
  match buffer with
  | None => []
  | Some b => strip_padding (replace_units 47 95 (replace_units 43 45 (btoa b)))
  end.

(** ** Options *)

(** A value with buffers in it. *)
Inductive cvalue :=
  | CJson (v : jsval)
  | CBuffer (b : bytes)
  | CList (items : list cvalue)
  | CObject (entries : list (jsstring * cvalue)).

Definition nullish_chain (a b : jsval) : jsval := if is_nullish a then b else a.
(** The options in a payload. *)
Definition payload_options (payload : jsval) : jsval :=
  nullish_chain (prop payload (js "publicKey"))
    (nullish_chain (prop payload (js "PublicKey"))
       (nullish_chain (prop payload (js "response")) (prop payload (js "Response")))).

Definition decoded (v : jsval) : result cvalue := b ← base64UrlToArrayBuffer v; Ok (CBuffer b).

(** [{ ...v, key: value }]: the own properties, then the ones given. *)
Definition indexed {A} (f : A → jsval) (items : list A) : list (jsstring * cvalue) :=
  imap (λ i x, (num_to_string (num_of_Z (Z.of_nat i)), CJson (f x))) items.
Definition spread (v : jsval) : list (jsstring * cvalue) :=
  match v with
  | VObject entries => map (λ e, (e.1, CJson e.2)) entries
  | VArray items => indexed id items
  | VString s => indexed (λ c, VString [c]) s
  | _ => []
  end.

(** An item of a list of credentials, with its id decoded. *)
Definition credential_item (item : jsval) : result cvalue :=
  if is_nullish item then Err type_error
  else id ← decoded (prop item (js "id")); Ok (CObject (mset (spread item) (js "id") id)).

Definition prepare_list (options : jsval) (key : jsstring) (publicKey : list (jsstring * cvalue))
    : result (list (jsstring * cvalue)) :=
  match prop options key with
  | VArray items => prepared ← mapM_result credential_item items; Ok (mset publicKey key (CList prepared))
  | _ => Ok publicKey
  end.

Definition options_missing (kind : jsstring) : exn :=
  NativeError (js "Unable to parse Passkey " ++ kind ++ js " options from response").

Definition prepareCredentialCreationOptions (payload : jsval) : result (list (jsstring * cvalue)) :=
  let options := payload_options payload in
  if negb (truthy options) then Err (options_missing (js "registration"))
  else
    challenge ← decoded (prop options (js "challenge"));
    let user := prop options (js "user") in
    id ← decoded (prop user (js "id"));
    let publicKey := mset (mset (spread options) (js "challenge") challenge) (js "user")
                       (CObject (mset (spread user) (js "id") id)) in
    publicKey ← prepare_list options (js "excludeCredentials") publicKey;
    Ok (match prop options (js "attestationFormats") with
        | VArray [] => List.filter (λ e, negb (e.1 =s js "attestationFormats")) publicKey
        | _ => publicKey
        end).

Definition prepareCredentialRequestOptions (payload : jsval) : result (list (jsstring * cvalue)) :=
  let options := payload_options payload in
  if negb (truthy options) then Err (options_missing (js "login"))
  else
    challenge ← decoded (prop options (js "challenge"));
    prepare_list options (js "allowCredentials") (mset (spread options) (js "challenge") challenge).

(** ** Results *)

(** What the browser's credential gives. *)
Record Credential := mkCredential {
  c_id : jsstring; c_rawId : bytes; c_type : jsstring; c_attachment : jsval; c_clientDataJSON : bytes;
  c_extensions : option jsval
}.
Record Attestation := mkAttestation { at_credential : Credential; attestationObject : bytes; transports : option jsval }.
Record Assertion := mkAssertion {
  as_credential : Credential; authenticatorData : bytes; signature : bytes; userHandle : option bytes
}.

Definition credential_result (c : Credential) (response : list (jsstring * jsval)) : jsval :=
  VObject [(js "id", VString (c_id c)); (js "rawId", VString (arrayBufferToBase64Url (Some (c_rawId c))));
           (js "type", VString (c_type c)); (js "authenticatorAttachment", c_attachment c);
           (js "response", VObject response);
           (js "clientExtensionResults", nullish_chain (default VUndefined (c_extensions c)) (VObject []))].
Definition buffer_text (b : bytes) : jsval := VString (arrayBufferToBase64Url (Some b)).

Definition buildRegistrationResult (credential : option Attestation) : option jsval :=
  a ← credential;
  Some (credential_result (at_credential a)
          [(js "attestationObject", buffer_text (attestationObject a));
           (js "clientDataJSON", buffer_text (c_clientDataJSON (at_credential a)));
           (js "transports", default VUndefined (transports a))]).
Definition buildAssertionResult (credential : option Assertion) : option jsval :=
  a ← credential;
  Some (credential_result (as_credential a)
          [(js "authenticatorData", buffer_text (authenticatorData a));
           (js "clientDataJSON", buffer_text (c_clientDataJSON (as_credential a)));
           (js "signature", buffer_text (signature a));
           (js "userHandle", match userHandle a with Some h => buffer_text h | None => VNull end)]).

Example base64url_text : arrayBufferToBase64Url (Some [251; 255; 254; 102]%N) = js "-__-Zg".
Proof. vm_compute. reflexivity. Qed.
Example base64url_padded : base64UrlToArrayBuffer (VString (js "-__-Zg==")) = Ok [251; 255; 254; 102]%N.
Proof. vm_compute. reflexivity. Qed.
Example base64url_number : base64UrlToArrayBuffer (VNumber (num_of_Z 1234)) = Ok [215; 109; 248]%N.
Proof. vm_compute. reflexivity. Qed.
Example base64url_bad : base64UrlToArrayBuffer (VString (js "a=b")) = Err invalid_character.
Proof. vm_compute. reflexivity. Qed.

(** * Round trips *)

#[local] Ltac Zify.zify_post_hook ::= Z.to_euclidean_division_equations.

Lemma list_ind3 {A} (P : list A → Prop) :
  P [] → (∀ a, P [a]) → (∀ a b, P [a; b]) → (∀ a b c l, P l → P (a :: b :: c :: l)) → ∀ l, P l.
Proof.
  intros H0 H1 H2 H3 l. assert (P l ∧ (∀ a, P (a :: l)) ∧ ∀ a b, P (a :: b :: l)) as [H _]; [|exact H].
  induction l as [|c l (IH1 & IH2 & IH3)]; [done|]. split_and!; [apply IH2|intros a; apply IH3|intros a b; by apply H3].
Qed.

Definition byte (n : N) : Prop := (n < 256)%N.

(** ** Digits *)

Lemma digit_char n : (n < 64)%N → base64_digit (base64_char n) = Some n.
Proof.
  intros Hn. unfold base64_char, base64_digit.
  repeat case_match; try (f_equal; lia); exfalso; lia.
Qed.

(** The characters of a base64url text. *)
Definition url_char (c : code_unit) : code_unit := (if c =? 43 then 45 else if c =? 47 then 95 else c)%N.
Definition url_safe (c : code_unit) : Prop :=
  (48 <= c <= 57 ∨ 65 <= c <= 90 ∨ 97 <= c <= 122 ∨ c = 45 ∨ c = 95)%N.
Lemma base64_char_range n : (n < 64)%N → (48 <= base64_char n <= 57 ∨ 65 <= base64_char n <= 90 ∨ 97 <= base64_char n <= 122
  ∨ base64_char n = 43 ∨ base64_char n = 47)%N.
Proof. intros Hn. unfold base64_char. repeat case_match; lia. Qed.

(** The text without its padding. *)
Fixpoint unpadded (s : bytes) : jsstring :=
  match s with
  | [] => []
  | [a] => [base64_char (a / 4); base64_char (a mod 4 * 16)]%N
  | [a; b] => [base64_char (a / 4); base64_char (a mod 4 * 16 + b / 16); base64_char (b mod 16 * 4)]%N
  | a :: b :: c :: s =>
      (base64_char (a / 4) :: base64_char (a mod 4 * 16 + b / 16) :: base64_char (b mod 16 * 4 + c / 64)
       :: base64_char (c mod 64) :: unpadded s)%N
  end.
Definition padding_of (s : jsstring) : jsstring := replicate ((4 - length s mod 4) mod 4) 61%N.

Lemma mod4_step n : (S (S (S (S n)))) mod 4 = n mod 4.
Proof. change (S (S (S (S n)))) with (4 + n). rewrite Nat.add_comm. change 4 with (1 * 4) at 1. by rewrite Nat.Div0.mod_add. Qed.

Lemma btoa_padding s : btoa s = unpadded s ++ padding_of (unpadded s).
Proof.
  induction s as [|a|a b|a b c s IH] using list_ind3; try reflexivity.
  cbn [btoa unpadded]. rewrite IH. unfold padding_of. cbn [length]. by rewrite mod4_step.
Qed.

Lemma unpadded_bytes s : Forall byte s → base64_bytes (unpadded s) = Some s.
Proof.
  unfold byte. induction s as [|a|a b|a b c s IH] using list_ind3; intros Hs; [done| | |];
    repeat (apply Forall_cons in Hs as [? Hs]); cbn [unpadded base64_bytes]; rewrite !digit_char by lia;
    cbn [mbind option_bind]; rewrite ?IH by done; cbn [mbind option_bind]; apply (f_equal Some); repeat (apply (f_equal2 cons); [lia|]); reflexivity.
Qed.

Lemma unpadded_range s : Forall byte s →
  Forall (λ c, 48 <= c <= 57 ∨ 65 <= c <= 90 ∨ 97 <= c <= 122 ∨ c = 43 ∨ c = 47)%N (unpadded s).
Proof.
  unfold byte. induction s as [|a|a b|a b c s IH] using list_ind3; intros Hs; [by constructor| | |];
    repeat (apply Forall_cons in Hs as [? Hs]); cbn [unpadded]; repeat (apply Forall_cons_2; [apply base64_char_range; lia|]);
    [by constructor..|by apply IH].
Qed.

Lemma unpadded_length s : length (unpadded s) mod 4 ≠ 1.
Proof.
  induction s as [|a|a b|a b c s IH] using list_ind3; [done..|]. cbn [unpadded length]. by rewrite mod4_step.
Qed.
Lemma unpadded_nil s : unpadded s = [] → s = [].
Proof. by destruct s as [|a [|b [|c s]]]. Qed.

(** ** The round trip *)

Lemma unpadded_no_padding s : Forall byte s → Forall (λ c, c ≠ 61%N) (map url_char (unpadded s)).
Proof.
  intros Hs%unpadded_range. apply Forall_map. eapply Forall_impl; [exact Hs|]. intros c Hc. cbn in Hc. unfold compose, url_char.
  repeat case_match; lia.
Qed.

Lemma drop_while_replicate (f : N → bool) n x l : f x = true → drop_while f (replicate n x ++ l) = drop_while f l.
Proof. intros Hf. induction n as [|n IH]; [done|]. cbn. by rewrite Hf. Qed.
Lemma strip_padding_spec n s : Forall (λ c, c ≠ 61%N) s → strip_padding (s ++ replicate n 61%N) = s.
Proof.
  intros Hs. unfold strip_padding. rewrite reverse_app, reverse_replicate, drop_while_replicate by done.
  rewrite drop_while_none; [apply reverse_involutive|]. destruct (reverse s) as [|c r] eqn:E; [done|].
  rewrite Forall_forall in Hs. apply N.eqb_neq, Hs. rewrite <- (reverse_involutive s), E, elem_of_reverse. by left.
Qed.

Lemma replace_app c d s t : replace_units c d (s ++ t) = replace_units c d s ++ replace_units c d t.
Proof. apply map_app. Qed.
Lemma replace_padding c d n : c ≠ 61%N → replace_units c d (replicate n 61%N) = replicate n 61%N.
Proof.
  intros Hc%not_eq_sym%N.eqb_neq. unfold replace_units. induction n as [|n IH]; [done|].
  change (replicate (S n) 61%N) with (61%N :: replicate n 61%N). rewrite map_cons, IH, Hc. done.
Qed.

Lemma base64url_unpadded s : Forall byte s → arrayBufferToBase64Url (Some s) = map url_char (unpadded s).
Proof.
  intros Hs. cbn [arrayBufferToBase64Url]. rewrite btoa_padding, !replace_app. unfold padding_of.
  rewrite !replace_padding by done. etrans; [|apply strip_padding_spec, unpadded_no_padding, Hs].
  f_equal. f_equal. unfold replace_units. rewrite map_map. apply map_ext. intros c. unfold url_char. repeat case_match; lia.
Qed.

Lemma url_char_back s : Forall byte s → replace_units 95 47 (replace_units 45 43 (map url_char (unpadded s))) = unpadded s.
Proof.
  intros Hs%unpadded_range. unfold replace_units. rewrite !map_map. etrans; [|apply map_id]. apply map_ext_Forall.
  eapply Forall_impl; [exact Hs|]. intros c Hc; cbn in Hc. unfold url_char. repeat case_match; lia.
Qed.

Lemma no_spaces s : Forall byte s → List.filter (λ c, negb (ascii_space c)) (btoa s) = btoa s.
Proof.
  intros Hs%unpadded_range. rewrite btoa_padding. unfold padding_of.
  assert (∀ l, Forall (λ c, c = 61 ∨ 43 <= c)%N l → List.filter (λ c, negb (ascii_space c)) l = l) as H.
  { induction 1 as [|c l Hc _ IH]; [done|]. cbn [List.filter]. rewrite IH. unfold ascii_space. cbn [existsb].
    repeat match goal with |- context [(?x =? ?y)%N] => rewrite (proj2 (N.eqb_neq x y)) by lia end. done. }
  apply H, Forall_app. split; [|apply Forall_replicate; by left]. eapply Forall_impl; [exact Hs|]. intros c Hc; cbn in Hc. lia.
Qed.

Lemma ends_with_one c s : ends_with [c] s = true ↔ ∃ r, s = r ++ [c].
Proof.
  unfold ends_with. rewrite starts_with_spec. split; intros [r Hr].
  - exists (reverse r). rewrite <- (reverse_involutive s), Hr. by rewrite reverse_app.
  - exists (reverse r). by rewrite Hr, reverse_app.
Qed.
Lemma drop_padding_one s : drop_padding (s ++ [61%N]) = s.
Proof.
  unfold drop_padding. rewrite (proj2 (ends_with_one _ _)) by (by exists s). rewrite length_app. cbn [length].
  by rewrite Nat.add_sub, take_app_length.
Qed.
Lemma drop_padding_none s : Forall (λ c, c ≠ 61%N) s → drop_padding s = s.
Proof.
  intros Hs. unfold drop_padding. destruct (ends_with [61%N] s) eqn:E; [|done].
  apply ends_with_one in E as [r ->]. apply (Forall_app (λ c, c ≠ 61%N)) in Hs as [_ Hs]. apply Forall_cons in Hs as [Hs _]. by destruct Hs.
Qed.

Lemma atob_btoa s : Forall byte s → atob (btoa s) = Ok s.
Proof.
  intros Hs. unfold atob. rewrite no_spaces by done.
  assert (Forall (λ c, c ≠ 61%N) (unpadded s)) as Hn.
  { eapply Forall_impl; [apply unpadded_range, Hs|]. intros c Hc. cbn in Hc. lia. }
  assert (length (btoa s) mod 4 = 0 ∧ drop_padding (drop_padding (btoa s)) = unpadded s) as [-> Hd].
  { rewrite btoa_padding. unfold padding_of. rewrite length_app, length_replicate. pose proof (unpadded_length s) as Hl.
    pose proof (Nat.mod_upper_bound (length (unpadded s)) 4 ltac:(done)).
    split; [clear Hn; generalize dependent (length (unpadded s)); intros n ? ?; rewrite Nat.Div0.add_mod;
      destruct (n mod 4) as [|[|[|[|]]]]; first [reflexivity|lia]|].
    destruct (length (unpadded s) mod 4) as [|[|[|[|]]]]; try (done || lia).
    - cbn [replicate Nat.sub Nat.modulo Nat.divmod fst]. rewrite app_nil_r. by rewrite !(drop_padding_none (unpadded s)).
    - change (replicate _ 61%N) with ([61] ++ [61])%N. rewrite app_assoc. by rewrite !drop_padding_one.
    - change (replicate _ 61%N) with [61]%N. rewrite drop_padding_one. by rewrite drop_padding_none. }
  cbn [Nat.eqb]. by rewrite Hd, unpadded_bytes.
Qed.

Lemma base64url_read s : Forall byte s →
  base64UrlToArrayBuffer (VString (arrayBufferToBase64Url (Some s))) = Ok s.
Proof.
  intros Hs. rewrite base64url_unpadded by done. unfold base64UrlToArrayBuffer. cbn [truthy].
  destruct (unpadded s) as [|c r] eqn:E; [by rewrite (unpadded_nil _ E)|].
  rewrite (proj2 (str_eqb_neq _ _)) by done. rewrite <- E. cbn [negb]. unfold decode_padded.
  rewrite !replace_app, url_char_back, !replace_padding, length_map by done. rewrite <- (atob_btoa s Hs). by rewrite btoa_padding.
Qed.
Lemma base64url_safe s : Forall byte s → Forall url_safe (arrayBufferToBase64Url (Some s)).
Proof.
  intros Hs. rewrite base64url_unpadded by done. apply Forall_map. eapply Forall_impl; [apply unpadded_range, Hs|].
  intros c Hc. cbn in Hc. unfold compose, url_char, url_safe. repeat case_match; lia.
Qed.

(** Bytes written as base64url for the server are read back as they were,
    whatever the bytes, and the text has none of the characters that have to be
    escaped in a URL: only letters, digits, the hyphen and the underscore. *)
Theorem base64url_round_trip s : Forall byte s →
  base64UrlToArrayBuffer (VString (arrayBufferToBase64Url (Some s))) = Ok s
  ∧ Forall url_safe (arrayBufferToBase64Url (Some s)).
Proof. intros Hs. split; [by apply base64url_read|by apply base64url_safe]. Qed.
Theorem base64url_round_trip_witness :
  base64UrlToArrayBuffer (VString (arrayBufferToBase64Url (Some [251; 255; 0; 7]%N))) = Ok [251; 255; 0; 7]%N
  ∧ Forall url_safe (arrayBufferToBase64Url (Some [251; 255; 0; 7]%N)).
Proof. apply (base64url_round_trip [251; 255; 0; 7]%N). repeat (apply Forall_cons_2; [reflexivity|]). apply Forall_nil_2. Defined.

(** ** Options *)

Lemma mget_spread entries key : mget (spread (VObject entries)) key = CJson <$> own entries key.
Proof.
  unfold spread. induction entries as [|[k v] entries IH]; [done|]. cbn [map fst snd mget own].
  case_decide as Hk; [subst; by rewrite str_eqb_refl|]. by rewrite (proj2 (str_eqb_neq _ _)) by done.
Qed.

Definition encoded (v : jsval) (b : bytes) : Prop := v = VString (arrayBufferToBase64Url (Some b)) ∧ Forall byte b.
Lemma decoded_encoded v b : encoded v b → decoded v = Ok (CBuffer b).
Proof. intros [-> Hb]. unfold decoded. by rewrite (base64url_read b Hb). Qed.

Lemma credential_item_encoded entries b : encoded (prop (VObject entries) (js "id")) b →
  credential_item (VObject entries) = Ok (CObject (mset (spread (VObject entries)) (js "id") (CBuffer b))).
Proof. intros H. unfold credential_item. by rewrite (decoded_encoded _ _ H). Qed.

Lemma mapM_result_ok {A B} (f : A → result B) (g : A → B) l : Forall (λ a, f a = Ok (g a)) l → mapM_result f l = Ok (map g l).
Proof. induction 1 as [|a l Ha _ IH]; [done|]. cbn. by rewrite Ha, IH. Qed.

(** The request options of the server with its challenge and its credentials as
    base64url texts: the challenge and each credential's id become the bytes
    they encode, and every other option is the one sent. *)
Theorem request_options_prepared payload entries challenge (credentials : list (list (jsstring * jsval) * bytes)) :
  payload_options payload = VObject entries →
  encoded (prop (VObject entries) (js "challenge")) challenge →
  own entries (js "allowCredentials") = Some (VArray (map (λ c, VObject c.1) credentials)) →
  Forall (λ c, encoded (prop (VObject c.1) (js "id")) c.2) credentials →
  ∃ publicKey, prepareCredentialRequestOptions payload = Ok publicKey
    ∧ mget publicKey (js "challenge") = Some (CBuffer challenge)
    ∧ mget publicKey (js "allowCredentials")
        = Some (CList (map (λ c, CObject (mset (spread (VObject c.1)) (js "id") (CBuffer c.2))) credentials))
    ∧ ∀ key, key ≠ js "challenge" → key ≠ js "allowCredentials" → mget publicKey key = CJson <$> own entries key.
Proof.
  intros Ho Hc Ha Hids. unfold prepareCredentialRequestOptions. rewrite Ho. cbn [truthy negb].
  rewrite (decoded_encoded _ _ Hc). cbn [mbind result_bind]. unfold prepare_list, prop at 1. rewrite Ha. cbn [default from_option id].
  rewrite (mapM_result_ok _ (λ v, match v with
    | VObject c => CObject (mset (spread v) (js "id") (match decoded (prop v (js "id")) with Ok b => b | Err _ => CList [] end))
    | _ => CList [] end)).
  - eexists. split; [reflexivity|]. rewrite map_map. split_and!.
    + rewrite !mget_mset, decide_False by done. by rewrite decide_True.
    + rewrite mget_mset, decide_True by done. do 2 f_equal. apply map_ext_Forall. eapply Forall_impl; [exact Hids|].
      intros c Hi. cbn beta iota. by rewrite (decoded_encoded _ _ Hi).
    + intros key H1 H2. rewrite !mget_mset, !decide_False by congruence. apply mget_spread.
  - apply Forall_map. eapply Forall_impl; [exact Hids|]. intros c Hi. unfold compose.
    by rewrite (credential_item_encoded _ _ Hi), (decoded_encoded _ _ Hi).
Qed.
