(* ===== verification/OAuthPopup.v ===== *)
(** * features/auth/lib: oauth-callback-mode.ts, oauth-bind-window.ts, oauth-popup.ts

    A sign-in with another provider in a window of its own. The page opens a
    popup and marks its session storage with the state it expects; the provider
    sends the popup back to /oauth/:provider, which finds the mark, posts what
    it was given to its opener and waits for the result. Here are the marks, the
    timers and the attempt of the opener as a state machine. *)

From S2P Require Import Prelude JsNumber JsText Types Runtime JsRegex JsMap JsValue ServerError.

(** ** Session storage *)

(** [getItem], [setItem] and [removeItem], which may throw. *)
Class ModeStorage (S : Type) := {
  getItem : S → jsstring → result (option jsstring);
  setItem : S → jsstring → jsstring → result S;
  removeItem : S → jsstring → result S
}.

(** A storage that works. *)
#[export] Instance entries_storage : ModeStorage (list (jsstring * jsstring)) := {
  getItem s key := Ok (mget s key);
  setItem s key text := Ok (mset s key text);
  removeItem s key := Ok (List.filter (λ e, negb (e.1 =s key)) s)
}.

Inductive Intent := Bind | Verify.
#[export] Instance Intent_eq_dec : EqDecision Intent.
Proof. solve_decision. Defined.
Definition intent_text (i : Intent) : jsstring := match i with Bind => js "bind" | Verify => js "verify" end.

(** The mode of a callback: a login, or a popup with its intent. *)
Inductive OAuthCallbackMode := LoginMode | PopupMode (intent : Intent).

Definition OAUTH_POPUP_CALLBACK_MESSAGE : jsstring := js "oauth:popup:callback".
Definition OAUTH_POPUP_RESULT_MESSAGE : jsstring := js "oauth:popup:result".
Definition TELEGRAM_BIND_RESULT_MESSAGE : jsstring := js "telegram:binding:result".
Definition OAUTH_POPUP_FLOW_KEY_PREFIX : jsstring := js "oauth_popup_flow:".

Section Modes.
Context {S : Type} `{ModeStorage S}.

Definition redirect_key (state : jsstring) : jsstring := js "oauth_login_redirect:" ++ state.

(** [storage] is [window.sessionStorage], whose access may throw. *)
Definition rememberOAuthLoginRedirect (storage : result S) (state : jsstring) (redirect : option jsstring) : result S :=
  match redirect, storage with
  | Some target, Ok s =>
      if target =s [] then storage
      else match setItem s (redirect_key state) target with Ok s => Ok s | Err _ => storage end
  | _, _ => storage
  end.
Definition consumeOAuthLoginRedirect (storage : result S) (state : jsstring) : option jsstring * result S :=
  match storage with
  | Err _ => (None, storage)
  | Ok s =>
      match getItem s (redirect_key state) with
      | Err _ => (None, storage)
      | Ok redirect =>
          match removeItem s (redirect_key state) with
          | Ok s => (redirect, Ok s)
          | Err _ => (None, storage)
          end
      end
  end.

(** [None]: no owner, or an access that throws. *)
Definition getOAuthSessionStorage (owner : option (result S)) : option S :=
  match owner with Some (Ok storage) => Some storage | _ => None end.

(** [JSON.stringify({ state, intent })]. *)
Definition marker_text (state : jsstring) (intent : Intent) : jsstring :=
  js "{" ++ json_stringify (js "state") ++ js ":" ++ json_stringify state ++ js "," ++
  json_stringify (js "intent") ++ js ":" ++ json_stringify (intent_text intent) ++ js "}".

Definition markOAuthPopup (storage : option S) (provider state : jsstring) (intent : Intent) : bool * option S :=
  match storage with
  | None => (false, storage)
  | Some s =>
      if (provider =s []) || (state =s []) then (false, storage)
      else
        let key := OAUTH_POPUP_FLOW_KEY_PREFIX ++ provider in
        let marker := marker_text state intent in
        match setItem s key marker with
        | Err _ => (false, storage)
        | Ok s =>
            match getItem s key with
            | Ok (Some text) => (text =s marker, Some s)
            | _ => (false, Some s)
            end
        end
  end.

(** [opener]: none, or whether it is closed. *)
Definition resolveOAuthCallbackMode (provider : jsstring) (state : jsval) (opener : option bool) (storage : option S)
    : OAuthCallbackMode :=
  match opener, storage with
  | Some false, Some s =>
      if negb (truthy state) then LoginMode
      else
        match getItem s (OAUTH_POPUP_FLOW_KEY_PREFIX ++ provider) with
        | Ok (Some text) =>
            if text =s [] then LoginMode
            else
              match json_parse text with
              | Ok (VObject marker) =>
                  match own marker (js "state"), own marker (js "intent") with
                  | Some marked, Some intent =>
                      if negb (strict_eq marked state) then LoginMode
                      else if is_text intent (js "bind") then PopupMode Bind
                      else if is_text intent (js "verify") then PopupMode Verify
                      else LoginMode
                  | _, _ => LoginMode
                  end
              | _ => LoginMode
              end
        | _ => LoginMode
        end
  | _, _ => LoginMode
  end.
End Modes.

(** ** Timers *)

(** [active] of a watcher or a deadline, and whether its timer is running. *)
Record Timer := mkTimer { active : bool; running : bool }.
Definition start_timer : Timer := mkTimer true true.
Definition stopped_timer : Timer := mkTimer false false.

(** The function that [watchOAuthPopupClosed] and
    [startOAuthBindResponseDeadline] return. *)
Definition stop_timer (w : Timer) : Timer := if active w then stopped_timer else w.
(** A tick of the interval: the watcher, and whether [onClosed] is called. *)
Definition watch_tick (popup_closed : bool) (w : Timer) : Timer * bool :=
  if negb (active w) || negb popup_closed then (w, false) else (stopped_timer, true).
(** The timeout: the deadline, and whether [onTimeout] is called. *)
Definition deadline_fires (d : Timer) : Timer * bool :=
  if negb (active d) then (mkTimer (active d) false, false) else (stopped_timer, true).

(** ** The attempt of the opener *)

Record OAuthPopupCallback := mkCallback {
  cb_provider : jsstring;
  cb_state : jsstring;
  cb_code : jsval;
  cb_error : jsval;
  cb_errorDescription : option jsstring
}.
Record Authorization := mkAuthorization { auth_state : jsstring; auth_url : jsstring }.
Record MessageEvent := mkMessage { m_origin : jsstring; m_from_popup : bool; m_data : jsval }.
Record Outcome := mkOutcome { o_success : bool; o_message : option jsstring }.

(** The popup as its opener sees it; [posted] is what was sent to it. *)
Record Window (S : Type) := mkWindow {
  w_closed : bool;
  w_storage : option S;
  w_location : option jsstring;
  w_posted : list jsval
}.
Arguments mkWindow {S}.
Arguments w_closed {S}.
Arguments w_storage {S}.
Arguments w_location {S}.
Arguments w_posted {S}.

(** The variables of the promise; [aborted] is the reason of the controller,
    [settled] what the promise settled to. *)
Record Attempt (S : Type) := mkAttempt {
  a_state : jsstring;
  received : bool;
  finished : bool;
  listening : bool;
  abort_listening : bool;
  watcher : Timer;
  deadline : bool;
  preparing : bool;
  aborted : option Failure;
  settled : option (OAuthPopupCallback + Failure);
  popup : Window S
}.
Arguments mkAttempt {S}.
Arguments a_state {S}.
Arguments received {S}.
Arguments finished {S}.
Arguments listening {S}.
Arguments abort_listening {S}.
Arguments watcher {S}.
Arguments deadline {S}.
Arguments preparing {S}.
Arguments aborted {S}.
Arguments settled {S}.
Arguments popup {S}.

(** What happens to an attempt. [Finish] is the call of [finish] by the holder
    of the exchange; [UserCloses] is the popup closed by the user. *)
Inductive PopupEvent (E : Type) :=
  | MessageArrives (event : MessageEvent)
  | Aborts (reason : thrown E)
  | WatchTick
  | DeadlineFires
  | Prepared (r : Authorization + thrown E)
  | Finish (result : Outcome)
  | UserCloses.
Arguments MessageArrives {E}.
Arguments Aborts {E}.
Arguments WatchTick {E}.
Arguments DeadlineFires {E}.
Arguments Prepared {E}.
Arguments Finish {E}.
Arguments UserCloses {E}.

Definition popup_blocked : Failure := mkFailure (js "OAuth pop-up was blocked") None.
Definition popup_cancelled : Failure := mkFailure (js "OAuth authorization was cancelled.") (Some (js "AUTH_CANCELLED")).
Definition popup_timed_out : Failure := mkFailure (js "OAuth authorization timed out. Please try again.") None.
Definition storage_unavailable : Failure := mkFailure (js "OAuth popup storage is unavailable.") None.

Section Attempt.
Context {S : Type} `{ModeStorage S}.
Context {E : Type} `{ErrorSource E}.
(** The options, [window.location.origin], and whether [location.replace]
    takes a URL, with the error it throws otherwise. *)
Context (provider : jsstring) (intent : Intent) (origin : jsstring).
Context (replace_error : jsstring → option E).

Definition cleanup (a : Attempt S) : Attempt S :=
  mkAttempt (a_state a) (received a) (finished a) false false (stop_timer (watcher a)) false (preparing a)
    (aborted a) (settled a) (popup a).
(** [if (!popup.closed) popup.close()]. *)
Definition close_window (w : Window S) : Window S := mkWindow true (w_storage w) (w_location w) (w_posted w).

(** A promise settles once, a controller aborts once. *)
Definition fail (error : thrown E) (a : Attempt S) : Attempt S :=
  if finished a then a
  else
    let failure := from_thrown error in
    let a := cleanup a in
    mkAttempt (a_state a) (received a) true (listening a) (abort_listening a) (watcher a) (deadline a) (preparing a)
      (Some (default failure (aborted a))) (Some (default (inr failure) (settled a))) (close_window (popup a)).

Definition result_message (a : Attempt S) (result : Outcome) : jsval :=
  VObject ([(js "type", VString OAUTH_POPUP_RESULT_MESSAGE); (js "intent", VString (intent_text intent));
            (js "provider", VString provider); (js "state", VString (a_state a));
            (js "success", VBoolean (o_success result))]
           ++ match o_message result with Some m => [(js "message", VString m)] | None => [] end).
Definition finish (result : Outcome) (a : Attempt S) : Attempt S :=
  if finished a then a
  else
    let a := cleanup a in
    let w := popup a in
    mkAttempt (a_state a) (received a) true (listening a) (abort_listening a) (watcher a) (deadline a) (preparing a)
      (aborted a) (settled a)
      (if w_closed w then w
       else mkWindow true (w_storage w) (w_location w) (w_posted w ++ [result_message a result])).

(** The message that [onMessage] accepts. *)
Definition accepts (a : Attempt S) (event : MessageEvent) : bool :=
  let message := m_data event in
  negb (received a || finished a || (a_state a =s []) || negb (m_origin event =s origin) || negb (m_from_popup event))
  && negb (negb (truthy message) || negb (is_text (prop message (js "type")) OAUTH_POPUP_CALLBACK_MESSAGE)
           || negb (is_text (prop message (js "intent")) (intent_text intent))
           || negb (is_text (prop message (js "provider")) provider)
           || negb (is_text (prop message (js "state")) (a_state a)))
  && (is_string (prop message (js "code")) || is_string (prop message (js "error"))).

Definition callback_of (a : Attempt S) (message : jsval) : OAuthPopupCallback :=
  mkCallback provider (a_state a) (prop message (js "code")) (prop message (js "error"))
    (match prop message (js "errorDescription") with VString s => Some s | _ => None end).

Definition onMessage (event : MessageEvent) (a : Attempt S) : Attempt S :=
  if accepts a event then
    mkAttempt (a_state a) true (finished a) false (abort_listening a) (stop_timer (watcher a)) false (preparing a)
      (aborted a) (Some (default (inl (callback_of a (m_data event))) (settled a))) (popup a)
  else a.

(** What [prepare] gives: the mark and the navigation, or the failure. *)
Definition on_prepared (r : Authorization + thrown E) (a : Attempt S) : Attempt S :=
  let a := mkAttempt (a_state a) (received a) (finished a) (listening a) (abort_listening a) (watcher a) (deadline a)
             false (aborted a) (settled a) (popup a) in
  match r with
  | inr error => fail error a
  | inl authorization =>
      if finished a || w_closed (popup a) then a
      else
        let '(marked, storage) := markOAuthPopup (w_storage (popup a)) provider (auth_state authorization) intent in
        let with_location := λ location,
          mkAttempt (auth_state authorization) (received a) (finished a) (listening a) (abort_listening a) (watcher a)
            (deadline a) false (aborted a) (settled a)
            (mkWindow (w_closed (popup a)) storage location (w_posted (popup a))) in
        if negb marked then fail (Auth storage_unavailable) (with_location (w_location (popup a)))
        else
          match replace_error (auth_url authorization) with
          | Some error => fail (Raised error) (with_location (w_location (popup a)))
          | None => with_location (Some (auth_url authorization))
          end
  end.

(** Before anything happens. *)
Definition initial_attempt (window : Window S) : Attempt S :=
  mkAttempt [] false false true true start_timer true true None None window.

(** [signal]: the reason it is aborted for; [opened]: what [window.open] gives. *)
Definition openOAuthPopup (signal : option (thrown E)) (opened : option (Window S)) : Attempt S + thrown E :=
  match signal, opened with
  | Some reason, _ => inr reason
  | None, None => inr (Auth popup_blocked)
  | None, Some window => inl (initial_attempt window)
  end.

(** Listeners that were removed and timers that were cleared do not run;
    [finish] is called by who was given the exchange. *)
Definition popup_step (a : Attempt S) (e : PopupEvent E) : Attempt S :=
  match e with
  | MessageArrives event => if listening a then onMessage event a else a
  | Aborts reason => if abort_listening a then fail reason a else a
  | WatchTick =>
      if running (watcher a) then
        let '(w, closed) := watch_tick (w_closed (popup a)) (watcher a) in
        let a := mkAttempt (a_state a) (received a) (finished a) (listening a) (abort_listening a) w (deadline a)
                   (preparing a) (aborted a) (settled a) (popup a) in
        if closed : bool then fail (Auth popup_cancelled) a else a
      else a
  | DeadlineFires => if deadline a then fail (Auth popup_timed_out) a else a
  | Prepared r => if preparing a then on_prepared r a else a
  | Finish result => match settled a with Some (inl _) => finish result a | _ => a end
  | UserCloses =>
      mkAttempt (a_state a) (received a) (finished a) (listening a) (abort_listening a) (watcher a) (deadline a)
        (preparing a) (aborted a) (settled a) (close_window (popup a))
  end.
Definition popup_run (window : Window S) (events : list (PopupEvent E)) : Attempt S :=
  foldl popup_step (initial_attempt window) events.
End Attempt.
