(* ===== verification/OAuthPopupFacts.v ===== *)
(** * The popup of a sign-in with another provider: theorems

    The phases of an attempt, what its promise settles to, and the mark that
    the popup is recognized by. *)

From S2P Require Import Prelude JsNumber JsText Types Runtime JsRegex JsRegexFacts JsMap JsValue JsObject ServerError OAuthPopup.

(** ** Marks *)

Lemma json_value_text fuel s r : code_units s → json_value (S fuel) (json_stringify s ++ r) = Some (VString s, r).
Proof.
  intros Hs. rewrite json_value_step. unfold json_stringify. rewrite <- !app_assoc. cbn [app].
  change (json_skip (34%N :: ?x)) with (34%N :: x). cbv iota. change (34 =? 34)%N with true. cbv iota.
  by rewrite json_string_quote_units.
Qed.

(** An entry of an object written without white space. *)
Lemma entries_loop_text fuel m k v r acc :
  code_units k → code_units v →
  entries_loop (json_value (S fuel)) (S m) (json_stringify k ++ 58%N :: json_stringify v ++ r) acc =
  match json_skip r with
  | 44%N :: r => entries_loop (json_value (S fuel)) m r (map_set acc k (VString v))
  | 125%N :: r => Some (VObject (map_set acc k (VString v)), r)
  | _ => None
  end.
Proof.
  intros Hk Hv. cbn [entries_loop]. unfold json_stringify at 1. rewrite <- !app_assoc. cbn [app].
  change (json_skip (34%N :: ?x)) with (34%N :: x). cbv iota. rewrite json_string_quote_units by done.
  cbn [mbind option_bind app]. change (json_skip (58%N :: ?x)) with (58%N :: x). cbv iota.
  by rewrite json_value_text.
Qed.

Lemma json_parse_marker state i :
  code_units state →
  json_parse (marker_text state i) = Ok (VObject [(js "state", VString state); (js "intent", VString (intent_text i))]).
Proof.
  intros Hs. unfold json_parse.
  assert (marker_text state i = 123%N :: (json_stringify (js "state") ++ 58%N :: json_stringify state ++ 44%N ::
            (json_stringify (js "intent") ++ 58%N :: json_stringify (intent_text i) ++ [125%N]))) as -> by reflexivity.
  set (second := json_stringify (js "intent") ++ 58%N :: json_stringify (intent_text i) ++ [125%N]).
  set (body := json_stringify (js "state") ++ 58%N :: json_stringify state ++ 44%N :: second).
  assert (∃ n, length (123%N :: body) = S (S (S n))) as [n ->] by (eexists; reflexivity).
  rewrite json_value_step. change (json_skip (123%N :: ?x)) with (123%N :: x). cbv iota.
  change (123 =? 34)%N with false. change (123 =? 91)%N with false. change (123 =? 123)%N with true. cbv iota.
  rewrite match_125 by done. unfold body.
  assert (code_units (js "state")) as H1 by (repeat constructor).
  assert (code_units (js "intent")) as H2 by (repeat constructor).
  assert (code_units (intent_text i)) as H3 by (destruct i; repeat constructor).
  rewrite entries_loop_text by done. change (json_skip (44%N :: ?x)) with (44%N :: x). cbv iota.
  unfold second. rewrite entries_loop_text by done. reflexivity.
Qed.

Section Marks.
Context {S : Type} `{ModeStorage S}.

Lemma mark_stored (storage : option S) provider state i x :
  markOAuthPopup storage provider state i = (true, x) →
  provider ≠ [] ∧ state ≠ [] ∧ ∃ s, x = Some s ∧ getItem s (OAUTH_POPUP_FLOW_KEY_PREFIX ++ provider) = Ok (Some (marker_text state i)).
Proof.
  unfold markOAuthPopup. destruct storage as [s|]; [|done].
  destruct ((provider =s []) || (state =s [])) eqn:He; [done|]. apply orb_false_iff in He as [Hp Hst].
  destruct (setItem s _ _) as [s1|] eqn:Hset; [|done]. destruct (getItem s1 _) as [[text|]|] eqn:Hget; [|done..].
  intros [= Ht <-]. apply str_eqb_eq in Ht. subst text.
  split; [by apply str_eqb_neq|]. split; [by apply str_eqb_neq|]. by exists s1.
Qed.

(** A marked popup is recognized, and only it. Once the storage has taken the
    mark of a provider, state and intent, a callback of that provider is
    handled with that intent exactly when it carries that state and its opener
    is still open; any other is a login. *)
Theorem mark_recognized (storage : option S) provider state i s st opener :
  markOAuthPopup storage provider state i = (true, Some s) → code_units state →
  resolveOAuthCallbackMode provider st opener (Some s)
  = if bool_decide (opener = Some false) && is_text st state then PopupMode i else LoginMode.
Proof.
  intros (_ & Hne & s' & [= <-] & Hget)%mark_stored Hs. unfold resolveOAuthCallbackMode.
  destruct opener as [[]|]; [done| |done]. rewrite bool_decide_true by done. cbn [andb].
  destruct (negb (truthy st)) eqn:Ht.
  - destruct (is_text st state) eqn:E; [|done]. destruct st as [| | | |t| |]; try done. cbn in E.
    apply str_eqb_eq in E. subst t. cbn in Ht. by rewrite (proj2 (str_eqb_neq _ _) Hne) in Ht.
  - rewrite Hget. change (marker_text state i =s []) with false. cbv iota. rewrite json_parse_marker by done.
    change (own [(js "state", ?a); (js "intent", ?b)] (js "state")) with (Some a).
    change (own [(js "state", ?a); (js "intent", ?b)] (js "intent")) with (Some b). cbv iota.
    assert (strict_eq (VString state) st = is_text st state) as ->.
    { destruct st as [| | | |t| |]; try done. cbn [strict_eq is_text]. unfold str_eqb. apply bool_decide_ext. naive_solver. }
    destruct (is_text st state); [|done]. by destruct i.
Qed.
End Marks.

Lemma mark_recognized_witness :
  resolveOAuthCallbackMode (js "github") (VString (js "s1")) (Some false)
    (markOAuthPopup (Some []) (js "github") (js "s1") Verify).2 = PopupMode Verify.
Proof.
  assert (markOAuthPopup (S := list (jsstring * jsstring)) (Some []) (js "github") (js "s1") Verify
          = (true, Some [(OAUTH_POPUP_FLOW_KEY_PREFIX ++ js "github", marker_text (js "s1") Verify)])) as Hm by reflexivity.
  etrans; [|apply (mark_recognized (Some []) (js "github") (js "s1") Verify _ (VString (js "s1")) (Some false) Hm);
            repeat constructor]. by rewrite Hm.
Defined.

(** ** The phases of an attempt *)

Section Phases.
Context {S : Type} `{ModeStorage S} {E : Type} `{ErrorSource E}.
Context (provider : jsstring) (intent : Intent) (origin : jsstring) (replace_error : jsstring → option E).

Abbreviation step := (popup_step provider intent origin replace_error).
Abbreviation run := (popup_run provider intent origin replace_error).

(** Waiting for the callback: everything is armed, nothing is settled. *)
Record waiting (a : Attempt S) : Prop := {
  waiting_flags : received a = false ∧ finished a = false ∧ listening a = true ∧ abort_listening a = true;
  waiting_timers : watcher a = start_timer ∧ deadline a = true;
  waiting_open : settled a = None ∧ aborted a = None;
  waiting_state : preparing a = true → a_state a = []
}.
(** The callback was given out: only an abort is still listened for. *)
Record exchanging (a : Attempt S) : Prop := {
  exchanging_flags : received a = true ∧ finished a = false ∧ listening a = false ∧ abort_listening a = true;
  exchanging_timers : watcher a = stopped_timer ∧ deadline a = false ∧ preparing a = false;
  exchanging_settled : (∃ cb, settled a = Some (inl cb)) ∧ aborted a = None
}.
(** Over: nothing is armed and the popup is closed. *)
Record over (a : Attempt S) : Prop := {
  over_flags : finished a = true ∧ listening a = false ∧ abort_listening a = false;
  over_timers : watcher a = stopped_timer ∧ deadline a = false;
  over_settled : is_Some (settled a) ∧ w_closed (popup a) = true
}.

Lemma waiting_fail e a : waiting a → over (fail e a) ∧ settled (fail e a) = Some (inr (from_thrown e)).
Proof.
  intros [(Hr & Hf & Hl & Ha) (Hw & Hd) (Hs & Hab) Hst]. unfold fail. rewrite Hf. cbn.
  rewrite Hw, Hs. split; [|done]. by split.
Qed.
Lemma exchanging_fail e a : exchanging a → over (fail e a) ∧ settled (fail e a) = settled a.
Proof.
  intros [(Hr & Hf & Hl & Ha) (Hw & Hd & Hp) ([cb Hs] & Hab)]. unfold fail. rewrite Hf. cbn.
  rewrite Hw, Hs. split; [|done]. by split.
Qed.
Lemma over_fail e a : over a → fail e a = a.
Proof. intros [(Hf & _) _ _]. unfold fail. by rewrite Hf. Qed.
Lemma exchanging_finish r a : exchanging a → over (finish provider intent r a) ∧ settled (finish provider intent r a) = settled a.
Proof.
  intros [(Hr & Hf & Hl & Ha) (Hw & Hd & Hp) ([cb Hs] & Hab)]. unfold finish. rewrite Hf. cbn.
  rewrite Hw, Hs. split; [|done]. split; cbn; [done..|]. split; [done|]. by destruct (w_closed (popup a)) eqn:E1.
Qed.

(** An accepted message is a callback for the state, intent and provider. *)
Record authentic (a : Attempt S) (event : MessageEvent) : Prop := {
  authentic_source : m_origin event = origin ∧ m_from_popup event = true;
  authentic_target : prop (m_data event) (js "type") = VString OAUTH_POPUP_CALLBACK_MESSAGE ∧
                     prop (m_data event) (js "intent") = VString (intent_text intent) ∧
                     prop (m_data event) (js "provider") = VString provider ∧
                     prop (m_data event) (js "state") = VString (a_state a) ∧ a_state a ≠ [];
  authentic_answer : is_string (prop (m_data event) (js "code")) || is_string (prop (m_data event) (js "error")) = true
}.

Lemma is_text_true v s : is_text v s = true → v = VString s.
Proof. destruct v; try done. cbn. by intros ->%str_eqb_eq. Qed.

Lemma accepts_authentic a event : accepts provider intent origin a event = true → authentic a event.
Proof.
  unfold accepts. intros [[H1 H2]%andb_true_iff H3]%andb_true_iff. apply negb_true_iff in H1, H2.
  repeat (apply orb_false_iff in H1 as [H1 ?]). repeat (apply orb_false_iff in H2 as [H2 ?]).
  repeat match goal with H : negb _ = false |- _ => apply negb_false_iff in H end.
  split; [split; [by apply str_eqb_eq|done]| |done].
  split_and!; try (by apply is_text_true). by apply str_eqb_neq.
Qed.

Lemma waiting_message a event :
  waiting a → onMessage provider intent origin event a = a ∨
  authentic a event ∧ exchanging (onMessage provider intent origin event a) ∧
    settled (onMessage provider intent origin event a) = Some (inl (callback_of provider a (m_data event))) ∧
    a_state (onMessage provider intent origin event a) = a_state a.
Proof.
  intros [(Hr & Hf & Hl & Ha) (Hw & Hd) (Hs & Hab) Hst]. unfold onMessage.
  destruct (accepts _ _ _ a event) eqn:Hacc; [|by left]. right. apply accepts_authentic in Hacc. split; [done|].
  rewrite Hs, Hw. split; [|done]. split; cbn; [done| |split; [by eexists|done]].
  split_and!; [done..|]. destruct (preparing a) eqn:Hp; [|done]. destruct Hacc as [_ (_ & _ & _ & _ & Hne) _].
  by rewrite (Hst eq_refl) in Hne.
Qed.

Lemma waiting_prepared r a :
  waiting a → preparing a = true →
  (over (on_prepared provider intent replace_error r a) ∧
     ∃ e, settled (on_prepared provider intent replace_error r a) = Some (inr e)) ∨
  waiting (on_prepared provider intent replace_error r a) ∧
    (w_closed (popup a) = true ∧ a_state (on_prepared provider intent replace_error r a) = [] ∨
     ∃ auth, r = inl auth ∧ a_state (on_prepared provider intent replace_error r a) = auth_state auth ∧
       markOAuthPopup (w_storage (popup a)) provider (auth_state auth) intent
       = (true, w_storage (popup (on_prepared provider intent replace_error r a)))).
Proof.
  intros Hwait Hprep. pose proof Hwait as [(Hr & Hf & Hl & Ha) (Hw & Hd) (Hs & Hab) Hst]. unfold on_prepared.
  destruct r as [auth|e].
  - rewrite Hf. cbn [finished popup w_closed orb]. destruct (w_closed (popup a)) eqn:Hc.
    { right. split; [by split|]. left. split; [done|by apply Hst]. }
    cbn [popup w_storage]. destruct (markOAuthPopup (w_storage (popup a)) provider (auth_state auth) intent) as [marked storage] eqn:Hm.
    destruct marked; cbn [negb].
    + destruct (replace_error (auth_url auth)) as [e|]; [left|right].
      * edestruct (waiting_fail (Raised e)) as [Ho He]; [|split; [exact Ho|by eexists]]. by split.
      * split; [by split|]. right. exists auth. by rewrite Hm.
    + left. edestruct (waiting_fail (Auth storage_unavailable)) as [Ho He]; [|split; [exact Ho|by eexists]]. by split.
  - left. edestruct (waiting_fail e) as [Ho He]; [|split; [exact Ho|by eexists]]. by split.
Qed.

Lemma waiting_step a e :
  waiting a → waiting (step a e) ∧ settled (step a e) = None ∨ exchanging (step a e) ∨ over (step a e).
Proof.
  intros Hwait. pose proof Hwait as [(Hr & Hf & Hl & Ha) (Hw & Hd) (Hs & Hab) Hst].
  destruct e as [event|reason| | |r|result|]; cbn [popup_step].
  - rewrite Hl. destruct (waiting_message a event Hwait) as [->|(_ & Hx & _)]; [left|right; by left]. by split.
  - rewrite Ha. right. right. by apply waiting_fail.
  - rewrite Hw. unfold watch_tick. cbn [running start_timer active negb orb].
    destruct (w_closed (popup a)); cbn [negb]; [right; right|left; by split]. unfold fail. cbn [finished]. rewrite Hf. cbn.
    rewrite Hs. by split.
  - rewrite Hd. right. right. by apply waiting_fail.
  - destruct (preparing a) eqn:Hp; [|left; by split].
    destruct (waiting_prepared r a Hwait Hp) as [[Ho _]|[Hx _]]; [right; by right|left]. split; [done|]. by destruct Hx as [_ _ [? _] _].
  - rewrite Hs. left. by split.
  - left. split; [by split|done].
Qed.

Lemma exchanging_step a e :
  exchanging a → (exchanging (step a e) ∨ over (step a e)) ∧ settled (step a e) = settled a.
Proof.
  intros Hx. pose proof Hx as [(Hr & Hf & Hl & Ha) (Hw & Hd & Hp) ([cb Hs] & Hab)].
  destruct e as [event|reason| | |r|result|]; cbn [popup_step].
  - rewrite Hl. split; [by left|done].
  - rewrite Ha. destruct (exchanging_fail reason a Hx). split; [by right|done].
  - rewrite Hw. split; [by left|done].
  - rewrite Hd. split; [by left|done].
  - rewrite Hp. split; [by left|done].
  - rewrite Hs. destruct (exchanging_finish result a Hx) as [? Hfin]. rewrite Hs in Hfin. split; [by right|done].
  - split; [left|done]. split; [done..|]. cbn. split; [by eexists|done].
Qed.

(** What others see of an attempt that is over never changes again. *)
Definition outside (a : Attempt S) := (settled a, aborted a, popup a).
Lemma over_step a e : over a → over (step a e) ∧ outside (step a e) = outside a.
Proof.
  intros Hx. pose proof Hx as [(Hf & Hl & Ha) (Hw & Hd) (Hs & Hc)].
  destruct e as [event|reason| | |r|result|]; cbn [popup_step].
  - by rewrite Hl.
  - by rewrite Ha.
  - by rewrite Hw.
  - by rewrite Hd.
  - destruct (preparing a); [|done]. unfold on_prepared. destruct r as [auth|e]; cbn [finished]; rewrite ?Hf; cbn [orb].
    + split; [by split|done].
    + unfold fail. cbn [finished]. split; [by split|done].
  - destruct (settled a) as [[]|] eqn:Es; [|done..]. unfold finish. by rewrite Hf.
  - split; [by split|]. unfold outside, close_window. cbn. destruct (popup a). cbn in Hc. by rewrite Hc.
Qed.

Lemma phases window events : waiting (run window events) ∧ settled (run window events) = None ∨
  exchanging (run window events) ∨ over (run window events).
Proof.
  unfold popup_run. induction events as [|e events IH] using rev_ind; [left; by split|].
  rewrite foldl_app. cbn [foldl]. destruct IH as [[Hw _]|[Hx|Ho]].
  - by apply waiting_step.
  - destruct (exchanging_step _ e Hx) as [[?|?] _]; auto.
  - right. right. by apply over_step.
Qed.

Lemma run_app window before more : run window (before ++ more) = foldl step (run window before) more.
Proof. apply foldl_app. Qed.

(** C18. The life of an attempt. At every moment an attempt waits with its message
    listener, abort listener, close watcher and deadline all armed; or has
    given out its callback and listens only for an abort; or is over, with
    nothing armed and the popup closed. A settlement is final; what waits is
    ended by the deadline, by an abort and, once the popup is closed, by the
    next tick; an attempt that is over is inert. *)
Theorem attempt_lifecycle window before more :
  let a := run window before in
  (waiting a ∧ settled a = None ∨ exchanging a ∨ over a) ∧
  (∀ r, settled a = Some r → settled (run window (before ++ more)) = Some r) ∧
  (settled a = None →
     settled (step a DeadlineFires) = Some (inr popup_timed_out) ∧
     (∀ reason, settled (step a (Aborts reason)) = Some (inr (from_thrown reason))) ∧
     (w_closed (popup a) = true → settled (step a WatchTick) = Some (inr popup_cancelled))) ∧
  (over a → outside (run window (before ++ more)) = outside a ∧ over (run window (before ++ more))).
Proof.
  intros a. pose proof (phases window before) as Hphase. fold a in Hphase. split; [done|]. rewrite run_app. fold a. split_and!.
  - intros r Hr. assert (exchanging a ∨ over a) as Hx by (destruct Hphase as [[_ Hn]|?]; [congruence|done]). clear Hphase.
    revert Hr Hx. generalize a. clear. induction more as [|e more IH]; intros a Hr Hx; [done|]. cbn [foldl].
    destruct Hx as [Hx|Hx].
    + destruct (exchanging_step a e Hx) as [Hx' Hs]. apply IH; [by rewrite Hs|done].
    + destruct (over_step a e Hx) as [Hx' Hs]. apply IH; [|by right]. injection Hs as Hs _ _. by rewrite Hs.
  - intros Hn. assert (waiting a) as Hw by (destruct Hphase as [[? _]|[[_ _ [[? ?] _]]|[_ _ [[? ?] _]]]]; [done|congruence..]).
    pose proof Hw as [(Hr & Hf & Hl & Ha) (Hw1 & Hd) (Hs & Hab) Hst]. split_and!.
    + cbn [popup_step]. rewrite Hd. by apply waiting_fail.
    + intros reason. cbn [popup_step]. rewrite Ha. by apply waiting_fail.
    + intros Hc. cbn [popup_step]. rewrite Hw1. unfold watch_tick. cbn [running start_timer active negb orb]. rewrite Hc. cbn [negb].
      unfold fail. cbn [finished]. rewrite Hf. cbn. by rewrite Hs.
  - generalize a. clear. induction more as [|e more IH]; intros a Ho; [done|]. cbn [foldl].
    destruct (over_step a e Ho) as [Ho' Hs]. destruct (IH _ Ho') as [-> ?]. done.
Qed.

Lemma state_step a e : a_state (step a e) = a_state a ∨ preparing a = true ∧ ∃ r, e = Prepared r.
Proof.
  assert (∀ x (b : Attempt S), a_state (fail x b) = a_state b) as Hfail by (intros; unfold fail; by destruct (finished b)).
  destruct e as [event|reason| | |r|result|]; cbn [popup_step].
  - left. destruct (listening a); [|done]. unfold onMessage. by destruct (accepts _ _ _ _ _).
  - left. destruct (abort_listening a); [apply Hfail|done].
  - left. destruct (running (watcher a)); [|done]. destruct (watch_tick _ _) as [w [|]]; [by rewrite Hfail|done].
  - left. destruct (deadline a); [apply Hfail|done].
  - destruct (preparing a); [right; split; [done|by eexists]|by left].
  - left. destruct (settled a) as [[]|]; [|done..]. unfold finish. by destruct (finished a).
  - by left.
Qed.

Lemma waiting_settled a : waiting a → settled a = None.
Proof. by intros [_ _ [? _] _]. Qed.

(** A waiting attempt with a state got it from its preparation. *)
Lemma prepared_state window events :
  waiting (run window events) → a_state (run window events) ≠ [] →
  ∃ before auth after storage, events = before ++ Prepared (inl auth) :: after ∧
    auth_state auth = a_state (run window events) ∧
    markOAuthPopup (w_storage (popup (run window before))) provider (auth_state auth) intent = (true, Some storage).
Proof.
  induction events as [|e events IH] using rev_ind; [done|]. rewrite run_app. cbn [foldl].
  set (a := run window events) in *. intros Hw Hne. pose proof (waiting_settled _ Hw) as Hnone.
  destruct (phases window events) as [[Hwa _]|Hx].
  2: { exfalso. fold a in Hx. destruct Hx as [Hx|Hx].
       - destruct (exchanging_step a e Hx) as [_ Hs]. rewrite Hs in Hnone. by destruct Hx as [_ _ [[cb Hcb] _]]; rewrite Hcb in Hnone.
       - destruct (over_step a e Hx) as [_ Hs]. injection Hs as Hs _ _. rewrite Hs in Hnone.
         by destruct Hx as [_ _ [[r Hr] _]]; rewrite Hr in Hnone. }
  fold a in Hwa.
  destruct (state_step a e) as [Hsame|[Hp [r ->]]].
  - rewrite Hsame in Hne |- *. destruct (IH Hwa Hne) as (before & auth & after & storage & -> & Hst & Hm).
    exists before, auth, (after ++ [e]), storage. split_and!; [by rewrite <- app_assoc|done..].
  - cbn [popup_step] in Hw, Hne, Hnone |- *. rewrite Hp in Hw, Hne, Hnone |- *.
    destruct (waiting_prepared r a Hwa Hp) as [[_ [x Hx]]|[_ [[_ Hx]|(auth & -> & Hst & Hm)]]]; [congruence..|].
    pose proof Hm as (_ & _ & s & Hs & _)%mark_stored.
    exists events, auth, [], s. split_and!; [done|done|]. rewrite Hs in Hm. exact Hm.
Qed.

(** C17. A callback that is given out is authentic. It was posted by the popup
    itself, from the origin of the page, for the intent and provider of the
    attempt, after the preparation had given a state and the popup had been
    marked with it, and it carries that very state and a code or an error. *)
Theorem callback_authentic window events cb :
  settled (run window events) = Some (inl cb) →
  ∃ before auth between event after storage,
    events = before ++ Prepared (inl auth) :: between ++ MessageArrives event :: after ∧
    auth_state auth ≠ [] ∧
    markOAuthPopup (w_storage (popup (run window before))) provider (auth_state auth) intent = (true, Some storage) ∧
    m_origin event = origin ∧ m_from_popup event = true ∧
    prop (m_data event) (js "type") = VString OAUTH_POPUP_CALLBACK_MESSAGE ∧
    prop (m_data event) (js "intent") = VString (intent_text intent) ∧
    prop (m_data event) (js "provider") = VString provider ∧
    prop (m_data event) (js "state") = VString (auth_state auth) ∧
    is_string (cb_code cb) || is_string (cb_error cb) = true ∧
    cb = mkCallback provider (auth_state auth) (prop (m_data event) (js "code")) (prop (m_data event) (js "error"))
           (cb_errorDescription cb).
Proof.
  induction events as [|e events IH] using rev_ind; [done|]. rewrite run_app. cbn [foldl].
  set (a := run window events) in *. intros Hcb.
  destruct (phases window events) as [[Hw _]|Hx].
  2: { fold a in Hx. assert (settled (step a e) = settled a) as Hs.
       { destruct Hx as [Hx|Hx]; [by apply exchanging_step|]. destruct (over_step a e Hx) as [_ Hs]. by injection Hs. }
       rewrite Hs in Hcb. destruct (IH Hcb) as (before & auth & between & event & after & storage & -> & Hrest).
       exists before, auth, between, event, (after ++ [e]), storage. split; [|exact Hrest]. by rewrite <- !app_assoc; cbn; rewrite <- !app_assoc. }
  fold a in Hw. pose proof (waiting_settled a Hw) as Hnone.
  pose proof Hw as [(Hr & Hf & Hl & Ha) (Hw1 & Hd) (Hs & Hab) Hst].
  destruct e as [event|reason| | |r|result|]; cbn [popup_step] in Hcb.
  - rewrite Hl in Hcb. destruct (waiting_message a event Hw) as [Heq|(Hauth & _ & Hset & _)]; [congruence|].
    rewrite Hset in Hcb. injection Hcb as <-. destruct Hauth as [[H1 H2] (H3 & H4 & H5 & H6 & H7) H8].
    destruct (prepared_state window events Hw H7) as (before & auth & between & storage & -> & Hst' & Hm).
    fold a in Hst'. exists before, auth, between, event, [], storage. unfold callback_of. cbn [cb_code cb_error cb_errorDescription].
    rewrite Hst'. split_and!; try done. + by rewrite <- app_assoc. + by rewrite <- Hst'.
  - rewrite Ha in Hcb. destruct (waiting_fail reason a Hw) as [_ Hx]. congruence.
  - rewrite Hw1 in Hcb. unfold watch_tick in Hcb. cbn [running start_timer active negb orb] in Hcb.
    destruct (w_closed (popup a)); cbn [negb] in Hcb; [|cbn in Hcb; congruence].
    unfold fail in Hcb. cbn [finished] in Hcb. rewrite Hf in Hcb. cbn in Hcb. by rewrite Hs in Hcb.
  - rewrite Hd in Hcb. destruct (waiting_fail (Auth popup_timed_out) a Hw) as [_ Hx]. congruence.
  - destruct (preparing a) eqn:Hp; [|congruence].
    destruct (waiting_prepared r a Hw Hp) as [[_ [x Hx]]|[Hx _]]; [congruence|]. apply waiting_settled in Hx. congruence.
  - rewrite Hs in Hcb. congruence.
  - cbn in Hcb. congruence.
Qed.
End Phases.

(** An attempt to verify with GitHub: prepared, then called back with a code. *)
#[local] Instance unit_errors : ErrorSource unit := λ _, mkFailure (js "Verification failed. Please try again.") None.
Definition example_origin : jsstring := js "https://gateway.example".
Definition example_window : Window (list (jsstring * jsstring)) := mkWindow false (Some []) None [].
Definition example_message : jsval :=
  VObject [(js "type", VString OAUTH_POPUP_CALLBACK_MESSAGE); (js "intent", VString (js "verify"));
           (js "provider", VString (js "github")); (js "state", VString (js "s1")); (js "code", VString (js "c1"))].
Definition example_events : list (PopupEvent unit) :=
  [Prepared (inl (mkAuthorization (js "s1") (js "https://github.com/login/oauth/authorize"))); WatchTick;
   MessageArrives (mkMessage example_origin true example_message)].
Lemma callback_authentic_witness :
  ∃ cb, settled (popup_run (js "github") Verify example_origin (λ _, None) example_window example_events) = Some (inl cb) ∧
    is_string (cb_code cb) || is_string (cb_error cb) = true.
Proof.
  eexists. assert (settled (popup_run (js "github") Verify example_origin (λ _, None) example_window example_events)
    = Some (inl (mkCallback (js "github") (js "s1") (VString (js "c1")) VUndefined None))) as Hs by (vm_compute; reflexivity).
  split; [exact Hs|].
  destruct (callback_authentic (js "github") Verify example_origin (λ _, None) example_window example_events _ Hs)
    as (_ & _ & _ & _ & _ & _ & _ & _ & _ & _ & _ & _ & _ & _ & _ & Hc & _). exact Hc.
Defined.
