(* ===== verification/OAuthCallback.v ===== *)
(** * routes/oauth/$provider.tsx and features/auth/lib/auth-redirect.ts

    The page a provider sends the browser back to. In a popup it hands the
    callback to its opener and waits for the result; in a window of its own it
    signs in. The search of its URL is parsed by the router, so its values are
    of unknown type. *)

From S2P Require Import Prelude JsNumber JsText Types Runtime JsRegex JsMap JsValue ServerError OAuthPopup.

(** ** Redirects *)

Record Url := mkUrl {
  u_protocol : jsstring; u_origin : jsstring; u_pathname : jsstring; u_search : jsstring; u_hash : jsstring
}.
Definition allowedRedirectProtocols : list jsstring := [js "http:"; js "https:"].

Definition getSavedLanguage (user : jsval) : option jsstring :=
  match prop user (js "language") with
  | VString language => Some language
  | _ =>
      match prop user (js "setting") with
      | VString setting =>
          match json_parse setting with
          | Ok parsed => match prop parsed (js "language") with VString language => Some language | _ => None end
          | Err _ => None
          end
      | setting => match prop setting (js "language") with VString language => Some language | _ => None end
      end
  end.

Section Redirect.
(** [new URL(text, base)], with or without a base. *)
Context (parse_url : jsstring → option jsstring → option Url).

Definition sanitizeAuthRedirect (target_value : jsval) (origin : jsstring) : option jsstring :=
  match target_value with
  | VString text =>
      let target := trim text in
      if (target =s []) || includes [92%N] target || starts_with (js "//") target then None
      else
        trustedOrigin ← parse_url origin None;
        if negb (str_in (u_protocol trustedOrigin) allowedRedirectProtocols) then None
        else
          redirectURL ← (if starts_with (js "/") target then parse_url target (Some (u_origin trustedOrigin))
                         else parse_url target None);
          if negb (str_in (u_protocol redirectURL) allowedRedirectProtocols)
             || negb (u_origin redirectURL =s u_origin trustedOrigin)
          then None
          else Some (u_pathname redirectURL ++ u_search redirectURL ++ u_hash redirectURL)
  | _ => None
  end.
End Redirect.

(** ** The binding of Telegram *)

Record Search := mkSearch {
  s_code : jsval; s_state : jsval; s_error : jsval; s_error_description : jsval; s_redirect : jsval;
  s_telegram_bind : jsval; s_flow_token : jsval; s_error_code : jsval
}.

Inductive TelegramBindCallback :=
  | TelegramResult (flowToken : jsval) (success : bool) (code : jsval)
  | TelegramInvalid.

Definition parseTelegramBindCallback (search : Search) : option TelegramBindCallback :=
  let bind := s_telegram_bind search in
  if negb (is_text bind (js "success")) && negb (is_text bind (js "error")) then None
  else if negb (truthy (s_flow_token search)) then Some TelegramInvalid
  else if is_text bind (js "success") then Some (TelegramResult (s_flow_token search) true VUndefined)
  else Some (TelegramResult (s_flow_token search) false (s_error_code search)).

(** [opener]: none, or whether it is closed; the message posted to it. *)
Definition postTelegramBindResult (callback : option TelegramBindCallback) (opener : option bool) : option jsval :=
  match callback, opener with
  | Some (TelegramResult flowToken success code), Some false =>
      Some (VObject [(js "type", VString TELEGRAM_BIND_RESULT_MESSAGE); (js "flow_token", flowToken);
                     (js "success", VBoolean success); (js "code", code)])
  | _, _ => None
  end.

(** ** The page *)

(** What is shown: a text, or the error of a result with its fallback. *)
Inductive Notice := Notify (text : jsstring) | NotifyError (result : jsval) (fallback : jsstring).

(** The state of the effect: the listener and its deadline, the delayed close,
    the window, notices, and messages posted to the opener. *)
Record Page := mkPage {
  p_listening : bool;
  p_deadline : Timer;
  p_closing : bool;
  p_closed : bool;
  p_notices : list Notice;
  p_posted : list jsval
}.
Definition blank_page : Page := mkPage false stopped_timer false false [] [].

Definition notify (n : Notice) (p : Page) : Page :=
  mkPage (p_listening p) (p_deadline p) (p_closing p) (p_closed p) (p_notices p ++ [n]) (p_posted p).
Definition post (message : jsval) (p : Page) : Page :=
  mkPage (p_listening p) (p_deadline p) (p_closing p) (p_closed p) (p_notices p) (p_posted p ++ [message]).
Definition close_page (p : Page) : Page :=
  mkPage (p_listening p) (p_deadline p) (p_closing p) true (p_notices p) (p_posted p).
(** [window.setTimeout(() => window.close(), 1500)]. *)
Definition close_later (p : Page) : Page :=
  mkPage (p_listening p) (p_deadline p) true (p_closed p) (p_notices p) (p_posted p).
Definition set_deadline (d : Timer) (p : Page) : Page :=
  mkPage (p_listening p) d (p_closing p) (p_closed p) (p_notices p) (p_posted p).

Definition nullish_or (v : jsval) (d : jsval) : jsval := if is_nullish v then d else v.

Section Page.
Context {S : Type} `{ModeStorage S}.
Context (provider origin : jsstring) (search : Search).

Definition callbackState : jsval := nullish_or (s_state search) (VString []).
Definition isTelegramBindCallback : bool :=
  (provider =s js "telegram") &&
  (is_text (s_telegram_bind search) (js "success") || is_text (s_telegram_bind search) (js "error")).
Definition page_mode (opener : option bool) (storage : option S) : OAuthCallbackMode :=
  if isTelegramBindCallback then PopupMode Bind
  else resolveOAuthCallbackMode provider callbackState opener storage.

Definition callback_message (intent : Intent) : jsval :=
  VObject [(js "type", VString OAUTH_POPUP_CALLBACK_MESSAGE); (js "intent", VString (intent_text intent));
           (js "provider", VString provider); (js "code", nullish_or (s_code search) (VString []));
           (js "state", callbackState); (js "error", s_error search);
           (js "errorDescription", s_error_description search)].

(** The effect up to the login; [None] when it goes on to the login. *)
Definition page_effect (mode : OAuthCallbackMode) (opener : option bool) : option Page :=
  let telegramCallback := if provider =s js "telegram" then parseTelegramBindCallback search else None in
  match telegramCallback with
  | Some callback =>
      Some match postTelegramBindResult (Some callback) opener with
           | None => close_later (notify (Notify (js "Telegram binding failed. Please try again.")) blank_page)
           | Some message => close_page (post message blank_page)
           end
  | None =>
      match mode with
      | LoginMode => None
      | PopupMode intent =>
          Some match opener with
               | Some false => post (callback_message intent) (mkPage true start_timer false false [] [])
               | _ => notify (Notify (js "OAuth window is no longer available.")) blank_page
               end
      end
  end.

(** The message of a result; [event]: from the opener when [m_from_popup]. *)
Definition accepts_result (intent : Intent) (event : MessageEvent) : bool :=
  let result := m_data event in
  (m_origin event =s origin) && m_from_popup event && truthy result
  && is_text (prop result (js "type")) OAUTH_POPUP_RESULT_MESSAGE
  && is_text (prop result (js "intent")) (intent_text intent)
  && is_text (prop result (js "provider")) provider
  && strict_eq (prop result (js "state")) callbackState.

Definition handleBindingResult (intent : Intent) (event : MessageEvent) (p : Page) : Page :=
  if negb (accepts_result intent event) then p
  else
    let p := set_deadline (stop_timer (p_deadline p)) p in
    if truthy (prop (m_data event) (js "success")) then
      close_page (if bool_decide (intent = Bind) then notify (Notify (js "Binding successful!")) p else p)
    else close_later (notify (NotifyError (m_data event) (js "OAuth failed")) p).

Inductive PageEvent :=
  | ResultArrives (event : MessageEvent)
  | PageDeadline
  | CloseFires
  | Unmount.

Definition page_step (intent : Intent) (p : Page) (e : PageEvent) : Page :=
  match e with
  | ResultArrives event => if p_listening p then handleBindingResult intent event p else p
  | PageDeadline =>
      if running (p_deadline p) then
        let '(d, called) := deadline_fires (p_deadline p) in
        let p := set_deadline d p in
        if called : bool then close_later (notify (Notify (js "OAuth authorization timed out. Please try again.")) p) else p
      else p
  | CloseFires => if p_closing p then close_page p else p
  | Unmount =>
      mkPage false (stop_timer (p_deadline p)) false (p_closed p) (p_notices p) (p_posted p)
  end.
End Page.

(** ** The two windows

    The attempt of the opener, the page in its popup, and what is under way
    between them. The popup is sent to a callback page by whoever controls it,
    with any provider and search; other windows post what they like, but only
    the page posts from the popup with the origin of the application. *)

Record Flow (S : Type) := mkFlow {
  flow_attempt : Attempt S;
  flow_page : option (jsstring * Search * Intent * Page);
  flow_redirects : list (jsstring * Search);
  flow_transit : list jsval
}.
Arguments mkFlow {S}.
Arguments flow_attempt {S}.
Arguments flow_page {S}.
Arguments flow_redirects {S}.
Arguments flow_transit {S}.

(** [Receive n]: the page gets the [n]th message of its opener. *)
Inductive FlowEvent (E : Type) :=
  | Opener (e : PopupEvent E)
  | Redirect (page_provider : jsstring) (search : Search)
  | Deliver
  | Receive (n : nat)
  | OnPage (e : PageEvent).
Arguments Opener {E}.
Arguments Redirect {E}.
Arguments Deliver {E}.
Arguments Receive {E}.
Arguments OnPage {E}.

Section Flow.
Context {S : Type} `{ModeStorage S} {E : Type} `{ErrorSource E}.
Context (provider : jsstring) (intent : Intent) (origin : jsstring) (replace_error : jsstring → option E).

Definition from_page (event : MessageEvent) : bool := m_from_popup event && (m_origin event =s origin).

Definition flow_step (f : Flow S) (e : FlowEvent E) : Flow S :=
  let advance := popup_step provider intent origin replace_error in
  let a := flow_attempt f in
  match e with
  | Opener (MessageArrives event) =>
      if from_page event then f
      else mkFlow (advance a (MessageArrives event)) (flow_page f) (flow_redirects f) (flow_transit f)
  | Opener e => mkFlow (advance a e) (flow_page f) (flow_redirects f) (flow_transit f)
  | Redirect page_provider search =>
      if w_closed (popup a) || negb (is_some (w_location (popup a))) then f
      else
        let mode := page_mode page_provider search (Some false) (w_storage (popup a)) in
        let redirects := flow_redirects f ++ [(page_provider, search)] in
        match page_effect page_provider search mode (Some false) with
        | None => mkFlow a None redirects (flow_transit f)
        | Some p =>
            mkFlow a (match mode with PopupMode i => Some (page_provider, search, i, p) | LoginMode => None end)
              redirects (flow_transit f ++ p_posted p)
        end
  | Deliver =>
      match flow_transit f with
      | [] => f
      | message :: transit =>
          mkFlow (advance a (MessageArrives (mkMessage origin true message))) (flow_page f) (flow_redirects f) transit
      end
  | Receive n =>
      match flow_page f, w_posted (popup a) !! n with
      | Some (page_provider, search, i, p), Some message =>
          mkFlow a (Some (page_provider, search, i,
                          page_step page_provider origin search i p (ResultArrives (mkMessage origin true message))))
            (flow_redirects f) (flow_transit f)
      | _, _ => f
      end
  | OnPage (ResultArrives event) =>
      match flow_page f with
      | Some (page_provider, search, i, p) =>
          if from_page event then f
          else mkFlow a (Some (page_provider, search, i, page_step page_provider origin search i p (ResultArrives event)))
                 (flow_redirects f) (flow_transit f)
      | None => f
      end
  | OnPage e =>
      match flow_page f with
      | Some (page_provider, search, i, p) =>
          mkFlow a (Some (page_provider, search, i, page_step page_provider origin search i p e)) (flow_redirects f) (flow_transit f)
      | None => f
      end
  end.
Definition initial_flow (window : Window S) : Flow S := mkFlow (initial_attempt window) None [] [].
Definition flow_run (window : Window S) (events : list (FlowEvent E)) : Flow S :=
  foldl flow_step (initial_flow window) events.
End Flow.
