(* ===== verification/OAuthCallbackFacts.v ===== *)
(** * The two windows of a sign-in with another provider: theorems

    What the opener takes for a callback is what its popup was sent back with,
    and what the popup reports is what the opener found. *)

From S2P Require Import Prelude JsNumber JsText Types Runtime JsRegex JsMap JsValue ServerError OAuthPopup OAuthCallback OAuthPopupFacts.

Section Flow.
Context {S : Type} `{ModeStorage S} {E : Type} `{ErrorSource E}.
Context (provider : jsstring) (intent : Intent) (origin : jsstring) (replace_error : jsstring → option E).

Abbreviation step := (popup_step provider intent origin replace_error).
Abbreviation fstep := (flow_step provider intent origin replace_error).
Abbreviation frun := (flow_run provider intent origin replace_error).

(** The attempt of a flow is in one of its phases. *)
Definition in_phase (a : Attempt S) : Prop := waiting a ∨ exchanging a ∨ over a.
Lemma in_phase_step a e : in_phase a → in_phase (step a e).
Proof.
  intros [Hw|[Hx|Ho]].
  - destruct (waiting_step provider intent origin replace_error a e Hw) as [[? _]|[?|?]];
      [by left|by right; left|by right; right].
  - destruct (exchanging_step provider intent origin replace_error a e Hx) as [[?|?] _]; [by right; left|by right; right].
  - right. right. by apply over_step.
Qed.

(** A settlement with a callback is old, or the step took an authentic message. *)
Lemma settles_by_message a e cb :
  in_phase a → settled (step a e) = Some (inl cb) →
  settled a = Some (inl cb) ∨
  ∃ event, e = MessageArrives event ∧ authentic provider intent origin a event ∧ cb = callback_of provider a (m_data event).
Proof.
  intros [Hw|[Hx|Ho]] Hs.
  - pose proof (waiting_settled a Hw) as Hnone. pose proof Hw as [(Hr & Hf & Hl & Ha) (Hw1 & Hd) _ _]. right.
    destruct e as [event|reason| | |r|result|]; cbn [popup_step] in Hs.
    + rewrite Hl in Hs. destruct (waiting_message provider intent origin a event Hw) as [Heq|(Hauth & _ & Hset & _)]; [congruence|].
      rewrite Hset in Hs. injection Hs as <-. by exists event.
    + rewrite Ha in Hs. destruct (waiting_fail reason a Hw). congruence.
    + rewrite Hw1 in Hs. unfold watch_tick in Hs. cbn [running start_timer active negb orb] in Hs.
      destruct (w_closed (popup a)); cbn [negb] in Hs; [|cbn in Hs; congruence].
      unfold fail in Hs. cbn [finished] in Hs. rewrite Hf in Hs. cbn in Hs. by rewrite Hnone in Hs.
    + rewrite Hd in Hs. destruct (waiting_fail (Auth popup_timed_out) a Hw). congruence.
    + destruct (preparing a) eqn:Hp; [|congruence].
      destruct (waiting_prepared provider intent replace_error r a Hw Hp) as [[_ [x Hx]]|[Hx _]]; [congruence|].
      apply waiting_settled in Hx. congruence.
    + rewrite Hnone in Hs. congruence.
    + cbn in Hs. congruence.
  - left. by destruct (exchanging_step provider intent origin replace_error a e Hx) as [_ <-].
  - left. destruct (over_step provider intent origin replace_error a e Ho) as [_ Hout]. injection Hout as Hout _ _. by rewrite <- Hout.
Qed.

(** Only [finish] posts to the popup. *)
Lemma posts_by_finish a e m :
  m ∈ w_posted (popup (step a e)) → m ∈ w_posted (popup a) ∨ ∃ r, e = Finish r ∧ m = result_message provider intent a r.
Proof.
  assert (∀ x (b : Attempt S), w_posted (popup (fail x b)) = w_posted (popup b)) as Hfail
    by (intros; unfold fail; by destruct (finished b)).
  destruct e as [event|reason| | |r|result|]; cbn [popup_step].
  - left. destruct (listening a); [|done]. unfold onMessage in *. by destruct (accepts _ _ _ _ _).
  - left. destruct (abort_listening a); [by rewrite Hfail in *|done].
  - left. destruct (running (watcher a)); [|done]. destruct (watch_tick _ _) as [w [|]]; [by rewrite Hfail in *|done].
  - left. destruct (deadline a); [by rewrite Hfail in *|done].
  - left. destruct (preparing a); [|done]. unfold on_prepared in *. destruct r as [auth|x]; [|by rewrite Hfail in *].
    cbn [finished popup w_closed] in *. destruct (finished a || w_closed (popup a)); [done|].
    cbn [w_storage] in *. destruct (markOAuthPopup _ _ _ _) as [[] storage]; cbn [negb] in *; [|by rewrite Hfail in *].
    destruct (replace_error _); [by rewrite Hfail in *|done].
  - destruct (settled a) as [[]|]; [|by left..]. unfold finish. destruct (finished a); [by left|].
    cbn [cleanup popup]. destruct (w_closed (popup a)); [by left|]. cbn [w_posted].
    intros [?| ->%list_elem_of_singleton]%elem_of_app; [by left|]. right. by eexists.
  - by left.
Qed.

(** A message that a page posted. *)
Definition from_redirect (redirects : list (jsstring * Search)) (m : jsval) : Prop :=
  ∃ pp search, (pp, search) ∈ redirects ∧
    ((∃ i, m = callback_message pp search i) ∨ prop m (js "type") = VString TELEGRAM_BIND_RESULT_MESSAGE).

Lemma page_posts pp search mode p m :
  page_effect pp search mode (Some false) = Some p → m ∈ p_posted p →
  (∃ i, m = callback_message pp search i) ∨ prop m (js "type") = VString TELEGRAM_BIND_RESULT_MESSAGE.
Proof.
  unfold page_effect. destruct (if pp =s js "telegram" then _ else _) as [[token ok code|]|].
  - cbn. intros [= <-]. cbn. intros ->%list_elem_of_singleton. by right.
  - cbn. intros [= <-]. cbn. by intros ?%not_elem_of_nil.
  - destruct mode as [|i]; [done|]. intros [= <-]. cbn. intros ->%list_elem_of_singleton. left. by exists i.
Qed.

Definition from_finish (events : list (FlowEvent E)) (m : jsval) : Prop :=
  ∃ r (a : Attempt S), Opener (Finish r) ∈ events ∧ m = result_message provider intent a r.

(** A page that reports a success got a result of the opener that says so. *)
Definition success_sound (events : list (FlowEvent E)) (page : option (jsstring * Search * Intent * Page)) : Prop :=
  ∀ pp search i p, page = Some (pp, search, i, p) → Notify (js "Binding successful!") ∈ p_notices p →
    ∃ m, from_finish events m ∧ truthy (prop m (js "success")) = true ∧
      prop m (js "provider") = VString pp ∧ prop m (js "intent") = VString (intent_text i).

Record flow_ok (events : list (FlowEvent E)) (f : Flow S) : Prop := {
  ok_phase : in_phase (flow_attempt f);
  ok_transit : Forall (from_redirect (flow_redirects f)) (flow_transit f);
  ok_settled : ∀ cb, settled (flow_attempt f) = Some (inl cb) →
    ∃ search, (provider, search) ∈ flow_redirects f ∧ callbackState search = VString (cb_state cb) ∧ cb_state cb ≠ [] ∧
      cb_provider cb = provider ∧ cb_code cb = nullish_or (s_code search) (VString []) ∧ cb_error cb = s_error search;
  ok_posted : Forall (from_finish events) (w_posted (popup (flow_attempt f)));
  ok_success : success_sound events (flow_page f)
}.

Lemma from_finish_mono events more m : from_finish events m → from_finish (events ++ more) m.
Proof. intros (r & a & Hr & Hm). exists r, a. split; [|done]. apply elem_of_app. by left. Qed.
Lemma success_mono events more page : success_sound events page → success_sound (events ++ more) page.
Proof.
  intros Hs pp search i p Hp Hn. destruct (Hs pp search i p Hp Hn) as (m & Hm & Hrest). exists m. split; [|done].
  by apply from_finish_mono.
Qed.
Lemma from_redirect_mono redirects more m : from_redirect redirects m → from_redirect (redirects ++ more) m.
Proof. intros (pp & search & Hr & Hm). exists pp, search. split; [|done]. apply elem_of_app. by left. Qed.

(** The opener's own steps: an authentic message must be one of the pages'. *)
Lemma opener_step events f e transit :
  flow_ok events f → (∀ m, m ∈ transit → m ∈ flow_transit f) →
  (∀ event, e = MessageArrives event → from_page origin event = true → from_redirect (flow_redirects f) (m_data event)) →
  flow_ok (events ++ [Opener e]) (mkFlow (step (flow_attempt f) e) (flow_page f) (flow_redirects f) transit).
Proof.
  intros [Hphase Htransit Hsettled Hposted Hsuccess] Htr Hmsg. split; cbn [flow_attempt flow_page flow_redirects flow_transit].
  - by apply in_phase_step.
  - rewrite !Forall_forall in *. auto.
  - intros cb Hcb. destruct (settles_by_message _ _ _ Hphase Hcb) as [?|(event & -> & Hauth & ->)]; [by apply Hsettled|].
    destruct Hauth as [[Ho Hp] (H3 & H4 & H5 & H6 & H7) H8].
    destruct (Hmsg event eq_refl) as (pp & search & Hin & [[i Hm]|Hm]).
    { unfold from_page. rewrite Hp, Ho. cbn. apply str_eqb_refl. }
    + rewrite Hm in *. cbn in H5, H6. injection H5 as ->. exists search. split_and!; [done|exact H6|exact H7|done..].
    + rewrite Hm in H3. done.
  - apply Forall_forall. intros m Hm. rewrite Forall_forall in Hposted.
    destruct (posts_by_finish _ _ _ Hm) as [Hin|(r & -> & ->)]; [by apply from_finish_mono, Hposted|].
    exists r, (flow_attempt f). split; [|done]. apply elem_of_app. right. by apply list_elem_of_singleton.
  - by apply success_mono.
Qed.

Abbreviation success_notice := (Notify (js "Binding successful!")).

Lemma other_notice t : (t =s js "Binding successful!") = false → success_notice ≠ Notify t.
Proof. intros Ht%str_eqb_neq Hx. apply Ht. symmetry. exact (f_equal (λ n, match n with Notify t => t | NotifyError _ t => t end) Hx). Qed.

Lemma page_success pp search i p e :
  success_notice ∈ p_notices (page_step pp origin search i p e) →
  success_notice ∈ p_notices p ∨
  ∃ event, e = ResultArrives event ∧ accepts_result pp origin search i event = true ∧
    truthy (prop (m_data event) (js "success")) = true ∧ i = Bind.
Proof.
  destruct e as [event| | |]; cbn [page_step].
  - destruct (p_listening p); [|by left]. unfold handleBindingResult. destruct (accepts_result _ _ _ _ event) eqn:Ha; cbn [negb]; [|by left].
    destruct (truthy (prop (m_data event) (js "success"))) eqn:Ht.
    + case_bool_decide as Hb; [|by left]. intros _. right. by exists event.
    + cbn. intros [?|Hx%list_elem_of_singleton]%elem_of_app; [by left|discriminate].
  - destruct (running (p_deadline p)); [|by left]. destruct (deadline_fires (p_deadline p)) as [d [|]]; [|by left].
    cbn. intros [?|Hx%list_elem_of_singleton]%elem_of_app; [by left|]. exfalso. revert Hx. apply other_notice. vm_compute. reflexivity.
  - by destruct (p_closing p); left.
  - by left.
Qed.

Lemma accepts_result_fields pp search i event :
  accepts_result pp origin search i event = true →
  from_page origin event = true ∧ prop (m_data event) (js "provider") = VString pp ∧
  prop (m_data event) (js "intent") = VString (intent_text i).
Proof.
  unfold accepts_result, from_page. intros Ha. repeat (apply andb_true_iff in Ha as [Ha ?]).
  split_and!; [|by apply is_text_true..]. apply andb_true_iff. by split.
Qed.

Lemma fresh_page pp search mode opener p : page_effect pp search mode opener = Some p → success_notice ∉ p_notices p.
Proof.
  intros Hp. assert (p_notices p = [] ∨ p_notices p = [Notify (js "Telegram binding failed. Please try again.")] ∨
                     p_notices p = [Notify (js "OAuth window is no longer available.")]) as Hn.
  { unfold page_effect in Hp. destruct (if pp =s js "telegram" then _ else _) as [callback|].
    - injection Hp as <-. destruct callback, opener as [[]|]; solve [left; reflexivity|right; left; reflexivity].
    - destruct mode as [|i]; [discriminate|]. injection Hp as <-. destruct opener as [[]|]; [right; by right|by left|right; by right]. }
  destruct Hn as [->|[->| ->]]; [apply not_elem_of_nil|..]; intros Hx%list_elem_of_singleton; revert Hx;
    apply other_notice; vm_compute; reflexivity.
Qed.

(** A step of the page, which may bring a message of its opener. *)
Lemma success_page_step events pp search i p e :
  success_sound events (Some (pp, search, i, p)) →
  (∀ event, e = ResultArrives event → from_page origin event = true → from_finish events (m_data event)) →
  success_sound events (Some (pp, search, i, page_step pp origin search i p e)).
Proof.
  intros Hs He pp' search' i' p' [= <- <- <- <-] Hn.
  destruct (page_success _ _ _ _ _ Hn) as [Hold|(event & -> & Ha & Ht & ->)]; [by eapply Hs|].
  apply accepts_result_fields in Ha as (Hf & Hp & Hi). exists (m_data event). split_and!; [by apply He|done..].
Qed.

Lemma flow_ok_step events f e : flow_ok events f → flow_ok (events ++ [e]) (fstep f e).
Proof.
  intros Hok. pose proof Hok as [Hphase Htransit Hsettled Hposted Hsuccess].
  assert (∀ page, success_sound events page → flow_ok (events ++ [e])
            (mkFlow (flow_attempt f) page (flow_redirects f) (flow_transit f))) as Hpage.
  { intros page Hp. split; cbn [flow_attempt flow_page flow_redirects flow_transit]; [done..| |by apply success_mono].
    eapply Forall_impl; [exact Hposted|]. intros m. apply from_finish_mono. }
  assert (flow_ok (events ++ [e]) f) as Hsame by (destruct f; by apply Hpage).
  destruct e as [pe|pp search| |n|pe]; cbn [flow_step].
  - destruct pe as [event|reason| | |r|result|]; try (apply opener_step; [done|done|discriminate]).
    destruct (from_page origin event) eqn:Hf; [done|]. apply opener_step; [done|done|]. intros ? [= <-]. congruence.
  - destruct (w_closed _ || _); [done|]. set (mode := page_mode _ _ _ _).
    destruct (page_effect pp search mode (Some false)) as [p|] eqn:Hp.
    + split; cbn [flow_attempt flow_page flow_redirects flow_transit]; [done| | | |].
      * apply Forall_app. split; [eapply Forall_impl; [exact Htransit|]; intros m; apply from_redirect_mono|].
        apply Forall_forall. intros m Hm. exists pp, search. split; [apply elem_of_app; right; by apply list_elem_of_singleton|].
        by eapply page_posts.
      * intros cb Hcb. destruct (Hsettled cb Hcb) as (s & Hin & Hrest). exists s. split; [apply elem_of_app; by left|done].
      * eapply Forall_impl; [exact Hposted|]. intros m. apply from_finish_mono.
      * intros pp' search' i' p' Hx Hn. destruct mode as [|i]; [done|]. injection Hx as <- <- <- <-. by apply fresh_page in Hp.
    + split; cbn [flow_attempt flow_page flow_redirects flow_transit]; [done| | | |done].
      * eapply Forall_impl; [exact Htransit|]. intros m. apply from_redirect_mono.
      * intros cb Hcb. destruct (Hsettled cb Hcb) as (s & Hin & Hrest). exists s. split; [apply elem_of_app; by left|done].
      * eapply Forall_impl; [exact Hposted|]. intros m. apply from_finish_mono.
  - destruct (flow_transit f) as [|m transit] eqn:Et; [done|].
    assert (flow_ok (events ++ [Opener (MessageArrives (mkMessage origin true m))])
      (mkFlow (step (flow_attempt f) (MessageArrives (mkMessage origin true m))) (flow_page f) (flow_redirects f) transit)) as [H1 H2 H3 H4 H5].
    { apply opener_step; [done|intros x Hx; rewrite Et; apply elem_of_cons; by right|].
      intros ? [= <-] _. rewrite Forall_forall in Htransit. apply Htransit. apply elem_of_cons. by left. }
    assert (∀ x, from_finish (events ++ [Opener (MessageArrives (mkMessage origin true m))]) x → from_finish (events ++ [Deliver]) x) as Hff.
    { intros x (r & a & [Hr|Hr%list_elem_of_singleton]%elem_of_app & Hx); [|discriminate].
      exists r, a. split; [apply elem_of_app; by left|done]. }
    split; [exact H1|exact H2|exact H3| |by apply success_mono].
    eapply Forall_impl; [exact H4|]. exact Hff.
  - destruct (flow_page f) as [[[[pp search] i] p]|] eqn:Ep; [|done]. destruct (w_posted (popup (flow_attempt f)) !! n) as [m|] eqn:Em; [|done].
    apply Hpage. apply success_page_step; [done|]. intros ? [= <-] _. rewrite Forall_forall in Hposted.
    apply Hposted. by eapply list_elem_of_lookup_2.
  - destruct pe as [event| | |]; destruct (flow_page f) as [[[[pp search] i] p]|] eqn:Ep; try done;
      try (apply Hpage, success_page_step; [done|discriminate]).
    destruct (from_page origin event) eqn:Hf; [done|]. apply Hpage, success_page_step; [done|]. intros ? [= <-]. congruence.
Qed.

Lemma flow_invariant window events : w_posted window = [] → flow_ok events (frun window events).
Proof.
  intros Hw. unfold flow_run. induction events as [|e events IH] using rev_ind.
  - split; cbn; [left; by split|done|done|by rewrite Hw|done].
  - rewrite foldl_app. by apply flow_ok_step.
Qed.

(** C16. The two windows agree. Whatever other windows post and wherever the popup
    is sent, a callback that the opener gives out is that of a page to which
    the popup was sent back, with the provider of the attempt, the state it
    expects, and the code and error of that page's URL; and a page reports a
    binding as successful only when the opener has finished with success for
    the provider and intent of the page. *)
Theorem windows_agree window events :
  w_posted window = [] →
  let f := frun window events in
  (∀ cb, settled (flow_attempt f) = Some (inl cb) →
     ∃ search, (provider, search) ∈ flow_redirects f ∧ callbackState search = VString (cb_state cb) ∧ cb_state cb ≠ [] ∧
       cb_provider cb = provider ∧ cb_code cb = nullish_or (s_code search) (VString []) ∧ cb_error cb = s_error search) ∧
  (∀ pp search i p, flow_page f = Some (pp, search, i, p) → success_notice ∈ p_notices p →
     pp = provider ∧ i = intent ∧ ∃ result, Opener (Finish result) ∈ events ∧ o_success result = true).
Proof.
  intros Hw f. destruct (flow_invariant window events Hw) as [_ _ Hsettled _ Hsuccess]. split; [exact Hsettled|].
  intros pp search i p Hp Hn. destruct (Hsuccess pp search i p Hp Hn) as (m & (r & a & Hr & ->) & Ht & Hprov & Hint).
  cbn in Hprov, Hint, Ht. injection Hprov as ->. split; [done|]. split; [|by exists r].
  injection Hint as Hint. destruct i, intent; done.
Qed.
End Flow.

(** A binding from the click to the notice. *)
Definition example_search : Search :=
  mkSearch (VString (js "c1")) (VString (js "s1")) VUndefined VUndefined VUndefined VUndefined VUndefined VUndefined.
Definition example_flow : list (FlowEvent unit) :=
  [Opener (Prepared (inl (mkAuthorization (js "s1") (js "https://github.com/login/oauth/authorize"))));
   Redirect (js "github") (mkSearch (VString (js "evil")) (VString (js "s2")) VUndefined VUndefined VUndefined VUndefined VUndefined VUndefined);
   Redirect (js "github") example_search; Deliver; Opener (Finish (mkOutcome true None)); Receive 0].
#[local] Instance unit_error : ErrorSource unit := λ _, mkFailure (js "Verification failed. Please try again.") None.
Definition example_end : Flow (list (jsstring * jsstring)) :=
  flow_run (js "github") Bind example_origin (λ _, None) example_window example_flow.
Lemma windows_agree_witness :
  (∃ search, (js "github", search) ∈ flow_redirects example_end ∧ callbackState search = VString (js "s1")) ∧
  ∃ result, Opener (Finish result) ∈ example_flow ∧ o_success result = true.
Proof.
  destruct (windows_agree (js "github") Bind example_origin (λ _, None) example_window example_flow eq_refl) as [H1 H2].
  split.
  - assert (settled (flow_attempt example_end)
      = Some (inl (mkCallback (js "github") (js "s1") (VString (js "c1")) VUndefined None))) as Hs by (vm_compute; reflexivity).
    destruct (H1 _ Hs) as (search & Hin & Hst & _). exists search. exact (conj Hin Hst).
  - assert (flow_page example_end = Some (js "github", example_search, Bind,
      mkPage true stopped_timer false true [Notify (js "Binding successful!")] [callback_message (js "github") example_search Bind])) as Hp
      by (vm_compute; reflexivity).
    destruct (H2 _ _ _ _ Hp (list_elem_of_here _ _)) as (_ & _ & Hr). exact Hr.
Defined.

(** A same-origin address with two slashes comes out as an address of another
    host, the form that is refused as a target. *)
Definition double_slash_url (text : jsstring) (base : option jsstring) : option Url :=
  if text =s js "https://gateway.example//evil.example"
  then Some (mkUrl (js "https:") (js "https://gateway.example") (js "//evil.example") [] [])
  else if text =s js "https://gateway.example"
  then Some (mkUrl (js "https:") (js "https://gateway.example") (js "/") [] [])
  else None.
Example redirect_double_slash :
  sanitizeAuthRedirect double_slash_url (VString (js "https://gateway.example//evil.example")) example_origin
  = Some (js "//evil.example") ∧
  sanitizeAuthRedirect double_slash_url (VString (js "//evil.example")) example_origin = None.
Proof. split; vm_compute; reflexivity. Qed.

(** A code of digits alone is a number once the router has parsed the search:
    the page posts it and the opener does not take it. *)
Example numeric_code_ignored :
  let search := mkSearch (VNumber (num_of_Z 424242)) (VString (js "s1")) VUndefined VUndefined VUndefined VUndefined VUndefined VUndefined in
  settled (flow_attempt (flow_run (S := list (jsstring * jsstring)) (js "github") Bind example_origin (λ _, None) example_window
    [Opener (Prepared (inl (mkAuthorization (js "s1") (js "https://github.com/login/oauth/authorize"))));
     Redirect (js "github") search; Deliver])) = None.
Proof. vm_compute. reflexivity. Qed.
