(* ===== verification/Verification.v ===== *)
(** * features/auth/secure-verification: types.ts and hooks/use-secure-verification.ts

    The dialog that asks for a further verification. A request waits as the
    pending object of the hook while its requirements load and the user enters
    an input; what it awaits are tasks that end in any order. The reducer's
    actions are queued until React renders. *)

From S2P Require Import Prelude JsNumber JsText Types Runtime JsValue ServerError.

(** ** types.ts *)

Record MethodOption := mkMethod { m_method : jsstring; m_available : bool; m_reason : option jsstring }.
Record VerificationRequirements := mkRequirements {
  req_scope : jsstring;
  methods : list MethodOption;
  oauth_providers : list (jsstring * jsstring);      (* slug, name *)
  password_encryption_enabled : bool
}.
Record VerificationOperation := mkOperation { op_scope : jsstring; op_context : jsval }.
Record LoginChallenge := mkChallenge { flow_token : jsstring; expires_at : num; ch_methods : list MethodOption }.
Record SecurityProof := mkProof {
  proof_token : jsstring; proof_expires_at : num; proof_method : jsstring; proof_scope : jsstring
}.

Inductive VerificationInput :=
  | TwoFactor (code : jsstring)
  | Password (password : jsstring)
  | Passkey (rpID : option jsstring)
  | OAuth (provider : jsstring)
  | Session.
Definition input_method (i : VerificationInput) : jsstring :=
  match i with
  | TwoFactor _ => js "2fa"
  | Password _ => js "password"
  | Passkey _ => js "passkey"
  | OAuth _ => js "oauth"
  | Session => js "session"
  end.

(** Requests of an operation and of a login. *)
Inductive VerificationRequest :=
  | OperationRequest (operation : VerificationOperation)
  | LoginRequest (challenge : LoginChallenge).
Definition is_operation (r : VerificationRequest) : bool := match r with OperationRequest _ => true | LoginRequest _ => false end.

(** [Active false]: ready, [Active true]: verifying. *)
Inductive SecureVerificationState :=
  | Idle
  | Loading (request : VerificationRequest)
  | Failed (request : VerificationRequest) (error : jsstring)
  | Active (verifying : bool) (request : VerificationRequest) (requirements : VerificationRequirements)
      (input : option VerificationInput) (error : option jsstring).

(** ** The reducer *)

Inductive VerificationAction :=
  | DoReset
  | DoLoading (request : VerificationRequest)
  | DoLoaded (requirements : VerificationRequirements)
  | DoInput (input : VerificationInput)
  | DoSubmit
  | DoError (error : jsstring).

Definition has_method (name : jsstring) (r : VerificationRequirements) : bool :=
  existsb (λ o, (m_method o =s name) && m_available o) (methods r).

Definition preferred_input (r : VerificationRequirements) : option VerificationInput :=
  let available := List.filter m_available (methods r) in
  let preferred := match List.find (λ o, m_method o =s js "passkey") available with
                   | Some o => Some o
                   | None => head available
                   end in
  o ← preferred;
  if m_method o =s js "2fa" then Some (TwoFactor [])
  else if m_method o =s js "password" then Some (Password [])
  else if m_method o =s js "passkey" then Some (Passkey None)
  else if m_method o =s js "oauth" then Some (OAuth (default [] (fst <$> head (oauth_providers r))))
  else None.

(** The input that stays visible while it is verified. *)
Definition cleared (input : option VerificationInput) : option VerificationInput :=
  match input with
  | Some (Password _) => Some (Password [])
  | Some (TwoFactor _) => Some (TwoFactor [])
  | _ => input
  end.

Definition verificationReducer (state : SecureVerificationState) (action : VerificationAction) : SecureVerificationState :=
  match action, state with
  | DoReset, _ => Idle
  | DoLoading request, _ => Loading request
  | DoLoaded requirements, Loading request => Active false request requirements (preferred_input requirements) None
  | DoLoaded _, _ => state
  | DoInput input, Active false request requirements _ _ =>
      if has_method (input_method input) requirements then Active false request requirements (Some input) None else state
  | DoInput _, _ => state
  | DoSubmit, Active false request requirements input _ => Active true request requirements (cleared input) None
  | DoSubmit, _ => state
  | DoError _, Idle => Idle
  | DoError error, (Loading request | Failed request _) => Failed request error
  | DoError error, Active _ request requirements input _ => Active false request requirements input (Some error)
  end.

(** ** The hook *)

(** A proof for an operation, or the bundle of a login. *)
Inductive Grant := GrantProof (proof : SecurityProof) | GrantBundle (bundle : jsval).

Section Hook.
Context {E : Type} `{ErrorSource E}.

Inductive Settlement := Resolved (grant : option Grant) | Rejected (error : thrown E).

(** A [PendingVerification] and the promise it settles. *)
Record Pending := mkPending {
  pd_request : VerificationRequest;
  pd_aborted : bool;
  pd_submitting : bool;
  pd_initialPassword : option jsstring;
  pd_settled : option Settlement
}.

(** What an object awaits: its requirements, the verification with the initial
    password or with the session, and that of [executeVerification]. *)
Inductive Task := LoadTask | PasswordTask | SessionTask | ExecuteTask.
Inductive TaskOutcome :=
  | GotRequirements (r : VerificationRequirements)
  | GotGrant (g : Grant)
  | Threw (e : thrown E).

Record Hook := mkHook {
  rendered : SecureVerificationState;
  queued : list VerificationAction;
  pending : option nat;
  objects : list Pending;
  tasks : list (nat * Task);
  submitted : list (nat * VerificationInput);
  passkeyDomains : option jsval
}.
Definition initial_hook : Hook := mkHook Idle [] None [] [] [] None.

Definition dispatch (a : VerificationAction) (h : Hook) : Hook :=
  mkHook (rendered h) (queued h ++ [a]) (pending h) (objects h) (tasks h) (submitted h) (passkeyDomains h).
Definition set_pending (p : option nat) (h : Hook) : Hook :=
  mkHook (rendered h) (queued h) p (objects h) (tasks h) (submitted h) (passkeyDomains h).
Definition set_domains (d : option jsval) (h : Hook) : Hook :=
  mkHook (rendered h) (queued h) (pending h) (objects h) (tasks h) (submitted h) d.
Definition alter_object (f : Pending → Pending) (id : nat) (h : Hook) : Hook :=
  mkHook (rendered h) (queued h) (pending h) (alter f id (objects h)) (tasks h) (submitted h) (passkeyDomains h).
Definition add_task (id : nat) (t : Task) (h : Hook) : Hook :=
  mkHook (rendered h) (queued h) (pending h) (objects h) (tasks h ++ [(id, t)]) (submitted h) (passkeyDomains h).

(** A promise settles once. *)
Definition settle (s : Settlement) (p : Pending) : Pending :=
  mkPending (pd_request p) (pd_aborted p) (pd_submitting p) (pd_initialPassword p) (Some (default s (pd_settled p))).
Definition set_submitting (b : bool) (p : Pending) : Pending :=
  mkPending (pd_request p) (pd_aborted p) b (pd_initialPassword p) (pd_settled p).
Definition forget_password (p : Pending) : Pending :=
  mkPending (pd_request p) (pd_aborted p) (pd_submitting p) None (pd_settled p).
Definition abort (p : Pending) : Pending :=
  mkPending (pd_request p) true (pd_submitting p) (pd_initialPassword p) (pd_settled p).

Definition cancel (h : Hook) : Hook :=
  let h := match pending h with
           | Some id => alter_object (λ p, settle (Resolved None) (forget_password (abort p))) id (set_pending None h)
           | None => h
           end in
  dispatch DoReset (set_domains None h).

Definition is_current (id : nat) (h : Hook) : bool := bool_decide (pending h = Some id).

(** [loadRequirements] up to its first await. *)
Definition loadRequirements (id : nat) (h : Hook) : Hook :=
  match objects h !! id with
  | Some p => add_task id LoadTask (dispatch (DoLoading (pd_request p)) h)
  | None => h
  end.

Definition only_method (name : jsstring) (r : VerificationRequirements) : bool :=
  match methods r with [o] => (m_method o =s name) && m_available o | _ => false end.

(** The end of a request: no request is pending and the dialog closes. *)
Definition conclude (id : nat) (s : Settlement) (h : Hook) : Hook :=
  alter_object (settle s) id (dispatch DoReset (set_pending None h)).
Definition show_error (e : thrown E) (h : Hook) : Hook := dispatch (DoError (f_message (from_thrown e))) h.

Definition requirements_loaded (id : nat) (r : VerificationRequirements) (h : Hook) : Hook :=
  if negb (is_current id h) then h
  else
    match objects h !! id with
    | None => h
    | Some p =>
        let h := alter_object forget_password id h in
        if is_operation (pd_request p) && is_some (pd_initialPassword p) && only_method (js "password") r
        then add_task id PasswordTask h
        else if is_operation (pd_request p) && only_method (js "session") r
        then add_task id SessionTask h
        else dispatch (DoLoaded r) h
    end.

(** [requestVerification] and [requestLoginVerification]: the promise is that
    of the new object; it gets null when another request is pending. *)
Definition requestVerification (request : VerificationRequest) (initialPassword : option jsstring) (h : Hook) : Hook :=
  let id := length (objects h) in
  let add := λ p, mkHook (rendered h) (queued h) (pending h) (objects h ++ [p]) (tasks h) (submitted h) (passkeyDomains h) in
  if is_some (pending h) then add (mkPending request false false None (Some (Resolved None)))
  else loadRequirements id (set_domains None (set_pending (Some id) (add (mkPending request false false initialPassword None)))).

Definition executeVerification (override : option VerificationInput) (h : Hook) : Hook :=
  match pending h with
  | None => h
  | Some id =>
      match objects h !! id, rendered h with
      | Some p, Active false _ requirements state_input _ =>
          if pd_submitting p then h
          else
            match (match override with Some i => Some i | None => state_input end) with
            | None => h
            | Some input =>
                if negb (has_method (input_method input) requirements) then h
                else
                  let h := alter_object (set_submitting true) id h in
                  let h := match override with Some i => dispatch (DoInput i) h | None => h end in
                  let h := add_task id ExecuteTask (dispatch DoSubmit h) in
                  mkHook (rendered h) (queued h) (pending h) (objects h) (tasks h) (submitted h ++ [(id, input)])
                    (passkeyDomains h)
            end
      | _, _ => h
      end
  end.

Definition retry (h : Hook) : Hook :=
  match pending h, rendered h with
  | Some id, Failed _ _ => loadRequirements id h
  | _, _ => h
  end.
Definition setInput (input : VerificationInput) (h : Hook) : Hook := dispatch (DoInput input) h.

(** The outcome of what [executeVerification] awaited. *)
Definition execution_ended (id : nat) (outcome : TaskOutcome) (h : Hook) : Hook :=
  let h :=
    if negb (is_current id h) then h
    else
      match outcome with
      | GotGrant g => conclude id (Resolved (Some g)) h
      | Threw e =>
          let failure := from_thrown e in
          if bool_decide (f_code failure = Some (js "AUTH_CANCELLED")) then cancel h
          else dispatch (DoError (f_message failure)) h
      | GotRequirements _ => h
      end in
  alter_object (set_submitting false) id h.

(** A task ends; [None] when it cannot end like that. *)
Definition task_ended (id : nat) (t : Task) (outcome : TaskOutcome) (h : Hook) : option Hook :=
  match t, outcome with
  | LoadTask, GotRequirements r => Some (requirements_loaded id r h)
  | (LoadTask | SessionTask), Threw e => Some (if is_current id h then show_error e h else h)
  | (PasswordTask | SessionTask), GotGrant g => Some (if is_current id h then conclude id (Resolved (Some g)) h else h)
  | PasswordTask, Threw e => Some (if is_current id h then conclude id (Rejected e) h else h)
  | ExecuteTask, (GotGrant _ | Threw _) => Some (execution_ended id outcome h)
  | _, _ => None
  end.

(** What happens to the hook: calls of its functions, the [n]th task ends, the
    domains of a passkey are known while the [n]th task runs, a render. *)
Inductive HookEvent :=
  | Request (request : VerificationRequest) (initialPassword : option jsstring)
  | Cancel
  | Execute (override : option VerificationInput)
  | Retry
  | SetInput (input : VerificationInput)
  | TaskEnds (n : nat) (outcome : TaskOutcome)
  | Domains (n : nat) (domains : jsval)
  | Render.

Definition hook_step (h : Hook) (e : HookEvent) : Hook :=
  match e with
  | Request request initialPassword => requestVerification request initialPassword h
  | Cancel => cancel h
  | Execute override => executeVerification override h
  | Retry => retry h
  | SetInput input => setInput input h
  | TaskEnds n outcome =>
      match tasks h !! n with
      | None => h
      | Some (id, t) =>
          let rest := mkHook (rendered h) (queued h) (pending h) (objects h) (delete n (tasks h)) (submitted h) (passkeyDomains h) in
          default h (task_ended id t outcome rest)
      end
  | Domains n domains =>
      match tasks h !! n with
      | Some (id, ExecuteTask) => if is_current id h then set_domains (Some domains) h else h
      | _ => h
      end
  | Render =>
      mkHook (foldl verificationReducer (rendered h) (queued h)) [] (pending h) (objects h) (tasks h) (submitted h)
        (passkeyDomains h)
  end.
Definition hook_run (events : list HookEvent) : Hook := foldl hook_step initial_hook events.

(** The state once React has caught up. *)
Definition view (h : Hook) : SecureVerificationState := foldl verificationReducer (rendered h) (queued h).
End Hook.
