(* ===== verification/VerificationFacts.v ===== *)
(** * The verification dialog: theorems

    Whatever the order of user actions, renders and answers: one request at a
    time, no spinner without something under way that ends it, no secret left
    in the dialog while it is verified, and answers that come too late change
    nothing. *)

From S2P Require Import Prelude JsNumber JsText Types Runtime JsValue ServerError Verification.

#[export] Instance Task_eq_dec : EqDecision Task.
Proof. solve_decision. Defined.

Section Facts.
Context {E : Type} `{ErrorSource E}.

(** ** The parts of the invariant *)

(** The pending object is the one whose promise is open. *)
Definition objects_ok (p : option nat) (objs : list (Pending (E := E))) : Prop :=
  (∀ id, p = Some id → is_Some (objs !! id)) ∧
  ∀ id x, objs !! id = Some x → (p = Some id ↔ pd_settled x = None).

(** What is shown: the dialog is closed when nothing is pending; a spinner has
    a task of the pending object that ends it; while an input is verified the
    dialog holds no password and no code. *)
Definition view_ok (v : SecureVerificationState) (p : option nat) (ts : list (nat * Task)) : Prop :=
  (v = Idle ↔ p = None) ∧
  (∀ id r, p = Some id → v = Loading r → ∃ t, t ≠ ExecuteTask ∧ (id, t) ∈ ts) ∧
  (∀ id r q i e, p = Some id → v = Active true r q i e → (id, ExecuteTask) ∈ ts ∧ cleared i = i).

Definition executions (id : nat) (ts : list (nat * Task)) : nat := length (filter (λ x, x = (id, ExecuteTask)) ts).
(** An object is submitting when one verification of it is under way. *)
Definition executions_ok (objs : list (Pending (E := E))) (ts : list (nat * Task)) : Prop :=
  (∀ id x, objs !! id = Some x → executions id ts = if pd_submitting x then 1 else 0) ∧
  (∀ id t, (id, t) ∈ ts → id < length objs).

Record hook_ok (h : Hook (E := E)) : Prop := {
  ok_objects : objects_ok (pending h) (objects h);
  ok_view : view_ok (view h) (pending h) (tasks h);
  ok_executions : executions_ok (objects h) (tasks h)
}.

Lemma view_dispatch a (h : Hook (E := E)) : view (dispatch a h) = verificationReducer (view h) a.
Proof. unfold view, dispatch. cbn. by rewrite foldl_app. Qed.

(** ** Objects *)

Lemma lookup_alter_Some (f : Pending → Pending) id (objs : list (Pending (E := E))) i x :
  alter f id objs !! i = Some x ↔ ∃ y, objs !! i = Some y ∧ x = if decide (i = id) then f y else y.
Proof.
  destruct (decide (i = id)) as [->|Hne].
  - rewrite list_lookup_alter_eq. destruct (objs !! id); cbn; naive_solver.
  - rewrite list_lookup_alter_ne by done. naive_solver.
Qed.

(** A change of an object that keeps its promise. *)
Lemma objects_alter p objs f id :
  (∀ x, pd_settled (f x) = pd_settled x) → objects_ok p objs → objects_ok p (alter f id objs).
Proof.
  intros Hf [H1 H2]. split.
  - intros i Hi. destruct (H1 i Hi) as [x Hx]. exists (if decide (i = id) then f x else x). apply lookup_alter_Some. by exists x.
  - intros i x (y & Hy & ->)%lookup_alter_Some. rewrite (H2 i y Hy). case_decide; [by rewrite Hf|done].
Qed.

(** The pending object settles. *)
Lemma objects_settle objs f id :
  (∀ x, is_Some (pd_settled (f x))) → objects_ok (Some id) objs → objects_ok None (alter f id objs).
Proof.
  intros Hf [H1 H2]. split; [done|]. intros i x (y & Hy & ->)%lookup_alter_Some. split; [done|]. intros Hn. exfalso.
  case_decide as Hi; [destruct (Hf y); congruence|]. apply Hi. apply (H2 i y Hy) in Hn. congruence.
Qed.

Lemma objects_add p objs x :
  objects_ok p objs → is_Some (pd_settled x) → objects_ok p (objs ++ [x]).
Proof.
  intros [H1 H2] Hx. split.
  - intros i Hi. destruct (H1 i Hi) as [y Hy]. exists y. by apply lookup_app_l_Some.
  - intros i y [Hy|[Hlen Hy]]%lookup_app_Some; [by apply H2|].
    apply list_lookup_singleton_Some in Hy as [Hi <-]. split; [|destruct Hx; congruence].
    intros Hp. destruct (H1 i Hp) as [z Hz]. apply lookup_lt_Some in Hz. lia.
Qed.
Lemma objects_open objs x :
  objects_ok None objs → pd_settled x = None → objects_ok (Some (length objs)) (objs ++ [x]).
Proof.
  intros [H1 H2] Hx. split.
  - intros i [= <-]. exists x. rewrite lookup_app_r by lia. by rewrite Nat.sub_diag.
  - intros i y [Hy|[Hlen Hy]]%lookup_app_Some.
    + apply lookup_lt_Some in Hy as Hlt. split; [intros [= <-]; lia|]. intros Hn. by apply (H2 i y Hy) in Hn.
    + apply list_lookup_singleton_Some in Hy as [Hi <-]. split; [done|]. intros _. f_equal. lia.
Qed.

(** ** Tasks *)

Lemma executions_app id ts us : executions id (ts ++ us) = executions id ts + executions id us.
Proof. unfold executions. by rewrite filter_app, length_app. Qed.
Lemma executions_other id id' t : (id', t) ≠ (id, ExecuteTask) → executions id [(id', t)] = 0.
Proof. intros Hne. unfold executions. by rewrite filter_cons_False. Qed.
Lemma executions_one id : executions id [(id, ExecuteTask)] = 1.
Proof. unfold executions. by rewrite filter_cons_True. Qed.
Lemma executions_delete id n ts x :
  ts !! n = Some x → executions id ts = executions id [x] + executions id (delete n ts).
Proof.
  intros Hx. rewrite <- executions_app. unfold executions. apply Permutation_length, filter_Permutation.
  by apply delete_Permutation.
Qed.
Lemma task_remains n (ts : list (nat * Task)) x y : ts !! n = Some x → y ∈ ts → y ≠ x → y ∈ delete n ts.
Proof. intros Hx Hy Hne. rewrite (delete_Permutation ts n x Hx) in Hy. apply elem_of_cons in Hy as [->|?]; [done|done]. Qed.

Lemma executions_alter objs ts f id :
  (∀ x, pd_submitting (f x) = pd_submitting x) → executions_ok objs ts → executions_ok (alter f id objs) ts.
Proof.
  intros Hf [H1 H2]. split.
  - intros i x (y & Hy & ->)%lookup_alter_Some. rewrite (H1 i y Hy). case_decide; [by rewrite Hf|done].
  - intros i t Ht. rewrite length_alter. by eapply H2.
Qed.
Lemma executions_add_task objs ts id t :
  t ≠ ExecuteTask → id < length objs → executions_ok objs ts → executions_ok objs (ts ++ [(id, t)]).
Proof.
  intros Ht Hid [H1 H2]. split.
  - intros i x Hx. rewrite executions_app, executions_other, (H1 i x Hx) by congruence. lia.
  - intros i t' [Hi|Hi%list_elem_of_singleton]%elem_of_app; [by eapply H2|]. by injection Hi as -> ->.
Qed.
Lemma executions_submit objs ts id x :
  objs !! id = Some x → pd_submitting x = false → executions_ok objs ts →
  executions_ok (alter (set_submitting true) id objs) (ts ++ [(id, ExecuteTask)]).
Proof.
  intros Hx Hs [H1 H2]. split.
  - intros i y (z & Hz & ->)%lookup_alter_Some. rewrite executions_app. case_decide as Hi.
    + subst i. rewrite Hx in Hz. injection Hz as <-. rewrite executions_one, (H1 id x Hx), Hs. done.
    + rewrite executions_other by congruence. rewrite (H1 i z Hz). lia.
  - intros i t [Hi|Hi%list_elem_of_singleton]%elem_of_app; rewrite length_alter; [by eapply H2|].
    injection Hi as -> ->. by eapply lookup_lt_Some.
Qed.
(** A task that is no execution ends; the execution of an object ends. *)
Lemma executions_end objs ts n id t :
  ts !! n = Some (id, t) → t ≠ ExecuteTask → executions_ok objs ts → executions_ok objs (delete n ts).
Proof.
  intros Hn Ht [H1 H2]. split.
  - intros i x Hx. rewrite <- (H1 i x Hx), (executions_delete i n ts _ Hn), executions_other by congruence. done.
  - intros i t' Hi. apply (H2 i t'). rewrite (delete_Permutation ts n _ Hn). apply elem_of_cons. by right.
Qed.
Lemma executions_finish objs ts n id :
  ts !! n = Some (id, ExecuteTask) → executions_ok objs ts →
  executions_ok (alter (set_submitting false) id objs) (delete n ts).
Proof.
  intros Hn [H1 H2]. split.
  - intros i x (y & Hy & ->)%lookup_alter_Some. pose proof (H1 i y Hy) as Hc. rewrite (executions_delete i n ts _ Hn) in Hc.
    case_decide as Hi.
    + subst i. rewrite executions_one in Hc. cbn. destruct (pd_submitting y); lia.
    + rewrite executions_other in Hc by congruence. lia.
  - intros i t' Hi. rewrite length_alter. apply (H2 i t'). rewrite (delete_Permutation ts n _ Hn). apply elem_of_cons. by right.
Qed.

(** ** What is shown *)

(** A dialog that waits for the user. *)
Definition calm (v : SecureVerificationState) : Prop :=
  match v with Failed _ _ | Active false _ _ _ _ => True | _ => False end.

Lemma view_calm v id ts : calm v → view_ok v (Some id) ts.
Proof. intros Hv. destruct v as [|r|r e|[] r q x e]; try done; (split_and!; [split; discriminate|intros; discriminate..]). Qed.
Lemma view_closed ts : view_ok Idle None ts.
Proof. by split_and!. Qed.

Lemma view_more_tasks v p ts us : view_ok v p ts → view_ok v p (ts ++ us).
Proof.
  intros (H1 & H2 & H3). split_and!; [done|..].
  - intros id r Hp Hv. destruct (H2 id r Hp Hv) as (t & Ht & Hin). exists t. split; [done|]. apply elem_of_app. by left.
  - intros id r q i e Hp Hv. destruct (H3 id r q i e Hp Hv) as [Hin Hc]. split; [apply elem_of_app; by left|done].
Qed.
(** A task of an object that is not pending ends. *)
Lemma view_foreign_end v p ts n id t : ts !! n = Some (id, t) → p ≠ Some id → view_ok v p ts → view_ok v p (delete n ts).
Proof.
  intros Hn Hp (H1 & H2 & H3). split_and!; [done|..].
  - intros i r Hi Hv. destruct (H2 i r Hi Hv) as (t' & Ht & Hin). exists t'. split; [done|]. eapply task_remains; [done..|congruence].
  - intros i r q x e Hi Hv. destruct (H3 i r q x e Hi Hv) as [Hin Hc]. split; [|done]. eapply task_remains; [done..|congruence].
Qed.

Lemma view_input v p ts i : view_ok v p ts → view_ok (verificationReducer v (DoInput i)) p ts.
Proof.
  intros Hv. destruct v as [|r|r e|[] r q x e]; try exact Hv. cbn. destruct (has_method _ q); [|exact Hv].
  destruct p as [id|]; [by apply view_calm|]. destruct Hv as [[_ H1] _]. discriminate (H1 eq_refl).
Qed.
Lemma cleared_idem i : cleared (cleared i) = cleared i.
Proof. by destruct i as [[]|]. Qed.
Lemma view_submit v id ts : view_ok v (Some id) ts → (id, ExecuteTask) ∈ ts → view_ok (verificationReducer v DoSubmit) (Some id) ts.
Proof.
  intros Hv Hin. destruct v as [|r|r e|[] r q x e]; try exact Hv. cbn. split_and!; [done|done|].
  intros id' r' q' i' e' [= <-] [= <- <- <- <-]. split; [done|apply cleared_idem].
Qed.
Lemma view_error v id ts us e : view_ok v (Some id) ts → view_ok (verificationReducer v (DoError e)) (Some id) us.
Proof.
  intros (H1 & _). destruct v as [|r|r e'|b r q x e']; cbn; try (by apply view_calm). discriminate (proj1 H1 eq_refl).
Qed.

(** ** Steps *)

Lemma load_ok id h x :
  hook_ok h → pending h = Some id → objects h !! id = Some x → hook_ok (loadRequirements id h).
Proof.
  intros [Ho Hv He] Hp Hx. unfold loadRequirements. rewrite Hx. split; [exact Ho| |].
  - change (view (add_task id LoadTask ?h)) with (view h). rewrite view_dispatch. cbn [verificationReducer].
    cbn [add_task pending tasks dispatch]. rewrite Hp. split_and!; [done| |done].
    intros id' r [= <-] _. exists LoadTask. split; [done|]. apply elem_of_app. right. by apply list_elem_of_singleton.
  - apply executions_add_task; [done| |exact He]. by eapply lookup_lt_Some.
Qed.

Lemma cancel_ok h : hook_ok h → hook_ok (cancel h).
Proof.
  intros [Ho Hv He]. unfold cancel. destruct (pending h) as [id|] eqn:Hp.
  - split; [|rewrite view_dispatch; apply view_closed|].
    + apply objects_settle with (id := id); [by eexists|]. exact Ho.
    + by apply executions_alter.
  - split; [cbn; by rewrite Hp|rewrite view_dispatch; cbn; rewrite Hp; apply view_closed|exact He].
Qed.

Lemma request_ok r pw h : hook_ok h → hook_ok (requestVerification r pw h).
Proof.
  intros [Ho Hv He]. unfold requestVerification.
  assert (∀ x, pd_submitting x = false → executions_ok (objects h) (tasks h) → executions_ok (objects h ++ [x]) (tasks h)) as Hadd.
  { intros x Hx [H1 H2]. split.
    - intros i y [Hy|[Hlen Hy]]%lookup_app_Some; [by apply H1|].
      apply list_lookup_singleton_Some in Hy as [Hi <-]. rewrite Hx. unfold executions.
      destruct (filter (λ t, t = (i, ExecuteTask)) (tasks h)) as [|t l] eqn:Ef; [done|].
      assert (t ∈ filter (λ t, t = (i, ExecuteTask)) (tasks h)) as Ht by (rewrite Ef; apply elem_of_cons; by left).
      apply list_elem_of_filter in Ht as [-> Ht]. apply H2 in Ht. lia.
    - intros i t Hi. rewrite length_app. apply H2 in Hi. lia. }
  destruct (pending h) as [id|] eqn:Hp; cbn [is_some].
  - split; cbn [pending objects tasks]; [|exact Hv|by apply Hadd]. apply objects_add; [done|by eexists].
  - set (x := mkPending r false false pw None).
    assert ((objects h ++ [x]) !! length (objects h) = Some x) as Hx by (rewrite lookup_app_r by lia; by rewrite Nat.sub_diag).
    unfold loadRequirements. cbn [set_domains set_pending objects]. rewrite Hx. split.
    + by apply objects_open.
    + change (view (add_task ?i LoadTask ?h)) with (view h). rewrite view_dispatch. cbn. split_and!; [done| |done].
      intros id r' [= <-] _. exists LoadTask. split; [done|]. apply elem_of_app. right. by apply list_elem_of_singleton.
    + apply executions_add_task; [done| |by apply Hadd]. cbn. rewrite length_app. cbn. lia.
Qed.

Lemma execute_ok override h : hook_ok h → hook_ok (executeVerification override h).
Proof.
  intros Hok. pose proof Hok as [Ho Hv He]. unfold executeVerification. destruct (pending h) as [id|] eqn:Hp; [|exact Hok].
  destruct (objects h !! id) as [x|] eqn:Hx; [|exact Hok].
  destruct (rendered h) as [|r|r e|[] r q i e] eqn:Hr; try exact Hok.
  destruct (pd_submitting x) eqn:Hs; [exact Hok|]. destruct (match override with Some i0 => Some i0 | None => i end) as [input|]; [|exact Hok].
  destruct (negb (has_method (input_method input) q)); [exact Hok|].
  set (h1 := alter_object (set_submitting true) id h).
  set (h2 := match override with Some i0 => dispatch (DoInput i0) h1 | None => h1 end).
  assert (pending h2 = Some id ∧ objects h2 = alter (set_submitting true) id (objects h) ∧ tasks h2 = tasks h ∧
          view_ok (view h2) (Some id) (tasks h)) as (Hp2 & Ho2 & Ht2 & Hv2).
  { unfold h2. destruct override as [i0|]; [|by rewrite <- Hp in *].
    split_and!; [exact Hp|done|done|]. rewrite view_dispatch. apply view_input. exact Hv. }
  clearbody h2. split; cbn [pending objects tasks].
  - cbn. rewrite Hp2, Ho2. by apply objects_alter.
  - change (view _) with (view (dispatch DoSubmit h2)). rewrite view_dispatch. cbn. rewrite Hp2, Ht2.
    apply view_submit; [by apply view_more_tasks|]. apply elem_of_app. right. by apply list_elem_of_singleton.
  - cbn. rewrite Ho2, Ht2. by eapply executions_submit.
Qed.

Lemma conclude_ok id s h :
  objects_ok (Some id) (objects h) → executions_ok (objects h) (tasks h) → hook_ok (conclude id s h).
Proof.
  intros Ho He. split.
  - apply objects_settle; [by eexists|exact Ho].
  - change (view (conclude id s h)) with (view (dispatch DoReset (set_pending None h))). rewrite view_dispatch. apply view_closed.
  - by apply executions_alter.
Qed.

(** The state in which a task ends: its entry is gone. *)
Definition without_task (n : nat) (h : Hook (E := E)) : Hook (E := E) :=
  mkHook (rendered h) (queued h) (pending h) (objects h) (delete n (tasks h)) (submitted h) (passkeyDomains h).

Lemma foreign_end n id t h :
  hook_ok h → tasks h !! n = Some (id, t) → t ≠ ExecuteTask → is_current id (without_task n h) = false →
  hook_ok (without_task n h).
Proof.
  intros [Ho Hv He] Hn Ht Hc. apply bool_decide_eq_false in Hc. split; [exact Ho| |by eapply executions_end].
  by eapply view_foreign_end.
Qed.

Lemma loaded_ok n id r h :
  hook_ok h → tasks h !! n = Some (id, LoadTask) → hook_ok (requirements_loaded id r (without_task n h)).
Proof.
  intros Hok Hn. pose proof Hok as [Ho Hv He]. unfold requirements_loaded.
  destruct (is_current id (without_task n h)) eqn:Hc; cbn [negb]; [|by eapply foreign_end].
  apply bool_decide_eq_true in Hc. cbn in Hc. cbn [without_task objects].
  destruct (proj1 Ho id Hc) as [x Hx]. rewrite Hx.
  pose proof (executions_end (objects h) (tasks h) n id LoadTask Hn ltac:(done) He) as He1.
  assert (objects_ok (pending h) (alter forget_password id (objects h))) as Ho1 by by apply objects_alter.
  assert (executions_ok (alter forget_password id (objects h)) (delete n (tasks h))) as He2 by by apply executions_alter.
  assert (id < length (alter forget_password id (objects h))) as Hlen by (rewrite length_alter; by eapply lookup_lt_Some).
  assert (∀ t, t ≠ ExecuteTask → hook_ok (add_task id t (alter_object forget_password id (without_task n h)))) as Hadd.
  { intros t Ht. split; [exact Ho1| |by apply executions_add_task].
    change (view (add_task _ _ _)) with (view h). cbn. rewrite Hc. destruct Hv as (H1 & H2 & H3). rewrite Hc in *. split_and!; [done|..].
    - intros i r' [= <-] _. exists t. split; [done|]. apply elem_of_app. right. by apply list_elem_of_singleton.
    - intros i r' q z e [= <-] Hview. destruct (H3 id r' q z e eq_refl Hview) as [Hin Hcl]. split; [|done].
      apply elem_of_app. left. eapply task_remains; [done..|congruence]. }
  destruct (is_operation _ && _ && _); [by apply Hadd|]. destruct (is_operation _ && _); [by apply Hadd|].
  split; [exact Ho1| |exact He2]. rewrite view_dispatch.
  change (view (alter_object _ _ _)) with (view h). cbn. rewrite Hc in *.
  destruct Hv as (H1 & H2 & H3). destruct (view h) as [|r'|r' e|[] r' q z e] eqn:Ev; cbn; try (by apply view_calm).
  - discriminate (proj1 H1 eq_refl).
  - split_and!; [done|done|]. intros i r1 q1 z1 e1 [= <-] Hview. destruct (H3 id _ _ _ _ eq_refl Hview) as [Hin Hcl].
    split; [|done]. eapply task_remains; [done..|congruence].
Qed.

Lemma execution_ok n id outcome h :
  hook_ok h → tasks h !! n = Some (id, ExecuteTask) → (∀ r, outcome ≠ GotRequirements r) →
  hook_ok (execution_ended id outcome (without_task n h)).
Proof.
  intros [Ho Hv He] Hn Hout. unfold execution_ended.
  assert (∀ f, (∀ x, pd_submitting (f x) = pd_submitting x) →
            executions_ok (alter (set_submitting false) id (alter f id (objects h))) (delete n (tasks h))) as Hfin.
  { intros f Hf. apply executions_finish; [exact Hn|]. by apply executions_alter. }
  destruct (is_current id (without_task n h)) eqn:Hc; cbn [negb].
  - apply bool_decide_eq_true in Hc. cbn in Hc. rewrite Hc in Ho, Hv. destruct outcome as [r|g|e]; [by destruct (Hout r)| |].
    + split.
      * apply objects_alter; [done|]. apply objects_settle; [by eexists|exact Ho].
      * change (view (alter_object _ _ (conclude id ?s ?h))) with (view (dispatch DoReset (set_pending None h))).
        rewrite view_dispatch. apply view_closed.
      * by apply Hfin.
    + case_bool_decide.
      * unfold cancel. cbn [without_task pending]. rewrite Hc. split.
        -- apply objects_alter; [done|]. apply objects_settle; [by eexists|exact Ho].
        -- change (view (alter_object _ _ (dispatch DoReset ?h))) with (view (dispatch DoReset h)).
           rewrite view_dispatch. apply view_closed.
        -- by apply Hfin.
      * split.
        -- apply objects_alter; [done|]. cbn. by rewrite Hc.
        -- change (view (alter_object _ _ (dispatch ?a ?h))) with (view (dispatch a h)).
           rewrite view_dispatch. change (view (without_task n h)) with (view h). cbn [alter_object dispatch without_task pending tasks].
           rewrite Hc. by eapply view_error.
        -- by apply executions_finish.
  - apply bool_decide_eq_false in Hc. split; [by apply objects_alter| |by apply executions_finish].
    by eapply view_foreign_end.
Qed.

Lemma task_ended_ok n id t outcome h h' :
  hook_ok h → tasks h !! n = Some (id, t) → task_ended id t outcome (without_task n h) = Some h' → hook_ok h'.
Proof.
  intros Hok Hn. pose proof Hok as [Ho Hv He].
  assert (t ≠ ExecuteTask → is_current id (without_task n h) = true → ∀ s, hook_ok (conclude id s (without_task n h))) as Hconclude.
  { intros Ht Hc s. apply bool_decide_eq_true in Hc. cbn in Hc. apply conclude_ok; [by rewrite <- Hc|by eapply executions_end]. }
  assert (t ≠ ExecuteTask → is_current id (without_task n h) = true → ∀ e, hook_ok (show_error e (without_task n h))) as Herror.
  { intros Ht Hc e. apply bool_decide_eq_true in Hc. cbn in Hc. unfold show_error. split; [exact Ho| |by eapply executions_end].
    rewrite view_dispatch. change (view (without_task n h)) with (view h). cbn [dispatch without_task pending tasks].
    rewrite Hc in *. by eapply view_error. }
  assert (t ≠ ExecuteTask → ∀ x, (is_current id (without_task n h) = true → hook_ok x) →
            hook_ok (if is_current id (without_task n h) then x else without_task n h)) as Hif.
  { intros Ht x Hx. destruct (is_current id (without_task n h)) eqn:Hc; [by apply Hx|by eapply foreign_end]. }
  destruct t, outcome as [r|g|e]; cbn [task_ended]; intros [= <-].
  - by apply loaded_ok.
  - apply Hif; [done|]. intros Hc. by apply Herror.
  - apply Hif; [done|]. intros Hc. by apply Hconclude.
  - apply Hif; [done|]. intros Hc. by apply Hconclude.
  - apply Hif; [done|]. intros Hc. by apply Hconclude.
  - apply Hif; [done|]. intros Hc. by apply Herror.
  - by apply execution_ok.
  - by apply execution_ok.
Qed.

Lemma hook_ok_step h e : hook_ok h → hook_ok (hook_step h e).
Proof.
  intros Hok. pose proof Hok as [Ho Hv He]. destruct e as [r pw| |override| |i|n outcome|n d|]; cbn [hook_step].
  - by apply request_ok.
  - by apply cancel_ok.
  - by apply execute_ok.
  - unfold retry. destruct (pending h) as [id|] eqn:Hp; [|exact Hok]. destruct (rendered h); try exact Hok.
    destruct (proj1 Ho id eq_refl) as [x Hx]. by eapply load_ok.
  - unfold setInput. split; [exact Ho| |exact He]. rewrite view_dispatch. by apply view_input.
  - destruct (tasks h !! n) as [[id t]|] eqn:Hn; [|exact Hok].
    change (mkHook _ _ _ _ _ _ _) with (without_task n h).
    destruct (task_ended id t outcome (without_task n h)) as [h'|] eqn:Ht; [|exact Hok].
    change (hook_ok h'). by eapply task_ended_ok.
  - destruct (tasks h !! n) as [[id []]|]; try exact Hok. by destruct (is_current id h).
  - by split.
Qed.

Lemma hook_ok_run events : hook_ok (hook_run events).
Proof.
  unfold hook_run. induction events as [|e events IH] using rev_ind.
  - split; [by split|by split_and!|]. split; [done|]. by intros id t ?%not_elem_of_nil.
  - rewrite foldl_app. by apply hook_ok_step.
Qed.

(** C19. The verification dialog, in every reachable state: the one request that
    is pending is the one whose promise is open; the dialog is closed exactly
    when none is; a spinner always has a task under way for the pending request:
    a load or what follows from it while the requirements are loaded, the
    verification of the input while that is verified; a request has at most one
    submitted input under way; and while an input is verified the dialog holds no
    password and no code. The verifications that need no input, with the initial
    password or the session, are not counted: two retries before a render load
    the requirements twice and may start two of them ([retries_overlap]). *)
Theorem ceremony_invariant events :
  let h := hook_run events in
  (∀ id x, objects h !! id = Some x → (pending h = Some id ↔ pd_settled x = None)) ∧
  (∀ id, pending h = Some id → is_Some (objects h !! id)) ∧
  (view h = Idle ↔ pending h = None) ∧
  (∀ r, view h = Loading r → ∃ id t, pending h = Some id ∧ t ≠ ExecuteTask ∧ (id, t) ∈ tasks h) ∧
  (∀ r q i e, view h = Active true r q i e → (∃ id, pending h = Some id ∧ (id, ExecuteTask) ∈ tasks h) ∧ cleared i = i) ∧
  (∀ id, executions id (tasks h) ≤ 1).
Proof.
  intros h. destruct (hook_ok_run events) as [[Ho1 Ho2] (Hv1 & Hv2 & Hv3) [He1 He2]]. fold h in Ho1, Ho2, Hv1, Hv2, Hv3, He1, He2.
  assert (∀ v, view h = v → v ≠ Idle → ∃ id, pending h = Some id) as Hsome.
  { intros v Hview Hv. destruct (pending h) as [id|]; [by exists id|]. destruct Hv. rewrite <- Hview. by apply Hv1. }
  split_and!; [exact Ho2|exact Ho1|exact Hv1|..].
  - intros r Hview. destruct (Hsome _ Hview ltac:(done)) as [id Hid]. destruct (Hv2 id r Hid Hview) as (t & Ht & Hin). by exists id, t.
  - intros r q i e Hview. destruct (Hsome _ Hview ltac:(done)) as [id Hid]. destruct (Hv3 id _ _ _ _ Hid Hview) as [Hin Hc].
    split; [by exists id|exact Hc].
  - intros id. destruct (objects h !! id) as [x|] eqn:Hx; [rewrite (He1 id x Hx); destruct (pd_submitting x); lia|].
    assert (executions id (tasks h) = 0) as ->; [|lia]. unfold executions.
    destruct (filter (λ t, t = (id, ExecuteTask)) (tasks h)) as [|t l] eqn:Ef; [done|].
    assert (t ∈ filter (λ t, t = (id, ExecuteTask)) (tasks h)) as Ht by (rewrite Ef; apply elem_of_cons; by left).
    apply list_elem_of_filter in Ht as [-> Ht]. apply He2 in Ht. apply lookup_ge_None in Hx. lia.
Qed.

(** Late answers are inert. Once a request was cancelled or has settled, the
    end of anything it still awaited changes neither the dialog nor its queue,
    nor the pending request, nor what any promise was settled to. *)
Theorem late_answers_inert events n outcome id t :
  let h := hook_run events in
  tasks h !! n = Some (id, t) → pending h ≠ Some id →
  let h' := hook_step h (TaskEnds n outcome) in
  rendered h' = rendered h ∧ queued h' = queued h ∧ pending h' = pending h ∧ passkeyDomains h' = passkeyDomains h ∧
  pd_settled <$> objects h' = pd_settled <$> objects h ∧ pd_request <$> objects h' = pd_request <$> objects h.
Proof.
  intros h Hn Hp h'. assert (is_current id (without_task n h) = false) as Hc by by apply bool_decide_eq_false.
  assert (∀ f : Pending (E := E) → Pending (E := E), (∀ x, pd_settled (f x) = pd_settled x) → pd_settled <$> alter f id (objects h) = pd_settled <$> objects h) as Hset.
  { intros f Hf. apply list_eq. intros i. rewrite !list_lookup_fmap. destruct (decide (i = id)) as [->|];
      [rewrite list_lookup_alter_eq|by rewrite list_lookup_alter_ne]. destruct (objects h !! id); [cbn; by rewrite Hf|done]. }
  assert (∀ f : Pending (E := E) → Pending (E := E), (∀ x, pd_request (f x) = pd_request x) → pd_request <$> alter f id (objects h) = pd_request <$> objects h) as Hreq.
  { intros f Hf. apply list_eq. intros i. rewrite !list_lookup_fmap. destruct (decide (i = id)) as [->|];
      [rewrite list_lookup_alter_eq|by rewrite list_lookup_alter_ne]. destruct (objects h !! id); [cbn; by rewrite Hf|done]. }
  unfold h'. cbn [hook_step]. rewrite Hn. change (mkHook _ _ _ _ _ _ _) with (without_task n h).
  destruct t, outcome as [r|g|e]; cbn [task_ended default from_option]; try done; rewrite ?Hc; try done.
  - unfold requirements_loaded. by rewrite Hc.
  - unfold execution_ended. rewrite Hc. cbn. split_and!; [done..|by apply Hset|by apply Hreq].
  - unfold execution_ended. rewrite Hc. cbn. split_and!; [done..|by apply Hset|by apply Hreq].
Qed.

(** ** Grants *)

(** The promise of [id] was resolved with [g]. *)
Definition granted (objs : list (Pending (E := E))) (id : nat) (g : Grant) : Prop :=
  ∃ x, objs !! id = Some x ∧ pd_settled x = Some (Resolved (Some g)).

(** A change of an object that keeps its promise or settles it with [s]. *)
Lemma granted_alter f i objs id g s :
  (∀ x, pd_settled (f x) = pd_settled x ∨ pd_settled (f x) = Some (default s (pd_settled x))) →
  granted (alter f i objs) id g → granted objs id g ∨ id = i ∧ s = Resolved (Some g).
Proof.
  intros Hf (x & (y & Hy & ->)%lookup_alter_Some & Hs). case_decide as Hi; [|left; by exists y]. subst i.
  destruct (Hf y) as [He|He]; rewrite He in Hs; [left; by exists y|].
  destruct (pd_settled y) eqn:Ey; cbn in Hs; [left; exists y; split; [done|congruence]|right; split; [done|congruence]].
Qed.

(** The grant with which an outcome settles a request. *)
Lemma granted_step h e id g :
  hook_ok h → granted (objects (hook_step h e)) id g →
  granted (objects h) id g ∨ ∃ n t, e = TaskEnds n (GotGrant g) ∧ tasks h !! n = Some (id, t) ∧ pending h = Some id.
Proof.
  intros Hok. assert (∀ f i objs, (∀ x, pd_settled (f x) = pd_settled x) → granted (alter f i objs) id g → granted objs id g) as Hkeep.
  { intros f i objs Hf Hg. destruct (granted_alter f i objs id g (Resolved None) ltac:(auto) Hg) as [?|[_ ?]]; done. }
  assert (∀ h, granted (objects (cancel h)) id g → granted (objects h) id g) as Hcancel.
  { intros h0. unfold cancel. destruct (pending h0) as [i|]; [|done]. cbn. intros Hg.
    eapply (granted_alter _ i (objects h0) id g (Resolved None)) in Hg as [?|[_ ?]]; [done|done|]. intros x. by right. }
  assert (∀ i h, granted (objects (loadRequirements i h)) id g → granted (objects h) id g) as Hload.
  { intros i h0. unfold loadRequirements. by destruct (objects h0 !! i). }
  assert (∀ objs x, (∀ g, pd_settled x ≠ Some (Resolved (Some g))) → granted (objs ++ [x]) id g → granted objs id g) as Hadd.
  { intros objs x Hx (y & [Hy|[_ Hy]]%lookup_app_Some & Hs); [by exists y|].
    apply list_lookup_singleton_Some in Hy as [_ <-]. by destruct (Hx g). }
  destruct e as [r pw| |override| |i|n outcome|n d|]; cbn [hook_step]; intros Hg; try (by left).
  - left. unfold requestVerification in Hg. destruct (is_some (pending h)); [|apply Hload in Hg];
      (eapply Hadd; [|exact Hg]; intros ?; discriminate).
  - left. by apply Hcancel.
  - left. unfold executeVerification in Hg. destruct (pending h) as [i|]; [|done]. destruct (objects h !! i); [|done].
    destruct (rendered h) as [| | |[] r q j e]; try done. destruct (pd_submitting _); [done|].
    destruct (match override with Some i0 => Some i0 | None => j end); [|done]. destruct (negb _); [done|].
    destruct override; cbn in Hg; eapply Hkeep in Hg; done.
  - left. unfold retry in Hg. destruct (pending h); [|done]. destruct (rendered h); try done. by apply Hload in Hg.
  - destruct (tasks h !! n) as [[i t]|] eqn:Hn; [|by left]. change (mkHook _ _ _ _ _ _ _) with (without_task n h) in Hg.
    assert (∀ s, pending h = Some i → granted (objects (conclude i s (without_task n h))) id g →
              granted (objects h) id g ∨ id = i ∧ s = Resolved (Some g)) as Hconclude.
    { intros s _ Hx. eapply (granted_alter _ i (objects h) id g s); [|exact Hx]. intros x. by right. }
    assert (is_current i (without_task n h) = true → pending h = Some i) as Hcur
      by (intros Hc; by apply bool_decide_eq_true in Hc).
    destruct t, outcome as [r|g'|e]; cbn [task_ended default from_option] in Hg; try (by left).
    + left. change (granted (objects (requirements_loaded i r (without_task n h))) id g) in Hg. unfold requirements_loaded in Hg.
      destruct (is_current i _); cbn [negb] in Hg; [|done]. cbn [without_task objects] in Hg. destruct (objects h !! i); [|done].
      destruct (is_operation _ && _ && _); [|destruct (is_operation _ && _)]; cbn in Hg; by eapply Hkeep in Hg.
    + left. change (granted (objects (if is_current i (without_task n h) then show_error e (without_task n h) else without_task n h)) id g) in Hg.
      by destruct (is_current i _).
    + change (granted (objects (if is_current i (without_task n h) then conclude i (Resolved (Some g')) (without_task n h) else without_task n h)) id g) in Hg.
      destruct (is_current i _) eqn:Hc; [|by left]. pose proof (Hcur eq_refl) as Hp.
      destruct (Hconclude _ Hp Hg) as [?|[-> [= ->]]]; [by left|]. right. by exists n, PasswordTask.
    + change (granted (objects (if is_current i (without_task n h) then conclude i (Rejected e) (without_task n h) else without_task n h)) id g) in Hg.
      destruct (is_current i _) eqn:Hc; [|by left]. destruct (Hconclude _ (Hcur eq_refl) Hg) as [?|[_ ?]]; [by left|done].
    + change (granted (objects (if is_current i (without_task n h) then conclude i (Resolved (Some g')) (without_task n h) else without_task n h)) id g) in Hg.
      destruct (is_current i _) eqn:Hc; [|by left]. pose proof (Hcur eq_refl) as Hp.
      destruct (Hconclude _ Hp Hg) as [?|[-> [= ->]]]; [by left|]. right. by exists n, SessionTask.
    + left. change (granted (objects (if is_current i (without_task n h) then show_error e (without_task n h) else without_task n h)) id g) in Hg.
      by destruct (is_current i _).
    + change (granted (objects (execution_ended i (GotGrant g') (without_task n h))) id g) in Hg. unfold execution_ended in Hg.
      destruct (is_current i _) eqn:Hc; cbn [negb] in Hg; apply Hkeep in Hg; [|done|by left|done].
      pose proof (Hcur eq_refl) as Hp.
      destruct (Hconclude _ Hp Hg) as [?|[-> [= ->]]]; [by left|]. right. by exists n, ExecuteTask.
    + left. change (granted (objects (execution_ended i (Threw e) (without_task n h))) id g) in Hg. unfold execution_ended in Hg.
      destruct (is_current i _) eqn:Hc; cbn [negb] in Hg; apply Hkeep in Hg; [|done|done|done].
      case_bool_decide; [by apply Hcancel in Hg|done].
  - left. destruct (tasks h !! n) as [[i []]|]; try done. by destruct (is_current i h).
Qed.

(** C20. A grant belongs to its request. A promise resolves with a proof or a
    login only when a verification of that very request ends with it while the
    request is the pending one, so a cancelled request never gets one. *)
Theorem grants_are_own events id g :
  granted (objects (hook_run events)) id g →
  ∃ before n after t, events = before ++ TaskEnds n (GotGrant g) :: after ∧
    tasks (hook_run before) !! n = Some (id, t) ∧ pending (hook_run before) = Some id.
Proof.
  induction events as [|e events IH] using rev_ind; [by intros (x & Hx & _)|].
  unfold hook_run. rewrite foldl_app. cbn [foldl]. intros Hg.
  destruct (granted_step _ e id g (hook_ok_run events) Hg) as [Hold|(n & t & -> & Hn & Hp)].
  - destruct (IH Hold) as (before & n & after & t & -> & Hrest). exists before, n, (after ++ [e]), t.
    split; [by rewrite <- app_assoc|exact Hrest].
  - by exists events, n, [], t.
Qed.
End Facts.

(** Deleting a key: the two-factor code is asked for and accepted. *)
#[local] Instance text_errors : ErrorSource jsstring := λ m, mkFailure m None.
Definition example_requirements : VerificationRequirements :=
  mkRequirements (js "passkey.delete") [mkMethod (js "2fa") true None; mkMethod (js "password") true None] [] false.
Definition example_proof : Grant := GrantProof (mkProof (js "t") (num_of_Z 1) (js "2fa") (js "passkey.delete")).
Definition example_ceremony : list (HookEvent (E := jsstring)) :=
  [Request (OperationRequest (mkOperation (js "passkey.delete") VUndefined)) None; Render;
   TaskEnds 0 (GotRequirements example_requirements); Render; Execute (Some (TwoFactor (js "123456"))); Render;
   TaskEnds 0 (GotGrant example_proof)].
(** Two retries before React renders: the session is verified twice. *)
Definition session_requirements : VerificationRequirements :=
  mkRequirements (js "passkey.delete") [mkMethod (js "session") true None] [] false.
Example retries_overlap :
  tasks (hook_run (E := jsstring)
    [Request (OperationRequest (mkOperation (js "passkey.delete") VUndefined)) None; Render; TaskEnds 0 (Threw (Raised (js "x"))); Render;
     Retry; Retry; TaskEnds 0 (GotRequirements session_requirements); TaskEnds 0 (GotRequirements session_requirements)])
  = [(0, SessionTask); (0, SessionTask)].
Proof. vm_compute. reflexivity. Qed.

Lemma grants_are_own_witness :
  granted (objects (hook_run example_ceremony)) 0 example_proof ∧
  ∃ before n after, example_ceremony = before ++ TaskEnds n (GotGrant example_proof) :: after.
Proof.
  assert (granted (objects (hook_run example_ceremony)) 0 example_proof) as Hg.
  { eexists. split; vm_compute; reflexivity. }
  split; [exact Hg|]. destruct (grants_are_own example_ceremony 0 example_proof Hg) as (before & n & after & t & He & _).
  exists before, n, after. exact He.
Defined.
Lemma late_answers_inert_witness :
  let h := hook_run (take 5 example_ceremony ++ [Cancel]) in
  tasks h !! 0 = Some (0, ExecuteTask) ∧ pending h ≠ Some 0 ∧
  pd_settled <$> objects (hook_step h (TaskEnds 0 (GotGrant example_proof))) = pd_settled <$> objects h.
Proof.
  intros h. assert (tasks h !! 0 = Some (0, ExecuteTask)) as Hn by (vm_compute; reflexivity).
  assert (pending h ≠ Some 0) as Hp by (vm_compute; discriminate). split; [exact Hn|]. split; [exact Hp|].
  destruct (late_answers_inert (take 5 example_ceremony ++ [Cancel]) 0 (GotGrant example_proof) 0 ExecuteTask Hn Hp)
    as (_ & _ & _ & _ & Hs & _). exact Hs.
Defined.
