(* ===== verification/AdvancedCustom.v ===== *)
(** * features/channels/lib/advanced-custom.ts

    The routes of an advanced custom channel: reading and normalizing a
    configuration, its validation, the management routes and the defaults of
    the editor. A configuration comes from JSON or from the editor, so it is a
    value of unknown type; normalizing it gives a list of [Route], in which the
    incoming path, the converter and the parts of the authorization still have
    the type they came with. *)

From S2P Require Import Prelude JsNumber JsText Types Runtime JsRegex JsMap JsValue JsObject.

(** ** Constants *)

Definition ADVANCED_CUSTOM_MODEL_LIST_PATH : jsstring := js "/v1/models".
Definition ADVANCED_CUSTOM_MODEL_LIST_LABEL : jsstring := js "OpenAI Models".
Definition ADVANCED_CUSTOM_BALANCE_PATH : jsstring := js "/v1/dashboard/billing/credit_grants".
Definition ADVANCED_CUSTOM_BALANCE_LABEL : jsstring := js "Balance Query".

(** The values of the converter options; labels are for display. *)
Definition ADVANCED_CUSTOM_CONVERTERS : list jsstring :=
  [js "none"; js "anthropic_messages_to_openai_chat_completions";
   js "openai_chat_completions_to_anthropic_messages"; js "openai_chat_completions_to_openai_responses";
   js "openai_responses_to_openai_chat_completions"; js "openai_responses_to_gemini_generate_content";
   js "gemini_generate_content_to_openai_chat_completions";
   js "openai_chat_completions_to_gemini_generate_content"].

(** Incoming paths with the labels of their routes. *)
Definition ADVANCED_CUSTOM_INCOMING_PATH_OPTIONS : list (jsstring * jsstring) :=
  [(js "/v1/chat/completions", js "OpenAI Chat");
   (js "/v1/responses", js "OpenAI Responses");
   (js "/v1/responses/compact", js "OpenAI Responses Compact");
   (js "/v1/alpha/search", js "Codex Alpha Search");
   (js "/v1/embeddings", js "OpenAI Embeddings");
   (js "/v1/images/generations", js "OpenAI Image Generations");
   (js "/v1/images/edits", js "OpenAI Image Edits");
   (js "/v1/completions", js "OpenAI Completions");
   (js "/v1/audio/speech", js "OpenAI Audio Speech");
   (js "/v1/audio/transcriptions", js "OpenAI Audio Transcriptions");
   (js "/v1/audio/translations", js "OpenAI Audio Translations");
   (js "/v1/rerank", js "Rerank");
   (js "/v1/realtime", js "OpenAI Realtime");
   (js "/v1/messages", js "Claude Messages");
   (js "/v1beta/models/{model}:generateContent", js "Gemini Generate Content");
   (js "/v1beta/models/{model}:embedContent", js "Gemini Embed Content");
   (js "/v1beta/models/{model}:batchEmbedContents", js "Gemini Batch Embed Contents")].

(** Looked up by an incoming path; a path that names a member of
    [Object.prototype] is left out. *)
Definition ADVANCED_CUSTOM_ROUTE_SUMMARY_LABELS : list (jsstring * jsstring) :=
  [(js "/v1/chat/completions", js "OpenAI Chat");
   (ADVANCED_CUSTOM_MODEL_LIST_PATH, ADVANCED_CUSTOM_MODEL_LIST_LABEL);
   (ADVANCED_CUSTOM_BALANCE_PATH, ADVANCED_CUSTOM_BALANCE_LABEL)].

Definition ADVANCED_CUSTOM_MODEL_REGEX_PREFIX : jsstring := js "re:".
Definition openAIChatPath : jsstring := js "/v1/chat/completions".
Definition openAIResponsesPath : jsstring := js "/v1/responses".
Definition claudeMessagesPath : jsstring := js "/v1/messages".
Definition geminiGenerateContentPath : jsstring := js "/v1beta/models/{model}:generateContent".

(** ** Authorization and templates *)

Definition auth_value (type name v : jsstring) : jsval :=
  VObject [(js "type", VString type); (js "name", VString name); (js "value", VString v)].
Definition bearerHeaderAuth : jsval := auth_value (js "header") (js "Authorization") (js "Bearer {api_key}").
Definition apiKeyHeaderAuth : jsval := auth_value (js "header") (js "x-api-key") (js "{api_key}").
Definition geminiQueryAuth : jsval := auth_value (js "query") (js "key") (js "{api_key}").

Definition native_route (auth : jsval) (path : jsstring) : jsval :=
  VObject [(js "incoming_path", VString path); (js "upstream_path", VString path);
           (js "converter", VString (js "none")); (js "auth", auth)].

Definition createOpenAINativeRoutes : list jsval :=
  map (native_route bearerHeaderAuth)
    [js "/v1/chat/completions"; js "/v1/completions"; js "/v1/responses"; js "/v1/responses/compact";
     js "/v1/embeddings"; js "/v1/images/generations"; js "/v1/images/edits"; js "/v1/audio/speech";
     js "/v1/audio/transcriptions"; js "/v1/audio/translations"; js "/v1/realtime"].
Definition createClaudeNativeRoutes : list jsval := [native_route apiKeyHeaderAuth (js "/v1/messages")].
Definition createGeminiNativeRoutes : list jsval :=
  map (native_route geminiQueryAuth)
    [js "/v1beta/models/{model}:generateContent"; js "/v1beta/models/{model}:embedContent";
     js "/v1beta/models/{model}:batchEmbedContents"].
Definition createGatewayNativeRoutes : list jsval :=
  map (native_route bearerHeaderAuth) [js "/v1/alpha/search"; js "/v1/rerank"].

Definition config_value (routes : list jsval) : jsval := VObject [(js "advanced_routes", VArray routes)].

Definition ADVANCED_CUSTOM_TEMPLATE_OPTIONS : list (jsstring * jsval) :=
  [(js "all_protocols", config_value (createOpenAINativeRoutes ++ createClaudeNativeRoutes
                                      ++ createGeminiNativeRoutes ++ createGatewayNativeRoutes));
   (js "openai_only", config_value createOpenAINativeRoutes);
   (js "claude_only", config_value createClaudeNativeRoutes);
   (js "gemini_only", config_value createGeminiNativeRoutes)].

Definition getAdvancedCustomTemplateConfig (templateKey : jsstring) : jsval :=
  match own ADVANCED_CUSTOM_TEMPLATE_OPTIONS templateKey with
  | Some config => config
  | None => from_option snd VUndefined (head ADVANCED_CUSTOM_TEMPLATE_OPTIONS)
  end.

(** ** Normalized routes *)

Record RouteAuth := mkRouteAuth {
  auth_type : jsval;
  auth_name : jsval;
  auth_text : jsval        (* value *)
}.

Record AdvancedCustomRoute := mkRoute {
  incoming_path : jsval;
  upstream_path : jsstring;
  converter : jsval;
  models : list jsstring;
  pass_through_body_enabled : bool;
  auth : option RouteAuth
}.

(** [value.trim()]. *)
Definition trim_value (v : jsval) : result jsstring :=
  match v with VString s => Ok (trim s) | _ => Err type_error end.
Definition nonempty (s : jsstring) : bool := negb (s =s []).
Definition empty_text : jsval := VString [].
Definition none_converter : jsval := VString (js "none").

Definition normalizeAdvancedCustomRouteModels (v : jsval) : result (list jsstring) :=
  match v with
  | VArray items => texts ← mapM_result trim_value items; Ok (List.filter nonempty texts)
  | _ => Ok []
  end.

Definition normalizeAdvancedCustomRoute (route : jsval) : result AdvancedCustomRoute :=
  if is_nullish route then Err type_error
  else
    upstream ← trim_value (or_value (prop route (js "upstream_path")) empty_text);
    models ← normalizeAdvancedCustomRouteModels (prop route (js "models"));
    let a := prop route (js "auth") in
    Ok (mkRoute (or_value (prop route (js "incoming_path")) empty_text) upstream
          (or_value (prop route (js "converter")) none_converter) models
          (match prop route (js "pass_through_body_enabled") with VBoolean true => true | _ => false end)
          (if truthy a
           then Some (mkRouteAuth (prop a (js "type")) (or_value (prop a (js "name")) empty_text)
                        (or_value (prop a (js "value")) empty_text))
           else None)).

Definition normalizeAdvancedCustomConfig (config : jsval) : result (list AdvancedCustomRoute) :=
  match prop config (js "advanced_routes") with
  | VArray routes => mapM_result normalizeAdvancedCustomRoute routes
  | _ => Ok []
  end.

(** The objects that normalizing makes. *)
Definition route_auth_value (a : RouteAuth) : jsval :=
  VObject [(js "type", auth_type a); (js "name", auth_name a); (js "value", auth_text a)].
Definition route_value (r : AdvancedCustomRoute) : jsval :=
  VObject ([(js "incoming_path", incoming_path r); (js "upstream_path", VString (upstream_path r));
            (js "converter", converter r)]
           ++ (match models r with [] => [] | l => [(js "models", VArray (map VString l))] end)
           ++ (if pass_through_body_enabled r then [(js "pass_through_body_enabled", VBoolean true)] else [])
           ++ (match auth r with Some a => [(js "auth", route_auth_value a)] | None => [] end)).
Definition routes_value (routes : list AdvancedCustomRoute) : jsval := config_value (map route_value routes).

(** ** Parsing and writing *)

Definition parseAdvancedCustomConfig (text : jsstring) : option (list AdvancedCustomRoute) :=
  if trim text =s [] then None
  else
    match json_parse text with
    | Ok (VObject entries) =>
        match normalizeAdvancedCustomConfig (VObject entries) with Ok routes => Some routes | Err _ => None end
    | _ => None
    end.

Definition stringifyAdvancedCustomConfig (config : jsval) : result jsstring :=
  routes ← normalizeAdvancedCustomConfig config; Ok (json_pretty 0 (routes_value routes)).

Definition parseAdvancedCustomRouteModels (text : jsstring) : list jsstring :=
  unique (List.filter nonempty (map trim (split_units 44%N text))).

(** [true]: a regular expression. *)
Definition getAdvancedCustomModelRuleKind (modelRule : jsstring) : bool :=
  starts_with ADVANCED_CUSTOM_MODEL_REGEX_PREFIX modelRule.
Definition getAdvancedCustomRegexModelPattern (modelRule : jsstring) : jsstring :=
  drop (length ADVANCED_CUSTOM_MODEL_REGEX_PREFIX) modelRule.

(** ** Converters and paths *)

Definition isConverterPathAllowed (incomingPath converter : jsstring) : bool :=
  if converter =s js "none" then true
  else if incomingPath =s js "/v1/alpha/search" then false
  else if converter =s js "anthropic_messages_to_openai_chat_completions" then incomingPath =s js "/v1/messages"
  else if str_in converter [js "openai_chat_completions_to_anthropic_messages";
                            js "openai_chat_completions_to_openai_responses";
                            js "openai_chat_completions_to_gemini_generate_content"]
  then incomingPath =s js "/v1/chat/completions"
  else if converter =s js "openai_responses_to_openai_chat_completions" then incomingPath =s js "/v1/responses"
  else if converter =s js "openai_responses_to_gemini_generate_content" then incomingPath =s js "/v1/responses"
  else includes (js ":generateContent") incomingPath || includes (js ":streamGenerateContent") incomingPath.

Definition getAdvancedCustomIncomingPathOptions (converter : jsstring) : list (jsstring * jsstring) :=
  List.filter (λ o, isConverterPathAllowed o.1 converter) ADVANCED_CUSTOM_INCOMING_PATH_OPTIONS.

Definition getDefaultAdvancedCustomIncomingPath (converter : jsstring) : jsstring :=
  or_text (from_option fst [] (head (getAdvancedCustomIncomingPathOptions converter))) (js "/v1/chat/completions").

Definition isAdvancedCustomPassThroughAllowed (converter : jsval) : bool :=
  match converter with VString c => c =s js "none" | _ => false end.

Definition getAdvancedCustomConverterOptions (incomingPath : jsstring) : list jsstring :=
  List.filter (λ c, (c =s js "none") || isConverterPathAllowed (trim incomingPath) c) ADVANCED_CUSTOM_CONVERTERS.

Definition getAdvancedCustomIncomingPathLabel (path : jsstring) : jsstring :=
  or_text (default [] (own ADVANCED_CUSTOM_INCOMING_PATH_OPTIONS path)) path.

Definition getAdvancedCustomNativeAuth (incomingPath : jsstring) : jsval :=
  if incomingPath =s claudeMessagesPath then apiKeyHeaderAuth
  else if existsb (λ word, includes word incomingPath)
            [js ":generateContent"; js ":streamGenerateContent"; js ":embedContent"; js ":batchEmbedContents"]
  then geminiQueryAuth
  else bearerHeaderAuth.

(** The upstream path and the authorization. *)
Definition getAdvancedCustomConverterDefaults (converter incomingPath : jsstring) : jsstring * jsval :=
  let normalizedIncomingPath := or_text (trim incomingPath) (getDefaultAdvancedCustomIncomingPath converter) in
  if converter =s js "none" then (normalizedIncomingPath, getAdvancedCustomNativeAuth normalizedIncomingPath)
  else if str_in converter [js "anthropic_messages_to_openai_chat_completions";
                            js "gemini_generate_content_to_openai_chat_completions";
                            js "openai_responses_to_openai_chat_completions"]
  then (openAIChatPath, bearerHeaderAuth)
  else if converter =s js "openai_chat_completions_to_openai_responses" then (openAIResponsesPath, bearerHeaderAuth)
  else if converter =s js "openai_chat_completions_to_anthropic_messages" then (claudeMessagesPath, apiKeyHeaderAuth)
  else if str_in converter [js "openai_chat_completions_to_gemini_generate_content";
                            js "openai_responses_to_gemini_generate_content"]
  then (geminiGenerateContentPath, geminiQueryAuth)
  else (or_text normalizedIncomingPath openAIChatPath, getAdvancedCustomNativeAuth normalizedIncomingPath).

Definition getAdvancedCustomUpstreamPathPlaceholder (converter : jsstring) (incomingPath : option jsstring) : jsstring :=
  (getAdvancedCustomConverterDefaults converter
     (default (getDefaultAdvancedCustomIncomingPath converter) incomingPath)).1.

(** The modes [default], [none], [header] and [query] of the authorization. *)
Definition getAdvancedCustomAuthMode (route : jsval) : jsval :=
  or_value (prop (prop route (js "auth")) (js "type")) (VString (js "default")).

Definition buildAdvancedCustomAuth (mode : jsstring) (previousAuth : jsval) : jsval :=
  let keep := λ key fallback, or_value (prop previousAuth key) (VString fallback) in
  if mode =s js "default" then VUndefined
  else if mode =s js "none" then VObject [(js "type", VString (js "none"))]
  else if mode =s js "header" then
    VObject [(js "type", VString (js "header")); (js "name", keep (js "name") (js "Authorization"));
             (js "value", keep (js "value") (js "Bearer {api_key}"))]
  else
    VObject [(js "type", VString (js "query")); (js "name", keep (js "name") (js "api_key"));
             (js "value", keep (js "value") (js "{api_key}"))].

Definition createAdvancedCustomRoute : jsval :=
  VObject [(js "incoming_path", VString openAIChatPath); (js "upstream_path", VString openAIChatPath);
           (js "converter", none_converter)].
Definition createAdvancedCustomConfig : jsval := config_value [createAdvancedCustomRoute].
Definition createAdvancedCustomManagementRoute (path : jsstring) : jsval :=
  VObject [(js "incoming_path", VString path); (js "upstream_path", VString path);
           (js "converter", none_converter); (js "models", VArray [])].

(** ** Management routes *)

Definition isAdvancedCustomManagementPath (path : jsstring) : bool :=
  (path =s ADVANCED_CUSTOM_MODEL_LIST_PATH) || (path =s ADVANCED_CUSTOM_BALANCE_PATH).

(** [route.incoming_path?.trim()] of a normalized route. *)
Definition incoming (r : AdvancedCustomRoute) : result jsstring := trim_value (incoming_path r).

(** [routes.find], [routes.findIndex] and [routes.filter] by incoming path. *)
Fixpoint find_path (test : jsstring → bool) (routes : list AdvancedCustomRoute) (i : nat)
    : result (option (nat * AdvancedCustomRoute)) :=
  match routes with
  | [] => Ok None
  | r :: routes => path ← incoming r; if test path then Ok (Some (i, r)) else find_path test routes (S i)
  end.
Fixpoint filter_path (test : jsstring → bool) (routes : list AdvancedCustomRoute) : result (list AdvancedCustomRoute) :=
  match routes with
  | [] => Ok []
  | r :: routes => path ← incoming r; rest ← filter_path test routes; Ok (if test path then r :: rest else rest)
  end.

Definition getAdvancedCustomManagementRoute (config : jsval) (path : jsstring) : result (option AdvancedCustomRoute) :=
  routes ← normalizeAdvancedCustomConfig config;
  found ← find_path (λ p, p =s path) routes 0;
  Ok (option_map snd found).

(** The route written for a management path. *)
Definition management_route (path : jsstring) (route : jsval) : jsval :=
  VObject [(js "incoming_path", VString path);
           (js "upstream_path", or_value (prop route (js "upstream_path")) empty_text);
           (js "converter", none_converter); (js "models", VArray []); (js "auth", prop route (js "auth"))].

Definition replaceAdvancedCustomManagementRoute (config : jsval) (path : jsstring) (route : option jsval)
    : result jsval :=
  routes ← normalizeAdvancedCustomConfig config;
  found ← find_path (λ p, p =s path) routes 0;
  let values := map route_value routes in
  Ok (config_value
        match route, found with
        | None, Some (i, _) => take i values ++ drop (S i) values
        | None, None => values
        | Some r, Some (i, _) => <[i := management_route path r]> values
        | Some r, None => values ++ [management_route path r]
        end).

Definition replaceAdvancedCustomForwardingRoutes (config : jsval) (forwardingRoutes : list jsval) : result jsval :=
  routes ← normalizeAdvancedCustomConfig config;
  first ← find_path (λ p, negb (isAdvancedCustomManagementPath p)) routes 0;
  managementRoutes ← filter_path isAdvancedCustomManagementPath routes;
  match first with
  | None => Ok (config_value (map route_value managementRoutes ++ forwardingRoutes))
  | Some (i, _) =>
      before ← filter_path isAdvancedCustomManagementPath (take i routes);
      after ← filter_path isAdvancedCustomManagementPath (drop i routes);
      Ok (config_value (map route_value before ++ forwardingRoutes ++ map route_value after))
  end.

(** ** Validation *)

Record ValidationError := mkError { error_message : jsstring; routeIndex : option nat }.

(** The rules of the routes with one incoming path so far. *)
Record PathRules := mkPathRules {
  catchAllIndex : option nat;
  path_models : list (jsstring * nat)
}.
Record ValidationState := mkValidation {
  routeModelsByPath : list (jsstring * PathRules);
  modelListRouteIndex : option nat;
  balanceRouteIndex : option nat
}.
Definition initial_validation : ValidationState := mkValidation [] None None.

(** The loop over the models of a route: an error, or the models so far. *)
Fixpoint check_models (routeIndex : nat) (models seenInRoute : list jsstring) (known : list (jsstring * nat))
    : jsstring + list (jsstring * nat) :=
  match models with
  | [] => inr known
  | model :: models =>
      if getAdvancedCustomModelRuleKind model && (getAdvancedCustomRegexModelPattern model =s [])
      then inl (js "Model regex cannot be empty")
      else if bool_decide (model ∈ seenInRoute) then inl (js "Duplicate model in route models")
      else if is_some (mget known model) then inl (js "Route models must be unique for the same incoming path")
      else check_models routeIndex models (seenInRoute ++ [model]) (mset known model routeIndex)
  end.

Definition validateAdvancedCustomRouteModels (routeIndex : nat) (incomingPath : jsstring) (models : list jsstring)
    (byPath : list (jsstring * PathRules)) : jsstring + list (jsstring * PathRules) :=
  let state := default (mkPathRules None []) (mget byPath incomingPath) in
  match models, catchAllIndex state with
  | [], Some _ => inl (js "Only one catch-all route is allowed for the same incoming path")
  | [], None => inr (mset byPath incomingPath (mkPathRules (Some routeIndex) (path_models state)))
  | _, Some _ => inl (js "Catch-all route must be last for the same incoming path")
  | _, None =>
      match check_models routeIndex models [] (path_models state) with
      | inl message => inl message
      | inr known => inr (mset byPath incomingPath (mkPathRules None known))
      end
  end.

(** A falsy value, or one whose trimmed text is empty. *)
Definition blank (v : jsval) : result bool :=
  if truthy v then text ← trim_value v; Ok (text =s []) else Ok true.

Definition validateRouteAuth (auth : option RouteAuth) : result (option jsstring) :=
  match auth with
  | None => Ok None
  | Some a =>
      if is_text (auth_type a) (js "none") then Ok None
      else if negb (is_text (auth_type a) (js "header") || is_text (auth_type a) (js "query"))
      then Ok (Some (js "Auth type is invalid"))
      else
        no_name ← blank (auth_name a);
        if no_name : bool then Ok (Some (js "Auth name is required"))
        else
          no_value ← blank (auth_text a);
          Ok (if no_value : bool then Some (js "Auth value is required") else None)
  end.

Section Validation.
(** [new URL(value)]: its protocol and host. *)
Context (parse_url : jsstring → option (jsstring * jsstring)).

Definition isFullHttpURLOrAbsolutePath (text : jsstring) : bool :=
  if starts_with (js "/") text then negb (starts_with (js "//") text)
  else
    match parse_url text with
    | Some (protocol, host) => nonempty host && ((protocol =s js "http:") || (protocol =s js "https:"))
    | None => false
    end.

(** The checks of a management route; [existing]: one was seen before. *)
Definition management_error (existing : bool) (routeLabel : jsstring) (r : AdvancedCustomRoute)
    (routeModels : list jsstring) (upstreamPath : jsstring) (conv : jsval) : option jsstring :=
  if existing then Some (js "Only one " ++ routeLabel ++ js " route is allowed")
  else if negb (bool_decide (routeModels = [])) then Some (routeLabel ++ js " route does not support client model rules")
  else if negb (is_text conv (js "none")) then Some (routeLabel ++ js " route must use native forwarding")
  else if includes (js "{model}") upstreamPath then Some (routeLabel ++ js " upstream path must not contain {model}")
  else if pass_through_body_enabled r then Some (routeLabel ++ js " route does not support pass-through")
  else None.

Definition check_management (routeIndex : nat) (r : AdvancedCustomRoute) (incomingPath : jsstring)
    (routeModels : list jsstring) (upstreamPath : jsstring) (conv : jsval) (st : ValidationState)
    : jsstring + ValidationState :=
  if isAdvancedCustomManagementPath incomingPath then
    let isModelListRoute := incomingPath =s ADVANCED_CUSTOM_MODEL_LIST_PATH in
    let existing := is_some (if isModelListRoute then modelListRouteIndex st else balanceRouteIndex st) in
    match management_error existing (if isModelListRoute then js "OpenAI Models" else js "Balance Query")
            r routeModels upstreamPath conv with
    | Some message => inl message
    | None =>
        inr (if isModelListRoute
             then mkValidation (routeModelsByPath st) (Some routeIndex) (balanceRouteIndex st)
             else mkValidation (routeModelsByPath st) (modelListRouteIndex st) (Some routeIndex))
    end
  else inr st.

(** The checks after those of the models. *)
Definition check_forwarding (r : AdvancedCustomRoute) (incomingPath upstreamPath : jsstring) (conv : jsval)
    : result (option jsstring) :=
  if upstreamPath =s [] then Ok (Some (js "Upstream path is required"))
  else if negb (isFullHttpURLOrAbsolutePath upstreamPath)
  then Ok (Some (js "Upstream path must be a full URL or a path starting with /"))
  else
    match conv with
    | VString c =>
        if negb (str_in c ADVANCED_CUSTOM_CONVERTERS) then Ok (Some (js "Converter is not registered"))
        else if negb (isConverterPathAllowed incomingPath c) then Ok (Some (js "Converter does not match incoming path"))
        else if pass_through_body_enabled r && negb (isAdvancedCustomPassThroughAllowed conv)
        then Ok (Some (js "Pass-through requires native forwarding"))
        else validateRouteAuth (auth r)
    | _ => Ok (Some (js "Converter is not registered"))
    end.

(** One round of the loop of [validateAdvancedCustomConfig]. *)
Definition check_route (routeIndex : nat) (r : AdvancedCustomRoute) (st : ValidationState)
    : result (jsstring + ValidationState) :=
  incomingPath ← incoming r;
  let upstreamPath := trim (upstream_path r) in
  let conv := or_value (converter r) none_converter in
  let routeModels := List.filter nonempty (map trim (models r)) in
  if incomingPath =s [] then Ok (inl (js "Incoming path is required"))
  else if negb (starts_with (js "/") incomingPath) then Ok (inl (js "Incoming path must start with /"))
  else if includes (js "?") incomingPath then Ok (inl (js "Incoming path must not include query"))
  else
    match check_management routeIndex r incomingPath routeModels upstreamPath conv st with
    | inl message => Ok (inl message)
    | inr st =>
        match validateAdvancedCustomRouteModels routeIndex incomingPath routeModels (routeModelsByPath st) with
        | inl message => Ok (inl message)
        | inr byPath =>
            error ← check_forwarding r incomingPath upstreamPath conv;
            Ok (match error with
                | Some message => inl message
                | None => inr (mkValidation byPath (modelListRouteIndex st) (balanceRouteIndex st))
                end)
        end
    end.

Fixpoint check_routes (index : nat) (routes : list AdvancedCustomRoute) (st : ValidationState)
    : result (option ValidationError) :=
  match routes with
  | [] => Ok None
  | r :: routes =>
      checked ← check_route index r st;
      match checked with
      | inl message => Ok (Some (mkError message (Some index)))
      | inr st => check_routes (S index) routes st
      end
  end.

Definition validateAdvancedCustomConfig (config : option jsval) : result (option ValidationError) :=
  match config with
  | None => Ok (Some (mkError (js "Advanced custom configuration is required") None))
  | Some config =>
      routes ← normalizeAdvancedCustomConfig config;
      match routes with
      | [] => Ok (Some (mkError (js "Advanced custom configuration requires at least one route") None))
      | _ => check_routes 0 routes initial_validation
      end
  end.

Definition hasValidAdvancedCustomModelListRoute (config : option jsval) : result bool :=
  match config with
  | None => Ok false
  | Some value =>
      error ← validateAdvancedCustomConfig config;
      if is_some error then Ok false
      else
        routes ← normalizeAdvancedCustomConfig value;
        found ← find_path (λ p, p =s ADVANCED_CUSTOM_MODEL_LIST_PATH) routes 0;
        Ok (is_some found)
  end.

Definition advancedCustomConfigUsesRelativeUpstreamPath (config : option jsval) : result bool :=
  match config with
  | None => Ok false
  | Some config =>
      routes ← normalizeAdvancedCustomConfig config;
      Ok (existsb (λ r, starts_with (js "/") (trim (upstream_path r))) routes)
  end.

Definition getAdvancedCustomRouteSummaryLabel (r : AdvancedCustomRoute) : result (option jsstring) :=
  incomingPath ← incoming r;
  Ok (if incomingPath =s [] then None
      else Some (or_text (default [] (own ADVANCED_CUSTOM_ROUTE_SUMMARY_LABELS incomingPath))
                   (getAdvancedCustomIncomingPathLabel incomingPath))).

Record AdvancedCustomStats := mkStats { routeCount : nat; valid : bool; routeTypeLabels : list jsstring }.

(** [None] when there is no text. *)
Definition getAdvancedCustomStats (text : option jsstring) : result AdvancedCustomStats :=
  match text ≫= parseAdvancedCustomConfig with
  | None => Ok (mkStats 0 false [])
  | Some config =>
      routes ← normalizeAdvancedCustomConfig (routes_value config);
      labels ← mapM_result getAdvancedCustomRouteSummaryLabel routes;
      error ← validateAdvancedCustomConfig (Some (routes_value routes));
      Ok (mkStats (length routes) (negb (is_some error)) (unique (omap id labels)))
  end.
End Validation.
