(* ===== verification/AdvancedCustomFacts.v ===== *)
(** * Facts about advanced custom routes

    Normal routes, the exact meaning of the validation, and the management and
    forwarding parts of a configuration. *)

From S2P Require Import Prelude JsNumber JsText Types Runtime JsRegex JsRegexFacts JsMap JsValue JsObject AdvancedCustom.

(** ** Normal routes *)

(** What [value || fallback] leaves alone. *)
Definition settled_value (v : jsval) : Prop := truthy v = true ∨ v = empty_text.

Record normal_auth (a : RouteAuth) : Prop := mkNormalAuth {
  normal_name : settled_value (auth_name a);
  normal_text : settled_value (auth_text a)
}.
Record normal_route (r : AdvancedCustomRoute) : Prop := mkNormal {
  normal_incoming : settled_value (incoming_path r);
  normal_upstream : trimmed (upstream_path r);
  normal_converter : truthy (converter r) = true;
  normal_models : Forall (λ m, trimmed m ∧ m ≠ []) (models r);
  normal_route_auth : match auth r with Some a => normal_auth a | None => True end
}.

Lemma or_value_settled v : settled_value (or_value v empty_text).
Proof. unfold or_value, settled_value. destruct (truthy v) eqn:E; [by left|by right]. Qed.
Lemma settled_or_value v : settled_value v → or_value v empty_text = v.
Proof. intros [H| ->]; [|done]. unfold or_value. by rewrite H. Qed.
Lemma truthy_or_value v w : truthy v = true → or_value v w = v.
Proof. unfold or_value. by intros ->. Qed.

Lemma mapM_result_Forall {A B} (f : A → result B) (P : B → Prop) l l' :
  (∀ x y, f x = Ok y → P y) → mapM_result f l = Ok l' → Forall P l'.
Proof.
  intros Hf. revert l'. induction l as [|x l IH]; intros l'; cbn; [by intros [= <-]|].
  destruct (f x) as [y|] eqn:Hy; [|done]. cbn. destruct (mapM_result f l) as [ys|]; [|done]. cbn.
  intros [= <-]. constructor; [by eapply Hf|by apply IH].
Qed.
Lemma mapM_result_map {A B C} (f : B → result C) (g : A → B) (h : A → C) l :
  Forall (λ x, f (g x) = Ok (h x)) l → mapM_result f (map g l) = Ok (map h l).
Proof. induction 1 as [|x l Hx _ IH]; cbn; [done|]. by rewrite Hx, IH. Qed.

Lemma normalize_models_normal v ms :
  normalizeAdvancedCustomRouteModels v = Ok ms → Forall (λ m, trimmed m ∧ m ≠ []) ms.
Proof.
  unfold normalizeAdvancedCustomRouteModels. destruct v as [| | | | |items|]; try (intros [= <-]; constructor).
  destruct (mapM_result trim_value items) as [ts|] eqn:Ht; [|done]. intros [= <-].
  assert (Forall trimmed ts) as Hts.
  { eapply mapM_result_Forall; [|exact Ht]. intros [] y; try done. intros [= <-]. apply trim_idemp. }
  apply Forall_forall. intros m [Hin Hne]%list_elem_of_In%filter_In. apply list_elem_of_In in Hin.
  rewrite Forall_forall in Hts. split; [by apply Hts|]. unfold nonempty in Hne.
  by apply negb_true_iff, str_eqb_neq in Hne.
Qed.

Lemma trim_value_trimmed v t : trim_value v = Ok t → trimmed t.
Proof. destruct v; try done. intros [= <-]. apply trim_idemp. Qed.

Lemma normalize_route_normal v r : normalizeAdvancedCustomRoute v = Ok r → normal_route r.
Proof.
  unfold normalizeAdvancedCustomRoute. destruct (is_nullish v); [done|].
  destruct (trim_value _) as [u|] eqn:Hu; [|done]. cbn [mbind result_bind].
  destruct (normalizeAdvancedCustomRouteModels _) as [ms|] eqn:Hm; [|done]. cbn [mbind result_bind]. intros [= <-].
  split; cbn [incoming_path upstream_path converter models auth].
  - apply or_value_settled.
  - by eapply trim_value_trimmed.
  - unfold or_value. by destruct (truthy (prop v (js "converter"))) eqn:E.
  - by eapply normalize_models_normal.
  - destruct (truthy _); [|done]. split; apply or_value_settled.
Qed.

Lemma normalize_route_incoming v r :
  normalizeAdvancedCustomRoute v = Ok r → incoming_path r = or_value (prop v (js "incoming_path")) empty_text.
Proof.
  unfold normalizeAdvancedCustomRoute. destruct (is_nullish v); [done|].
  destruct (trim_value _); [|done]. cbn [mbind result_bind].
  destruct (normalizeAdvancedCustomRouteModels _); [|done]. cbn [mbind result_bind]. by intros [= <-].
Qed.

Lemma normalize_config_normal v rs : normalizeAdvancedCustomConfig v = Ok rs → Forall normal_route rs.
Proof.
  unfold normalizeAdvancedCustomConfig. destruct (prop _ _); try (intros [= <-]; constructor).
  apply mapM_result_Forall. apply normalize_route_normal.
Qed.

Lemma normal_models_filter ms :
  Forall (λ m, trimmed m ∧ m ≠ []) ms → List.filter nonempty (map trim ms) = ms.
Proof.
  induction 1 as [|m ms [Ht Hm] _ IH]; cbn; [done|]. rewrite Ht, IH. unfold nonempty.
  by rewrite (proj2 (str_eqb_neq m []) Hm).
Qed.

(** The fields of a written route. *)
Lemma prop_route_value r :
  prop (route_value r) (js "incoming_path") = incoming_path r ∧
  prop (route_value r) (js "upstream_path") = VString (upstream_path r) ∧
  prop (route_value r) (js "converter") = converter r ∧
  prop (route_value r) (js "models") = (match models r with [] => VUndefined | l => VArray (map VString l) end) ∧
  prop (route_value r) (js "pass_through_body_enabled")
    = (if pass_through_body_enabled r then VBoolean true else VUndefined) ∧
  prop (route_value r) (js "auth") = match auth r with Some a => route_auth_value a | None => VUndefined end.
Proof. destruct r as [p u c [|m ms] [] [a|]]; by split_and!. Qed.

Lemma prop_auth_value a :
  prop (route_auth_value a) (js "type") = auth_type a ∧ prop (route_auth_value a) (js "name") = auth_name a ∧
  prop (route_auth_value a) (js "value") = auth_text a.
Proof. by split_and!. Qed.
Lemma normal_auth_value (o : option RouteAuth) :
  match o with Some a => normal_auth a | None => True end →
  let v := match o with Some a => route_auth_value a | None => VUndefined end in
  (if truthy v
   then Some (mkRouteAuth (prop v (js "type")) (or_value (prop v (js "name")) empty_text)
                (or_value (prop v (js "value")) empty_text))
   else None) = o.
Proof.
  destruct o as [a|]; [|done]. intros [Hn Ht] v. unfold v. change (truthy (route_auth_value a)) with true. cbv iota.
  destruct (prop_auth_value a) as (-> & -> & ->). rewrite !settled_or_value by done. by destruct a.
Qed.

Lemma normalize_route_value r : normal_route r → normalizeAdvancedCustomRoute (route_value r) = Ok r.
Proof.
  intros [Hi Hu Hc Hm Ha]. destruct (prop_route_value r) as (Ep & Eu & Ec & Em & Eb & Ea).
  unfold normalizeAdvancedCustomRoute. change (is_nullish (route_value r)) with false.
  rewrite Ep, Eu, Ec, Em, Eb, Ea, (settled_or_value _ Hi), (truthy_or_value _ _ Hc).
  assert (trim_value (or_value (VString (upstream_path r)) empty_text) = Ok (upstream_path r)) as ->.
  { unfold or_value. destruct (truthy (VString (upstream_path r))) eqn:E; cbn; [by rewrite Hu|].
    cbn in E. apply negb_false_iff, str_eqb_eq in E. by rewrite E. }
  assert (normalizeAdvancedCustomRouteModels match models r with [] => VUndefined | l => VArray (map VString l) end
          = Ok (models r)) as ->.
  { destruct (models r) as [|m ms]; [done|]. cbn [normalizeAdvancedCustomRouteModels].
    rewrite (mapM_result_map trim_value VString trim); [|by apply Forall_forall].
    cbn [mbind result_bind]. by rewrite normal_models_filter. }
  cbn [mbind result_bind].
  assert (match (if pass_through_body_enabled r then VBoolean true else VUndefined) with VBoolean true => true | _ => false end
          = pass_through_body_enabled r) as -> by (by destruct (pass_through_body_enabled r)).
  rewrite normal_auth_value by done. by destruct r.
Qed.

Lemma normalize_config_value routes :
  normalizeAdvancedCustomConfig (config_value routes) = mapM_result normalizeAdvancedCustomRoute routes.
Proof. done. Qed.

Lemma normalize_routes_value rs : Forall normal_route rs → normalizeAdvancedCustomConfig (routes_value rs) = Ok rs.
Proof.
  intros Hrs. unfold routes_value. rewrite normalize_config_value.
  rewrite (mapM_result_map _ route_value id); [by rewrite map_id|].
  eapply Forall_impl; [exact Hrs|]. apply normalize_route_value.
Qed.

(** ** What the validation accepts *)

Definition has_path (p : jsstring) (r : AdvancedCustomRoute) : Prop := incoming r = Ok p.
Definition regex_without_pattern : jsstring := js "re:".

(** The loop over the models of a route. *)

Lemma regex_empty m :
  getAdvancedCustomModelRuleKind m && (getAdvancedCustomRegexModelPattern m =s []) = true ↔ m = regex_without_pattern.
Proof.
  unfold getAdvancedCustomModelRuleKind, getAdvancedCustomRegexModelPattern. split; [|by intros ->].
  intros [Hs He]%andb_true_iff. apply starts_with_spec in Hs as [t ->]. apply str_eqb_eq in He.
  rewrite drop_app_length in He. subst t. by rewrite app_nil_r.
Qed.

Definition models_free (ms seen : list jsstring) (known : list (jsstring * nat)) : Prop :=
  NoDup ms ∧ regex_without_pattern ∉ ms ∧ ∀ m, m ∈ ms → m ∉ seen ∧ mget known m = None.

Lemma check_models_spec i ms : ∀ seen known,
  match check_models i ms seen known with
  | inl _ => ¬ models_free ms seen known
  | inr known' => models_free ms seen known ∧
      ∀ m, is_Some (mget known' m) ↔ is_Some (mget known m) ∨ m ∈ ms
  end.
Proof.
  induction ms as [|x ms IH]; intros seen known; cbn [check_models].
  { split; [split_and!; [constructor|apply not_elem_of_nil|by intros m ?%not_elem_of_nil]|].
    intros m. split; [by left|by intros [?|?%not_elem_of_nil]]. }
  destruct (_ && _) eqn:Hr.
  { apply regex_empty in Hr as ->. intros (_ & Hn & _). set_solver. }
  assert (x ≠ regex_without_pattern) as Hx by (intros Hx%regex_empty; congruence).
  destruct (bool_decide (x ∈ seen)) eqn:Hs.
  { apply bool_decide_eq_true in Hs. intros (_ & _ & Hn). destruct (Hn x); set_solver. }
  apply bool_decide_eq_false in Hs. destruct (mget known x) as [j|] eqn:Hk; cbn [is_some].
  { intros (_ & _ & Hn). destruct (Hn x) as [_ ?]; [set_solver|congruence]. }
  specialize (IH (seen ++ [x]) (mset known x i)).
  assert (models_free ms (seen ++ [x]) (mset known x i) ↔ models_free (x :: ms) seen known) as Hiff.
  { unfold models_free. rewrite NoDup_cons. split.
    - intros (Hd & Hre & Hf). split_and!; [|done|set_solver|].
      + intros Hin. destruct (Hf x Hin) as [Hns _]. set_solver.
      + intros m [->|Hm]%elem_of_cons; [done|]. destruct (Hf m Hm) as [Hns Hg]. split; [set_solver|].
        rewrite mget_mset in Hg. by destruct (decide (x = m)).
    - intros ([Hxm Hd] & Hre & Hf). split_and!; [done|set_solver|]. intros m Hm.
      assert (x ≠ m) as Hne by (intros ->; done). destruct (Hf m) as [Hns Hg]; [set_solver|].
      split; [set_solver|]. by rewrite mget_mset, decide_False. }
  destruct (check_models i ms (seen ++ [x]) (mset known x i)) as [e|known'].
  - by rewrite Hiff in IH.
  - destruct IH as [Hfree Hg]. split; [by apply Hiff|]. intros m. rewrite Hg, mget_mset, elem_of_cons.
    destruct (decide (x = m)) as [->|Hne]; [|naive_solver]. split; [by right; left|left; by eexists].
Qed.

Definition auth_valid (a : option RouteAuth) : Prop :=
  match a with
  | None => True
  | Some a =>
      auth_type a = VString (js "none") ∨
      ((auth_type a = VString (js "header") ∨ auth_type a = VString (js "query")) ∧
       ∃ name text, auth_name a = VString name ∧ trim name ≠ [] ∧ auth_text a = VString text ∧ trim text ≠ [])
  end.

(** A management route is the only one of its path and forwards natively. *)
Definition management_valid (earlier : list AdvancedCustomRoute) (p : jsstring) (r : AdvancedCustomRoute) : Prop :=
  isAdvancedCustomManagementPath p = true →
  (∀ r', r' ∈ earlier → ¬ has_path p r') ∧ models r = [] ∧ converter r = VString (js "none") ∧
  includes (js "{model}") (upstream_path r) = false ∧ pass_through_body_enabled r = false.

(** The model rules of the routes with one path never compete: none follows a
    route for all models, and no model is listed twice. *)
Definition models_valid (earlier : list AdvancedCustomRoute) (p : jsstring) (r : AdvancedCustomRoute) : Prop :=
  NoDup (models r) ∧ regex_without_pattern ∉ models r ∧
  ∀ r', r' ∈ earlier → has_path p r' → models r' ≠ [] ∧ ∀ m, m ∈ models r' → m ∉ models r.

(** What the state of the loop says of the routes before. *)
Definition path_rules (st : list (jsstring * PathRules)) (p : jsstring) : PathRules :=
  default (mkPathRules None []) (mget st p).
Record represents (earlier : list AdvancedCustomRoute) (st : ValidationState) : Prop := mkRepresents {
  rep_catch_all p : is_Some (catchAllIndex (path_rules (routeModelsByPath st) p)) ↔
    ∃ r, r ∈ earlier ∧ has_path p r ∧ models r = [];
  rep_models p m : is_Some (mget (path_models (path_rules (routeModelsByPath st) p)) m) ↔
    ∃ r, r ∈ earlier ∧ has_path p r ∧ m ∈ models r;
  rep_model_list : is_Some (modelListRouteIndex st) ↔
    ∃ r, r ∈ earlier ∧ has_path ADVANCED_CUSTOM_MODEL_LIST_PATH r;
  rep_balance : is_Some (balanceRouteIndex st) ↔ ∃ r, r ∈ earlier ∧ has_path ADVANCED_CUSTOM_BALANCE_PATH r
}.


(** *** The steps of the loop *)

Lemma in_snoc {A} (P : A → Prop) l (x : A) : (∃ y, y ∈ l ++ [x] ∧ P y) ↔ (∃ y, y ∈ l ∧ P y) ∨ P x.
Proof. setoid_rewrite elem_of_app. setoid_rewrite list_elem_of_singleton. naive_solver. Qed.

Lemma is_some_iff {A} (o : option A) : is_some o = true ↔ is_Some o.
Proof. by destruct o; split. Qed.
Lemma not_is_some {A} (o : option A) : is_some o = false ↔ ¬ is_Some o.
Proof. rewrite <- is_some_iff. by destruct (is_some o). Qed.

Lemma has_path_unique p q r : has_path p r → has_path q r → p = q.
Proof. unfold has_path. congruence. Qed.

(** The rules after a route with path [p] and the models [ms]. *)
Lemma models_step i p r earlier byPath :
  has_path p r →
  (∀ q, is_Some (catchAllIndex (path_rules byPath q)) ↔ ∃ r, r ∈ earlier ∧ has_path q r ∧ models r = []) →
  (∀ q m, is_Some (mget (path_models (path_rules byPath q)) m) ↔ ∃ r, r ∈ earlier ∧ has_path q r ∧ m ∈ models r) →
  match validateAdvancedCustomRouteModels i p (models r) byPath with
  | inl _ => ¬ models_valid earlier p r
  | inr byPath' => models_valid earlier p r ∧
      (∀ q, is_Some (catchAllIndex (path_rules byPath' q)) ↔ ∃ r', r' ∈ earlier ++ [r] ∧ has_path q r' ∧ models r' = []) ∧
      (∀ q m, is_Some (mget (path_models (path_rules byPath' q)) m) ↔
         ∃ r', r' ∈ earlier ++ [r] ∧ has_path q r' ∧ m ∈ models r')
  end.
Proof.
  intros Hp Hcatch Hmodels. unfold validateAdvancedCustomRouteModels.
  change (default (mkPathRules None []) (mget byPath p)) with (path_rules byPath p).
  assert (∀ rules q, path_rules (mset byPath p rules) q = if decide (p = q) then rules else path_rules byPath q) as Hset.
  { intros rules q. unfold path_rules. rewrite mget_mset. by case_decide. }
  assert (catchAllIndex (path_rules byPath p) = None → ∀ r', r' ∈ earlier → has_path p r' → models r' ≠ []) as Hnone.
  { intros Hn r' Hr' Hp' Hm. destruct (proj2 (Hcatch p)) as [j Hj]; [by exists r'|congruence]. }
  assert (is_Some (catchAllIndex (path_rules byPath p)) → ¬ models_valid earlier p r) as Hsome.
  { intros (r' & Hr' & Hp' & Hm)%Hcatch (_ & _ & Hv). by destruct (Hv r' Hr' Hp'). }
  destruct (models r) as [|m ms] eqn:Hms; destruct (catchAllIndex (path_rules byPath p)) as [j|] eqn:Hj;
    try (by apply Hsome; eexists).
  - split_and!.
    + unfold models_valid. rewrite Hms. split_and!; [constructor|apply not_elem_of_nil|].
      intros r' Hr' Hp'. split; [by apply Hnone|]. intros m _. apply not_elem_of_nil.
    + intros q. rewrite Hset, in_snoc, <- Hcatch. destruct (decide (p = q)) as [<-|Hne]; cbn [catchAllIndex].
      * split; [by right|by eexists].
      * split; [by left|]. intros [?|[Hq _]]; [done|]. by destruct Hne; eapply has_path_unique.
    + intros q m. rewrite Hset, in_snoc, <- Hmodels, Hms. destruct (decide (p = q)) as [<-|Hne]; cbn [path_models];
        (split; [by left|by intros [?|[_ ?%not_elem_of_nil]]]).
  - pose proof (check_models_spec i (m :: ms) [] (path_models (path_rules byPath p))) as Hcheck.
    assert (models_free (m :: ms) [] (path_models (path_rules byPath p)) ↔ models_valid earlier p r) as Hiff.
    { unfold models_free, models_valid. rewrite Hms. split.
      - intros (Hd & Hre & Hf). split_and!; [done..|]. intros r' Hr' Hp'. split; [by apply Hnone|].
        intros x Hx Hxr. destruct (Hf x Hxr) as [_ Hg]. destruct (proj2 (Hmodels p x)) as [k Hk]; [by exists r'|congruence].
      - intros (Hd & Hre & Hv). split_and!; [done..|]. intros x Hx. split; [apply not_elem_of_nil|].
        destruct (mget _ x) as [k|] eqn:Hk; [|done]. destruct (proj1 (Hmodels p x)) as (r' & Hr' & Hp' & Hxr); [by eexists|].
        by destruct (Hv r' Hr' Hp') as [_ Hx']; destruct (Hx' x Hxr). }
    destruct (check_models i (m :: ms) [] _) as [e|known]; [by rewrite Hiff in Hcheck|].
    destruct Hcheck as [Hfree Hg]. split_and!; [by apply Hiff|..].
    + intros q. rewrite Hset, in_snoc, <- Hcatch, Hms. destruct (decide (p = q)) as [<-|Hne]; cbn [catchAllIndex].
      * split; [by intros []|]. intros [[k Hk]|[_ ?]]; congruence.
      * split; [by left|]. by intros [?|[_ ?]].
    + intros q x. rewrite Hset, in_snoc, <- Hmodels, Hms. destruct (decide (p = q)) as [<-|Hne]; cbn [path_models].
      * rewrite Hg. naive_solver.
      * split; [by left|]. intros [?|[Hq _]]; [done|]. by destruct Hne; eapply has_path_unique.
Qed.

Lemma is_text_spec v t : is_text v t = true ↔ v = VString t.
Proof. destruct v; cbn; try done. rewrite str_eqb_eq. split; [by intros ->|by intros [= ->]]. Qed.

Lemma management_error_spec existing label r ms up conv :
  management_error existing label r ms up conv = None ↔
  existing = false ∧ ms = [] ∧ conv = VString (js "none") ∧ includes (js "{model}") up = false ∧
  pass_through_body_enabled r = false.
Proof.
  unfold management_error. destruct existing; [naive_solver|].
  destruct (bool_decide (ms = [])) eqn:Hms; cbn [negb];
    [apply bool_decide_eq_true in Hms|apply bool_decide_eq_false in Hms; naive_solver].
  destruct (is_text conv (js "none")) eqn:Hc; cbn [negb].
  2: { split; [done|]. intros (_ & _ & Hn & _). apply is_text_spec in Hn. congruence. }
  apply is_text_spec in Hc. destruct (includes _ _); [naive_solver|].
  destruct (pass_through_body_enabled r); naive_solver.
Qed.

(** What a state says of the management routes before. *)
Definition seen_management (earlier : list AdvancedCustomRoute) (list_index balance_index : option nat) : Prop :=
  (is_Some list_index ↔ ∃ r, r ∈ earlier ∧ has_path ADVANCED_CUSTOM_MODEL_LIST_PATH r) ∧
  (is_Some balance_index ↔ ∃ r, r ∈ earlier ∧ has_path ADVANCED_CUSTOM_BALANCE_PATH r).

Lemma management_step i p r earlier st :
  has_path p r → seen_management earlier (modelListRouteIndex st) (balanceRouteIndex st) →
  match check_management i r p (models r) (upstream_path r) (converter r) st with
  | inl _ => ¬ management_valid earlier p r
  | inr st' => management_valid earlier p r ∧ routeModelsByPath st' = routeModelsByPath st ∧
      seen_management (earlier ++ [r]) (modelListRouteIndex st') (balanceRouteIndex st')
  end.
Proof.
  intros Hp [Hl Hb]. unfold check_management. destruct (isAdvancedCustomManagementPath p) eqn:Hm.
  2: { split_and!; [by intros ?; congruence|done|]. unfold seen_management. rewrite !in_snoc, <- Hl, <- Hb.
       split; (split; [by left|intros [?|Hq]; [done|]]);
         rewrite (has_path_unique _ _ _ Hp Hq) in Hm; by vm_compute in Hm. }
  destruct (p =s ADVANCED_CUSTOM_MODEL_LIST_PATH) eqn:Hpl.
  - apply str_eqb_eq in Hpl as ->.
    destruct (management_error _ _ _ _ _ _) eqn:He.
    + intros Hv. destruct (Hv Hm) as (Hno & Hrest). assert (management_error (is_some (modelListRouteIndex st))
        (js "OpenAI Models") r (models r) (upstream_path r) (converter r) = None) as Hn; [|congruence].
      apply management_error_spec. split; [|done]. apply not_is_some. rewrite Hl. intros (r' & Hr' & Hp'). by apply (Hno r').
    + apply management_error_spec in He as (Hno & Hrest). split_and!; [|done|].
      * intros _. split; [|done]. apply not_is_some in Hno. rewrite Hl in Hno. naive_solver.
      * unfold seen_management. cbn [modelListRouteIndex balanceRouteIndex]. rewrite !in_snoc, <- Hb.
        split; [split; [by right|by eexists]|]. split; [by left|]. intros [?|Hq]; [done|].
        by pose proof (has_path_unique _ _ _ Hp Hq).
  - assert (p = ADVANCED_CUSTOM_BALANCE_PATH) as ->.
    { unfold isAdvancedCustomManagementPath in Hm. rewrite Hpl in Hm. by apply str_eqb_eq in Hm. }
    destruct (management_error _ _ _ _ _ _) eqn:He.
    + intros Hv. destruct (Hv Hm) as (Hno & Hrest). assert (management_error (is_some (balanceRouteIndex st))
        (js "Balance Query") r (models r) (upstream_path r) (converter r) = None) as Hn; [|congruence].
      apply management_error_spec. split; [|done]. apply not_is_some. rewrite Hb. intros (r' & Hr' & Hp'). by apply (Hno r').
    + apply management_error_spec in He as (Hno & Hrest). split_and!; [|done|].
      * intros _. split; [|done]. apply not_is_some in Hno. rewrite Hb in Hno. naive_solver.
      * unfold seen_management. cbn [modelListRouteIndex balanceRouteIndex]. rewrite !in_snoc, <- Hl.
        split; [|split; [by right|by eexists]]. split; [by left|]. intros [?|Hq]; [done|].
        by pose proof (has_path_unique _ _ _ Hp Hq).
Qed.

Lemma blank_false v : blank v = Ok false ↔ ∃ t, v = VString t ∧ trim t ≠ [].
Proof.
  unfold blank. split.
  - destruct (truthy v) eqn:Ht; [|done]. destruct v; try done. cbn. intros [= Hn]. apply str_eqb_neq in Hn. by eexists.
  - intros (t & -> & Ht). assert (truthy (VString t) = true) as ->.
    { cbn. destruct t; [by vm_compute in Ht|done]. }
    cbn. by rewrite (proj2 (str_eqb_neq (trim t) []) Ht).
Qed.

Lemma validateRouteAuth_spec a : validateRouteAuth a = Ok None ↔ auth_valid a.
Proof.
  destruct a as [a|]; [|done]. cbn [validateRouteAuth auth_valid].
  destruct (is_text (auth_type a) (js "none")) eqn:Hn.
  { apply is_text_spec in Hn. split; [by left|done]. }
  destruct (is_text (auth_type a) (js "header") || is_text (auth_type a) (js "query")) eqn:Hh; cbn [negb].
  2: { apply orb_false_iff in Hh as [Hh Hq]. split; [done|].
       intros [H|[[H|H] _]]; apply is_text_spec in H; congruence. }
  apply orb_true_iff in Hh. rewrite !is_text_spec in Hh.
  assert (auth_type a ≠ VString (js "none")) as Hne by (intros H%is_text_spec; congruence).
  destruct (blank (auth_name a)) as [[]|] eqn:Hb1; cbn [mbind result_bind].
  - split; [done|]. intros [?|(_ & n & t & H1 & H2 & _)]; [done|].
    assert (blank (auth_name a) = Ok false) by (apply blank_false; by exists n). congruence.
  - apply blank_false in Hb1 as (n & Hn1 & Hn2).
    destruct (blank (auth_text a)) as [[]|] eqn:Hb2; cbn [mbind result_bind].
    + split; [done|]. intros [?|(_ & n' & t & _ & _ & H1 & H2)]; [done|].
      assert (blank (auth_text a) = Ok false) by (apply blank_false; by exists t). congruence.
    + apply blank_false in Hb2 as (t & Ht1 & Ht2). split; [|done]. intros _. right. split; [done|]. by exists n, t.
    + split; [done|]. intros [?|(_ & n' & t & _ & _ & H1 & H2)]; [done|].
      assert (blank (auth_text a) = Ok false) by (apply blank_false; by exists t). congruence.
  - split; [done|]. intros [?|(_ & n & t & H1 & H2 & _)]; [done|].
    assert (blank (auth_name a) = Ok false) by (apply blank_false; by exists n). congruence.
Qed.

Lemma represents_nothing : represents [] initial_validation.
Proof.
  split; cbn; intros; (split; [by intros []|]); intros (r & Hr & _); by apply not_elem_of_nil in Hr.
Qed.

Section Valid.
Context (parse_url : jsstring → option (jsstring * jsstring)).
#[local] Set Default Proof Using "All".

Definition forwarding_valid (p : jsstring) (r : AdvancedCustomRoute) : Prop :=
  upstream_path r ≠ [] ∧ isFullHttpURLOrAbsolutePath parse_url (upstream_path r) = true ∧
  (∃ c, converter r = VString c ∧ c ∈ ADVANCED_CUSTOM_CONVERTERS ∧ isConverterPathAllowed p c = true ∧
     (pass_through_body_enabled r = true → c = js "none")) ∧
  auth_valid (auth r).

Definition route_valid (earlier : list AdvancedCustomRoute) (r : AdvancedCustomRoute) : Prop :=
  ∃ p, has_path p r ∧ starts_with (js "/") p = true ∧ includes (js "?") p = false ∧
    management_valid earlier p r ∧ models_valid earlier p r ∧ forwarding_valid p r.

Lemma check_forwarding_spec r p :
  check_forwarding parse_url r p (upstream_path r) (converter r) = Ok None ↔ forwarding_valid p r.
Proof.
  unfold check_forwarding, forwarding_valid. destruct (upstream_path r =s []) eqn:Hu.
  { apply str_eqb_eq in Hu. naive_solver. }
  apply str_eqb_neq in Hu. destruct (isFullHttpURLOrAbsolutePath _ _); cbn [negb]; [|naive_solver].
  destruct (converter r) as [| | | |c| |]; try (split; [done|by intros (_ & _ & (c & ? & _) & _)]).
  destruct (str_in c ADVANCED_CUSTOM_CONVERTERS) eqn:Hc; cbn [negb].
  2: { split; [done|]. intros (_ & _ & (c' & [= <-] & Hin & _) & _). apply str_in_elem in Hin. congruence. }
  apply str_in_elem in Hc. destruct (isConverterPathAllowed p c) eqn:Ha; cbn [negb].
  2: { split; [done|]. intros (_ & _ & (c' & [= <-] & _ & Ha' & _) & _). congruence. }
  destruct (pass_through_body_enabled r && negb (isAdvancedCustomPassThroughAllowed (VString c))) eqn:Hp.
  - apply andb_true_iff in Hp as [Hb Hn%negb_true_iff]. cbn in Hn. apply str_eqb_neq in Hn.
    split; [done|]. intros (_ & _ & (c' & [= <-] & _ & _ & Hc') & _). by destruct Hn; apply Hc'.
  - rewrite validateRouteAuth_spec. split; [|by intros (_ & _ & _ & Hauth)]. intros Hauth.
    split_and!; [done..| |done].
    exists c. split_and!; [done..|]. intros Hb. rewrite Hb in Hp. cbn in Hp. by apply negb_false_iff, str_eqb_eq in Hp.
Qed.

Lemma check_route_spec i r earlier st :
  normal_route r → represents earlier st →
  match check_route parse_url i r st with
  | Ok (inr st') => route_valid earlier r ∧ represents (earlier ++ [r]) st'
  | _ => ¬ route_valid earlier r
  end.
Proof.
  intros Hnormal [Hcatch Hmodels Hlist Hbalance]. unfold check_route.
  assert (∀ p, incoming r = Ok p → route_valid earlier r → starts_with (js "/") p = true ∧ includes (js "?") p = false ∧
    management_valid earlier p r ∧ models_valid earlier p r ∧ forwarding_valid p r) as Hvalid.
  { intros p Hp (q & Hq & H'). assert (p = q) as -> by (unfold has_path in Hq; congruence). done. }
  destruct (incoming r) as [p|e] eqn:Hp; cbn [mbind result_bind]; [|by intros (p & Hq & _); unfold has_path in Hq; congruence].
  rewrite (normal_models_filter _ (normal_models _ Hnormal)), (truthy_or_value _ _ (normal_converter _ Hnormal)).
  rewrite (normal_upstream _ Hnormal). specialize (Hvalid p eq_refl).
  destruct (p =s []) eqn:Hpe.
  { apply str_eqb_eq in Hpe as ->. by intros (Hs & _)%Hvalid. }
  destruct (starts_with (js "/") p) eqn:Hs; cbn [negb]; [|by intros (? & _)%Hvalid].
  destruct (includes (js "?") p) eqn:Hq; [by intros (_ & ? & _)%Hvalid|].
  pose proof (management_step i p r earlier st Hp (conj Hlist Hbalance)) as Hman.
  destruct (check_management i r p _ _ _ st) as [e|st1]; [by intros (_ & _ & ? & _)%Hvalid|]. destruct Hman as (Hmv & Hby & Hseen).
  rewrite <- Hby in Hcatch, Hmodels.
  pose proof (models_step i p r earlier (routeModelsByPath st1) Hp Hcatch Hmodels) as Hmod.
  destruct (validateAdvancedCustomRouteModels i p (models r) _) as [e|byPath]; [by intros (_ & _ & _ & ? & _)%Hvalid|].
  destruct Hmod as (Hmodv & Hc' & Hm'). pose proof (check_forwarding_spec r p) as Hfwd.
  destruct (check_forwarding parse_url r p _ _) as [[e|]|e]; cbn [mbind result_bind].
  - intros Hv. destruct (Hvalid Hv) as (_ & _ & _ & _ & Hf%Hfwd). done.
  - split; [|by destruct Hseen; split]. exists p. split_and!; [done..|by apply Hfwd].
  - intros Hv. destruct (Hvalid Hv) as (_ & _ & _ & _ & Hf%Hfwd). done.
Qed.

(** The loop accepts when every route is valid after those before it, and
    otherwise stops at the first that is not. *)
Lemma check_routes_spec routes : ∀ earlier st,
  Forall normal_route routes → represents earlier st →
  match check_routes parse_url (length earlier) routes st with
  | Ok None => ∀ i r, routes !! i = Some r → route_valid (earlier ++ take i routes) r
  | Ok (Some e) => ∃ i r, routeIndex e = Some (length earlier + i) ∧ routes !! i = Some r ∧
      ¬ route_valid (earlier ++ take i routes) r ∧
      ∀ j r', j < i → routes !! j = Some r' → route_valid (earlier ++ take j routes) r'
  | Err _ => ∃ i r, routes !! i = Some r ∧ ¬ route_valid (earlier ++ take i routes) r
  end.
Proof.
  induction routes as [|r routes IH]; intros earlier st Hn Hrep; cbn [check_routes]; [by intros i r Hi|].
  apply Forall_cons in Hn as [Hnr Hn]. pose proof (check_route_spec (length earlier) r earlier st Hnr Hrep) as Hr.
  destruct (check_route parse_url (length earlier) r st) as [[message|st']|e]; cbn [mbind result_bind].
  - exists 0, r. rewrite app_nil_r. cbn. split_and!; [f_equal; lia|done|done|lia].
  - destruct Hr as [Hv Hrep']. specialize (IH (earlier ++ [r]) st' Hn Hrep').
    rewrite length_app, Nat.add_comm in IH. cbn [length] in IH. change (1 + length earlier) with (S (length earlier)) in IH.
    assert (∀ i, (earlier ++ [r]) ++ take i routes = earlier ++ take (S i) (r :: routes)) as Htake
      by (intros i; by rewrite <- app_assoc).
    destruct (check_routes parse_url (S (length earlier)) routes st') as [[e|]|e].
    + destruct IH as (i & r' & Hi & Hr' & Hnv & Hbefore). exists (S i), r'. rewrite <- Htake.
      split_and!; [rewrite Hi; f_equal; lia|done|done|]. intros [|j] r2 Hj Hr2.
      * injection Hr2 as <-. cbn. by rewrite app_nil_r.
      * rewrite <- Htake. apply Hbefore; [lia|done].
    + intros [|i] r' Hi; [injection Hi as <-; cbn; by rewrite app_nil_r|]. rewrite <- Htake. by apply IH.
    + destruct IH as (i & r' & Hi & Hnv). exists (S i), r'. by rewrite <- Htake.
  - exists 0, r. rewrite app_nil_r. done.
Qed.
End Valid.

(** ** Routes by their paths *)

(** The path of a route; the management functions throw on a path that is not
    a text. *)
Definition path_of (r : AdvancedCustomRoute) : jsstring := match incoming r with Ok p => p | Err _ => [] end.
Definition paths_known (routes : list AdvancedCustomRoute) : Prop := Forall (λ r, ∃ p, has_path p r) routes.
Definition with_path (test : jsstring → bool) (routes : list AdvancedCustomRoute) : list AdvancedCustomRoute :=
  List.filter (λ r, test (path_of r)) routes.

Lemma with_path_app test a b : with_path test (a ++ b) = with_path test a ++ with_path test b.
Proof. apply List.filter_app. Qed.
Lemma with_path_all test l : Forall (λ r, test (path_of r) = true) l → with_path test l = l.
Proof. unfold with_path. induction 1 as [|r l Hr _ IH]; cbn; [done|]. by rewrite Hr, IH. Qed.
Lemma with_path_none test l : Forall (λ r, test (path_of r) = false) l → with_path test l = [].
Proof. unfold with_path. induction 1 as [|r l Hr _ IH]; cbn; [done|]. by rewrite Hr. Qed.

Lemma filter_path_known test routes : paths_known routes → filter_path test routes = Ok (with_path test routes).
Proof.
  unfold with_path. induction 1 as [|r routes [p Hp] _ IH]; cbn; [done|]. unfold path_of at 1. rewrite Hp, IH. cbn.
  by destruct (test p).
Qed.

Lemma find_path_known test routes : ∀ n, paths_known routes →
  match find_path test routes n with
  | Ok (Some (j, r)) => ∃ a b, routes = a ++ r :: b ∧ j = n + length a ∧ test (path_of r) = true ∧
      Forall (λ r, test (path_of r) = false) a
  | Ok None => Forall (λ r, test (path_of r) = false) routes
  | Err _ => False
  end.
Proof.
  induction routes as [|r routes IH]; intros n Hk; cbn; [constructor|]. apply Forall_cons in Hk as [[p Hp] Hk].
  assert (path_of r = p) as Hpath by (unfold path_of; by rewrite Hp). rewrite Hp. cbn [mbind result_bind].
  destruct (test p) eqn:Ht.
  { exists [], routes. split_and!; [done|cbn; lia|by rewrite Hpath|constructor]. }
  specialize (IH (S n) Hk). destruct (find_path test routes (S n)) as [[[j r']|]|]; [|constructor; [by rewrite Hpath|done]|done].
  destruct IH as (a & b & -> & -> & Hr' & Ha). exists (r :: a), b.
  split_and!; [done|cbn; lia|done|constructor; [by rewrite Hpath|done]].
Qed.
