(* ===== verification/AdvancedCustomTheorems.v ===== *)
(** * Properties of advanced custom routes

    Reading what was written, the exact meaning of the validation, the
    separation of management and forwarding routes, and the validity of what
    the editor offers. *)

From S2P Require Import Prelude JsNumber JsText Types Runtime JsRegex JsRegexFacts JsMap JsValue JsObject AdvancedCustom AdvancedCustomFacts.

(** ** Writing and reading *)

(** Fields of the declared types. *)
Definition text_value (v : jsval) : Prop := ∃ s, v = VString s ∧ code_units s.
Record declared_auth (a : RouteAuth) : Prop := mkDeclaredAuth {
  declared_type : text_value (auth_type a);
  declared_name : text_value (auth_name a);
  declared_text : text_value (auth_text a)
}.
Record declared_route (r : AdvancedCustomRoute) : Prop := mkDeclared {
  declared_incoming : text_value (incoming_path r);
  declared_upstream : code_units (upstream_path r);
  declared_converter : text_value (converter r);
  declared_models : Forall code_units (models r);
  declared_route_auth : match auth r with Some a => declared_auth a | None => True end
}.

Lemma text_document v : text_value v → document v ∧ enumerated v = v.
Proof. intros (s & -> & Hs). split; [by constructor|done]. Qed.

(** Distinct names. *)
Fixpoint names (l : list jsstring) : bool :=
  match l with
  | [] => true
  | k :: l => negb (str_in k l) && forallb (λ c, c <? 65536)%N k && negb (is_some (key_index k)) && names l
  end.
Lemma names_spec l :
  names l = true → NoDup l ∧ Forall code_units l ∧ Forall (λ k, key_index k = None) l.
Proof.
  induction l as [|k l IH]; cbn; [by repeat constructor|].
  intros [[[Hk Hc]%andb_true_iff Hi]%andb_true_iff Hl]%andb_true_iff. destruct (IH Hl) as (? & ? & ?).
  apply negb_true_iff in Hk, Hi. split_and!; [apply NoDup_cons; split; [|done]|constructor; [|done]..].
  - intros Hin%str_in_elem. congruence.
  - rewrite forallb_forall in Hc. apply Forall_forall. intros c Hin%list_elem_of_In. by apply N.ltb_lt, Hc.
  - by destruct (key_index k).
Qed.

(** An object all of whose keys are names, for values that are read back as
    they are. *)
Lemma object_document l :
  names l.*1 = true → Forall (λ e, document e.2 ∧ enumerated e.2 = e.2) l →
  document (VObject l) ∧ enumerated (VObject l) = VObject l.
Proof.
  intros (Hd & Hk & Hi)%names_spec Hl. rewrite Forall_map in Hk. split.
  - constructor; [done|done|by eapply Forall_impl; [exact Hl|by intros e [? _]]].
  - cbn [enumerated]. assert (map (λ '(k, v), (k, enumerated v)) l = l) as ->.
    { clear Hd Hk Hi. induction Hl as [|[k v] l [_ Hv] _ IH]; [done|]. cbn in *. by rewrite Hv, IH. }
    rewrite own_order_plain; [done|]. unfold plain_keys. by rewrite Forall_map in Hi.
Qed.

Lemma array_document l :
  Forall (λ v, document v ∧ enumerated v = v) l → document (VArray l) ∧ enumerated (VArray l) = VArray l.
Proof.
  intros Hl. split; [constructor; by eapply Forall_impl; [exact Hl|by intros v [? _]]|].
  cbn [enumerated]. f_equal. induction Hl as [|v l [_ Hv] _ IH]; [done|]. cbn. by rewrite Hv, IH.
Qed.

Lemma auth_document a : declared_auth a → document (route_auth_value a) ∧ enumerated (route_auth_value a) = route_auth_value a.
Proof.
  intros [Ht Hn Hv]. apply object_document; [by vm_compute|].
  do 3 (apply Forall_cons; split; [by apply text_document|]). constructor.
Qed.

Lemma route_document r : declared_route r → document (route_value r) ∧ enumerated (route_value r) = route_value r.
Proof.
  intros [Hi Hu Hc Hm Ha].
  assert (document (VArray (map VString (models r))) ∧
          enumerated (VArray (map VString (models r))) = VArray (map VString (models r))) as Hms.
  { apply array_document. apply Forall_map. eapply Forall_impl; [exact Hm|].
    intros s Hs. apply text_document. by exists s. }
  assert (text_value (VString (upstream_path r))) as Hup by (by eexists).
  unfold route_value. destruct r as [p u c ms b a]; cbn [incoming_path upstream_path converter models
    pass_through_body_enabled auth] in *.
  apply object_document; [destruct ms, b, a; vm_compute; reflexivity|].
  rewrite !Forall_app. split_and!.
  - do 3 (apply Forall_cons; split; [by apply text_document|]). constructor.
  - destruct ms; [constructor|]. apply Forall_singleton. exact Hms.
  - destruct b; [|constructor]. by apply Forall_singleton; split; [constructor|].
  - destruct a; [|constructor]. apply Forall_singleton. by apply auth_document.
Qed.

Lemma routes_document rs :
  Forall declared_route rs → document (routes_value rs) ∧ enumerated (routes_value rs) = routes_value rs.
Proof.
  intros Hrs. apply object_document; [by vm_compute|]. apply Forall_singleton. cbn [snd]. apply array_document.
  apply Forall_map. eapply Forall_impl; [exact Hrs|]. apply route_document.
Qed.

(** The text of a normalized configuration parses to its routes. *)
Lemma written_routes routes :
  Forall normal_route routes → Forall declared_route routes →
  parseAdvancedCustomConfig (json_pretty 0 (routes_value routes)) = Some routes.
Proof.
  intros Hn Hd. pose proof (normalize_routes_value routes Hn) as Hv. destruct (routes_document routes Hd) as [Hdoc Henum].
  unfold parseAdvancedCustomConfig. rewrite (json_parse_print 2 _ Hdoc), Henum.
  assert ((trim (json_pretty 0 (routes_value routes)) =s []) = false) as ->.
  { apply str_eqb_neq. intros Ht.
    destruct (trim_decomp (json_pretty 0 (routes_value routes))) as (a & b & Heq & Ha & Hb). rewrite Ht in Heq.
    destruct (document_opens 2 0 _ Hdoc) as (c & t & Hj & Hsp & _).
    assert (forallb is_space (c :: t) = true) as Hall by (rewrite <- Hj, Heq, app_nil_l, forallb_app, Ha, Hb; done).
    assert (c = 123%N) as -> by (by injection Hj). by vm_compute in Hall. }
  change (match normalizeAdvancedCustomConfig (routes_value routes) with Ok rs => Some rs | Err _ => None end
          = Some routes).
  by rewrite Hv.
Qed.

(** C29. A configuration reads back as it was written: the text made of it
    parses to its normalized routes, and those are written as the same text,
    so saving an opened configuration changes nothing. *)
Theorem config_round_trip config routes :
  normalizeAdvancedCustomConfig config = Ok routes → Forall declared_route routes →
  ∃ text, stringifyAdvancedCustomConfig config = Ok text ∧
    parseAdvancedCustomConfig text = Some routes ∧
    stringifyAdvancedCustomConfig (routes_value routes) = Ok text.
Proof.
  intros Hc Hd. pose proof (normalize_config_normal _ _ Hc) as Hn.
  exists (json_pretty 0 (routes_value routes)). unfold stringifyAdvancedCustomConfig.
  rewrite Hc, (normalize_routes_value routes Hn). split_and!; [done|by apply written_routes|done].
Qed.

(** ** Validation *)

(** C28. The validation accepts exactly the sound configurations: one or more
    routes, each with an absolute path without a query, a registered converter
    that suits the path, an upstream address, complete credentials, model rules
    that no earlier route of the path competes with (no model twice, nothing
    after a route for all models), and management routes that are unique and
    forward natively. A configuration that is refused for a route names the
    first route that is not sound. *)
Theorem validation_exact parse_url config :
  (validateAdvancedCustomConfig parse_url (Some config) = Ok None ↔
   ∃ routes, normalizeAdvancedCustomConfig config = Ok routes ∧ routes ≠ [] ∧
     ∀ i r, routes !! i = Some r → route_valid parse_url (take i routes) r) ∧
  ∀ e i, validateAdvancedCustomConfig parse_url (Some config) = Ok (Some e) → routeIndex e = Some i →
    ∃ routes r, normalizeAdvancedCustomConfig config = Ok routes ∧ routes !! i = Some r ∧
      ¬ route_valid parse_url (take i routes) r ∧
      ∀ j r', j < i → routes !! j = Some r' → route_valid parse_url (take j routes) r'.
Proof.
  cbn [validateAdvancedCustomConfig]. destruct (normalizeAdvancedCustomConfig config) as [routes|] eqn:Hn;
    cbn [mbind result_bind]; [|split; [split; [done|by intros (? & ? & _)]|done]].
  pose proof (check_routes_spec parse_url routes [] initial_validation (normalize_config_normal _ _ Hn) represents_nothing)
    as Hspec.
  destruct routes as [|r routes]; [split; [split; [done|by intros (? & [= <-] & ? & _)]|by intros e i [= <-]]|].
  remember (r :: routes) as rs eqn:Hrs. cbn [length app] in Hspec.
  destruct (check_routes parse_url 0 rs initial_validation) as [[e|]|e]; split; try done.
  - split; [done|]. intros (rs' & [= <-] & _ & Hv). destruct Hspec as (i & r' & _ & Hr' & Hnv & _). by destruct Hnv; apply Hv.
  - intros e' i [= <-] Hi. destruct Hspec as (j & r' & Hj & Hr' & Hnv & Hbefore). rewrite Hj in Hi. injection Hi as <-.
    exists rs, r'. by split_and!.
  - split; [|done]. intros _. exists rs. by subst.
  - split; [done|]. intros (rs' & [= <-] & _ & Hv). destruct Hspec as (i & r' & Hr' & Hnv). by destruct Hnv; apply Hv.
Qed.

(** ** Management and forwarding routes *)

Lemma find_path_first test a r b : ∀ n,
  Forall (λ r, ∃ p, has_path p r ∧ test p = false) a → (∃ p, has_path p r ∧ test p = true) →
  find_path test (a ++ r :: b) n = Ok (Some (n + length a, r)).
Proof.
  intros n Ha (p & Hp & Ht). revert n. induction Ha as [|x a (q & Hq & Hf) _ IH]; intros n; cbn.
  - rewrite Hp. cbn. rewrite Ht. do 3 f_equal. lia.
  - rewrite Hq. cbn. rewrite Hf, IH. do 3 f_equal. lia.
Qed.

Lemma known_test test l : paths_known l → Forall (λ r, test (path_of r) = false) l →
  Forall (λ r, ∃ p, has_path p r ∧ test p = false) l.
Proof.
  intros Hk Ht. apply Forall_forall. intros r Hr. unfold paths_known in Hk. rewrite Forall_forall in Hk, Ht.
  destruct (Hk r Hr) as [p Hp]. exists p. split; [done|]. specialize (Ht r Hr). unfold path_of in Ht. by rewrite Hp in Ht.
Qed.

Lemma management_route_path p route r :
  trimmed p → normalizeAdvancedCustomRoute (management_route p route) = Ok r → has_path p r ∧ path_of r = p.
Proof.
  intros Hp Hr%normalize_route_incoming. change (prop (management_route p route) (js "incoming_path")) with (VString p) in Hr.
  assert (has_path p r) as Hh; [|split; [exact Hh|unfold path_of; unfold has_path in Hh; by rewrite Hh]].
  unfold has_path, incoming. rewrite Hr. unfold or_value. destruct (truthy (VString p)) eqn:Ht; cbn; [by rewrite Hp|].
  cbn in Ht. apply negb_false_iff, str_eqb_eq in Ht. by subst.
Qed.

Lemma known_app a b : paths_known (a ++ b) ↔ paths_known a ∧ paths_known b.
Proof. apply Forall_app. Qed.

Lemma normalize_values rs : Forall normal_route rs → mapM_result normalizeAdvancedCustomRoute (map route_value rs) = Ok rs.
Proof. apply normalize_routes_value. Qed.

Lemma mapM_result_app {A B} (f : A → result B) a b xs ys :
  mapM_result f a = Ok xs → mapM_result f b = Ok ys → mapM_result f (a ++ b) = Ok (xs ++ ys).
Proof.
  revert xs. induction a as [|x a IH]; intros xs; cbn; [by intros [= <-]|].
  destruct (f x) as [y|]; [|done]. cbn. destruct (mapM_result f a) as [zs|]; [|done]. cbn. intros [= <-] Hb.
  by rewrite (IH zs eq_refl Hb).
Qed.

Section Management.
Context (config : jsval) (routes : list AdvancedCustomRoute) (p : jsstring).
Context (Hconfig : normalizeAdvancedCustomConfig config = Ok routes) (Hknown : paths_known routes) (Hp : trimmed p).
#[local] Set Default Proof Using "All".
Abbreviation at_path := (λ q, q =s p).
Abbreviation elsewhere := (λ q, negb (q =s p)).

Lemma normal_parts a b : routes = a ++ b → Forall normal_route a ∧ Forall normal_route b.
Proof. intros ->. apply Forall_app. by eapply normalize_config_normal. Qed.

Lemma elsewhere_none l : Forall (λ r, at_path (path_of r) = false) l → with_path elsewhere l = l.
Proof. intros Hl. apply with_path_all. eapply Forall_impl; [exact Hl|]. by intros r ->. Qed.

(** The route of a path is replaced, or added at the end. *)
Lemma replace_route route r :
  normalizeAdvancedCustomRoute (management_route p route) = Ok r →
  ∃ config' routes', replaceAdvancedCustomManagementRoute config p (Some route) = Ok config' ∧
    normalizeAdvancedCustomConfig config' = Ok routes' ∧
    getAdvancedCustomManagementRoute config' p = Ok (Some r) ∧
    with_path elsewhere routes' = with_path elsewhere routes.
Proof.
  intros Hr. destruct (management_route_path p route r Hp Hr) as [Hhas Hpath].
  assert (∀ values a b, normalizeAdvancedCustomConfig (config_value values) = Ok (a ++ r :: b) → paths_known a →
            Forall (λ r, at_path (path_of r) = false) a →
            getAdvancedCustomManagementRoute (config_value values) p = Ok (Some r)) as Hget.
  { intros values a b Hv Hk Ha. unfold getAdvancedCustomManagementRoute. rewrite Hv. cbn [mbind result_bind].
    rewrite (find_path_first _ a r b 0 (known_test _ _ Hk Ha)); [done|]. exists p. by rewrite str_eqb_refl. }
  assert (at_path (path_of r) = true) as Hat by (by rewrite Hpath, str_eqb_refl).
  unfold replaceAdvancedCustomManagementRoute. rewrite Hconfig. cbn [mbind result_bind].
  pose proof (find_path_known at_path routes 0 Hknown) as Hfind.
  destruct (find_path at_path routes 0) as [[[j r0]|]|]; [| |done].
  - destruct Hfind as (a & b & Hrs & -> & Hr0 & Ha). cbn [mbind result_bind Nat.add].
    destruct (normal_parts a (r0 :: b) Hrs) as [Hna [_ Hnb]%Forall_cons].
    assert (<[length a:=management_route p route]> (map route_value routes)
            = map route_value a ++ management_route p route :: map route_value b) as ->.
    { rewrite Hrs, map_app. cbn [map]. rewrite insert_app_r_alt by (by rewrite length_map).
      by rewrite length_map, Nat.sub_diag. }
    assert (normalizeAdvancedCustomConfig (config_value (map route_value a ++ management_route p route :: map route_value b))
            = Ok (a ++ r :: b)) as Hn.
    { rewrite normalize_config_value. apply mapM_result_app; [by apply normalize_values|].
      cbn [mapM_result]. rewrite Hr. cbn [mbind result_bind]. by rewrite normalize_values. }
    eexists _, _. split_and!; [done|exact Hn| |].
    + apply (Hget _ a b Hn); [|done]. rewrite Hrs in Hknown. by apply known_app in Hknown as [? _].
    + rewrite Hrs, !with_path_app. f_equal. unfold with_path. cbn [List.filter]. by rewrite Hat, Hr0.
  - assert (normalizeAdvancedCustomConfig (config_value (map route_value routes ++ [management_route p route]))
            = Ok (routes ++ [r])) as Hn.
    { rewrite normalize_config_value.
      apply mapM_result_app; [apply normalize_values; by eapply normalize_config_normal|].
      cbn [mapM_result]. by rewrite Hr. }
    cbn [mbind result_bind]. eexists _, _. split_and!; [done|exact Hn|by apply (Hget _ routes [] Hn)|].
    rewrite with_path_app. unfold with_path at 2. cbn [List.filter]. rewrite Hat. cbn. by rewrite app_nil_r.
Qed.

(** Removing it leaves the others; none is left when it was the only one. *)
Lemma remove_route :
  ∃ config' routes', replaceAdvancedCustomManagementRoute config p None = Ok config' ∧
    normalizeAdvancedCustomConfig config' = Ok routes' ∧
    with_path elsewhere routes' = with_path elsewhere routes ∧
    (length (with_path at_path routes) ≤ 1 → getAdvancedCustomManagementRoute config' p = Ok None).
Proof.
  unfold replaceAdvancedCustomManagementRoute. rewrite Hconfig. cbn [mbind result_bind].
  assert (∀ values rs, normalizeAdvancedCustomConfig (config_value values) = Ok rs → paths_known rs →
            with_path at_path rs = [] → getAdvancedCustomManagementRoute (config_value values) p = Ok None) as Hget.
  { intros values rs Hv Hk Hnone. unfold getAdvancedCustomManagementRoute. rewrite Hv. cbn [mbind result_bind].
    pose proof (find_path_known at_path rs 0 Hk) as Hf. destruct (find_path at_path rs 0) as [[[j r]|]|]; [|done|done].
    destruct Hf as (a & b & -> & _ & Hr & _). rewrite with_path_app in Hnone. unfold with_path at 2 in Hnone.
    cbn [List.filter] in Hnone. rewrite Hr in Hnone. by apply app_nil in Hnone as [_ ?]. }
  pose proof (find_path_known at_path routes 0 Hknown) as Hfind.
  destruct (find_path at_path routes 0) as [[[j r0]|]|]; [| |done].
  - destruct Hfind as (a & b & Hrs & -> & Hr0 & Ha). cbn [mbind result_bind Nat.add].
    destruct (normal_parts a (r0 :: b) Hrs) as [Hna [_ Hnb]%Forall_cons].
    assert (take (length a) (map route_value routes) ++ drop (S (length a)) (map route_value routes)
            = map route_value (a ++ b)) as ->.
    { rewrite Hrs, !map_app. cbn [map]. rewrite take_app_le, take_ge by (by rewrite length_map).
      rewrite drop_app_ge by (rewrite length_map; lia). rewrite length_map.
      by replace (S (length a) - length a) with 1 by lia. }
    assert (normalizeAdvancedCustomConfig (config_value (map route_value (a ++ b))) = Ok (a ++ b)) as Hn
      by (apply normalize_routes_value; by apply Forall_app).
    eexists _, _. split_and!; [done|exact Hn| |].
    + rewrite Hrs, !with_path_app. f_equal. unfold with_path at 2. cbn [List.filter]. by rewrite Hr0.
    + rewrite Hrs, with_path_app. unfold with_path at 2. cbn [List.filter]. rewrite Hr0, length_app. cbn [length].
      rewrite (with_path_none _ a Ha). cbn [length]. intros Hle. apply (Hget _ _ Hn).
      * rewrite Hrs in Hknown. apply known_app in Hknown as [? Hb]. apply known_app. split; [done|]. by apply Forall_cons in Hb as [_ ?].
      * rewrite with_path_app, (with_path_none _ a Ha). cbn [app]. unfold with_path. destruct (List.filter _ b); [done|cbn in Hle; lia].
  - cbn [mbind result_bind].
    assert (normalizeAdvancedCustomConfig (config_value (map route_value routes)) = Ok routes) as Hn
      by (apply normalize_routes_value; by eapply normalize_config_normal).
    eexists _, _. split_and!; [done|exact Hn|done|]. intros _. apply (Hget _ _ Hn Hknown). by apply with_path_none.
Qed.
End Management.

Abbreviation forwarding := (λ q, negb (isAdvancedCustomManagementPath q)).

Lemma managed_split (a b f : list AdvancedCustomRoute) :
  Forall (λ r, isAdvancedCustomManagementPath (path_of r) = false) f →
  with_path isAdvancedCustomManagementPath
    (with_path isAdvancedCustomManagementPath a ++ f ++ with_path isAdvancedCustomManagementPath b)
  = with_path isAdvancedCustomManagementPath (a ++ b) ∧
  with_path forwarding
    (with_path isAdvancedCustomManagementPath a ++ f ++ with_path isAdvancedCustomManagementPath b) = f.
Proof.
  intros Hf.
  assert (∀ l, Forall (λ r, isAdvancedCustomManagementPath (path_of r) = true) (with_path isAdvancedCustomManagementPath l)) as Hall.
  { intros l. apply Forall_forall. intros r [_ ?]%list_elem_of_In%filter_In. done. }
  rewrite !with_path_app. split.
  - by rewrite (with_path_none _ f Hf), !(with_path_all _ (with_path _ _)).
  - rewrite (with_path_all forwarding f), !(with_path_none forwarding (with_path _ _)), app_nil_r; [done|..].
    + eapply Forall_impl; [apply Hall|]. by intros r ->.
    + eapply Forall_impl; [apply Hall|]. by intros r ->.
    + eapply Forall_impl; [exact Hf|]. by intros r ->.
Qed.

Lemma replace_forwarding config routes fwd fs :
  normalizeAdvancedCustomConfig config = Ok routes → paths_known routes →
  mapM_result normalizeAdvancedCustomRoute fwd = Ok fs →
  Forall (λ r, isAdvancedCustomManagementPath (path_of r) = false) fs →
  ∃ config' routes', replaceAdvancedCustomForwardingRoutes config fwd = Ok config' ∧
    normalizeAdvancedCustomConfig config' = Ok routes' ∧
    with_path isAdvancedCustomManagementPath routes' = with_path isAdvancedCustomManagementPath routes ∧
    with_path forwarding routes' = fs.
Proof.
  intros Hc Hk Hfwd Hfs. pose proof (normalize_config_normal _ _ Hc) as Hn.
  assert (∀ l, Forall normal_route l → Forall normal_route (with_path isAdvancedCustomManagementPath l)) as Hnw.
  { intros l Hl. apply Forall_forall. intros r [Hin _]%list_elem_of_In%filter_In. apply list_elem_of_In in Hin.
    rewrite Forall_forall in Hl. by apply Hl. }
  assert (∀ a b, routes = a ++ b → ∃ routes',
    normalizeAdvancedCustomConfig (config_value (map route_value (with_path isAdvancedCustomManagementPath a) ++ fwd ++
      map route_value (with_path isAdvancedCustomManagementPath b))) = Ok routes' ∧
    with_path isAdvancedCustomManagementPath routes' = with_path isAdvancedCustomManagementPath routes ∧
    with_path forwarding routes' = fs) as Hsplit.
  { intros a b Hab. rewrite Hab in Hn. apply Forall_app in Hn as [Hna Hnb].
    destruct (managed_split a b fs Hfs) as [H1 H2]. rewrite Hab. eexists. split; [|exact (conj H1 H2)].
    rewrite normalize_config_value. apply mapM_result_app; [by apply normalize_values, Hnw|].
    apply mapM_result_app; [done|by apply normalize_values, Hnw]. }
  unfold replaceAdvancedCustomForwardingRoutes. rewrite Hc. cbn [mbind result_bind].
  pose proof (find_path_known forwarding routes 0 Hk) as Hfind. rewrite (filter_path_known _ routes Hk).
  destruct (find_path forwarding routes 0) as [[[i r]|]|]; [| |done]; cbn [mbind result_bind].
  - assert (paths_known (take i routes) ∧ paths_known (drop i routes)) as [Ht Hd]
      by (by apply known_app; rewrite take_drop).
    rewrite (filter_path_known _ _ Ht), (filter_path_known _ _ Hd). cbn [mbind result_bind].
    destruct (Hsplit (take i routes) (drop i routes)) as (routes' & ? & ? & ?); [by rewrite take_drop|].
    by eexists _, routes'.
  - destruct (Hsplit routes []) as (routes' & Hr' & ? & ?); [by rewrite app_nil_r|].
    change (map route_value (with_path isAdvancedCustomManagementPath [])) with (@nil jsval) in Hr'.
    rewrite app_nil_r in Hr'. by eexists _, routes'.
Qed.

(** Management and forwarding routes are edited apart. Writing the route of
    a path stores it as that path's route, found again by the path, and
    removing it leaves no route of the path when there was one; both keep every
    other route in place and order. Replacing the forwarding routes gives
    exactly the new ones and keeps the management routes and their order. *)
Theorem management_and_forwarding_apart config routes p :
  normalizeAdvancedCustomConfig config = Ok routes → paths_known routes → trimmed p →
  (∀ route r, normalizeAdvancedCustomRoute (management_route p route) = Ok r →
     ∃ config' routes', replaceAdvancedCustomManagementRoute config p (Some route) = Ok config' ∧
       normalizeAdvancedCustomConfig config' = Ok routes' ∧ getAdvancedCustomManagementRoute config' p = Ok (Some r) ∧
       with_path (λ q, negb (q =s p)) routes' = with_path (λ q, negb (q =s p)) routes) ∧
  (∃ config' routes', replaceAdvancedCustomManagementRoute config p None = Ok config' ∧
     normalizeAdvancedCustomConfig config' = Ok routes' ∧
     with_path (λ q, negb (q =s p)) routes' = with_path (λ q, negb (q =s p)) routes ∧
     (length (with_path (λ q, q =s p) routes) ≤ 1 → getAdvancedCustomManagementRoute config' p = Ok None)) ∧
  (∀ fwd fs, mapM_result normalizeAdvancedCustomRoute fwd = Ok fs →
     Forall (λ r, isAdvancedCustomManagementPath (path_of r) = false) fs →
     ∃ config' routes', replaceAdvancedCustomForwardingRoutes config fwd = Ok config' ∧
       normalizeAdvancedCustomConfig config' = Ok routes' ∧
       with_path isAdvancedCustomManagementPath routes' = with_path isAdvancedCustomManagementPath routes ∧
       with_path (λ q, negb (isAdvancedCustomManagementPath q)) routes' = fs).
Proof.
  intros Hc Hk Hp. split_and!.
  - intros route r. by eapply replace_route.
  - by eapply remove_route.
  - intros fwd fs. by eapply replace_forwarding.
Qed.

(** ** What the editor offers *)

Definition editor_route (converter path : jsstring) : jsval :=
  let defaults := getAdvancedCustomConverterDefaults converter path in
  VObject [(js "incoming_path", VString path); (js "upstream_path", VString defaults.1);
           (js "converter", VString converter); (js "auth", defaults.2)].

(** What the editor offers is valid: every template, the configuration it
    starts with, the management routes it creates, and every route made of an
    offered converter, an incoming path offered for it and the defaults of the
    two, pass the validation, whatever the URL parser does. *)
Theorem editor_offers_valid parse_url :
  (∀ key config, (key, config) ∈ ADVANCED_CUSTOM_TEMPLATE_OPTIONS →
     validateAdvancedCustomConfig parse_url (Some config) = Ok None) ∧
  validateAdvancedCustomConfig parse_url (Some createAdvancedCustomConfig) = Ok None ∧
  (∀ p, isAdvancedCustomManagementPath p = true →
     validateAdvancedCustomConfig parse_url (Some (config_value [createAdvancedCustomManagementRoute p])) = Ok None) ∧
  (∀ c o, c ∈ ADVANCED_CUSTOM_CONVERTERS → o ∈ getAdvancedCustomIncomingPathOptions c →
     validateAdvancedCustomConfig parse_url (Some (config_value [editor_route c o.1])) = Ok None).
Proof.
  split_and!.
  - intros key config Hin. unfold ADVANCED_CUSTOM_TEMPLATE_OPTIONS in Hin.
    repeat (apply elem_of_cons in Hin as [[= -> ->]|Hin]; [vm_compute; reflexivity|]). by apply not_elem_of_nil in Hin.
  - vm_compute. reflexivity.
  - intros p Hp. unfold isAdvancedCustomManagementPath in Hp.
    apply orb_true_iff in Hp as [->%str_eqb_eq| ->%str_eqb_eq]; vm_compute; reflexivity.
  - intros c o Hc Ho. unfold ADVANCED_CUSTOM_CONVERTERS in Hc.
    repeat (apply elem_of_cons in Hc as [->|Hc];
      [vm_compute in Ho; repeat (apply elem_of_cons in Ho as [->|Ho]; [vm_compute; reflexivity|]);
       by apply not_elem_of_nil in Ho|]).
    by apply not_elem_of_nil in Hc.
Qed.

(** ** A channel with models behind one path *)

Definition sample_route (path : jsstring) (ms : list jsstring) : jsval :=
  VObject [(js "incoming_path", VString path); (js "upstream_path", VString (js " /v1/x "));
           (js "models", VArray (map VString ms))].
Definition sample_config : jsval :=
  config_value [sample_route (js "/v1/chat/completions") [js " gpt-a "; []]; sample_route (js "/v1/models") [];
                sample_route (js "/v1/chat/completions") []].
Definition sample_routes : list AdvancedCustomRoute :=
  match normalizeAdvancedCustomConfig sample_config with Ok rs => rs | Err _ => [] end.

Lemma sample_normal : normalizeAdvancedCustomConfig sample_config = Ok sample_routes.
Proof. reflexivity. Qed.

Lemma ascii_units s : forallb (λ c, c <? 65536)%N s = true → code_units s.
Proof.
  intros Hs. rewrite forallb_forall in Hs. apply Forall_forall. intros c Hc%list_elem_of_In. by apply N.ltb_lt, Hs.
Qed.

Lemma sample_declared : Forall declared_route sample_routes.
Proof.
  assert (∀ ms, forallb (forallb (λ c, c <? 65536)%N) ms = true → Forall code_units ms) as Hunits.
  { intros ms Hms. rewrite forallb_forall in Hms. apply Forall_forall. intros m Hm%list_elem_of_In. by apply ascii_units, Hms. }
  assert (∀ r p c, incoming_path r = VString p → converter r = VString c → auth r = None →
    forallb (forallb (λ c, c <? 65536)%N) (p :: c :: upstream_path r :: models r) = true → declared_route r) as Hroute.
  { intros r p c Hi Hc Ha Hall. apply Hunits in Hall. rewrite !Forall_cons in Hall. destruct Hall as (? & ? & ? & ?).
    split; [by exists p|done|by exists c|done|by rewrite Ha]. }
  repeat (apply Forall_cons; split; [eapply Hroute; [reflexivity..|vm_compute; reflexivity]|]). apply Forall_nil. done.
Qed.

Example config_round_trip_witness :
  length sample_routes = 3 ∧
  ∃ text, stringifyAdvancedCustomConfig sample_config = Ok text ∧ parseAdvancedCustomConfig text = Some sample_routes.
Proof.
  split; [vm_compute; reflexivity|].
  destruct (config_round_trip sample_config sample_routes sample_normal sample_declared) as (text & H1 & H2 & _).
  exists text. exact (conj H1 H2).
Defined.

(** The route for all models comes before one for some: the second is refused. *)
Example validation_exact_witness :
  ∃ routes r, normalizeAdvancedCustomConfig
      (config_value [sample_route (js "/v1/responses") []; sample_route (js "/v1/responses") [js "m"]]) = Ok routes ∧
    routes !! 1 = Some r ∧ ¬ route_valid (λ _, None) (take 1 routes) r.
Proof.
  destruct (validation_exact (λ _, None)
    (config_value [sample_route (js "/v1/responses") []; sample_route (js "/v1/responses") [js "m"]])) as [_ H].
  destruct (H (mkError (js "Catch-all route must be last for the same incoming path") (Some 1)) 1) as (routes & r & H1 & H2 & H3 & _);
    [vm_compute; reflexivity|reflexivity|].
  exists routes, r. exact (conj H1 (conj H2 H3)).
Defined.

Example management_and_forwarding_apart_witness :
  map path_of sample_routes = [js "/v1/chat/completions"; js "/v1/models"; js "/v1/chat/completions"] ∧
  ∃ config', replaceAdvancedCustomManagementRoute sample_config (js "/v1/models") None = Ok config' ∧
    getAdvancedCustomManagementRoute config' (js "/v1/models") = Ok None.
Proof.
  split; [vm_compute; reflexivity|].
  destruct (management_and_forwarding_apart sample_config sample_routes (js "/v1/models") sample_normal) as (_ & H & _).
  - repeat (apply Forall_cons; split; [eexists; vm_compute; reflexivity|]). apply Forall_nil. done.
  - vm_compute. reflexivity.
  - destruct H as (config' & routes' & H1 & _ & _ & H2). exists config'. split; [exact H1|]. apply H2. vm_compute. lia.
Defined.
