(* ===== verification/ModelMapping.v ===== *)
(** * features/channels/lib/model-mapping-rules.ts, model-mapping-validation.ts

    The model mapping of a channel: a JSON object from the model names of
    requests to those of the upstream. Pairs derived from selected names by a
    naming rule, their merging into the document, and the checks of the
    document against the models of the channel. *)

From S2P Require Import Prelude JsNumber JsText Types Runtime JsRegex JsMap JsValue JsObject.

(** ** Lists of models *)

Definition nonempty (s : jsstring) : bool := negb (s =s []).

Definition parseModelsString (modelsStr : jsstring) : list jsstring :=
  if nonempty modelsStr then List.filter nonempty (map trim (split_units 44%N modelsStr)) else [].
Definition formatModelsArray (models : list jsstring) : jsstring := join (js ",") (unique models).
Definition normalizeModelName (model : jsstring) : jsstring := trim model.

(** [JSON.parse] of an object, as it is enumerated. *)
Definition parsed_object (text : jsstring) : option (list (jsstring * jsval)) :=
  match json_parse text with Ok (VObject entries) => Some (own_order entries) | _ => None end.

Definition extractMappingSourceModels (modelMapping : jsstring) : list jsstring :=
  let trimmed := trim modelMapping in
  if trimmed =s [] then []
  else
    match parsed_object trimmed with
    | Some entries => unique (List.filter nonempty (map (λ e, trim e.1) entries))
    | None => []
    end.

Definition text_of (v : jsval) : option jsstring := match v with VString s => Some s | _ => None end.

Definition extractRedirectModels (mapping : jsstring) : list jsstring :=
  let trimmed := trim mapping in
  if trimmed =s [] then []
  else
    match parsed_object trimmed with
    | Some entries => unique (List.filter nonempty (omap (λ e, trim <$> text_of e.2) entries))
    | None => []
    end.

Definition hasModelConfigChanged (currentModels : list jsstring) (currentModelMapping : jsstring)
    (initialModels : list jsstring) (initialModelMapping : jsstring) : bool :=
  if bool_decide (initialModels = []) && (initialModelMapping =s []) then true
  else if negb (length currentModels =? length initialModels) then true
  else if existsb (λ p, negb (p.1 =s p.2)) (combine currentModels initialModels) then true
  else negb (trim currentModelMapping =s trim initialModelMapping).

Definition findMissingModelsInMapping (modelMapping : jsstring) (currentModels : list jsstring) : list jsstring :=
  if trim modelMapping =s [] then []
  else
    match parsed_object modelMapping with
    | Some entries =>
        let modelSet := map normalizeModelName currentModels in
        unique (List.filter (λ key, nonempty key && negb (str_in key modelSet)) (map (λ e, normalizeModelName e.1) entries))
    | None => []
    end.

(** The error, or that the document is valid. *)
Definition validateModelMappingJson (modelMapping : jsstring) : option jsstring :=
  if trim modelMapping =s [] then None
  else
    match json_parse modelMapping with
    | Ok (VObject entries) =>
        if existsb (λ e, negb (is_some (text_of e.2))) entries then Some (js "Model mapping values must be strings") else None
    | Ok _ => Some (js "Model mapping must be a valid JSON object")
    | Err _ => Some (js "Model mapping must be valid JSON format")
    end.

Definition findExposedTargetModels (modelMapping : jsstring) (currentModels : list jsstring) : list jsstring :=
  let modelSet := map normalizeModelName currentModels in
  List.filter (λ model, str_in (normalizeModelName model) modelSet) (extractRedirectModels modelMapping).

Record ModelCategories := mkCategories {
  normalizedCurrentModels : list jsstring;
  normalizedRedirectModels : list jsstring;
  classificationSet : list jsstring;
  redirectOnlySet : list jsstring
}.
Definition categorizeModelsWithRedirect (currentModels redirectModels : list jsstring) : ModelCategories :=
  let current := unique (List.filter nonempty (map normalizeModelName currentModels)) in
  let redirect := unique (List.filter nonempty (map normalizeModelName redirectModels)) in
  mkCategories current redirect (unique (current ++ redirect)) (List.filter (λ m, negb (str_in m current)) redirect).

(** ** Naming rules *)

Record ModelMappingPair := mkPair { from : jsstring; to : jsstring }.
Inductive ModelMappingDirection := upstream | request.
Inductive ModelMappingRule :=
  | StripPrefix (values : jsstring)
  | StripSuffix (values : jsstring)
  | AddPrefix (value : jsstring)
  | AddSuffix (value : jsstring)
  | Replace (find replaceWith : jsstring).

Record ModelMappingDerivation := mkDerivation {
  pairs : list ModelMappingPair;
  unchanged : list jsstring;
  conflicts : list jsstring
}.

(** The template of [replaceAll] after a match between [before] and [after]:
    two dollars stand for one, a dollar with an ampersand, a grave accent or an
    apostrophe for the match and the texts around it. *)
Fixpoint substitution (template matched before after : jsstring) : jsstring :=
  match template with
  | c :: ((d :: rest') as rest) =>
      if negb (c =? 36)%N then c :: substitution rest matched before after
      else if (d =? 36)%N then 36%N :: substitution rest' matched before after
      else if (d =? 38)%N then matched ++ substitution rest' matched before after
      else if (d =? 96)%N then before ++ substitution rest' matched before after
      else if (d =? 39)%N then after ++ substitution rest' matched before after
      else c :: substitution rest matched before after
  | _ => template
  end.

(** [text.replaceAll(find, template)], [find] not being empty: [before] is the
    text already passed and [skip] the units left of a match. *)
Fixpoint replace_all (find template before text : jsstring) (skip : nat) : jsstring :=
  match text with
  | [] => []
  | c :: rest =>
      match skip with
      | S skip => replace_all find template (before ++ [c]) rest skip
      | O =>
          if starts_with find text
          then substitution template find before (drop (length find) text)
               ++ replace_all find template (before ++ [c]) rest (length find - 1)
          else c :: replace_all find template (before ++ [c]) rest 0
      end
  end.

Definition rule_affixes (rule : ModelMappingRule) : list jsstring :=
  match rule with
  | StripPrefix values | StripSuffix values => List.filter nonempty (map trim (split_units 44%N values))
  | _ => []
  end.

Definition derived_name (rule : ModelMappingRule) (model : jsstring) : jsstring :=
  let affixes := rule_affixes rule in
  trim match rule with
       | StripPrefix _ =>
           match List.find (λ affix, starts_with affix model) affixes with
           | Some prefix => drop (length prefix) model
           | None => model
           end
       | StripSuffix _ =>
           match List.find (λ affix, ends_with affix model) affixes with
           | Some suffix => take (length model - length suffix) model
           | None => model
           end
       | AddPrefix value => value ++ model
       | AddSuffix value => model ++ value
       | Replace find replaceWith => if nonempty find then replace_all find replaceWith [] model 0 else model
       end.

Definition pair_of (direction : ModelMappingDirection) (model derived : jsstring) : ModelMappingPair :=
  match direction with upstream => mkPair derived model | request => mkPair model derived end.

(** A round of the loop, after [seen] and [requestNames]. *)
Record DeriveState := mkDerive {
  seen : list jsstring;
  requestNames : list jsstring;
  derivation : ModelMappingDerivation
}.
Definition derive_round (direction : ModelMappingDirection) (rule : ModelMappingRule) (st : DeriveState) (raw : jsstring)
    : DeriveState :=
  let model := trim raw in
  if negb (nonempty model) || str_in model (seen st) then st
  else
    let seen := seen st ++ [model] in
    let d := derivation st in
    let derived := derived_name rule model in
    if negb (nonempty derived) || (derived =s model) then
      mkDerive seen (requestNames st) (mkDerivation (pairs d) (unchanged d ++ [model]) (conflicts d))
    else
      let pair := pair_of direction model derived in
      if str_in (from pair) (requestNames st) then
        mkDerive seen (requestNames st) (mkDerivation (pairs d) (unchanged d) (conflicts d ++ [model]))
      else
        mkDerive seen (requestNames st ++ [from pair]) (mkDerivation (pairs d ++ [pair]) (unchanged d) (conflicts d)).

Definition deriveModelMappingPairs (models : list jsstring) (direction : ModelMappingDirection) (rule : ModelMappingRule)
    : ModelMappingDerivation :=
  derivation (foldl (derive_round direction rule) (mkDerive [] [] (mkDerivation [] [] [])) models).

(** ** Merging *)

(** The loop over the entries of the document. *)
Fixpoint copy_entries (entries : list (jsstring * jsval)) (mapping : list (jsstring * jsstring))
    : option (list (jsstring * jsstring)) :=
  match entries with
  | [] => Some mapping
  | (key, v) :: entries => text ← text_of v; copy_entries entries (set_key mapping key text)
  end.

(** The mapping of a document, or none when it is not a valid one. *)
Definition read_mapping (current : jsstring) : option (list (jsstring * jsstring)) :=
  let trimmed := trim current in
  if trimmed =s [] then Some [] else entries ← parsed_object trimmed; copy_entries entries [].

Definition add_pairs (pairs : list ModelMappingPair) (mapping : list (jsstring * jsstring)) : list (jsstring * jsstring) :=
  foldl (λ m pair, set_key m (from pair) (to pair)) mapping pairs.

Definition mapping_value (mapping : list (jsstring * jsstring)) : jsval := VObject (map (λ e, (e.1, VString e.2)) mapping).

Definition mergeModelMappingPairs (current : jsstring) (pairs : list ModelMappingPair) : option jsstring :=
  mapping ← read_mapping current;
  let mapping := add_pairs pairs mapping in
  Some (match mapping with [] => [] | _ => json_pretty 0 (mapping_value mapping) end).

Example derive_replace :
  derived_name (Replace (js "-") (js "$$[$&]")) (js "a-b-c") = js "a$[-]b$[-]c".
Proof. vm_compute. reflexivity. Qed.
Example derive_pairs :
  deriveModelMappingPairs [js "gpt-4"; js " gpt-4 "; js "x/gpt-4"; js "gpt-5"] upstream (StripPrefix (js "x/, gpt-"))
  = mkDerivation [mkPair (js "4") (js "gpt-4"); mkPair (js "gpt-4") (js "x/gpt-4"); mkPair (js "5") (js "gpt-5")] [] [].
Proof. vm_compute. reflexivity. Qed.
