(* ===== verification/ModelMappingFacts.v ===== *)
(** * Properties of model mappings

    What the naming rules derive from a selection, and that merging pairs into
    a mapping document is the update of the mapping it stands for. *)

From S2P Require Import Prelude JsNumber JsText Types CompileFacts Runtime RuntimeFacts JsRegex JsRegexFacts JsMap JsValue JsObject ModelMapping.

(** ** Deriving pairs *)

(** The distinct models of a selection, in order. *)
Definition selected (models : list jsstring) : list jsstring := unique (List.filter nonempty (map trim models)).

Definition own_side (direction : ModelMappingDirection) (p : ModelMappingPair) : jsstring :=
  match direction with upstream => to p | request => from p end.
Definition changed (rule : ModelMappingRule) (m : jsstring) : Prop := derived_name rule m ≠ [] ∧ derived_name rule m ≠ m.

Lemma nonempty_iff s : nonempty s = true ↔ s ≠ [].
Proof. unfold nonempty. by rewrite negb_true_iff, str_eqb_neq. Qed.

Lemma unique_snoc {K} `{EqDecision K} (l : list K) (k : K) : unique (l ++ [k]) = sadd (unique l) k.
Proof. unfold unique. by rewrite foldl_app. Qed.

Lemma selected_snoc ms raw :
  selected (ms ++ [raw]) = if negb (nonempty (trim raw)) || str_in (trim raw) (selected ms) then selected ms
                           else selected ms ++ [trim raw].
Proof.
  unfold selected. rewrite map_app, List.filter_app. cbn [map List.filter].
  destruct (nonempty (trim raw)); cbn [negb orb]; [|by rewrite app_nil_r]. rewrite unique_snoc. unfold sadd.
  destruct (str_in _ _) eqn:E; [apply str_in_elem in E; by rewrite decide_True|].
  rewrite decide_False; [done|]. intros Hin%str_in_elem. congruence.
Qed.

Section Derive.
Context (direction : ModelMappingDirection) (rule : ModelMappingRule).
#[local] Set Default Proof Using "Type".

Record derived_from (ms : list jsstring) (d : ModelMappingDerivation) : Prop := mkDerivedFrom {
  derived_all : map (own_side direction) (pairs d) ++ unchanged d ++ conflicts d ≡ₚ selected ms;
  derived_order : map (own_side direction) (pairs d) `sublist_of` selected ms ∧ unchanged d `sublist_of` selected ms ∧
    conflicts d `sublist_of` selected ms;
  derived_names : NoDup (map from (pairs d));
  derived_pairs : Forall (λ p, changed rule (own_side direction p) ∧
    p = pair_of direction (own_side direction p) (derived_name rule (own_side direction p))) (pairs d);
  derived_unchanged : Forall (λ m, ¬ changed rule m) (unchanged d);
  derived_conflicts : Forall (λ m, changed rule m ∧
    from (pair_of direction m (derived_name rule m)) ∈ map from (pairs d)) (conflicts d)
}.

Lemma own_side_pair m d : own_side direction (pair_of direction m d) = m.
Proof. by destruct direction. Qed.

Lemma sublist_snoc {A} (k l : list A) x : k `sublist_of` l → k `sublist_of` l ++ [x] ∧ k ++ [x] `sublist_of` l ++ [x].
Proof. intros Hk. split; [by apply sublist_inserts_r|by apply sublist_app]. Qed.

Lemma derive_round_spec ms st raw :
  seen st = selected ms → requestNames st = map from (pairs (derivation st)) → derived_from ms (derivation st) →
  let st' := derive_round direction rule st raw in
  seen st' = selected (ms ++ [raw]) ∧ requestNames st' = map from (pairs (derivation st')) ∧
  derived_from (ms ++ [raw]) (derivation st').
Proof.
  intros Hseen Hnames Hd. unfold derive_round. rewrite Hseen.
  destruct (negb (nonempty (trim raw)) || str_in (trim raw) (selected ms)) eqn:Hskip.
  { assert (selected (ms ++ [raw]) = selected ms) as Hsel by (by rewrite selected_snoc, Hskip).
    cbv zeta. rewrite Hsel. split_and!; [done..|]. destruct Hd. split; rewrite ?Hsel; done. }
  assert (selected (ms ++ [raw]) = selected ms ++ [trim raw]) as Hsel by (by rewrite selected_snoc, Hskip).
  destruct Hd as [Hall (Ho1 & Ho2 & Ho3) Hn Hp Hu Hc]. set (m := trim raw) in *. cbv zeta.
  destruct (sublist_snoc _ _ m Ho1) as [Ho1' Ho1s], (sublist_snoc _ _ m Ho2) as [Ho2' Ho2s], (sublist_snoc _ _ m Ho3) as [Ho3' Ho3s].
  destruct (negb (nonempty (derived_name rule m)) || (derived_name rule m =s m)) eqn:Hch.
  { assert (¬ changed rule m) as Hnc.
    { intros [H1%nonempty_iff H2%str_eqb_neq]. by rewrite H1, H2 in Hch. }
    cbn [seen requestNames derivation pairs unchanged conflicts]. rewrite Hsel. split_and!; [done..|].
    split; cbn [pairs unchanged conflicts]; rewrite ?Hsel; try done.
    - rewrite <- Hall, <- !app_assoc. do 2 apply Permutation_app_head. apply Permutation_app_comm.
    - apply Forall_app. split; [done|by constructor]. }
  assert (changed rule m) as Hm.
  { apply orb_false_iff in Hch as [H1%negb_false_iff%nonempty_iff H2%str_eqb_neq]. done. }
  set (pair := pair_of direction m (derived_name rule m)) in *.
  destruct (str_in (from pair) (requestNames st)) eqn:Hin.
  - apply str_in_elem in Hin. rewrite Hnames in Hin. cbn [seen requestNames derivation pairs unchanged conflicts]. rewrite Hsel.
    split_and!; [done..|]. split; cbn [pairs unchanged conflicts]; rewrite ?Hsel; try done.
    + rewrite <- Hall, !app_assoc. done.
    + apply Forall_app. split; [done|]. constructor; [|constructor]. done.
  - assert (from pair ∉ map from (pairs (derivation st))) as Hnew by (rewrite <- Hnames; intros H%str_in_elem; congruence).
    cbn [seen requestNames derivation pairs unchanged conflicts]. rewrite Hsel, map_app, Hnames. split_and!; [done..|].
    assert (own_side direction pair = m) as Hside by apply own_side_pair.
    split; cbn [pairs unchanged conflicts]; rewrite ?Hsel, ?map_app; cbn [map]; rewrite ?Hside; try done.
    + rewrite <- Hall, <- !app_assoc. apply Permutation_app_head.
      rewrite (Permutation_app_comm [m]). by rewrite <- app_assoc.
    + apply NoDup_app. split_and!; [done| |apply NoDup_singleton]. intros x Hx ->%list_elem_of_singleton. done.
    + apply Forall_app. split; [done|]. constructor; [|constructor]. by rewrite Hside.
    + eapply Forall_impl; [exact Hc|]. intros x [? ?]. split; [done|]. apply elem_of_app. by left.
Qed.

Lemma derive_spec models : derived_from models (deriveModelMappingPairs models direction rule).
Proof.
  unfold deriveModelMappingPairs. set (st0 := mkDerive [] [] (mkDerivation [] [] [])).
  enough (seen (foldl (derive_round direction rule) st0 models) = selected models ∧
    requestNames (foldl (derive_round direction rule) st0 models)
      = map from (pairs (derivation (foldl (derive_round direction rule) st0 models))) ∧
    derived_from models (derivation (foldl (derive_round direction rule) st0 models))) as (_ & _ & ?) by done.
  induction models as [|raw models IH] using rev_ind.
  - split_and!; [done..|]. by split; try constructor.
  - rewrite foldl_app. destruct IH as (Hs & Hn & Hd). by apply (derive_round_spec models).
Qed.

(** The pairs derived from a selection. Every distinct model of the
    selection ends, in order, in exactly one of three lists: the pairs, each of
    which joins the model with the different, non-empty name the rule derives
    from it; the unchanged models, for which the rule derives no other name;
    and the conflicts, whose request name an earlier pair has taken. No request
    name occurs in two pairs, and models taken as request names have no
    conflicts. *)
Theorem derived_pairs_partition models :
  let d := deriveModelMappingPairs models direction rule in
  map (own_side direction) (pairs d) ++ unchanged d ++ conflicts d ≡ₚ selected models ∧
  map (own_side direction) (pairs d) `sublist_of` selected models ∧
  NoDup (map from (pairs d)) ∧
  (∀ p, p ∈ pairs d → changed rule (own_side direction p) ∧
     p = pair_of direction (own_side direction p) (derived_name rule (own_side direction p))) ∧
  (∀ m, m ∈ unchanged d → ¬ changed rule m) ∧
  (∀ m, m ∈ conflicts d → changed rule m ∧ from (pair_of direction m (derived_name rule m)) ∈ map from (pairs d)) ∧
  (direction = request → conflicts d = []).
Proof.
  destruct (derive_spec models) as [Hall (Ho & _ & _) Hn Hp Hu Hc]. intros d. fold d in Hall, Ho, Hn, Hp, Hu, Hc.
  split_and!; [done..|by apply Forall_forall|by apply Forall_forall|by apply Forall_forall|].
  intros Hr. destruct (conflicts d) as [|m ms] eqn:Hm; [done|exfalso].
  apply Forall_cons in Hc as [[_ Hin] _]. rewrite Hr in Hin, Hall. cbn [pair_of from] in Hin.
  assert (NoDup (selected models)) as Hd by apply unique_NoDup. rewrite <- Hall in Hd.
  apply NoDup_app in Hd as (_ & Hdis & _). apply (Hdis m Hin). apply elem_of_app. right. left.
Qed.
End Derive.

(** ** Merging *)

Definition proto : jsstring := js "__proto__".
(** The keys of a mapping are distinct, and none is the prototype's. *)
Definition keys_ok {A} (m : list (jsstring * A)) : Prop := NoDup m.*1 ∧ proto ∉ m.*1.

Lemma map_set_keys {A} (m : list (jsstring * A)) k v :
  (map_set m k v).*1 = if decide (k ∈ m.*1) then m.*1 else m.*1 ++ [k].
Proof.
  induction m as [|[k0 v0] m IH]; cbn; [done|]. destruct (k0 =s k) eqn:E.
  - apply str_eqb_eq in E as ->. rewrite decide_True by set_solver. done.
  - apply str_eqb_neq in E. cbn. rewrite IH. repeat case_decide; set_solver.
Qed.

Lemma set_key_ok {A} (m : list (jsstring * A)) k v : keys_ok m → keys_ok (set_key m k v).
Proof.
  intros [Hd Hp]. unfold set_key. destruct (k =s js "__proto__") eqn:E; [done|]. apply str_eqb_neq in E.
  unfold keys_ok. rewrite map_set_keys. case_decide as Hk; [done|]. split.
  - apply NoDup_app. split_and!; [done| |apply NoDup_singleton]. intros x Hx ->%list_elem_of_singleton. done.
  - intros [?|H%list_elem_of_singleton]%elem_of_app; [done|]. by apply E.
Qed.

Lemma set_key_prefix {A} (m : list (jsstring * A)) k v : m.*1 `prefix_of` (set_key m k v).*1.
Proof.
  unfold set_key. destruct (_ =s _); [done|]. rewrite map_set_keys. case_decide; [done|]. by eexists.
Qed.

Lemma own_set_key {A} (m : list (jsstring * A)) k v k' :
  k' ≠ proto → own (set_key m k v) k' = if decide (k = k') then Some v else own m k'.
Proof.
  intros Hk'. unfold set_key. destruct (k =s js "__proto__") eqn:E; [|apply own_map_set].
  apply str_eqb_eq in E. rewrite decide_False; [done|]. intros <-. by apply Hk'.
Qed.

Lemma add_pairs_ok ps : ∀ m, keys_ok m → keys_ok (add_pairs ps m) ∧ m.*1 `prefix_of` (add_pairs ps m).*1.
Proof.
  induction ps as [|p ps IH]; intros m Hm; [by split|]. cbn. destruct (IH _ (set_key_ok m (from p) (to p) Hm)) as [? ?].
  split; [done|]. etrans; [apply set_key_prefix|done].
Qed.

(** The upstream name of the last pair of a request name. *)
Definition last_to (ps : list ModelMappingPair) (k : jsstring) : option jsstring :=
  own (reverse (map (λ p, (from p, to p)) ps)) k.

Lemma own_app {A} (a b : list (jsstring * A)) k : own (a ++ b) k = match own a k with Some v => Some v | None => own b k end.
Proof. induction a as [|[k0 v0] a IH]; cbn; [done|]. by destruct (k0 =s k). Qed.

Lemma own_add_pairs ps k : ∀ m, k ≠ proto →
  own (add_pairs ps m) k = match last_to ps k with Some t => Some t | None => own m k end.
Proof.
  induction ps as [|p ps IH]; intros m Hk; [done|]. cbn [add_pairs foldl].
  change (foldl (λ m pair, set_key m (from pair) (to pair)) ?x ps) with (add_pairs ps x).
  rewrite IH, own_set_key by done. unfold last_to. cbn [map]. rewrite reverse_cons, own_app.
  destruct (own (reverse _) k); [done|]. cbn. unfold str_eqb.
  by destruct (decide (from p = k)); [rewrite bool_decide_eq_true_2|rewrite bool_decide_eq_false_2].
Qed.

Lemma copy_entries_ok entries : ∀ m m', keys_ok m → copy_entries entries m = Some m' → keys_ok m'.
Proof.
  induction entries as [|[k v] entries IH]; intros m m' Hm; cbn; [by intros [= <-]|].
  destruct (text_of v) as [t|]; [|done]. cbn. apply IH. by apply set_key_ok.
Qed.

Lemma read_mapping_ok current m : read_mapping current = Some m → keys_ok m.
Proof.
  assert (keys_ok (@nil (jsstring * jsstring))) as Hnil by (split; [constructor|apply not_elem_of_nil]).
  unfold read_mapping. destruct (_ =s _); [by intros [= <-]|]. destruct (parsed_object _) as [entries|]; [|done]. cbn.
  by apply copy_entries_ok.
Qed.

(** Copying a mapping gives it back. *)
Lemma copy_entries_texts l : ∀ acc, keys_ok (acc ++ l) →
  copy_entries (map (λ e, (e.1, VString e.2)) l) acc = Some (acc ++ l).
Proof.
  induction l as [|[k t] l IH]; intros acc [Hd Hp]; cbn; [by rewrite app_nil_r|].
  rewrite fmap_app in Hd, Hp. cbn [fmap list_fmap fst] in Hd, Hp.
  assert (k ∉ acc.*1) as Hk by (apply NoDup_app in Hd as (_ & Hdis & _); intros Hin; apply (Hdis k Hin); left).
  assert (set_key acc k t = acc ++ [(k, t)]) as ->.
  { unfold set_key. rewrite (proj2 (str_eqb_neq k _)); [by apply map_set_new|]. intros ->. apply Hp. apply elem_of_app. right. left. }
  rewrite IH; [by rewrite <- app_assoc|]. unfold keys_ok. rewrite <- app_assoc, fmap_app. done.
Qed.

Lemma trim_bracketed a x b : is_space a = false → is_space b = false → trim (a :: x ++ [b]) = a :: x ++ [b].
Proof.
  intros Ha Hb. unfold trim, trim_start. cbn [drop_while]. rewrite Ha. unfold trim_end.
  change (a :: x ++ [b]) with ((a :: x) ++ [b]). rewrite reverse_app. cbn [reverse]. rewrite drop_while_none by done.
  by rewrite <- reverse_app, reverse_involutive.
Qed.

Definition units_ok (m : list (jsstring * jsstring)) : Prop := Forall (λ e, code_units e.1 ∧ code_units e.2) m.

Lemma mapping_document m : keys_ok m → units_ok m → document (mapping_value m).
Proof.
  intros [Hd _] Hu. constructor.
  - by rewrite <- list_fmap_compose.
  - apply Forall_map. eapply Forall_impl; [exact Hu|]. by intros e [? _].
  - apply Forall_map. eapply Forall_impl; [exact Hu|]. intros e [_ ?]. by constructor.
Qed.

Definition mapping_text (m : list (jsstring * jsstring)) : jsstring :=
  match m with [] => [] | _ => json_pretty 0 (mapping_value m) end.

Lemma parsed_mapping m : keys_ok m → units_ok m → m ≠ [] →
  trim (mapping_text m) = mapping_text m ∧ mapping_text m ≠ [] ∧
  json_parse (mapping_text m) = Ok (VObject (map (λ e, (e.1, VString e.2)) (own_order m))).
Proof.
  intros Hk Hu Hne. assert (mapping_text m = json_pretty 0 (mapping_value m)) as -> by (by destruct m).
  pose proof (mapping_document m Hk Hu) as Hdoc. split_and!.
  - unfold mapping_value. inversion Hdoc as [| | | | |l _ _ Hl]; subst. rewrite (json_print_object 2 0 _ Hl).
    unfold json_block. destruct (map (entry_text 2) _) as [|t ts]; [done|]. rewrite !app_assoc. by apply trim_bracketed.
  - destruct (document_opens 2 0 _ Hdoc) as (c & t & -> & _). done.
  - rewrite (json_parse_print 2 _ Hdoc). unfold mapping_value. cbn [enumerated]. do 2 f_equal.
    rewrite <- (own_order_map VString m). f_equal. rewrite map_map. apply map_ext. done.
Qed.

Lemma own_order_ok {A} (m : list (jsstring * A)) : keys_ok m → keys_ok (own_order m).
Proof. intros [? ?]. unfold keys_ok. by rewrite own_order_Permutation. Qed.

(** A written mapping reads back, its keys in the order of enumeration. *)
Lemma read_mapping_text m : keys_ok m → units_ok m → read_mapping (mapping_text m) = Some (own_order m).
Proof.
  intros Hk Hu. destruct m as [|e m]; [done|]. destruct (parsed_mapping (e :: m) Hk Hu) as (Ht & Hne & Hp); [done|].
  unfold read_mapping. rewrite Ht, (proj2 (str_eqb_neq _ []) Hne). unfold parsed_object. rewrite Hp. cbn [mbind option_bind].
  rewrite (own_order_map VString), own_order_idemp. apply (copy_entries_texts (own_order (e :: m)) []).
  cbn [app]. by apply own_order_ok.
Qed.

Lemma mapping_ext {A} (l l' : list (jsstring * A)) :
  NoDup l.*1 → l.*1 = l'.*1 → (∀ k, k ∈ l.*1 → own l k = own l' k) → l = l'.
Proof.
  revert l'. induction l as [|[k v] l IH]; intros [|[k' v'] l']; try done. cbn. intros [Hk Hd]%NoDup_cons [= <- Hks] Ho.
  assert (v = v') as <-.
  { specialize (Ho k ltac:(left)). rewrite str_eqb_refl in Ho. by injection Ho. }
  f_equal. apply IH; [done..|]. intros x Hx. specialize (Ho x ltac:(by right)).
  rewrite (proj2 (str_eqb_neq k x)) in Ho; [done|]. by intros ->.
Qed.

Lemma add_pairs_keys ps : ∀ l, (∀ p, p ∈ ps → from p = proto ∨ from p ∈ l.*1) → (add_pairs ps l).*1 = l.*1.
Proof.
  induction ps as [|p ps IH]; intros l Hin; [done|]. cbn.
  assert ((set_key l (from p) (to p)).*1 = l.*1) as Hset.
  { unfold set_key. destruct (from p =s js "__proto__") eqn:E; [done|]. apply str_eqb_neq in E.
    rewrite map_set_keys, decide_True; [done|]. destruct (Hin p) as [?|?]; [left|done|done]. }
  rewrite <- Hset. apply IH. intros q Hq. rewrite Hset. apply Hin. by right.
Qed.

(** Adding pairs again changes nothing. *)
Lemma add_pairs_again ps m : keys_ok m → add_pairs ps (own_order (add_pairs ps m)) = own_order (add_pairs ps m).
Proof.
  intros Hm. destruct (add_pairs_ok ps m Hm) as [HM _]. set (M := add_pairs ps m) in *.
  pose proof (own_order_ok M HM) as Ho. destruct (add_pairs_ok ps (own_order M) Ho) as [Hd Hpre]. symmetry. apply mapping_ext.
  - apply Ho.
  - assert (∀ p, p ∈ ps → from p = proto ∨ from p ∈ M.*1) as Hin.
    { intros p Hp. destruct (decide (from p = proto)) as [|Hn]; [by left|right].
      destruct (own M (from p)) as [t|] eqn:Ht; [apply own_Some_elem in Ht; apply list_elem_of_fmap; by exists (from p, t)|].
      unfold M in Ht. rewrite own_add_pairs in Ht by done. destruct (last_to ps (from p)) eqn:Hl; [done|].
      unfold last_to in Hl. apply own_None_notin in Hl. destruct Hl. apply list_elem_of_fmap. exists (from p, to p).
      split; [done|]. rewrite elem_of_reverse. apply list_elem_of_fmap. by exists p. }
    symmetry. apply add_pairs_keys. intros p Hp. destruct (Hin p Hp) as [?|?]; [by left|right]. by rewrite own_order_Permutation.
  - intros k Hk. assert (k ≠ proto) as Hkp by (intros ->; by apply Ho).
    rewrite own_add_pairs by done. destruct (last_to ps k) as [t|] eqn:Hl; [|done].
    rewrite own_own_order by apply HM. unfold M. rewrite own_add_pairs by done. by rewrite Hl.
Qed.

(** The text lists the entries in the order of enumeration. *)
Lemma mapping_text_order m : keys_ok m → units_ok m → mapping_text (own_order m) = mapping_text m.
Proof.
  intros Hk Hu. destruct (decide (m = [])) as [->|Hne]; [done|].
  assert (mapping_text (own_order m) = json_pretty 0 (mapping_value (own_order m))) as ->.
  { pose proof (own_order_Permutation m) as Hp. destruct (own_order m); [by apply Permutation_nil in Hp|done]. }
  assert (mapping_text m = json_pretty 0 (mapping_value m)) as -> by (by destruct m).
  assert (units_ok (own_order m)) as Huo by (unfold units_ok; by rewrite own_order_Permutation).
  pose proof (mapping_document m Hk Hu) as Hd1. pose proof (mapping_document _ (own_order_ok m Hk) Huo) as Hd2.
  unfold mapping_value in *. inversion Hd1 as [| | | | |l1 _ _ Hl1]; inversion Hd2 as [| | | | |l2 _ _ Hl2]; subst l1 l2.
  rewrite (json_print_object 2 0 _ Hl1), (json_print_object 2 0 _ Hl2). f_equal. f_equal. unfold entry_texts. rewrite !map_map.
  cbn [fst snd]. rewrite (own_order_map (λ t, (json_pretty (0 + 2) (VString t), enumerated (VString t))) m).
  rewrite (own_order_map (λ t, (json_pretty (0 + 2) (VString t), enumerated (VString t))) (own_order m)). by rewrite own_order_idemp.
Qed.


Example derived_pairs_partition_witness :
  conflicts (deriveModelMappingPairs [js "x/a"; js "y/a"; js "b"] upstream (StripPrefix (js "x/,y/"))) = [js "y/a"] ∧
  conflicts (deriveModelMappingPairs [js "x/a"; js "y/a"; js "b"] request (StripPrefix (js "x/,y/"))) = [].
Proof.
  split; [vm_compute; reflexivity|].
  pose proof (derived_pairs_partition request (StripPrefix (js "x/,y/")) [js "x/a"; js "y/a"; js "b"]) as H.
  cbv zeta in H. apply (proj2 (proj2 (proj2 (proj2 (proj2 (proj2 H)))))). reflexivity.
Defined.

Definition sample_document : jsstring := json_pretty 0 (mapping_value [(js "gpt-4", js "a"); (js "gpt-3", js "b")]).

