(* ===== verification/PriceFormat.v ===== *)
(** * lib/currency.ts, features/pricing/lib/price.ts and model-helpers.ts

    Amounts of money as texts: the display currency of the administrator, the
    digits that are shown, the prices of a model with token ratios and the ratio
    of the group they are shown for. [Intl.NumberFormat] and [Math.pow], which
    the language leaves to the implementation, are the class [NumberHost]. *)

From S2P Require Import Prelude JsNumber JsNumberFacts JsIntegers JsText Types Parser Compile Runtime JsRegex ModelMapping.
From Stdlib Require Import Floats.SpecFloat.

(** The options of [new Intl.NumberFormat(locale, options)]: a currency has its
    style and narrow symbol. The constructor throws a RangeError for a bad
    locale or number of digits. *)
Record NumberFormat := mkNumberFormat {
  nf_locale : option jsstring;
  nf_currency : option jsstring;
  nf_compact : bool;
  nf_minimumFractionDigits : option num;
  nf_maximumFractionDigits : num
}.
Class NumberHost := {
  intl_format : NumberFormat → num → result jsstring;
  math_pow : num → num → num
}.

Definition range_error : exn := NativeError (js "RangeError").

(** ** [Number.prototype.toFixed], [Number.parseFloat] *)

(** The integer nearest to [v * 10^f], the larger one on a tie. *)
Definition fixed_integer (v : Z * Z) (f : Z) : Z := ((2 * (v.1 * 10 ^ f) + v.2) / (2 * v.2))%Z.
Definition fixed_digits (n f : Z) : jsstring :=
  let m := dec_string (Z.to_N n) in
  if (f =? 0)%Z then m
  else
    let padded := replicate (Z.to_nat (f + 1 - Z.of_nat (length m))) 48%N ++ m in
    let k := length padded - Z.to_nat f in
    take k padded ++ js "." ++ drop k padded.
Definition toFixed (x digits : num) : result jsstring :=
  let f := trunc_Z digits in
  match digits with
  | S754_infinity _ => Err range_error
  | _ =>
      if (f <? 0)%Z || (100 <? f)%Z then Err range_error
      else
        Ok (match x with
            | S754_finite s m e =>
                let v := as_fraction m e in
                (if s then js "-" else [])
                ++ (if (10 ^ 21 * v.2 <=? v.1)%Z then num_to_string (S754_finite false m e)
                    else fixed_digits (fixed_integer v f) f)
            | S754_zero _ => fixed_digits 0 f
            | _ => num_to_string x
            end)
  end.

Definition parseFloat (text : jsstring) : num :=
  let '(neg, u) := scan_sign (trim_start text) in
  let x := if starts_with (js "Infinity") u then infinity
           else match scan_decimal u with Some (x, _) => x | None => nan end in
  if neg then num_neg x else x.

(** ** The configured currency *)
Record CurrencyConfig := mkCurrency {
  displayInCurrency : bool;
  quotaDisplayType : jsstring;
  quotaPerUnit : num;
  usdExchangeRate : num;
  customCurrencySymbol : jsstring;
  customCurrencyExchangeRate : num
}.
Definition DEFAULT_CURRENCY_CONFIG : CurrencyConfig :=
  mkCurrency true (js "USD") (num_of_Z 500000) (num_of_Z 1) [164%N] (num_of_Z 1).

(** What the store keeps: properties of a restored configuration can be absent. *)
Record StoredCurrency := mkStored {
  st_displayInCurrency : option bool;
  st_quotaDisplayType : option jsstring;
  st_quotaPerUnit : option num;
  st_usdExchangeRate : option num;
  st_customCurrencySymbol : option jsstring;
  st_customCurrencyExchangeRate : option num
}.
Definition stored (c : CurrencyConfig) : StoredCurrency :=
  mkStored (Some (displayInCurrency c)) (Some (quotaDisplayType c)) (Some (quotaPerUnit c))
    (Some (usdExchangeRate c)) (Some (customCurrencySymbol c)) (Some (customCurrencyExchangeRate c)).

(** [value && value > 0 ? value : fallback]. *)
Definition positive_or (value : option num) (fallback : num) : num :=
  match value with
  | Some v => if num_ltb zero v then v else fallback
  | None => fallback
  end.
Definition nonempty_or (t fallback : jsstring) : jsstring :=
  match t with [] => fallback | _ => t end.

Definition getConfig (store : option StoredCurrency) : CurrencyConfig :=
  let d := DEFAULT_CURRENCY_CONFIG in
  let currency := default (stored d) store in
  mkCurrency (default (displayInCurrency d) (st_displayInCurrency currency))
    (default (quotaDisplayType d) (st_quotaDisplayType currency))
    (positive_or (st_quotaPerUnit currency) (quotaPerUnit d))
    (positive_or (st_usdExchangeRate currency) (usdExchangeRate d))
    (nonempty_or (default [] (trim <$> st_customCurrencySymbol currency)) (customCurrencySymbol d))
    (positive_or (st_customCurrencyExchangeRate currency) (customCurrencyExchangeRate d)).

Definition isCurrencyDisplayType (value : jsval) : bool :=
  match value with
  | VString s => str_in s [js "USD"; js "CNY"; js "TOKENS"; js "CUSTOM"]
  | _ => false
  end.
Definition parseCurrencyDisplayType (value : jsval) (fallback : jsstring) : jsstring :=
  match value with
  | VString s => if isCurrencyDisplayType value then s else fallback
  | _ => fallback
  end.

Inductive DisplayMeta :=
  | CurrencyMeta (symbol currencyCode : jsstring) (exchangeRate : num)
  | CustomMeta (symbol : jsstring) (exchangeRate : num)
  | TokensMeta (perUnit : num).

Definition dollars : DisplayMeta := CurrencyMeta (js "$") (js "USD") (num_of_Z 1).
Definition getDisplayMeta (config : CurrencyConfig) : DisplayMeta :=
  let type := quotaDisplayType config in
  if type =s js "CNY" then CurrencyMeta [165%N] (js "CNY") (usdExchangeRate config)
  else if type =s js "CUSTOM" then
    CustomMeta (customCurrencySymbol config) (customCurrencyExchangeRate config)
  else if type =s js "TOKENS" then TokensMeta (quotaPerUnit config)
  else dollars.
Definition getBillingDisplayMeta (config : CurrencyConfig) : DisplayMeta :=
  match getDisplayMeta config with TokensMeta _ => dollars | meta => meta end.

(** ** Options *)
Record CurrencyFormatOptions := mkOptions {
  o_digitsLarge : option num;
  o_digitsSmall : option num;
  o_abbreviate : option bool;
  o_minimumNonZero : option num;
  o_compact : option bool;
  o_showSymbol : option bool;
  o_locale : option jsstring
}.
Record ResolvedOptions := mkResolved {
  digitsLarge : num;
  digitsSmall : num;
  abbreviate : bool;
  minimumNonZero : num;
  compact : bool;
  showSymbol : bool;
  locale : option jsstring
}.
Definition DEFAULT_FORMAT_OPTIONS : ResolvedOptions :=
  mkResolved (num_of_Z 2) (num_of_Z 4) true zero false true None.
Definition mergeOptions (options : option CurrencyFormatOptions) : ResolvedOptions :=
  match options with
  | None => DEFAULT_FORMAT_OPTIONS
  | Some o =>
      let d := DEFAULT_FORMAT_OPTIONS in
      mkResolved (default (digitsLarge d) (o_digitsLarge o)) (default (digitsSmall d) (o_digitsSmall o))
        (default (abbreviate d) (o_abbreviate o)) (default (minimumNonZero d) (o_minimumNonZero o))
        (default (compact d) (o_compact o)) (default (showSymbol d) (o_showSymbol o))
        (match o_locale o with Some l => Some l | None => locale d end)
  end.

(** ** Numbers as texts *)
Definition one : num := num_of_Z 1.
Definition getFractionDigits (value large small : num) : num :=
  if num_leb one (num_abs value) then large else small.
Definition getCurrencyFractionDigits (value : num) (options : option CurrencyFormatOptions) : num :=
  let merged := mergeOptions options in
  getFractionDigits value (digitsLarge merged) (digitsSmall merged).

Definition is_zero_digit (c : code_unit) : bool := (c =? 48)%N.
Definition drop_end_zeros (s : jsstring) : jsstring := reverse (drop_while is_zero_digit (reverse s)).
(** [/(\.[0-9]*?)0+$/] replaced by its group: from the leftmost point that is
    followed by digits only, the last being zero. *)
Fixpoint replace_zeros (s : jsstring) : jsstring :=
  match s with
  | [] => []
  | c :: r =>
      if (c =? 46)%N && forallb is_digit r && ends_with (js "0") r then c :: drop_end_zeros r
      else c :: replace_zeros r
  end.
Definition drop_end_point (s : jsstring) : jsstring :=
  if ends_with (js ".") s then take (length s - 1) s else s.
Definition removeTrailingZeros (str : jsstring) : jsstring :=
  if includes (js ".") str then drop_end_point (replace_zeros str) else str.

Definition thousand : num := num_of_Z 1000.
Definition formatNumberWithSuffix (value large small : num) (abbreviated : bool) : result jsstring :=
  if abbreviated && num_leb thousand (num_abs value) then
    text ← toFixed (num_div value thousand) one;
    Ok (removeTrailingZeros text ++ js "k")
  else
    text ← toFixed value (getFractionDigits value large small);
    Ok (removeTrailingZeros text).

Section Format.
Context `{NumberHost}.

Definition display_threshold (digits minimum : num) : num :=
  if num_ltb zero minimum then minimum else math_pow (num_of_Z 10) (num_neg digits).
Definition adjustForMinimum (value digits minimum : num) : num :=
  if num_eqb value zero then value
  else
    let threshold := display_threshold digits minimum in
    let abs := num_abs value in
    if num_ltb zero abs && num_ltb abs threshold then
      if num_ltb zero value then threshold else num_neg threshold
    else value.

Definition compact_tokens (l : option jsstring) : NumberFormat := mkNumberFormat l None true None one.
Definition currency_format (options : ResolvedOptions) (code : option jsstring) (digits : num) : NumberFormat :=
  mkNumberFormat (locale options) code (compact options) (Some zero) (if compact options then one else digits).

Definition formatCurrencyValue (value : num) (options : ResolvedOptions) (meta : DisplayMeta) : result jsstring :=
  let digits := getFractionDigits value (digitsLarge options) (digitsSmall options) in
  let adjustedValue := adjustForMinimum value digits (minimumNonZero options) in
  match meta with
  | TokensMeta _ =>
      if compact options then intl_format (compact_tokens (locale options)) value
      else formatNumberWithSuffix value (digitsLarge options) (digitsSmall options) (abbreviate options)
  | CurrencyMeta _ code _ =>
      intl_format (currency_format options (if showSymbol options then Some code else None) digits) adjustedValue
  | CustomMeta symbol _ =>
      decimal ← intl_format (currency_format options None digits) adjustedValue;
      Ok (if showSymbol options then symbol ++ js " " ++ decimal else decimal)
  end.

(** ** Amounts; an absent amount is [null] or [undefined]. *)
Definition amount (a : option num) : option num :=
  a ← a; if is_nan a then None else Some a.

Context (store : option StoredCurrency).

Definition formatCurrencyFromUSD (amountUSD : option num) (options : option CurrencyFormatOptions)
    : result jsstring :=
  match amount amountUSD with
  | None => Ok (js "-")
  | Some usd =>
      let config := getConfig store in
      let merged := mergeOptions options in
      match getDisplayMeta config with
      | TokensMeta _ =>
          let tokens := num_mul usd (quotaPerUnit config) in
          if compact merged then intl_format (compact_tokens (locale merged)) tokens
          else formatNumberWithSuffix tokens zero (digitsSmall merged) (abbreviate merged)
      | CurrencyMeta _ _ rate | CustomMeta _ rate =>
          formatCurrencyValue (num_mul usd rate) merged (getDisplayMeta config)
      end
  end.

Definition formatBillingCurrencyFromUSD (amountUSD : option num) (options : option CurrencyFormatOptions)
    : result jsstring :=
  match amount amountUSD with
  | None => Ok (js "-")
  | Some usd =>
      let meta := getBillingDisplayMeta (getConfig store) in
      let value :=
        match meta with CurrencyMeta _ _ rate | CustomMeta _ rate => num_mul usd rate | TokensMeta _ => usd end in
      formatCurrencyValue value (mergeOptions options) meta
  end.

Definition formatQuotaWithCurrency (quota : option num) (options : option CurrencyFormatOptions)
    : result jsstring :=
  match amount quota with
  | None => Ok (js "-")
  | Some quota => formatCurrencyFromUSD (Some (num_div quota (quotaPerUnit (getConfig store)))) options
  end.

Definition formatLocalCurrencyAmount (local_amount : option num) (options : option CurrencyFormatOptions)
    : result jsstring :=
  match amount local_amount with
  | None => Ok (js "-")
  | Some local_amount =>
      formatCurrencyValue local_amount (mergeOptions options) (getBillingDisplayMeta (getConfig store))
  end.

Definition getCurrencyLabel : jsstring :=
  let config := getConfig store in
  match getDisplayMeta config with
  | TokensMeta _ => js "Tokens"
  | meta =>
      if quotaDisplayType config =s js "CNY" then js "CNY"
      else if quotaDisplayType config =s js "CUSTOM" then
        match meta with CustomMeta symbol _ => symbol | _ => js "Custom" end
      else js "USD"
  end.
Definition isCurrencyDisplayEnabled : bool :=
  match getDisplayMeta (getConfig store) with TokensMeta _ => false | _ => true end.
End Format.

(** ** model-helpers.ts *)

Definition FILTER_ALL : jsstring := js "all".
Definition EXCLUDED_GROUPS : list jsstring := [[]; js "auto"].
Definition QUOTA_TYPE_REQUEST : num := num_of_Z 1.
Definition QUOTA_TYPE_TOKEN : num := zero.

(** The fields of a model that prices depend on besides its billing; values of
    [group_ratio] that are not numbers are left out by every reader. *)
Record ModelRatios := mkRatios {
  model_ratio : num;
  completion_ratio : num;
  model_price : option num;
  cache_ratio : option num;
  create_cache_ratio : option num;
  image_ratio : option num;
  audio_ratio : option num;
  audio_completion_ratio : option num;
  enable_groups : option (list jsstring);
  group_ratio : option (list (jsstring * num))
}.
Definition enabled_groups (model : ModelRatios) : list jsstring := default [] (enable_groups model).

Definition getAvailableGroups {A} (model : ModelRatios) (usableGroup : list (jsstring * A)) : list jsstring :=
  List.filter (λ g, str_in g (enabled_groups model))
    (List.filter (λ g, negb (str_in g EXCLUDED_GROUPS)) (map fst usableGroup)).

(** A ratio that is a finite number. *)
Definition finite_ratio (groupRatio : list (jsstring * num)) (group : jsstring) : option num :=
  ratio ← own groupRatio group; if is_finite ratio then Some ratio else None.
Definition getConfiguredGroupRatio (groupRatio : list (jsstring * num)) (group : jsstring) : num :=
  default one (finite_ratio groupRatio group).

Definition min_ratio (groupRatio : list (jsstring * num)) (groups : list jsstring) : num :=
  foldl (λ minRatio group,
    match finite_ratio groupRatio group with
    | Some ratio => if num_ltb ratio minRatio then ratio else minRatio
    | None => minRatio
    end) infinity groups.

Definition getDisplayGroupRatio (model : ModelRatios) (selectedGroup : option jsstring) : num :=
  let groups := enabled_groups model in
  let groupRatio := default [] (group_ratio model) in
  let selected :=
    match selectedGroup with
    | Some g => negb (g =s []) && negb (g =s FILTER_ALL) && str_in g groups
    | None => false
    end in
  if selected then getConfiguredGroupRatio groupRatio (default [] selectedGroup)
  else
    match groups with
    | [] => one
    | _ =>
        let minRatio := min_ratio groupRatio groups in
        if num_eqb minRatio infinity then one else minRatio
    end.

(** [$] templates in a model's name are expanded, as [replaceAll] does. *)
Definition replaceModelInPath (path modelName : jsstring) : jsstring :=
  replace_all (js "{model}") modelName [] path 0.

(** ** price.ts *)

Definition symbol_number_suffix : regex :=
  rseq [RGroup 1 (RStar (RUnit (λ c, negb (is_digit c || (c =? 45)%N))));
        RGroup 2 (rseq [rplus (RUnit (λ c, is_digit c || (c =? 45) || (c =? 44))%N);
                        roption (rtext (js ".")); RStar (RUnit is_digit)]);
        RGroup 3 (roption (rtext (js "k")))].
Definition all_zeros (s : jsstring) : bool := negb (bool_decide (s = [])) && forallb is_zero_digit s.
(** [.replace(/\.?0+$/, '')]. *)
Fixpoint cut_end_zeros (s : jsstring) : jsstring :=
  match s with
  | [] => []
  | c :: r => if all_zeros s || ((c =? 46)%N && all_zeros r) then [] else c :: cut_end_zeros r
  end.

Definition stripTrailingZeros (formatted : jsstring) : result jsstring :=
  match match_whole symbol_number_suffix formatted with
  | None => Ok formatted
  | Some caps =>
      let cleanNumber := List.filter (λ c, negb (c =? 44)%N) (cap caps 2) in
      let parsed := parseFloat cleanNumber in
      if is_nan parsed then Ok formatted
      else
        let printed := num_to_string parsed in
        result ←
          (if includes (js "e") printed then
             fixed ← toFixed parsed (num_of_Z 20);
             Ok (cut_end_zeros fixed)
           else Ok printed);
        Ok (cap caps 1 ++ result ++ cap caps 3)
  end.

Inductive PriceType :=
  | price_input | price_output | price_cache | price_create_cache | price_image
  | price_audio_input | price_audio_output.
Inductive TokenUnit := unit_M | unit_K.
Definition TOKEN_UNIT_DIVISORS (u : TokenUnit) : num :=
  match u with unit_M => one | unit_K => thousand end.

Definition hasRatio (value : option num) : bool :=
  match value with Some v => is_finite v | None => false end.
(** [hasRatio(r) ? base * Number(r) : NaN]. *)
Definition times_ratio (base : num) (value : option num) : num :=
  if hasRatio value then num_mul base (default nan value) else nan.

Definition calculateTokenPrice (model : ModelRatios) (type : PriceType) (ratio : num) : num :=
  let base := num_mul (num_mul (model_ratio model) (num_of_Z 2)) ratio in
  match type with
  | price_input => base
  | price_output => num_mul base (completion_ratio model)
  | price_cache => times_ratio base (cache_ratio model)
  | price_create_cache => times_ratio base (create_cache_ratio model)
  | price_image => times_ratio base (image_ratio model)
  | price_audio_input => times_ratio base (audio_ratio model)
  | price_audio_output =>
      if hasRatio (audio_ratio model) && hasRatio (audio_completion_ratio model) then
        num_mul (num_mul base (default nan (audio_ratio model))) (default nan (audio_completion_ratio model))
      else nan
  end.

Definition applyRechargeRate (price : num) (showWithRecharge : bool) (priceRate rate : num) : num :=
  if showWithRecharge then num_div (num_mul price priceRate) rate else price.

(** The three options of each call. *)
Definition price_options (small : Z) (symbol : option bool) : CurrencyFormatOptions :=
  mkOptions (Some (num_of_Z 4)) (Some (num_of_Z small)) (Some false) None None symbol None.

Section Prices.
Context `{NumberHost} (store : option StoredCurrency).
Context (showWithRecharge : bool) (priceRate exchange_rate : num).

Definition token_price_text (model : ModelRatios) (type : PriceType) (unit : TokenUnit) (ratio : num)
    (symbol : option bool) : result jsstring :=
  let priceInUSD :=
    applyRechargeRate (calculateTokenPrice model type ratio) showWithRecharge priceRate exchange_rate in
  formatBillingCurrencyFromUSD store (Some (num_div priceInUSD (TOKEN_UNIT_DIVISORS unit)))
    (Some (price_options 6 symbol)).
Definition request_price_text (model : ModelRatios) (ratio : num) (symbol : option bool) : result jsstring :=
  let price := match model_price model with
               | Some p => if is_nan p || num_eqb p zero then zero else p
               | None => zero
               end in
  let priceInUSD := applyRechargeRate (num_mul price ratio) showWithRecharge priceRate exchange_rate in
  formatBillingCurrencyFromUSD store (Some priceInUSD) (Some (price_options 4 symbol)).

(** The quota type is a field of the model outside of [ModelRatios]. *)
Definition by_request (quota_type : num) : bool := num_eqb quota_type QUOTA_TYPE_REQUEST.

Definition formatPrice (quota_type : num) (model : ModelRatios) (type : PriceType) (unit : TokenUnit)
    (selectedGroup : option jsstring) (symbol : bool) : result jsstring :=
  if by_request quota_type then Ok (js "-")
  else token_price_text model type unit (getDisplayGroupRatio model selectedGroup) (Some symbol).
Definition formatGroupPrice (quota_type : num) (model : ModelRatios) (group : jsstring) (type : PriceType)
    (unit : TokenUnit) (groupRatio : list (jsstring * num)) : result jsstring :=
  if by_request quota_type then Ok (js "-")
  else token_price_text model type unit (getConfiguredGroupRatio groupRatio group) None.
Definition formatFixedPrice (quota_type : num) (model : ModelRatios) (group : jsstring)
    (groupRatio : list (jsstring * num)) : result jsstring :=
  if by_request quota_type then request_price_text model (getConfiguredGroupRatio groupRatio group) None
  else Ok (js "-").
Definition formatRequestPrice (quota_type : num) (model : ModelRatios) (selectedGroup : option jsstring)
    (symbol : bool) : result jsstring :=
  if by_request quota_type then request_price_text model (getDisplayGroupRatio model selectedGroup) (Some symbol)
  else Ok (js "-").
End Prices.

(** * Facts *)

(** ** The ratio of the group *)

Lemma finite_not_nan x : is_finite x = true → is_nan x = false.
Proof. by destruct x. Qed.
Lemma finite_ratio_finite groupRatio g x : finite_ratio groupRatio g = Some x → is_finite x = true.
Proof. unfold finite_ratio. destruct (own groupRatio g) as [y|]; cbn; [|done]. destruct (is_finite y) eqn:E; [|done]. by intros [= <-]. Qed.

(** The loop over the groups: the running minimum is below what it started from
    and every ratio, and is one of them. *)
Lemma min_ratio_spec groupRatio groups : ∀ start, is_nan start = false →
  let m := foldl (λ minRatio group,
    match finite_ratio groupRatio group with
    | Some ratio => if num_ltb ratio minRatio then ratio else minRatio
    | None => minRatio
    end) start groups in
  is_nan m = false ∧ num_leb m start = true ∧
  (∀ g x, g ∈ groups → finite_ratio groupRatio g = Some x → num_leb m x = true) ∧
  (m = start ∨ ∃ g, g ∈ groups ∧ finite_ratio groupRatio g = Some m).
Proof.
  induction groups as [|g groups IH]; intros start Hs; cbn [foldl].
  - split_and!; [done|by apply num_leb_refl|set_solver|by left].
  - destruct (finite_ratio groupRatio g) as [x|] eqn:Hg.
    + pose proof (finite_not_nan _ (finite_ratio_finite _ _ _ Hg)) as Hx.
      set (start' := if num_ltb x start then x else start).
      assert (is_nan start' = false ∧ num_leb start' start = true ∧ num_leb start' x = true ∧ (start' = start ∨ start' = x)) as (Hn & Hle & Hlx & Hor).
      { unfold start'. destruct (num_ltb x start) eqn:E; split_and!; auto; num_order. }
      destruct (IH start' Hn) as (H1 & H2 & H3 & H4). split_and!; [done|by eapply num_leb_trans| |].
      * intros g' x' [->|Hin]%elem_of_cons Hx'; [|by eapply H3]. rewrite Hg in Hx'. injection Hx' as <-. by eapply num_leb_trans.
      * destruct H4 as [->|(g' & Hin & Hg')]; [|right; exists g'; set_solver].
        destruct Hor as [->| ->]; [by left|right; exists g; set_solver].
    + destruct (IH start Hs) as (H1 & H2 & H3 & H4). split_and!; [done|done| |].
      * intros g' x' [->|Hin]%elem_of_cons Hx'; [by rewrite Hg in Hx'|by eapply H3].
      * destruct H4 as [|(g' & Hin & Hg')]; [by left|right; exists g'; set_solver].
Qed.

(** The group a price is shown for: the filter, when the model has that group. *)
Definition shown_group (model : ModelRatios) (selectedGroup : option jsstring) : option jsstring :=
  g ← selectedGroup;
  if bool_decide (g ≠ [] ∧ g ≠ FILTER_ALL ∧ g ∈ enabled_groups model) then Some g else None.

(** The ratio of a price in the model square is a finite number. With a
    group filter that applies to the model it is the configured ratio of that
    group (1 when none is configured); otherwise it is the least of the
    configured ratios of the model's groups, one of them, and 1 when no group
    of the model has a configured ratio. *)
Theorem display_ratio_least model selectedGroup :
  let r := getDisplayGroupRatio model selectedGroup in
  let groupRatio := default [] (group_ratio model) in
  is_finite r = true ∧
  match shown_group model selectedGroup with
  | Some g => r = default one (finite_ratio groupRatio g)
  | None =>
      (∀ g x, g ∈ enabled_groups model → finite_ratio groupRatio g = Some x → num_leb r x = true) ∧
      ((∃ g, g ∈ enabled_groups model ∧ finite_ratio groupRatio g = Some r) ∨
       ((∀ g, g ∈ enabled_groups model → finite_ratio groupRatio g = None) ∧ r = one))
  end.
Proof.
  cbn zeta. set (gr := default [] (group_ratio model)). unfold getDisplayGroupRatio. fold gr.
  assert (match selectedGroup with
    | Some g => negb (g =s []) && negb (g =s FILTER_ALL) && str_in g (enabled_groups model)
    | None => false end = bool_decide (is_Some (shown_group model selectedGroup)) ∧
    ∀ g, shown_group model selectedGroup = Some g → selectedGroup = Some g) as [Hsel Hg].
  { unfold shown_group. destruct selectedGroup as [g|]; cbn; [|done].
    destruct (bool_decide_reflect (g ≠ [] ∧ g ≠ FILTER_ALL ∧ g ∈ enabled_groups model)) as [(H1 & H2 & H3)|Hn].
    - split; [|by intros ? [= <-]]. rewrite bool_decide_true by eauto. apply str_in_elem in H3.
      by rewrite H3, (proj2 (str_eqb_neq _ _) H1), (proj2 (str_eqb_neq _ _) H2).
    - split; [|done]. rewrite bool_decide_false by (by intros [? ?]). apply not_true_iff_false. intros [[H1 H2]%andb_true_iff H3%str_in_elem]%andb_true_iff.
      apply Hn. rewrite negb_true_iff in H1, H2. by apply str_eqb_neq in H1, H2. }
  rewrite Hsel. destruct (shown_group model selectedGroup) as [g|].
  - rewrite bool_decide_true by eauto. rewrite (Hg g eq_refl). cbn. split; [|done]. unfold getConfiguredGroupRatio.
    destruct (finite_ratio gr g) eqn:E; cbn; [by eapply finite_ratio_finite|done].
  - rewrite bool_decide_false by (by intros [? ?]). destruct (enabled_groups model) as [|g0 groups] eqn:Egroups.
    { split; [done|]. split; [set_solver|]. right. split; [set_solver|done]. }
    rewrite <- Egroups. clear Hsel Hg Egroups. set (groups' := enabled_groups model).
    destruct (min_ratio_spec gr groups' infinity eq_refl) as (Hn & _ & Hall & Hor). fold (min_ratio gr groups') in *.
    destruct Hor as [Hm|(g & Hin & Hg)]; [rewrite Hm in *|].
    + change (num_eqb infinity infinity) with true. cbn match. split; [done|].
      assert (∀ g, g ∈ groups' → finite_ratio gr g = None) as Hnone.
      { intros g Hin. destruct (finite_ratio gr g) as [x|] eqn:Hx; [|done]. pose proof (Hall g x Hin Hx) as Hle.
        apply finite_ratio_finite in Hx. destruct x as [[]| | |[] ? ?]; vm_compute in Hle; done. }
      split; [|by right]. intros g x Hin Hx. by rewrite Hnone in Hx.
    + pose proof (finite_ratio_finite _ _ _ Hg) as Hf.
      replace (num_eqb (min_ratio gr groups') infinity) with false
        by (symmetry; by destruct (min_ratio gr groups') as [[]| | |[] ? ?]).
      split; [done|]. split; [done|]. left. by exists g.
Qed.

(** ** Digits as texts *)

(** [text] is [n / 10^f] in decimal notation, with the sign [s], without zeros
    at the end of its fraction. *)
Definition denotes (text : jsstring) (s : bool) (n f : Z) : Prop :=
  ∃ ip fp, text = (if s then js "-" else []) ++ ip ++ match fp with [] => [] | _ => js "." ++ fp end ∧
    forallb is_digit (ip ++ fp) = true ∧ ip ≠ [] ∧ last fp ≠ Some 48%N ∧ (Z.of_nat (length fp) ≤ f)%Z ∧
    (Z.of_N (dec_value (ip ++ fp)) * 10 ^ (f - Z.of_nat (length fp)) = n)%Z.

Lemma digit_not_point c : is_digit c = true → (c =? 46)%N = false.
Proof. unfold is_digit. rewrite andb_true_iff, !N.leb_le, N.eqb_neq. lia. Qed.
Lemma digits_no_point s : forallb is_digit s = true → includes (js ".") s = false ∧ replace_zeros s = s.
Proof.
  induction s as [|c s IH]; [done|]. cbn [forallb]. intros [Hc Hs]%andb_true_iff. destruct (IH Hs) as [IH1 IH2].
  pose proof (digit_not_point c Hc) as Hp. cbn [includes replace_zeros]. rewrite Hp. cbn [andb]. rewrite IH1, IH2. split; [|done].
  change (starts_with (js ".") (c :: s)) with ((46 =? c)%N && true). by rewrite N.eqb_sym, Hp.
Qed.
Lemma replace_zeros_digits ip r : forallb is_digit ip = true → replace_zeros (ip ++ r) = ip ++ replace_zeros r.
Proof.
  induction ip as [|c ip IH]; [done|]. cbn [forallb app]. intros [Hc Hs]%andb_true_iff. cbn [replace_zeros].
  by rewrite (digit_not_point c Hc), IH.
Qed.

Lemma drop_while_zeros s : ∃ k, s = replicate k 48%N ++ drop_while is_zero_digit s ∧ head (drop_while is_zero_digit s) ≠ Some 48%N.
Proof.
  induction s as [|c s (k & IH & Hh)]; [by exists 0|]. cbn [drop_while]. destruct (is_zero_digit c) eqn:E.
  - apply N.eqb_eq in E as ->. exists (S k). cbn. by rewrite <- IH.
  - exists 0. split; [done|]. cbn. intros [= ->]. done.
Qed.
Lemma drop_end_zeros_spec s : ∃ k, s = drop_end_zeros s ++ replicate k 48%N ∧ last (drop_end_zeros s) ≠ Some 48%N.
Proof.
  destruct (drop_while_zeros (reverse s)) as (k & Hs & Hh). exists k. unfold drop_end_zeros. split.
  - apply (f_equal reverse) in Hs. by rewrite reverse_involutive, reverse_app, reverse_replicate in Hs.
  - by rewrite last_reverse.
Qed.
Lemma ends_with_last c s : ends_with [c] s = bool_decide (last s = Some c).
Proof.
  unfold ends_with. rewrite <- head_reverse. destruct (reverse s) as [|d r]; cbn; [done|].
  rewrite andb_true_r. destruct (N.eqb_spec c d) as [->|Hn]; [by rewrite bool_decide_true|]. rewrite bool_decide_false; [done|congruence].
Qed.

Definition fraction_text (fp : jsstring) : jsstring := match fp with [] => [] | _ => js "." ++ fp end.

(** The replacement keeps the fraction without its last zeros. *)
Lemma replaced_fraction (s : bool) ip fp : forallb is_digit (ip ++ fp) = true → fp ≠ [] →
  let sign := if s then js "-" else [] in
  ∃ fp' k, replace_zeros (sign ++ ip ++ js "." ++ fp) = sign ++ ip ++ js "." ++ fp' ∧
    fp = fp' ++ replicate k 48%N ∧ last fp' ≠ Some 48%N.
Proof.
  rewrite forallb_app. intros [Hi Hf]%andb_true_iff Hne sign.
  exists (if bool_decide (last fp = Some 48%N) then drop_end_zeros fp else fp).
  assert (replace_zeros (sign ++ ip ++ js "." ++ fp) = sign ++ replace_zeros (ip ++ js "." ++ fp)) as ->
    by (unfold sign; by destruct s).
  rewrite replace_zeros_digits by done. change (js "." ++ fp) with (46%N :: fp). cbn [replace_zeros].
  rewrite Hf. change (js "0") with [48%N]. rewrite ends_with_last. change (46 =? 46)%N with true. cbn [andb].
  case_bool_decide as Hl.
  - destruct (drop_end_zeros_spec fp) as (k & Hk & Hlast). by exists k.
  - exists 0. rewrite app_nil_r. split_and!; [|done|done]. by rewrite (proj2 (digits_no_point fp Hf)).
Qed.

Lemma dropped_point prefix fp : forallb is_digit fp = true →
  drop_end_point (prefix ++ js "." ++ fp) = prefix ++ fraction_text fp.
Proof.
  intros Hf. unfold drop_end_point. change (js ".") with [46%N]. rewrite ends_with_last. destruct fp as [|c fp].
  - cbn [app fraction_text]. rewrite last_snoc, bool_decide_true, length_app, app_nil_r by done. cbn [length].
    replace (length prefix + 1 - 1) with (length prefix) by lia. apply take_app_length.
  - rewrite bool_decide_false; [done|]. rewrite app_assoc, last_app. destruct (last (c :: fp)) as [d|] eqn:E; [|by apply last_None in E].
    intros [= ->]. apply last_Some in E as (l & E). rewrite E, forallb_app in Hf. apply andb_true_iff in Hf as [_ Hf]. done.
Qed.

(** Zeros removed from a number of digits with a fraction. *)
Lemma removed_digits (s : bool) ip fp : forallb is_digit (ip ++ fp) = true → ip ≠ [] →
  denotes (removeTrailingZeros ((if s then js "-" else []) ++ ip ++ fraction_text fp))
    s (Z.of_N (dec_value (ip ++ fp))) (Z.of_nat (length fp)).
Proof.
  intros Hd Hip. pose proof Hd as [Hi Hf]%(eq_trans (eq_sym (forallb_app _ _ _)))%andb_true_iff.
  unfold removeTrailingZeros. destruct (decide (fp = [])) as [->|Hne].
  - cbn [fraction_text]. rewrite !app_nil_r. destruct (digits_no_point ip Hi) as [Hn _].
    replace (includes (js ".") ((if s then js "-" else []) ++ ip)) with false by (destruct s; symmetry; exact Hn).
    exists ip, []. rewrite !app_nil_r. split_and!; try done. cbn [length]. lia.
  - replace (fraction_text fp) with (js "." ++ fp) by (by destruct fp).
    replace (includes _ _) with true.
    2: { symmetry. apply includes_spec. exists ((if s then js "-" else []) ++ ip), fp. by rewrite <- app_assoc. }
    destruct (replaced_fraction s ip fp Hd Hne) as (fp' & k & -> & -> & Hl).
    rewrite forallb_app in Hf. apply andb_true_iff in Hf as [Hf _].
    rewrite app_assoc, dropped_point, <- app_assoc by done. exists ip, fp'. rewrite length_app, length_replicate. split_and!; try done; [|lia|].
    + by rewrite forallb_app, Hi, Hf.
    + rewrite (app_assoc ip), (dec_value_app (ip ++ fp')), dec_value_zeros, length_replicate.
      replace (Z.of_nat (length fp' + k) - Z.of_nat (length fp'))%Z with (Z.of_nat k) by lia.
      rewrite N.add_0_r, N2Z.inj_mul, N2Z.inj_pow, nat_N_Z. done.
Qed.

(** The digits of [n / 10^f]. *)
Lemma fixed_digits_spec n f : (0 ≤ n)%Z → (0 ≤ f)%Z →
  ∃ ip fp, fixed_digits n f = ip ++ fraction_text fp ∧ forallb is_digit (ip ++ fp) = true ∧ ip ≠ [] ∧
    Z.of_nat (length fp) = f ∧ Z.of_N (dec_value (ip ++ fp)) = n.
Proof.
  intros Hn Hf. destruct (dec_string_spec (Z.to_N n)) as (Hd & Hv & Hne). unfold fixed_digits.
  set (m := dec_string (Z.to_N n)) in *. destruct (Z.eqb_spec f 0) as [->|Hf0].
  - exists m, []. rewrite !app_nil_r. split_and!; try done. rewrite Hv. lia.
  - set (z := Z.to_nat (f + 1 - Z.of_nat (length m))). set (padded := replicate z 48%N ++ m).
    assert (length padded = z + length m) as Hl by (unfold padded; by rewrite length_app, length_replicate).
    set (k := length padded - Z.to_nat f).
    assert (1 ≤ k ∧ k ≤ length padded) as [Hk1 Hk2] by (unfold k, z in *; lia).
    exists (take k padded), (drop k padded). rewrite take_drop. split_and!.
    + f_equal. destruct (drop k padded) eqn:E; [|done]. apply (f_equal length) in E. rewrite length_drop in E. cbn in E. unfold k in *. lia.
    + unfold padded. by rewrite forallb_app, digits_zeros, Hd.
    + intros E. apply (f_equal length) in E. rewrite length_take in E. cbn in E. lia.
    + rewrite length_drop. unfold k in *. lia.
    + unfold padded. rewrite dec_value_app, dec_value_zeros, Hv. lia.
Qed.

(** The magnitude of a number is [v.1 / v.2]; [n] is nearest to [v * 10^f]. *)
Definition magnitude (x : num) : Z * Z :=
  match x with S754_finite _ m e => as_fraction m e | _ => (0, 1)%Z end.
Definition is_negative (x : num) : bool := match x with S754_finite s _ _ => s | _ => false end.
(** [n / 10^f] is the decimal with [f] digits nearest to the fraction [v], the
    greater of two that are as near. *)
Definition nearest_integer (n : Z) (v : Z * Z) (f : Z) : Prop :=
  (2 * (v.1 * 10 ^ f) - v.2 < 2 * (n * v.2) ≤ 2 * (v.1 * 10 ^ f) + v.2)%Z.

Lemma as_fraction_pos m e : (0 < (as_fraction m e).1 ∧ 0 < (as_fraction m e).2)%Z.
Proof.
  unfold as_fraction. destruct (Z.leb_spec 0 e); cbn; [|split; [lia|apply Z.pow_pos_nonneg; lia]].
  split; [|lia]. apply Z.mul_pos_pos; [lia|]. apply Z.pow_pos_nonneg; lia.
Qed.
Lemma fixed_integer_nearest v f : (0 ≤ v.1)%Z → (0 < v.2)%Z → (0 ≤ f)%Z →
  (0 ≤ fixed_integer v f)%Z ∧ nearest_integer (fixed_integer v f) v f.
Proof.
  intros H1 H2 Hf. unfold fixed_integer, nearest_integer. assert (0 < 10 ^ f)%Z by (apply Z.pow_pos_nonneg; lia).
  pose proof (Z.div_mod (2 * (v.1 * 10 ^ f) + v.2) (2 * v.2) ltac:(lia)) as Hdiv.
  pose proof (Z.mod_pos_bound (2 * (v.1 * 10 ^ f) + v.2) (2 * v.2) ltac:(lia)) as Hmod.
  set (q := ((2 * (v.1 * 10 ^ f) + v.2) / (2 * v.2))%Z) in *. split; [|lia].
  apply Z.div_pos; [nia|lia].
Qed.

Lemma toFixed_shown x digits : is_finite x = true → is_finite digits = true → (0 ≤ trunc_Z digits ≤ 100)%Z →
  ((magnitude x).1 < 10 ^ 21 * (magnitude x).2)%Z →
  ∃ text n, toFixed x digits = Ok text ∧ nearest_integer n (magnitude x) (trunc_Z digits) ∧
    denotes (removeTrailingZeros text) (is_negative x) n (trunc_Z digits).
Proof.
  intros Hx Hd Hf Hlt. set (f := trunc_Z digits) in *.
  assert (∀ s n, (0 ≤ n)%Z → denotes (removeTrailingZeros ((if s : bool then js "-" else []) ++ fixed_digits n f)) s n f) as Hden.
  { intros s n Hn. destruct (fixed_digits_spec n f Hn ltac:(lia)) as (ip & fp & -> & Hdig & Hip & Hfp & Hv).
    rewrite <- Hv, <- Hfp. by apply removed_digits. }
  assert (toFixed x digits = Ok (match x with
     | S754_finite s m e => (if s then js "-" else []) ++ fixed_digits (fixed_integer (as_fraction m e) f) f
     | _ => fixed_digits 0 f end)) as ->.
  { unfold toFixed. fold f. destruct digits as [|?| |]; try done.
    all: replace ((f <? 0)%Z || (100 <? f)%Z) with false by (symmetry; apply orb_false_iff; rewrite !Z.ltb_ge; lia).
    all: destruct x as [?|?| |sx mx ex]; try done; cbn [magnitude] in Hlt; by rewrite (proj2 (Z.leb_gt _ _) Hlt). }
  destruct x as [?|?| |s m e]; try done.
  - exists (fixed_digits 0 f), 0%Z. split_and!; [done|unfold nearest_integer; cbn; lia|exact (Hden false 0%Z ltac:(lia))].
  - pose proof (as_fraction_pos m e) as [H1 H2].
    destruct (fixed_integer_nearest (as_fraction m e) f ltac:(lia) H2 ltac:(lia)) as [Hn Hnear].
    eexists _, _. split_and!; [done|exact Hnear|]. exact (Hden s _ Hn).
Qed.

(** What [formatNumberWithSuffix] shows of a number: a caller that asks for
    abbreviation gets a thousandth of a number of at least 1000 in magnitude with
    at most one digit and [k] after it; every other number, and every number of
    a caller that does not ask (the prices), is shown itself with at most the
    digits asked for. As long as what is shown is below 10^21 in magnitude the
    text is the sign, the digits and a fraction that does not end in a zero, and
    its value is the exact value of the number rounded to those digits, away
    from zero on a tie. *)
Theorem number_shown_nearest value large small abbreviated :
  let short := abbreviated && num_leb thousand (num_abs value) in
  let shown := if short then num_div value thousand else value in
  let digits := if short then one else getFractionDigits value large small in
  is_finite shown = true → is_finite digits = true → (0 ≤ trunc_Z digits ≤ 100)%Z →
  ((magnitude shown).1 < 10 ^ 21 * (magnitude shown).2)%Z →
  ∃ text n, formatNumberWithSuffix value large small abbreviated = Ok (text ++ if short then js "k" else []) ∧
    nearest_integer n (magnitude shown) (trunc_Z digits) ∧ denotes text (is_negative shown) n (trunc_Z digits).
Proof.
  intros short shown digits Hs Hd Hf Hlt. destruct (toFixed_shown shown digits Hs Hd Hf Hlt) as (text & n & Ht & Hn & Hden).
  exists (removeTrailingZeros text), n. split_and!; [|done|done]. unfold formatNumberWithSuffix. fold short.
  unfold shown, digits in Ht. destruct short; rewrite Ht; [done|]. by rewrite app_nil_r.
Qed.

Example number_shown_nearest_witness :
  ∃ text n, formatNumberWithSuffix (num_of_Z 1999) (num_of_Z 2) (num_of_Z 4) true = Ok (text ++ js "k") ∧
    nearest_integer n (magnitude (num_div (num_of_Z 1999) thousand)) 1 ∧
    denotes text (is_negative (num_div (num_of_Z 1999) thousand)) n 1.
Proof.
  refine (number_shown_nearest (num_of_Z 1999) (num_of_Z 2) (num_of_Z 4) true _ _ _ _); vm_compute; done.
Defined.

(** ** Amounts of money *)

(** The rates of every configuration are positive. *)
Lemma config_positive store :
  num_ltb zero (quotaPerUnit (getConfig store)) = true ∧ num_ltb zero (usdExchangeRate (getConfig store)) = true ∧
  num_ltb zero (customCurrencyExchangeRate (getConfig store)) = true ∧ customCurrencySymbol (getConfig store) ≠ [].
Proof.
  assert (∀ v fallback, num_ltb zero fallback = true → num_ltb zero (positive_or v fallback) = true) as Hpos.
  { intros [v|] fallback Hf; cbn; [|done]. by destruct (num_ltb zero v) eqn:E. }
  cbn. split_and!; try (apply Hpos; vm_compute; reflexivity). unfold nonempty_or. by destruct (default _ _).
Qed.

Section Amounts.
Context `{NumberHost} (store : option StoredCurrency) (options : option CurrencyFormatOptions).

(** The magnitudes that are raised for display are those below the threshold. *)
Lemma adjusted_spec value digits minimum : is_nan value = false → num_ltb zero (display_threshold digits minimum) = true →
  let shown := adjustForMinimum value digits minimum in
  num_eqb shown zero = num_eqb value zero ∧ num_ltb shown zero = num_ltb value zero ∧ is_nan shown = false ∧
  num_leb (num_abs value) (num_abs shown) = true ∧
  (num_eqb value zero = false → num_leb (display_threshold digits minimum) (num_abs shown) = true) ∧
  (num_eqb value zero = true ∨ num_leb (display_threshold digits minimum) (num_abs value) = true → shown = value) ∧
  (num_eqb value zero = false → num_ltb (num_abs value) (display_threshold digits minimum) = true →
   num_abs shown = display_threshold digits minimum).
Proof.
  intros Hn Ht. unfold adjustForMinimum. set (t := display_threshold digits minimum) in *.
  destruct (num_eqb value zero) eqn:Ez.
  { rewrite Ez. split_and!; try done. apply num_leb_refl. by destruct value. }
  assert (num_ltb zero (num_abs value) = true) as Habs by (by destruct value as [[]|[]| |[] ? ?]).
  assert (is_nan (num_abs value) = false ∧ is_nan t = false) as [Hna Hnt]
    by (split; [by destruct value|by destruct t as [[]|[]| |[] ? ?]]).
  rewrite Habs. cbn [andb]. destruct (num_ltb (num_abs value) t) eqn:Elt.
  - destruct t as [[]|[]| |[] mt et] eqn:Et; try done.
    all: destruct value as [[]|[]| |[] mv ev]; try done; cbn [num_ltb]; change (num_ltb zero (S754_finite false mv ev)) with true
      || change (num_ltb zero (S754_finite true mv ev)) with false; cbn match; split_and!; try done; intros; num_order; cbn in *; lia.
  - split_and!; try done; [by apply num_leb_refl|]. intros _. num_order.
Qed.

(** What an amount in dollars becomes: the currency it is shown in (dollars in
    place of tokens), the rate and the symbol in front of the number. *)
Definition billing_currency (config : CurrencyConfig) : option jsstring * num * jsstring :=
  match getBillingDisplayMeta config with
  | CurrencyMeta _ code rate => (Some code, rate, [])
  | CustomMeta symbol rate => (None, rate, symbol ++ js " ")
  | TokensMeta _ => (None, one, [])
  end.

(** The numbers of digits [Intl.NumberFormat] accepts. *)
Definition fraction_digits (d : num) : bool := num_leb zero d && num_leb d (num_of_Z 100).

(** C15. Prices are always shown as money: for every stored configuration an
    amount that is a number is converted with a positive rate, and the formatter
    gets the converted amount itself, unless that is not zero and its magnitude
    is below the least one: then the formatter gets the least one with the sign of the
    amount. The least magnitude is [minimumNonZero] where that is positive and
    otherwise one unit of the last of the digits the formatter is asked to show,
    so a converted amount that is not zero is not formatted as zero. The number
    of tokens is never shown. *)
Theorem price_never_vanishes usd :
  is_nan usd = false →
  (∀ digits, fraction_digits digits = true → num_ltb zero (math_pow (num_of_Z 10) (num_neg digits)) = true) →
  fraction_digits (digitsLarge (mergeOptions options)) = true → fraction_digits (digitsSmall (mergeOptions options)) = true →
  let '(code, rate, symbol) := billing_currency (getConfig store) in
  let value := num_mul usd rate in
  let digits := if num_leb one (num_abs value) then digitsLarge (mergeOptions options) else digitsSmall (mergeOptions options) in
  let minimum := minimumNonZero (mergeOptions options) in
  let least := if num_ltb zero minimum then minimum else math_pow (num_of_Z 10) (num_neg digits) in
  num_ltb zero rate = true ∧ (code = None → symbol ≠ []) ∧
  (is_nan value = false →
   ∃ format shown,
     formatBillingCurrencyFromUSD store (Some usd) options =
       (text ← intl_format format shown; Ok ((if showSymbol (mergeOptions options) then symbol else []) ++ text)) ∧
     nf_currency format = (if showSymbol (mergeOptions options) then code else None) ∧
     (compact (mergeOptions options) = false → nf_maximumFractionDigits format = digits) ∧
     num_eqb shown zero = num_eqb value zero ∧ num_ltb shown zero = num_ltb value zero ∧
     (num_eqb value zero = true ∨ num_leb least (num_abs value) = true → shown = value) ∧
     (num_eqb value zero = false → num_leb least (num_abs shown) = true) ∧
     (num_eqb value zero = false → num_ltb (num_abs value) least = true → num_abs shown = least)).
Proof.
  intros Husd Hpow Hlarge Hsmall. destruct (config_positive store) as (_ & Hrate & Hcustom & Hsymbol).
  set (config := getConfig store) in *.
  assert (∀ d m, fraction_digits d = true → num_ltb zero (display_threshold d m) = true) as Hthreshold
    by (intros d m Hd; unfold display_threshold; destruct (num_ltb zero m) eqn:E; auto).
  assert (∃ symbol code rate, getBillingDisplayMeta config = CurrencyMeta symbol code rate ∧ num_ltb zero rate = true ∨
    getBillingDisplayMeta config = CustomMeta symbol rate ∧ num_ltb zero rate = true ∧ symbol ≠ []) as (symbol & code & rate & Hmeta).
  { unfold getBillingDisplayMeta, getDisplayMeta. repeat case_match; simplify_eq; first [by eexists _, _, _; left|by eexists _, [], _; right]. }
  unfold billing_currency, formatBillingCurrencyFromUSD, amount. cbn [mbind option_bind]. rewrite Husd. fold config. unfold formatCurrencyValue.
  set (merged := mergeOptions options).
  destruct Hmeta as [(-> & Hr)|(-> & Hr & Hs)]; (split; [done|]); (split; [try done; intros _; by destruct symbol|]); intros Hv.
  all: set (digits := getFractionDigits _ _ _);
    assert (fraction_digits digits = true) as Hdigits by (unfold digits, getFractionDigits; by destruct (num_leb _ _)).
  all: destruct (adjusted_spec (num_mul usd rate) digits (minimumNonZero merged) Hv (Hthreshold _ _ Hdigits))
    as (H1 & H2 & _ & _ & H5 & H6 & H7).
  - exists (currency_format merged (if showSymbol merged then Some code else None) digits),
      (adjustForMinimum (num_mul usd rate) digits (minimumNonZero merged)).
    split_and!; [|done|by cbn; intros ->|exact H1|exact H2|exact H6|exact H5|exact H7].
    by destruct (showSymbol merged), (intl_format _ _).
  - exists (currency_format merged None digits),
      (adjustForMinimum (num_mul usd rate) digits (minimumNonZero merged)).
    split_and!; [|by destruct (showSymbol merged)|by cbn; intros ->|exact H1|exact H2|exact H6|exact H5|exact H7].
    destruct (intl_format _ _); [|done]. cbn. destruct (showSymbol merged); [|done]. by rewrite <- app_assoc.
Qed.
End Amounts.

(** A formatter that prints the number and a power that is a hundredth where it
    is not one. *)
#[local] Instance sample_numbers : NumberHost := {
  intl_format _ x := Ok (num_to_string x);
  math_pow _ x := match x with S754_zero _ => one | _ => num_div one (num_of_Z 100) end
}.
Definition yuan : StoredCurrency :=
  mkStored (Some true) (Some (js "CNY")) None (Some (num_of_Z 7)) None None.
(** A refund of a hundred thousandth of a dollar, too small for the digits. *)
Definition tiny : num := num_neg (num_div one (num_of_Z 100000)).
Example price_never_vanishes_witness :
  let least := num_div one (num_of_Z 100) in
  ∃ format shown,
    formatBillingCurrencyFromUSD (Some yuan) (Some tiny) None = (text ← intl_format format shown; Ok ([] ++ text)) ∧
    nf_currency format = Some (js "CNY") ∧ (false = false → nf_maximumFractionDigits format = num_of_Z 4) ∧
    num_eqb shown zero = false ∧ num_ltb shown zero = true ∧
    (false = true ∨ num_leb least (num_abs (num_mul tiny (num_of_Z 7))) = true → shown = num_mul tiny (num_of_Z 7)) ∧
    (false = false → num_leb least (num_abs shown) = true) ∧
    (false = false → num_ltb (num_abs (num_mul tiny (num_of_Z 7))) least = true → num_abs shown = least).
Proof.
  refine (proj2 (proj2 (price_never_vanishes (Some yuan) None tiny _ _ _ _)) _).
  - vm_compute. reflexivity.
  - intros d _. destruct d; vm_compute; reflexivity.
  - vm_compute. reflexivity.
  - vm_compute. reflexivity.
  - vm_compute. reflexivity.
Defined.

(** ** What the comments say *)

(** The documentation of [formatCurrencyFromUSD] shows the tokens of ten dollars
    as 5,000,000 and ten dollars in a currency of its own as a symbol and 9
    without a space. *)
Definition tokens_store : StoredCurrency := mkStored None (Some (js "TOKENS")) (Some (num_of_Z 500000)) None None None.
Example tokens_abbreviated : formatCurrencyFromUSD (Some tokens_store) (Some (num_of_Z 10)) None = Ok (js "5000k").
Proof. vm_compute. reflexivity. Qed.
Definition euros_store : StoredCurrency :=
  mkStored None (Some (js "CUSTOM")) None None (Some [8364%N]) (Some (num_div (num_of_Z 9) (num_of_Z 10))).
Example custom_symbol_spaced : formatCurrencyFromUSD (Some euros_store) (Some (num_of_Z 10)) None = Ok ([8364%N] ++ js " 9").
Proof. vm_compute. reflexivity. Qed.

(** The price of a group without a configured ratio is the price with ratio 1,
    but the summary price does not count it. *)
Definition two_groups : ModelRatios :=
  mkRatios one one None None None None None None (Some [js "vip"; js "free"]) (Some [(js "vip", num_of_Z 2)]).
Example summary_not_best :
  getDisplayGroupRatio two_groups None = num_of_Z 2 ∧ getDisplayGroupRatio two_groups (Some (js "free")) = one.
Proof. vm_compute. split; reflexivity. Qed.

(** Zeros of an exponent are not zeros of a fraction. *)
Example exponent_cut : stripTrailingZeros (js "1" ++ replicate 30 48%N) = Ok (js "1e+3").
Proof. vm_compute. reflexivity. Qed.
