(* ===== verification/DynamicPrice.v ===== *)
(** * features/pricing/lib/dynamic-price.ts, task-matrix-display.ts and billing-mode.ts

    What the model square shows of a model billed by an expression: the tier the
    prices are taken from, its prices as texts, the ranges over tiers and over
    providers, and the rows of task prices. A model whose billing depends on the
    provider is its variants, each the model without variants. *)

From S2P Require Import Prelude JsNumber JsIntegers JsText Types Parser Compile Runtime Structure Display.
From S2P Require Import BillingExpr TaskDisplay TaskExpr BreakdownMatch PluginPricing JsMap PriceFormat.

(** ** Models, options and entries *)

Record CatalogueModel := mkCatalogue {
  ratios : ModelRatios;
  model_name : option jsstring;
  model_description : option jsstring;
  tags : option jsstring;
  vendor_name : option jsstring;
  supported_endpoint_types : option (list jsstring)
}.
Abbreviation Model := (PricingModel CatalogueModel).

Record DynamicPriceOptions := mkPriceOptions {
  tokenUnit : TokenUnit;
  showCurrencySymbol : option bool;
  showRechargePrice : option bool;
  priceRate : option num;
  o_usdExchangeRate : option num;
  groupRatioMultiplier : option num;
  usageSchema : option BillingUsageSchema;
  o_now : option Date
}.
Definition with_schema (o : DynamicPriceOptions) (schema : option BillingUsageSchema) : DynamicPriceOptions :=
  mkPriceOptions (tokenUnit o) (showCurrencySymbol o) (showRechargePrice o) (priceRate o) (o_usdExchangeRate o)
    (groupRatioMultiplier o) schema (o_now o).

Inductive DynamicPriceLabelKind := label_i18n | label_schema.
(** ['token' | BillingUsageUnit | 'request' | 'image']. *)
Inductive PriceUnit := usage_unit (unit : BillingUsageUnit) | per_request | per_image.
#[export] Instance PriceUnit_eq_dec : EqDecision PriceUnit.
Proof. solve_decision. Defined.

Record DynamicPriceEntry := mkEntry {
  e_key : jsstring;
  e_field : jsstring;
  e_label : jsstring;
  e_shortLabel : jsstring;
  e_labelKind : DynamicPriceLabelKind;
  e_value : num;
  e_formatted : jsstring;
  e_formattedRange : option jsstring;
  e_minValue : option num;
  e_maxValue : option num;
  e_unit : PriceUnit;
  e_unitLabel : option LocalizedTextValue;
  e_variable : option BillingVar;
  e_description : option LocalizedTextValue
}.
(** [ParsedTier | ParsedTaskTier], the type of the rows of price tables. *)
Abbreviation DynamicPricingTier := BreakdownMatchTier.

Record DynamicPricingSummary := mkSummary {
  s_tiers : list DynamicPricingTier;
  s_tier : option DynamicPricingTier;
  tierCount : nat;
  hasRequestRules : bool;
  isSpecialExpression : bool;
  rawExpression : jsstring;
  entries : list DynamicPriceEntry;
  primaryEntries : list DynamicPriceEntry;
  secondaryEntries : list DynamicPriceEntry;
  isTaskUsage : bool;
  isTimePricing : option bool;
  isMixedBilling : bool;
  providerCount : option nat;
  hasUnconfiguredProviders : option bool
}.

Definition getTaskUsageQuantityUnitLabelKey (unit : option BillingUsageUnit) : jsstring :=
  match unit with
  | Some unit_second => js "s"
  | Some unit_usage_token => js "token (unit)"
  | Some unit_credit => js "credit"
  | _ => js "unit"
  end.
Definition getTaskUsagePriceUnitLabelKey (unit : option BillingUsageUnit) : jsstring :=
  match unit with
  | Some unit_second => js "second"
  | Some unit_usage_token => js "1M token"
  | Some unit_credit => js "credit"
  | _ => js "unit"
  end.
Definition getDynamicPriceUnitLabelKey (entry : DynamicPriceEntry) : option jsstring :=
  match e_unit entry, e_variable entry with
  | usage_unit unit_second, _ => Some (js "s")
  | usage_unit unit_count, _ => Some (js "unit")
  | usage_unit unit_credit, _ => Some (js "credit")
  | usage_unit unit_usage_token, None => Some (js "1M token")
  | usage_unit unit_usage_token, Some _ => None
  | per_request, _ => Some (js "request")
  | per_image, _ => Some (js "image")
  end.

Definition PRIMARY_DYNAMIC_FIELDS : list jsstring := [js "inputPrice"; js "outputPrice"].
Definition is_primary_field (entry : DynamicPriceEntry) : bool := str_in (e_field entry) PRIMARY_DYNAMIC_FIELDS.
(** [entry.unit === 'request' || entry.unit === 'image']. *)
Definition per_call (entry : DynamicPriceEntry) : bool :=
  match e_unit entry with usage_unit _ => false | _ => true end.
Definition isTaskPricingTier (tier : DynamicPricingTier) : bool :=
  match tier with TaskRow _ => true | TokenRow _ => false end.

(** ** Kinds of models *)

(** [model.billing_plugin_variants?.length]. *)
Definition variants_of (model : Model) : list BillingPluginVariant := default [] (billing_plugin_variants model).
Definition by_ratio (variant : BillingPluginVariant) : bool := bool_decide (variant_mode variant = Some mode_ratio).
Definition tiered (model : Model) : bool := bool_decide (billing_mode model = Some (js "tiered_expr")).
Definition expression_of (model : Model) : jsstring := default [] (billing_expr model).

Definition isDynamicPricingModel (model : Model) : bool :=
  match variants_of model with
  | [] => tiered model && nonempty (expression_of model)
  | variants => existsb (λ variant, negb (by_ratio variant) && nonempty (variant_expr variant)) variants
  end.
Definition hasTaskUsageSchema (model : Model) : bool :=
  negb (is_empty (default [] (billing_usage_schema model))).
Definition isTaskUsagePricingModel (model : Model) : bool := tiered model && hasTaskUsageSchema model.

(** The function on a model without variants, and on every model. *)
Definition unconfigured_single (model : Model) : bool :=
  negb (num_eqb (quota_type model) QUOTA_TYPE_REQUEST) && hasTaskUsageSchema model && negb (isDynamicPricingModel model).
Definition unconfigured_variant (model : Model) (variant : BillingPluginVariant) : bool :=
  if by_ratio variant then unconfigured_single (withPluginPricing model variant)
  else negb (nonempty (variant_expr variant)).
Definition isUnconfiguredTaskUsageModel (model : Model) : bool :=
  match variants_of model with
  | [] => unconfigured_single model
  | variants => forallb (unconfigured_variant model) variants
  end.

Definition getDynamicDisplayGroupRatio (model : Model) (selectedGroup : option jsstring) : num :=
  getDisplayGroupRatio (ratios (model_rest model)) selectedGroup.

Inductive BillingModeLabelKey := mode_per_request | mode_dynamic | mode_token_based | mode_task.
Definition isTokenBasedModel (model : Model) : bool := num_eqb (quota_type model) QUOTA_TYPE_TOKEN.
Definition getBillingModeLabelKey (model : Model) : BillingModeLabelKey :=
  if hasTaskUsageSchema model then mode_task
  else if isDynamicPricingModel model then mode_dynamic
  else if isTokenBasedModel model then mode_token_based
  else mode_per_request.

Definition getTaskPricingUnit `{LocaleHost} (model : Model) : option BillingUsageUnit :=
  match getTaskNumberFields (billing_usage_schema model) with
  | (_, definition) :: _ => field_unit definition
  | [] => None
  end.

(** ** Rows of task prices *)

Fixpoint insert_text (x : jsstring) (l : list jsstring) : list jsstring :=
  match l with
  | [] => [x]
  | y :: l' => if str_ltb y x then y :: insert_text x l' else x :: l
  end.
(** [texts.sort()]. *)
Definition sort_texts (l : list jsstring) : list jsstring := fold_right insert_text [] l.

Abbreviation Conditions := (list (jsstring * jsstring)).

(** The values the fallback row is split over. *)
Definition display_values (schema : BillingUsageSchema) (field : jsstring) : list jsstring :=
  match own schema field with
  | Some definition =>
      if bool_decide (field_type definition = Some type_boolean) then [js "false"; js "true"]
      else enum_values definition
  | None => []
  end.
(** The loop over the fields; [None] is the early return. *)
Fixpoint row_combinations (schema : BillingUsageSchema) (fields : list jsstring) (combinations : list Conditions)
    : option (list Conditions) :=
  match fields with
  | [] => Some combinations
  | field :: fields =>
      let values := display_values schema field in
      if is_empty values || (256 <? length combinations * length values) then None
      else
        row_combinations schema fields
          (flat_map (λ combination, map (λ value, combination ++ [(field, value)]) values) combinations)
  end.
(** Every condition of the row is one of the combination's. *)
Definition row_covers (combination : Conditions) (tier : TaskTier) : bool :=
  forallb (λ condition, existsb (λ value, (value.1 =s condition.1) && (value.2 =s condition.2)) combination)
    (task_conditions tier).
Definition with_conditions (tier : TaskTier) (conditions : Conditions) : TaskTier :=
  mkTaskTier (task_conditionText tier) (task_label tier) conditions (constant tier) (unitPrices tier).

Definition name_fallback (schema : BillingUsageSchema) (tiers : list TaskTier) : list TaskTier :=
  match last tiers with
  | Some fallback =>
      let previous := take (length tiers - 1) tiers in
      let fields := sort_texts (new_set (flat_map (λ tier, map fst (task_conditions tier)) previous)) in
      if length tiers <? 2 then tiers
      else
        match row_combinations schema fields [[]] with
        | None => tiers
        | Some combinations =>
            match List.filter (λ combination, negb (existsb (row_covers combination) previous)) combinations with
            | [remaining] => previous ++ [with_conditions fallback remaining]
            | _ => tiers
            end
        end
  | None => tiers
  end.

(** An absent expression is the empty text. *)
Definition getTaskPricingDisplayTiers (expression : jsstring) (schema : option BillingUsageSchema)
    : result (list TaskTier) :=
  tiers ← parseTaskTiersFromExpr expression schema true;
  match schema with
  | None => Ok tiers
  | Some schema =>
      if is_empty tiers && nonempty expression then
        split ← splitBillingExprAndRequestRules expression;
        rows ← readConditionalTaskPricing (billingExpr split) schema;
        Ok (default [] rows)
      else Ok (name_fallback schema tiers)
  end.

Section Rows.
Context `{LocaleHost}.

Definition getTaskMatrixDisplayTiers (expression : jsstring) (schema : option BillingUsageSchema)
    : result (option (list TaskTier)) :=
  match schema with
  | None => Ok None
  | Some schema =>
      if is_empty (getTaskEnumFields (Some schema)) then Ok None
      else
        matrix ← tryParseTaskMatrixConfig expression schema;
        Ok (matrix ← matrix;
            Some (map (λ row, mkTaskTier None (taskMatrixRowLabel (combination row)) (sort_fields (combination row))
                                (row_constant row) (row_unitPrices row)) matrix))
  end.
End Rows.

(** ** Prices as texts *)

Section Prices.
Context `{Host} `{LocaleHost} `{NumberHost}.
Context (store : option StoredCurrency) (clock : Date).

Definition price_text (priceUSD : num) (options : DynamicPriceOptions) : result jsstring :=
  let displayPrice :=
    applyRechargeRate priceUSD (default false (showRechargePrice options)) (default one (priceRate options))
      (default one (o_usdExchangeRate options)) in
  formatBillingCurrencyFromUSD store (Some displayPrice)
    (Some (price_options 6 (Some (default true (showCurrencySymbol options))))).
Definition formatDynamicUnitPrice (valuePerMillionTokens : num) (options : DynamicPriceOptions) : result jsstring :=
  let groupRatio := default one (groupRatioMultiplier options) in
  price_text (num_div (num_mul valuePerMillionTokens groupRatio) (TOKEN_UNIT_DIVISORS (tokenUnit options))) options.
Definition formatTaskUsageUnitPrice (valuePerUnit : num) (options : DynamicPriceOptions) : result jsstring :=
  price_text (num_mul valuePerUnit (default one (groupRatioMultiplier options))) options.

(** ** The prices of a tier *)

(** A price that is shown: [Number.isFinite(value) && value >= 0]. *)
Definition shown_price (value : num) : bool := is_finite value && negb (num_ltb value zero).

(** A [flatMap] whose function can throw. *)
Fixpoint flat_mapM {A B} (f : A → result (list B)) (l : list A) : result (list B) :=
  match l with
  | [] => Ok []
  | x :: l => ys ← f x; rest ← flat_mapM f l; Ok (ys ++ rest)
  end.

Definition call_entry (key field : String.string) (label short : String.string) (value : num) (unit : PriceUnit)
    (options : DynamicPriceOptions) : result DynamicPriceEntry :=
  formatted ← formatTaskUsageUnitPrice value options;
  Ok (mkEntry (js key) (js field) (js label) (js short) label_i18n value formatted None None None unit None None None).

Definition usage_entry (tier : TaskTier) (options : DynamicPriceOptions)
    (entry : jsstring * BillingUsageFieldSchema) : result (list DynamicPriceEntry) :=
  let '(field, definition) := entry in
  let value := default nan (own (unitPrices tier) field) in
  match field_unit definition with
  | Some unit =>
      if shown_price value then
        formatted ← formatTaskUsageUnitPrice value options;
        Ok [mkEntry field field field field label_schema value formatted None None None (usage_unit unit)
              (field_unitLabel definition) None (field_description definition)]
      else Ok []
  | None => Ok []
  end.
Definition task_entries (tier : TaskTier) (schema : BillingUsageSchema) (options : DynamicPriceOptions)
    : result (list DynamicPriceEntry) :=
  usageEntries ← flat_mapM (usage_entry tier options) (getTaskNumberFields (Some schema));
  if num_ltb zero (constant tier) then
    charge ← call_entry "constant" "constant" "Additional charge" "Additional charge" (constant tier) per_request options;
    Ok (usageEntries ++ [charge])
  else Ok usageEntries.

Definition variable_entry (tier : ParsedTier) (options : DynamicPriceOptions) (variable : BillingVar)
    : result (list DynamicPriceEntry) :=
  match var_field variable with
  | None | Some [] => Ok []
  | Some field =>
      let value := default nan (own (pt_fields tier) field) in
      if negb (shown_price value) then Ok []
      else if (var_key variable =s js "cr") && negb (num_eqb value zero)
              && match own (pt_fields tier) (js "inputPrice") with
                 | Some inputPrice => num_eqb value inputPrice
                 | None => false
                 end then Ok []
      else
        let five_minutes :=
          (var_key variable =s js "cc") && bool_decide (is_Some (own (pt_fields tier) (js "cacheCreate1hPrice"))) in
        formatted ← formatDynamicUnitPrice value options;
        Ok [mkEntry (var_key variable) field
              (if five_minutes then js "Cache Creation (5m)" else var_label variable)
              (if five_minutes then js "Cache Write (5m)" else shortLabel variable)
              label_i18n value formatted None None None (usage_unit unit_usage_token) None (Some variable) None]
  end.
Definition primary_first (a b : DynamicPriceEntry) : num :=
  if Bool.eqb (is_primary_field a) (is_primary_field b) then zero
  else if is_primary_field a then num_neg one else one.

Definition fixed_entry (tier : ParsedTier) (price : num) (options : DynamicPriceOptions) : result DynamicPriceEntry :=
  if pt_imageCount tier then
    call_entry "fixed" "fixedPrice" "Price per image" "Per image" price per_image options
  else call_entry "fixed" "fixedPrice" "Price per request" "Per-call" price per_request options.
Definition token_entries (tier : ParsedTier) (options : DynamicPriceOptions) : result (list DynamicPriceEntry) :=
  shown ← flat_mapM (variable_entry tier options) BILLING_PRICING_VARS;
  Ok (sort_by primary_first shown).

(** A task row without a schema has none of the fields of token prices. *)
Definition getDynamicPriceEntries (tier : option DynamicPricingTier) (options : DynamicPriceOptions)
    : result (list DynamicPriceEntry) :=
  match tier with
  | None => Ok []
  | Some (TaskRow tier) =>
      match usageSchema options with
      | Some schema => task_entries tier schema options
      | None => Ok []
      end
  | Some (TokenRow tier) =>
      match pt_billingUnit tier, pt_fixedPrice tier with
      | Some unit_request, Some price => charge ← fixed_entry tier price options; Ok [charge]
      | _, _ => token_entries tier options
      end
  end.

(** ** Tiers and request rules of a model *)

Definition tiers_single (model : Model) : result (list DynamicPricingTier) :=
  if negb (isDynamicPricingModel model) then Ok []
  else
    split ← splitBillingExprAndRequestRules (expression_of model);
    if isTaskUsagePricingModel model then
      rows ← getTaskPricingDisplayTiers (billingExpr split) (billing_usage_schema model);
      Ok (map TaskRow rows)
    else
      rows ← parseTiersFromExpr (billingExpr split);
      Ok (map TokenRow rows).
Definition getDynamicPricingTiers (model : Model) : result (list DynamicPricingTier) :=
  match variants_of model with
  | [] => tiers_single model
  | variants => flat_mapM (λ variant, tiers_single (withPluginPricing model variant)) variants
  end.

Definition rules_single (model : Model) : result bool :=
  if negb (isDynamicPricingModel model) then Ok false
  else
    split ← splitBillingExprAndRequestRules (expression_of model);
    groups ← tryParseRequestRuleExpr (requestRuleExpr split);
    if negb (is_empty (default [] groups)) then Ok true
    else
      Ok (match compile_source (expression_of model) with
          | Ready compiled => negb (is_empty (c_requestRules compiled))
          | CompileFailed _ => false
          end).
(** [some] with a test that can throw. *)
Fixpoint existsM {A} (f : A → result bool) (l : list A) : result bool :=
  match l with
  | [] => Ok false
  | x :: l => found ← f x; if found : bool then Ok true else existsM f l
  end.
Definition hasDynamicRequestRules (model : Model) : result bool :=
  match variants_of model with
  | [] => rules_single model
  | variants => existsM (λ variant, rules_single (withPluginPricing model variant)) variants
  end.

(** ** Summary of a model without variants *)

Definition range_text (low high : num) (options : DynamicPriceOptions) : result (option jsstring) :=
  if num_eqb low high then Ok None
  else
    lower ← formatTaskUsageUnitPrice low options;
    upper ← formatTaskUsageUnitPrice high options;
    Ok (Some (lower ++ js " " ++ [8211%N] ++ js " " ++ upper)).

(** The prices of a field in the tiers, those that are shown. *)
Definition tier_price (field : jsstring) (tier : DynamicPricingTier) : option num :=
  match tier with
  | TaskRow tier =>
      let value := default nan (own (unitPrices tier) field) in
      if shown_price value then Some value else None
  | TokenRow _ => None
  end.
(** The loop over the tiers: the least and the greatest of them. *)
Definition widen (range : num * num) (value : num) : num * num :=
  (num_min range.1 value, num_max range.2 value).
Definition price_range (tiers : list DynamicPricingTier) (field : jsstring) : option (num * num) :=
  let range := foldl widen (infinity, num_neg infinity) (omap (tier_price field) tiers) in
  if is_finite range.1 && is_finite range.2 then Some range else None.
Definition price_ranges (schema : option BillingUsageSchema) (tiers : list DynamicPricingTier)
    : list (jsstring * (num * num)) :=
  foldl (λ ranges entry,
    match price_range tiers entry.1 with
    | Some range => mset ranges entry.1 range
    | None => ranges
    end) [] (getTaskNumberFields schema).

Definition with_range (entry : DynamicPriceEntry) (low high : num) (text : option jsstring) : DynamicPriceEntry :=
  mkEntry (e_key entry) (e_field entry) (e_label entry) (e_shortLabel entry) (e_labelKind entry) (e_value entry)
    (e_formatted entry) text (Some low) (Some high) (e_unit entry) (e_unitLabel entry) (e_variable entry)
    (e_description entry).
Definition ranged_entry (ranges : list (jsstring * (num * num))) (options : DynamicPriceOptions)
    (entry : DynamicPriceEntry) : result (list DynamicPriceEntry) :=
  match mget ranges (e_field entry) with
  | None => Ok [entry]
  | Some (low, high) => text ← range_text low high options; Ok [with_range entry low high text]
  end.

Definition of_unit (unit : BillingUnit) (tier : DynamicPricingTier) : bool :=
  match tier with
  | TokenRow tier => bool_decide (default unit_token (pt_billingUnit tier) = unit)
  | TaskRow _ => false
  end.
Definition mixed_entries (summaryTiers : list DynamicPricingTier) (options : DynamicPriceOptions)
    : result (option (list DynamicPriceEntry)) :=
  match List.find (of_unit unit_token) summaryTiers, List.find (of_unit unit_request) summaryTiers with
  | Some tokenTier, Some requestTier =>
      token ← getDynamicPriceEntries (Some tokenTier) options;
      request ← getDynamicPriceEntries (Some requestTier) options;
      Ok (Some (token ++ request))
  | _, _ => Ok None
  end.

Definition summary_single (model : Model) (options : DynamicPriceOptions) : result (option DynamicPricingSummary) :=
  if negb (isDynamicPricingModel model) then Ok None
  else
    tiers ← tiers_single model;
    let taskUsage := isTaskUsagePricingModel model in
    base ← splitBillingExprAndRequestRules (expression_of model);
    timeTiers ← (if taskUsage then Ok None
                 else getCurrentTimePricingTiers clock (billingExpr base) (default clock (o_now options)));
    let summaryTiers := match timeTiers with Some rows => map TokenRow rows | None => tiers end in
    let tier := if taskUsage then last summaryTiers else head summaryTiers in
    shown ← getDynamicPriceEntries tier (with_schema options (billing_usage_schema model));
    mixed ← (if taskUsage then Ok None else mixed_entries summaryTiers options);
    let unranged := default shown mixed in
    all ← (if taskUsage then
             flat_mapM (ranged_entry (price_ranges (billing_usage_schema model) tiers) options) unranged
           else Ok unranged);
    rules ← rules_single model;
    let main entry := if taskUsage then negb (per_call entry) else per_call entry || is_primary_field entry in
    Ok (Some (mkSummary tiers tier (length tiers) rules
                (nonempty (trim (expression_of model)) && is_empty tiers) (expression_of model) all
                (List.filter main all) (List.filter (λ entry, negb (main entry)) all)
                taskUsage (Some (bool_decide (is_Some timeTiers))) (bool_decide (is_Some mixed)) None None)).

(** ** Summary of a model with variants *)

Definition unit_text (unit : PriceUnit) : jsstring :=
  match unit with
  | usage_unit unit_second => js "second"
  | usage_unit unit_count => js "count"
  | usage_unit unit_usage_token => js "token"
  | usage_unit unit_credit => js "credit"
  | per_request => js "request"
  | per_image => js "image"
  end.
Definition price_key (entry : DynamicPriceEntry) : jsstring := e_field entry ++ js ":" ++ unit_text (e_unit entry).

Definition blank_label (label : option LocalizedTextValue) : bool :=
  match label with None | Some (PlainText []) | Some (LocalizedTexts []) => true | _ => false end.
Definition with_key (entry : DynamicPriceEntry) (key : jsstring) : DynamicPriceEntry :=
  mkEntry key (e_field entry) (e_label entry) (e_shortLabel entry) (e_labelKind entry) (e_value entry)
    (e_formatted entry) (e_formattedRange entry) (e_minValue entry) (e_maxValue entry) (e_unit entry)
    (e_unitLabel entry) (e_variable entry) (e_description entry).
Definition with_label (entry : DynamicPriceEntry) (label : option LocalizedTextValue) : DynamicPriceEntry :=
  mkEntry (e_key entry) (e_field entry) (e_label entry) (e_shortLabel entry) (e_labelKind entry) (e_value entry)
    (e_formatted entry) (e_formattedRange entry) (e_minValue entry) (e_maxValue entry) (e_unit entry)
    label (e_variable entry) (e_description entry).
Definition low_price (entry : DynamicPriceEntry) : num := default (e_value entry) (e_minValue entry).
Definition high_price (entry : DynamicPriceEntry) : num := default (e_value entry) (e_maxValue entry).

Record PriceRange := mkRange { r_entry : DynamicPriceEntry; r_min : num; r_max : num }.
Definition merge_entry (ranges : list (jsstring * PriceRange)) (entry : DynamicPriceEntry)
    : list (jsstring * PriceRange) :=
  let key := price_key entry in
  let range := mget ranges key in
  let first := match range with Some range => r_entry range | None => with_key entry key end in
  let merged := if blank_label (e_unitLabel first) then with_label first (e_unitLabel entry) else first in
  mset ranges key
    (mkRange merged (num_min (match range with Some range => r_min range | None => infinity end) (low_price entry))
       (num_max (match range with Some range => r_max range | None => num_neg infinity end) (high_price entry))).

Definition provider_entry (options : DynamicPriceOptions) (range : PriceRange) : result (list DynamicPriceEntry) :=
  let entry := r_entry range in
  formatted ← formatTaskUsageUnitPrice (r_min range) options;
  text ← range_text (r_min range) (r_max range) options;
  Ok [mkEntry (e_key entry) (e_field entry) (e_label entry) (e_shortLabel entry) (e_labelKind entry)
        (r_min range) formatted text (Some (r_min range)) (Some (r_max range)) (e_unit entry) (e_unitLabel entry)
        (e_variable entry) (e_description entry)].

Definition per_call_entries (model : Model) (options : DynamicPriceOptions) : result (list DynamicPriceEntry) :=
  match model_price (ratios (model_rest model)) with
  | Some price =>
      if num_eqb (quota_type model) QUOTA_TYPE_REQUEST && existsb by_ratio (variants_of model) then
        entry ← call_entry "modelPrice" "modelPrice" "Price per request" "Per-call" price per_request options;
        Ok [entry]
      else Ok []
  | None => Ok []
  end.

Definition called_for_provider (entry : DynamicPriceEntry) : bool :=
  per_call entry && negb (e_field entry =s js "modelPrice").
Definition key_first (keys : list jsstring) (a b : DynamicPriceEntry) : num :=
  num_sub (if str_in (e_key b) keys then one else zero) (if str_in (e_key a) keys then one else zero).

Definition variant_summaries (model : Model) (options : DynamicPriceOptions) : result (list DynamicPricingSummary) :=
  flat_mapM (λ variant,
    summary ← summary_single (withPluginPricing model variant) options;
    Ok (match summary with Some summary => [summary] | None => [] end)) (variants_of model).

Definition summary_variants (model : Model) (options : DynamicPriceOptions) : result DynamicPricingSummary :=
  summaries ← variant_summaries model options;
  perCallEntries ← per_call_entries model options;
  let ranges := foldl merge_entry [] (flat_map entries summaries ++ perCallEntries) in
  all ← flat_mapM (provider_entry options) (map snd ranges);
  let primaryKeys :=
    flat_map (λ summary, map price_key (take 1 (primaryEntries summary))) summaries in
  let primary := sort_by (key_first primaryKeys) (List.filter (λ entry, negb (called_for_provider entry)) all) in
  let tiers := flat_map s_tiers summaries in
  Ok (mkSummary tiers (summary ← head summaries; s_tier summary) (length tiers)
        (existsb hasRequestRules summaries)
        (is_empty perCallEntries && negb (is_empty summaries) && forallb isSpecialExpression summaries)
        (match summaries with summary :: _ => rawExpression summary | [] => [] end)
        all primary (List.filter called_for_provider all) true None false
        (if 2 <=? length (variants_of model) then Some (length (variants_of model)) else None)
        (Some (existsb (unconfigured_variant model) (variants_of model)))).

Definition getDynamicPricingSummary (model : Model) (options : DynamicPriceOptions)
    : result (option DynamicPricingSummary) :=
  match variants_of model with
  | [] => summary_single model options
  | _ => summary ← summary_variants model options; Ok (Some summary)
  end.

(** ** The example on a card *)
Definition example_single (model : Model) (options : DynamicPriceOptions) : result (option (jsstring * jsstring)) :=
  if negb (isTaskUsagePricingModel model) then Ok None
  else
    match billing_usage_schema model, head (default [] (billing_usage_examples model)) with
    | Some schema, Some (label, facts) =>
        split ← splitBillingExprAndRequestRules (expression_of model);
        config ← tryParseTaskVisualConfig (billingExpr split) schema;
        match config with
        | None => Ok None
        | Some config =>
            match evaluateTaskVisualConfig clock config facts (Some schema) with
            | None => Ok None
            | Some preview =>
                formatted ← formatTaskUsageUnitPrice (total preview) options;
                Ok (Some (label, formatted))
            end
        end
    | _, _ => Ok None
    end.
Definition getCardExamplePrice (model : Model) (options : DynamicPriceOptions)
    : result (option (jsstring * jsstring)) :=
  match variants_of model with
  | [] => example_single model options
  | variants =>
      match List.find (λ variant, nonempty (variant_expr variant)) variants with
      | Some variant => example_single (withPluginPricing model variant) options
      | None => Ok None
      end
  end.
End Prices.
