(* ===== verification/DynamicPriceFacts.v ===== *)
(** * What the model square shows

    The named fallback row holds exactly when no earlier row does; primary and
    secondary prices are all prices; ranges are those of the tiers and of the
    providers. *)

From S2P Require Import Prelude JsNumber JsIntegers JsText Types Parser Compile Runtime Structure Display.
From S2P Require Import BillingExpr TaskDisplay TaskDisplayFacts TaskExpr BreakdownMatch PluginPricing JsMap PriceFormat DynamicPrice.
From Stdlib Require Import Floats.SpecFloat.

(** ** The fallback row *)

(** The facts of a call, as far as the rows ask for them. *)
Definition facts_hold (facts : jsstring → jsstring) (conditions : Conditions) : Prop :=
  ∀ c, c ∈ conditions → facts c.1 = c.2.

(** A combination gives each field one of its values. *)
Definition combines (schema : BillingUsageSchema) (fields : list jsstring) (c : Conditions) : Prop :=
  c.*1 = fields ∧ ∀ p, p ∈ c → p.2 ∈ display_values schema p.1.

Definition extend_combinations (schema : BillingUsageSchema) (field : jsstring) (combinations : list Conditions) : list Conditions :=
  flat_map (λ c, map (λ value, c ++ [(field, value)]) (display_values schema field)) combinations.

Lemma extend_elem schema field combinations c :
  c ∈ extend_combinations schema field combinations ↔
  ∃ c0 v, c0 ∈ combinations ∧ v ∈ display_values schema field ∧ c = c0 ++ [(field, v)].
Proof.
  unfold extend_combinations. rewrite list_elem_of_In, in_flat_map. setoid_rewrite in_map_iff.
  setoid_rewrite <- list_elem_of_In. split.
  - intros (c0 & Hc & v & <- & Hv). by exists c0, v.
  - intros (c0 & v & Hc & Hv & ->). exists c0. split; [done|]. by exists v.
Qed.
Lemma extend_length schema field combinations :
  length (extend_combinations schema field combinations) = length combinations * length (display_values schema field).
Proof.
  unfold extend_combinations. induction combinations as [|c l IH]; [done|]. cbn [flat_map]. rewrite length_app, length_map, IH. cbn. lia.
Qed.
Lemma extend_NoDup schema field combinations :
  NoDup combinations → NoDup (display_values schema field) → NoDup (extend_combinations schema field combinations).
Proof.
  intros Hc Hv. induction Hc as [|c l Hn Hc IH]; [constructor|]. unfold extend_combinations. cbn [flat_map].
  apply NoDup_app. split_and!; [| |exact IH].
  - apply (NoDup_fmap_2_strong (λ value, c ++ [(field, value)])); [|done]. intros a b _ _ Hab. by simplify_list_eq.
  - intros x Hx (c0 & v' & Hc0 & _ & ->)%extend_elem. apply list_elem_of_In, in_map_iff in Hx as (v & Heq & _).
    apply app_inj_tail in Heq as [-> _]. done.
Qed.

(** What the loop over the fields gives. *)
Lemma row_combinations_spec schema fields : ∀ combinations cs,
  row_combinations schema fields combinations = Some cs → NoDup combinations →
  (∀ f, f ∈ fields → NoDup (display_values schema f)) →
  NoDup cs ∧ ∀ c, c ∈ cs ↔ ∃ a b, a ∈ combinations ∧ combines schema fields b ∧ c = a ++ b.
Proof.
  induction fields as [|field fields IH]; intros combinations cs; cbn [row_combinations].
  - intros [= <-] Hd _. split; [done|]. intros c. split.
    + intros Hc. exists c, []. rewrite app_nil_r. split_and!; [done|split; [done|set_solver]|done].
    + intros (a & b & Ha & [Hb _] & ->). apply fmap_nil_inv in Hb as ->. by rewrite app_nil_r.
  - destruct (is_empty _ || _); [done|]. intros Hcs Hd Hv.
    destruct (IH (extend_combinations schema field combinations) cs Hcs) as [Hnd Hin];
      [apply extend_NoDup; [done|apply Hv; set_solver]|intros f Hf; apply Hv; set_solver|].
    split; [done|]. intros c. rewrite Hin. split.
    + intros (a & b & (a0 & v & Ha0 & Hval & ->)%extend_elem & [Hb1 Hb2] & ->).
      exists a0, ((field, v) :: b). rewrite <- app_assoc. split_and!; [done| |done].
      split; [by rewrite fmap_cons, Hb1|]. intros p [->|Hp]%elem_of_cons; [done|by apply Hb2].
    + intros (a & b & Ha & [Hb1 Hb2] & ->). destruct b as [|[f v] b]; [done|]. injection Hb1 as -> Hb1.
      exists (a ++ [(field, v)]), b. rewrite <- app_assoc. split_and!; [|split; [done|]|done].
      * apply extend_elem. exists a, v. split_and!; [done| |done]. apply (Hb2 (field, v)). set_solver.
      * intros p Hp. apply Hb2. set_solver.
Qed.

(** The loop ends early exactly when a field has no values or there are too
    many combinations. *)
Fixpoint combination_count (schema : BillingUsageSchema) (fields : list jsstring) : nat :=
  match fields with
  | [] => 1
  | field :: fields => length (display_values schema field) * combination_count schema fields
  end.
Lemma row_combinations_total schema fields : ∀ combinations,
  (∀ f, f ∈ fields → display_values schema f ≠ []) →
  length combinations * combination_count schema fields ≤ 256 → is_Some (row_combinations schema fields combinations).
Proof.
  induction fields as [|field fields IH]; intros combinations Hv Hn; cbn [row_combinations]; [done|].
  cbn [combination_count] in Hn.
  assert (display_values schema field ≠ []) as Hf by (apply Hv; set_solver).
  assert (1 ≤ combination_count schema fields) as Hone.
  { clear -Hv. induction fields as [|g fields IH]; cbn; [lia|]. assert (display_values schema g ≠ []) by (apply Hv; set_solver).
    assert (1 ≤ combination_count schema fields) by (apply IH; intros f Hf; apply Hv; set_solver).
    destruct (display_values schema g); [done|]. cbn. lia. }
  replace (is_empty (display_values schema field)) with false by (by destruct (display_values schema field)). cbn [orb].
  replace (256 <? _) with false by (symmetry; apply Nat.ltb_ge; nia).
  apply (IH (extend_combinations schema field combinations)); [intros f Hin; apply Hv; set_solver|]. rewrite extend_length. lia.
Qed.

Lemma new_set_elem items x : x ∈ new_set items ↔ x ∈ items.
Proof.
  unfold new_set. enough (∀ s, x ∈ foldl (λ set x, if str_in x set then set else set ++ [x]) s items ↔ x ∈ s ∨ x ∈ items) as ->
    by set_solver. induction items as [|y items IH]; intros s; cbn [foldl]; [set_solver|]. rewrite IH.
  destruct (str_in y s) eqn:E; [apply str_in_elem in E; set_solver|set_solver].
Qed.
Lemma new_set_NoDup items : NoDup (new_set items).
Proof.
  unfold new_set. enough (∀ s, NoDup s → NoDup (foldl (λ set x, if str_in x set then set else set ++ [x]) s items)) as H
    by apply H, NoDup_nil_2.
  induction items as [|y items IH]; intros s Hs; cbn [foldl]; [done|]. apply IH. destruct (str_in y s) eqn:E; [done|].
  apply NoDup_app. split_and!; [done| |apply NoDup_singleton]. intros x Hx ->%list_elem_of_singleton.
  apply not_true_iff_false in E. apply E. by apply str_in_elem.
Qed.
Lemma sort_texts_Permutation l : sort_texts l ≡ₚ l.
Proof.
  induction l as [|x l IH]; [done|]. change (sort_texts (x :: l)) with (insert_text x (sort_texts l)). rewrite <- IH at 2.
  generalize (sort_texts l). clear. intros l. induction l as [|y l IH]; cbn; [done|]. destruct (str_ltb y x); [|done].
  rewrite IH. apply Permutation_swap.
Qed.

Definition row_fields (rows : list TaskTier) : list jsstring :=
  sort_texts (new_set (flat_map (λ tier, map fst (task_conditions tier)) rows)).

Lemma row_fields_elem rows f : f ∈ row_fields rows ↔ ∃ row v, row ∈ rows ∧ (f, v) ∈ task_conditions row.
Proof.
  unfold row_fields. rewrite sort_texts_Permutation, new_set_elem, list_elem_of_In, in_flat_map.
  setoid_rewrite in_map_iff. setoid_rewrite <- list_elem_of_In. split.
  - intros (row & Hrow & [f' v] & <- & Hc). by exists row, v.
  - intros (row & v & Hrow & Hc). exists row. split; [done|]. by exists (f, v).
Qed.
Lemma row_fields_NoDup rows : NoDup (row_fields rows).
Proof. unfold row_fields. rewrite sort_texts_Permutation. apply new_set_NoDup. Qed.

(** The combination of given facts. *)
Definition chosen (facts : jsstring → jsstring) (fields : list jsstring) : Conditions := map (λ f, (f, facts f)) fields.

Lemma chosen_elem facts fields p : p ∈ chosen facts fields ↔ p.1 ∈ fields ∧ facts p.1 = p.2.
Proof.
  unfold chosen. rewrite list_elem_of_In, in_map_iff. setoid_rewrite <- list_elem_of_In. destruct p as [f v]. cbn. split.
  - intros (? & [= -> <-] & ?). done.
  - intros [Hf <-]. by exists f.
Qed.
Lemma chosen_combines schema facts fields :
  (∀ f, f ∈ fields → facts f ∈ display_values schema f) → combines schema fields (chosen facts fields).
Proof.
  intros Hf. split.
  - clear. induction fields as [|f fields IH]; [done|]. cbn. f_equal. exact IH.
  - intros p [Hp <-]%chosen_elem. by apply Hf.
Qed.
Lemma chosen_unique facts fields c : c.*1 = fields → facts_hold facts c ↔ c = chosen facts fields.
Proof.
  intros <-. split.
  - intros Hc. unfold chosen. induction c as [|[f v] c IH]; [done|]. cbn. f_equal.
    + f_equal. symmetry. apply (Hc (f, v)). set_solver.
    + apply IH. intros p Hp. apply Hc. set_solver.
  - intros -> p [_ Hp]%chosen_elem. done.
Qed.

(** A row covers the combination of the facts exactly when it holds of them. *)
Lemma row_covers_chosen facts fields row :
  (∀ f v, (f, v) ∈ task_conditions row → f ∈ fields) →
  row_covers (chosen facts fields) row = true ↔ facts_hold facts (task_conditions row).
Proof.
  intros Hf. unfold row_covers. rewrite forallb_forall. split.
  - intros H [f v] Hc. cbn. apply list_elem_of_In in Hc. specialize (H _ Hc). apply existsb_exists in H as ([f' v'] & Hin & Heq).
    cbn in Heq. apply andb_true_iff in Heq as [->%str_eqb_eq ->%str_eqb_eq]. apply list_elem_of_In, chosen_elem in Hin as [_ Hin]. exact Hin.
  - intros H [f v] Hc. apply list_elem_of_In in Hc. apply existsb_exists. exists (f, v). split; [|by rewrite !str_eqb_refl].
    apply list_elem_of_In, chosen_elem. split; [by eapply Hf|by apply (H (f, v))].
Qed.

Lemma filter_unique {A} (p : A → bool) l x : NoDup l → List.filter p l = [x] ↔ ∀ y, y ∈ l ∧ p y = true ↔ y = x.
Proof.
  intros Hd. assert (∀ y, y ∈ List.filter p l ↔ y ∈ l ∧ p y = true) as Hf
    by (intros y; rewrite !list_elem_of_In; apply filter_In).
  split.
  - intros He y. rewrite <- Hf, He. apply list_elem_of_singleton.
  - intros H. setoid_rewrite <- Hf in H. assert (NoDup (List.filter p l)) as Hnd by (by apply NoDup_ListNoDup, List.NoDup_filter, NoDup_ListNoDup).
    destruct (List.filter p l) as [|a [|b r]]; [exfalso; pose proof (proj2 (H x) eq_refl); set_solver| |].
    + f_equal. apply H. set_solver.
    + assert (a = x) as -> by (apply H; set_solver). assert (b = x) as -> by (apply H; set_solver). apply NoDup_cons in Hnd as [Hnd _]. set_solver.
Qed.

(** A choice of facts that no row before the fallback is for. *)
Definition escapes (schema : BillingUsageSchema) (rows : list TaskTier) (c : Conditions) : Prop :=
  combines schema (row_fields rows) c ∧
  ∀ facts row, facts_hold facts c → row ∈ rows → ¬ facts_hold facts (task_conditions row).

Section Fallback.
Context (schema : BillingUsageSchema) (previous : list TaskTier).

Lemma combination_facts c : c.*1 = row_fields previous → ∃ facts, c = chosen facts (row_fields previous).
Proof.
  intros Hc. exists (λ f, default [] (mget c f)). apply (chosen_unique _ _ _ Hc). intros [f v] Hin. cbn.
  rewrite (mget_unique c f v); [done| |done]. rewrite Hc. apply row_fields_NoDup.
Qed.

Lemma escapes_uncovered c :
  escapes schema previous c ↔ combines schema (row_fields previous) c ∧ existsb (row_covers c) previous = false.
Proof.
  split; intros [Hc H]; (split; [done|]).
  - apply not_true_iff_false. intros (row & Hrow%list_elem_of_In & Hcov)%existsb_exists.
    destruct (combination_facts c (proj1 Hc)) as [facts ->].
    apply row_covers_chosen in Hcov; [|intros f v ?; apply row_fields_elem; by exists row, v].
    apply (H facts row); [|done|done]. by apply (chosen_unique facts _ _ (proj1 Hc)).
  - intros facts row Hfacts Hrow Hhold. apply not_true_iff_false in H. apply H, existsb_exists. exists row.
    split; [by apply list_elem_of_In|]. apply (chosen_unique facts _ _ (proj1 Hc)) in Hfacts as ->.
    apply row_covers_chosen; [|done]. intros f v ?. apply row_fields_elem. by exists row, v.
Qed.

#[local] Set Default Proof Using "All".
Context (fallback : TaskTier).
Context (Hprevious : previous ≠ []).
Context (Hvalues : ∀ f, f ∈ row_fields previous → display_values schema f ≠ [] ∧ NoDup (display_values schema f)).
Context (Hcount : combination_count schema (row_fields previous) ≤ 256).

(** The loop with the filter: one combination is left. *)
Lemma name_fallback_cases :
  (∃ c, (∀ c', escapes schema previous c' ↔ c' = c) ∧
        name_fallback schema (previous ++ [fallback]) = previous ++ [with_conditions fallback c]) ∨
  ((¬ ∃ c, ∀ c', escapes schema previous c' ↔ c' = c) ∧
   name_fallback schema (previous ++ [fallback]) = previous ++ [fallback]).
Proof.
  destruct (row_combinations_total schema (row_fields previous) [[]]) as [cs Hcs];
    [intros f Hf; by apply Hvalues|cbn [length]; lia|].
  destruct (row_combinations_spec _ _ _ _ Hcs) as [Hd Hin]; [apply NoDup_singleton|intros f Hf; by apply Hvalues|].
  assert (∀ c, c ∈ cs ↔ combines schema (row_fields previous) c) as Hcs'.
  { intros c. rewrite Hin. split; [by intros (a & b & ->%list_elem_of_singleton & Hb & ->)|]. intros Hc. exists [], c. set_solver. }
  assert (∀ c, (c ∈ cs ∧ negb (existsb (row_covers c) previous) = true) ↔ escapes schema previous c) as Hesc.
  { intros c. by rewrite Hcs', negb_true_iff, escapes_uncovered. }
  unfold name_fallback. rewrite last_snoc, length_app. cbn [length].
  replace (length previous + 1 - 1) with (length previous) by lia. rewrite take_app_length. fold (row_fields previous).
  assert (length previous + 1 <? 2 = false) as -> by (apply Nat.ltb_ge; destruct previous; cbn in *; [done|lia]).
  rewrite Hcs.
  destruct (List.filter (λ c, negb (existsb (row_covers c) previous)) cs) as [|c [|c2 rest]] eqn:Ef.
  2: { left. exists c. split; [|done]. intros c'. rewrite <- Hesc. revert c'. by apply (filter_unique (λ c, negb (existsb (row_covers c) previous))). }
  all: right; split; [|done]; intros (x & Hx).
  all: assert (List.filter (λ c, negb (existsb (row_covers c) previous)) cs = [x]) as E
    by (apply filter_unique; [done|]; intros y; rewrite Hesc; apply Hx).
  all: rewrite E in Ef; done.
Qed.
End Fallback.

(** C13. The last row of a price table, where there are rows before it whose
    conditions ask for fields that have values, each once, with at most 256
    combinations of them (of more the code names none): it is named by conditions
    exactly when one choice of facts, among the values of those fields, is left
    to it; its conditions then hold of the facts of a call exactly when those of
    no earlier row do. Otherwise the rows are shown as they are. *)
Theorem fallback_named_exactly schema previous fallback :
  previous ≠ [] →
  (∀ f, f ∈ row_fields previous → display_values schema f ≠ [] ∧ NoDup (display_values schema f)) →
  combination_count schema (row_fields previous) ≤ 256 →
  let rows := previous ++ [fallback] in
  (∃ c, (∀ c', escapes schema previous c' ↔ c' = c) ∧
     name_fallback schema rows = previous ++ [with_conditions fallback c] ∧
     ∀ facts, (∀ f, f ∈ row_fields previous → facts f ∈ display_values schema f) →
       facts_hold facts c ↔ ∀ row, row ∈ previous → ¬ facts_hold facts (task_conditions row)) ∨
  ((¬ ∃ c, ∀ c', escapes schema previous c' ↔ c' = c) ∧ name_fallback schema rows = rows).
Proof.
  intros Hp Hv Hn rows. destruct (name_fallback_cases schema previous fallback Hp Hv Hn) as [(c & Hc & He)|?]; [left|by right].
  exists c. split_and!; [done|done|]. intros facts Hf.
  destruct (proj2 (Hc c) eq_refl) as [[Hfields _] Hesc]. split.
  - intros Hhold row Hrow. by apply (Hesc facts row).
  - intros Hno. apply (chosen_unique facts _ _ Hfields). symmetry. apply Hc. split; [by apply chosen_combines|].
    intros facts' row Hfacts' Hrow Hhold. apply (Hno row Hrow).
    intros [f v] Hin. rewrite <- (Hhold (f, v) Hin). cbn.
    symmetry. apply (Hfacts' (f, facts f)). apply chosen_elem. split; [|done]. apply row_fields_elem. by exists row, v.
Qed.

Definition two_resolutions : BillingUsageSchema :=
  [(js "seconds", plain_field (Some type_number) (Some unit_second) None);
   (js "resolution", plain_field None None (Some [js "720p"; js "1080p"]))].
Definition cheap_row : TaskTier :=
  mkTaskTier None (js "720p") [(js "resolution", js "720p")] zero [(js "seconds", one)].
Definition other_row : TaskTier := mkTaskTier None (js "other") [] zero [(js "seconds", num_of_Z 2)].

Example fallback_named_exactly_witness :
  let rows := [cheap_row] ++ [other_row] in
  (∃ c, (∀ c', escapes two_resolutions [cheap_row] c' ↔ c' = c) ∧
     name_fallback two_resolutions rows = [cheap_row] ++ [with_conditions other_row c] ∧
     ∀ facts, (∀ f, f ∈ row_fields [cheap_row] → facts f ∈ display_values two_resolutions f) →
       facts_hold facts c ↔ ∀ row, row ∈ [cheap_row] → ¬ facts_hold facts (task_conditions row)) ∨
  ((¬ ∃ c, ∀ c', escapes two_resolutions [cheap_row] c' ↔ c' = c) ∧ name_fallback two_resolutions rows = rows).
Proof.
  apply (fallback_named_exactly two_resolutions [cheap_row] other_row).
  - discriminate.
  - intros f Hf. change (row_fields [cheap_row]) with [js "resolution"] in Hf. apply list_elem_of_singleton in Hf as ->.
    split; [discriminate|]. change (display_values _ _) with [js "720p"; js "1080p"]. apply NoDup_ListNoDup. repeat constructor; set_solver.
  - vm_compute. lia.
Defined.
Example named_other :
  name_fallback two_resolutions [cheap_row; other_row] = [cheap_row; with_conditions other_row [(js "resolution", js "1080p")]].
Proof. vm_compute. reflexivity. Qed.

(** ** Ranges *)

(** The least and the greatest of a list of prices, both of them prices. *)
Definition spans (low high : num) (values : list num) : Prop :=
  low ∈ values ∧ high ∈ values ∧ ∀ v, v ∈ values → num_leb low v = true ∧ num_leb v high = true.

Lemma shown_price_finite v : shown_price v = true → is_finite v = true ∧ is_nan v = false ∧ num_leb zero v = true.
Proof.
  unfold shown_price. intros [Hf Hn%negb_true_iff]%andb_true_iff.
  assert (is_nan v = false) as Hnan by (by destruct v). assert (is_nan zero = false) by done. split_and!; [done|done|]. num_order.
Qed.

Lemma widen_spec values : ∀ low high, is_nan low = false → is_nan high = false → Forall (λ v, is_nan v = false) values →
  let r := foldl widen (low, high) values in
  (r.1 = low ∨ r.1 ∈ values) ∧ (r.2 = high ∨ r.2 ∈ values) ∧ num_leb r.1 low = true ∧ num_leb high r.2 = true ∧
  ∀ v, v ∈ values → num_leb r.1 v = true ∧ num_leb v r.2 = true.
Proof.
  induction values as [|v values IH]; intros low high Hl Hh Hv; cbn [foldl].
  - cbn. split_and!; [by left|by left|by apply num_leb_refl..|set_solver].
  - apply Forall_cons in Hv as [Hv Hvs]. change (widen (low, high) v) with (num_min low v, num_max high v).
    destruct (num_min_spec low v Hl Hv) as (Hmin & Hm1 & Hm2), (num_max_spec high v Hh Hv) as (Hmax & Hx1 & Hx2).
    assert (is_nan (num_min low v) = false) as Hn1 by (destruct Hmin as [->| ->]; done).
    assert (is_nan (num_max high v) = false) as Hn2 by (destruct Hmax as [->| ->]; done).
    destruct (IH _ _ Hn1 Hn2 Hvs) as (H1 & H2 & H3 & H4 & H5). split_and!.
    + destruct H1 as [->|H1]; [|set_solver]. destruct Hmin as [->| ->]; set_solver.
    + destruct H2 as [->|H2]; [|set_solver]. destruct Hmax as [->| ->]; set_solver.
    + by eapply num_leb_trans.
    + by eapply num_leb_trans.
    + intros w [->|Hw]%elem_of_cons; [|by apply H5]. split; by eapply num_leb_trans.
Qed.
Lemma widen_shown values : values ≠ [] → Forall (λ v, shown_price v = true) values →
  spans (foldl widen (infinity, num_neg infinity) values).1 (foldl widen (infinity, num_neg infinity) values).2 values.
Proof.
  intros Hne Hv.
  destruct (widen_spec values infinity (num_neg infinity)) as (H1 & H2 & _ & _ & H5); [done|done| |].
  { eapply Forall_impl; [exact Hv|]. by intros v (? & ? & ?)%shown_price_finite. }
  set (r := foldl _ _ _) in *. destruct values as [|v values]; [done|].
  destruct (H5 v ltac:(set_solver)) as [Hlow Hhigh]. apply Forall_cons in Hv as [(Hf & _ & _)%shown_price_finite _].
  split_and!; [| |exact H5].
  - destruct H1 as [Hr|]; [|done]. rewrite Hr in Hlow. by destruct v as [[]| | |[] ? ?].
  - destruct H2 as [Hr|]; [|done]. rewrite Hr in Hhigh. by destruct v as [[]| | |[] ? ?].
Qed.
Lemma spans_shown low high values : spans low high values → Forall (λ v, shown_price v = true) values →
  shown_price low = true ∧ shown_price high = true.
Proof. intros (Hl & Hh & _) Hv. rewrite Forall_forall in Hv. auto. Qed.

(** ** Entries *)

Lemma flat_mapM_elem {A B} (f : A → result (list B)) l ys : flat_mapM f l = Ok ys →
  ∀ y, y ∈ ys ↔ ∃ x xs, x ∈ l ∧ f x = Ok xs ∧ y ∈ xs.
Proof.
  revert ys. induction l as [|x l IH]; intros ys; cbn [flat_mapM]; [intros [= <-]; set_solver|].
  destruct (f x) as [xs|] eqn:Hx; cbn; [|done]. destruct (flat_mapM f l) as [rest|]; cbn; [|done]. intros [= <-] y.
  rewrite elem_of_app, (IH rest eq_refl). split.
  - intros [Hy|(x' & xs' & ? & ? & ?)]; [by exists x, xs; set_solver|exists x', xs'; set_solver].
  - intros (x' & xs' & [->|Hin]%elem_of_cons & Hf & Hy); [|right; by exists x', xs']. left. rewrite Hx in Hf. by injection Hf as <-.
Qed.

(** An entry of a price per unit of usage, as the tier has it. *)
Definition usage_price (e : DynamicPriceEntry) : Prop :=
  shown_price (e_value e) = true ∧ e_minValue e = None ∧ e_maxValue e = None.

Section Summaries.
Context `{Host} `{LocaleHost} `{NumberHost}.
Context (store : option StoredCurrency) (clock : Date).

Lemma call_entry_unit key field label short value unit options e :
  call_entry store key field label short value unit options = Ok e → e_unit e = unit.
Proof. unfold call_entry. destruct (formatTaskUsageUnitPrice _ _ _); cbn; [|done]. by intros [= <-]. Qed.

Lemma task_entries_spec tier schema options es : task_entries store tier schema options = Ok es →
  ∀ e, e ∈ es → per_call e = false →
  usage_price e ∧ e_field e ∈ map fst (getTaskNumberFields (Some schema)) ∧
  tier_price (e_field e) (TaskRow tier) = Some (e_value e).
Proof.
  unfold task_entries. destruct (flat_mapM _ _) as [us|] eqn:Hus; cbn; [|done].
  intros Hes e He Hcall. assert (e ∈ us) as Hin.
  { destruct (num_ltb zero (constant tier)); [|congruence].
    destruct (call_entry _ _ _ _ _ _ _ _) as [c|] eqn:Hc; cbn in Hes; [|done]. injection Hes as <-.
    apply elem_of_app in He as [He| ->%list_elem_of_singleton]; [done|]. apply call_entry_unit in Hc.
    unfold per_call in Hcall. by rewrite Hc in Hcall. }
  apply (flat_mapM_elem _ _ _ Hus) in Hin as ([field definition] & xs & Hf & Hx & Hy). unfold usage_entry in Hx.
  destruct (field_unit definition) as [u|]; [|injection Hx as <-; set_solver].
  destruct (shown_price (default nan (own (unitPrices tier) field))) eqn:Hs; [|injection Hx as <-; set_solver].
  destruct (formatTaskUsageUnitPrice _ _ _); cbn in Hx; [|done]. injection Hx as <-. apply list_elem_of_singleton in Hy as ->.
  cbn. split_and!; [done| |by rewrite Hs]. by apply (list_elem_of_fmap_2 fst _ (field, definition)).
Qed.

Lemma fixed_entry_unit tier price options e : fixed_entry store tier price options = Ok e → per_call e = true.
Proof. unfold fixed_entry, per_call. by destruct (pt_imageCount tier); intros ->%call_entry_unit. Qed.

Lemma variable_entry_spec tier options v ys : variable_entry store tier options v = Ok ys → ∀ e, e ∈ ys → usage_price e.
Proof.
  unfold variable_entry. intros Hx e He. destruct (var_field v) as [[|c field]|]; [injection Hx as <-; set_solver| |injection Hx as <-; set_solver].
  revert Hx. generalize (c :: field). intros f Hx.
  destruct (shown_price (default nan (own (pt_fields tier) f))) eqn:Hs; cbn [negb] in Hx; [|injection Hx as <-; set_solver].
  destruct (_ && _ && _); [injection Hx as <-; set_solver|].
  apply bind_Ok in Hx as (text & _ & [= <-]). by apply list_elem_of_singleton in He as ->.
Qed.
Lemma token_entries_spec tier options es : token_entries store tier options = Ok es → ∀ e, e ∈ es → usage_price e.
Proof.
  unfold token_entries. generalize BILLING_PRICING_VARS. intros vars (us & Hus & [= <-])%bind_Ok e He.
  rewrite sort_by_Permutation in He. apply (flat_mapM_elem _ _ _ Hus) in He as (v & ys & _ & Hx & Hy). by eapply variable_entry_spec.
Qed.

(** Every usage price that is shown for a tier is a price of the tier. *)
Lemma entries_spec tier options es : getDynamicPriceEntries store tier options = Ok es →
  ∀ e, e ∈ es → per_call e = false →
  usage_price e ∧
  match tier with
  | Some (TaskRow row) =>
      e_field e ∈ map fst (getTaskNumberFields (usageSchema options)) ∧ tier_price (e_field e) (TaskRow row) = Some (e_value e)
  | _ => True
  end.
Proof.
  intros Hes e He Hcall. destruct tier as [[tier|tier]|]; cbn [getDynamicPriceEntries] in Hes.
  - assert (token_entries store tier options = Ok es ∨ ∃ price c, fixed_entry store tier price options = Ok c ∧ es = [c]) as [Ht|(p & c & Hc & ->)].
    { destruct (pt_billingUnit tier) as [[]|]; [by left| |by left]. destruct (pt_fixedPrice tier) as [p|]; [|by left]. right. exists p.
      destruct (fixed_entry store tier p options) as [c|]; cbn in Hes; [|done]. exists c. by injection Hes as <-. }
    + split; [by eapply token_entries_spec|done].
    + apply list_elem_of_singleton in He as ->. apply fixed_entry_unit in Hc. congruence.
  - destruct (usageSchema options) as [schema|]; [|injection Hes as <-; set_solver]. by eapply task_entries_spec.
  - injection Hes as <-. set_solver.
Qed.
(** ** The ranges of a summary *)

Lemma tier_price_shown f tiers : Forall (λ v, shown_price v = true) (omap (tier_price f) tiers).
Proof.
  apply Forall_forall. intros v (t & _ & Ht)%list_elem_of_omap. unfold tier_price in Ht. destruct t as [|t]; [done|].
  destruct (shown_price (default nan (own (unitPrices t) f))) eqn:E; [|done]. by injection Ht as <-.
Qed.
Lemma price_range_spans tiers f t v : t ∈ tiers → tier_price f t = Some v →
  ∃ low high, price_range tiers f = Some (low, high) ∧ spans low high (omap (tier_price f) tiers).
Proof.
  intros Ht Hv. assert (v ∈ omap (tier_price f) tiers) as Hin by (apply list_elem_of_omap; eauto).
  unfold price_range. set (values := omap (tier_price f) tiers) in *.
  pose proof (widen_shown values ltac:(intros ->; set_solver) (tier_price_shown f tiers)) as Hs.
  destruct (foldl widen (infinity, num_neg infinity) values) as [low high] eqn:E. cbn [fst snd] in *. exists low, high.
  destruct (spans_shown _ _ _ Hs (tier_price_shown f tiers)) as [(Hl & _)%shown_price_finite (Hh & _)%shown_price_finite].
  by rewrite Hl, Hh.
Qed.
Lemma price_ranges_spec schema tiers f :
  mget (price_ranges schema tiers) f =
  (if bool_decide (f ∈ map fst (getTaskNumberFields schema)) then price_range tiers f else None).
Proof.
  unfold price_ranges. set (step := λ ranges entry, _).
  enough (∀ l acc, mget (foldl step acc l) f =
    (if bool_decide (f ∈ map fst l) then match price_range tiers f with Some r => Some r | None => mget acc f end else mget acc f)) as ->
    by (case_bool_decide; [by destruct (price_range tiers f)|done]).
  induction l as [|[g d] l IH]; intros acc; [done|]. cbn [foldl map fst]. rewrite IH.
  assert (mget (step acc (g, d)) f = if decide (g = f) then match price_range tiers f with Some r => Some r | None => mget acc f end else mget acc f) as ->.
  { unfold step. cbn [fst]. destruct (decide (g = f)) as [->|Hg].
    - destruct (price_range tiers f); [|done]. by rewrite mget_mset, decide_True.
    - destruct (price_range tiers g); [|done]. by rewrite mget_mset, decide_False. }
  destruct (decide (g = f)) as [->|Hg].
  - rewrite (bool_decide_true (f ∈ f :: _)) by set_solver. case_bool_decide; by destruct (price_range tiers f).
  - destruct (decide (f ∈ map fst l)); [rewrite !bool_decide_true by set_solver|rewrite !bool_decide_false by set_solver]; done.
Qed.

(** A usage price with its range. *)
Definition price_in_range (e : DynamicPriceEntry) : Prop :=
  shown_price (low_price e) = true ∧ shown_price (high_price e) = true ∧
  num_leb (low_price e) (e_value e) = true ∧ num_leb (e_value e) (high_price e) = true.

Lemma usage_price_in_range e : usage_price e → price_in_range e.
Proof.
  intros (Hv & Hmin & Hmax). unfold price_in_range, low_price, high_price. rewrite Hmin, Hmax. cbn.
  destruct (shown_price_finite _ Hv) as (_ & Hn & _). split_and!; [done|done|by apply num_leb_refl..].
Qed.

(** The entries of a task price table: the last row's prices, ranged over all rows. *)
Definition ranged_price (tiers : list DynamicPricingTier) (e : DynamicPriceEntry) : Prop :=
  spans (low_price e) (high_price e) (omap (tier_price (e_field e)) tiers) ∧
  ∃ row, last tiers = Some row ∧ tier_price (e_field e) row = Some (e_value e).

Lemma ranged_in_range tiers e : ranged_price tiers e → price_in_range e.
Proof.
  intros (Hs & row & Hl & Hv). destruct (spans_shown _ _ _ Hs (tier_price_shown _ _)) as [Hs1 Hs2].
  destruct Hs as (_ & _ & Hall). destruct (Hall (e_value e)) as [Hs3 Hs4]; [|done].
  apply list_elem_of_omap. exists row. split; [|done]. apply last_Some in Hl as (l & ->). set_solver.
Qed.

Lemma ranged_entry_spec schema tiers options unranged es row :
  last tiers = Some row →
  flat_mapM (ranged_entry store (price_ranges schema tiers) options) unranged = Ok es →
  (∀ e, e ∈ unranged → per_call e = false →
     e_field e ∈ map fst (getTaskNumberFields schema) ∧ tier_price (e_field e) row = Some (e_value e)) →
  ∀ e, e ∈ es → per_call e = false → ranged_price tiers e.
Proof.
  intros Hlast Hes Hun e He Hcall. apply (flat_mapM_elem _ _ _ Hes) in He as (e0 & xs & Hin & Hx & He).
  assert (row ∈ tiers) as Hrow by (apply last_Some in Hlast as (l & ->); set_solver).
  unfold ranged_entry in Hx. rewrite price_ranges_spec in Hx.
  assert (per_call e0 = false → ∃ low high, price_range tiers (e_field e0) = Some (low, high) ∧
    spans low high (omap (tier_price (e_field e0)) tiers)) as Hrange.
  { intros Hc. destruct (Hun e0 Hin Hc) as [_ Hv]. by eapply price_range_spans. }
  destruct (bool_decide (e_field e0 ∈ map fst (getTaskNumberFields schema))) eqn:Ef.
  - destruct (price_range tiers (e_field e0)) as [[low high]|] eqn:Er.
    + apply bind_Ok in Hx as (text & _ & [= <-]). apply list_elem_of_singleton in He as ->. unfold per_call in *. cbn in Hcall.
      destruct (Hrange Hcall) as (? & ? & [= <- <-] & Hs). split; [exact Hs|]. exists row. split; [done|]. cbn. by apply Hun.
    + injection Hx as <-. apply list_elem_of_singleton in He as ->. by destruct (Hrange Hcall) as (? & ? & ? & _).
  - injection Hx as <-. apply list_elem_of_singleton in He as ->. apply bool_decide_eq_false in Ef. by destruct (Hun e0 Hin Hcall).
Qed.

(** What a summary of a model without variants holds. *)
Definition good_summary (s : DynamicPricingSummary) : Prop :=
  primaryEntries s ++ secondaryEntries s ≡ₚ entries s ∧
  (∀ e, e ∈ entries s → per_call e = false → price_in_range e) ∧
  (isTaskUsage s = true → ∀ e, e ∈ entries s → per_call e = false → ranged_price (s_tiers s) e).

Lemma filter_partition {A} (p : A → bool) l : List.filter p l ++ List.filter (λ x, negb (p x)) l ≡ₚ l.
Proof.
  induction l as [|x l IH]; cbn; [done|]. destruct (p x); cbn; [by rewrite IH|]. by rewrite <- Permutation_middle, IH.
Qed.

Lemma tiers_single_task model tiers : isTaskUsagePricingModel model = true → tiers_single model = Ok tiers →
  ∃ rows, tiers = map TaskRow rows.
Proof.
  intros Ht. unfold tiers_single. destruct (negb _); [intros [= <-]; by exists []|].
  intros (split & _ & H')%bind_Ok. rewrite Ht in H'. apply bind_Ok in H' as (rows & _ & [= <-]). by exists rows.
Qed.

Lemma summary_single_good model options s : summary_single store clock model options = Ok (Some s) → good_summary s.
Proof.
  unfold summary_single. destruct (negb (isDynamicPricingModel model)); [done|].
  pose proof (tiers_single_task model) as Htask. set (task := isTaskUsagePricingModel model) in *. set (schema := billing_usage_schema model).
  intros (tiers & Htiers & (base & _ & (times & Ht & (shown & Hshown & (mixed & Hm & (es & Hes & (rules & _ & [= <-])%bind_Ok)%bind_Ok)%bind_Ok)%bind_Ok)%bind_Ok)%bind_Ok)%bind_Ok.
  pose proof (entries_spec _ _ _ Hshown) as Hentries. unfold good_summary. cbn [primaryEntries secondaryEntries entries isTaskUsage s_tiers].
  split; [apply filter_partition|]. destruct task.
  - injection Ht as <-. injection Hm as <-. cbn [default] in Hes.
    assert (∀ e, e ∈ es → per_call e = false → ranged_price tiers e) as Hr; [|split; [intros e ? ?; by eapply ranged_in_range, Hr|done]].
    destruct (Htask tiers eq_refl Htiers) as [rows' Hrows].
    destruct (last tiers) as [row|] eqn:Hlast; [|injection Hshown as <-; injection Hes as <-; set_solver].
    assert (∃ r, row = TaskRow r) as [r ->].
    { rewrite Hrows in Hlast. apply last_Some in Hlast as (l & Hl). assert (row ∈ map TaskRow rows') as Hin by (rewrite Hl; set_solver).
      apply list_elem_of_In, in_map_iff in Hin as (r & <- & _). by exists r. }
    eapply ranged_entry_spec; [exact Hlast|exact Hes|]. intros e He Hc. by destruct (Hentries e He Hc).
  - injection Hes as <-. split; [|done]. intros e He Hc. apply usage_price_in_range. destruct mixed as [mixed|]; [|by apply Hentries].
    cbn in He. unfold mixed_entries in Hm. destruct (List.find _ _) as [a|]; [|done]. destruct (List.find _ _) as [b|]; [|done].
    apply bind_Ok in Hm as (ea & Ha & (eb & Hb & [= <-])%bind_Ok).
    apply elem_of_app in He as [He|He]; [by apply (entries_spec _ _ _ Ha)|by apply (entries_spec _ _ _ Hb)].
Qed.
End Summaries.

(** ** Providers *)

Lemma after_colon a b u v : 58%N ∉ u → 58%N ∉ v → a ++ 58%N :: u = b ++ 58%N :: v → a = b ∧ u = v.
Proof.
  intros Hu Hv. revert b. induction a as [|c a IH]; intros [|d b] Heq; cbn in Heq.
  - by injection Heq as <-.
  - injection Heq as <- ->. set_solver.
  - injection Heq as -> <-. set_solver.
  - injection Heq as -> Heq. by destruct (IH b Heq) as [-> ->].
Qed.
Lemma unit_text_no_colon u : 58%N ∉ unit_text u.
Proof. destruct u as [[]| |]; apply not_elem_of_nil + (intros Hin; apply list_elem_of_In in Hin; vm_compute in Hin; naive_solver). Qed.
Lemma unit_text_inj u v : unit_text u = unit_text v → u = v.
Proof. destruct u as [[]| |], v as [[]| |]; try done; intros Heq; discriminate Heq. Qed.
Lemma price_key_inj a b : price_key a = price_key b → e_field a = e_field b ∧ e_unit a = e_unit b.
Proof.
  unfold price_key. change (js ":" ++ ?x) with (58%N :: x). intros Heq.
  apply after_colon in Heq as [? ?]; [|apply unit_text_no_colon..]. split; [done|by apply unit_text_inj].
Qed.
Lemma price_key_per_call a b : price_key a = price_key b → per_call a = per_call b.
Proof. intros [_ Hu]%price_key_inj. unfold per_call. by rewrite Hu. Qed.

(** The prices with one key. *)
Definition same_price_key (k : jsstring) (es : list DynamicPriceEntry) : list DynamicPriceEntry :=
  List.filter (λ e, bool_decide (price_key e = k)) es.
Lemma same_key_elem k es e : e ∈ same_price_key k es ↔ e ∈ es ∧ price_key e = k.
Proof. unfold same_price_key. rewrite !list_elem_of_In, filter_In, bool_decide_eq_true. done. Qed.

Definition merged_range (es : list DynamicPriceEntry) (k : jsstring) (r : PriceRange) : Prop :=
  price_key (r_entry r) = k ∧ same_price_key k es ≠ [] ∧
  r_min r = foldl num_min infinity (map low_price (same_price_key k es)) ∧
  r_max r = foldl num_max (num_neg infinity) (map high_price (same_price_key k es)).

Lemma same_key_snoc k es e :
  same_price_key k (es ++ [e]) = same_price_key k es ++ (if bool_decide (price_key e = k) then [e] else []).
Proof. unfold same_price_key. rewrite List.filter_app. cbn. by destruct (bool_decide _). Qed.

Lemma merge_entries_spec es :
  let ranges := foldl merge_entry [] es in
  NoDup ranges.*1 ∧ (∀ k r, mget ranges k = Some r → merged_range es k r) ∧ (∀ e, e ∈ es → is_Some (mget ranges (price_key e))).
Proof.
  induction es as [|e es IH] using rev_ind; cbn zeta.
  { cbn. split_and!; [constructor|done|set_solver]. }
  destruct IH as (Hnd & Hget & Hin). rewrite foldl_snoc. set (ranges := foldl merge_entry [] es) in *.
  set (r0 := mget ranges (price_key e)). 
  assert (∃ m, merge_entry ranges e = mset ranges (price_key e)
    (mkRange m (num_min (match r0 with Some range => r_min range | None => infinity end) (low_price e))
       (num_max (match r0 with Some range => r_max range | None => num_neg infinity end) (high_price e))) ∧ price_key m = price_key e)
    as (m & -> & Hm).
  { unfold merge_entry. fold r0. eexists. split; [done|].
    assert (price_key (match r0 with Some range => r_entry range | None => with_key e (price_key e) end) = price_key e) as Hk.
    { unfold r0. destruct (mget ranges (price_key e)) as [r|] eqn:Er; [by destruct (Hget _ _ Er)|done]. }
    destruct (blank_label _); exact Hk. }
  split_and!.
  - by apply mset_NoDup.
  - intros k r. rewrite mget_mset. destruct (decide (price_key e = k)) as [<-|Hne].
    + intros [= <-]. unfold merged_range. cbn [r_entry r_min r_max]. rewrite same_key_snoc, bool_decide_true, !map_app, !foldl_app by done.
      cbn [map foldl]. split_and!; [done|by destruct (same_price_key _ _)| |].
      all: unfold r0; destruct (mget ranges (price_key e)) as [r|] eqn:Er;
        [destruct (Hget _ _ Er) as (_ & _ & Hmin & Hmax); congruence|].
      all: assert (same_price_key (price_key e) es = []) as ->; [|done].
      all: destruct (same_price_key (price_key e) es) as [|x l] eqn:El; [done|]; assert (x ∈ same_price_key (price_key e) es) as Hx by (rewrite El; set_solver);
        apply same_key_elem in Hx as [Hx1 Hx2]; destruct (Hin x Hx1) as [r Hr]; rewrite Hx2 in Hr; congruence.
    + intros Hr. unfold merged_range. rewrite same_key_snoc, bool_decide_false, app_nil_r by done. by apply Hget.
  - intros x [Hx| ->%list_elem_of_singleton]%elem_of_app; rewrite mget_mset; [|rewrite decide_True by done; by eexists].
    case_decide; [by eexists|by apply Hin].
Qed.

(** The extremes of the two loops. *)
Lemma extremes_widen lows highs : ∀ low high,
  foldl num_min low lows = (foldl widen (low, high) lows).1 ∧ foldl num_max high highs = (foldl widen (low, high) highs).2.
Proof.
  split; revert low high.
  - induction lows as [|v l IH]; intros low high; [done|]. cbn [foldl]. rewrite (IH _ (num_max high v)). done.
  - induction highs as [|v l IH]; intros low high; [done|]. cbn [foldl]. rewrite (IH (num_min low v) _). done.
Qed.

(** The extremes of ranges of shown prices are extremes of those ranges. *)
Lemma merged_extremes es : es ≠ [] → (∀ e, e ∈ es → price_in_range e) →
  let low := foldl num_min infinity (map low_price es) in
  let high := foldl num_max (num_neg infinity) (map high_price es) in
  low ∈ map low_price es ∧ high ∈ map high_price es ∧
  (∀ e, e ∈ es → num_leb low (low_price e) = true ∧ num_leb (high_price e) high = true) ∧
  shown_price low = true ∧ shown_price high = true ∧ num_leb low high = true.
Proof.
  intros Hne Hes. cbn zeta.
  assert (∀ (f : DynamicPriceEntry → num), (∀ e, e ∈ es → shown_price (f e) = true) →
    spans (foldl num_min infinity (map f es)) (foldl num_max (num_neg infinity) (map f es)) (map f es)) as Hspan.
  { intros f Hf. rewrite (proj1 (extremes_widen (map f es) (map f es) infinity (num_neg infinity))), (proj2 (extremes_widen (map f es) (map f es) infinity (num_neg infinity))).
    apply widen_shown; [by destruct es|]. apply Forall_forall. intros v (e & <- & He%list_elem_of_In)%list_elem_of_In%in_map_iff. by apply Hf. }
  destruct (Hspan low_price) as (Hl & _ & Hlow); [intros e He; apply (Hes e He)|].
  destruct (Hspan high_price) as (_ & Hh & Hhigh); [intros e He; apply (Hes e He)|].
  set (low := foldl num_min _ _) in *. set (high := foldl num_max _ (map high_price es)) in *.
  assert (∀ e, e ∈ es → num_leb low (low_price e) = true ∧ num_leb (high_price e) high = true) as Hall.
  { intros e He. split; [apply Hlow|apply Hhigh]; apply list_elem_of_In, in_map_iff; exists e; by rewrite <- list_elem_of_In. }
  split_and!; [done..| | |].
  - apply list_elem_of_In, in_map_iff in Hl as (e & <- & He%list_elem_of_In). apply (Hes e He).
  - apply list_elem_of_In, in_map_iff in Hh as (e & <- & He%list_elem_of_In). apply (Hes e He).
  - destruct es as [|e es']; [done|]. destruct (Hall e ltac:(set_solver)) as [H1 H2], (Hes e ltac:(set_solver)) as (_ & _ & H3 & H4).
    eapply num_leb_trans; [exact H1|]. eapply num_leb_trans; [exact H3|]. by eapply num_leb_trans.
Qed.

Section Providers.
Context `{Host} `{LocaleHost} `{NumberHost}.
Context (store : option StoredCurrency) (clock : Date).

(** The prices of all providers under one key, and the range shown for them. *)
Definition provider_range (es : list DynamicPriceEntry) (E : DynamicPriceEntry) : Prop :=
  let same := same_price_key (price_key E) es in
  e_value E = low_price E ∧ low_price E ∈ map low_price same ∧ high_price E ∈ map high_price same ∧
  ∀ e, e ∈ same → num_leb (low_price E) (low_price e) = true ∧ num_leb (high_price e) (high_price E) = true.

Lemma flat_mapM_singletons {A B} (f : A → result (list B)) l ys : (∀ x xs, f x = Ok xs → ∃ y, xs = [y]) →
  flat_mapM f l = Ok ys → Forall2 (λ x y, f x = Ok [y]) l ys.
Proof.
  intros Hf. revert ys. induction l as [|x l IH]; intros ys; cbn [flat_mapM]; [intros [= <-]; constructor|].
  intros (xs & Hx & (rest & Hrest & [= <-])%bind_Ok)%bind_Ok. destruct (Hf _ _ Hx) as [y ->]. constructor; [done|]. by apply IH.
Qed.

Lemma provider_entry_spec options range xs : provider_entry store options range = Ok xs →
  ∃ E, xs = [E] ∧ price_key E = price_key (r_entry range) ∧ e_value E = r_min range ∧
    e_minValue E = Some (r_min range) ∧ e_maxValue E = Some (r_max range).
Proof.
  unfold provider_entry. intros (formatted & _ & (text & _ & [= <-])%bind_Ok)%bind_Ok. by eexists.
Qed.

Lemma provider_entries_good options es all :
  flat_mapM (provider_entry store options) (map snd (foldl merge_entry [] es)) = Ok all →
  (∀ e, e ∈ es → per_call e = false → price_in_range e) →
  NoDup (map price_key all) ∧ (∀ e, e ∈ es → ∃ E, E ∈ all ∧ price_key E = price_key e) ∧
  ∀ E, E ∈ all → per_call E = false → provider_range es E ∧ price_in_range E.
Proof.
  intros Hall Hes. destruct (merge_entries_spec es) as (Hnd & Hget & Hin). set (ranges := foldl merge_entry [] es) in *.
  apply flat_mapM_singletons in Hall as Hf; [|intros x xs Hx; destruct (provider_entry_spec _ _ _ Hx) as (E & -> & _); by exists E].
  assert (∀ k r, (k, r) ∈ ranges → merged_range es k r) as Hmerged by (intros k r Hkr; by apply Hget, mget_unique).
  assert (map price_key all = ranges.*1) as Hkeys.
  { clear Hall Hnd Hget Hin Hes. revert Hf Hmerged. clearbody ranges. revert all. induction ranges as [|[k r] ranges IH]; intros all Hf Hmerged;
      inversion Hf as [|? E ? rest Hx Hrest]; subst; [done|]. cbn. f_equal; [|apply IH; [done|set_solver]].
    destruct (provider_entry_spec _ _ _ Hx) as (E' & [= <-] & Hk & _). rewrite Hk. exact (proj1 (Hmerged k r (list_elem_of_here _ _))). }
  split_and!.
  - by rewrite Hkeys.
  - intros e He. destruct (Hin e He) as [r Hr]. assert (price_key e ∈ map price_key all) as Hk
      by (rewrite Hkeys; apply (list_elem_of_fmap_2 fst _ (price_key e, r)); by apply mget_Some).
    apply list_elem_of_In, in_map_iff in Hk as (E & HE & Hin'%list_elem_of_In). by exists E.
  - intros E HE Hcall. apply list_elem_of_lookup in HE as [i Hi]. destruct (Forall2_lookup_r _ _ _ _ _ Hf Hi) as (r & Hr & Hx).
    destruct (provider_entry_spec _ _ _ Hx) as (E' & [= <-] & Hk & Hv & Hmin & Hmax).
    apply list_elem_of_lookup_2, list_elem_of_In, in_map_iff in Hr as ([k r'] & Hr' & Hkr%list_elem_of_In). cbn in Hr'. subst r'.
    destruct (Hmerged k r Hkr) as (Hrk & Hne & Hlow & Hhigh). rewrite Hrk in Hk.
    destruct (merged_extremes (same_price_key k es) Hne) as (H1' & H2' & H3' & H4' & H5' & H6').
    { intros e [He Hke]%same_key_elem. apply Hes; [done|]. rewrite <- Hcall. apply price_key_per_call. congruence. }
    unfold provider_range, price_in_range, low_price, high_price. rewrite Hmin, Hmax, Hv, Hk, Hlow, Hhigh. cbn [default].
    split; split_and!; try done. apply num_leb_refl. exact (proj1 (proj2 (shown_price_finite _ H4'))).
Qed.
End Providers.

Section Summary.
Context `{Host} `{LocaleHost} `{NumberHost}.
Context (store : option StoredCurrency) (clock : Date).

Lemma variant_summaries_good model options ss : variant_summaries store clock model options = Ok ss →
  ∀ s, s ∈ ss → good_summary s.
Proof.
  intros Hss s Hs. apply (flat_mapM_elem _ _ _ Hss) in Hs as (v & xs & _ & Hx & Hin).
  apply bind_Ok in Hx as (summary & Hsum & [= <-]). destruct summary as [s'|]; [|set_solver].
  apply list_elem_of_singleton in Hin as ->. by eapply summary_single_good.
Qed.
Lemma per_call_entries_spec model options es : per_call_entries store model options = Ok es →
  ∀ e, e ∈ es → per_call e = true.
Proof.
  unfold per_call_entries. destruct (model_price _); [|intros [= <-]; set_solver].
  destruct (_ && _); [|intros [= <-]; set_solver]. intros (e' & Hc & [= <-])%bind_Ok e ->%list_elem_of_singleton.
  apply call_entry_unit in Hc. unfold per_call. by rewrite Hc.
Qed.

(** C14. Whatever the model, the primary and the secondary prices of its summary
    are all its prices, and every price per unit of usage is a finite number
    that is not negative and lies in its range. For a task price table the range
    of a price per unit of usage is the least and the greatest price of the field
    over all rows. With several providers there is one price for each field and
    unit that a provider has a price for; the range of one per unit of usage is
    the least and the greatest of the providers' prices, and the least is shown. A
    price per request or per image is kept as it comes, and nothing is said of
    its size or range. *)
Theorem summary_prices model options s :
  getDynamicPricingSummary store clock model options = Ok (Some s) →
  primaryEntries s ++ secondaryEntries s ≡ₚ entries s ∧
  (∀ e, e ∈ entries s → per_call e = false → price_in_range e) ∧
  match variants_of model with
  | [] => isTaskUsage s = true → ∀ e, e ∈ entries s → per_call e = false → ranged_price (s_tiers s) e
  | _ =>
      ∃ ss, variant_summaries store clock model options = Ok ss ∧ NoDup (map price_key (entries s)) ∧
        (∀ e, e ∈ flat_map entries ss → ∃ E, E ∈ entries s ∧ price_key E = price_key e) ∧
        ∀ E, E ∈ entries s → per_call E = false → provider_range (flat_map entries ss) E
  end.
Proof.
  unfold getDynamicPricingSummary. destruct (variants_of model) as [|v vs]; [apply summary_single_good|].
  intros (s' & Hs & [= <-])%bind_Ok. unfold summary_variants in Hs.
  apply bind_Ok in Hs as (ss & Hss & (calls & Hcalls & (all & Hall & [= <-])%bind_Ok)%bind_Ok).
  pose proof (variant_summaries_good _ _ _ Hss) as Hgood. pose proof (per_call_entries_spec _ _ _ Hcalls) as Hpc.
  cbn [primaryEntries secondaryEntries entries].
  destruct (provider_entries_good _ _ _ _ Hall) as (Hnd & Hfor & Hrange).
  { intros e [He|He]%elem_of_app Hc; [|apply Hpc in He; congruence].
    apply list_elem_of_In, in_flat_map in He as (s & Hs%list_elem_of_In & He%list_elem_of_In). by apply (Hgood s Hs). }
  split_and!.
  - rewrite sort_by_Permutation. rewrite (Permutation_app_comm (List.filter _ _)). apply filter_partition.
  - intros e He Hc. by apply Hrange.
  - exists ss. split_and!; [done|done|intros e He; apply Hfor; set_solver|]. intros E HE Hc.
    destruct (Hrange E HE Hc) as [Hr _]. unfold provider_range in *.
    replace (same_price_key (price_key E) (flat_map entries ss)) with (same_price_key (price_key E) (flat_map entries ss ++ calls)); [exact Hr|].
    unfold same_price_key. rewrite List.filter_app. replace (List.filter _ calls) with (@nil DynamicPriceEntry); [by rewrite app_nil_r|].
    symmetry. destruct (List.filter _ calls) as [|x l] eqn:Ex; [done|].
    assert (x ∈ same_price_key (price_key E) calls) as [Hx Hk]%same_key_elem by (unfold same_price_key; rewrite Ex; set_solver).
    apply Hpc in Hx. apply price_key_per_call in Hk. congruence.
Qed.
End Summary.

(** Two providers that charge a second differently. *)
#[local] Instance plain_host : Host := {| toLowerCase s := s; dateTimeFormat _ := None |}.
#[local] Instance plain_locale : LocaleHost := λ a b, negb (str_ltb b a).
#[local] Instance plain_numbers : NumberHost := {| intl_format _ x := Ok (num_to_string x); math_pow _ _ := num_div one (num_of_Z 1000000) |}.
Definition seconds_at (price : String.string) : jsstring :=
  js "tier(" ++ json_stringify (js "base") ++ js ", u(" ++ json_stringify (js "seconds") ++ js ") * " ++ js price ++ js ")".
Definition seconds_schema : BillingUsageSchema := [(js "seconds", plain_field (Some type_number) (Some unit_second) None)].
Definition two_providers : Model :=
  mkModel (mkCatalogue two_groups None None None None None) zero None None None None
    (Some [mkVariant (js "a") (seconds_at "2") None seconds_schema None;
           mkVariant (js "b") (seconds_at "3") None seconds_schema None]).
Definition plain_options : DynamicPriceOptions := mkPriceOptions unit_M None None None None None None None.

Example summary_prices_witness :
  ∃ s, getDynamicPricingSummary None None two_providers plain_options = Ok (Some s) ∧
    primaryEntries s ++ secondaryEntries s ≡ₚ entries s ∧
    map (λ e, (low_price e, high_price e)) (entries s) = [(num_of_Z 2, num_of_Z 3)].
Proof.
  assert (∃ s, getDynamicPricingSummary None None two_providers plain_options = Ok (Some s) ∧
    map (λ e, (low_price e, high_price e)) (entries s) = [(num_of_Z 2, num_of_Z 3)]) as (s & Hs & Hr)
    by (eexists; split; vm_compute; reflexivity).
  exists s. split_and!; [exact Hs|exact (proj1 (summary_prices None None two_providers plain_options s Hs))|exact Hr].
Defined.

(** A provider that bills tokens: its price for 1000 tokens is shown as the
    price for a million once providers are merged. *)
Definition tokens_at (price : String.string) : jsstring :=
  js "tier(" ++ json_stringify (js "base") ++ js ", p * " ++ js price ++ js ")".
Definition token_provider : BillingPluginVariant := mkVariant (js "a") (tokens_at "2") None [] None.
Definition by_thousand : DynamicPriceOptions := mkPriceOptions unit_K None None None None None None None.
Definition formatted_prices (model : Model) : result (list jsstring) :=
  summary ← getDynamicPricingSummary None None model by_thousand;
  Ok (match summary with Some s => map e_formatted (entries s) | None => [] end).
Example merged_price_ignores_unit :
  formatted_prices (withPluginPricing two_providers token_provider) = Ok [js "0.002"] ∧
  formatted_prices (mkModel (model_rest two_providers) zero None None None None (Some [token_provider])) = Ok [js "2"].
Proof. vm_compute. split; reflexivity. Qed.
