(* ===== verification/ModelCatalogue.v ===== *)
(** * features/pricing/lib/filters.ts, task-price-display.ts and lib/localized-text.ts

    The catalogue of the model square: which models a search and the filters
    leave, in which order, their tags, and the words for task prices in the
    language of the viewer. *)

From S2P Require Import Prelude JsNumber JsNumberFacts JsText Types Parser Compile Runtime Structure Display BillingExpr.
From S2P Require Import TaskDisplay ConditionDisplay TaskExpr BreakdownMatch PluginPricing JsMap JsValue PriceFormat DynamicPrice.

(** ** localized-text.ts *)

Section Texts.
Context `{Host} `{LocaleHost}.

(** [text.trim().replaceAll('_', '-').toLowerCase()]. *)
Definition locale_tag (text : jsstring) : jsstring :=
  toLowerCase (map (λ c, if (c =? 95)%N then 45%N else c) (trim text)).

Definition add_tag (keys : list jsstring) (tag : jsstring) : list jsstring :=
  if negb (tag =s []) && negb (str_in tag keys) then keys ++ [tag] else keys.
Definition localeFallbackKeys (language : jsstring) : list jsstring :=
  let normalized := locale_tag language in
  let keys := add_tag [] normalized in
  let keys := if normalized =s js "zhcn" then add_tag keys (js "zh-cn") else keys in
  let keys := if normalized =s js "zhtw" then add_tag keys (js "zh-tw") else keys in
  let keys :=
    match JsValue.index_of (js "-") normalized with
    | Some i => add_tag keys (take i normalized)
    | None => if (normalized =s js "zhcn") || (normalized =s js "zhtw") then add_tag keys (js "zh") else keys
    end in
  add_tag keys (js "en").

(** [left.localeCompare(right)] as the sign of a number. *)
Definition locale_compare (left right : jsstring) : num :=
  if locale_le left right then if locale_le right left then zero else num_neg one else one.

(** The texts that can be shown, by their normalized tags. *)
Definition usable_texts (texts : list (jsstring * jsstring)) : list (jsstring * jsstring) :=
  foldl (λ m entry,
    if trim entry.2 =s [] then m
    else
      let locale := locale_tag entry.1 in
      if locale =s [] then m else mset m locale entry.2) [] texts.

Fixpoint first_hit (texts : list (jsstring * jsstring)) (candidates : list jsstring) : option jsstring :=
  match candidates with
  | [] => None
  | candidate :: candidates =>
      match mget texts candidate with Some text => Some text | None => first_hit texts candidates end
  end.

Definition resolveLocalizedText (value : option LocalizedTextValue) (language : jsstring) : jsstring :=
  match value with
  | None => []
  | Some (PlainText text) => text
  | Some (LocalizedTexts entries) =>
      let texts := usable_texts entries in
      match first_hit texts (localeFallbackKeys language) with
      | Some text => text
      | None =>
          match sort_by locale_compare (map fst texts) with
          | firstKey :: _ => default [] (mget texts firstKey)
          | [] => []
          end
      end
  end.

(** ** task-price-display.ts *)

(** [text || fallback]. *)
Definition text_or (text fallback : jsstring) : jsstring := if text =s [] then fallback else text.

Definition taskPriceLabel (description : option LocalizedTextValue) (field language : jsstring) : jsstring :=
  let localized :=
    match description with
    | Some (LocalizedTexts texts) =>
        Some (LocalizedTexts (obj_define texts (js "en") (text_or (default [] (trim <$> own texts (js "en"))) field)))
    | _ => description
    end in
  text_or (resolveLocalizedText localized language) field.

Definition taskEnumLabel (definition : option BillingUsageFieldSchema) (value language : jsstring) : jsstring :=
  taskPriceLabel (definition ← definition; labels ← field_enumLabels definition; own labels value) value language.

Definition taskUsageUnitLabel (definition : option (option BillingUsageUnit * option LocalizedTextValue))
    (language fallback : jsstring) : jsstring :=
  match definition with
  | Some (Some unit_count, unitLabel) => text_or (resolveLocalizedText unitLabel language) fallback
  | _ => fallback
  end.

Context `{DisplayHost}.
Definition label_separator : jsstring := js " " ++ [183%N] ++ js " ".

Definition condition_label (schema : option BillingUsageSchema) (language : jsstring)
    (condition : jsstring * jsstring) : result jsstring :=
  let '(field, value) := condition in
  let definition := schema ← schema; own schema field in
  let label := taskPriceLabel (definition ← definition; field_description definition) field language in
  if bool_decide ((definition ← definition; field_type definition) = Some type_boolean) then
    answer ← translation (if value =s js "true" then js "Yes" else js "No") [];
    Ok (label ++ js ": " ++ answer)
  else
    let optionLabel := taskEnumLabel definition value language in
    Ok (if optionLabel =s value then label ++ js ": " ++ optionLabel else optionLabel).

Definition taskPricingConditions (conditions : Conditions) (schema : option BillingUsageSchema)
    (language : jsstring) : result jsstring :=
  labels ← flat_mapM (λ condition, label ← condition_label schema language condition; Ok [label]) conditions;
  Ok (join label_separator labels).

Definition taskTierConditions (tier : TaskTier) (schema : option BillingUsageSchema) (language : jsstring)
    : result jsstring :=
  usage ← taskPricingConditions (task_conditions tier) schema language;
  let time :=
    match truthy_text (task_conditionText tier) with
    | Some text => default text (formatBillingCondition language text)
    | None => []
    end in
  Ok (join label_separator (List.filter nonempty [usage; time])).
End Texts.

Definition hasSimpleTaskPricing (model : Model) : result bool :=
  match billing_usage_schema model, billing_expr model with
  | Some schema, Some ((_ :: _) as expression) =>
      if negb (tiered model) then Ok false
      else
        split ← splitBillingExprAndRequestRules expression;
        if nonempty (trim (requestRuleExpr split)) then Ok false
        else
          tiers ← getTaskPricingDisplayTiers (billingExpr split) (Some schema);
          Ok (match tiers with
              | [tier] => bool_decide (truthy_text (task_conditionText tier) = None)
              | _ => false
              end)
  | _, _ => Ok false
  end.

(** The visitor sets the flag at a usage field without metadata. *)
Definition metadata_visitor (schema : option BillingUsageSchema) (node : ExpressionNode) : stateR bool unit :=
  match node with
  | Call name args _ _ =>
      if name =s js "u" then
        match args, schema with
        | Literal (LString key) _ _ _ :: _, Some schema =>
            if bool_decide (own schema key = None) then put_st true else mret tt
        | _, _ => put_st true
        end
      else mret tt
  | _ => mret tt
  end.
Definition METADATA_UNAVAILABLE : jsstring :=
  js "Task usage metadata is unavailable. Pricing details cannot be displayed.".
Definition NOT_EXPANDABLE : jsstring :=
  js "This expression cannot be expanded into a price table. View the original expression below.".
Definition pricingDisplayFallbackKey (expression : jsstring) (schema : option BillingUsageSchema) : result jsstring :=
  missing ← match compile_source expression with
            | Ready compiled =>
                '(_, missing) ← visitExpression (metadata_visitor schema) (c_ast compiled) false;
                Ok missing
            | CompileFailed _ => Ok false
            end;
  Ok (if missing : bool then METADATA_UNAVAILABLE else NOT_EXPANDABLE).

(** ** filters.ts *)

Section Filters.
Context `{Host} `{LocaleHost}.

Definition text_includes (query : jsstring) (text : option jsstring) : bool :=
  match text with Some text => includes query (toLowerCase text) | None => false end.
Definition matches_search (query : jsstring) (m : Model) : bool :=
  let lowerQuery := toLowerCase query in
  let c := model_rest m in
  text_includes lowerQuery (model_name c) || text_includes lowerQuery (model_description c)
  || text_includes lowerQuery (tags c) || text_includes lowerQuery (vendor_name c).
Definition filterBySearch (models : list Model) (query : jsstring) : list Model :=
  if query =s [] then models else List.filter (matches_search query) models.

Definition of_vendor (vendor : jsstring) (m : Model) : bool := bool_decide (vendor_name (model_rest m) = Some vendor).
Definition filterByVendor (models : list Model) (vendor : jsstring) : list Model :=
  if vendor =s FILTER_ALL then models else List.filter (of_vendor vendor) models.

Definition in_group (group : jsstring) (m : Model) : bool :=
  match enable_groups (ratios (model_rest m)) with Some groups => str_in group groups | None => false end.
Definition filterByGroup (models : list Model) (group : jsstring) : list Model :=
  if group =s FILTER_ALL then models else List.filter (in_group group) models.

Definition of_quota_type (quotaType : jsstring) (m : Model) : bool :=
  if quotaType =s js "task" then hasTaskUsageSchema m
  else
    num_eqb (quota_type m) (if quotaType =s js "token" then QUOTA_TYPE_TOKEN else QUOTA_TYPE_REQUEST)
    && negb (hasTaskUsageSchema m).
Definition filterByQuotaType (models : list Model) (quotaType : jsstring) : list Model :=
  if quotaType =s js "all" then models else List.filter (of_quota_type quotaType) models.

Definition of_endpoint (endpointType : jsstring) (m : Model) : bool :=
  match supported_endpoint_types (model_rest m) with Some types => str_in endpointType types | None => false end.
Definition filterByEndpointType (models : list Model) (endpointType : jsstring) : list Model :=
  if endpointType =s js "all" then models else List.filter (of_endpoint endpointType) models.

(** [text.split(/[,;|\s]+/)]. *)
Definition tag_separator (c : code_unit) : bool := existsb (N.eqb c) (js ",;|") || is_space c.
Fixpoint split_runs (text : jsstring) (inside : bool) : list jsstring :=
  match text with
  | [] => [[]]
  | c :: text =>
      if tag_separator c then if inside then split_runs text true else [] :: split_runs text true
      else match split_runs text false with p :: ps => (c :: p) :: ps | [] => [[c]] end
  end.
Definition parseTags (tagsString : option jsstring) : list jsstring :=
  match tagsString with
  | None | Some [] => []
  | Some text => List.filter nonempty (map trim (split_runs text false))
  end.
Definition extractAllTags (models : list Model) : list jsstring :=
  sort_by locale_compare
    (unique (flat_map (λ m, map toLowerCase (parseTags (tags (model_rest m)))) models)).
Definition has_tag (tag : jsstring) (m : Model) : bool :=
  str_in (toLowerCase tag) (map toLowerCase (parseTags (tags (model_rest m)))).
Definition filterByTag (models : list Model) (tag : jsstring) : list Model :=
  if tag =s FILTER_ALL then models else List.filter (has_tag tag) models.

Definition getModelPrice (m : Model) : num :=
  let c := ratios (model_rest m) in
  if num_eqb (quota_type m) zero then model_ratio c
  else
    match model_price c with
    | Some price => if is_nan price || num_eqb price zero then zero else price
    | None => zero
    end.
Definition sort_order (sortBy : jsstring) : option (Model → Model → num) :=
  if sortBy =s js "name" then
    Some (λ a b, locale_compare (default [] (model_name (model_rest a))) (default [] (model_name (model_rest b))))
  else if sortBy =s js "price-low" then Some (λ a b, num_sub (getModelPrice a) (getModelPrice b))
  else if sortBy =s js "price-high" then Some (λ a b, num_sub (getModelPrice b) (getModelPrice a))
  else None.
Definition sortModels (models : list Model) (sortBy : jsstring) : list Model :=
  match sort_order sortBy with Some compare => sort_by compare models | None => models end.

Record CatalogueFilters := mkFilters {
  fl_search : jsstring;
  fl_vendor : jsstring;
  fl_group : jsstring;
  fl_quotaType : jsstring;
  fl_endpointType : jsstring;
  fl_tag : jsstring;
  fl_sortBy : jsstring
}.
Definition filterAndSortModels (models : list Model) (f : CatalogueFilters) : list Model :=
  let result := filterBySearch models (fl_search f) in
  let result := filterByVendor result (fl_vendor f) in
  let result := filterByGroup result (fl_group f) in
  let result := filterByQuotaType result (fl_quotaType f) in
  let result := filterByEndpointType result (fl_endpointType f) in
  let result := filterByTag result (fl_tag f) in
  sortModels result (fl_sortBy f).
End Filters.

(** * Facts *)

(** ** Texts *)

(** An entry whose text can be shown: neither its tag nor its text is blank. *)
Definition usable `{Host} (entry : jsstring * jsstring) : Prop := trim entry.2 ≠ [] ∧ locale_tag entry.1 ≠ [].

Section TextFacts.
Context `{Host} `{LocaleHost}.

Lemma usable_texts_spec entries :
  (∀ k text, mget (usable_texts entries) k = Some text → ∃ key, (key, text) ∈ entries ∧ usable (key, text)) ∧
  (∀ entry, entry ∈ entries → usable entry → is_Some (mget (usable_texts entries) (locale_tag entry.1))).
Proof.
  induction entries as [|[key text] entries IH] using rev_ind; [split; [done|set_solver]|].
  unfold usable_texts. rewrite foldl_snoc. fold (usable_texts entries). cbn [fst snd]. destruct IH as [IH1 IH2].
  assert (∀ t, (∃ key', (key', t) ∈ entries ∧ usable (key', t)) → ∃ key', (key', t) ∈ entries ++ [(key, text)] ∧ usable (key', t)) as Hmore
    by (intros t (key' & ? & ?); exists key'; set_solver).
  destruct (trim text =s []) eqn:Et; [|destruct (locale_tag key =s []) eqn:Ek].
  - apply str_eqb_eq in Et. split; [intros k t Hk; eapply Hmore, IH1, Hk|]. intros e [He| ->%list_elem_of_singleton]%elem_of_app Hu; [by apply IH2|]. by destruct Hu.
  - apply str_eqb_eq in Ek. split; [intros k t Hk; eapply Hmore, IH1, Hk|]. intros e [He| ->%list_elem_of_singleton]%elem_of_app Hu; [by apply IH2|]. by destruct Hu.
  - apply str_eqb_neq in Et, Ek. split.
    + intros k t. rewrite mget_mset. case_decide; [|intros Hk; eapply Hmore, IH1, Hk]. intros [= <-]. exists key. split; [set_solver|]. by split.
    + intros e [He| ->%list_elem_of_singleton]%elem_of_app Hu; rewrite mget_mset; [|rewrite decide_True by done; by eexists].
      case_decide; [by eexists|by apply IH2].
Qed.

Lemma first_hit_elem texts candidates text : first_hit texts candidates = Some text → ∃ k, mget texts k = Some text.
Proof.
  induction candidates as [|c candidates IH]; cbn; [done|]. destruct (mget texts c) as [t|] eqn:E; [|done]. intros [= <-]. by exists c.
Qed.

(** The text for a language is the text of an entry that is not blank; it is
    empty only when there is none. *)
Theorem localized_text_usable entries language :
  let text := resolveLocalizedText (Some (LocalizedTexts entries)) language in
  (∃ key, (key, text) ∈ entries ∧ usable (key, text)) ∨ (text = [] ∧ ∀ entry, entry ∈ entries → ¬ usable entry).
Proof.
  cbn [resolveLocalizedText]. destruct (usable_texts_spec entries) as [Hfrom Hto]. set (texts := usable_texts entries) in *.
  destruct (first_hit texts (localeFallbackKeys language)) as [text|] eqn:E.
  { left. destruct (first_hit_elem _ _ _ E) as [k Hk]. by apply (Hfrom k). }
  pose proof (sort_by_Permutation locale_compare (map fst texts)) as Hp. destruct (sort_by locale_compare (map fst texts)) as [|k ks].
  - right. split; [done|]. intros entry He Hu. destruct (Hto entry He Hu) as [t Ht]. apply mget_Some in Ht.
    apply Permutation_nil in Hp. destruct texts as [|p texts']; [set_solver|done].
  - left. assert (k ∈ map fst texts) as Hk by (rewrite <- Hp; set_solver).
    destruct (mget texts k) as [t|] eqn:Et; [by apply (Hfrom k)|]. by apply mget_None in Et.
Qed.
End TextFacts.

(** ** Filters *)

Section FilterFacts.
Context `{Host} `{LocaleHost}.

(** A model that every filter keeps. *)
Definition kept (f : CatalogueFilters) (m : Model) : bool :=
  ((fl_search f =s []) || matches_search (fl_search f) m)
  && (((fl_vendor f =s FILTER_ALL) || of_vendor (fl_vendor f) m)
  && (((fl_group f =s FILTER_ALL) || in_group (fl_group f) m)
  && (((fl_quotaType f =s js "all") || of_quota_type (fl_quotaType f) m)
  && (((fl_endpointType f =s js "all") || of_endpoint (fl_endpointType f) m)
  && ((fl_tag f =s FILTER_ALL) || has_tag (fl_tag f) m))))).

Lemma optional_filter {A} (off : bool) (p : A → bool) l :
  (if off then l else List.filter p l) = List.filter (λ x, off || p x) l.
Proof. destruct off; [|done]. induction l as [|x l IH]; cbn; [done|]. by f_equal. Qed.
Lemma filter_filter_and {A} (p q : A → bool) l : List.filter p (List.filter q l) = List.filter (λ x, q x && p x) l.
Proof. induction l as [|x l IH]; cbn; [done|]. destruct (q x); cbn; [destruct (p x); by rewrite IH|done]. Qed.

(** The models shown are those every filter keeps, whatever the order of the
    filters; without a sort order they keep their places. *)
Theorem catalogue_filtered models f :
  filterAndSortModels models f ≡ₚ List.filter (kept f) models ∧
  (sort_order (fl_sortBy f) = None → filterAndSortModels models f = List.filter (kept f) models).
Proof.
  unfold filterAndSortModels, filterBySearch, filterByVendor, filterByGroup, filterByQuotaType, filterByEndpointType, filterByTag.
  rewrite !optional_filter, !filter_filter_and. unfold sortModels.
  destruct (sort_order (fl_sortBy f)) as [compare|]; [|done]. split; [|done]. by rewrite sort_by_Permutation.
Qed.

(** By name they are in the order of the locale. *)
Theorem catalogue_by_name models f :
  fl_sortBy f = js "name" → (∀ x y, locale_le x y = true ∨ locale_le y x = true) →
  (∀ x y z, locale_le x y = true → locale_le y z = true → locale_le x z = true) →
  StronglySorted (λ a b, locale_le (default [] (model_name (model_rest a))) (default [] (model_name (model_rest b))) = true)
    (filterAndSortModels models f).
Proof.
  intros Hf Htotal Htrans. unfold filterAndSortModels. set (l := filterByTag _ _). clearbody l. unfold sortModels. rewrite Hf.
  change (sort_order (js "name")) with
    (Some (λ a b : Model, locale_compare (default [] (model_name (model_rest a))) (default [] (model_name (model_rest b))))).
  set (name m := default [] (model_name (model_rest m))).
  assert (∀ a b, precedes (λ a b : Model, locale_compare (name a) (name b)) a b ↔ locale_le (name a) (name b) = true) as Hle.
  { intros a b. unfold precedes, locale_compare. destruct (locale_le (name a) (name b)); [|split; [|done]; vm_compute; done].
    split; [done|]. intros _. by destruct (locale_le (name b) (name a)). }
  assert (StronglySorted (precedes (λ a b : Model, locale_compare (name a) (name b))) (sort_by (λ a b : Model, locale_compare (name a) (name b)) l)) as Hs.
  { apply sort_by_ordered; [intros x y; rewrite !Hle; apply Htotal|intros x y z; rewrite !Hle; apply Htrans]. }
  change (StronglySorted (λ a b, locale_le (name a) (name b) = true) (sort_by (λ a b : Model, locale_compare (name a) (name b)) l)).
  clear -Hs Hle. induction Hs as [|x sorted _ IH Hx]; constructor; [done|]. eapply Forall_impl; [exact Hx|]. intros y. apply Hle.
Qed.
End FilterFacts.

(** ** Tags *)

Lemma split_runs_units text : ∀ inside piece, piece ∈ split_runs text inside → Forall (λ c, tag_separator c = false) piece.
Proof.
  assert (∀ inside, split_runs text inside ≠ [] ∧ Forall (Forall (λ c, tag_separator c = false)) (split_runs text inside)) as H.
  { induction text as [|c text IH]; intros inside; cbn [split_runs]; [split; [done|by repeat constructor]|].
    destruct (tag_separator c) eqn:Ec.
    - destruct inside; [apply IH|]. split; [done|]. constructor; [constructor|apply IH].
    - destruct (IH false) as [Hne Hall]. destruct (split_runs text false) as [|p ps]; [done|]. apply Forall_cons in Hall as [Hp Hps].
      split; [done|]. constructor; [by constructor|done]. }
  intros inside piece Hin. destruct (H inside) as [_ Hall]. rewrite Forall_forall in Hall. by apply Hall.
Qed.

(** No tag is empty, and no tag holds a separator: a tag is a single word of the
    list of tags. *)
Theorem tags_are_words text tag : tag ∈ parseTags text → tag ≠ [] ∧ Forall (λ c, tag_separator c = false) tag.
Proof.
  unfold parseTags. destruct text as [[|c text]|]; [set_solver| |set_solver].
  intros [Hin Hne]%list_elem_of_In%filter_In. apply in_map_iff in Hin as (piece & <- & Hp%list_elem_of_In%split_runs_units).
  split; [by intros E; rewrite E in Hne|].
  replace (trim piece) with piece; [done|]. symmetry. apply trim_no_space. apply forallb_forall. intros d Hd%list_elem_of_In.
  rewrite Forall_forall in Hp. specialize (Hp d Hd). unfold tag_separator in Hp. apply orb_false_iff in Hp as [_ ->]. done.
Qed.
