(* ===== verification/ChannelForm.v ===== *)
(** * features/channels/lib/channel-form.ts, channel-plugin-extensions.ts and
    responses-websocket.ts

    The form of a channel: what a stored channel becomes in the form, the
    validation of the form, the two JSON documents of settings it writes and the
    payloads it sends. A channel keeps its extra settings as JSON text that the
    server and other programs also write, so a form value read from it without
    a check is of unknown type ([jsval]). The theorem is that opening and saving
    a channel keeps its settings. *)

From S2P Require Import Prelude JsNumber JsText Types CompileFacts Runtime RuntimeFacts JsRegex JsRegexFacts JsMap JsValue JsObject AdvancedCustom AdvancedCustomFacts AdvancedCustomTheorems ModelMappingFacts.
From Stdlib Require Import Floats.SpecFloat.

(** ** Channel types (constants.ts) *)

Definition CHANNEL_TYPE_OLLAMA : Z := 4.
Definition CHANNEL_TYPE_ADVANCED_CUSTOM : Z := 58.
Definition CHANNEL_TYPE_SUB2API : Z := 59.
Definition CHANNEL_TYPE_NEW_API : Z := 60.
Definition CHANNEL_TYPE_TASK_PLUGIN : Z := 61.
Definition CHANNEL_TYPE_VLLM : Z := 62.
Definition CHANNEL_TYPE_SGLANG : Z := 63.

(** [types.includes(t)], [types.has(t)]. *)
Definition has_type (types : list Z) (t : Z) : bool := existsb (Z.eqb t) types.

Definition MODEL_FETCHABLE_TYPES : list Z :=
  [1; 4; 14; 17; 20; 23; 24; 25; 26; 27; 31; 34; 35; 40; 42; 43; 47; 48; 57; 58; 59; 60;
   CHANNEL_TYPE_VLLM; CHANNEL_TYPE_SGLANG]%Z.
Definition FIELD_PASSTHROUGH_TYPES : list Z :=
  [1; 14; 57; 58; 59; CHANNEL_TYPE_NEW_API; CHANNEL_TYPE_VLLM; CHANNEL_TYPE_SGLANG]%Z.
Definition OPENAI_FIELD_PASSTHROUGH_TYPES : list Z :=
  [1; 57; 58; 59; CHANNEL_TYPE_NEW_API; CHANNEL_TYPE_VLLM; CHANNEL_TYPE_SGLANG]%Z.
Definition CLAUDE_FIELD_PASSTHROUGH_TYPES : list Z :=
  [14; 58; 59; CHANNEL_TYPE_NEW_API; CHANNEL_TYPE_VLLM; CHANNEL_TYPE_SGLANG]%Z.
Definition RESPONSES_WEBSOCKET_CHANNEL_TYPES : list Z :=
  [1; 57; CHANNEL_TYPE_ADVANCED_CUSTOM; CHANNEL_TYPE_SUB2API; CHANNEL_TYPE_NEW_API]%Z.

Definition supportsResponsesWebSocket (channelType : Z) : bool :=
  has_type RESPONSES_WEBSOCKET_CHANNEL_TYPES channelType.

(** The types with a name, [CHANNEL_TYPES] without [Unknown]; the order in
    which they are shown is left out. *)
Definition CHANNEL_TYPE_OPTIONS : list Z :=
  [1; 2; 3; 4; 5; 7; 8; 14; 15; 16; 17; 18; 19; 20; 22; 23; 24; 25; 26; 27; 31; 33; 34; 35; 36; 37; 38; 39; 40;
   41; 42; 43; 44; 45; 46; 47; 48; 49; 50; 51; 52; 53; 54; 55; 56; 57; 58; 59; 60; 61; 62; 63]%Z.

(** ** channel-plugin-extensions.ts *)

Definition LEGACY_TASK_PLUGIN_KEYS : list (Z * jsstring) :=
  [(36, js "sunoapi"); (50, js "kling"); (51, js "jimeng"); (52, js "vidu"); (54, js "doubao"); (55, js "sora")]%Z.

Definition supportsChannelPluginExtensions (channelType : Z) : bool :=
  negb (channelType =? CHANNEL_TYPE_TASK_PLUGIN)%Z && negb (is_some (mget LEGACY_TASK_PLUGIN_KEYS channelType))
  && has_type CHANNEL_TYPE_OPTIONS channelType.

(** The texts of an array that are not blank. *)
Definition text_keys (v : jsval) : list jsstring :=
  match v with
  | VArray items => omap (λ item, match item with VString k => if trim k =s [] then None else Some k | _ => None end) items
  | _ => []
  end.

Definition readTaskExtendPluginKeys (channelType : Z) (setting : jsval) : list jsstring :=
  if negb (channelType =? CHANNEL_TYPE_NEW_API)%Z || negb (truthy setting) then []
  else
    let keys := text_keys (prop setting (js "task_extend_plugin_keys")) in
    let single := match prop setting (js "task_plugin_key") with VString k => trim k | _ => [] end in
    unique (if single =s [] then keys else single :: keys).

Record TaskPluginOption := mkPlugin {
  plugin_key : jsstring;
  channelTypes : option (list Z);
  upstreams : option (list jsstring)
}.
Definition supportsNewAPIUpstream (plugin : TaskPluginOption) : bool :=
  match upstreams plugin with Some l => str_in (js "new_api") l | None => false end.
Definition getChannelPluginExtensions (channelType : Z) (plugins : list TaskPluginOption)
    (extendPluginKeys : list jsstring) : list TaskPluginOption :=
  if negb (supportsChannelPluginExtensions channelType) then []
  else if (channelType =? CHANNEL_TYPE_NEW_API)%Z
  then List.filter (λ plugin, str_in (plugin_key plugin) extendPluginKeys) plugins
  else List.filter (λ plugin, match channelTypes plugin with Some l => has_type l channelType | None => false end) plugins.

(** ** Channels and forms *)

Inductive MultiKeyMode := mode_single | mode_batch | mode_multi_to_single.
Inductive MultiKeyType := type_random | type_polling.
Inductive KeyMode := mode_append | mode_replace.
Inductive HttpProtocol := HTTP_PROTOCOL_AUTO | HTTP_PROTOCOL_HTTP1.
#[export] Instance MultiKeyMode_eq_dec : EqDecision MultiKeyMode.
Proof. solve_decision. Defined.
#[export] Instance HttpProtocol_eq_dec : EqDecision HttpProtocol.
Proof. solve_decision. Defined.

(** The fields of a stored channel that the form reads; [None] is null or
    undefined. *)
Record Channel := mkChannel {
  c_name : jsstring;
  c_type : Z;
  c_base_url : option jsstring;
  c_openai_organization : option jsstring;
  c_models : jsstring;
  c_group : jsstring;
  c_model_mapping : option jsstring;
  c_priority : option num;
  c_weight : option num;
  c_test_model : option jsstring;
  c_auto_ban : option num;
  c_status : num;
  c_status_code_mapping : option jsstring;
  c_tag : option jsstring;
  c_remark : jsstring;
  c_setting : option jsstring;
  c_param_override : option jsstring;
  c_header_override : option jsstring;
  c_settings : jsstring;
  c_other : jsstring;
  c_multi_key_mode : option MultiKeyType
}.

(** The part of the form that is stored in the JSON of [setting]. *)
Record ExtraSettings := mkExtra {
  task_plugin_key : jsval;
  task_extend_plugin_keys : option (list jsstring);
  force_format : jsval;
  thinking_to_content : jsval;
  proxy : jsval;
  http_protocol : HttpProtocol;
  http2_connection_shards : jsval;
  pass_through_body : jsval;                   (* pass_through_body_enabled *)
  responses_websocket_enabled : bool;
  system_prompt : jsval;
  system_prompt_override : jsval
}.

(** The part that is stored in the JSON of [settings]. *)
Record TypeSettings := mkTypeSettings {
  is_enterprise_account : bool;
  vertex_key_type : jsval;
  azure_responses_version : jsval;
  aws_key_type : jsval;
  allow_service_tier : bool;
  disable_store : bool;
  allow_safety_identifier : bool;
  allow_include_obfuscation : bool;
  allow_inference_geo : bool;
  allow_speed : bool;
  claude_beta_query : bool;
  ollama_openai_chat : bool;
  disable_task_polling_sleep : bool;
  upstream_model_update_check_enabled : bool;
  upstream_model_update_auto_sync_enabled : bool;
  upstream_model_update_ignored_models : jsstring;
  advanced_custom : jsstring
}.

(** The values of the form. An optional text that is missing behaves as the
    empty one throughout, and an optional flag that is missing as false. *)
Record ChannelFormValues := mkForm {
  f_name : jsstring;
  f_type : Z;
  f_base_url : jsstring;
  f_key : jsstring;
  f_openai_organization : jsstring;
  f_models : jsstring;
  f_group : list jsstring;
  f_model_mapping : jsstring;
  f_priority : option num;
  f_weight : option num;
  f_test_model : jsstring;
  f_auto_ban : option num;
  f_status : num;
  f_status_code_mapping : jsstring;
  f_tag : jsstring;
  f_remark : jsstring;
  f_setting : jsstring;
  f_param_override : jsstring;
  f_header_override : jsstring;
  f_settings : jsstring;
  f_other : jsstring;
  f_multi_key_mode : option MultiKeyMode;
  f_multi_key_type : option MultiKeyType;
  f_batch_add_set_key_prefix_2_name : option bool;
  f_key_mode : option KeyMode;
  f_extra : ExtraSettings;
  f_types : TypeSettings
}.

(** ** Helpers *)

Section Form.
Context `{Host}.
(** [new URL(value)]: its protocol and host for the routes of a channel, and
    its protocol, hostname and port for a proxy. *)
Context (parse_url : jsstring → option (jsstring * jsstring))
        (parse_proxy_url : jsstring → option (jsstring * jsstring * jsstring)).

Definition SUPPORTED_PROXY_PROTOCOLS : list jsstring := [js "http:"; js "https:"; js "socks5:"; js "socks5h:"].

(** What follows the first of [/], [?] and [#], itself included. *)
Definition url_suffix (s : jsstring) : jsstring :=
  drop_while (λ c, negb ((c =? 47) || (c =? 63) || (c =? 35))%N) s.

Definition isOptionalProxyURL (value : jsstring) : bool :=
  let trimmedValue := trim value in
  if trimmedValue =s [] then true
  else
    match index_of (js "://") trimmedValue with
    | None | Some O => false
    | Some schemeSeparatorIndex =>
        let suffix := url_suffix (drop (schemeSeparatorIndex + 3) trimmedValue) in
        if negb (suffix =s []) && negb (suffix =s js "/") then false
        else
          match parse_proxy_url trimmedValue with
          | Some (protocol, hostname, port) =>
              str_in protocol SUPPORTED_PROXY_PROTOCOLS && nonempty hostname && negb (port =s js "0")
          | None => false
          end
    end.

Definition MAX_HTTP2_CONNECTION_SHARDS : num := num_of_Z 8.

Definition normalizeHttpProtocol (value : jsval) : HttpProtocol :=
  if toLowerCase (trim (string_of (or_value value empty_text))) =s js "http1" then HTTP_PROTOCOL_HTTP1
  else HTTP_PROTOCOL_AUTO.

(** A value that is not a number compares as the number it converts to. *)
Definition normalizeHttp2ConnectionShards (value : jsval) : jsval :=
  let n := to_number value in
  if is_nullish value || (match value with VNumber x => is_nan x || num_eqb x zero | _ => false end) then VNumber (num_of_Z 1)
  else if num_ltb n (num_of_Z 1) then VNumber (num_of_Z 1)
  else if num_ltb MAX_HTTP2_CONNECTION_SHARDS n then VNumber MAX_HTTP2_CONNECTION_SHARDS
  else value.

(** [undefined] for a blank text. *)
Definition parseOptionalJson (value : jsstring) : result (option jsval) :=
  if trim value =s [] then Ok None else parsed ← json_parse value; Ok (Some parsed).

Definition optional_json (test : jsval → bool) (value : jsstring) : bool :=
  match parseOptionalJson value with
  | Ok (Some parsed) => test parsed
  | Ok None => true
  | Err _ => false
  end.
Definition isJsonObjectValue (v : jsval) : bool := match v with VObject _ => true | _ => false end.
Definition isOptionalJsonObject : jsstring → bool := optional_json isJsonObjectValue.
Definition isOptionalModelMapping : jsstring → bool :=
  optional_json (λ v, match v with VObject entries => forallb (λ e, is_string e.2) entries | _ => false end).

Definition status_code (n : num) : bool :=
  is_integer n && num_leb (num_of_Z 100) n && num_leb n (num_of_Z 599).
Definition isOptionalStatusCodeMapping : jsstring → bool :=
  optional_json (λ v, match v with
    | VObject entries => forallb (λ e, status_code (number_of_string e.1) && status_code (to_number e.2)) entries
    | _ => false end).

(** [typeof v === 'string' && v.trim().length > 0]. *)
Definition filled_text (v : jsval) : bool := match v with VString s => nonempty (trim s) | _ => false end.
Definition isCodexCredential : jsstring → bool :=
  optional_json (λ v, isJsonObjectValue v && filled_text (prop v (js "access_token")) && filled_text (prop v (js "account_id"))).
Definition isVertexJsonKey : jsstring → bool :=
  optional_json (λ v, match v with VArray items => forallb isJsonObjectValue items | _ => isJsonObjectValue v end).

(** ** Validation

    The schema is a list of fields with their types and checks, and the checks
    of several fields together. *)

Definition Issue : Type := jsstring * jsstring.
Definition issue (ok : bool) (path message : jsstring) : list Issue := if ok then [] else [(path, message)].

Definition INVALID_JSON : jsstring := js "Invalid JSON format".

(** The refinements of single fields, for values of the declared types, the
    shards an integer. *)
Definition field_issues (data : ChannelFormValues) : list Issue :=
  issue (nonempty (f_name data)) (js "name") (js "Channel name is required")
  ++ issue (0 <=? f_type data)%Z (js "type") (js "Channel type is required")
  ++ issue (nonempty (f_models data)) (js "models") (js "Models are required")
  ++ issue (negb (bool_decide (f_group data = []))) (js "group") (js "Group is required")
  ++ issue (isOptionalModelMapping (f_model_mapping data)) (js "model_mapping")
       (js "Model mapping must be a JSON object with string values")
  ++ issue (isOptionalStatusCodeMapping (f_status_code_mapping data)) (js "status_code_mapping")
       (js "Status code mapping must use valid HTTP status codes")
  ++ issue (length (f_remark data) <=? 255) (js "remark") (js "Remark must be less than 255 characters")
  ++ issue (isOptionalJsonObject (f_setting data)) (js "setting") INVALID_JSON
  ++ issue (isOptionalJsonObject (f_param_override data)) (js "param_override") INVALID_JSON
  ++ issue (isOptionalJsonObject (f_header_override data)) (js "header_override") INVALID_JSON
  ++ issue (isOptionalJsonObject (f_settings data)) (js "settings") INVALID_JSON
  ++ issue (match proxy (f_extra data) with VString s => isOptionalProxyURL s | _ => true end) (js "proxy")
       (js "Proxy address must use HTTP, HTTPS, SOCKS5, or SOCKS5H and include a valid host").

Definition BASE_URL_TYPES : list Z :=
  [3; 8; 36; 45; CHANNEL_TYPE_NEW_API; CHANNEL_TYPE_TASK_PLUGIN; CHANNEL_TYPE_VLLM; CHANNEL_TYPE_SGLANG]%Z.
Definition OTHER_TYPES : list Z := [3; 18; 21; 39; 41; 49]%Z.

(** [!value?.trim()]. *)
Definition is_blank (s : jsstring) : bool := trim s =s [].
Definition blank_value (v : jsval) : result bool :=
  match v with VUndefined | VNull => Ok true | VString s => Ok (is_blank s) | _ => Err type_error end.

(** The checks of the routes; the validation of a pasted document may throw. *)
Definition advanced_issues (data : ChannelFormValues) : result (list Issue) :=
  let config := routes_value <$> parseAdvancedCustomConfig (advanced_custom (f_types data)) in
  error ← validateAdvancedCustomConfig parse_url config;
  relative ← advancedCustomConfigUsesRelativeUpstreamPath config;
  listed ← (if upstream_model_update_check_enabled (f_types data)
            then hasValidAdvancedCustomModelListRoute parse_url config else Ok true);
  Ok (match error with Some e => [(js "advanced_custom", error_message e)] | None => [] end
      ++ issue (negb (relative && is_blank (f_base_url data))) (js "base_url")
           (js "Base URL is required when an advanced route uses an upstream path")
      ++ issue listed (js "upstream_model_update_check_enabled")
           (js "OpenAI Models route is required to enable upstream model checks")).

Definition batch_mode (data : ChannelFormValues) : bool :=
  match f_multi_key_mode data with None | Some mode_single => false | _ => true end.

(** The shards the form holds, [?? 1], as a number. *)
Definition form_shards (e : ExtraSettings) : num :=
  if is_nullish (http2_connection_shards e) then (num_of_Z 1) else to_number (http2_connection_shards e).

Definition transport_issues (data : ChannelFormValues) : list Issue :=
  let shards := form_shards (f_extra data) in
  issue (negb (num_ltb shards (num_of_Z 1) || num_ltb MAX_HTTP2_CONNECTION_SHARDS shards)) (js "http2_connection_shards")
    (js "HTTP/2 connection shards must be between 1 and 8")
  ++ issue (negb (bool_decide (http_protocol (f_extra data) = HTTP_PROTOCOL_HTTP1) && num_ltb (num_of_Z 1) shards))
       (js "http2_connection_shards") (js "HTTP/2 connection shards must be 1 when HTTP/1.1 is selected").

Definition superRefine (data : ChannelFormValues) : result (list Issue) :=
  let t := f_type data in
  let key_type := vertex_key_type (f_types data) in
  no_plugin ← (if (t =? CHANNEL_TYPE_TASK_PLUGIN)%Z then blank_value (task_plugin_key (f_extra data)) else Ok false);
  advanced ← (if (t =? CHANNEL_TYPE_ADVANCED_CUSTOM)%Z then advanced_issues data else Ok []);
  Ok (issue (negb (has_type BASE_URL_TYPES t && is_blank (f_base_url data))) (js "base_url")
        (js "Base URL is required for this channel type")
      ++ issue (negb no_plugin) (js "task_plugin_key") (js "Task plugin is required")
      ++ advanced
      ++ issue (negb (has_type OTHER_TYPES t && is_blank (f_other data))) (js "other")
           (js "This channel type requires additional configuration")
      ++ issue (negb ((t =? 57)%Z && batch_mode data)) (js "multi_key_mode")
           (js "Codex channels do not support batch creation")
      ++ issue (negb ((t =? 57)%Z && negb (is_blank (f_key data)) && negb (isCodexCredential (f_key data)))) (js "key")
           (js "Codex credential must be a JSON object with access_token and account_id")
      ++ issue (negb ((t =? 41)%Z && is_text key_type (js "json") && negb (is_blank (f_key data))
                      && negb (isVertexJsonKey (f_key data)))) (js "key")
           (js "Vertex AI service account key must be valid JSON")
      ++ issue (negb ((t =? 41)%Z && is_text key_type (js "api_key") && batch_mode data)) (js "multi_key_mode")
           (js "Vertex AI API Key mode does not support batch creation")
      ++ transport_issues data).

(** ** A stored channel in the form *)

Definition parseGroups (groups : jsstring) : list jsstring :=
  List.filter nonempty (map trim (split_units 44%N groups)).
Definition parseModels (models : jsstring) : list jsstring :=
  List.filter nonempty (map trim (split_units 44%N models)).
Definition formatGroups (groups : list jsstring) : jsstring := join (js ",") groups.
Definition formatModels (models : list jsstring) : jsstring := join (js ",") models.

Definition default_extra : ExtraSettings :=
  mkExtra empty_text (Some []) (VBoolean false) (VBoolean false) empty_text HTTP_PROTOCOL_AUTO (VNumber (num_of_Z 1))
    (VBoolean false) false empty_text (VBoolean false).

Definition is_true (v : jsval) : bool := match v with VBoolean true => true | _ => false end.

Definition read_extra (channelType : Z) (parsed : jsval) : ExtraSettings :=
  let get := λ key, prop parsed key in
  let protocol := normalizeHttpProtocol (get (js "http_protocol")) in
  let shards := normalizeHttp2ConnectionShards (get (js "http2_connection_shards")) in
  let flag := λ key, or_value (get key) (VBoolean false) in
  mkExtra (or_value (get (js "task_plugin_key")) empty_text)
    (Some (readTaskExtendPluginKeys channelType parsed))
    (flag (js "force_format")) (flag (js "thinking_to_content"))
    (or_value (get (js "proxy")) empty_text) protocol
    (if decide (protocol = HTTP_PROTOCOL_HTTP1) then VNumber (num_of_Z 1) else shards)
    (flag (js "pass_through_body_enabled")) (is_true (get (js "responses_websocket_enabled")))
    (or_value (get (js "system_prompt")) empty_text) (flag (js "system_prompt_override")).

(** An unreadable document leaves the defaults, and so does null. *)
Definition extra_of (channelType : Z) (setting : option jsstring) : ExtraSettings :=
  match setting with
  | None | Some [] => default_extra
  | Some text =>
      match json_parse text with
      | Ok parsed => if is_nullish parsed then default_extra else read_extra channelType parsed
      | Err _ => default_extra
      end
  end.

Definition default_types : TypeSettings :=
  mkTypeSettings false (VString (js "json")) empty_text (VString (js "ak_sk"))
    false false false false false false false false false false false [] [].

Definition read_types (parsed : jsval) : TypeSettings :=
  let get := λ key, prop parsed key in
  let flag := λ key, is_true (get key) in
  mkTypeSettings (flag (js "openrouter_enterprise"))
    (or_value (get (js "vertex_key_type")) (VString (js "json")))
    (or_value (get (js "azure_responses_version")) empty_text)
    (or_value (get (js "aws_key_type")) (VString (js "ak_sk")))
    (flag (js "allow_service_tier")) (flag (js "disable_store")) (flag (js "allow_safety_identifier"))
    (flag (js "allow_include_obfuscation")) (flag (js "allow_inference_geo")) (flag (js "allow_speed"))
    (flag (js "claude_beta_query")) (flag (js "ollama_openai_chat")) (flag (js "disable_task_polling_sleep"))
    (flag (js "upstream_model_update_check_enabled")) (flag (js "upstream_model_update_auto_sync_enabled"))
    (match get (js "upstream_model_update_ignored_models") with VArray items => string_of (VArray items) | _ => [] end)
    (if truthy (get (js "advanced_custom")) then
       match stringifyAdvancedCustomConfig (get (js "advanced_custom")) with Ok text => text | Err _ => [] end
     else []).

Definition types_of (settings : jsstring) : TypeSettings :=
  if settings =s [] then default_types
  else
    match json_parse settings with
    | Ok parsed => if is_nullish parsed then default_types else read_types parsed
    | Err _ => default_types
    end.

Definition transformChannelToFormDefaults (channel : Channel) : ChannelFormValues :=
  let text := λ o : option jsstring, default [] o in
  (* a number that is zero or NaN *)
  let number := λ o : option num, Some (match o with Some x => if truthy (VNumber x) then x else zero | None => zero end) in
  mkForm (c_name channel) (c_type channel) (text (c_base_url channel)) [] (text (c_openai_organization channel))
    (c_models channel) (parseGroups (or_text (c_group channel) (js "default"))) (text (c_model_mapping channel))
    (number (c_priority channel)) (number (c_weight channel)) (text (c_test_model channel))
    (Some (default (num_of_Z 1) (c_auto_ban channel))) (c_status channel) (text (c_status_code_mapping channel))
    (text (c_tag channel)) (c_remark channel) (text (c_setting channel)) (text (c_param_override channel))
    (text (c_header_override channel)) (or_text (c_settings channel) (js "{}")) (c_other channel)
    (Some mode_single) (Some (default type_random (c_multi_key_mode channel))) (Some false) (Some mode_append)
    (extra_of (c_type channel) (c_setting channel)) (types_of (c_settings channel)).

(** ** The documents of settings *)

(** [value?.trim() || ''] of a value of unknown type. *)
Definition trim_or_empty (v : jsval) : result jsstring :=
  match v with VUndefined | VNull => Ok [] | VString s => Ok (trim s) | _ => Err type_error end.

Definition setting_entries (t : Z) (e : ExtraSettings) : result (list (jsstring * jsval)) :=
  plugin ← (if (t =? CHANNEL_TYPE_TASK_PLUGIN)%Z then text ← trim_or_empty (task_plugin_key e); Ok (VString text) else Ok VUndefined);
  proxy ← trim_or_empty (proxy e);
  let flag := λ v, or_value v (VBoolean false) in
  let shards := normalizeHttp2ConnectionShards (http2_connection_shards e) in
  Ok ([(js "task_plugin_key", plugin);
       (js "task_extend_plugin_keys",
          match task_extend_plugin_keys e with
          | Some (k :: l) => if (t =? CHANNEL_TYPE_NEW_API)%Z then VArray (map VString (k :: l)) else VUndefined
          | _ => VUndefined
          end);
       (js "force_format", flag (force_format e));
       (js "thinking_to_content", flag (thinking_to_content e));
       (js "proxy", VString proxy);
       (js "pass_through_body_enabled",
          VBoolean (negb (t =? CHANNEL_TYPE_ADVANCED_CUSTOM)%Z && is_true (pass_through_body e)));
       (js "responses_websocket_enabled", VBoolean (supportsResponsesWebSocket t && responses_websocket_enabled e));
       (js "system_prompt", or_value (system_prompt e) empty_text);
       (js "system_prompt_override", flag (system_prompt_override e))]
      ++ (if decide (http_protocol e = HTTP_PROTOCOL_HTTP1) then [(js "http_protocol", VString (js "http1"))]
          else if num_ltb (num_of_Z 1) (to_number shards) then [(js "http2_connection_shards", shards)] else [])).

Definition buildSettingJSON (formData : ChannelFormValues) : result jsstring :=
  entries ← setting_entries (f_type formData) (f_extra formData);
  Ok (json_text (VObject entries)).

(** [obj[key] = value] when [cond] holds, and otherwise [delete obj[key]]. *)
Definition delete_key (obj : list (jsstring * jsval)) (key : jsstring) : list (jsstring * jsval) :=
  List.filter (λ e, negb (e.1 =s key)) obj.
Definition assign (obj : list (jsstring * jsval)) (key : jsstring) (cond : bool) (value : jsval)
    : list (jsstring * jsval) :=
  if cond then set_key obj key value else delete_key obj key.

(** The models of a comma-separated text, each once. *)
Definition ignored_models (text : jsstring) : list jsstring :=
  unique (List.filter nonempty (map trim (split_units 44%N text))).

(** The fields of the watch over the models of the upstream. *)
Definition assign_upstream (f : TypeSettings) (obj : list (jsstring * jsval)) : list (jsstring * jsval) :=
  let check := upstream_model_update_check_enabled f in
  let obj := set_key obj (js "upstream_model_update_check_enabled") (VBoolean check) in
  let obj := set_key obj (js "upstream_model_update_auto_sync_enabled")
               (VBoolean (check && upstream_model_update_auto_sync_enabled f)) in
  let obj := set_key obj (js "upstream_model_update_ignored_models")
               (VArray (map VString (ignored_models (upstream_model_update_ignored_models f)))) in
  let detected := js "upstream_model_update_last_detected_models" in
  let obj := match own obj detected with
             | Some (VArray _) => if check then obj else set_key obj detected (VArray [])
             | _ => set_key obj detected (VArray [])
             end in
  let time := js "upstream_model_update_last_check_time" in
  match own obj time with Some (VNumber _) => obj | _ => set_key obj time (VNumber zero) end.

Definition assign_advanced (t : Z) (f : TypeSettings) (obj : list (jsstring * jsval)) : list (jsstring * jsval) :=
  let key := js "advanced_custom" in
  if (t =? CHANNEL_TYPE_ADVANCED_CUSTOM)%Z then
    match parseAdvancedCustomConfig (advanced_custom f) with
    | Some routes => set_key obj key (routes_value routes)
    | None => obj
    end
  else delete_key obj key.

(** The assignments of one field each, in order. *)
Definition type_assignments (t : Z) (f : TypeSettings) : list (jsstring * (bool * jsval)) :=
  let openai := has_type OPENAI_FIELD_PASSTHROUGH_TYPES t in
  let claude := has_type CLAUDE_FIELD_PASSTHROUGH_TYPES t in
  [(js "vertex_key_type", ((t =? 41)%Z, or_value (vertex_key_type f) (VString (js "json"))));
   (js "azure_responses_version", ((t =? 3)%Z && truthy (azure_responses_version f), azure_responses_version f));
   (js "openrouter_enterprise", ((t =? 20)%Z, VBoolean (is_enterprise_account f)));
   (js "aws_key_type", ((t =? 33)%Z, or_value (aws_key_type f) (VString (js "ak_sk"))));
   (js "allow_service_tier", (has_type FIELD_PASSTHROUGH_TYPES t, VBoolean (allow_service_tier f)));
   (js "disable_store", (openai, VBoolean (disable_store f)));
   (js "allow_safety_identifier", (openai, VBoolean (allow_safety_identifier f)));
   (js "allow_include_obfuscation", (openai, VBoolean (allow_include_obfuscation f)));
   (js "allow_inference_geo", (openai || claude, VBoolean (allow_inference_geo f)));
   (js "allow_speed", (claude, VBoolean (allow_speed f)));
   (js "claude_beta_query", ((t =? 14)%Z, VBoolean (claude_beta_query f)));
   (js "ollama_openai_chat", ((t =? CHANNEL_TYPE_OLLAMA)%Z, VBoolean (ollama_openai_chat f)));
   (js "disable_task_polling_sleep", (true, VBoolean (disable_task_polling_sleep f)))].
Definition run_assignments (l : list (jsstring * (bool * jsval))) (obj : list (jsstring * jsval)) : list (jsstring * jsval) :=
  foldl (λ obj '(key, (cond, value)), assign obj key cond value) obj l.

Definition settings_entries (t : Z) (f : TypeSettings) (obj : list (jsstring * jsval)) : list (jsstring * jsval) :=
  let obj := run_assignments (type_assignments t f) obj in
  let obj := if has_type MODEL_FETCHABLE_TYPES t then assign_upstream f obj else obj in
  assign_advanced t f obj.

(** The settings the form holds as text; unreadable text counts as none. *)
Definition settings_base (settings : jsstring) : jsval :=
  if (settings =s []) || (settings =s js "{}") then VObject []
  else match json_parse settings with Ok parsed => parsed | Err _ => VObject [] end.

(** A property set on an array is not written; on null or a primitive value it
    throws. *)
Definition buildSettingsJSON (formData : ChannelFormValues) : result jsstring :=
  match settings_base (f_settings formData) with
  | VObject entries => Ok (json_text (VObject (settings_entries (f_type formData) (f_types formData) entries)))
  | VArray items => Ok (json_text (VArray items))
  | _ => Err type_error
  end.

(** ** Payloads *)

(** [value.trim().replace(/\/+$/, '')]. *)
Definition strip_slashes (s : jsstring) : jsstring := reverse (drop_while (N.eqb 47) (reverse s)).
Definition normalizeBaseUrl (value : jsstring) : jsstring := strip_slashes (trim value).

(** [value || null]. *)
Definition text_or_null (s : jsstring) : jsval := if s =s [] then VNull else VString s.
Definition number_or_null (o : option num) : jsval :=
  match o with Some x => if truthy (VNumber x) then VNumber x else VNull | None => VNull end.

(** Empty texts become null. *)
Definition clean_entry (e : jsstring * jsval) : jsstring * jsval :=
  if is_text e.2 [] then (e.1, VNull) else e.

(** The fields of both payloads, with the values of their priority and weight. *)
Definition payload_fields (formData : ChannelFormValues) (status : list (jsstring * jsval)) (key : list (jsstring * jsval))
    (priority weight : jsval) (setting settings : jsstring) : list (jsstring * jsval) :=
  [(js "name", VString (f_name formData)); (js "type", VNumber (num_of_Z (f_type formData)));
   (js "base_url", text_or_null (normalizeBaseUrl (f_base_url formData)))]
  ++ key
  ++ [(js "openai_organization", text_or_null (f_openai_organization formData));
      (js "models", VString (f_models formData)); (js "group", VString (formatGroups (f_group formData)));
      (js "model_mapping", text_or_null (f_model_mapping formData));
      (js "priority", priority); (js "weight", weight);
      (js "test_model", text_or_null (f_test_model formData));
      (js "auto_ban", VNumber (default (num_of_Z 1) (f_auto_ban formData)))]
  ++ status
  ++ [(js "status_code_mapping", text_or_null (f_status_code_mapping formData));
      (js "tag", text_or_null (f_tag formData)); (js "remark", VString (f_remark formData));
      (js "setting", VString setting); (js "param_override", text_or_null (f_param_override formData));
      (js "header_override", text_or_null (f_header_override formData));
      (js "settings", VString settings); (js "other", VString (f_other formData))].

Record CreatePayload := mkCreate {
  p_mode : MultiKeyMode;
  p_multi_key_mode : option MultiKeyType;
  p_batch_add_set_key_prefix_2_name : option bool;
  p_channel : list (jsstring * jsval)
}.

Definition transformFormDataToCreatePayload (formData : ChannelFormValues) : result CreatePayload :=
  let mode := default mode_single (f_multi_key_mode formData) in
  setting ← buildSettingJSON formData;
  settings ← buildSettingsJSON formData;
  let channel := payload_fields formData [(js "status", VNumber (f_status formData))] [(js "key", VString (f_key formData))]
                   (number_or_null (f_priority formData)) (number_or_null (f_weight formData)) setting settings in
  Ok (mkCreate mode (if decide (mode = mode_multi_to_single) then f_multi_key_type formData else None)
        (if decide (mode = mode_batch) then f_batch_add_set_key_prefix_2_name formData else None)
        (map clean_entry channel)).

Definition transformFormDataToUpdatePayload (formData : ChannelFormValues) (channelId : num)
    : result (list (jsstring * jsval)) :=
  setting ← buildSettingJSON formData;
  settings ← buildSettingsJSON formData;
  let payload := (js "id", VNumber channelId)
                 :: payload_fields formData [] [] (VNumber (default zero (f_priority formData)))
                      (VNumber (default zero (f_weight formData))) setting settings in
  let payload := if negb (is_blank (f_key formData)) then payload ++ [(js "key", VString (f_key formData))] else payload in
  let payload := map clean_entry payload in
  Ok (foldl (λ obj e, set_key obj e.1 (VString e.2)) payload
        [(js "base_url", normalizeBaseUrl (f_base_url formData));
         (js "openai_organization", f_openai_organization formData); (js "test_model", f_test_model formData);
         (js "tag", f_tag formData); (js "remark", f_remark formData); (js "model_mapping", f_model_mapping formData);
         (js "status_code_mapping", f_status_code_mapping formData);
         (js "param_override", f_param_override formData); (js "header_override", f_header_override formData)]).
End Form.

(** ** Checks of other forms *)

Definition validateJSON (value : jsstring) : bool :=
  if is_blank value then true else is_ok (json_parse value).
Definition validateModelMapping (value : jsstring) : bool :=
  if is_blank value then true else validateJSON value.

(** ** Keys of an object *)

Lemma own_delete_key obj key k : own (delete_key obj key) k = if decide (key = k) then None else own obj k.
Proof.
  unfold delete_key. induction obj as [|[k0 v0] obj IH]; cbn; [by case_decide|].
  destruct (k0 =s key) eqn:E; cbn [negb].
  - apply str_eqb_eq in E as ->. rewrite IH. case_decide as Hk; [done|]. by rewrite (proj2 (str_eqb_neq key k)).
  - apply str_eqb_neq in E. cbn. destruct (k0 =s k) eqn:Ek; [|done]. apply str_eqb_eq in Ek as ->. by rewrite decide_False by congruence.
Qed.

Lemma own_set {A} (obj : list (jsstring * A)) key v k : key ≠ proto →
  own (set_key obj key v) k = if decide (key = k) then Some v else own obj k.
Proof. intros Hk. unfold set_key. rewrite (proj2 (str_eqb_neq key _)) by done. apply own_map_set. Qed.

Definition assigned (a : option (bool * jsval)) (old : option jsval) : option jsval :=
  match a with Some (cond, value) => if cond then Some value else None | None => old end.

Lemma own_run_assignments l : ∀ obj k,
  NoDup l.*1 → proto ∉ l.*1 → own (run_assignments l obj) k = assigned (own l k) (own obj k).
Proof.
  induction l as [|[key [cond value]] l IH]; intros obj k; [done|]. cbn [fmap list_fmap fst].
  intros [Hn Hd]%NoDup_cons [Hp Hps]%not_elem_of_cons. change (run_assignments _ obj) with (run_assignments l (assign obj key cond value)).
  rewrite IH by done. cbn [own]. destruct (key =s k) eqn:E.
  - apply str_eqb_eq in E as ->. rewrite (proj2 (own_None_notin l k)) by done. cbn [assigned]. unfold assign. destruct cond.
    + rewrite own_set by congruence. by rewrite decide_True.
    + rewrite own_delete_key. by rewrite decide_True.
  - apply str_eqb_neq in E. destruct (own l k) as [[c v]|]; [done|]. cbn [assigned]. unfold assign. destruct cond.
    + rewrite own_set by congruence. by rewrite decide_False.
    + rewrite own_delete_key. by rewrite decide_False.
Qed.

(** An assignment that changes nothing leaves the object as it is. *)
Lemma map_set_same {A} (obj : list (jsstring * A)) k v : own obj k = Some v → map_set obj k v = obj.
Proof.
  induction obj as [|[k0 v0] obj IH]; cbn; [done|]. destruct (k0 =s k) eqn:E.
  - apply str_eqb_eq in E as ->. by intros [= ->].
  - intros H. by rewrite IH.
Qed.
Lemma set_key_same {A} (obj : list (jsstring * A)) k v : own obj k = Some v → set_key obj k v = obj.
Proof. intros H. unfold set_key. destruct (k =s _); [done|]. by apply map_set_same. Qed.
Lemma delete_key_none obj k : own obj k = None → delete_key obj k = obj.
Proof.
  intros H%own_None_notin. unfold delete_key. induction obj as [|[k0 v0] obj IH]; cbn; [done|].
  cbn in H. apply not_elem_of_cons in H as [Hk H]. rewrite (proj2 (str_eqb_neq k0 k)) by done. cbn. by rewrite IH.
Qed.
Lemma assign_same obj k cond value : own obj k = assigned (Some (cond, value)) None → assign obj k cond value = obj.
Proof. cbn. unfold assign. destruct cond; [apply set_key_same|apply delete_key_none]. Qed.
Lemma run_assignments_same l obj :
  Forall (λ a, own obj a.1 = assigned (Some a.2) None) l → run_assignments l obj = obj.
Proof.
  intros Hl. unfold run_assignments. induction Hl as [|[k [c v]] l H _ IH]; [done|]. cbn. rewrite assign_same; [exact IH|exact H].
Qed.

(** ** Objects that are documents *)

Definition entries_ok (obj : list (jsstring * jsval)) : Prop := document (VObject obj).

Lemma entries_ok_set obj k v : entries_ok obj → code_units k → document v → entries_ok (set_key obj k v).
Proof.
  intros Ho Hk Hv. unfold set_key. destruct (k =s js "__proto__"); [done|]. inversion Ho as [| | | | |l Hd Hu Hl]; subst.
  assert (Forall (λ e, code_units e.1) (map_set obj k v) ∧ Forall (λ e, document e.2) (map_set obj k v)) as [Hu' Hl'].
  { clear Ho Hd. induction obj as [|[k0 v0] obj IH]; cbn; [by repeat constructor|].
    apply Forall_cons in Hu as [Hu0 Hu]. apply Forall_cons in Hl as [Hl0 Hl]. destruct (IH Hu Hl).
    destruct (k0 =s k); split; by constructor. }
  constructor; [|done|done]. rewrite map_set_keys. case_decide; [done|]. apply NoDup_app.
  split_and!; [done|set_solver|apply NoDup_singleton].
Qed.
Lemma entries_ok_delete obj k : entries_ok obj → entries_ok (delete_key obj k).
Proof.
  intros Ho. inversion Ho as [| | | | |l Hd Hu Hl]; subst. unfold delete_key.
  assert (∀ P : jsstring * jsval → Prop, Forall P obj → Forall P (List.filter (λ e, negb (e.1 =s k)) obj)) as Hf.
  { intros P HP. apply Forall_forall. intros e [He _]%list_elem_of_In%filter_In. apply list_elem_of_In in He.
    rewrite Forall_forall in HP. by apply HP. }
  constructor; [|by apply Hf..]. clear -Hd. induction obj as [|[k0 v0] obj IH]; [done|]. cbn in *.
  apply NoDup_cons in Hd as [Hn Hd]. specialize (IH Hd). destruct (negb (k0 =s k)); [|done]. cbn. apply NoDup_cons. split; [|done].
  intros (e & -> & [He _]%list_elem_of_In%filter_In)%list_elem_of_fmap. apply Hn. apply list_elem_of_fmap. exists e.
  split; [done|]. by apply list_elem_of_In.
Qed.
Lemma entries_ok_run l : ∀ obj,
  Forall (λ a, code_units a.1 ∧ (a.2.1 = true → document a.2.2)) l → entries_ok obj → entries_ok (run_assignments l obj).
Proof.
  induction l as [|[k [c v]] l IH]; intros obj; [done|]. intros [[Hk Hv] Hl]%Forall_cons Ho. cbn.
  apply IH; [done|]. unfold assign. cbn in *. destruct c; [apply entries_ok_set; auto|by apply entries_ok_delete].
Qed.

(** The object that is read from its text. *)
Definition reread (obj : list (jsstring * jsval)) : list (jsstring * jsval) :=
  own_order (map (λ '(k, v), (k, enumerated v)) obj).

Lemma own_map_values {A B} (f : A → B) (l : list (jsstring * A)) k : own (map (λ e, (e.1, f e.2)) l) k = f <$> own l k.
Proof. induction l as [|[k0 v0] l IH]; [done|]. cbn. by destruct (k0 =s k). Qed.

Lemma reread_spec obj : entries_ok obj →
  json_parse (json_text (VObject obj)) = Ok (VObject (reread obj)) ∧ entries_ok (reread obj) ∧
  json_text (VObject (reread obj)) = json_text (VObject obj) ∧ ∀ k, own (reread obj) k = enumerated <$> own obj k.
Proof.
  intros Ho. destruct (enumerated_document _ Ho) as [Hd Ht]. unfold json_text. split_and!.
  - by rewrite json_parse_print.
  - exact Hd.
  - apply (Ht 0 0).
  - intros k. inversion Ho as [| | | | |l Hk _ _]; subst. unfold reread.
    assert (map (λ '(k, v), (k, enumerated v)) obj = map (λ e, (e.1, enumerated e.2)) obj) as ->
      by (apply map_ext; by intros []).
    rewrite own_own_order, own_map_values; [done|]. rewrite map_map. exact Hk.
Qed.

(** ** The keys of the settings *)

#[local] Opaque js.

Definition CHECK_ENABLED : jsstring := js "upstream_model_update_check_enabled".
Definition AUTO_SYNC : jsstring := js "upstream_model_update_auto_sync_enabled".
Definition IGNORED : jsstring := js "upstream_model_update_ignored_models".
Definition LAST_DETECTED : jsstring := js "upstream_model_update_last_detected_models".
Definition LAST_CHECK : jsstring := js "upstream_model_update_last_check_time".
Definition ADVANCED : jsstring := js "advanced_custom".
Definition upstream_keys : list jsstring := [CHECK_ENABLED; AUTO_SYNC; IGNORED; LAST_DETECTED; LAST_CHECK].

Definition detected_value (check : bool) (old : option jsval) : jsval :=
  match old with Some (VArray l) => if check then VArray l else VArray [] | _ => VArray [] end.
Definition time_value (old : option jsval) : jsval :=
  match old with Some (VNumber x) => VNumber x | _ => VNumber zero end.

(** The value of a key after [assign_upstream], from the one before. *)
Definition upstream_value (f : TypeSettings) (k : jsstring) (old : option jsval) : option jsval :=
  if k =s CHECK_ENABLED then Some (VBoolean (upstream_model_update_check_enabled f))
  else if k =s AUTO_SYNC
  then Some (VBoolean (upstream_model_update_check_enabled f && upstream_model_update_auto_sync_enabled f))
  else if k =s IGNORED then Some (VArray (map VString (ignored_models (upstream_model_update_ignored_models f))))
  else if k =s LAST_DETECTED then Some (detected_value (upstream_model_update_check_enabled f) old)
  else if k =s LAST_CHECK then Some (time_value old)
  else old.

(** Five assignments at distinct keys, the last two reading the object. *)
Lemma own_five (obj : list (jsstring * jsval)) (k1 k2 k3 k4 k5 : jsstring) (check : bool) v1 v2 v3 k :
  NoDup [proto; k1; k2; k3; k4; k5] →
  let o3 := set_key (set_key (set_key obj k1 v1) k2 v2) k3 v3 in
  let o4 := match own o3 k4 with
            | Some (VArray _) => if check then o3 else set_key o3 k4 (VArray [])
            | _ => set_key o3 k4 (VArray [])
            end in
  own (match own o4 k5 with Some (VNumber _) => o4 | _ => set_key o4 k5 (VNumber zero) end) k
  = if k =s k1 then Some v1 else if k =s k2 then Some v2 else if k =s k3 then Some v3
    else if k =s k4 then Some (detected_value check (own obj k))
    else if k =s k5 then Some (time_value (own obj k)) else own obj k.
Proof.
  intros Hd o3 o4. repeat (apply NoDup_cons in Hd as [?Hn Hd]). clear Hd.
  rewrite !not_elem_of_cons in *. destruct_and?.
  assert (∀ x, own o3 x = if x =s k1 then Some v1 else if x =s k2 then Some v2
                          else if x =s k3 then Some v3 else own obj x) as Hv3.
  { intros x. unfold o3. rewrite !own_set by congruence. unfold str_eqb. repeat case_decide; repeat case_bool_decide; congruence. }
  assert (own o3 k4 = own obj k4) as E4 by (rewrite Hv3; by rewrite !(proj2 (str_eqb_neq k4 _)) by congruence).
  assert (∀ x, own o4 x = if x =s k4 then Some (detected_value check (own obj x)) else own o3 x) as Hv4.
  { intros x. unfold o4, detected_value. rewrite E4. unfold str_eqb.
    case_bool_decide as Hx; [subst x|]; (destruct (own obj k4) as [[| | | | |l|]|] eqn:Eo; [..|destruct check| |]);
      rewrite ?own_set by congruence; repeat case_decide; congruence. }
  assert (own o4 k5 = own obj k5) as E5.
  { rewrite Hv4, Hv3. by rewrite !(proj2 (str_eqb_neq k5 _)) by congruence. }
  clearbody o3 o4. unfold time_value. rewrite E5. unfold str_eqb in *.
  destruct (decide (k = k5)) as [->|Hk5].
  - rewrite (bool_decide_eq_false_2 (k5 = k1)), (bool_decide_eq_false_2 (k5 = k2)), (bool_decide_eq_false_2 (k5 = k3)),
      (bool_decide_eq_false_2 (k5 = k4)), (bool_decide_eq_true_2 (k5 = k5)) by congruence.
    destruct (own obj k5) as [[| | | | | |]|]; rewrite ?own_set by congruence; repeat case_decide; congruence.
  - rewrite (bool_decide_eq_false_2 (k = k5)) by done.
    transitivity (own o4 k); [destruct (own obj k5) as [[| | | | | |]|]; rewrite ?own_set by congruence; repeat case_decide; congruence|].
    rewrite Hv4, Hv3. destruct (decide (k = k4)) as [->|Hk4].
    + rewrite (bool_decide_eq_false_2 (k4 = k1)), (bool_decide_eq_false_2 (k4 = k2)), (bool_decide_eq_false_2 (k4 = k3)) by congruence. done.
    + rewrite (bool_decide_eq_false_2 (k = k4)) by done. done.
Qed.

Lemma own_upstream f obj k : own (assign_upstream f obj) k = upstream_value f k (own obj k).
Proof. apply own_five. apply (bool_decide_unpack _). vm_compute. exact I. Qed.

Definition assignment_keys : list jsstring :=
  [js "vertex_key_type"; js "azure_responses_version"; js "openrouter_enterprise"; js "aws_key_type";
   js "allow_service_tier"; js "disable_store"; js "allow_safety_identifier"; js "allow_include_obfuscation";
   js "allow_inference_geo"; js "allow_speed"; js "claude_beta_query"; js "ollama_openai_chat";
   js "disable_task_polling_sleep"].
(** The keys the form writes; every other key belongs to somebody else. *)
Definition managed_keys : list jsstring := ADVANCED :: assignment_keys ++ upstream_keys.

Record disjoint_keys : Prop := mkDisjoint {
  proto_assigned : proto ∉ assignment_keys;
  proto_advanced : ADVANCED ≠ proto;
  advanced_assigned : ADVANCED ∉ assignment_keys;
  advanced_upstream : ADVANCED ∉ upstream_keys;
  assigned_once : NoDup assignment_keys;
  assigned_upstream : Forall (λ k, k ∉ upstream_keys) assignment_keys
}.
Lemma managed_distinct : disjoint_keys.
Proof. split; apply (bool_decide_unpack _); vm_compute; exact I. Qed.

Section Keys.
Context (t : Z) (f : TypeSettings) (obj : list (jsstring * jsval)).

Lemma assignment_keys_spec : (type_assignments t f).*1 = assignment_keys.
Proof. reflexivity. Qed.

Lemma assignments_distinct : NoDup (type_assignments t f).*1 ∧ proto ∉ (type_assignments t f).*1.
Proof. rewrite assignment_keys_spec. split; apply managed_distinct. Qed.

Lemma own_assignment k a : (k, a) ∈ type_assignments t f → own (type_assignments t f) k = Some a.
Proof. intros Hi. apply own_NoDup; [apply assignments_distinct|exact Hi]. Qed.

Lemma own_assignment_none k : k ∉ assignment_keys → own (type_assignments t f) k = None.
Proof. intros Hk. apply own_None_notin. exact Hk. Qed.

Lemma upstream_foreign k old : k ∉ upstream_keys → upstream_value f k old = old.
Proof.
  unfold upstream_keys, upstream_value, str_eqb. intros Hk. rewrite !not_elem_of_cons in Hk. destruct_and?.
  by rewrite !bool_decide_eq_false_2 by assumption.
Qed.

(** The value of every key of the settings, from those of the form and the old
    value of the key. *)
Definition settings_value (k : jsstring) : option jsval :=
  if k =s ADVANCED then
    if (t =? CHANNEL_TYPE_ADVANCED_CUSTOM)%Z then
      match parseAdvancedCustomConfig (advanced_custom f) with
      | Some routes => Some (routes_value routes)
      | None => own obj k
      end
    else None
  else
    let v := assigned (own (type_assignments t f) k) (own obj k) in
    if has_type MODEL_FETCHABLE_TYPES t then upstream_value f k v else v.

Lemma own_settings k : own (settings_entries t f obj) k = settings_value k.
Proof.
  unfold settings_entries, settings_value, assign_advanced. cbv zeta. fold ADVANCED. destruct assignments_distinct as [Hd Hp].
  set (o1 := run_assignments (type_assignments t f) obj).
  set (o2 := if has_type MODEL_FETCHABLE_TYPES t then assign_upstream f o1 else o1).
  assert (own o2 k = (if has_type MODEL_FETCHABLE_TYPES t then
            upstream_value f k (assigned (own (type_assignments t f) k) (own obj k))
          else assigned (own (type_assignments t f) k) (own obj k))) as H2.
  { unfold o2, o1. destruct (has_type _ t); [rewrite own_upstream|]; by rewrite own_run_assignments. }
  destruct managed_distinct as [_ Hpm Ha1 Ha2 _ _].
  destruct (k =s ADVANCED) eqn:E.
  - apply str_eqb_eq in E as ->.
    assert (own o2 ADVANCED = own obj ADVANCED) as Ho.
    { rewrite H2, own_assignment_none by done. cbn [assigned]. rewrite upstream_foreign by done. by destruct (has_type _ t). }
    clearbody o1 o2. destruct (t =? _)%Z; [destruct (parseAdvancedCustomConfig _); [rewrite own_set by done; by rewrite decide_True|done]|].
    by rewrite own_delete_key, decide_True.
  - apply str_eqb_neq in E. rewrite <- H2. clearbody o1 o2.
    destruct (t =? _)%Z; [destruct (parseAdvancedCustomConfig _); [rewrite own_set by done; by rewrite decide_False by congruence|done]|].
    rewrite own_delete_key. by rewrite decide_False by congruence.
Qed.

Lemma settings_foreign k : k ∉ managed_keys → settings_value k = own obj k.
Proof.
  unfold managed_keys, settings_value. intros [Ha [Hk Hu]%not_elem_of_app]%not_elem_of_cons.
  rewrite (proj2 (str_eqb_neq k _)) by done. rewrite own_assignment_none by done. cbn [assigned].
  rewrite upstream_foreign by done. by destruct (has_type _ t).
Qed.

Lemma settings_assigned k a : (k, a) ∈ type_assignments t f → settings_value k = assigned (Some a) None.
Proof.
  intros Hi. pose proof (own_assignment k a Hi) as Ho.
  assert (k ∈ assignment_keys) as Hk by (rewrite <- assignment_keys_spec; by apply (list_elem_of_fmap_2 fst) in Hi).
  destruct managed_distinct as [_ _ Ha _ _ Hd]. rewrite Forall_forall in Hd. unfold settings_value.
  rewrite (proj2 (str_eqb_neq k _)) by congruence. rewrite Ho. destruct a as [c v]. cbn [assigned].
  rewrite upstream_foreign by (by apply Hd). by destruct (has_type _ t).
Qed.

Lemma settings_upstream k : k ∈ upstream_keys →
  settings_value k = if has_type MODEL_FETCHABLE_TYPES t then upstream_value f k (own obj k) else own obj k.
Proof.
  intros Hk. destruct managed_distinct as [_ _ _ Ha _ Hd]. rewrite Forall_forall in Hd.
  unfold settings_value. rewrite (proj2 (str_eqb_neq k _)) by congruence.
  rewrite own_assignment_none by (intros Hin; by apply (Hd k)). done.
Qed.
End Keys.

Lemma five_cases {A} k1 k2 k3 k4 k5 (v1 v2 v3 v4 v5 v6 : A) : NoDup [k1; k2; k3; k4; k5] →
  let g k := if k =s k1 then v1 else if k =s k2 then v2 else if k =s k3 then v3 else if k =s k4 then v4
             else if k =s k5 then v5 else v6 in
  g k1 = v1 ∧ g k2 = v2 ∧ g k3 = v3 ∧ g k4 = v4 ∧ g k5 = v5.
Proof.
  intros Hd g. unfold g, str_eqb. repeat (apply NoDup_cons in Hd as [?Hn Hd]). rewrite !not_elem_of_cons in *. destruct_and?.
  split_and!; repeat (case_bool_decide; [congruence|]); try done; case_bool_decide; congruence.
Qed.
Lemma upstream_values f o :
  upstream_value f CHECK_ENABLED o = Some (VBoolean (upstream_model_update_check_enabled f))
  ∧ upstream_value f AUTO_SYNC o
    = Some (VBoolean (upstream_model_update_check_enabled f && upstream_model_update_auto_sync_enabled f))
  ∧ upstream_value f IGNORED o = Some (VArray (map VString (ignored_models (upstream_model_update_ignored_models f))))
  ∧ upstream_value f LAST_DETECTED o = Some (detected_value (upstream_model_update_check_enabled f) o)
  ∧ upstream_value f LAST_CHECK o = Some (time_value o).
Proof.
  assert (NoDup upstream_keys) as Hd by (apply (bool_decide_unpack _); vm_compute; exact I).
  exact (five_cases _ _ _ _ _ (Some (VBoolean (upstream_model_update_check_enabled f)))
    (Some (VBoolean (upstream_model_update_check_enabled f && upstream_model_update_auto_sync_enabled f)))
    (Some (VArray (map VString (ignored_models (upstream_model_update_ignored_models f)))))
    (Some (detected_value (upstream_model_update_check_enabled f) o)) (Some (time_value o)) o Hd).
Qed.

(** ** The models that are left out *)

Lemma split_units_parts c s : Forall (λ p, c ∉ p) (split_units c s).
Proof.
  induction s as [|u s IH]; cbn; [by repeat constructor; set_solver|]. destruct (N.eqb_spec u c) as [->|Hn].
  - constructor; [set_solver|done].
  - destruct (split_units c s) as [|p ps]; [constructor; [set_solver|done]|]. apply Forall_cons in IH as [Hp Hps].
    constructor; [|done]. rewrite not_elem_of_cons. split; [congruence|done].
Qed.
Lemma split_units_sub c s p x : p ∈ split_units c s → x ∈ p → x ∈ s.
Proof.
  revert p. induction s as [|u s IH]; cbn; intros p.
  - intros ->%list_elem_of_singleton. set_solver.
  - destruct (u =? c)%N; [intros [->|Hp]%elem_of_cons; [set_solver|]; intros Hx; apply elem_of_cons; right; by eapply IH|].
    destruct (split_units c s) as [|q qs]; [intros ->%list_elem_of_singleton; set_solver|].
    intros [->|Hp]%elem_of_cons Hx; [|apply elem_of_cons; right; eapply IH; [|exact Hx]; apply elem_of_cons; by right].
    apply elem_of_cons in Hx as [->|Hx]; apply elem_of_cons; [by left|right]. eapply IH; [|exact Hx]. apply elem_of_cons. by left.
Qed.
Lemma trim_sub s x : x ∈ trim s → x ∈ s.
Proof. intros Hx. destruct (trim_decomp s) as (a & b & Hs & _). rewrite Hs. set_solver. Qed.

Lemma unique_same (l : list jsstring) : NoDup l → unique l = l.
Proof.
  assert (∀ s, NoDup (s ++ l) → foldl sadd s l = s ++ l) as Hl; [|intros Hd; by apply (Hl [])].
  induction l as [|k l IH]; intros s Hd; [by rewrite app_nil_r|]. cbn [foldl].
  assert (sadd s k = s ++ [k]) as ->.
  { unfold sadd. rewrite decide_False; [done|]. intros Hk. apply NoDup_app in Hd as (_ & Hd & _). apply (Hd k Hk). set_solver. }
  rewrite IH; by rewrite <- app_assoc.
Qed.

(** The models of a text are trimmed names without commas, each once. *)
Definition model_list (l : list jsstring) : Prop :=
  NoDup l ∧ Forall (λ s, trim s = s ∧ s ≠ [] ∧ 44%N ∉ s) l.
Lemma ignored_list text : model_list (ignored_models text) ∧ ∀ s x, s ∈ ignored_models text → x ∈ s → x ∈ text.
Proof.
  unfold ignored_models. set (l := List.filter nonempty (map trim (split_units 44%N text))).
  assert (∀ s, s ∈ unique l → ∃ p, p ∈ split_units 44%N text ∧ s = trim p ∧ s ≠ []) as Hin.
  { intros s Hs. apply (proj2 (unique_spec l [] (NoDup_nil_2))) in Hs as [Hs|Hs]; [by apply not_elem_of_nil in Hs|].
    apply list_elem_of_In, filter_In in Hs as [Hs Hne]. apply list_elem_of_In, list_elem_of_fmap in Hs as (p & -> & Hp).
    exists p. split_and!; [done|done|]. unfold nonempty in Hne. by apply negb_true_iff, str_eqb_neq in Hne. }
  split; [split; [apply unique_NoDup|]|].
  - apply Forall_forall. intros s (p & Hp & -> & Hne)%Hin. split_and!; [apply trim_idemp|done|].
    intros Hc%trim_sub. pose proof (split_units_parts 44%N text) as Hall. rewrite Forall_forall in Hall. by apply (Hall p).
  - intros s x (p & Hp & -> & _)%Hin Hx%trim_sub. by eapply split_units_sub.
Qed.
Lemma ignored_again l : model_list l → ignored_models (join [44%N] l) = l.
Proof.
  intros [Hd Hl]. unfold ignored_models. destruct l as [|s0 l0]; [vm_compute; reflexivity|]. set (l := s0 :: l0) in *.
  rewrite split_units_join; [|done|by eapply Forall_impl; [exact Hl|intros s (_ & _ & ?)]].
  assert (map trim l = l) as ->.
  { clear Hd. induction Hl as [|s l' (Ht & _) _ IH]; [done|]. cbn. by rewrite Ht, IH. }
  assert (List.filter nonempty l = l) as ->; [|by apply unique_same].
  clear Hd. induction Hl as [|s l' (_ & Hn & _) _ IH]; [done|]. cbn. unfold nonempty at 1. by rewrite (proj2 (str_eqb_neq s [])), IH.
Qed.
Lemma string_of_texts l : string_of (VArray (map VString l)) = join [44%N] l.
Proof.
  assert (js "," = [44%N]) as Hj by (vm_compute; reflexivity). cbn [string_of]. rewrite Hj, map_map. f_equal.
  transitivity (map (λ s : jsstring, s) l); [done|apply map_id].
Qed.
Lemma code_units_join l : Forall code_units l → code_units (join [44%N] l).
Proof.
  intros Hl. induction Hl as [|s l Hs Hl IH]; [by constructor|]. destruct l as [|s2 l]; [done|].
  change (code_units (s ++ [44%N] ++ join [44%N] (s2 :: l))). unfold code_units in *. rewrite !Forall_app. split_and!; [done| |done].
  by repeat constructor.
Qed.

(** ** A save without an edit *)

Definition as_document (v : jsval) : Prop := truthy v = true → document v.
Lemma or_value_document v d : as_document v → document d → document (or_value v d).
Proof. unfold or_value, as_document. intros Hv Hd. destruct (truthy v); auto. Qed.
Lemma prop_document obj k : entries_ok obj → as_document (prop (VObject obj) k).
Proof.
  intros Ho Ht. cbn [prop] in *. destruct (own obj k) as [v|] eqn:E; [|done]. apply own_Some_elem in E.
  inversion Ho as [| | | | |l _ _ Hl]; subst. rewrite Forall_forall in Hl. exact (Hl (k, v) E).
Qed.
Lemma truthy_enumerated v : truthy (enumerated v) = truthy v.
Proof. by destruct v. Qed.

(** A stored document of settings that this form, or a program that keeps to
    the declared types, wrote. *)
Record stored (t : Z) (obj : list (jsstring * jsval)) : Prop := mkStoredSettings {
  stored_document : entries_ok obj;
  stored_ignored : match own obj IGNORED with Some (VArray l) => Forall text_value l | _ => True end;
  stored_routes : t = CHANNEL_TYPE_ADVANCED_CUSTOM → truthy (prop (VObject obj) ADVANCED) = true →
    ∃ routes, normalizeAdvancedCustomConfig (prop (VObject obj) ADVANCED) = Ok routes ∧ Forall declared_route routes
}.

Lemma assignment_units : Forall code_units assignment_keys ∧ Forall code_units managed_keys.
Proof.
  assert (∀ l, forallb (forallb (λ c, c <? 65536)%N) l = true → Forall code_units l) as Hl.
  { intros l Hl. apply Forall_forall. intros k Hk%list_elem_of_In. rewrite forallb_forall in Hl. apply ascii_units. by apply Hl. }
  split; apply Hl; vm_compute; reflexivity.
Qed.

#[local] Ltac in_list := repeat (first [apply list_elem_of_here|apply list_elem_of_further]).

Section Unedited.
Context (t : Z) (obj : list (jsstring * jsval)) (Hobj : stored t obj).
#[local] Set Default Proof Using "All".
Abbreviation f := (read_types (VObject obj)).

Lemma assigned_documents : Forall (λ a, a.2.1 = true → document a.2.2) (type_assignments t f).
Proof.
  pose proof (λ k, prop_document obj k (stored_document _ _ Hobj)) as Hp.
  assert (∀ s, forallb (λ c, c <? 65536)%N s = true → document (VString s)) as Ht by (intros s Hs; constructor; by apply ascii_units).
  unfold type_assignments. cbv zeta. repeat apply Forall_cons_2; [..|apply Forall_nil_2];
    cbn [fst snd read_types vertex_key_type azure_responses_version aws_key_type]; intros Hc; try (by constructor).
  - apply or_value_document; [|by apply Ht; vm_compute]. intros _. apply or_value_document; [apply Hp|by apply Ht; vm_compute].
  - apply andb_true_iff in Hc as [_ Hc]. apply or_value_document; [apply Hp|by apply (Ht [])].
  - apply or_value_document; [|by apply Ht; vm_compute]. intros _. apply or_value_document; [apply Hp|by apply Ht; vm_compute].
Qed.

Lemma ignored_documents : document (VArray (map VString (ignored_models (upstream_model_update_ignored_models f)))).
Proof.
  cbn [read_types upstream_model_update_ignored_models]. fold IGNORED. pose proof (stored_ignored _ _ Hobj) as Hi. cbn [prop].
  set (text := match default VUndefined (own obj IGNORED) with VArray items => string_of (VArray items) | _ => [] end).
  assert (code_units text) as Hu.
  { unfold text. destruct (own obj IGNORED) as [[| | | | |l|]|]; try (by constructor). cbn [default from_option id].
    assert (∃ ss, l = map VString ss ∧ Forall code_units ss) as (ss & -> & Hss).
    { clear -Hi. induction Hi as [|v l (s & -> & Hs) _ (ss & -> & Hss)]; [by exists []|]. exists (s :: ss). split; [done|by constructor]. }
    rewrite string_of_texts. by apply code_units_join. }
  destruct (ignored_list text) as [_ Hsub]. constructor. apply Forall_map, Forall_forall. intros s Hs. constructor.
  apply Forall_forall. intros x Hx. unfold code_units in Hu. rewrite Forall_forall in Hu. apply Hu. by eapply Hsub.
Qed.

Lemma key_units k : k ∈ managed_keys → code_units k.
Proof. intros Hk. destruct assignment_units as [_ Hu]. rewrite Forall_forall in Hu. by apply Hu. Qed.

(** Every step keeps the document one. *)
Lemma written_document : entries_ok (settings_entries t f obj).
Proof.
  pose proof (stored_document _ _ Hobj) as Ho. unfold settings_entries, assign_advanced. cbv zeta. fold ADVANCED.
  assert (entries_ok (run_assignments (type_assignments t f) obj)) as H1.
  { apply entries_ok_run; [|done]. pose proof assigned_documents as Hd. rewrite Forall_forall in Hd |- *.
    intros a Ha. split; [|by apply Hd]. apply key_units, elem_of_cons. right. apply elem_of_app. left.
    rewrite <- (assignment_keys_spec t f). by apply (list_elem_of_fmap_2 fst) in Ha. }
  set (o1 := run_assignments (type_assignments t f) obj) in *. clearbody o1.
  assert (entries_ok (assign_upstream f o1)) as H2.
  { unfold assign_upstream. cbv zeta. fold CHECK_ENABLED AUTO_SYNC IGNORED LAST_DETECTED LAST_CHECK.
    assert (Forall code_units upstream_keys) as Hu
      by (apply Forall_forall; intros k Hk; apply key_units, elem_of_cons; right; apply elem_of_app; by right).
    unfold upstream_keys in Hu. repeat apply Forall_cons in Hu as [? Hu].
    set (o3 := set_key (set_key (set_key o1 _ _) _ _) _ _).
    assert (entries_ok o3) as Ho3.
    { unfold o3. repeat (apply entries_ok_set; [|assumption|]); try assumption; try (by constructor).
      apply ignored_documents. }
    clearbody o3.
    assert (∀ o, entries_ok o → entries_ok (set_key o LAST_DETECTED (VArray []))) as Hdet
      by (intros o Hob; apply entries_ok_set; [done|assumption|by constructor]).
    set (o4 := match own o3 LAST_DETECTED with Some (VArray _) => _ | _ => _ end).
    assert (entries_ok o4) as Ho4.
    { unfold o4. destruct (own o3 LAST_DETECTED) as [[| | | | |l|]|]; try (by apply Hdet). case_match; [done|by apply Hdet]. }
    clearbody o4. assert (entries_ok (set_key o4 LAST_CHECK (VNumber zero))) as Ho5.
    { apply entries_ok_set; [done|assumption|by apply document_number]. }
    by destruct (own o4 LAST_CHECK) as [[| | | | | |]|]. }
  assert (∀ o, entries_ok o → entries_ok (if (t =? CHANNEL_TYPE_ADVANCED_CUSTOM)%Z then
      match parseAdvancedCustomConfig (advanced_custom f) with Some routes => set_key o ADVANCED (routes_value routes) | None => o end
      else delete_key o ADVANCED)) as Hadv; [|destruct (has_type MODEL_FETCHABLE_TYPES t); by apply Hadv].
  intros o Hob. destruct (Z.eqb_spec t CHANNEL_TYPE_ADVANCED_CUSTOM) as [Ht|_]; [|by apply entries_ok_delete].
  destruct (parseAdvancedCustomConfig _) as [routes|] eqn:Hp; [|done].
  apply entries_ok_set; [done|apply key_units; apply elem_of_cons; by left|].
  cbn [read_types advanced_custom] in Hp. fold ADVANCED in Hp. destruct (truthy (prop (VObject obj) ADVANCED)) eqn:Hr; [|done].
  destruct (stored_routes _ _ Hobj Ht Hr) as (rs & Hn & Hdec). unfold stringifyAdvancedCustomConfig in Hp. rewrite Hn in Hp.
  change (parseAdvancedCustomConfig (json_pretty 0 (routes_value rs)) = Some routes) in Hp.
  rewrite written_routes in Hp; [|by eapply normalize_config_normal|done]. injection Hp as <-. by apply routes_document.
Qed.

(** What a second opening reads. *)
Definition reopened : list (jsstring * jsval) := reread (settings_entries t f obj).
Abbreviation f2 := (read_types (VObject reopened)).

Lemma own_reopened k : own reopened k = enumerated <$> settings_value t f obj k.
Proof. destruct (reread_spec _ written_document) as (_ & _ & _ & Hown). unfold reopened. by rewrite Hown, own_settings. Qed.
Lemma reopened_assigned k a : (k, a) ∈ type_assignments t f → own reopened k = enumerated <$> assigned (Some a) None.
Proof. intros Hk. by rewrite own_reopened, (settings_assigned t f obj k a Hk). Qed.

Lemma reopened_at i k a : type_assignments t f !! i = Some (k, a) → own reopened k = enumerated <$> assigned (Some a) None.
Proof. intros Hi%list_elem_of_lookup_2. by apply reopened_assigned. Qed.

Lemma flag_again k c b : own reopened k = enumerated <$> assigned (Some (c, VBoolean b)) None →
  own reopened k = assigned (Some (c, VBoolean (is_true (prop (VObject reopened) k)))) None.
Proof. cbn [prop assigned]. intros ->. destruct c; [|done]. by destruct b. Qed.
Lemma text_again k c v d : truthy d = true →
  own reopened k = enumerated <$> assigned (Some (c, or_value v d)) None → enumerated d = d →
  own reopened k = assigned (Some (c, or_value (or_value (prop (VObject reopened) k) d) d)) None.
Proof.
  cbn [prop assigned]. intros Ht -> Hd. destruct c; [|done]. cbn. f_equal. unfold or_value.
  destruct (truthy v) eqn:Hv; [|rewrite !Hd; by repeat (rewrite Ht; cbn)].
  by rewrite truthy_enumerated, Hv, truthy_enumerated, Hv.
Qed.

#[local] Ltac flag i := refine (flag_again _ _ _ (reopened_at i _ _ eq_refl)).
#[local] Ltac text i := refine (text_again _ _ _ _ _ (reopened_at i _ _ eq_refl) _); [vm_compute; reflexivity|reflexivity].
Lemma version_again : own reopened (js "azure_responses_version")
  = assigned (Some ((t =? 3)%Z && truthy (azure_responses_version f2), azure_responses_version f2)) None.
Proof.
  pose proof (reopened_at 1 _ _ eq_refl) as Hr. cbn [assigned read_types azure_responses_version] in Hr |- *.
  set (v := or_value (prop (VObject obj) (js "azure_responses_version")) empty_text) in Hr.
  cbn [prop]. rewrite Hr. destruct (t =? 3)%Z; [|done]. cbn [andb]. destruct (truthy v) eqn:Hv; [|done]. cbn. unfold or_value.
  by rewrite truthy_enumerated, Hv, truthy_enumerated, Hv.
Qed.
Lemma assignments_again : run_assignments (type_assignments t f2) reopened = reopened.
Proof.
  apply run_assignments_same. unfold type_assignments at 1. cbv zeta.
  apply Forall_cons_2; [text 0|]. apply Forall_cons_2; [exact version_again|].
  apply Forall_cons_2; [flag 2|]. apply Forall_cons_2; [text 3|]. apply Forall_cons_2; [flag 4|]. apply Forall_cons_2; [flag 5|].
  apply Forall_cons_2; [flag 6|]. apply Forall_cons_2; [flag 7|]. apply Forall_cons_2; [flag 8|]. apply Forall_cons_2; [flag 9|].
  apply Forall_cons_2; [flag 10|]. apply Forall_cons_2; [flag 11|]. apply Forall_cons_2; [flag 12|]. apply Forall_nil_2.
Qed.

Lemma upstream_keys_elem : CHECK_ENABLED ∈ upstream_keys ∧ AUTO_SYNC ∈ upstream_keys ∧ IGNORED ∈ upstream_keys
  ∧ LAST_DETECTED ∈ upstream_keys ∧ LAST_CHECK ∈ upstream_keys.
Proof.
  exact (conj (list_elem_of_lookup_2 upstream_keys 0 _ eq_refl) (conj (list_elem_of_lookup_2 upstream_keys 1 _ eq_refl)
    (conj (list_elem_of_lookup_2 upstream_keys 2 _ eq_refl) (conj (list_elem_of_lookup_2 upstream_keys 3 _ eq_refl)
    (list_elem_of_lookup_2 upstream_keys 4 _ eq_refl))))).
Qed.

Lemma upstream_key_read k v : has_type MODEL_FETCHABLE_TYPES t = true → k ∈ upstream_keys →
  upstream_value f k (own obj k) = Some v → own reopened k = Some (enumerated v).
Proof. intros Ht Hk Hv. rewrite own_reopened, (settings_upstream t f obj k Hk), Ht, Hv. done. Qed.

(** The keys of the watch over the upstream, as the second opening reads them. *)
Lemma upstream_read : has_type MODEL_FETCHABLE_TYPES t = true →
  own reopened CHECK_ENABLED = Some (VBoolean (upstream_model_update_check_enabled f))
  ∧ own reopened AUTO_SYNC = Some (VBoolean (upstream_model_update_check_enabled f && upstream_model_update_auto_sync_enabled f))
  ∧ own reopened IGNORED = Some (VArray (map VString (ignored_models (upstream_model_update_ignored_models f))))
  ∧ (∃ l, own reopened LAST_DETECTED = Some (VArray l) ∧ (upstream_model_update_check_enabled f = false → l = []))
  ∧ ∃ x, own reopened LAST_CHECK = Some (VNumber x).
Proof.
  intros Ht. destruct upstream_keys_elem as (K1 & K2 & K3 & K4 & K5). pose proof (upstream_values f) as V.
  split_and!.
  - exact (upstream_key_read _ _ Ht K1 (proj1 (V _))).
  - exact (upstream_key_read _ _ Ht K2 (proj1 (proj2 (V _)))).
  - rewrite (upstream_key_read _ _ Ht K3 (proj1 (proj2 (proj2 (V _))))). cbn [enumerated]. by rewrite map_map.
  - rewrite (upstream_key_read _ _ Ht K4 (proj1 (proj2 (proj2 (proj2 (V _)))))).
    destruct (own obj LAST_DETECTED) as [[| | | | |l|]|]; cbn [detected_value]; try (by exists []).
    destruct (upstream_model_update_check_enabled f); [|by exists []]. by eexists.
  - rewrite (upstream_key_read _ _ Ht K5 (proj2 (proj2 (proj2 (proj2 (V _)))))).
    destruct (own obj LAST_CHECK) as [[| | |x| | |]|]; by eexists.
Qed.

Lemma read_flag v o k b : is_true (prop (VObject o) k) = v → own o k = Some (VBoolean b) → v = b.
Proof. intros <- Hk. cbn [prop]. rewrite Hk. by destruct b. Qed.

Lemma upstream_again : has_type MODEL_FETCHABLE_TYPES t = true → assign_upstream f2 reopened = reopened.
Proof.
  intros (H1 & H2 & H3 & (l & H4 & Hl) & (x & H5))%upstream_read.
  pose proof (read_flag (upstream_model_update_check_enabled f2) _ _ _ eq_refl H1) as E1.
  pose proof (read_flag (upstream_model_update_auto_sync_enabled f2) _ _ _ eq_refl H2) as E2.
  assert (ignored_models (upstream_model_update_ignored_models f2) = ignored_models (upstream_model_update_ignored_models f)) as E3.
  { assert (upstream_model_update_ignored_models f2
      = match prop (VObject reopened) IGNORED with VArray items => string_of (VArray items) | _ => [] end) as -> by reflexivity.
    cbn [prop]. rewrite H3. cbn [default from_option id]. rewrite string_of_texts. apply ignored_again, ignored_list. }
  unfold assign_upstream. cbv zeta. fold CHECK_ENABLED AUTO_SYNC IGNORED LAST_DETECTED LAST_CHECK. rewrite E1, E2, E3.
  set (check := upstream_model_update_check_enabled f) in *.
  rewrite (set_key_same _ _ _ H1).
  assert (check && (check && upstream_model_update_auto_sync_enabled f) = check && upstream_model_update_auto_sync_enabled f) as ->
    by (by destruct check).
  rewrite (set_key_same _ _ _ H2), (set_key_same _ _ _ H3), H4.
  assert ((if check then reopened else set_key reopened LAST_DETECTED (VArray [])) = reopened) as ->.
  { destruct check; [done|]. rewrite (Hl eq_refl) in H4. by apply set_key_same. }
  by rewrite H5.
Qed.

Lemma advanced_again : assign_advanced t f2 reopened = reopened.
Proof.
  unfold assign_advanced. cbv zeta. fold ADVANCED. pose proof (own_reopened ADVANCED) as Ho. unfold settings_value in Ho.
  rewrite str_eqb_refl in Ho. destruct (Z.eqb_spec t CHANNEL_TYPE_ADVANCED_CUSTOM) as [Ht|_]; [|by apply delete_key_none].
  assert (∀ v, advanced_custom (read_types v) = if truthy (prop v ADVANCED) then
    match stringifyAdvancedCustomConfig (prop v ADVANCED) with Ok text => text | Err _ => [] end else []) as Hread by reflexivity.
  rewrite Hread in Ho |- *. destruct (truthy (prop (VObject obj) ADVANCED)) eqn:Hr.
  - destruct (stored_routes _ _ Hobj Ht Hr) as (rs & Hn & Hdec). pose proof (normalize_config_normal _ _ Hn) as Hnormal.
    unfold stringifyAdvancedCustomConfig in Ho at 1. rewrite Hn in Ho. cbn [mbind result_bind] in Ho.
    rewrite (written_routes rs Hnormal Hdec) in Ho. destruct (routes_document rs Hdec) as [_ He].
    cbn [fmap option_fmap option_map] in Ho. rewrite He in Ho. cbn [prop]. rewrite Ho. cbn [default from_option id].
    change (truthy (routes_value rs)) with true. cbn match. unfold stringifyAdvancedCustomConfig.
    rewrite (normalize_routes_value rs Hnormal). cbn [mbind result_bind].
    rewrite (written_routes rs Hnormal Hdec). by apply set_key_same.
  - change (parseAdvancedCustomConfig []) with (@None (list AdvancedCustomRoute)) in Ho.
    assert (truthy (prop (VObject reopened) ADVANCED) = false) as ->; [|done].
    cbn [prop] in Hr |- *. rewrite Ho. destruct (own obj ADVANCED); [|done]. cbn in Hr |- *. by rewrite truthy_enumerated.
Qed.

Lemma settings_again : json_text (VObject (settings_entries t f2 reopened)) = json_text (VObject (settings_entries t f obj)).
Proof.
  destruct (reread_spec _ written_document) as (_ & _ & Htext & _). rewrite <- Htext. f_equal. f_equal.
  unfold settings_entries at 1. cbv zeta. rewrite assignments_again.
  assert ((if has_type MODEL_FETCHABLE_TYPES t then assign_upstream f2 reopened else reopened) = reopened) as ->
    by (destruct (has_type _ t) eqn:E; [by apply upstream_again|done]).
  exact advanced_again.
Qed.
End Unedited.

(** The flags of the settings, and the types of channel that have them. *)
Definition type_flags : list (jsstring * (Z → bool)) :=
  [(js "openrouter_enterprise", λ t : Z, t =? 20);
   (js "allow_service_tier", has_type [1; 14; 57; 58; 59; 60; 62; 63]);
   (js "disable_store", has_type [1; 57; 58; 59; 60; 62; 63]);
   (js "allow_safety_identifier", has_type [1; 57; 58; 59; 60; 62; 63]);
   (js "allow_include_obfuscation", has_type [1; 57; 58; 59; 60; 62; 63]);
   (js "allow_inference_geo", has_type [1; 14; 57; 58; 59; 60; 62; 63]);
   (js "allow_speed", has_type [14; 58; 59; 60; 62; 63]);
   (js "claude_beta_query", λ t : Z, t =? 14);
   (js "ollama_openai_chat", λ t : Z, t =? 4);
   (js "disable_task_polling_sleep", λ _ : Z, true)]%Z.

Lemma either_types t : has_type OPENAI_FIELD_PASSTHROUGH_TYPES t || has_type CLAUDE_FIELD_PASSTHROUGH_TYPES t
  = has_type [1; 14; 57; 58; 59; 60; 62; 63]%Z t.
Proof.
  unfold has_type. rewrite <- existsb_app. apply eq_true_iff_eq. rewrite !existsb_exists. split; intros (x & Hx & Hxt); exists x;
    (split; [|done]); revert Hx; cbn; intuition.
Qed.

Lemma flag_written t obj (e : jsstring * (Z → bool)) : stored t obj → e ∈ type_flags →
  own (reopened t obj) e.1 = if e.2 t then Some (VBoolean (is_true (prop (VObject obj) e.1))) else None.
Proof.
  intros Hobj.
  assert (Forall (λ e : jsstring * (Z → bool), ∃ i, type_assignments t (read_types (VObject obj)) !! i
    = Some (e.1, (e.2 t, VBoolean (is_true (prop (VObject obj) e.1))))) type_flags) as Hall.
  { unfold type_flags. apply Forall_cons_2; [by exists 2|]. apply Forall_cons_2; [by exists 4|].
    apply Forall_cons_2; [by exists 5|]. apply Forall_cons_2; [by exists 6|]. apply Forall_cons_2; [by exists 7|].
    apply Forall_cons_2; [exists 8; cbn [fst snd]; rewrite <- either_types; reflexivity|].
    apply Forall_cons_2; [by exists 9|]. apply Forall_cons_2; [by exists 10|]. apply Forall_cons_2; [by exists 11|].
    apply Forall_cons_2; [by exists 12|]. apply Forall_nil_2. }
  intros He. rewrite Forall_forall in Hall. destruct (Hall e He) as [i Hi]. rewrite (reopened_at t obj Hobj i _ _ Hi).
  cbn [assigned]. by destruct (e.2 t).
Qed.

Lemma settings_base_parse text : settings_base text = match json_parse text with Ok parsed => parsed | Err _ => VObject [] end.
Proof.
  unfold settings_base. destruct (text =s []) eqn:E1; [apply str_eqb_eq in E1 as ->; vm_compute; reflexivity|].
  destruct (text =s js "{}") eqn:E2; [apply str_eqb_eq in E2 as ->; vm_compute; reflexivity|]. done.
Qed.

(** The stored channel after its settings were saved. *)
Definition with_settings (text : jsstring) (c : Channel) : Channel :=
  mkChannel (c_name c) (c_type c) (c_base_url c) (c_openai_organization c) (c_models c) (c_group c) (c_model_mapping c)
    (c_priority c) (c_weight c) (c_test_model c) (c_auto_ban c) (c_status c) (c_status_code_mapping c) (c_tag c) (c_remark c)
    (c_setting c) (c_param_override c) (c_header_override c) text (c_other c) (c_multi_key_mode c).

Lemma opened_settings `{Host} channel obj : json_parse (c_settings channel) = Ok (VObject obj) →
  buildSettingsJSON (transformChannelToFormDefaults channel)
  = Ok (json_text (VObject (settings_entries (c_type channel) (read_types (VObject obj)) obj))).
Proof.
  intros Hp. assert (c_settings channel ≠ []) as Hne by (intros Hn; rewrite Hn in Hp; vm_compute in Hp; discriminate).
  unfold buildSettingsJSON. cbn [transformChannelToFormDefaults f_settings f_type f_types].
  unfold or_text, types_of. rewrite (proj2 (str_eqb_neq _ _) Hne), settings_base_parse, Hp. done.
Qed.


(** A stored Anthropic channel with a flag, a flag of other types and a key of
    somebody else. *)
Definition sample_obj : list (jsstring * jsval) :=
  [(js "owner", VString (js "team")); (js "allow_speed", VBoolean true); (js "disable_store", VBoolean true)].
Definition sample_channel : Channel :=
  mkChannel (js "claude") 14 None None (js "claude-x") (js "default") None None None None None (num_of_Z 1) None None [] None None None
    (json_text (VObject sample_obj)) [] None.
Definition plain_form_host : Host := {| toLowerCase s := s; dateTimeFormat _ := None |}.
Lemma sample_stored : json_parse (c_settings sample_channel) = Ok (VObject sample_obj) ∧ stored 14 sample_obj.
Proof.
  split; [vm_compute; reflexivity|]. split; [|vm_compute; exact I|by intros ?].
  constructor.
  - apply (bool_decide_unpack _). vm_compute. exact I.
  - repeat (apply Forall_cons_2; [apply ascii_units; vm_compute; reflexivity|]). apply Forall_nil_2.
  - repeat (apply Forall_cons_2; [first [apply document_boolean|apply document_string, ascii_units; vm_compute; reflexivity]|]). apply Forall_nil_2.
Qed.
(** Single quotes stand for double ones. *)
Definition requoted (s : jsstring) : jsstring := map (λ c, if (c =? 39)%N then 34%N else c) s.
Example sample_saved :
  buildSettingsJSON (transformChannelToFormDefaults (H := plain_form_host) sample_channel)
  = Ok (requoted (js "{'owner':'team','allow_speed':true,'allow_service_tier':false,'allow_inference_geo':false,'claude_beta_query':false,'disable_task_polling_sleep':false,'upstream_model_update_check_enabled':false,'upstream_model_update_auto_sync_enabled':false,'upstream_model_update_ignored_models':[],'upstream_model_update_last_detected_models':[],'upstream_model_update_last_check_time':0}")).
Proof. vm_compute. reflexivity. Qed.
