(* ===== verification/StatusRules.v ===== *)
(** * lib/http-status-code-rules.ts

    Rules on HTTP status codes: a list of codes and ranges of codes, read from
    text, merged and written back. A code is read from a run of digits; one
    that is not representable exactly is far above 599 and refused either way,
    so codes are natural numbers here. *)

From S2P Require Import Prelude JsNumber JsText JsNumberFacts Types Runtime JsRegex.

Record StatusCodeRange := mkRange { range_start : N; range_end : N }.
#[export] Instance StatusCodeRange_eq_dec : EqDecision StatusCodeRange.
Proof. solve_decision. Defined.

Record ParsedHttpStatusCodeRules := mkRules {
  ok : bool;
  ranges : list StatusCodeRange;
  tokens : list jsstring;
  normalized : jsstring;
  invalidTokens : list jsstring
}.

(** [/^\d+$/]. *)
Definition isNumber (s : jsstring) : bool := negb (s =s []) && forallb is_digit s.
Definition isValidCode (code : N) : bool := ((100 <=? code) && (code <=? 599))%N.

(** The token without white space. *)
Definition clean_token (token : jsstring) : jsstring := List.filter (λ c, negb (is_space c)) (trim token).

Definition parseToken (token : jsstring) : option StatusCodeRange :=
  let cleaned := clean_token token in
  if cleaned =s [] then None
  else if includes (js "-") cleaned then
    match split_units 45%N cleaned with
    | a :: b :: _ =>
        if negb (isNumber a) || negb (isNumber b) then None
        else
          let first := dec_value a in
          let last := dec_value b in
          if negb (isValidCode first) || negb (isValidCode last) || (last <? first)%N then None
          else Some (mkRange first last)
    | _ => None
    end
  else if negb (isNumber cleaned) then None
  else
    let code := dec_value cleaned in
    if negb (isValidCode code) then None else Some (mkRange code code).

(** By start, then by end: a total order, so any sort gives this list. *)
Definition range_leb (a b : StatusCodeRange) : bool :=
  (if range_start a =? range_start b then range_end a <=? range_end b else range_start a <? range_start b)%N.
Fixpoint insert_range (x : StatusCodeRange) (l : list StatusCodeRange) : list StatusCodeRange :=
  match l with
  | [] => [x]
  | y :: l' => if range_leb x y then x :: l else y :: insert_range x l'
  end.
Definition sort_ranges (l : list StatusCodeRange) : list StatusCodeRange := fold_right insert_range [] l.

(** A round of the reduction; the last range is at the end of [merged]. *)
Definition merge_round (merged : list StatusCodeRange) (current : StatusCodeRange) : list StatusCodeRange :=
  match last merged with
  | None => merged ++ [current]
  | Some r =>
      if (range_end r + 1 <? range_start current)%N then merged ++ [current]
      else take (length merged - 1) merged ++ [mkRange (range_start r) (N.max (range_end r) (range_end current))]
  end.
Definition mergeRanges (l : list StatusCodeRange) : list StatusCodeRange := foldl merge_round [] (sort_ranges l).

Definition range_text (r : StatusCodeRange) : jsstring :=
  if (range_start r =? range_end r)%N then dec_string (range_start r)
  else dec_string (range_start r) ++ js "-" ++ dec_string (range_end r).

(** The segments of a text: the full-width comma is a comma. *)
Definition rule_segments (raw : jsstring) : list jsstring :=
  List.filter (λ s, negb (s =s []))
    (map trim (split_units 44%N (map (λ c, if (c =? 65292)%N then 44%N else c) raw))).

(** The segments that parse, and those that do not. *)
Fixpoint read_segments (segments : list jsstring) : list StatusCodeRange * list jsstring :=
  match segments with
  | [] => ([], [])
  | s :: segments =>
      let '(rs, bad) := read_segments segments in
      match parseToken s with Some r => (r :: rs, bad) | None => (rs, s :: bad) end
  end.

Definition parse_rules (raw : jsstring) : ParsedHttpStatusCodeRules :=
  if raw =s [] then mkRules true [] [] [] []
  else
    let '(rs, bad) := read_segments (rule_segments raw) in
    match bad with
    | _ :: _ => mkRules false [] [] raw bad
    | [] =>
        let merged := mergeRanges rs in
        let tokens := map range_text merged in
        mkRules true merged tokens (join (js ",") tokens) []
    end.

Definition parseHttpStatusCodeRules (input : jsval) : result ParsedHttpStatusCodeRules :=
  text ← (if is_nullish input then Ok [] else to_string input);
  Ok (parse_rules (trim text)).

Example parse_rules_merged :
  match parseHttpStatusCodeRules (VString (js " 500-502, 404,501 - 510，403 ")) with
  | Ok r => ok r && (normalized r =s js "403-404,500-510")
  | Err _ => false
  end = true.
Proof. vm_compute. reflexivity. Qed.
Example parse_rules_bad :
  match parseHttpStatusCodeRules (VString (js "404, 99, 5xx")) with
  | Ok r => negb (ok r) && bool_decide (invalidTokens r = [js "99"; js "5xx"])
  | Err _ => false
  end = true.
Proof. vm_compute. reflexivity. Qed.

(** * The text of the rules *)

Local Open Scope N_scope.

Definition in_range (c : N) (r : StatusCodeRange) : Prop := range_start r ≤ c ≤ range_end r.
(** The set of codes of a list of ranges. *)
Definition covered (c : N) (l : list StatusCodeRange) : Prop := ∃ r, r ∈ l ∧ in_range c r.

(** Sorted, and with a gap between a range and the next. *)
Definition gap (a b : StatusCodeRange) : Prop := range_end a + 1 < range_start b.
Definition canonical (l : list StatusCodeRange) : Prop :=
  Forall (λ r, range_start r ≤ range_end r) l ∧ StronglySorted gap l.

Lemma covered_nil c : covered c [] ↔ False.
Proof. unfold covered. set_solver. Qed.
Lemma covered_cons c r l : covered c (r :: l) ↔ in_range c r ∨ covered c l.
Proof. unfold covered. setoid_rewrite elem_of_cons. naive_solver. Qed.
Lemma covered_app c a b : covered c (a ++ b) ↔ covered c a ∨ covered c b.
Proof. unfold covered. setoid_rewrite elem_of_app. naive_solver. Qed.
Lemma covered_perm c a b : a ≡ₚ b → covered c a ↔ covered c b.
Proof. intros Hp. unfold covered. by setoid_rewrite Hp. Qed.

Lemma canonical_cons r l :
  canonical (r :: l) ↔ range_start r ≤ range_end r ∧ Forall (gap r) l ∧ canonical l.
Proof.
  unfold canonical. rewrite Forall_cons. split.
  - intros [[? ?] [? ?]%StronglySorted_inv]. done.
  - intros (? & ? & ? & ?). split; [done|]. by constructor.
Qed.

(** The codes after a gap. *)
Lemma covered_after r l c : Forall (gap r) l → covered c l → range_end r + 1 < c.
Proof.
  intros Hg (r' & Hr' & Hin & _). rewrite Forall_forall in Hg. specialize (Hg r' Hr'). unfold gap in Hg. lia.
Qed.

(** One canonical list per set of codes. *)
Lemma canonical_unique l1 : ∀ l2,
  canonical l1 → canonical l2 → (∀ c, covered c l1 ↔ covered c l2) → l1 = l2.
Proof.
  induction l1 as [|r1 l1 IH]; intros l2 H1 H2 Hc.
  { destruct l2 as [|r2 l2]; [done|]. exfalso. apply (covered_nil (range_start r2)), Hc, covered_cons. left.
    apply canonical_cons in H2 as (? & _). unfold in_range. lia. }
  destruct l2 as [|r2 l2].
  { exfalso. apply (covered_nil (range_start r1)), Hc, covered_cons. left.
    apply canonical_cons in H1 as (? & _). unfold in_range. lia. }
  apply canonical_cons in H1 as (Hr1 & Hg1 & H1), H2 as (Hr2 & Hg2 & H2).
  assert (∀ a la b lb, range_start a ≤ range_end a → Forall (gap b) lb → range_start b ≤ range_end b →
            (∀ c, covered c (a :: la) → covered c (b :: lb)) → range_start b ≤ range_start a) as Hstart.
  { intros a la b lb Ha Hb Hbb Himp. destruct (proj1 (covered_cons (range_start a) b lb)) as [[? _]|Hcov]; [|done|].
    - apply Himp, covered_cons. left. split; [done|lia].
    - apply (covered_after b) in Hcov; [lia|done]. }
  assert (range_start r1 = range_start r2) as Hs.
  { pose proof (Hstart r1 l1 r2 l2 Hr1 Hg2 Hr2 (λ c, proj1 (Hc c))).
    pose proof (Hstart r2 l2 r1 l1 Hr2 Hg1 Hr1 (λ c, proj2 (Hc c))). lia. }
  assert (∀ a la b lb, range_start a = range_start b → range_start a ≤ range_end a → range_start b ≤ range_end b →
            Forall (gap a) la → Forall (gap b) lb →
            (∀ c, covered c (b :: lb) → covered c (a :: la)) → range_end b ≤ range_end a) as Hend.
  { intros a la b lb Hab Ha Hb Hga Hgb Himp. destruct (N.le_gt_cases (range_end b) (range_end a)) as [|Hlt]; [done|].
    exfalso. destruct (proj1 (covered_cons (range_end a + 1) a la)) as [[_ ?]|Hcov]; [|lia|].
    - apply Himp, covered_cons. left. split; lia.
    - apply (covered_after a) in Hcov; [lia|done]. }
  assert (range_end r1 = range_end r2) as He.
  { pose proof (Hend r1 l1 r2 l2 Hs Hr1 Hr2 Hg1 Hg2 (λ c, proj2 (Hc c))).
    pose proof (Hend r2 l2 r1 l1 (eq_sym Hs) Hr2 Hr1 Hg2 Hg1 (λ c, proj1 (Hc c))). lia. }
  assert (r1 = r2) as <- by (destruct r1, r2; cbn in *; congruence). f_equal. apply IH; [done..|].
  assert (∀ la lb, (∀ c, covered c (r1 :: la) ↔ covered c (r1 :: lb)) → Forall (gap r1) la → ∀ c, covered c la → covered c lb) as Htail.
  { intros la lb Hiff Hga c Hcov. pose proof (covered_after _ _ _ Hga Hcov).
    destruct (proj1 (covered_cons c r1 lb)) as [[_ ?]|]; [|lia|done]. apply Hiff, covered_cons. by right. }
  intros c. split; [by apply Htail|]. apply Htail; [|done]. intros c'. by rewrite Hc.
Qed.

(** ** Sorting and merging *)

Definition starts_before (a b : StatusCodeRange) : Prop := range_start a ≤ range_start b.

Lemma insert_range_perm x l : insert_range x l ≡ₚ x :: l.
Proof.
  induction l as [|y l IH]; cbn; [done|]. destruct (range_leb x y); [done|]. rewrite IH. apply Permutation_swap.
Qed.
Lemma sort_ranges_perm l : sort_ranges l ≡ₚ l.
Proof. induction l as [|x l IH]; cbn; [done|]. by rewrite insert_range_perm, IH. Qed.

Lemma range_leb_start x y : range_leb x y = true → starts_before x y.
Proof.
  unfold range_leb, starts_before. destruct (range_start x =? range_start y) eqn:E.
  - apply N.eqb_eq in E. lia.
  - intros ?%N.ltb_lt. lia.
Qed.
Lemma range_leb_false x y : range_leb x y = false → starts_before y x.
Proof.
  unfold range_leb, starts_before. destruct (range_start x =? range_start y) eqn:E.
  - apply N.eqb_eq in E. lia.
  - intros ?%N.ltb_ge. lia.
Qed.

Lemma insert_range_sorted x l : StronglySorted starts_before l → StronglySorted starts_before (insert_range x l).
Proof.
  induction 1 as [|y l Hl IH Hy]; cbn; [repeat constructor|]. destruct (range_leb x y) eqn:E.
  - apply range_leb_start in E. constructor; [by constructor|]. constructor; [done|].
    eapply Forall_impl; [exact Hy|]. unfold starts_before in *. intros z. lia.
  - constructor; [done|]. rewrite insert_range_perm. constructor; [by apply range_leb_false|done].
Qed.
Lemma sort_ranges_sorted l : StronglySorted starts_before (sort_ranges l).
Proof. induction l as [|x l IH]; cbn; [constructor|]. by apply insert_range_sorted. Qed.

Lemma merge_round_last a r x :
  merge_round (a ++ [r]) x =
  if range_end r + 1 <? range_start x then a ++ [r; x]
  else a ++ [mkRange (range_start r) (N.max (range_end r) (range_end x))].
Proof.
  unfold merge_round. rewrite last_snoc. destruct (_ <? _); [by rewrite <- app_assoc|].
  rewrite length_app. cbn [length]. rewrite Nat.add_sub. by rewrite take_app_length.
Qed.

Lemma canonical_snoc a r :
  canonical (a ++ [r]) ↔ canonical a ∧ Forall (λ x, gap x r) a ∧ range_start r ≤ range_end r.
Proof.
  induction a as [|x a IH]; cbn [app].
  - rewrite canonical_cons. unfold canonical. split; [intros (? & _ & _)|intros (_ & _ & ?)]; split_and!; try done;
      try constructor.
  - rewrite !canonical_cons, IH, Forall_app, !Forall_cons, !Forall_nil. tauto.
Qed.

Lemma merge_rounds l : ∀ a r,
  canonical (a ++ [r]) → Forall (λ x, range_start x ≤ range_end x) l → StronglySorted starts_before (r :: l) →
  canonical (foldl merge_round (a ++ [r]) l) ∧
  ∀ c, covered c (foldl merge_round (a ++ [r]) l) ↔ covered c (a ++ [r]) ∨ covered c l.
Proof.
  induction l as [|x l IH]; intros a r Ha Hl Hs; cbn [foldl].
  { split; [done|]. intros c. rewrite covered_nil. tauto. }
  apply Forall_cons in Hl as [Hx Hl]. apply StronglySorted_inv in Hs as [Hs [Hrx Hrl]%Forall_cons].
  apply canonical_snoc in Ha as (Ha & Hg & Hr). rewrite merge_round_last. destruct (_ <? _) eqn:E.
  - apply N.ltb_lt in E. change (a ++ [r; x]) with (a ++ [r] ++ [x]). rewrite app_assoc.
    destruct (IH (a ++ [r]) x) as [Hc Hcov]; [|done|done|].
    { apply canonical_snoc. split_and!; [by apply canonical_snoc| |done]. apply Forall_app. split; [|by constructor].
      eapply Forall_impl; [exact Hg|]. unfold gap. intros y. lia. }
    split; [done|]. intros c. rewrite Hcov, (covered_app c (a ++ [r])), !covered_cons, covered_nil. tauto.
  - apply N.ltb_ge in E. set (m := mkRange _ _). destruct (IH a m) as [Hc Hcov]; [|done| |].
    + apply canonical_snoc. split_and!; [done|exact Hg|cbn; lia].
    + apply StronglySorted_inv in Hs as [Hs _]. by constructor.
    + split; [done|]. intros c. rewrite Hcov, !covered_app, !covered_cons, !covered_nil.
      assert (in_range c m ↔ in_range c r ∨ in_range c x) as ->; [|tauto].
      unfold in_range, m. cbn. unfold starts_before in Hrx. lia.
Qed.

Lemma mergeRanges_spec l :
  Forall (λ r, range_start r ≤ range_end r) l →
  canonical (mergeRanges l) ∧ ∀ c, covered c (mergeRanges l) ↔ covered c l.
Proof.
  intros Hl. unfold mergeRanges. pose proof (sort_ranges_perm l) as Hp. pose proof (sort_ranges_sorted l) as Hs.
  rewrite <- Hp in Hl. assert (∀ c, covered c (sort_ranges l) ↔ covered c l) as Hc by (intros c; by apply covered_perm).
  destruct (sort_ranges l) as [|r s]; cbn [foldl].
  { split; [split; constructor|done]. }
  apply Forall_cons in Hl as [Hr Hl]. destruct (merge_rounds s [] r) as [Hcan Hcov]; [|done..|].
  { apply canonical_cons. split_and!; [done|constructor|split; constructor]. }
  split; [done|]. intros c. etrans; [apply Hcov|]. rewrite <- Hc. cbn [app]. rewrite !covered_cons, covered_nil. tauto.
Qed.

(** Merging changes a canonical list in nothing. *)
Lemma mergeRanges_canonical l : canonical l → mergeRanges l = l.
Proof.
  intros Hl. destruct (mergeRanges_spec l) as [Hc Hcov]; [apply Hl|]. by apply canonical_unique.
Qed.

(** ** Reading the text of ranges *)

Local Open Scope nat_scope.

Definition token_unit (c : code_unit) : bool := is_digit c || (c =? 45)%N.
Definition plain_token (s : jsstring) : Prop := forallb token_unit s = true ∧ s ≠ [].

Lemma digit_unit c : is_digit c = true → is_space c = false ∧ c ≠ 45%N ∧ c ≠ 44%N ∧ c ≠ 65292%N.
Proof.
  intros Hd. unfold is_digit in Hd. apply andb_true_iff in Hd as [Hl%N.leb_le Hh%N.leb_le]. split_and!; try lia.
  unfold is_space. repeat (apply orb_false_iff; split); try (apply N.eqb_neq; lia);
    try (apply andb_false_iff; rewrite !N.leb_gt; lia).
Qed.

Lemma token_unit_cases c : token_unit c = true → is_space c = false ∧ c ≠ 44%N ∧ c ≠ 65292%N.
Proof.
  unfold token_unit. intros [Hd| ->%N.eqb_eq]%orb_true_iff; [|by vm_compute].
  destruct (digit_unit c Hd) as (? & ? & ? & ?). done.
Qed.

Lemma plain_token_trim s : plain_token s → trim s = s.
Proof.
  intros [Hs _]. apply trim_no_space. rewrite forallb_forall in *. intros c Hc.
  destruct (token_unit_cases c (Hs c Hc)) as [-> _]. done.
Qed.

Lemma rule_segments_join l :
  Forall plain_token l → l ≠ [] → rule_segments (join (js ",") l) = l.
Proof.
  intros Hl Hne. unfold rule_segments. change (js ",") with [44%N].
  assert (∀ c s, plain_token s → token_unit c = false → c ∉ s) as Hno.
  { intros c s [Hs _] Hc Hin%list_elem_of_In. rewrite forallb_forall in Hs. rewrite (Hs c Hin) in Hc. done. }
  assert (map (λ c, if (c =? 65292)%N then 44%N else c) (join [44%N] l) = join [44%N] l) as ->.
  { rewrite <- (map_id (join [44%N] l)) at 2. apply map_ext_in. intros c Hc%list_elem_of_In.
    destruct (N.eqb_spec c 65292) as [->|]; [exfalso|done]. clear Hne. induction l as [|s l IH]; [by apply not_elem_of_nil in Hc|].
    apply Forall_cons in Hl as [Hs Hl]. destruct l as [|s2 l]; [by apply (Hno 65292%N s Hs eq_refl)|].
    change (join [44%N] (s :: s2 :: l)) with (s ++ 44%N :: join [44%N] (s2 :: l)) in Hc.
    apply elem_of_app in Hc as [Hc|[?|Hc]%elem_of_cons]; [by apply (Hno 65292%N s Hs eq_refl)|done|by apply IH]. }
  rewrite split_units_join; [|done|eapply Forall_impl; [exact Hl|]; intros s Hs; by apply Hno].
  clear Hne Hno. induction Hl as [|s l Hs _ IH]; cbn; [done|]. rewrite (plain_token_trim s Hs), IH.
  destruct Hs as [_ Hs]. by rewrite (proj2 (str_eqb_neq s []) Hs).
Qed.

Lemma clean_plain s : plain_token s → clean_token s = s.
Proof.
  intros Hs. unfold clean_token. rewrite (plain_token_trim s Hs). destruct Hs as [Hs _].
  induction s as [|c s IH]; cbn in *; [done|]. apply andb_true_iff in Hs as [Hc Hs].
  destruct (token_unit_cases c Hc) as [-> _]. cbn. by rewrite IH.
Qed.

Lemma digits_token s : forallb is_digit s = true → s ≠ [] → plain_token s ∧ isNumber s = true ∧ 45%N ∉ s.
Proof.
  intros Hs Hne. split_and!.
  - split; [|done]. rewrite forallb_forall in *. intros c Hc. unfold token_unit. by rewrite (Hs c Hc).
  - unfold isNumber. rewrite Hs. by rewrite (proj2 (str_eqb_neq s []) Hne).
  - intros Hin%list_elem_of_In. rewrite forallb_forall in Hs. by specialize (Hs _ Hin).
Qed.

Lemma no_dash s : 45%N ∉ s → includes (js "-") s = false.
Proof.
  intros Hs. apply not_true_is_false. intros (a & b & ->)%includes_spec. change (js "-") with [45%N] in Hs. set_solver.
Qed.

Definition range_valid (r : StatusCodeRange) : Prop :=
  (100 <= range_start r)%N ∧ (range_end r <= 599)%N ∧ (range_start r <= range_end r)%N.

Lemma parse_range_text r : range_valid r → plain_token (range_text r) ∧ parseToken (range_text r) = Some r.
Proof.
  intros (Hlo & Hhi & Hle). destruct r as [a b]. cbn in *.
  destruct (dec_string_spec a) as (Hda & Hva & Hna), (dec_string_spec b) as (Hdb & Hvb & Hnb).
  destruct (digits_token _ Hda Hna) as (Hta & Hia & Hxa), (digits_token _ Hdb Hnb) as (Htb & Hib & Hxb).
  assert (isValidCode a = true ∧ isValidCode b = true) as [Hca Hcb].
  { unfold isValidCode. rewrite !andb_true_iff, !N.leb_le. lia. }
  unfold range_text. cbn [range_start range_end]. destruct (N.eqb_spec a b) as [->|Hab].
  - split; [done|]. unfold parseToken. rewrite (clean_plain _ Htb), (proj2 (str_eqb_neq _ []) Hnb), (no_dash _ Hxb), Hib.
    cbn [negb]. by rewrite Hvb, Hcb.
  - change (js "-") with [45%N]. assert (plain_token (dec_string a ++ [45%N] ++ dec_string b)) as Ht.
    { split; [|by destruct (dec_string a)]. rewrite !forallb_app. destruct Hta as [-> _], Htb as [-> _]. done. }
    split; [done|]. unfold parseToken. rewrite (clean_plain _ Ht).
    rewrite (proj2 (str_eqb_neq _ []) (proj2 Ht)).
    rewrite (proj2 (includes_spec (js "-") _)); [|by eexists _, _].
    cbn [app]. rewrite (split_units_app _ _ _ Hxa), (split_units_none _ _ Hxb), Hia, Hib. cbn [negb orb].
    rewrite Hva, Hvb, Hca, Hcb. cbn [negb orb]. by rewrite (proj2 (N.ltb_ge b a)).
Qed.

Lemma parseToken_valid s r : parseToken s = Some r → range_valid r.
Proof.
  unfold parseToken. destruct (_ =s []); [done|].
  assert (∀ c, isValidCode c = true → (100 <= c)%N ∧ (c <= 599)%N) as Hvalid.
  { intros c [?%N.leb_le ?%N.leb_le]%andb_true_iff. done. }
  destruct (includes _ _).
  - destruct (split_units _ _) as [|a [|b l]]; try done. destruct (_ || _); [done|].
    destruct (negb (isValidCode (dec_value a))) eqn:Ha; [done|]. destruct (negb (isValidCode (dec_value b))) eqn:Hb; [done|].
    destruct (dec_value b <? dec_value a)%N eqn:Hlt; [done|]. intros [= <-].
    apply negb_false_iff in Ha, Hb. apply Hvalid in Ha, Hb. apply N.ltb_ge in Hlt. unfold range_valid. cbn. lia.
  - destruct (negb (isNumber _)); [done|]. destruct (negb (isValidCode _)) eqn:Hc; [done|]. intros [= <-].
    apply negb_false_iff, Hvalid in Hc. unfold range_valid. cbn. lia.
Qed.

Lemma read_segments_texts l : Forall range_valid l → read_segments (map range_text l) = (l, []).
Proof.
  induction 1 as [|r l Hr _ IH]; cbn; [done|]. rewrite IH. by destruct (parse_range_text r Hr) as [_ ->].
Qed.

Lemma read_segments_valid segments rs bad : read_segments segments = (rs, bad) →
  Forall range_valid rs ∧ rs = omap parseToken segments ∧ (bad = [] ↔ Forall (λ s, is_Some (parseToken s)) segments).
Proof.
  revert rs bad. induction segments as [|s segments IH]; intros rs bad; cbn.
  { intros [= <- <-]. split_and!; [constructor|done|]. split; [constructor|done]. }
  destruct (read_segments segments) as [rs0 bad0]. destruct (IH rs0 bad0 eq_refl) as (Hv & -> & Hb).
  destruct (parseToken s) as [r|] eqn:Hp; intros [= <- <-]; rewrite (Forall_cons (λ s, is_Some (parseToken s))).
  - split_and!; [constructor; [by eapply parseToken_valid|done]|done|]. rewrite Hb, Hp. split; [by split|by intros [_ ?]].
  - split_and!; [done|done|]. rewrite Hp. split; [done|]. by intros [[? ?] _].
Qed.

(** ** Properties *)

Lemma merged_valid l : Forall range_valid l → Forall range_valid (mergeRanges l).
Proof.
  intros Hl. destruct (mergeRanges_spec l) as [[Hle _] Hcov].
  { eapply Forall_impl; [exact Hl|]. by intros r (_ & _ & ?). }
  apply Forall_forall. intros r Hr. rewrite Forall_forall in Hl, Hle. specialize (Hle r Hr).
  destruct (proj1 (Hcov (range_start r))) as (a & Ha & Hina); [exists r; split; [done|unfold in_range; lia]|].
  destruct (proj1 (Hcov (range_end r))) as (b & Hb & Hinb); [exists r; split; [done|unfold in_range; lia]|].
  destruct (Hl a Ha) as (? & _), (Hl b Hb) as (_ & ? & _). unfold range_valid, in_range in *. lia.
Qed.

Definition rules_of (l : list StatusCodeRange) : ParsedHttpStatusCodeRules :=
  mkRules true l (map range_text l) (join (js ",") (map range_text l)) [].

Lemma parse_rules_cases raw :
  match (read_segments (rule_segments raw)).2 with
  | [] => parse_rules raw = rules_of (mergeRanges (read_segments (rule_segments raw)).1)
  | bad => parse_rules raw = mkRules false [] [] raw bad
  end.
Proof.
  unfold parse_rules. destruct (raw =s []) eqn:E; [apply str_eqb_eq in E as ->; done|].
  destruct (read_segments _) as [rs [|b bad]]; done.
Qed.

Lemma parse_rules_text l : canonical l → Forall range_valid l → parse_rules (normalized (rules_of l)) = rules_of l.
Proof.
  intros Hc Hv. destruct l as [|r l]; [done|]. pose proof (parse_rules_cases (normalized (rules_of (r :: l)))) as Hp.
  cbn [rules_of normalized] in *. assert (Forall plain_token (map range_text (r :: l))) as Ht.
  { apply Forall_map. eapply Forall_impl; [exact Hv|]. intros x Hx. apply (parse_range_text x Hx). }
  rewrite (rule_segments_join _ Ht), (read_segments_texts _ Hv) in Hp by done. cbn [fst snd] in Hp.
  by rewrite Hp, mergeRanges_canonical.
Qed.

(** C30. Status code rules have one canonical form. An accepted text yields
    sorted ranges within 100 to 599 that neither overlap nor touch and cover
    exactly the codes that its segments name; the normalized text reads back to
    the same rules; and any accepted text for the same codes gives the same
    rules and the same text. A text is refused exactly when a segment of it is
    not a code or a range, and then yields no ranges. *)
Theorem status_rules_canonical raw :
  (ok (parse_rules raw) = true →
     canonical (ranges (parse_rules raw)) ∧ Forall range_valid (ranges (parse_rules raw)) ∧
     (∀ c, covered c (ranges (parse_rules raw)) ↔
        ∃ s g, s ∈ rule_segments raw ∧ parseToken s = Some g ∧ in_range c g) ∧
     parse_rules (normalized (parse_rules raw)) = parse_rules raw ∧
     ∀ raw', ok (parse_rules raw') = true →
       (∀ c, covered c (ranges (parse_rules raw')) ↔ covered c (ranges (parse_rules raw))) →
       parse_rules raw' = parse_rules raw) ∧
  (ok (parse_rules raw) = false ↔ ∃ s, s ∈ rule_segments raw ∧ parseToken s = None) ∧
  (ok (parse_rules raw) = false → ranges (parse_rules raw) = []).
Proof.
  assert (∀ raw, ok (parse_rules raw) = true → ∃ rs, Forall range_valid rs ∧ rs = omap parseToken (rule_segments raw) ∧
            parse_rules raw = rules_of (mergeRanges rs) ∧ canonical (mergeRanges rs) ∧
            ∀ c, covered c (mergeRanges rs) ↔ covered c rs) as Hok.
  { intros t Ht. pose proof (parse_rules_cases t) as Hp. destruct (read_segments (rule_segments t)) as [rs bad] eqn:Hr.
    destruct (read_segments_valid _ _ _ Hr) as (Hv & Heq & _). destruct bad as [|b bad]; [|by rewrite Hp in Ht].
    exists rs. destruct (mergeRanges_spec rs) as [? ?].
    { eapply Forall_impl; [exact Hv|]. by intros r (_ & _ & ?). }
    by split_and!. }
  split_and!.
  - intros H. destruct (Hok raw H) as (rs & Hv & Heq & -> & Hc & Hcov). cbn [ranges rules_of]. split_and!.
    + done.
    + by apply merged_valid.
    + intros c. rewrite Hcov, Heq. unfold covered. setoid_rewrite list_elem_of_omap. naive_solver.
    + apply parse_rules_text; [done|by apply merged_valid].
    + intros raw' H' Hsame. destruct (Hok raw' H') as (rs' & _ & _ & Hp' & Hc' & _). rewrite Hp' in *. cbn [ranges rules_of] in Hsame.
      by rewrite (canonical_unique _ _ Hc' Hc Hsame).
  - pose proof (parse_rules_cases raw) as Hp. destruct (read_segments (rule_segments raw)) as [rs bad] eqn:Hr.
    destruct (read_segments_valid _ _ _ Hr) as (_ & _ & Hb). cbn [fst snd] in Hp. destruct bad as [|b bad]; rewrite Hp; cbn.
    + split; [done|]. intros (s & Hs & Hn). pose proof (proj1 Hb eq_refl) as Hall. rewrite Forall_forall in Hall.
      destruct (Hall s Hs). congruence.
    + split; [|done]. intros _. assert (¬ Forall (λ s, is_Some (parseToken s)) (rule_segments raw)) as Hnot by (by rewrite <- Hb).
      apply not_Forall_Exists in Hnot; [|solve_decision]. apply Exists_exists in Hnot as (s & Hs & Hn). exists s.
      split; [done|]. cbn in Hn. by apply eq_None_not_Some.
  - intros H. pose proof (parse_rules_cases raw) as Hp. destruct (read_segments (rule_segments raw)) as [rs [|b bad]];
      cbn [fst snd] in Hp; rewrite Hp in *; done.
Qed.

Example status_rules_canonical_witness :
  ok (parse_rules (js "500-502,404,501-510,403")) = true ∧
  parse_rules (normalized (parse_rules (js "500-502,404,501-510,403"))) = parse_rules (js "500-502,404,501-510,403").
Proof.
  assert (ok (parse_rules (js "500-502,404,501-510,403")) = true) as H by (vm_compute; reflexivity).
  split; [exact H|]. destruct (status_rules_canonical (js "500-502,404,501-510,403")) as [Hc _].
  destruct (Hc H) as (_ & _ & _ & Hn & _). exact Hn.
Defined.
