(* ===== verification/AuthSession.v ===== *)
(** * lib/auth-session.ts, stores/auth-store.ts, lib/session-hint.ts

    The login session of one browser tab: the store of the signed-in user, the
    checks of server payloads, the refresh of the access token as a process
    that is suspended at each [await], and the entry points of the module.

    A tab is one record: the store, the module's [authEpoch] and
    [refreshPromise], and the logs of what it published to other tabs and sent
    to the server. A refresh in flight is the data of its pending [await]; the
    signals that resume it (lock, response, timer) come from outside and may be
    interleaved with every other action of the tab. *)

From S2P Require Import Prelude JsNumber JsText Types Runtime JsValue.

(** ** Payloads: the checks of [unknown] values *)

Definition isRecord (v : jsval) : bool := is_object v.

Record AuthUser := mkUser {
  user_id : num;
  username : jsstring;
  role : num;
  user_object : jsval      (* the object itself, with the optional fields *)
}.

Record LoginSession := mkSession {
  sid : jsstring;
  session_current : bool;
  login_method : jsstring;
  ip : jsstring;
  user_agent : jsstring;
  created_at : num;
  last_active_at : num;
  expires_at : num
}.

Record AuthBundle := mkBundle {
  access_token : jsstring;
  token_type : jsstring;
  access_expires_at : num;
  bundle_user : AuthUser;
  bundle_session : LoginSession
}.

Record AuthTokenRotation := mkRotation {
  rotation_token : jsstring;
  rotation_type : jsstring;
  rotation_expires_at : num;
  rotation_session : LoginSession
}.

(** A type guard is the typed view of the value it accepts. *)
Definition isAuthUser (value : jsval) : option AuthUser :=
  if negb (isRecord value) then None
  else
    match prop value (js "id"), prop value (js "username"), prop value (js "role") with
    | VNumber id, VString name, VNumber r =>
        if is_integer id && num_ltb zero id then Some (mkUser id name r value) else None
    | _, _, _ => None
    end.

Definition isLoginSession (value : jsval) : option LoginSession :=
  if negb (isRecord value) then None
  else
    match prop value (js "sid"), prop value (js "current"), prop value (js "login_method"),
          prop value (js "ip"), prop value (js "user_agent"), prop value (js "created_at"),
          prop value (js "last_active_at"), prop value (js "expires_at") with
    | VString s, VBoolean c, VString m, VString i, VString a, VNumber x, VNumber y, VNumber z =>
        if 0 <? length s then Some (mkSession s c m i a x y z) else None
    | _, _, _, _, _, _, _, _ => None
    end.

Definition hasValidTokenFields (value : jsval) : option (jsstring * jsstring * num) :=
  match prop value (js "access_token"), prop value (js "token_type"),
        prop value (js "access_expires_at") with
  | VString token, VString type, VNumber expires =>
      if (0 <? length token) && (0 <? length type) && is_finite expires && num_ltb zero expires
      then Some (token, type, expires) else None
  | _, _, _ => None
  end.

Definition isAuthBundle (value : jsval) : option AuthBundle :=
  if negb (isRecord value) then None
  else
    '(token, type, expires) ← hasValidTokenFields value;
    user ← isAuthUser (prop value (js "user"));
    session ← isLoginSession (prop value (js "session"));
    Some (mkBundle token type expires user session).

Definition isAuthTokenRotation (value : jsval) : option AuthTokenRotation :=
  if negb (isRecord value) then None
  else
    '(token, type, expires) ← hasValidTokenFields value;
    if negb (type =s js "Bearer") then None
    else
      session ← isLoginSession (prop value (js "session"));
      if session_current session then Some (mkRotation token type expires session) else None.

(** ** stores/auth-store.ts *)

Inductive AuthBootstrapState := idle | checking | complete.

Record PendingLoginVerification := mkPending {
  challenge : jsval;
  redirectTo : option jsstring
}.

Record Auth := mkAuth {
  user : option AuthUser;
  accessToken : option jsstring;
  accessExpiresAt : option num;
  session : option LoginSession;
  pendingLoginVerification : option PendingLoginVerification;
  bootstrapState : AuthBootstrapState
}.

Definition initial_auth : Auth := mkAuth None None None None None idle.

Definition setBundle (bundle : AuthBundle) (auth : Auth) : Auth :=
  mkAuth (Some (bundle_user bundle)) (Some (access_token bundle)) (Some (access_expires_at bundle))
    (Some (bundle_session bundle)) None complete.

(** [a?.id === b?.id]. *)
Definition same_id (a b : option AuthUser) : bool :=
  match a, b with
  | Some a, Some b => num_eqb (user_id a) (user_id b)
  | None, None => true
  | _, _ => false
  end.

Definition setUser (u : option AuthUser) (auth : Auth) : Auth :=
  mkAuth u (accessToken auth) (accessExpiresAt auth) (session auth)
    (if same_id (user auth) u then pendingLoginVerification auth else None) (bootstrapState auth).

Definition setPendingLoginVerification (p : option PendingLoginVerification) (auth : Auth) : Auth :=
  mkAuth (user auth) (accessToken auth) (accessExpiresAt auth) (session auth) p (bootstrapState auth).

Definition setBootstrapState (b : AuthBootstrapState) (auth : Auth) : Auth :=
  mkAuth (user auth) (accessToken auth) (accessExpiresAt auth) (session auth)
    (pendingLoginVerification auth) b.

Definition reset (b : AuthBootstrapState) (auth : Auth) : Auth :=
  mkAuth None None None None None b.

(** ** The refresh, suspended at each [await] *)

Record AuthRefreshHTTPResponse := mkResponse {
  status : Z;
  data : jsval;
  response_error : jsval
}.

Inductive RefreshError :=
  | RefreshSuperseded
  | ErrorValue (v : jsval).

Inductive RefreshOutcome :=
  | Authenticated (bundle : AuthBundle)
  | Anonymous
  | TransientError (error : RefreshError)
  | OutOfSync (code : jsstring).

(** Where a run is suspended: on the response to its request, or on the timer
    after which it runs again with the given arguments. *)
Inductive Suspension :=
  | AwaitResponse (raceAttempt : nat) (allowMismatchRetry : bool)
  | AwaitTimer (delay : Z) (raceAttempt : nat) (allowMismatchRetry : bool).

Inductive Progress :=
  | Finished (outcome : RefreshOutcome)
  | Suspended (at_ : Suspension).

(** The operations a runner is created with, over the state they act on. *)
Record AuthRefreshRuntime (S : Type) := mkRuntime {
  request : option jsstring → S → S;
  getExpectedSID : S → option jsstring;
  parseBundle : jsval → option AuthBundle;
  acceptBundle : AuthBundle → S → S;
  clear : bool → option AuthBootstrapState → S → S;
  markTransient : S → S;
  isCurrent : option (S → bool)
}.
Arguments mkRuntime {S}.
Arguments request {S}.
Arguments getExpectedSID {S}.
Arguments parseBundle {S}.
Arguments acceptBundle {S}.
Arguments clear {S}.
Arguments markTransient {S}.
Arguments isCurrent {S}.

Definition refreshRaceDelays : list Z := [80; 200; 500]%Z.
Definition code_race : jsstring := js "AUTH_REFRESH_RACE".
Definition code_mismatch : jsstring := js "AUTH_SESSION_MISMATCH".
Definition code_invalid : jsstring := js "AUTH_INVALID_REFRESH_RESPONSE".

Section Runner.
Context {S : Type} (runtime : AuthRefreshRuntime S).

Definition superseded_now (s : S) : bool :=
  match isCurrent runtime with Some current => negb (current s) | None => false end.
Definition superseded : RefreshOutcome := TransientError RefreshSuperseded.

(** [run] up to its [await] of the response. *)
Definition run (raceAttempt : nat) (allowMismatchRetry : bool) (s : S) : Progress * S :=
  if superseded_now s then (Finished superseded, s)
  else
    (Suspended (AwaitResponse raceAttempt allowMismatchRetry),
     request runtime (getExpectedSID runtime s) s).

(** [responseData?.code] when it is a string. *)
Definition response_code (response : AuthRefreshHTTPResponse) : option jsstring :=
  match prop (data response) (js "code") with VString code => Some code | _ => None end.

(** The bundle of a successful response. *)
Definition accepted_bundle (response : AuthRefreshHTTPResponse) : option AuthBundle :=
  match prop (data response) (js "success") with
  | VBoolean true => parseBundle runtime (prop (data response) (js "data"))
  | _ => None
  end.

Definition is_conflict (response : AuthRefreshHTTPResponse) (code : jsstring) : bool :=
  (status response =? 409)%Z && bool_decide (response_code response = Some code).

Definition is_transient (response : AuthRefreshHTTPResponse) : bool :=
  ((status response =? 0) || (500 <=? status response) || (status response =? 429))%Z.

(** The rest of [run] once the response is there. *)
Definition on_response (raceAttempt : nat) (allowMismatchRetry : bool)
    (response : AuthRefreshHTTPResponse) (s : S) : Progress * S :=
  if superseded_now s then (Finished superseded, s)
  else
    match accepted_bundle response with
    | Some bundle => (Finished (Authenticated bundle), acceptBundle runtime bundle s)
    | None =>
        if is_conflict response code_race then
          match refreshRaceDelays !! raceAttempt with
          | Some delay => (Suspended (AwaitTimer delay (raceAttempt + 1) allowMismatchRetry), s)
          | None => (Finished (OutOfSync code_race), clear runtime false None s)
          end
        else if is_conflict response code_mismatch then
          if allowMismatchRetry then run 0 false (clear runtime false (Some idle) s)
          else (Finished (OutOfSync code_mismatch), clear runtime false None s)
        else if (status response =? 401)%Z then (Finished Anonymous, clear runtime true None s)
        else if is_transient response then
          (Finished (TransientError (ErrorValue
             (if is_nullish (response_error response) then data response
              else response_error response))), markTransient runtime s)
        else
          (Finished (OutOfSync (default code_invalid (response_code response))),
           clear runtime false None s)
    end.
End Runner.

(** [createRefreshRunner(runtime)()]. *)
Definition createRefreshRunner {S} (runtime : AuthRefreshRuntime S) : S → Progress * S :=
  run runtime 0 true.

(** What the axios call of [requestRefresh] may come to: a response, an axios
    error with or without one, or another error. *)
Inductive PostResult :=
  | Posted (code : Z) (body : jsval)
  | AxiosError (response : option (Z * jsval)) (error : jsval)
  | OtherError (error : jsval).

Definition refresh_response (r : PostResult) : AuthRefreshHTTPResponse :=
  match r with
  | Posted code body => mkResponse code body VUndefined
  | AxiosError response error =>
      mkResponse (from_option fst 0%Z response) (from_option snd VUndefined response) error
  | OtherError error => mkResponse 0 VUndefined error
  end.

(** ** The state of a tab *)

Inductive AuthSessionEventKind := authenticated | signed_out.
#[export] Instance AuthSessionEventKind_eq_dec : EqDecision AuthSessionEventKind.
Proof. solve_decision. Defined.

(** How the promise of a refresh settles: with an outcome, or rejected. *)
Inductive Settlement :=
  | Resolved (outcome : RefreshOutcome)
  | Rejected (error : jsval).

(** The pending [await] of a refresh: the browser lock, one of the runner's, or
    the reactions that end with [refreshPromise = null]. *)
Inductive RefreshPhase :=
  | AwaitLock
  | Running (at_ : Suspension)
  | Settling (settlement : Settlement).

Record Refresh := mkRefresh {
  refreshEpoch : nat;
  phase : RefreshPhase
}.

Record Tab := mkTab {
  auth : Auth;
  authEpoch : nat;
  refreshPromise : option Refresh;
  published : list (AuthSessionEventKind * jsstring);   (* events sent to other tabs, oldest first *)
  requested : list (option jsstring)                    (* X-Auth-Session of the requests, oldest first *)
}.

Definition initial_tab : Tab := mkTab initial_auth 0 None [] [].

Definition with_auth (f : Auth → Auth) (t : Tab) : Tab :=
  mkTab (f (auth t)) (authEpoch t) (refreshPromise t) (published t) (requested t).
Definition with_refresh (r : option Refresh) (t : Tab) : Tab :=
  mkTab (auth t) (authEpoch t) r (published t) (requested t).
Definition next_epoch (t : Tab) : Tab :=
  mkTab (auth t) (authEpoch t + 1) (refreshPromise t) (published t) (requested t).

(** [publishAuthSessionEvent]: an empty [sid] is not published. *)
Definition publishAuthSessionEvent (kind : AuthSessionEventKind) (s : jsstring) (t : Tab) : Tab :=
  if s =s [] then t
  else mkTab (auth t) (authEpoch t) (refreshPromise t) (published t ++ [(kind, s)]) (requested t).

Definition current_sid (t : Tab) : option jsstring := sid <$> session (auth t).

(** [requestRefresh]: the header is left out when there is no session. *)
Definition requestRefresh (expectedSID : option jsstring) (t : Tab) : Tab :=
  let header := match expectedSID with Some [] | None => None | Some s => Some s end in
  mkTab (auth t) (authEpoch t) (refreshPromise t) (published t) (requested t ++ [header]).

Definition applyAuthBundle (bundle : AuthBundle) (synchronizeTabs : bool) (t : Tab) : Tab :=
  let previousSID := current_sid t in
  let t' := with_auth (setBundle bundle) (next_epoch t) in
  if synchronizeTabs && negb (bool_decide (previousSID = Some (sid (bundle_session bundle))))
  then publishAuthSessionEvent authenticated (sid (bundle_session bundle)) t'
  else t'.

Inductive AuthRotationError := InvalidRotation | NoActiveSession | SessionMismatch.

(** Returns the error thrown, or the tab. *)
Definition applyAuthRotation (value : jsval) (t : Tab) : AuthRotationError + Tab :=
  match isAuthTokenRotation value with
  | None => inl InvalidRotation
  | Some rotation =>
      match user (auth t), session (auth t) with
      | Some u, Some s =>
          if negb (sid (rotation_session rotation) =s sid s) then inl SessionMismatch
          else
            inr (applyAuthBundle
                   (mkBundle (rotation_token rotation) (rotation_type rotation)
                      (rotation_expires_at rotation) u (rotation_session rotation)) false t)
      | _, _ => inl NoActiveSession
      end
  end.

Definition clearAuthentication (synchronizeTabs : bool) (b : AuthBootstrapState) (t : Tab) : Tab :=
  let s := current_sid t in
  let t' := with_auth (reset b) (next_epoch t) in
  match s with
  | Some s => if synchronizeTabs then publishAuthSessionEvent signed_out s t' else t'
  | None => t'
  end.

(** The runtime that [runRefresh] builds for the epoch of its refresh. *)
Definition runtime_clear (synchronizeTabs : bool) (b : option AuthBootstrapState) (t : Tab) : Tab :=
  match synchronizeTabs, b with
  | false, Some idle => with_auth (reset idle) t
  | _, _ => clearAuthentication synchronizeTabs (default complete b) t
  end.

Definition refresh_runtime (epoch : nat) : AuthRefreshRuntime Tab :=
  mkRuntime requestRefresh current_sid isAuthBundle
    (λ bundle, applyAuthBundle bundle false)
    runtime_clear
    (with_auth (setBootstrapState idle))
    (Some (λ t, authEpoch t =? epoch)).

(** The progress of a run, recorded in [refreshPromise]. *)
Definition settle_or_wait (epoch : nat) (progress : Progress * Tab) : Tab :=
  let phase :=
    match progress.1 with
    | Suspended at_ => Running at_
    | Finished outcome => Settling (Resolved outcome)
    end in
  with_refresh (Some (mkRefresh epoch phase)) progress.2.

Definition runRefresh (epoch : nat) (t : Tab) : Tab :=
  settle_or_wait epoch (createRefreshRunner (refresh_runtime epoch) t).

(** Is [navigator.locks] there? *)
Class Browser := browser_locks : bool.

Section Tab.
Context `{Browser}.

Definition performRefreshWithBrowserLock (epoch : nat) (t : Tab) : Tab :=
  if browser_locks then with_refresh (Some (mkRefresh epoch AwaitLock)) t
  else runRefresh epoch t.

Definition refreshAuthentication (t : Tab) : Tab :=
  match refreshPromise t with
  | Some _ => t
  | None => performRefreshWithBrowserLock (authEpoch t) t
  end.
End Tab.

(** What resumes a refresh. *)
Inductive Signal :=
  | LockGranted
  | LockRejected (error : jsval)
  | ResponseArrived (response : AuthRefreshHTTPResponse)
  | TimerFired
  | ReactionsRan.

(** The tab after a signal and, when the promise settles, how. [None]: the
    refresh does not wait for this signal. A rejected lock request rejects the
    promise that [performRefreshWithBrowserLock] returns without awaiting it,
    so its [catch] does not run. *)
Definition advance (signal : Signal) (t : Tab) : option (Tab * option Settlement) :=
  refresh ← refreshPromise t;
  let epoch := refreshEpoch refresh in
  match phase refresh, signal with
  | AwaitLock, LockGranted => Some (runRefresh epoch t, None)
  | AwaitLock, LockRejected error =>
      Some (with_refresh (Some (mkRefresh epoch (Settling (Rejected error)))) t, None)
  | Running (AwaitResponse race retry), ResponseArrived response =>
      Some (settle_or_wait epoch (on_response (refresh_runtime epoch) race retry response t), None)
  | Running (AwaitTimer _ race retry), TimerFired =>
      Some (settle_or_wait epoch (run (refresh_runtime epoch) race retry t), None)
  | Settling settlement, ReactionsRan => Some (with_refresh None t, Some settlement)
  | _, _ => None
  end.

(** ** Entry points *)

Definition truthy_text (s : option jsstring) : bool :=
  match s with Some (_ :: _) => true | _ => false end.

(** [Math.floor(Date.now() / 1000)]. *)
Definition seconds (now : num) : num := num_floor (num_div now (num_of_Z 1000)).

(** [auth.accessExpiresAt && auth.accessExpiresAt > limit], the first being
    falsy also when it is zero or NaN. *)
Definition expires_after (auth : Auth) (limit : num) : bool :=
  match accessExpiresAt auth with
  | Some e => negb (is_nan e || num_eqb e zero) && num_ltb limit e
  | None => false
  end.

Definition currentValidAuthBundle (now : num) (t : Tab) : option AuthBundle :=
  match user (auth t), accessToken (auth t), accessExpiresAt (auth t), session (auth t) with
  | Some u, Some (c :: token), Some e, Some s =>
      if is_nan e || num_eqb e zero || num_leb e (seconds now) then None
      else Some (mkBundle (c :: token) (js "Bearer") e u s)
  | _, _, _, _ => None
  end.

(** An [async] entry point either returns at once or joins the refresh in
    flight, whose settlement is its own. *)
Inductive Answer :=
  | Immediate (outcome : RefreshOutcome)
  | JoinRefresh.

Definition has_stale_session (t : Tab) : bool :=
  match user (auth t), session (auth t) with Some _, Some _ => true | _, _ => false end.

Definition is_complete (b : AuthBootstrapState) : bool :=
  match b with complete => true | _ => false end.

Section Entry.
Context `{Browser}.

Definition resolveAuthentication (now : num) (t : Tab) : Answer * Tab :=
  match currentValidAuthBundle now t with
  | Some bundle =>
      (Immediate (Authenticated bundle), with_auth (setBootstrapState complete) t)
  | None =>
      if is_complete (bootstrapState (auth t)) && negb (has_stale_session t)
      then (Immediate Anonymous, t)
      else (JoinRefresh, refreshAuthentication (with_auth (setBootstrapState checking) t))
  end.

Definition no_identity (t : Tab) : bool :=
  match user (auth t), session (auth t) with None, None => true | _, _ => false end.

(** [hint]: what [hasSessionHint] returns. *)
Definition bootstrapAuthentication (now : num) (hint : bool) (t : Tab) : Answer * Tab :=
  if negb (bool_decide (is_Some (currentValidAuthBundle now t))) && negb hint && no_identity t
  then (Immediate Anonymous, t)
  else resolveAuthentication now t.
End Entry.

Definition getCommonHeaders (t : Tab) : list (jsstring * jsstring) :=
  (js "Content-Type", js "application/json") ::
  match accessToken (auth t) with
  | Some (c :: token) => [(js "Authorization", js "Bearer " ++ c :: token)]
  | _ => []
  end.

Inductive FreshHeadersError :=
  | RequestFailed (cause : RefreshError)
  | SessionExpired.

(** [getFreshAuthHeaders] before its [await]: the headers, or a refresh. *)
Definition fresh_headers_now (now : num) (t : Tab) : option (list (jsstring * jsstring)) :=
  if truthy_text (accessToken (auth t))
     && expires_after (auth t) (num_add (seconds now) (num_of_Z 60))
  then Some (getCommonHeaders t) else None.

(** And after it: the headers, or the error thrown. *)
Definition fresh_headers_after (now : num) (outcome : RefreshOutcome) (t : Tab)
    : FreshHeadersError + list (jsstring * jsstring) :=
  match outcome with
  | Authenticated _ => inr (getCommonHeaders t)
  | _ =>
      if truthy_text (accessToken (auth t)) && expires_after (auth t) (seconds now)
      then inr (getCommonHeaders t)
      else
        match outcome with
        | TransientError error => inl (RequestFailed error)
        | _ => inl SessionExpired
        end
  end.

(** ** lib/session-hint.ts *)

Definition SESSION_HINT_COOKIE_NAME : jsstring := js "new_api_has_session".

(** The text before and after the first [=]. *)
Fixpoint cut_at (c : code_unit) (s : jsstring) : option (jsstring * jsstring) :=
  match s with
  | [] => None
  | u :: s => if (u =? c)%N then Some ([], s) else '(a, b) ← cut_at c s; Some (u :: a, b)
  end.

Fixpoint read_parts (parts : list jsstring) (name : jsstring) : option jsstring :=
  match parts with
  | [] => None
  | part :: parts =>
      match cut_at 61%N part with
      | Some (key, v) => if trim key =s name then Some (trim v) else read_parts parts name
      | None => read_parts parts name
      end
  end.
Definition readCookie (cookieHeader name : jsstring) : option jsstring :=
  read_parts (split_units 59%N cookieHeader) name.

(** [document.cookie], or no document. *)
Definition hasSessionHint (document : option jsstring) : bool :=
  match document with
  | None => true
  | Some cookie => bool_decide (is_Some (readCookie cookie SESSION_HINT_COOKIE_NAME))
  end.
