(* ===== verification/AuthTabs.v ===== *)
(** * lib/auth-session-sync.ts, the listener of routes/__root.tsx

    The events by which the tabs of one browser follow each other's session,
    and the executions of a tab: every entry point, store update and delivered
    event, interleaved with the signals that resume a refresh. *)

From S2P Require Import Prelude JsNumber JsText Types Runtime JsValue AuthSession.

(** ** Events *)

Record AuthSessionSyncEvent := mkEvent {
  event_kind : AuthSessionEventKind;
  event_sid : jsstring;
  event_source : jsstring;
  event_nonce : jsstring;
  event_timestamp : num
}.

Definition kind_text (k : AuthSessionEventKind) : jsstring :=
  match k with authenticated => js "authenticated" | signed_out => js "signed_out" end.

Definition isAuthSessionSyncEvent (value : jsval) : option AuthSessionSyncEvent :=
  match prop value (js "kind"), prop value (js "sid"), prop value (js "source"),
        prop value (js "nonce"), prop value (js "timestamp") with
  | VString k, VString s, VString source, VString nonce, VNumber timestamp =>
      kind ← (if k =s js "authenticated" then Some authenticated
              else if k =s js "signed_out" then Some signed_out else None);
      if 0 <? length s then Some (mkEvent kind s source nonce timestamp) else None
  | _, _, _, _, _ => None
  end.

(** The object that [publishAuthSessionEvent] posts. *)
Definition event_object (e : AuthSessionSyncEvent) : jsval :=
  VObject [(js "kind", VString (kind_text (event_kind e))); (js "sid", VString (event_sid e));
           (js "source", VString (event_source e)); (js "nonce", VString (event_nonce e));
           (js "timestamp", VNumber (event_timestamp e))].

(** [deliver]: the event given to the listener. Events of the tab itself and
    events a minute away from its clock are dropped. *)
Definition deliver (authSyncSource : jsstring) (now : num) (value : jsval) : option AuthSessionSyncEvent :=
  event ← isAuthSessionSyncEvent value;
  if negb (event_source event =s authSyncSource)
     && num_ltb (num_abs (num_sub now (event_timestamp event))) (num_of_Z 60000)
  then Some event else None.

(** What the listener asks of the page: nothing, [window.location.reload()],
    or the cleared query cache and the way to the sign-in page. *)
Inductive PageEffect := NoEffect | ReloadPage | LeaveToSignIn.

Definition on_session_event (event : AuthSessionSyncEvent) (t : Tab) : Tab * PageEffect :=
  let currentSID := current_sid t in
  match event_kind event with
  | authenticated =>
      if bool_decide (currentSID = Some (event_sid event)) then (t, NoEffect)
      else
        (if truthy_text currentSID then clearAuthentication false complete t else t, ReloadPage)
  | signed_out =>
      if truthy_text currentSID && bool_decide (currentSID = Some (event_sid event))
      then (clearAuthentication false complete t, LeaveToSignIn)
      else (t, NoEffect)
  end.

(** ** Executions of a tab *)

Inductive Action :=
  | RefreshCalled                              (* refreshAuthentication, getFreshAuthHeaders *)
  | ResolveCalled (now : num)
  | BootstrapCalled (now : num) (hint : bool)
  | SignIn (value : jsval) (synchronizeTabs : bool)   (* a login response *)
  | Rotate (value : jsval)
  | SignOut (synchronizeTabs : bool) (b : AuthBootstrapState)
  | UserUpdated (u : option AuthUser)
  | PendingUpdated (p : option PendingLoginVerification)
  | EventPosted (now : num) (value : jsval)
  | SignalReceived (signal : Signal).

Definition is_signal (a : Action) : bool :=
  match a with SignalReceived _ => true | _ => false end.

Section Step.
Context `{Browser} (authSyncSource : jsstring).

(** The actions of the tab's own code; a login response that is not a bundle
    and a rotation that throws leave the tab as it is. *)
Definition act (a : Action) (t : Tab) : Tab :=
  match a with
  | RefreshCalled => refreshAuthentication t
  | ResolveCalled now => (resolveAuthentication now t).2
  | BootstrapCalled now hint => (bootstrapAuthentication now hint t).2
  | SignIn value synchronizeTabs =>
      match isAuthBundle value with
      | Some bundle => applyAuthBundle bundle synchronizeTabs t
      | None => t
      end
  | Rotate value => match applyAuthRotation value t with inl _ => t | inr t' => t' end
  | SignOut synchronizeTabs b => clearAuthentication synchronizeTabs b t
  | UserUpdated u => with_auth (setUser u) t
  | PendingUpdated p => with_auth (setPendingLoginVerification p) t
  | EventPosted now value =>
      match deliver authSyncSource now value with
      | Some event => (on_session_event event t).1
      | None => t
      end
  | SignalReceived _ => t
  end.

Definition step (t : Tab) (a : Action) : option (Tab * option Settlement) :=
  match a with
  | SignalReceived signal => advance signal t
  | _ => Some (act a t, None)
  end.

(** A run of the tab, with the settlements of its refreshes in order. *)
Fixpoint exec (t : Tab) (actions : list Action) : option (Tab * list Settlement) :=
  match actions with
  | [] => Some (t, [])
  | a :: actions =>
      '(t1, settled) ← step t a;
      '(t2, log) ← exec t1 actions;
      Some (t2, match settled with Some s => s :: log | None => log end)
  end.

Inductive reachable : Tab → Prop :=
  | reachable_start : reachable initial_tab
  | reachable_step t a t' settled :
      reachable t → step t a = Some (t', settled) → reachable t'.
End Step.
