(* ===== verification/AuthSessionFacts.v ===== *)
(** * Facts about the session of a tab

    The store invariant, the rank that bounds a refresh, and what a superseded
    refresh may do. *)

From S2P Require Import Prelude JsNumber JsText Types Runtime JsValue AuthSession AuthTabs.

(** ** The runner, for any runtime *)

(** The signals still to come before a suspended refresh settles, and the
    requests it may still send: three waits, and one more start after a
    session mismatch. *)
Definition retries_left (allow : bool) : nat := if allow then 1 else 0.
Definition suspension_rank (s : Suspension) : nat :=
  match s with
  | AwaitResponse race allow => 1 + 2 * (3 - race) + 8 * retries_left allow
  | AwaitTimer _ race allow => 2 * (4 - race) + 8 * retries_left allow
  end.
Definition suspension_requests (s : Suspension) : nat :=
  match s with
  | AwaitResponse race allow => (3 - race) + 4 * retries_left allow
  | AwaitTimer _ race allow => (4 - race) + 4 * retries_left allow
  end.

(** A timer is set for a delay of the table only. *)
Definition suspension_ok (s : Suspension) : Prop :=
  match s with
  | AwaitResponse _ _ => True
  | AwaitTimer delay race _ => ∃ i, race = i + 1 ∧ refreshRaceDelays !! i = Some delay
  end.

Lemma delay_index i d : refreshRaceDelays !! i = Some d → i < 3.
Proof. intros H%lookup_lt_Some. done. Qed.

Section Runner.
Context {S : Type} (rt : AuthRefreshRuntime S).

Lemma run_cases race allow s :
  (superseded_now rt s = true ∧ run rt race allow s = (Finished superseded, s)) ∨
  (superseded_now rt s = false ∧
   run rt race allow s = (Suspended (AwaitResponse race allow), request rt (getExpectedSID rt s) s)).
Proof. unfold run. destruct (superseded_now rt s); auto. Qed.

(** A response either ends the run, or sets a timer of the table, or starts
    the run again after a mismatch, for the last time. *)
Lemma on_response_progress race allow response s at_ s' :
  on_response rt race allow response s = (Suspended at_, s') →
  suspension_ok at_ ∧ suspension_rank at_ < suspension_rank (AwaitResponse race allow).
Proof.
  unfold on_response. destruct (superseded_now rt s); [done|].
  destruct (accepted_bundle rt response); [done|].
  destruct (is_conflict response code_race).
  { destruct (refreshRaceDelays !! race) as [d|] eqn:Hd; [|done]. intros [= <- _].
    pose proof (delay_index _ _ Hd). split; [by exists race|]. cbn. lia. }
  destruct (is_conflict response code_mismatch).
  { destruct allow; [|done].
    destruct (run_cases 0 false (clear rt false (Some idle) s)) as [[_ ->]|[_ ->]]; [done|].
    intros [= <- _]. cbn. split; [done|lia]. }
  destruct (status response =? 401)%Z; [done|]. by destruct (is_transient response).
Qed.

Lemma superseded_response race allow response s :
  superseded_now rt s = true → on_response rt race allow response s = (Finished superseded, s).
Proof. intros H. unfold on_response. by rewrite H. Qed.
Lemma superseded_run race allow s :
  superseded_now rt s = true → run rt race allow s = (Finished superseded, s).
Proof. intros H. unfold run. by rewrite H. Qed.
End Runner.

(** ** The store *)

(** Token, expiry and session come and go together, and are what the checks of
    a bundle let through. *)
Definition well_formed (a : Auth) : Prop :=
  match accessToken a, accessExpiresAt a, session a with
  | None, None, None => True
  | Some token, Some e, Some s =>
      token ≠ [] ∧ is_finite e = true ∧ num_ltb zero e = true ∧ sid s ≠ []
  | _, _, _ => False
  end.

Definition bundle_ok (b : AuthBundle) : Prop :=
  access_token b ≠ [] ∧ is_finite (access_expires_at b) = true ∧
  num_ltb zero (access_expires_at b) = true ∧ sid (bundle_session b) ≠ [].

Lemma nonempty_text {A} (l : list A) : (0 <? length l) = true → l ≠ [].
Proof. by destruct l. Qed.

Lemma session_view v s : isLoginSession v = Some s → sid s ≠ [].
Proof.
  unfold isLoginSession. destruct (isRecord v); [|done]. cbn [negb].
  do 8 (case_match; try done).
  destruct (0 <? _) eqn:E; [|done]. intros [= <-]. by apply nonempty_text.
Qed.

Lemma token_fields_view v token type e :
  hasValidTokenFields v = Some (token, type, e) →
  token ≠ [] ∧ is_finite e = true ∧ num_ltb zero e = true.
Proof.
  unfold hasValidTokenFields. do 3 (case_match; try done).
  destruct (_ && _) eqn:E; [|done]. intros [= <- <- <-].
  apply andb_true_iff in E as [[[Ht _]%andb_true_iff Hf]%andb_true_iff Hp].
  split; [by apply nonempty_text|done].
Qed.

Lemma bundle_view v b : isAuthBundle v = Some b → bundle_ok b.
Proof.
  unfold isAuthBundle. destruct (isRecord v); [|done]. cbn [negb].
  destruct (hasValidTokenFields v) as [[[token type] e]|] eqn:Ht; [|done]. cbn.
  destruct (isAuthUser _) as [u|]; [|done]. cbn.
  destruct (isLoginSession _) as [s|] eqn:Hs; [|done]. intros [= <-].
  apply token_fields_view in Ht as (?&?&?). apply session_view in Hs. done.
Qed.

Lemma rotation_view v r :
  isAuthTokenRotation v = Some r →
  rotation_token r ≠ [] ∧ is_finite (rotation_expires_at r) = true ∧
  num_ltb zero (rotation_expires_at r) = true ∧ sid (rotation_session r) ≠ [].
Proof.
  unfold isAuthTokenRotation. destruct (isRecord v); [|done]. cbn [negb].
  destruct (hasValidTokenFields v) as [[[token type] e]|] eqn:Ht; [|done]. cbn.
  destruct (type =s js "Bearer"); [|done]. cbn [negb].
  destruct (isLoginSession _) as [s|] eqn:Hs; [|done]. cbn.
  destruct (session_current s); [|done]. intros [= <-].
  apply token_fields_view in Ht as (?&?&?). apply session_view in Hs. done.
Qed.

Lemma well_formed_bundle b a : bundle_ok b → well_formed (setBundle b a).
Proof. done. Qed.
Lemma well_formed_reset b a : well_formed (reset b a).
Proof. done. Qed.
Create HintDb session discriminated.
#[export] Hint Resolve well_formed_bundle well_formed_reset bundle_view : session.

(** ** What the updates of a tab leave alone *)

Definition events_ok (t : Tab) : Prop := Forall (λ e, e.2 ≠ []) (published t).

(** Everything but the refresh in flight. *)
Definition tab_ok (t : Tab) : Prop := well_formed (auth t) ∧ events_ok t.

Lemma publish_ok kind s t : tab_ok t → tab_ok (publishAuthSessionEvent kind s t).
Proof.
  intros [Ha He]. unfold publishAuthSessionEvent. destruct (s =s []) eqn:E; [done|].
  split; [done|]. apply Forall_app; split; [done|]. apply Forall_singleton. by apply str_eqb_neq in E.
Qed.

Lemma applyAuthBundle_ok b sync t : bundle_ok b → tab_ok t → tab_ok (applyAuthBundle b sync t).
Proof.
  intros Hb [_ He]. unfold applyAuthBundle.
  destruct (_ && _); [apply publish_ok|]; split; auto with session.
Qed.

Lemma clearAuthentication_ok sync b t : tab_ok t → tab_ok (clearAuthentication sync b t).
Proof.
  intros [_ He]. unfold clearAuthentication. destruct (current_sid t); [|by split].
  destruct sync; [apply publish_ok|]; by split.
Qed.

Lemma runtime_clear_ok sync b t : tab_ok t → tab_ok (runtime_clear sync b t).
Proof.
  intros Ht. unfold runtime_clear.
  destruct sync, b as [[]|]; try by apply clearAuthentication_ok. by destruct Ht.
Qed.

Lemma applyAuthRotation_ok v t t' : applyAuthRotation v t = inr t' → tab_ok t → tab_ok t'.
Proof.
  unfold applyAuthRotation. destruct (isAuthTokenRotation v) as [r|] eqn:Hr; [|done].
  destruct (user (auth t)), (session (auth t)); try done. destruct (negb _); [done|].
  intros [= <-]. apply applyAuthBundle_ok. exact (rotation_view v r Hr).
Qed.

Lemma requestRefresh_ok s t : tab_ok t → tab_ok (requestRefresh s t).
Proof. done. Qed.

Lemma with_auth_ok f t : (well_formed (auth t) → well_formed (f (auth t))) → tab_ok t → tab_ok (with_auth f t).
Proof. intros Hf [Ha He]. split; [by apply Hf|done]. Qed.

Lemma with_refresh_ok r t : tab_ok t → tab_ok (with_refresh r t).
Proof. done. Qed.
#[export] Hint Resolve publish_ok applyAuthBundle_ok clearAuthentication_ok runtime_clear_ok
  requestRefresh_ok with_refresh_ok with_auth_ok : session.

(** ** The refresh in flight *)

Definition phase_rank (p : RefreshPhase) : nat :=
  match p with AwaitLock => 17 | Running s => 1 + suspension_rank s | Settling _ => 1 end.
Definition phase_requests (p : RefreshPhase) : nat :=
  match p with AwaitLock => 8 | Running s => suspension_requests s | Settling _ => 0 end.
Definition phase_ok (p : RefreshPhase) : Prop :=
  match p with Running s => suspension_ok s | _ => True end.

Lemma phase_bounds p : phase_ok p → phase_rank p ≤ 17 ∧ phase_requests p ≤ 8.
Proof.
  destruct p as [|[race allow|d race allow]|s]; [cbn; lia| | |cbn; lia].
  - intros _. cbn [phase_rank phase_requests suspension_rank suspension_requests].
    destruct allow; cbn [retries_left]; lia.
  - intros (i & -> & Hd). cbn [phase_rank phase_requests suspension_rank suspension_requests].
    destruct allow; cbn [retries_left]; lia.
Qed.

Definition refresh_ok (t : Tab) : Prop :=
  match refreshPromise t with
  | Some r => refreshEpoch r ≤ authEpoch t ∧ phase_ok (phase r)
  | None => True
  end.

(** An update of the tab's own code: the epoch does not decrease and a refresh
    in flight stays as it is, with the requests it sent. *)
Definition keeps_refresh (t t' : Tab) : Prop :=
  authEpoch t ≤ authEpoch t' ∧ refreshPromise t' = refreshPromise t ∧ requested t' = requested t.

Lemma publish_keeps kind s t : keeps_refresh t (publishAuthSessionEvent kind s t).
Proof. unfold publishAuthSessionEvent. by destruct (s =s []). Qed.

Lemma keeps_refl t : keeps_refresh t t.
Proof. done. Qed.
Lemma keeps_trans t1 t2 t3 : keeps_refresh t1 t2 → keeps_refresh t2 t3 → keeps_refresh t1 t3.
Proof. intros (?&?&?) (?&?&?). split_and!; [lia|congruence..]. Qed.

Lemma bundle_epoch b sync t : authEpoch (applyAuthBundle b sync t) = S (authEpoch t).
Proof.
  unfold applyAuthBundle, publishAuthSessionEvent.
  destruct (_ && _); [destruct (_ =s [])|]; cbn; lia.
Qed.
Lemma clear_epoch sync b t : authEpoch (clearAuthentication sync b t) = S (authEpoch t).
Proof.
  unfold clearAuthentication, publishAuthSessionEvent.
  destruct (current_sid t); [destruct sync; [destruct (_ =s [])|]|]; cbn; lia.
Qed.

Lemma bundle_keeps b sync t : keeps_refresh t (applyAuthBundle b sync t).
Proof.
  split; [rewrite bundle_epoch; lia|]. unfold applyAuthBundle, publishAuthSessionEvent.
  destruct (_ && _); [destruct (_ =s [])|]; done.
Qed.
Lemma clear_keeps sync b t : keeps_refresh t (clearAuthentication sync b t).
Proof.
  split; [rewrite clear_epoch; lia|]. unfold clearAuthentication, publishAuthSessionEvent.
  destruct (current_sid t); [destruct sync; [destruct (_ =s [])|]|]; done.
Qed.
Lemma runtime_clear_keeps sync b t : keeps_refresh t (runtime_clear sync b t).
Proof. unfold runtime_clear. destruct sync, b as [[]|]; try apply clear_keeps; done. Qed.

Lemma rotation_keeps v t t' : applyAuthRotation v t = inr t' → keeps_refresh t t'.
Proof.
  unfold applyAuthRotation. destruct (isAuthTokenRotation v); [|done].
  destruct (user (auth t)), (session (auth t)); try done. destruct (negb _); [done|].
  intros [= <-]. apply bundle_keeps.
Qed.
#[export] Hint Resolve keeps_refl bundle_keeps clear_keeps runtime_clear_keeps : session.

(** ** Runs *)

Section Runs.
Context `{Browser} (own_source : jsstring).
Abbreviation act := (act own_source).
Abbreviation step := (step own_source).
Abbreviation exec := (exec own_source).

Lemma run_current e race allow t :
  run (refresh_runtime e) race allow t =
  if authEpoch t =? e
  then (Suspended (AwaitResponse race allow), requestRefresh (current_sid t) t)
  else (Finished superseded, t).
Proof. unfold run, superseded_now. cbn. by destruct (authEpoch t =? e). Qed.

(** The first request is sent at once where there is no lock to wait for. *)
Lemma refresh_starts t :
  refreshPromise t = None →
  ∃ r, refreshPromise (refreshAuthentication t) = Some r ∧ refreshEpoch r = authEpoch t ∧
    phase_ok (phase r) ∧ auth (refreshAuthentication t) = auth t ∧
    authEpoch (refreshAuthentication t) = authEpoch t ∧
    published (refreshAuthentication t) = published t ∧
    length (requested (refreshAuthentication t)) + phase_requests (phase r) = length (requested t) + 8.
Proof.
  intros Hn. unfold refreshAuthentication. rewrite Hn. unfold performRefreshWithBrowserLock.
  destruct browser_locks.
  - eexists. by split_and!.
  - unfold runRefresh, createRefreshRunner. rewrite run_current, Nat.eqb_refl.
    eexists. split_and!; try done. cbn. rewrite length_app. cbn. lia.
Qed.

Lemma refresh_joins t r : refreshPromise t = Some r → refreshAuthentication t = t.
Proof. intros H'. unfold refreshAuthentication. by rewrite H'. Qed.

Lemma refresh_call_ok t : tab_ok t → tab_ok (refreshAuthentication t).
Proof.
  intros Ht. destruct (refreshPromise t) as [r|] eqn:Hr; [by erewrite refresh_joins|].
  destruct (refresh_starts t Hr) as (r & _ & _ & _ & Ha & _ & Hp & _).
  destruct Ht. split; [by rewrite Ha|]. unfold events_ok. by rewrite Hp.
Qed.

Lemma refresh_call_refresh_ok t : refresh_ok t → refresh_ok (refreshAuthentication t).
Proof.
  intros Ht. destruct (refreshPromise t) as [r|] eqn:Hr; [by erewrite refresh_joins|].
  destruct (refresh_starts t Hr) as (r & Hr' & He & Hp & _ & Hepoch & _).
  unfold refresh_ok. rewrite Hr', Hepoch. split; [lia|done].
Qed.

Lemma keeps_refresh_ok t t' : keeps_refresh t t' → refresh_ok t → refresh_ok t'.
Proof.
  intros (He & Hr & _). unfold refresh_ok. rewrite Hr. destruct (refreshPromise t); [|done].
  intros [? ?]. split; [lia|done].
Qed.

(** Every action is a keeping update, or one followed by a call of
    [refreshAuthentication]. *)
Lemma act_cases a t :
  ∃ t1, keeps_refresh t t1 ∧ (tab_ok t → tab_ok t1) ∧ (act a t = t1 ∨ act a t = refreshAuthentication t1).
Proof.
  assert (∀ now t, ∃ t1, keeps_refresh t t1 ∧ (tab_ok t → tab_ok t1) ∧
            ((resolveAuthentication now t).2 = t1 ∨ (resolveAuthentication now t).2 = refreshAuthentication t1))
    as Hresolve.
  { intros now t0. unfold resolveAuthentication. destruct (currentValidAuthBundle now t0).
    { exists (with_auth (setBootstrapState complete) t0). split_and!; [done|by apply with_auth_ok|by left]. }
    destruct (_ && _); [by exists t0; auto with session|].
    exists (with_auth (setBootstrapState checking) t0). split_and!; [done|by apply with_auth_ok|by right]. }
  destruct a; cbn [AuthTabs.act].
  - exists t; auto with session.
  - apply Hresolve.
  - unfold bootstrapAuthentication. destruct (_ && _); [by exists t; auto with session|apply Hresolve].
  - destruct (isAuthBundle value) eqn:Hb; [|by exists t; auto with session].
    eexists; split_and!; [| |by left]; eauto with session.
  - destruct (applyAuthRotation value t) as [|t'] eqn:Hr; [by exists t; auto with session|].
    exists t'. split_and!; [by eapply rotation_keeps|by eapply applyAuthRotation_ok|by left].
  - eexists; split_and!; [| |by left]; auto with session.
  - exists (with_auth (setUser u) t). split_and!; [done|by apply with_auth_ok|by left].
  - exists (with_auth (setPendingLoginVerification p) t). split_and!; [done|by apply with_auth_ok|by left].
  - destruct (deliver _ _ _) as [e|]; [|by exists t; auto with session]. unfold on_session_event.
    destruct (event_kind e).
    + destruct (bool_decide _); [by exists t; auto with session|]. destruct (truthy_text _); [|by exists t; auto with session].
      eexists; split_and!; [| |by left]; cbn [fst]; auto with session.
    + destruct (_ && _); [|by exists t; auto with session]. eexists; split_and!; [| |by left]; cbn [fst]; auto with session.
  - exists t; auto with session.
Qed.

(** ** Signals *)

Lemma run_settles e race allow t :
  let t' := settle_or_wait e (run (refresh_runtime e) race allow t) in
  ∃ p, refreshPromise t' = Some (mkRefresh e p) ∧ phase_ok p ∧
    phase_rank p ≤ 1 + suspension_rank (AwaitResponse race allow) ∧
    length (requested t') + phase_requests p
      ≤ length (requested t) + 1 + suspension_requests (AwaitResponse race allow) ∧
    authEpoch t' = authEpoch t ∧ auth t' = auth t ∧ published t' = published t.
Proof.
  rewrite run_current. destruct (authEpoch t =? e); eexists; split_and!; try done; cbn; try lia.
  rewrite length_app. cbn. lia.
Qed.

Definition progress_requests (progress : Progress) : nat :=
  match progress with Suspended a => suspension_requests a | Finished _ => 0 end.

(** An update by the runner: within the requests left, keeping the invariant. *)
Definition runner_update (n : nat) (t : Tab) (progress : Progress) (t' : Tab) : Prop :=
  length (requested t') + progress_requests progress ≤ length (requested t) + n ∧
  authEpoch t ≤ authEpoch t' ∧ (tab_ok t → tab_ok t').

Lemma finished_update n t o t' :
  keeps_refresh t t' → (tab_ok t → tab_ok t') → runner_update n t (Finished o) t'.
Proof. intros (He & _ & Hq) Ht. split_and!; [rewrite Hq; cbn; lia|done|done]. Qed.

Lemma cleared_update n t o sync b : runner_update n t (Finished o) (runtime_clear sync b t).
Proof. apply finished_update; auto with session. Qed.

Lemma response_effects e race allow response t progress t' :
  on_response (refresh_runtime e) race allow response t = (progress, t') →
  runner_update (suspension_requests (AwaitResponse race allow)) t progress t'.
Proof.
  unfold on_response. destruct (superseded_now _ t).
  { intros [= <- <-]. by apply finished_update; auto with session. }
  destruct (accepted_bundle _ response) as [b|] eqn:Hb.
  { intros [= <- <-]. assert (bundle_ok b) as Hbok.
    { unfold accepted_bundle in Hb. repeat case_match; try done. by eapply bundle_view. }
    apply finished_update; cbn [acceptBundle refresh_runtime]; auto with session. }
  cbn [clear refresh_runtime markTransient]. destruct (is_conflict response code_race).
  { destruct (refreshRaceDelays !! race) as [d|] eqn:Hd; intros [= <- <-].
    - pose proof (delay_index _ _ Hd). split_and!; [cbn; lia|done..].
    - apply (cleared_update _ t _ false None). }
  destruct (is_conflict response code_mismatch).
  { destruct allow; [|by intros [= <- <-]; apply (cleared_update _ t _ false None)].
    rewrite run_current. case_match; intros [= <- <-].
    - split_and!; [|apply (runtime_clear_keeps false (Some idle))|].
      + cbn. rewrite length_app. cbn. lia.
      + intros Ht. apply requestRefresh_ok, (runtime_clear_ok false (Some idle)), Ht.
    - apply (cleared_update _ t _ false (Some idle)). }
  destruct (status response =? 401)%Z.
  { intros [= <- <-]. apply (cleared_update _ t _ true None). }
  destruct (is_transient response); intros [= <- <-].
  - apply finished_update; [done|]. by apply with_auth_ok.
  - apply (cleared_update _ t _ false None).
Qed.

Lemma response_settles e race allow response t :
  let t' := settle_or_wait e (on_response (refresh_runtime e) race allow response t) in
  ∃ p, refreshPromise t' = Some (mkRefresh e p) ∧ phase_ok p ∧
    phase_rank p < 1 + suspension_rank (AwaitResponse race allow) ∧
    length (requested t') + phase_requests p
      ≤ length (requested t) + suspension_requests (AwaitResponse race allow) ∧
    authEpoch t ≤ authEpoch t' ∧ (tab_ok t → tab_ok t').
Proof.
  destruct (on_response (refresh_runtime e) race allow response t) as [progress t1] eqn:Hr.
  unfold settle_or_wait. cbn [fst snd with_refresh refreshPromise requested authEpoch].
  destruct (response_effects _ _ _ _ _ _ _ Hr) as (Hreq & He & Hok).
  destruct progress as [o|a]; cbn [progress_requests] in Hreq.
  - eexists; split_and!; try done; cbn [phase_rank phase_requests]; try lia; cbn; lia.
  - apply on_response_progress in Hr as [Ha Hrank].
    eexists; split_and!; try done; cbn [phase_rank phase_requests]; lia.
Qed.

(** A signal that the refresh waits for brings it nearer to its settlement. *)
Lemma advance_spec t r signal t' settled :
  refreshPromise t = Some r → phase_ok (phase r) → advance signal t = Some (t', settled) →
  authEpoch t ≤ authEpoch t' ∧ (tab_ok t → tab_ok t') ∧
  match settled with
  | Some s => phase r = Settling s ∧ t' = with_refresh None t
  | None => ∃ p, refreshPromise t' = Some (mkRefresh (refreshEpoch r) p) ∧ phase_ok p ∧
      phase_rank p < phase_rank (phase r) ∧
      length (requested t') + phase_requests p ≤ length (requested t) + phase_requests (phase r)
  end.
Proof.
  intros Hr Hok. unfold advance. rewrite Hr. cbn [mbind option_bind].
  destruct r as [e [|s|s]]; cbn [phase refreshEpoch] in *.
  - destruct signal as [|error| | |]; try done; intros [= <- <-].
    + destruct (run_settles e 0 true t) as (p & Hp & Hpok & Hrank & Hq & He & Ha & Hpub).
      change (runRefresh e t) with (settle_or_wait e (run (refresh_runtime e) 0 true t)).
      split_and!; [lia| |].
      * intros [? ?]. split; [by rewrite Ha|]. unfold events_ok. by rewrite Hpub.
      * exists p. cbn in *. split_and!; [done..|lia|lia].
    + split_and!; [done..|]. eexists; split_and!; try done; cbn; lia.
  - destruct s as [race allow|d race allow], signal as [| |response| |]; try done; intros [= <- <-].
    + destruct (response_settles e race allow response t) as (p & Hp & Hpok & Hrank & Hq & He & Ht).
      split_and!; [done..|]. exists p. by split_and!.
    + destruct (run_settles e race allow t) as (p & Hp & Hpok & Hrank & Hq & He & Ha & Hpub).
      destruct Hok as (i & -> & Hd). pose proof (delay_index _ _ Hd).
      split_and!; [lia| |].
      * intros [? ?]. split; [by rewrite Ha|]. unfold events_ok. by rewrite Hpub.
      * exists p. split_and!; [done..| |]; cbn [phase_rank phase_requests suspension_rank suspension_requests] in *; lia.
  - destruct signal; try done. intros [= <- <-]. by split_and!.
Qed.

(** Some signal resumes every refresh in flight. *)
Lemma advance_enabled t r : refreshPromise t = Some r → ∃ signal, is_Some (advance signal t).
Proof.
  intros Hr. unfold advance. rewrite Hr. cbn [mbind option_bind].
  destruct r as [e [|[race allow|d race allow]|s]]; cbn.
  - by exists LockGranted.
  - by exists (ResponseArrived (mkResponse 0 VUndefined VUndefined)).
  - by exists TimerFired.
  - by exists ReactionsRan.
Qed.

Lemma act_keeps_flight a t r :
  refreshPromise t = Some r → keeps_refresh t (act a t).
Proof.
  intros Hr. destruct (act_cases a t) as (t1 & Hk & _ & [->| ->]); [done|].
  erewrite refresh_joins; [done|]. destruct Hk as (_ & -> & _). exact Hr.
Qed.

Lemma step_ok t a t' settled :
  step t a = Some (t', settled) → tab_ok t ∧ refresh_ok t → tab_ok t' ∧ refresh_ok t'.
Proof.
  intros Hs [Ht Hr]. destruct (is_signal a) eqn:Ha.
  - destruct a as [| | | | | | | | |signal]; try done. cbn [AuthTabs.step] in Hs.
    destruct (refreshPromise t) as [r|] eqn:Hp; [|by unfold advance in Hs; rewrite Hp in Hs].
    unfold refresh_ok in Hr. rewrite Hp in Hr. destruct Hr as [He Hok].
    destruct (advance_spec _ _ _ _ _ Hp Hok Hs) as (Hepoch & Htab & Hcase). split; [by apply Htab|].
    unfold refresh_ok. destruct settled as [s|].
    + by destruct Hcase as [_ ->].
    + destruct Hcase as (p & -> & Hpok & _). cbn. split; [lia|done].
  - assert (Some (act a t, @None Settlement) = Some (t', settled)) as [= <- <-] by (by destruct a).
    destruct (act_cases a t) as (t1 & Hk & Hok & [->| ->]).
    + split; [by apply Hok|by eapply keeps_refresh_ok].
    + split; [by apply refresh_call_ok, Hok|by eapply refresh_call_refresh_ok, keeps_refresh_ok].
Qed.

Lemma reachable_ok t : reachable own_source t → tab_ok t ∧ refresh_ok t.
Proof.
  induction 1 as [|t a t' settled _ IH Hs]; [|by eapply step_ok].
  split; [split; [done|constructor]|done].
Qed.
End Runs.
