(* ===== verification/AuthTheorems.v ===== *)
(** * The login session of a tab: its properties *)

From S2P Require Import Prelude JsNumber JsText Types Runtime JsValue AuthSession AuthTabs.
From S2P Require Import AuthSessionFacts.

(** ** A superseded refresh *)

Definition doomed (p : RefreshPhase) : Prop :=
  match p with
  | Settling s => s = Resolved superseded ∨ ∃ e, s = Rejected e
  | _ => True
  end.
Definition not_settling (p : RefreshPhase) : Prop :=
  match p with Settling _ => False | _ => True end.

Lemma settling_doomed p : not_settling p → doomed p.
Proof. by destruct p. Qed.

Lemma superseded_now_true e t : e < authEpoch t → superseded_now (refresh_runtime e) t = true.
Proof. intros He. unfold superseded_now. cbn. apply negb_true_iff, Nat.eqb_neq. lia. Qed.

Lemma superseded_advance t r signal t' settled :
  refreshPromise t = Some r → refreshEpoch r < authEpoch t → doomed (phase r) →
  advance signal t = Some (t', settled) →
  match settled with
  | None => ∃ p, doomed p ∧ t' = with_refresh (Some (mkRefresh (refreshEpoch r) p)) t
  | Some s => (s = Resolved superseded ∨ ∃ e, s = Rejected e) ∧ t' = with_refresh None t
  end.
Proof.
  intros Hr He Hd. unfold advance. rewrite Hr. cbn [mbind option_bind].
  destruct r as [e [|[race allow|d race allow]|s]]; cbn [phase refreshEpoch] in *;
    destruct signal as [|error|response| |]; try done; intros [= <- <-]; [..|by split].
  - exists (Settling (Resolved superseded)). split; [by left|].
    unfold runRefresh, createRefreshRunner. by rewrite superseded_run by by apply superseded_now_true.
  - eexists. split; [|done]. right. by exists error.
  - exists (Settling (Resolved superseded)). split; [by left|].
    by rewrite superseded_response by by apply superseded_now_true.
  - exists (Settling (Resolved superseded)). split; [by left|].
    by rewrite superseded_run by by apply superseded_now_true.
Qed.

Section Properties.
Context `{Browser} (own_source : jsstring).
Abbreviation act := (act own_source).
Abbreviation step := (step own_source).
Abbreviation exec := (exec own_source).
Abbreviation reachable := (reachable own_source).

Lemma publish_with_refresh kind s r t :
  publishAuthSessionEvent kind s (with_refresh r t) = with_refresh r (publishAuthSessionEvent kind s t).
Proof. unfold publishAuthSessionEvent. by destruct (s =s []). Qed.
Lemma bundle_with_refresh b sync r t :
  applyAuthBundle b sync (with_refresh r t) = with_refresh r (applyAuthBundle b sync t).
Proof. unfold applyAuthBundle. change (current_sid (with_refresh r t)) with (current_sid t).
  destruct (_ && _); [|done]. by rewrite <- publish_with_refresh. Qed.
Lemma clear_with_refresh sync b r t :
  clearAuthentication sync b (with_refresh r t) = with_refresh r (clearAuthentication sync b t).
Proof.
  unfold clearAuthentication. change (current_sid (with_refresh r t)) with (current_sid t).
  destruct (current_sid t), sync; try done. by rewrite <- publish_with_refresh.
Qed.
Lemma resolve_with_refresh now r t r0 :
  refreshPromise t = Some r0 →
  (resolveAuthentication now (with_refresh (Some r) t)).2 =
    with_refresh (Some r) (resolveAuthentication now t).2.
Proof.
  intros Hr. unfold resolveAuthentication.
  change (currentValidAuthBundle now (with_refresh (Some r) t)) with (currentValidAuthBundle now t).
  destruct (currentValidAuthBundle now t); [done|].
  change (has_stale_session (with_refresh (Some r) t)) with (has_stale_session t). cbn [auth with_refresh].
  destruct (_ && _); [done|]. cbn [snd]. erewrite !refresh_joins; done.
Qed.

(** The tab's own code does not look at the state of a refresh in flight. *)
Lemma act_with_refresh a t r r0 :
  refreshPromise t = Some r0 → act a (with_refresh (Some r) t) = with_refresh (Some r) (act a t).
Proof.
  intros Hr. destruct a; cbn [AuthTabs.act]; try done.
  - erewrite !refresh_joins; done.
  - by eapply resolve_with_refresh.
  - unfold bootstrapAuthentication.
    change (currentValidAuthBundle now (with_refresh (Some r) t)) with (currentValidAuthBundle now t).
    change (no_identity (with_refresh (Some r) t)) with (no_identity t).
    destruct (_ && _); [done|]. by eapply resolve_with_refresh.
  - destruct (isAuthBundle value); [apply bundle_with_refresh|done].
  - unfold applyAuthRotation. cbn [auth with_refresh].
    destruct (isAuthTokenRotation value), (user (auth t)), (session (auth t)); try done.
    destruct (negb _); [done|]. apply bundle_with_refresh.
  - apply clear_with_refresh.
  - destruct (deliver _ _ _) as [e|]; [|done]. unfold on_session_event.
    change (current_sid (with_refresh (Some r) t)) with (current_sid t).
    destruct (event_kind e), (truthy_text _), (bool_decide _); try done; apply clear_with_refresh.
Qed.

Definition own_actions (actions : list Action) : list Action :=
  List.filter (λ a, negb (is_signal a)) actions.

Lemma step_own a t : is_signal a = false → step t a = Some (act a t, None).
Proof. by destruct a. Qed.

(** The same run without the signals of the superseded refresh ends in the
    same tab, its refresh apart. *)
Lemma superseded_exec actions : ∀ t r t2 r2 t',
  refreshPromise t = Some r → refreshEpoch r < authEpoch t → doomed (phase r) →
  t2 = with_refresh (Some r2) t →
  exec t actions = Some (t', []) →
  ∃ r', refreshPromise t' = Some r' ∧ refreshEpoch r' < authEpoch t' ∧ doomed (phase r') ∧
    exec t2 (own_actions actions) = Some (with_refresh (Some r2) t', []).
Proof.
  induction actions as [|a actions IH]; intros t r t2 r2 t' Hr He Hd -> Hx.
  { injection Hx as <-. by exists r. }
  cbn [AuthTabs.exec] in Hx. apply bind_Some in Hx as ([t1 settled] & Hs & Hx).
  apply bind_Some in Hx as ([t3 log] & Hx & [= <- Hlog]).
  destruct settled; [done|]. subst log. destruct (is_signal a) eqn:Ha.
  - destruct a as [| | | | | | | | |signal]; try done. cbn [AuthTabs.step] in Hs.
    destruct (superseded_advance _ _ _ _ _ Hr He Hd Hs) as (p & Hp & ->).
    eapply IH; [..|exact Hx]; done.
  - rewrite step_own in Hs by done. injection Hs as <-.
    destruct (act_keeps_flight own_source a t r Hr) as (Hepoch & Hkeep & _).
    edestruct (IH (act a t) r) as (r' & ? & ? & ? & Hexec); [congruence|lia|done|done|exact Hx|].
    exists r'. split_and!; [done..|]. unfold own_actions. cbn [List.filter]. rewrite Ha. cbn [negb AuthTabs.exec].
    rewrite step_own by done. cbn [mbind option_bind]. rewrite (act_with_refresh a t r2 r Hr).
    fold (own_actions actions). by rewrite Hexec.
Qed.

(** ** Properties *)

(** C8. A superseded refresh does nothing any more: once a sign-in, a sign-out
    or a token rotation has moved the epoch of a tab with a refresh in flight,
    the signals of that refresh, interleaved with any other actions, change
    neither the store nor the epoch, publish no event and send no request; and
    the refresh settles as superseded, unless it had already ended or the lock
    is refused. *)
Theorem superseded_refresh_inert t r a actions t' :
  reachable t → refreshPromise t = Some r → not_settling (phase r) →
  authEpoch t < authEpoch (act a t) →
  exec (act a t) actions = Some (t', []) →
  (∃ t2, exec (act a t) (own_actions actions) = Some (t2, []) ∧
    auth t' = auth t2 ∧ authEpoch t' = authEpoch t2 ∧
    published t' = published t2 ∧ requested t' = requested t2) ∧
  ∀ signal t'' s, advance signal t' = Some (t'', Some s) →
    s = Resolved (TransientError RefreshSuperseded) ∨ ∃ e, s = Rejected e.
Proof.
  intros Hreach Hr Hns Hep Hx. destruct (reachable_ok _ _ Hreach) as [_ Hok].
  unfold refresh_ok in Hok. rewrite Hr in Hok. destruct Hok as [He _].
  destruct (act_keeps_flight own_source a t r Hr) as (_ & Hk & _).
  destruct (superseded_exec actions (act a t) r (with_refresh (Some r) (act a t)) r t' (eq_trans Hk Hr))
    as (r' & Hr' & He' & Hd' & Hx'); [lia|by apply settling_doomed|done|done|].
  assert (with_refresh (Some r) (act a t) = act a t) as Hsame.
  { rewrite <- (eq_trans Hk Hr). by destruct (act a t). }
  rewrite Hsame in Hx'. split; [eexists; by split_and!|].
  intros signal t'' s Ha. by destruct (superseded_advance _ _ _ _ _ Hr' He' Hd' Ha) as [? _].
Qed.

(** C9. In every state a tab can reach, the token, its expiry and the session
    are present together or not at all; a present token is not empty, its
    expiry is a positive finite number and its session has a non-empty id; no
    event without an id was published; and the refresh in flight belongs to
    the current epoch or an earlier one. *)
Theorem session_invariant t :
  reachable t →
  match accessToken (auth t), accessExpiresAt (auth t), session (auth t) with
  | None, None, None => True
  | Some token, Some e, Some s =>
      token ≠ [] ∧ is_finite e = true ∧ num_ltb zero e = true ∧ sid s ≠ []
  | _, _, _ => False
  end ∧
  Forall (λ event, event.2 ≠ []) (published t) ∧
  (∀ r, refreshPromise t = Some r → refreshEpoch r ≤ authEpoch t).
Proof.
  intros Hreach. destruct (reachable_ok _ _ Hreach) as [[Ha He] Hr]. split_and!; [done..|].
  intros r Hp. unfold refresh_ok in Hr. rewrite Hp in Hr. apply Hr.
Qed.

(** ** Liveness *)

Section Fair.
Context (states : nat → Tab) (actions : nat → Action) (settled : nat → option Settlement).

Definition is_run : Prop := ∀ n, step (states n) (actions n) = Some (states (S n), settled n).
Definition fair : Prop := ∀ n, ∃ m, n ≤ m ∧ is_signal (actions m) = true.

(** The signals among the steps [n .. n + k - 1]. *)
Fixpoint signals_from (n k : nat) : nat :=
  match k with
  | 0 => 0
  | S k => (if is_signal (actions n) then 1 else 0) + signals_from (S n) k
  end.

Lemma run_step_signal n r :
  is_run → refreshPromise (states n) = Some r → phase_ok (phase r) → is_signal (actions n) = true →
  match settled n with
  | Some s => states (S n) = with_refresh None (states n) ∧ phase_rank (phase r) = 1
  | None => ∃ p, refreshPromise (states (S n)) = Some (mkRefresh (refreshEpoch r) p) ∧ phase_ok p ∧
      phase_rank p < phase_rank (phase r) ∧
      length (requested (states (S n))) + phase_requests p
        ≤ length (requested (states n)) + phase_requests (phase r)
  end.
Proof.
  intros Hrun Hr Hok Hsig. specialize (Hrun n).
  destruct (actions n) as [| | | | | | | | |signal]; try done. cbn [AuthTabs.step] in Hrun.
  destruct (advance_spec _ _ _ _ _ Hr Hok Hrun) as (_ & _ & Hcase).
  destruct (settled n) as [s|]; [|done]. destruct Hcase as [Hp ->]. by rewrite Hp.
Qed.

Lemma run_step_own n r :
  is_run → refreshPromise (states n) = Some r → is_signal (actions n) = false →
  settled n = None ∧ refreshPromise (states (S n)) = Some r ∧
  requested (states (S n)) = requested (states n).
Proof.
  intros Hrun Hr Hown. specialize (Hrun n). rewrite step_own in Hrun by done. injection Hrun as Ht <-.
  destruct (act_keeps_flight own_source (actions n) (states n) r Hr) as (_ & Hk & Hq).
  rewrite <- Ht. split_and!; congruence.
Qed.

(** Induction on the rank of the refresh, then on the distance to the next
    signal. *)
Lemma settles_from rank : ∀ distance n m r,
  is_run → fair → refreshPromise (states n) = Some r → phase_ok (phase r) →
  phase_rank (phase r) ≤ rank → n ≤ m → m - n ≤ distance → is_signal (actions m) = true →
  ∃ k, is_Some (settled (n + k)) ∧ refreshPromise (states (S (n + k))) = None ∧
    signals_from n (S k) ≤ phase_rank (phase r) ∧
    length (requested (states (n + k))) ≤ length (requested (states n)) + phase_requests (phase r).
Proof.
  induction rank as [|rank IHrank]; intros distance.
  { intros n m r _ _ _ _ Hrank. destruct (phase r); cbn in Hrank; lia. }
  induction distance as [|distance IH]; intros n m r Hrun Hfair Hr Hok Hrank Hnm Hd Hsig;
    (destruct (is_signal (actions n)) eqn:Hn;
     [|try (assert (m = n) as -> by lia; congruence)]).
  1,2: pose proof (run_step_signal n r Hrun Hr Hok Hn) as Hs;
    destruct (settled n) as [s|] eqn:Hset.
  1,3: destruct Hs as [Ht Hone]; exists 0; rewrite Nat.add_0_r; cbn [signals_from]; rewrite Hn, Hset, Ht, Hone;
    split_and!; [done|done|lia|lia].
  1,2: destruct Hs as (p & Hp & Hpok & Hlt & Hq); destruct (Hfair (S n)) as (m' & Hm' & Hsig');
    destruct (IHrank (m' - S n) (S n) m' (mkRefresh (refreshEpoch r) p)) as (k & Hk1 & Hk2 & Hk3 & Hk4);
    try done; [cbn [phase]; lia|];
    exists (S k); rewrite <- Nat.add_succ_comm; cbn [phase] in *;
    split_and!; [done|done| |lia]; cbn [signals_from] in *; rewrite Hn; lia.
  destruct (run_step_own n r Hrun Hr Hn) as (Hset & Hp & Hq).
  destruct (IH (S n) m r) as (k & Hk1 & Hk2 & Hk3 & Hk4); try done; [|lia|].
  { assert (n ≠ m) by congruence. lia. }
  exists (S k). rewrite <- Nat.add_succ_comm. split_and!; [done|done| |congruence].
  cbn [signals_from] in *. rewrite Hn. lia.
Qed.
End Fair.

Lemma run_reachable states actions settled n :
  is_run states actions settled → reachable (states 0) → reachable (states n).
Proof. intros Hrun H0. induction n as [|n IH]; [done|]. by eapply reachable_step. Qed.

(** C7. Every refresh in flight settles: in any run of a tab in which signals
    keep arriving, whatever the other actions between them, a refresh is
    always resumable, settles after at most 17 signals and 8 requests, and
    leaves [refreshPromise] empty, so that the next call starts afresh. *)
Theorem refresh_settles states actions settled :
  is_run states actions settled → fair actions → reachable (states 0) →
  ∀ n r, refreshPromise (states n) = Some r →
    (∃ signal, is_Some (advance signal (states n))) ∧
    ∃ k, is_Some (settled (n + k)) ∧ refreshPromise (states (S (n + k))) = None ∧
      signals_from actions n (S k) ≤ 17 ∧
      length (requested (states (n + k))) ≤ length (requested (states n)) + 8.
Proof.
  intros Hrun Hfair H0 n r Hr. split; [by eapply advance_enabled|].
  destruct (reachable_ok _ _ (run_reachable _ _ _ n Hrun H0)) as [_ Hok].
  unfold refresh_ok in Hok. rewrite Hr in Hok. destruct Hok as [_ Hok]. destruct (Hfair n) as (m & Hm & Hsig).
  destruct (settles_from _ _ settled _ (m - n) n m r Hrun Hfair Hr Hok (le_n _) Hm (le_n _) Hsig)
    as (k & Hk1 & Hk2 & Hk3 & Hk4).
  destruct (phase_bounds _ Hok). exists k. split_and!; [done|done|lia|lia].
Qed.
End Properties.

(** ** Recovery without a hint *)

Section Recovery.
Context `{Browser} (own_source : jsstring).

Lemma no_identity_no_bundle now t : no_identity t = true → currentValidAuthBundle now t = None.
Proof. unfold no_identity, currentValidAuthBundle. by destruct (user (auth t)), (session (auth t)). Qed.

Lemma no_identity_not_stale t : no_identity t = true → has_stale_session t = false.
Proof. unfold no_identity, has_stale_session. by destruct (user (auth t)). Qed.

(** The signals up to the response of a refresh that nothing supersedes. *)
Definition answered (response : AuthRefreshHTTPResponse) : list Action :=
  (if browser_locks then [SignalReceived LockGranted] else [])
  ++ [SignalReceived (ResponseArrived response)].

Lemma exec_silent t a t1 actions :
  step own_source t a = Some (t1, None) →
  exec own_source t (a :: actions) = exec own_source t1 actions.
Proof. intros Hs. cbn [exec]. rewrite Hs. cbn. by destruct (exec own_source t1 actions) as [[]|]. Qed.

Lemma answered_refresh t response b :
  refreshPromise t = None → accepted_bundle (refresh_runtime (authEpoch t)) response = Some b →
  exec own_source (refreshAuthentication t) (answered response) =
    Some (with_refresh (Some (mkRefresh (authEpoch t) (Settling (Resolved (Authenticated b)))))
            (applyAuthBundle b false (requestRefresh (current_sid t) t)), []).
Proof.
  intros Hn Hb. unfold refreshAuthentication. rewrite Hn. unfold performRefreshWithBrowserLock, answered.
  assert (∀ t1, with_refresh None t1 = with_refresh None t →
    exec own_source (runRefresh (authEpoch t) t1) [SignalReceived (ResponseArrived response)] =
    Some (with_refresh (Some (mkRefresh (authEpoch t) (Settling (Resolved (Authenticated b)))))
            (applyAuthBundle b false (requestRefresh (current_sid t) t)), [])) as Hend.
  { intros t1 Ht1. injection Ht1 as Ha He Hp Hq. unfold runRefresh, createRefreshRunner.
    rewrite run_current, He, Nat.eqb_refl. cbn [exec step]. unfold advance.
    cbn [settle_or_wait with_refresh refreshPromise fst snd mbind option_bind phase refreshEpoch].
    unfold on_response, superseded_now. cbn [isCurrent refresh_runtime settle_or_wait with_refresh authEpoch requestRefresh snd].
    rewrite He, Nat.eqb_refl. cbn [negb]. rewrite Hb. unfold settle_or_wait. cbn [fst snd].
    f_equal. f_equal. destruct t, t1. cbn in *. by subst. }
  destruct browser_locks; cbn [app]; [|by apply Hend].
  by rewrite (exec_silent _ _ (runRefresh (authEpoch t) (with_refresh (Some (mkRefresh (authEpoch t) AwaitLock)) t))),
    Hend.
Qed.

(** A missing session hint is not a verdict: without one the boot path
    answers anonymous and leaves the tab untouched, so the next
    [resolveAuthentication] still asks the server, and a visitor whose Refresh
    Cookie is valid is signed in with the bundle of the response. *)
Theorem hintless_visitor_recovers now now' t response b :
  no_identity t = true → bootstrapState (auth t) ≠ complete → refreshPromise t = None →
  accepted_bundle (refresh_runtime (authEpoch t)) response = Some b →
  bootstrapAuthentication now false t = (Immediate Anonymous, t) ∧
  ∃ t1 t2, resolveAuthentication now' t = (JoinRefresh, t1) ∧ bootstrapState (auth t1) = checking ∧
    exec own_source t1 (answered response) = Some (t2, []) ∧
    auth t2 = mkAuth (Some (bundle_user b)) (Some (access_token b)) (Some (access_expires_at b))
                (Some (bundle_session b)) None complete ∧
    advance ReactionsRan t2 = Some (with_refresh None t2, Some (Resolved (Authenticated b))).
Proof.
  intros Hid Hb Hn Hresp. unfold bootstrapAuthentication, resolveAuthentication.
  rewrite !no_identity_no_bundle, Hid, no_identity_not_stale by done. split; [done|].
  assert (is_complete (bootstrapState (auth t)) = false) as -> by (by destruct (bootstrapState (auth t))).
  cbn [andb]. set (t0 := with_auth (setBootstrapState checking) t).
  pose proof (answered_refresh t0 response b Hn Hresp) as Hx.
  eexists _, _. split; [done|]. split; [|split; [exact Hx|by split]].
  destruct (refresh_starts t0 Hn) as (r & _ & _ & _ & -> & _). done.
Qed.

(** ** Sign-out across tabs *)

Lemma event_round_trip e :
  event_sid e ≠ [] → isAuthSessionSyncEvent (event_object e) = Some e.
Proof.
  destruct e as [k s source nonce ts]. cbn [event_sid]. intros Hs. unfold isAuthSessionSyncEvent, event_object.
  cbn [event_kind event_sid event_source event_nonce event_timestamp].
  change (prop _ (js "kind")) with (VString (kind_text k)). change (prop _ (js "sid")) with (VString s).
  change (prop _ (js "source")) with (VString source). change (prop _ (js "nonce")) with (VString nonce).
  change (prop _ (js "timestamp")) with (VNumber ts). destruct s; [done|]. by destruct k.
Qed.

(** A sign-out reaches the other tabs and stops there: the tab that signs
    out publishes exactly one event for its session and ignores it itself;
    every other tab of the browser that receives it within a minute drops its
    session when it is the same one and stays as it is otherwise, and in
    neither case publishes anything in turn. *)
Theorem sign_out_reaches_tabs t s nonce timestamp now b :
  session (auth t) = Some s → sid s ≠ [] →
  num_ltb (num_abs (num_sub now timestamp)) (num_of_Z 60000) = true →
  let event := mkEvent signed_out (sid s) own_source nonce timestamp in
  let t' := clearAuthentication true b t in
  published t' = published t ++ [(signed_out, sid s)] ∧ auth t' = mkAuth None None None None None b ∧
  deliver own_source now (event_object event) = None ∧
  ∀ other u, other ≠ own_source →
    deliver other now (event_object event) = Some event ∧
    published (on_session_event event u).1 = published u ∧
    (current_sid u = Some (sid s) →
       auth (on_session_event event u).1 = mkAuth None None None None None complete ∧
       (on_session_event event u).2 = LeaveToSignIn) ∧
    (current_sid u ≠ Some (sid s) → on_session_event event u = (u, NoEffect)).
Proof.
  intros Hs Hsid Htime event t'. assert (current_sid t = Some (sid s)) as Hcur by (unfold current_sid; by rewrite Hs).
  assert (isAuthSessionSyncEvent (event_object event) = Some event) as Hevent by (by apply event_round_trip).
  split_and!.
  - unfold t', clearAuthentication. rewrite Hcur. unfold publishAuthSessionEvent.
    by rewrite (proj2 (str_eqb_neq _ _) Hsid).
  - unfold t', clearAuthentication. rewrite Hcur. unfold publishAuthSessionEvent.
    by rewrite (proj2 (str_eqb_neq _ _) Hsid).
  - unfold deliver. rewrite Hevent. cbn [mbind option_bind event_source event].
    by rewrite str_eqb_refl.
  - intros other u Hother.
    assert (truthy_text (Some (sid s)) = true) as Htruthy by (by destruct (sid s)).
    split_and!.
    + unfold deliver. rewrite Hevent. cbn [mbind option_bind]. cbn [event_source event_timestamp event].
      by rewrite (proj2 (str_eqb_neq _ _) (not_eq_sym Hother)), Htime.
    + unfold on_session_event. cbn [event_kind event]. destruct (_ && _); [|done].
      unfold clearAuthentication. by destruct (current_sid u).
    + intros Hu. unfold on_session_event. cbn [event_kind event_sid event]. rewrite Hu, Htruthy.
      rewrite bool_decide_eq_true_2 by done. unfold clearAuthentication. by rewrite Hu.
    + intros Hu. unfold on_session_event. cbn [event_kind event_sid event].
      rewrite bool_decide_eq_false_2 by done. by rewrite andb_false_r.
Qed.
End Recovery.

(** A scheduler: the signal the refresh waits for, or a new call; every
    request fails with status 503. *)
Definition next_action (t : Tab) : Action :=
  match refreshPromise t with
  | None => RefreshCalled
  | Some r =>
      SignalReceived
        match phase r with
        | AwaitLock => LockGranted
        | Running (AwaitResponse _ _) => ResponseArrived (mkResponse 503 VUndefined VUndefined)
        | Running (AwaitTimer _ _ _) => TimerFired
        | Settling _ => ReactionsRan
        end
  end.
Definition scheduled `{Browser} (n : nat) : Tab :=
  Nat.iter n (λ t, from_option fst t (step [] t (next_action t))) initial_tab.

Lemma scheduled_run `{Browser} :
  is_run [] scheduled (λ n, next_action (scheduled n))
    (λ n, from_option snd None (step [] (scheduled n) (next_action (scheduled n)))).
Proof.
  intros n. change (scheduled (S n)) with
    (from_option fst (scheduled n) (step [] (scheduled n) (next_action (scheduled n)))).
  assert (is_Some (step [] (scheduled n) (next_action (scheduled n)))) as [[t s] ->]; [|done].
  generalize (scheduled n). intros t. unfold next_action. destruct (refreshPromise t) as [r|] eqn:Hr; [|by eexists].
  cbn [step]. unfold advance. rewrite Hr. cbn [mbind option_bind].
  destruct (phase r) as [|[]|]; by eexists.
Qed.

Lemma scheduled_fair `{Browser} : fair (λ n, next_action (scheduled n)).
Proof.
  intros n. destruct (refreshPromise (scheduled n)) as [r|] eqn:Hr.
  - exists n. split; [done|]. unfold next_action. by rewrite Hr.
  - exists (S n). split; [lia|].
    assert (scheduled (S n) = refreshAuthentication (scheduled n)) as ->.
    { change (scheduled (S n)) with
        (from_option fst (scheduled n) (step [] (scheduled n) (next_action (scheduled n)))).
      unfold next_action. by rewrite Hr. }
    destruct (refresh_starts _ Hr) as (r & Hr' & _). unfold next_action. by rewrite Hr'.
Qed.

#[local] Instance locks : Browser := true.

Example refresh_settles_witness :
  refreshPromise (scheduled 1) = Some (mkRefresh 0 AwaitLock) ∧
  ∃ k, refreshPromise (scheduled (S (1 + k))) = None.
Proof.
  split; [done|].
  destruct (refresh_settles (H := locks) [] scheduled (λ n, next_action (scheduled n))
    (λ n, from_option snd None (step [] (scheduled n) (next_action (scheduled n))))
    scheduled_run scheduled_fair (reachable_start []) 1 (mkRefresh 0 AwaitLock) eq_refl)
    as (_ & k & _ & Hk & _).
  by exists k.
Defined.

(** A signed-in tab whose refresh waits for its response. *)
Definition user_value : jsval :=
  VObject [(js "id", VNumber (num_of_Z 42)); (js "username", VString (js "test-user"));
           (js "role", VNumber (num_of_Z 1))].
Definition session_value (s : jsstring) : jsval :=
  VObject [(js "sid", VString s); (js "current", VBoolean true);
           (js "login_method", VString (js "password")); (js "ip", VString (js "127.0.0.1"));
           (js "user_agent", VString (js "test")); (js "created_at", VNumber (num_of_Z 100));
           (js "last_active_at", VNumber (num_of_Z 100)); (js "expires_at", VNumber (num_of_Z 1000))].
Definition bundle_value (token s : jsstring) : jsval :=
  VObject [(js "access_token", VString token); (js "token_type", VString (js "Bearer"));
           (js "access_expires_at", VNumber (num_of_Z 600)); (js "user", user_value);
           (js "session", session_value s)].
Definition signed_in (s : jsstring) : Tab := act [] (SignIn (bundle_value (js "token") s) true) initial_tab.
Definition refreshing : Tab :=
  from_option fst initial_tab
    (exec [] (signed_in (js "session-a")) [RefreshCalled; SignalReceived LockGranted]).

Lemma refreshing_reachable : reachable [] refreshing.
Proof.
  set (t0 := signed_in (js "session-a")).
  apply (reachable_step [] (act [] RefreshCalled t0) (SignalReceived LockGranted) _ None); [|by vm_compute].
  apply (reachable_step [] t0 RefreshCalled _ None); [|by vm_compute].
  apply (reachable_step [] initial_tab (SignIn (bundle_value (js "token") (js "session-a")) true) _ None);
    [constructor|by vm_compute].
Qed.

Example session_invariant_witness :
  match session (auth refreshing) with Some s => sid s ≠ [] | None => False end.
Proof.
  pose proof (session_invariant [] refreshing refreshing_reachable) as [Hwf _].
  revert Hwf. vm_compute. by intros (_ & _ & _ & ?).
Defined.

(** The answer of the server after the sign-out is ignored. *)
Definition late_answer : Action :=
  SignalReceived (ResponseArrived (mkResponse 200
    (VObject [(js "success", VBoolean true); (js "data", bundle_value (js "late") (js "session-a"))]) VUndefined)).

Example superseded_refresh_inert_witness :
  user (auth refreshing) ≠ None ∧
  ∃ t', exec [] (act [] (SignOut true complete) refreshing) [late_answer; UserUpdated None] = Some (t', []) ∧
    accessToken (auth t') = None.
Proof.
  split; [by vm_compute|]. eexists. split; [by vm_compute|].
  destruct (superseded_refresh_inert [] refreshing
    (mkRefresh 1 (Running (AwaitResponse 0 true))) (SignOut true complete) [late_answer; UserUpdated None]
    (from_option fst initial_tab
       (exec [] (act [] (SignOut true complete) refreshing) [late_answer; UserUpdated None])))
    as [(t2 & Hx & Ha & _) _].
  - exact refreshing_reachable.
  - by vm_compute.
  - exact I.
  - vm_compute. lia.
  - by vm_compute.
  - by vm_compute.
Defined.

Example hintless_visitor_recovers_witness :
  bootstrapAuthentication zero false initial_tab = (Immediate Anonymous, initial_tab) ∧
  ∃ t1 t2, resolveAuthentication zero initial_tab = (JoinRefresh, t1) ∧
    exec [] t1 [SignalReceived LockGranted;
                SignalReceived (ResponseArrived (mkResponse 200
                  (VObject [(js "success", VBoolean true);
                            (js "data", bundle_value (js "fresh") (js "session-a"))]) VUndefined))] = Some (t2, []) ∧
    accessToken (auth t2) = Some (js "fresh").
Proof.
  destruct (isAuthBundle (bundle_value (js "fresh") (js "session-a"))) as [b|] eqn:Hb; [|by vm_compute in Hb].
  destruct (hintless_visitor_recovers [] zero zero initial_tab
    (mkResponse 200 (VObject [(js "success", VBoolean true);
       (js "data", bundle_value (js "fresh") (js "session-a"))]) VUndefined) b)
    as (Hboot & t1 & t2 & Hres & _ & Hx & Ha & _); [by vm_compute|done|done|exact Hb|].
  split; [exact Hboot|]. exists t1, t2. split_and!; [exact Hres|exact Hx|].
  rewrite Ha. vm_compute in Hb. by injection Hb as <-.
Defined.

Example sign_out_reaches_tabs_witness :
  deliver (js "tab-2") (num_of_Z 1000)
    (event_object (mkEvent signed_out (js "session-a") (js "tab-1") (js "n") (num_of_Z 900))) =
  Some (mkEvent signed_out (js "session-a") (js "tab-1") (js "n") (num_of_Z 900)).
Proof.
  destruct (isLoginSession (session_value (js "session-a"))) as [s|] eqn:Hs; [|by vm_compute in Hs].
  assert (sid s = js "session-a") as Hsid by (vm_compute in Hs; by injection Hs as <-).
  rewrite <- Hsid.
  refine (proj1 (proj2 (proj2 (proj2 (sign_out_reaches_tabs (js "tab-1") (signed_in (js "session-a")) s
    (js "n") (num_of_Z 900) (num_of_Z 1000) complete _ _ _))) (js "tab-2") initial_tab _)).
  - vm_compute in Hs. injection Hs as <-. by vm_compute.
  - by rewrite Hsid.
  - by vm_compute.
  - done.
Defined.
