(* ===== verification/PasswordEncryption.v ===== *)
(** * features/auth/lib/password-encryption.ts

    The password encrypted for the server: the cached public key, and RSA-OAEP
    for a short password, AES-GCM under a wrapped key for a long one, by Web
    Crypto or by forge where there is no Web Crypto. The ciphers, the random
    bytes, the clock and the network are the environment of a script. *)

From S2P Require Import Prelude JsNumber JsText Types Runtime JsRegex JsMap JsValue Script ServerError Passkey.

(** ** Texts and bytes *)

Definition high_surrogate (c : code_unit) : bool := ((55296 <=? c) && (c <=? 56319))%N.
Definition low_surrogate (c : code_unit) : bool := ((56320 <=? c) && (c <=? 57343))%N.
Definition three_bytes (c : N) : bytes := [224 + c / 4096; 128 + c / 64 mod 64; 128 + c mod 64]%N.
Definition four_bytes (c : N) : bytes := [240 + c / 262144; 128 + c / 4096 mod 64; 128 + c / 64 mod 64; 128 + c mod 64]%N.
Definition pair_value (high low : code_unit) : N := (65536 + (high - 55296) * 1024 + (low - 56320))%N.

(** UTF-8; [lone] gives the bytes of a surrogate without its partner. *)
Fixpoint utf8_with (lone : option bytes) (s : jsstring) : option bytes :=
  match s with
  | [] => Some []
  | c :: s' =>
      if (c <? 128)%N then rest ← utf8_with lone s'; Some (c :: rest)
      else if (c <? 2048)%N then rest ← utf8_with lone s'; Some (192 + c / 64 :: 128 + c mod 64 :: rest)%N
      else if high_surrogate c then
        match s' with
        | d :: s'' =>
            if low_surrogate d then rest ← utf8_with lone s''; Some (four_bytes (pair_value c d) ++ rest)
            else here ← lone; rest ← utf8_with lone s'; Some (here ++ rest)
        | [] => lone
        end
      else if low_surrogate c then here ← lone; rest ← utf8_with lone s'; Some (here ++ rest)
      else rest ← utf8_with lone s'; Some (three_bytes c ++ rest)
  end.
(** [new TextEncoder().encode(s)]; [forge.util.encodeUtf8(s)], which throws for
    a surrogate without its partner. *)
Definition text_encode (s : jsstring) : bytes := default [] (utf8_with (Some (three_bytes 65533%N)) s).
Definition encodeUtf8 (s : jsstring) : option bytes := utf8_with None s.

(** [s.replace(word, '')]: the first occurrence. *)
Definition remove_first (word s : jsstring) : jsstring :=
  match JsValue.index_of word s with Some n => take n s ++ drop (n + length word) s | None => s end.

Definition pemToDER (pem : jsval) : result bytes :=
  match pem with
  | VString pem =>
      atob (List.filter (λ c, negb (is_space c))
              (remove_first (js "-----END PUBLIC KEY-----") (remove_first (js "-----BEGIN PUBLIC KEY-----") pem)))
  | _ => Err type_error
  end.
Definition arrayBufferToBase64 (buffer : bytes) : jsstring := btoa buffer.

(** ** The environment *)

Inductive Library := WebCrypto | Forge.

Section Encryption.
(** Errors, handles of keys. *)
Context {E : Type} `{ErrorSource E} {Key : Type}.
(** Errors of the language, [i18next.t]. *)
Context (native : exn → E) (t : jsstring → jsstring).

Inductive cipher_call :=
  | Clock                                          (* Date.now() *)
  | CachedKey                                      (* cachedKey and cachedAt *)
  | CacheKey (entry : option (jsval * num))        (* their assignment *)
  | FetchKey                                       (* the body of the answer, or an error *)
  | SubtleAvailable
  | RandomBytes (library : Library) (n : nat)
  | ImportRsa (library : Library) (key : bytes + jsval)  (* the key and the bits of its modulus *)
  | ImportAes (secret : bytes)
  | RsaEncrypt (library : Library) (key : Key) (label : option bytes) (plaintext : bytes)
  (* forge takes a text for its bytes, one for each code unit; the nonce and the
     secret it gives are such texts *)
  | AesEncrypt (library : Library) (key : Key + bytes) (nonce additional plaintext : bytes).
(** [AesEncrypt] gives the ciphertext with its tag; a cipher of forge may not
    finish. *)
Definition cipher_answer (c : cipher_call) : Type :=
  match c with
  | Clock => num
  | CachedKey => option (jsval * num)
  | CacheKey _ => unit
  | FetchKey => (jsval + E)%type
  | SubtleAvailable => bool
  | RandomBytes _ _ => bytes
  | ImportRsa _ _ => (Key * N + E)%type
  | ImportAes _ => (Key + E)%type
  | RsaEncrypt _ _ _ _ => (bytes + E)%type
  | AesEncrypt WebCrypto _ _ _ _ => (bytes + E)%type
  | AesEncrypt Forge _ _ _ _ => (option bytes + E)%type
  end.

Definition cipher_script (A : Type) : Type := script cipher_answer A (X := thrown E).
Definition ask (c : cipher_call) : cipher_script (cipher_answer c) := perform cipher_answer c.
Definition fail_with {A} (e : E) : cipher_script A := raise cipher_answer (Raised e).
Definition checked {A} (r : result A) : cipher_script A :=
  match r with Ok a => mret a | Err e => fail_with (native e) end.
Definition answered {A} (r : A + E) : cipher_script A := match r with inl a => mret a | inr e => fail_with e end.
Definition error_text {A} (message : jsstring) : cipher_script A := fail_with (native (NativeError message)).

(** ** The key *)

Definition KEY_CACHE_TTL_MS : num := num_of_Z 300000.

Definition clearPasswordEncryptionCache : cipher_script unit := ask (CacheKey None).

Definition usable_key (body : jsval) : option jsval :=
  let key := prop body (js "data") in
  if negb (truthy (prop body (js "success"))) || negb (truthy (prop key (js "kid"))) || negb (truthy (prop key (js "public_key")))
  then None else Some key.

(** The cached key, while it is fresh. *)
Definition fresh_key (cached : option (jsval * num)) (now : num) : option jsval :=
  match cached with
  | Some (key, cachedAt) => if num_ltb (num_sub now cachedAt) KEY_CACHE_TTL_MS then Some key else None
  | None => None
  end.
Definition getPasswordEncryptionKey : cipher_script jsval :=
  now ← ask Clock;
  cached ← ask CachedKey;
  match fresh_key cached now with
  | Some key => mret key
  | None =>
      answer ← ask FetchKey;
      body ← answered answer;
      match usable_key body with
      | Some key => _ ← ask (CacheKey (Some (key, now))); mret key
      | None => error_text (js "Password encryption key is unavailable")
      end
  end.

(** ** rsaOaepEncrypt *)

(** [length > bits / 8 - 66], which is exact on the numbers of both sides. *)
Definition too_long (plaintext : bytes) (bits : N) : bool := (bits <? 8 * (N.of_nat (length plaintext) + 66))%N.
Definition label_text : jsstring := js "password-v2".
Definition additional_text (keyId : jsstring) : jsstring := js "password-v2:" ++ keyId.
Definition hybrid_text (wrapped nonce ciphertext : bytes) : jsstring :=
  join (js ".") [js "v2"; arrayBufferToBase64 wrapped; arrayBufferToBase64 nonce; arrayBufferToBase64 ciphertext].

(** The body of the [try] on Web Crypto. *)
Definition web_encrypt (password : jsstring) (publicKeyPEM keyId : jsval) : cipher_script jsstring :=
  der ← checked (pemToDER publicKeyPEM);
  imported ← ask (ImportRsa WebCrypto (inl der));
  '(publicKey, bits) ← answered imported;
  let plaintext := text_encode password in
  if too_long plaintext bits then
    secret ← ask (RandomBytes WebCrypto 32);
    nonce ← ask (RandomBytes WebCrypto 12);
    imported ← ask (ImportAes secret);
    key ← answered imported;
    wrapping ← ask (RsaEncrypt WebCrypto publicKey (Some (text_encode label_text)) secret);
    keyId ← checked (to_string keyId);
    encrypting ← ask (AesEncrypt WebCrypto (inl key) nonce (text_encode (additional_text keyId)) plaintext);
    wrappedKey ← answered wrapping;
    ciphertext ← answered encrypting;
    mret (hybrid_text wrappedKey nonce ciphertext)
  else
    encrypting ← ask (RsaEncrypt WebCrypto publicKey None plaintext);
    ciphertext ← answered encrypting;
    mret (arrayBufferToBase64 ciphertext).

(** The fallback, forge. It is given the label and the additional data as the
    texts they are, not as their UTF-8. *)
Definition forge_encrypt (password : jsstring) (publicKeyPEM keyId : jsval) : cipher_script jsstring :=
  imported ← ask (ImportRsa Forge (inr publicKeyPEM));
  '(publicKey, bits) ← answered imported;
  match encodeUtf8 password with
  | None => fail_with (native (NativeError (js "URI malformed")))
  | Some plaintext =>
      if too_long plaintext bits then
        secret ← ask (RandomBytes Forge 32);
        nonce ← ask (RandomBytes Forge 12);
        wrapping ← ask (RsaEncrypt Forge publicKey (Some label_text) secret);
        wrappedKey ← answered wrapping;
        keyId ← checked (to_string keyId);
        encrypting ← ask (AesEncrypt Forge (inr secret) nonce (additional_text keyId) plaintext);
        ciphertext ← answered encrypting;
        match ciphertext with
        | None => error_text (js "Password encryption failed")
        | Some ciphertext => mret (hybrid_text wrappedKey nonce ciphertext)
        end
      else
        encrypting ← ask (RsaEncrypt Forge publicKey None plaintext);
        ciphertext ← answered encrypting;
        mret (arrayBufferToBase64 ciphertext)
  end.

Definition rsaOaepEncrypt (password : jsstring) (publicKeyPEM keyId : jsval) : cipher_script jsstring :=
  subtle ← ask SubtleAvailable;
  if subtle : bool then catch cipher_answer (web_encrypt password publicKeyPEM keyId) (λ _, forge_encrypt password publicKeyPEM keyId)
  else forge_encrypt password publicKeyPEM keyId.

(** The fields of a request. *)
Definition encryptPassword (password : jsstring) : cipher_script (list (jsstring * jsval)) :=
  catch cipher_answer
    (key ← getPasswordEncryptionKey;
     ciphertext ← rsaOaepEncrypt password (prop key (js "public_key")) (prop key (js "kid"));
     mret [(js "password_encrypted", VString ciphertext); (js "encryption_key_id", prop key (js "kid"))])
    (λ _, _ ← clearPasswordEncryptionCache; fail_with (native (NativeError (t (js "Login failed"))))).
End Encryption.
