(* ===== verification/PasswordEncryptionFacts.v ===== *)
(** * The encryption of passwords: theorems

    Whoever holds the private key reads the password out of what is sent, and
    RSA is never given more than it can take. *)

From Stdlib Require Import ZifyBool ZifyN.
From S2P Require Import Prelude JsNumber JsText Types Runtime JsRegex JsMap JsValue Script ServerError Passkey.
From S2P Require Import PasswordEncryption.

(** ** Texts and bytes *)

(** Without a lone surrogate the two encoders agree. *)
Lemma utf8_agree lone n s b : length s ≤ n → utf8_with None s = Some b → utf8_with lone s = Some b.
Proof.
  revert s b. induction n as [|n IH]; intros [|c s] b Hn Hb; [exact Hb|cbn in Hn; lia|exact Hb|].
  cbn [length] in Hn. cbn [utf8_with] in *.
  assert (∀ (f : bytes → bytes) r, length r ≤ n → (x ← utf8_with None r; Some (f x)) = Some b →
    (x ← utf8_with lone r; Some (f x)) = Some b) as Hstep.
  { intros f r Hr Hx. destruct (utf8_with None r) as [x|] eqn:E; [|done]. by rewrite (IH r x Hr E). }
  destruct (c <? 128)%N; [by apply Hstep; [lia|]|]. destruct (c <? 2048)%N; [by apply (Hstep (λ r, _ :: _ :: r)); [lia|]|].
  destruct (high_surrogate c).
  - destruct s as [|d s]; [done|]. cbn [length] in Hn. destruct (low_surrogate d); [|done].
    by apply (Hstep (λ r, four_bytes _ ++ r)); [lia|].
  - destruct (low_surrogate c); [done|]. by apply (Hstep (λ r, three_bytes _ ++ r)); [lia|].
Qed.
Lemma encodeUtf8_text s b : encodeUtf8 s = Some b → text_encode s = b.
Proof. intros Hb. unfold text_encode. by rewrite (utf8_agree _ _ _ _ (Nat.le_refl _) Hb). Qed.

(** ASCII texts are their own UTF-8. *)
Definition ascii (s : jsstring) : bool := forallb (λ c, (c <? 128)%N) s.
Lemma text_encode_ascii s : ascii s = true → text_encode s = s.
Proof.
  unfold text_encode. intros Hs. assert (utf8_with (Some (three_bytes 65533%N)) s = Some s) as ->; [|done].
  induction s as [|c s IH]; [done|]. cbn in Hs. apply andb_true_iff in Hs as [Hc Hs]. cbn [utf8_with]. rewrite Hc. by rewrite IH.
Qed.
Lemma ascii_bytes s : ascii s = true → Forall byte s.
Proof. intros Hs. apply Forall_forall. intros c Hc. unfold ascii in Hs. rewrite forallb_forall in Hs. specialize (Hs c ltac:(by apply list_elem_of_In)). unfold byte. lia. Qed.
Lemma additional_ascii name : ascii name = true → ascii (additional_text name) = true.
Proof. intros Hn. unfold ascii, additional_text. rewrite forallb_app. apply andb_true_iff. by split. Qed.

Lemma base64_no_dot s : Forall byte s → 46%N ∉ btoa s.
Proof.
  intros Hs. rewrite btoa_padding. unfold padding_of. rewrite elem_of_app. intros [H|[H _]%elem_of_replicate]; [|done].
  pose proof (unpadded_range s Hs) as Hr. rewrite Forall_forall in Hr. specialize (Hr _ H). lia.
Qed.

(** ** The steps of a script *)

Abbreviation cipher_event E Key := (event (@cipher_answer E Key)).

Section Steps.
Context {E : Type} `{ErrorSource E} {Key : Type} (native : exn → E).

Lemma meets_ask {A} c (f : cipher_answer c → @cipher_script E Key A) P :
  (∀ x, meets (f x) (λ tr o, P (happened c x :: tr) o)) → meets (ask c ≫= f) P.
Proof. done. Qed.
Lemma meets_answered {A B} (r : A + E) (f : A → @cipher_script E Key B) P :
  (∀ a, r = inl a → meets (f a) P) → (∀ e, r = inr e → P [] (Threw (Raised e))) → meets (answered r ≫= f) P.
Proof. destruct r as [a|e]; intros Ha He; [by apply Ha|by apply He]. Qed.
Lemma meets_checked {A B} (r : result A) (f : A → @cipher_script E Key B) P :
  (∀ a, r = Ok a → meets (f a) P) → (∀ e, r = Err e → P [] (Threw (Raised (native e)))) → meets (checked native r ≫= f) P.
Proof. destruct r as [a|e]; intros Ha He; [by apply Ha|by apply He]. Qed.
Lemma meets_ret {A} (a : A) (P : list (cipher_event E Key) → outcome A → Prop) :
  P [] (Done a) → meets (mret a : @cipher_script E Key A) P.
Proof. done. Qed.
Lemma meets_fail {A} e (P : list (cipher_event E Key) → outcome A → Prop) :
  P [] (Threw (Raised e)) → meets (fail_with e : @cipher_script E Key A) P.
Proof. done. Qed.
End Steps.

Ltac cipher_step :=
  match goal with
  | |- meets (ask _ ≫= _) _ => refine (meets_ask _ _ _ _); intros ?
  | |- meets (answered _ ≫= _) _ => refine (meets_answered _ _ _ _ _); intros ? ->
  | |- meets (checked _ _ ≫= _) _ => refine (meets_checked _ _ _ _ _ _); intros ? ?
  | |- meets (mret _) _ => refine (meets_ret _ _ _)
  | |- meets (fail_with _) _ => refine (meets_fail _ _ _)
  | |- meets (error_text _ _) _ => refine (meets_fail _ _ _)
  | |- meets (let '(_, _) := ?p in _) _ => destruct p as [? ?]
  | |- meets (match ?x with _ => _ end) _ => destruct x eqn:?
  | |- _ => progress cbv beta
  end.

(** ** What can be read out of the text sent *)

Section Opening.
Context {E : Type} `{ErrorSource E} {Key : Type}.
Context (native : exn → E) (t : jsstring → jsstring).
#[local] Set Default Proof Using "All".
(** The private keys, by the handle of the public key; AES-GCM; the bytes that
    an imported AES key holds. *)
Context (rsa_open : Key → option bytes → bytes → option bytes).
Context (aes_open : bytes → bytes → bytes → bytes → option bytes).
Context (secret_of : Key → bytes).

(** The reader of a text: RSA alone, or RSA for the secret of AES. *)
Definition decoded_part (s : jsstring) : option bytes := match atob s with Ok b => Some b | Err _ => None end.
Definition open_text (key : Key) (keyId text : jsstring) : option bytes :=
  match split_units 46%N text with
  | [c] => b ← decoded_part c; rsa_open key None b
  | [v; w; n; c] =>
      if v =s js "v2" then
        wrapped ← decoded_part w; nonce ← decoded_part n; ciphertext ← decoded_part c;
        secret ← rsa_open key (Some (text_encode label_text)) wrapped;
        aes_open secret nonce (text_encode (additional_text keyId)) ciphertext
      else None
  | _ => None
  end.

(** The ciphers do what they are for: what they give is bytes that open to what
    they were given. Of forge that is known where its additional data are bytes. *)
Definition honest_event (e : event (@cipher_answer E Key)) : Prop :=
  let 'existT c x := e in
  match c as c return cipher_answer c → Prop with
  | RandomBytes _ n => λ x, Forall byte x ∧ length x = n
  | ImportAes secret => λ x, match x with inl k => secret_of k = secret | inr _ => True end
  | RsaEncrypt _ key label plaintext => λ x,
      match x with inl b => Forall byte b ∧ rsa_open key label b = Some plaintext | inr _ => True end
  | AesEncrypt WebCrypto key nonce additional plaintext => λ x,
      match x with
      | inl b => Forall byte b ∧ aes_open (match key with inl k => secret_of k | inr s => s end) nonce additional b = Some plaintext
      | inr _ => True
      end
  | AesEncrypt Forge key nonce additional plaintext => λ x,
      match x with
      | inl (Some b) => Forall byte b
          ∧ (Forall byte additional → aes_open (match key with inl k => secret_of k | inr s => s end) nonce additional b = Some plaintext)
      | _ => True
      end
  | _ => λ _, True
  end x.
Definition honest (tr : list (cipher_event E Key)) : Prop := Forall honest_event tr.

(** A public key that was imported, with the bits of its modulus. *)
Definition imported (tr : list (cipher_event E Key)) (source : bytes + jsval) (key : Key) (bits : N) : Prop :=
  ∃ library, happened (ImportRsa library source) (inl (key, bits)) ∈ tr.
Definition source_of (pem : jsval) (source : bytes + jsval) : Prop :=
  match source with inl der => pemToDER pem = Ok der | inr v => v = pem end.

(** The text opens to the password with the key of the PEM text, if its name is
    ASCII or Web Crypto, which imports bytes, encrypted it. *)
Definition name_safe (source : bytes + jsval) (name : jsstring) : Prop := (∃ der, source = inl der) ∨ ascii name = true.
Definition opens_to (tr : list (cipher_event E Key)) (pem keyId : jsval) (password text : jsstring) : Prop :=
  ∃ source key bits, imported tr source key bits ∧ source_of pem source
    ∧ ∀ name, to_string keyId = Ok name → name_safe source name → open_text key name text = Some (text_encode password).

(** RSA is given a secret of 32 bytes, or what a key takes: [bits / 8 - 66]
    bytes, by OAEP with SHA-256. *)
Definition rsa_input (e : event (@cipher_answer E Key)) : option (Key * bytes) :=
  let 'existT c _ := e in match c with RsaEncrypt _ key _ plaintext => Some (key, plaintext) | _ => None end.
Definition rsa_within (tr : list (cipher_event E Key)) : Prop :=
  Forall (λ e, ∀ key plaintext, rsa_input e = Some (key, plaintext) →
    length plaintext = 32 ∨ ∃ source bits, imported tr source key bits ∧ (8 * (N.of_nat (length plaintext) + 66) <= bits)%N) tr.

Lemma imported_app tr tr' source key bits :
  imported tr source key bits ∨ imported tr' source key bits → imported (tr ++ tr') source key bits.
Proof. unfold imported. set_solver. Qed.
Lemma rsa_within_app tr tr' : rsa_within tr → rsa_within tr' → rsa_within (tr ++ tr').
Proof.
  intros H1 H2. apply Forall_app. split; (eapply Forall_impl; [first [exact H1|exact H2]|]); intros e He key plaintext Hr;
    (destruct (He key plaintext Hr) as [|(source & bits & Hi & Hl)]; [by left|right; exists source, bits; split; [|done]]);
    apply imported_app; auto.
Qed.

Lemma decoded_base64 b : Forall byte b → decoded_part (arrayBufferToBase64 b) = Some b.
Proof. intros Hb. unfold decoded_part, arrayBufferToBase64. by rewrite atob_btoa. Qed.
Lemma open_plain key name ct : Forall byte ct → open_text key name (arrayBufferToBase64 ct) = rsa_open key None ct.
Proof.
  intros Hc. unfold open_text. rewrite split_units_none by by apply base64_no_dot. by rewrite decoded_base64.
Qed.
Lemma open_hybrid key name w n c : Forall byte w → Forall byte n → Forall byte c →
  open_text key name (hybrid_text w n c)
  = (secret ← rsa_open key (Some (text_encode label_text)) w; aes_open secret n (text_encode (additional_text name)) c).
Proof.
  intros Hw Hn Hc. unfold open_text, hybrid_text. change (js ".") with [46%N]. rewrite split_units_join; [|done|].
  - rewrite str_eqb_refl, !decoded_base64 by done. done.
  - repeat (apply Forall_cons_2; [first [by apply base64_no_dot|by vm_compute; set_solver]|]). apply Forall_nil_2.
Qed.

Lemma opens_plain tr source key bits pem keyId password ct :
  imported tr source key bits → source_of pem source → Forall byte ct → rsa_open key None ct = Some (text_encode password) →
  opens_to tr pem keyId password (arrayBufferToBase64 ct).
Proof. intros Hi Hs Hc Ho. exists source, key, bits. split_and!; [done..|]. intros name _ _. by rewrite open_plain. Qed.
Lemma opens_hybrid tr source key bits pem keyId name secret password w n c :
  imported tr source key bits → source_of pem source → to_string keyId = Ok name →
  Forall byte w → Forall byte n → Forall byte c → rsa_open key (Some (text_encode label_text)) w = Some secret →
  (name_safe source name → aes_open secret n (text_encode (additional_text name)) c = Some (text_encode password)) →
  opens_to tr pem keyId password (hybrid_text w n c).
Proof.
  intros Hi Hs Hk Hw Hn Hc Hr Ha. exists source, key, bits. split_and!; [done..|]. intros name' Hk' Hsafe.
  rewrite Hk in Hk'. injection Hk' as <-. rewrite open_hybrid, Hr by done. by apply Ha.
Qed.

#[local] Ltac in_trace := repeat (first [apply list_elem_of_here|apply list_elem_of_further]).
#[local] Ltac leaf :=
  intros Hh; repeat (apply Forall_cons in Hh as [? Hh]); cbn [honest_event happened] in *; destruct_and?; split;
    [unfold rsa_within;
     repeat (apply Forall_cons_2; [intros ? ? [= <- <-] || (intros ? ? ?; discriminate)|]); [..|apply Forall_nil_2];
     first [by left|right; do 2 eexists; split; [eexists; in_trace|by apply N.ltb_ge]]|].

(** What every run of an encryption does: RSA is used within its bounds, and a
    text that is given opens to the password. *)
Definition encrypts (pem keyId : jsval) (password : jsstring) (tr : list (cipher_event E Key))
    (o : @outcome (thrown E) jsstring) : Prop :=
  honest tr → rsa_within tr ∧ match o with Done text => opens_to tr pem keyId password text | Threw _ => True end.

Lemma web_opens password pem keyId : meets (web_encrypt native password pem keyId) (encrypts pem keyId password).
Proof.
  unfold web_encrypt, encrypts. cbv zeta. repeat cipher_step; leaf; try done.
  - eapply opens_hybrid; [eexists; in_trace|done|done|done..|]. intros _. by simplify_eq.
  - eapply opens_plain; [eexists; in_trace|done..].
Qed.
Lemma forge_opens password pem keyId : meets (forge_encrypt native password pem keyId) (encrypts pem keyId password).
Proof.
  unfold forge_encrypt, encrypts. repeat cipher_step; leaf; try done;
    match goal with Hp : encodeUtf8 _ = Some _ |- _ => apply encodeUtf8_text in Hp; subst end.
  - eapply opens_hybrid; [eexists; in_trace|done..|]. intros [[der ?]|Ha%additional_ascii]; [done|].
    rewrite (text_encode_ascii _ Ha). by auto using ascii_bytes.
  - eapply opens_plain; [eexists; in_trace|done..].
Qed.

Lemma opens_to_app tr tr' pem keyId password text :
  opens_to tr pem keyId password text ∨ opens_to tr' pem keyId password text → opens_to (tr ++ tr') pem keyId password text.
Proof.
  intros [(source & key & bits & Hi & Hr)|(source & key & bits & Hi & Hr)]; exists source, key, bits; (split; [|done]);
    apply imported_app; auto.
Qed.
Lemma encrypts_after pem keyId password tr tr' e o :
  encrypts pem keyId password tr (Threw e) → encrypts pem keyId password tr' o → encrypts pem keyId password (tr ++ tr') o.
Proof.
  intros H1 H2 [Ht Ht']%Forall_app. destruct (H1 Ht) as [Hw _], (H2 Ht') as [Hw' Ho]. split; [by apply rsa_within_app|].
  destruct o; [|done]. apply opens_to_app. by right.
Qed.

Lemma rsa_opens password pem keyId : meets (rsaOaepEncrypt native password pem keyId) (encrypts pem keyId password).
Proof.
  assert (∀ b tr o, encrypts pem keyId password tr o → encrypts pem keyId password (happened SubtleAvailable b :: tr) o) as Hs.
  { intros b tr o Ho. apply (encrypts_after _ _ _ [_] _ (Raised (native type_error))); [|done].
    intros _. split; [|done]. apply Forall_cons_2; [|by apply Forall_nil_2]. by intros ? ? ?. }
  unfold rsaOaepEncrypt. refine (meets_ask _ _ _ _). intros subtle. cbv beta.
  apply (meets_mono _ _ (encrypts pem keyId password)); [|intros tr o; apply Hs]. destruct subtle; [|apply forge_opens].
  apply meets_catch. refine (meets_mono _ _ _ _ (web_opens _ _ _) _). intros tr [text|e] Ho; [done|].
  refine (meets_mono _ _ _ _ (forge_opens _ _ _) _). intros tr' o Ho'. by apply (encrypts_after _ _ _ _ _ e).
Qed.

(** ** encryptPassword *)

(** The key is the one of the server, or the cached one within its time. *)
Definition key_of (tr : list (cipher_event E Key)) (key : jsval) : Prop :=
  (∃ body, happened FetchKey (inl body) ∈ tr ∧ usable_key body = Some key)
  ∨ ∃ cachedAt now, happened CachedKey (Some (key, cachedAt)) ∈ tr ∧ happened Clock now ∈ tr
      ∧ num_ltb (num_sub now cachedAt) KEY_CACHE_TTL_MS = true.

Lemma key_fetched : meets (getPasswordEncryptionKey (E := E) (Key := Key) native) (λ tr o,
  rsa_within tr ∧ match o with Done key => key_of tr key | Threw _ => True end).
Proof.
  unfold getPasswordEncryptionKey.
  repeat cipher_step; (split; [repeat (apply Forall_cons_2; [by intros ? ? ?|]); by apply Forall_nil_2|]); try done.
  - right. unfold fresh_key in *. repeat case_match; simplify_eq. do 2 eexists. split_and!; [in_trace|in_trace|done].
  - left. eexists. split; [in_trace|done].
Qed.

Definition login_failed : thrown E := Raised (native (NativeError (t (js "Login failed")))).

(** The fields of a request that carry the password. *)
Definition carries (tr : list (cipher_event E Key)) (password : jsstring) (fields : list (jsstring * jsval)) : Prop :=
  ∃ key text, key_of tr key ∧ opens_to tr (prop key (js "public_key")) (prop key (js "kid")) password text
    ∧ fields = [(js "password_encrypted", VString text); (js "encryption_key_id", prop key (js "kid"))].

Lemma key_of_app tr tr' key : key_of tr key → key_of (tr ++ tr') key.
Proof. unfold key_of. set_solver. Qed.

Definition encrypted (password : jsstring) (tr : list (cipher_event E Key))
    (o : @outcome (thrown E) (list (jsstring * jsval))) : Prop :=
  honest tr → rsa_within tr
    ∧ match o with
      | Done fields => carries tr password fields
      | Threw e => e = login_failed ∧ ∃ tr' u, tr = tr' ++ [happened (CacheKey None) u]
      end.

Lemma password_encrypted password : meets (encryptPassword native t password) (encrypted password).
Proof.
  unfold encryptPassword. apply meets_catch, meets_after. refine (meets_mono _ _ _ _ key_fetched _).
  assert (∀ tr, (honest tr → rsa_within tr) → meets (_ ← clearPasswordEncryptionCache; fail_with (native (NativeError (t (js "Login failed")))))
    (λ u o, encrypted password (tr ++ u) o)) as Hfail.
  { intros tr Hw u [Ht _]%Forall_app. split; [|split; [done|by exists tr, u]]. apply rsa_within_app; [by apply Hw|].
    apply Forall_cons_2; [by intros ? ? ?|by apply Forall_nil_2]. }
  intros tr [key|e] [Hw Hk]; [|by apply Hfail]. apply meets_after. refine (meets_mono _ _ _ _ (rsa_opens _ _ _) _).
  intros tr' [text|e] Ho.
  - intros [_ Ht]%Forall_app. rewrite app_nil_r in *. destruct (Ho Ht) as [Hw' Hx]. split; [by apply rsa_within_app|].
    exists key, text. split_and!; [by apply key_of_app|apply opens_to_app; by right|done].
  - apply Hfail. intros [_ Ht]%Forall_app. destruct (Ho Ht) as [Hw' _]. by apply rsa_within_app.
Qed.

(** C27. Whatever the network, the clock and the cached key do: if the ciphers
    and the random source do what they are for, then RSA is only ever given a
    secret of 32 bytes or a text within the bounds of its key; a text that is
    sent opens to exactly the password under the private key of the PEM text it
    was encrypted for, which is the server's or the cached one within its time;
    and any failure is the one error of a login, after the cache is cleared.
    The server opens a long password with the UTF-8 of the key's name. Web
    Crypto is given that; forge is given the name itself, so what forge encrypted
    opens when the name is ASCII, as the hexadecimal names of the server are. *)
Theorem password_sent_opens {S} (environment : ∀ c, S → cipher_answer c * S) password s :
  honest (trace_of cipher_answer environment (encryptPassword native t password) s) →
  rsa_within (trace_of cipher_answer environment (encryptPassword native t password) s)
  ∧ match result_of cipher_answer environment (encryptPassword native t password) s with
    | Done fields => carries (trace_of cipher_answer environment (encryptPassword native t password) s) password fields
    | Threw e => e = login_failed
        ∧ ∃ tr u, trace_of cipher_answer environment (encryptPassword native t password) s = tr ++ [happened (CacheKey None) u]
    end.
Proof. exact (meets_run _ environment _ s _ (password_encrypted password)). Qed.
End Opening.

(** A name that is not ASCII: forge and the server disagree on the data. *)
Example forge_name_raw : bool_decide (additional_text [233%N] = text_encode (additional_text [233%N])) = false.
Proof. vm_compute. reflexivity. Qed.

(** Ciphers that show what they hide. *)
Section Witness.
#[local] Instance text_errors : ErrorSource jsstring := λ e, mkFailure e None.
Definition open_environment (c : @cipher_call bytes) (s : unit) : @cipher_answer jsstring bytes c * unit :=
  (match c as c return @cipher_answer jsstring bytes c with
   | Clock => num_of_Z 5
   | CachedKey => None
   | CacheKey _ => tt
   | FetchKey => inl (VObject [(js "success", VBoolean true);
       (js "data", VObject [(js "kid", VString (js "k1"));
         (js "public_key", VString (js "-----BEGIN PUBLIC KEY----- AAEC -----END PUBLIC KEY-----"))])])
   | SubtleAvailable => true
   | RandomBytes _ n => replicate n 7%N
   | ImportRsa _ _ => inl ([], 640%N)
   | ImportAes secret => inl secret
   | RsaEncrypt _ _ _ plaintext => inl plaintext
   | AesEncrypt WebCrypto _ _ _ plaintext => inl plaintext
   | AesEncrypt Forge _ _ _ plaintext => inl (Some plaintext)
   end, s).
Definition open_run : cipher_script (list (jsstring * jsval)) :=
  encryptPassword (E := jsstring) (Key := bytes) (λ _, []) id (js "correct horse battery").
Definition open_rsa (_ : bytes) (_ : option bytes) (b : bytes) : option bytes := Some b.
Definition open_aes (_ _ _ b : bytes) : option bytes := Some b.

Theorem password_sent_opens_witness :
  honest open_rsa open_aes id (trace_of cipher_answer open_environment open_run tt)
  ∧ rsa_within (trace_of cipher_answer open_environment open_run tt)
  ∧ match result_of cipher_answer open_environment open_run tt with
    | Done fields => carries open_rsa open_aes (trace_of cipher_answer open_environment open_run tt) (js "correct horse battery") fields
    | Threw e => e = login_failed (λ _, []) id
        ∧ ∃ tr u, trace_of cipher_answer open_environment open_run tt = tr ++ [happened (CacheKey None) u]
    end.
Proof.
  assert (honest open_rsa open_aes id (trace_of cipher_answer open_environment open_run tt)) as Hh.
  { vm_compute. repeat first [apply Forall_cons_2|apply Forall_nil_2|split|reflexivity|exact I]. }
  exact (conj Hh (password_sent_opens (λ _, []) id open_rsa open_aes id open_environment (js "correct horse battery") tt Hh)).
Defined.
Example password_sent : result_of cipher_answer open_environment open_run tt = Done [
  (js "password_encrypted", VString (js "v2.BwcHBwcHBwcHBwcHBwcHBwcHBwcHBwcHBwcHBwcHBwc=.BwcHBwcHBwcHBwcH.Y29ycmVjdCBob3JzZSBiYXR0ZXJ5"));
  (js "encryption_key_id", VString (js "k1"))].
Proof. vm_compute. reflexivity. Qed.
End Witness.
