(* ===== verification/VerifyApi.v ===== *)
(** * features/auth/secure-verification/api.ts, passkey/assertion.ts and passkey/api.ts

    A verification with the server: by the session, a code, a password, a
    Passkey or another provider in a popup. Each is a script over the requests,
    the clock, the signal, the storage, the authenticator and the popup; the
    attempt of the popup itself is OAuthPopup's, and lib/oauth.ts builds its URL. *)

From stdpp Require Import gmap.
From S2P Require Import Prelude JsNumber JsText Types Runtime JsRegex JsMap JsValue AuthSession ServerError Verification Script.
From S2P Require Import Passkey PasswordEncryption OAuthPopup.

(** ** A body as values of a heap

    No index of an array is read. *)

Fixpoint store (v : jsval) (h : Heap) : Heap * value :=
  match v with
  | VUndefined => (h, Undefined)
  | VNull => (h, Null)
  | VBoolean b => (h, Boolean b)
  | VNumber n => (h, Number n)
  | VString s => (h, Text s)
  | VArray _ => alloc h (mkObject [] false false false false false)
  | VObject entries =>
      let '(h, values) := (fix go (entries : list (jsstring * jsval)) h := match entries with
        | [] => (h, [])
        | (k, i) :: entries => let '(h, x) := store i h in let '(h, rest) := go entries h in (h, (k, x) :: rest)
        end) entries h in
      alloc h (mkObject values false false false false false)
  end.
(** The response of axios with a body. *)
Definition response_of (body : jsval) : Heap * value :=
  let '(h, data) := store body ∅ in alloc h (mkObject [(js "data", data)] false false false false false).

(** ** The environment *)

Inductive HttpMethod := Get | Post.
(** The body of a POST, the parameters of a GET, and the flags of the client. *)
Record Request := mkRequest {
  rq_method : HttpMethod;
  rq_url : jsstring;
  rq_fields : list (jsstring * jsval);
  rq_skip_refresh : bool;
  rq_single_use : bool
}.

(** What the authenticator answers: a credential or null; declined, with its
    NotAllowedError; another error. *)
Inductive PromptAnswer (E : Type) :=
  | Given (credential : option Assertion)
  | Declined (error : E)
  | Broken (error : E).
Arguments Given {E}.
Arguments Declined {E}.
Arguments Broken {E}.

(** What becomes of the two requests that prepare a popup: both are answered,
    the second one first or not, or the attempt fails before. *)
Inductive PrepareAnswer (E : Type) :=
  | Prepares (state status : jsval + E) (status_first : bool)
  | Interrupted (failure : Failure).
Arguments Prepares {E}.
Arguments Interrupted {E}.

Section Api.
Context {E : Type} `{ErrorSource E} {Key : Type}.
Context (native : exn → E) (t : jsstring → jsstring).
(** The text of an object and of a [TypeError], [ServerError]. *)
Context `{Members} (object_text : nat → jsstring) (type_error_message : jsstring).
(** [new URL(base)], [searchParams.set] for each parameter and [toString]; the
    origin of the page. *)
Context (url_with : jsstring → list (jsstring * jsstring) → result jsstring) (origin : jsstring).

Inductive api_call :=
  | Send (request : Request)
  | Now
  | CheckSignal                                     (* signal.throwIfAborted() *)
  | PasskeySupported
  | LoadRPID                                        (* localStorage, null when it throws *)
  | StoreRPID (id : jsstring)
  | ForgetRPID
  | Domains (rpID : jsval) (rpIDs : list jsval)     (* onDomains *)
  | PromptPasskey (publicKey : list (jsstring * cvalue))
  | Cipher (c : @cipher_call Key)
  | OpenPopup (provider : jsstring)
  | PreparePopup (state status : Request)
  | ShowPopup (authorization : Authorization)
  | AbandonPopup (failure : Failure)
  | CheckExchange                                   (* the reason of exchange.signal *)
  | FinishPopup (result : Outcome).
Definition api_answer (c : api_call) : Type :=
  match c with
  | Send _ => (jsval + E)%type
  | Now => num
  | CheckSignal => option (thrown E)
  | PasskeySupported => bool
  | LoadRPID => option jsstring
  | StoreRPID _ | ForgetRPID | Domains _ _ | AbandonPopup _ | FinishPopup _ => unit
  | PromptPasskey _ => PromptAnswer E
  | Cipher c => @cipher_answer E Key c
  | OpenPopup _ => option (thrown E)
  | PreparePopup _ _ => PrepareAnswer E
  | ShowPopup _ => (OAuthPopupCallback + Failure)%type
  | CheckExchange => option Failure
  end.

Definition api_script (A : Type) : Type := script api_answer A (X := thrown E).
Definition call (c : api_call) : api_script (api_answer c) := perform api_answer c.
Definition rejected {A} (e : thrown E) : api_script A := raise api_answer e.
Definition auth_failure {A} (message : jsstring) (code : option jsstring) : api_script A :=
  rejected (Auth (mkFailure message code)).
Definition evaluated {A} (r : result A) : api_script A :=
  match r with Ok a => mret a | Err e => rejected (Raised (native e)) end.
Definition throwIfAborted : api_script unit :=
  reason ← call CheckSignal;
  match reason with Some e => rejected e | None => mret tt end.

(** A script of [PasswordEncryption] as one of these. *)
Fixpoint ciphered {A} (p : prog (@cipher_answer E Key) A) : prog api_answer A :=
  match p with Ret a => Ret a | Call c k => Script.Call (answer := api_answer) (Cipher c) (λ x, ciphered (k x)) end.

(** [value.key], which throws on null and undefined. *)
Definition member (v : jsval) (key : jsstring) : api_script jsval :=
  if is_nullish v then rejected (Raised (native type_error)) else mret (prop v key).

(** ** Requests *)

(** [authResult] on an answer. *)
Definition auth_data (answer : jsval + E) : outcome (X := thrown E) jsval :=
  match answer with
  | inr e => Threw (Auth (convert e))
  | inl body =>
      let '(h, response) := response_of body in
      match authResult object_text type_error_message h (inl response) verification_failed with
      | (_, inl _) => Done (prop body (js "data"))
      | (h, inr e) => Threw (Auth (failure_of h e))
      end
  end.
Definition request_data (r : Request) : api_script jsval := answer ← call (Send r); of_outcome api_answer (auth_data answer).

(** ** passkey/api.ts, passkey/assertion.ts *)

Definition optional_text (key : jsstring) (value : option jsstring) : list (jsstring * jsval) :=
  match value with Some (c :: s) => [(key, VString (c :: s))] | _ => [] end.
Definition context_field (operation : VerificationOperation) : list (jsstring * jsval) :=
  if truthy (op_context operation) then [(js "context", op_context operation)] else [].

Definition beginPasskeyVerification (operation : VerificationOperation) (rpID : option jsstring) : api_script jsval :=
  request_data (mkRequest Post (js "/api/user/passkey/verify/begin")
    ((js "scope", VString (op_scope operation)) :: optional_text (js "rp_id") rpID ++ context_field operation) false false).
Definition finishPasskeyVerification (flowToken payload : jsval) : api_script jsval :=
  request_data (mkRequest Post (js "/api/user/passkey/verify/finish")
    [(js "flow_token", flowToken); (js "credential", payload)] false true).

(** A falsy id is not remembered; what localStorage throws is ignored. *)
Definition rememberPasskeyRPID (rpID : jsval) : api_script unit :=
  if truthy rpID then match to_string rpID with Ok id => call (StoreRPID id) | Err _ => mret tt end else mret tt.

Definition hint_of (stored : option jsstring) : option jsstring :=
  value ← stored; if negb (value =s []) && (length value <=? 253) then Some value else None.

Record PasskeyResult := mkPasskey { pk_flowToken : jsval; pk_assertion : jsval; pk_rpID : jsval }.

(** [selected] is the rpID that the user chose. *)
Definition passkey_options (begin_with : option jsstring → api_script jsval) (selected remembered : option jsstring)
    : api_script jsval :=
  catch api_answer (begin_with (match selected with Some id => Some id | None => remembered end))
    (λ error,
      let failure := from_thrown error in
      match selected, remembered, f_code failure with
      | (None | Some []), Some _, Some code =>
          if code =s js "PASSKEY_RP_ID_UNAVAILABLE" then
            _ ← throwIfAborted; _ ← call ForgetRPID; begin_with None
          else rejected (Auth failure)
      | _, _, _ => rejected (Auth failure)
      end).

Definition rp_id_of (publicKey : list (jsstring * cvalue)) : jsval :=
  match mget publicKey (js "rpId") with Some (CJson v) => v | _ => VUndefined end.

Definition requestPasskeyAssertion (begin_with : option jsstring → api_script jsval) (selected : option jsstring)
    : api_script PasskeyResult :=
  _ ← throwIfAborted;
  stored ← call LoadRPID;
  payload ← passkey_options begin_with selected (hint_of stored);
  _ ← throwIfAborted;
  flow_token ← member payload (js "flow_token");
  if negb (truthy flow_token) then auth_failure (js "Verification flow expired") None
  else
    publicKey ← evaluated (prepareCredentialRequestOptions (nullish_chain (prop payload (js "options")) payload));
    let rpID := rp_id_of publicKey in
    let rpIDs := match prop payload (js "rp_ids") with
                 | VArray ids => List.filter is_string ids
                 | _ => if truthy rpID then [rpID] else []
                 end in
    _ ← call (Domains rpID rpIDs);
    credential ← call (PromptPasskey publicKey);
    match credential with
    | Declined _ => auth_failure (js "Passkey verification was cancelled or timed out") None
    | Broken e => rejected (Raised e)
    | Given credential =>
        _ ← throwIfAborted;
        match buildAssertionResult credential with
        | None => auth_failure (js "Passkey verification was cancelled") None
        | Some assertion => mret (mkPasskey flow_token assertion rpID)
        end
    end.

(** ** api.ts *)

Definition withDeviceAvailability (requirements : VerificationRequirements) (passkeySupported : bool) : VerificationRequirements :=
  mkRequirements (req_scope requirements)
    (map (λ option,
       if (m_method option =s js "passkey") && m_available option && negb passkeySupported
       then mkMethod (m_method option) false (Some (js "This device does not support Passkey verification."))
       else option) (methods requirements))
    (oauth_providers requirements) (password_encryption_enabled requirements).

Definition isLoginChallenge (value : jsval) : bool :=
  match value with
  | VObject _ =>
      (match prop value (js "require_verification") with VBoolean true => true | _ => false end)
      && (match prop value (js "flow_token") with VString s => negb (s =s []) | _ => false end)
      && (match prop value (js "expires_at") with VNumber n => is_finite n | _ => false end)
      && (match prop value (js "methods") with
          | VArray options =>
              negb (bool_decide (options = []))
              && forallb (λ option, truthy option
                   && (is_text (prop option (js "method")) (js "2fa") || is_text (prop option (js "method")) (js "passkey"))
                   && (match prop option (js "available") with VBoolean _ => true | _ => false end)) options
          | _ => false
          end)
  | _ => false
  end.

(** [expires_at * 1000 <= Date.now()] *)
Definition expired (expires_at now : num) : bool := num_leb (num_mul expires_at (num_of_Z 1000)) now.
Definition login_expired {A} : api_script A :=
  auth_failure (js "Login flow expired. Please sign in again.") (Some (js "AUTH_FLOW_INVALID")).

Definition getLoginVerificationRequirements (challenge : LoginChallenge) : api_script VerificationRequirements :=
  now ← call Now;
  if expired (expires_at challenge) now then login_expired
  else
    supported ← call PasskeySupported;
    _ ← throwIfAborted;
    mret (withDeviceAvailability (mkRequirements (js "auth.login") (ch_methods challenge) [] false) supported).

Definition code_fields (code : jsstring) : list (jsstring * jsval) :=
  [(js "method", VString (js "2fa")); (js "code", VString (trim code))].

(** A bundle, or the failure of a login. *)
Definition login_bundle (result : jsval) : api_script jsval :=
  match isAuthBundle result with Some _ => mret result | None => auth_failure (js "Login failed") None end.

Definition verifyLogin (input : VerificationInput) (challenge : LoginChallenge) : api_script jsval :=
  let flow := (js "flow_token", VString (flow_token challenge)) in
  now ← call Now;
  if expired (expires_at challenge) now then login_expired
  else
    result ← match input with
             | TwoFactor code => request_data (mkRequest Post (js "/api/user/login/verify") (flow :: code_fields code) true false)
             | Passkey rpID =>
                 passkey ← requestPasskeyAssertion
                   (λ rpID, request_data (mkRequest Post (js "/api/user/login/passkey/begin")
                              (flow :: optional_text (js "rp_id") rpID) true false)) rpID;
                 result ← request_data (mkRequest Post (js "/api/user/login/passkey/finish")
                   [flow; (js "passkey_flow_token", pk_flowToken passkey); (js "credential", pk_assertion passkey)] true false);
                 _ ← throwIfAborted;
                 result ← login_bundle result;
                 _ ← rememberPasskeyRPID (pk_rpID passkey);
                 mret result
             | _ => auth_failure (js "This verification method is not allowed for this action.") None
             end;
    _ ← throwIfAborted;
    login_bundle result.

(** [proof.expires_at * 1000] against the clock; an object with a [toString] of
    its own throws. *)
Definition expiry_of (proof : jsval) : result num :=
  _ ← match prop proof (js "expires_at") with
      | (VArray _ | VObject _) as v => to_string v
      | _ => Ok []
      end;
  Ok (num_mul (to_number (prop proof (js "expires_at"))) (num_of_Z 1000)).

Definition verifyPasskey (operation : VerificationOperation) (rpID : option jsstring) : api_script jsval :=
  passkey ← requestPasskeyAssertion (beginPasskeyVerification operation) rpID;
  proof ← finishPasskeyVerification (pk_flowToken passkey) (pk_assertion passkey);
  _ ← throwIfAborted;
  token ← member proof (js "proof_token");
  if truthy token && is_text (prop proof (js "method")) (js "passkey") && is_text (prop proof (js "scope")) (op_scope operation) then
    expiry ← evaluated (expiry_of proof);
    now ← call Now;
    _ ← (if num_ltb now expiry then rememberPasskeyRPID (pk_rpID passkey) else mret tt);
    mret proof
  else mret proof.

(** *** lib/oauth.ts *)

Definition no_provider : exn := NativeError (js "No linked OAuth provider is available.").
Definition buildGitHubOAuthUrl (clientId state : jsstring) : jsstring :=
  js "https://github.com/login/oauth/authorize?client_id=" ++ clientId ++ js "&state=" ++ state ++ js "&scope=user:email".
Definition buildDiscordOAuthUrl (clientId state : jsstring) : result jsstring :=
  url_with (js "https://discord.com/oauth2/authorize")
    [(js "client_id", clientId); (js "redirect_uri", origin ++ js "/oauth/discord"); (js "response_type", js "code");
     (js "scope", js "identify+openid"); (js "state", state)].
Definition buildOIDCOAuthUrl (authUrl clientId state : jsstring) : result jsstring :=
  url_with authUrl
    [(js "client_id", clientId); (js "redirect_uri", origin ++ js "/oauth/oidc"); (js "response_type", js "code");
     (js "scope", js "openid profile email"); (js "state", state)].
Definition buildLinuxDOOAuthUrl (clientId state : jsstring) : jsstring :=
  js "https://connect.linux.do/oauth2/authorize?response_type=code&client_id=" ++ clientId ++ js "&state=" ++ state.

(** [providers?.find(...)] of what is an array, null or undefined. *)
Fixpoint find_provider (slug : jsstring) (providers : list jsval) : result (option jsval) :=
  match providers with
  | [] => Ok None
  | p :: providers =>
      if is_nullish p then Err type_error
      else if is_text (prop p (js "slug")) slug then Ok (Some p) else find_provider slug providers
  end.
Definition custom_provider (slug : jsstring) (status : jsval) : result (option jsval) :=
  match prop status (js "custom_oauth_providers") with
  | VArray providers => find_provider slug providers
  | v => if is_nullish v then Ok None else Err type_error
  end.

Definition buildOAuthAuthorizationUrl (provider state : jsstring) (status : jsval) : result jsstring :=
  let client := λ key, prop status key in
  if is_nullish status then Err type_error
  else if provider =s js "github" then
    if truthy (client (js "github_client_id"))
    then id ← to_string (client (js "github_client_id")); Ok (buildGitHubOAuthUrl id state) else Err no_provider
  else if provider =s js "discord" then
    if truthy (client (js "discord_client_id"))
    then id ← to_string (client (js "discord_client_id")); buildDiscordOAuthUrl id state else Err no_provider
  else if provider =s js "oidc" then
    if truthy (client (js "oidc_authorization_endpoint")) && truthy (client (js "oidc_client_id"))
    then url ← to_string (client (js "oidc_authorization_endpoint")); id ← to_string (client (js "oidc_client_id"));
         buildOIDCOAuthUrl url id state
    else Err no_provider
  else if provider =s js "linuxdo" then
    if truthy (client (js "linuxdo_client_id"))
    then id ← to_string (client (js "linuxdo_client_id")); Ok (buildLinuxDOOAuthUrl id state) else Err no_provider
  else
    custom ← custom_provider provider status;
    match custom with
    | None => Err no_provider
    | Some custom =>
        base ← to_string (prop custom (js "authorization_endpoint"));
        id ← to_string (prop custom (js "client_id"));
        scopes ← (if truthy (prop custom (js "scopes")) then s ← to_string (prop custom (js "scopes")); Ok [(js "scope", s)] else Ok []);
        url_with base
          ([(js "client_id", id); (js "redirect_uri", origin ++ js "/oauth/" ++ provider); (js "response_type", js "code");
            (js "state", state)] ++ scopes)
    end.

(** *** createOAuthAuthorization of ../api.ts, for a verification *)

Definition authorization_request (provider : jsstring) (operation : VerificationOperation) : Request :=
  mkRequest Post (js "/api/oauth/state")
    ([(js "provider", VString provider); (js "intent", VString (js "verify")); (js "scope", VString (op_scope operation))]
     ++ context_field operation) false false.
(** The error of a body that is no success. *)
Definition authorization_refused (body : jsval) : Failure :=
  let '(h, data) := store body ∅ in
  let message := match getServerErrorMessageKey h data with
                 | Some key => key_text key
                 | None => text_of object_text (or_val (get h data (js "message")) (Text (js "Failed to initialize OAuth")))
                 end in
  let '(h, e) := alloc h (auth_error message (get h data (js "code")) Undefined) in
  failure_of h e.
(** The state, and the URL if there is one. *)
Definition authorization_of (answer : jsval + E) : outcome (X := thrown E) (jsstring * jsval) :=
  match answer with
  | inr e => Threw (Raised e)
  | inl body =>
      let data := prop body (js "data") in
      if truthy (prop body (js "success")) then
        match data with
        | VString state => Done (state, VUndefined)
        | _ =>
            match prop data (js "flow_token") with
            | VString state => Done (state, prop data (js "authorization_url"))
            | _ => Threw (Auth (authorization_refused body))
            end
        end
      else Threw (Auth (authorization_refused body))
  end.
Definition status_request : Request := mkRequest Get (js "/api/status") [] false false.

Definition as_thrown {A} (r : result A) : outcome (X := thrown E) A :=
  match r with Ok a => Done a | Err e => Threw (Raised (native e)) end.
(** [prepare]: the first of two failures counts. *)
Definition prepared (provider : jsstring) (state status : jsval + E) (status_first : bool) : outcome (X := thrown E) Authorization :=
  match authorization_of state, auth_data status with
  | Done (state, url), Done status =>
      as_thrown (url ← (if is_nullish url then buildOAuthAuthorizationUrl provider state status else to_string url);
                 Ok (mkAuthorization state url))
  | Threw e, Threw e' => Threw (if status_first then e' else e)
  | Threw e, Done _ => Threw e
  | Done _, Threw e => Threw e
  end.

(** The callback as parameters, those that are not undefined. *)
Definition callback_fields (c : OAuthPopupCallback) : list (jsstring * jsval) :=
  List.filter (λ e, match e.2 with VUndefined => false | _ => true end)
    [(js "state", VString (cb_state c)); (js "code", cb_code c); (js "error", cb_error c);
     (js "error_description", match cb_errorDescription c with Some s => VString s | None => VUndefined end)].

(** The exchange of a callback: the popup is told how it ended. *)
Definition exchange_callback (provider : jsstring) (callback : OAuthPopupCallback) : api_script jsval :=
  catch api_answer
    (proof ← request_data (mkRequest Get (js "/api/oauth/" ++ provider) (callback_fields callback) false true);
     reason ← call CheckExchange;
     match reason with
     | Some failure => rejected (Auth failure)
     | None => _ ← call (FinishPopup (mkOutcome true None)); mret proof
     end)
    (λ error,
      reason ← call CheckExchange;
      let failure := match reason with Some failure => failure | None => from_thrown error end in
      _ ← call (FinishPopup (mkOutcome false (Some (f_message failure))));
      rejected (Auth failure)).

Definition verifyOAuth (provider : jsstring) (operation : VerificationOperation) : api_script jsval :=
  opening ← call (OpenPopup provider);
  match opening with
  | Some e => rejected e
  | None =>
      preparation ← call (PreparePopup (authorization_request provider operation) status_request);
      match preparation with
      | Interrupted failure => rejected (Auth failure)
      | Prepares state status status_first =>
          match prepared provider state status status_first with
          | Threw e => _ ← call (AbandonPopup (from_thrown e)); rejected (Auth (from_thrown e))
          | Done authorization =>
              shown ← call (ShowPopup authorization);
              match shown with
              | inr failure => rejected (Auth failure)
              | inl callback => exchange_callback provider callback
              end
          end
      end
  end.

(** *** verify *)

Definition operationFields (operation : VerificationOperation) : list (jsstring * jsval) :=
  (js "scope", VString (op_scope operation)) :: context_field operation.
Definition verify_request (fields : list (jsstring * jsval)) : Request := mkRequest Post (js "/api/verify") fields false false.
Definition method_field (input : VerificationInput) : jsstring * jsval := (js "method", VString (input_method input)).

Definition proof_by (input : VerificationInput) (operation : VerificationOperation) (passwordEncryptionEnabled : bool)
    : api_script jsval :=
  match input with
  | Session => request_data (verify_request (method_field input :: operationFields operation))
  | TwoFactor code =>
      request_data (verify_request (method_field input :: operationFields operation ++ [(js "code", VString (trim code))]))
  | Password password =>
      fields ← (if passwordEncryptionEnabled then ciphered (encryptPassword native t password)
                else mret [(js "password", VString password)]);
      _ ← throwIfAborted;
      request_data (verify_request (method_field input :: operationFields operation ++ fields))
  | Passkey rpID => verifyPasskey operation rpID
  | OAuth provider => verifyOAuth provider operation
  end.

(** The checks of the proof that was returned. *)
Definition checked_proof (input : VerificationInput) (operation : VerificationOperation) (proof : jsval) : api_script jsval :=
  let missing := auth_failure (js "Verification proof was not returned") None in
  token ← member proof (js "proof_token");
  if negb (truthy token) || negb (is_text (prop proof (js "scope")) (op_scope operation))
     || negb (is_text (prop proof (js "method")) (input_method input)) then missing
  else
    expiry ← evaluated (expiry_of proof);
    now ← call Now;
    if num_leb expiry now then missing else mret proof.

Definition verify (input : VerificationInput) (operation : VerificationOperation) (passwordEncryptionEnabled : bool)
    : api_script jsval :=
  catch api_answer
    (proof ← proof_by input operation passwordEncryptionEnabled;
     _ ← throwIfAborted;
     checked_proof input operation proof)
    (λ error, rejected (Auth (from_thrown error))).
End Api.
