(* ===== verification/VerifyApiFacts.v ===== *)
(** * Verifications with the server: theorems

    A proof that is accepted was sent by the server for this action and this
    method; a Passkey is asked for once; a popup is told once how it ended. *)

From stdpp Require Import gmap.
From S2P Require Import Prelude JsNumber JsText Types Runtime JsRegex JsMap JsValue AuthSession ServerError ServerErrorFacts Verification Script.
From S2P Require Import Passkey PasswordEncryption PasswordEncryptionFacts OAuthPopup VerifyApi.

(** ** Bodies on a heap *)

Definition undefined_value (v : jsval) : bool := match v with VUndefined => true | _ => false end.
(** What is read of a value without its properties. *)
Definition shallow (v : jsval) (x : value) : Prop :=
  truthy_value x = truthy v ∧ is_undefined x = undefined_value v ∧ is_nullish_value x = is_nullish v.

Lemma shallow_store v h : shallow v (store v h).2.
Proof. destruct v as [| | b|n|s|items|entries]; try done. cbn [store]. by destruct (_ entries h). Qed.

Lemma get_alloc h o key : get (alloc h o).1 (alloc h o).2 key = field o key.
Proof. unfold get, record_of, alloc. cbn [fst snd]. by rewrite lookup_insert_eq. Qed.

Lemma store_field v h key : shallow (prop v key) (get (store v h).1 (store v h).2 key).
Proof.
  destruct v as [| | b|n|s|items|entries]; try done.
  - cbn [store]. by rewrite get_alloc.
  - cbn [store prop]. destruct ((fix go (entries : list (jsstring * jsval)) (h : Heap) := match entries with
        | [] => (h, [])
        | (k, i) :: entries => let '(h, x) := store i h in let '(h, rest) := go entries h in (h, (k, x) :: rest)
        end) entries h) as [h1 values] eqn:Hg.
    rewrite get_alloc. unfold field. cbn [fields]. revert h h1 values Hg.
    induction entries as [|[k v] entries IH]; intros h h1 values Hg; [by injection Hg as <- <-|].
    pose proof (shallow_store v h) as Hx. destruct (store v h) as [h2 x].
    destruct ((fix go (entries : list (jsstring * jsval)) (h : Heap) := match entries with
        | [] => (h, [])
        | (k, i) :: entries => let '(h, x) := store i h in let '(h, rest) := go entries h in (h, (k, x) :: rest)
        end) entries h2) as [h3 rest] eqn:Hr. injection Hg as <- <-. cbn [own]. destruct (k =s key); [exact Hx|].
    exact (IH _ _ _ Hr).
Qed.

(** A property of a value that was there before something is allocated. *)
Lemma get_alloc_old h o l key : is_some (h !! l) = true → get (alloc h o).1 (Object l) key = get h (Object l) key.
Proof.
  intros Hl. unfold get, record_of, alloc. cbn [fst]. rewrite lookup_insert_ne; [done|]. intros Hf.
  assert (fresh (dom h) ∉ dom h) as Hn by apply is_fresh. rewrite Hf in Hn. apply not_elem_of_dom in Hn. by rewrite Hn in Hl.
Qed.

(** ** Answers *)

Section Answers.
Context {E : Type} `{ErrorSource E} `{Members} (object_text : nat → jsstring) (type_error_message : jsstring).

Lemma store_valid v h l : (store v h).2 = Object l → is_some ((store v h).1 !! l) = true.
Proof.
  destruct v as [| | b|n|s|items|entries]; try done; cbn [store].
  - intros [= <-]. cbn [alloc fst]. by rewrite lookup_insert_eq.
  - destruct ((fix go (entries : list (jsstring * jsval)) (h : Heap) := match entries with
        | [] => (h, [])
        | (k, i) :: entries => let '(h, x) := store i h in let '(h, rest) := go entries h in (h, (k, x) :: rest)
        end) entries h) as [h1 values]. intros [= <-]. cbn [alloc fst]. by rewrite lookup_insert_eq.
Qed.

(** The body as [authResult] sees it. *)
Lemma response_body body :
  shallow body (get (response_of body).1 (response_of body).2 (js "data"))
  ∧ ∀ key, shallow (prop body key) (get (response_of body).1 (get (response_of body).1 (response_of body).2 (js "data")) key).
Proof.
  unfold response_of. pose proof (shallow_store body ∅) as Hs. pose proof (λ key, store_field body ∅ key) as Hf.
  pose proof (store_valid body ∅) as Hv. destruct (store body ∅) as [h data]. cbn [fst snd] in Hs, Hf, Hv.
  rewrite get_alloc. change (field _ (js "data")) with data. split; [exact Hs|]. intros key.
  destruct data as [| |b|n|s|l]; try exact (Hf key). rewrite get_alloc_old by by apply Hv. exact (Hf key).
Qed.

Lemma auth_data_done answer data : auth_data object_text type_error_message answer = Done data →
  ∃ body, answer = inl body ∧ truthy (prop body (js "success")) = true ∧ prop body (js "data") = data ∧ data ≠ VUndefined.
Proof.
  destruct answer as [body|e]; [|done]. unfold auth_data. destruct (response_body body) as [_ Hf].
  destruct (response_of body) as [h response]. cbn [fst snd] in Hf. unfold authResult, auth_outcome.
  destruct (is_nullish_value _) eqn:Hn; cbn [alloc]; [by repeat case_match|].
  destruct (negb _ || is_undefined _) eqn:Hs; [by cbn [alloc]; repeat case_match|].
  apply orb_false_iff in Hs as [Hs%negb_false_iff Hu]. intros [= Hd]. exists body.
  destruct (Hf (js "success")) as (Ht & _ & _). destruct (Hf (js "data")) as (_ & Hu' & _).
  rewrite Ht in Hs. rewrite Hu in Hu'. split_and!; [done..|]. intros ->. by rewrite Hd in Hu'.
Qed.
Lemma auth_data_threw answer e : auth_data object_text type_error_message answer = Threw e → ∃ f, e = Auth f.
Proof.
  destruct answer as [body|x]; cbn [auth_data]; [|intros [= <-]; by eexists].
  destruct (response_of body) as [h response]. destruct (authResult _ _ _ _ _) as [h' [d|v]]; [done|]. intros [= <-]. by eexists.
Qed.
End Answers.

(** ** The steps of a script *)

Abbreviation api_event E Key := (event (@api_answer E Key)).

Section Steps.
Context {E : Type} `{ErrorSource E} {Key : Type} (native : exn → E) `{Members} (object_text : nat → jsstring) (type_error_message : jsstring).

Lemma meets_call {A} c (f : api_answer c → @api_script E Key A) P :
  (∀ x, meets (f x) (λ tr o, P (happened c x :: tr) o)) → meets (call c ≫= f) P.
Proof. done. Qed.
Lemma meets_value {A} (a : A) (P : list (api_event E Key) → outcome A → Prop) :
  P [] (Done a) → meets (mret a : @api_script E Key A) P.
Proof. done. Qed.
Lemma meets_mret_bind {A B} (a : A) (f : A → @api_script E Key B) P : meets (f a) P → meets ((mret a : @api_script E Key A) ≫= f) P.
Proof. done. Qed.
Lemma meets_rejected {A} e (P : list (api_event E Key) → outcome A → Prop) :
  P [] (Threw e) → meets (rejected e : @api_script E Key A) P.
Proof. done. Qed.
Lemma meets_evaluated {A B} (r : result A) (f : A → @api_script E Key B) P :
  (∀ a, r = Ok a → meets (f a) P) → (∀ e, r = Err e → P [] (Threw (Raised (native e)))) → meets (evaluated native r ≫= f) P.
Proof. destruct r as [a|e]; intros Ha He; [by apply Ha|by apply He]. Qed.
Lemma meets_member {A} v key (f : jsval → @api_script E Key A) P :
  (is_nullish v = false → meets (f (prop v key)) P) → P [] (Threw (Raised (native type_error))) → meets (member native v key ≫= f) P.
Proof. unfold member. destruct (is_nullish v); intros Hv He; [exact He|by apply Hv]. Qed.
Lemma meets_throwIfAborted {A} (f : unit → @api_script E Key A) P :
  meets (f tt) (λ tr o, P (happened CheckSignal None :: tr) o) → (∀ e, P [happened CheckSignal (Some e)] (Threw e)) →
  meets (throwIfAborted ≫= f) P.
Proof. intros Hf He [e|]; [apply He|exact Hf]. Qed.
(** A body that is a success. *)
Definition success (body : jsval) : Prop := truthy (prop body (js "success")) = true ∧ prop body (js "data") ≠ VUndefined.
Lemma meets_request_last r (P : list (api_event E Key) → outcome jsval → Prop) :
  (∀ body, success body → P [happened (Send r) (inl body)] (Done (prop body (js "data")))) →
  (∀ x failure, auth_data object_text type_error_message x = Threw (Auth failure) → P [happened (Send r) x] (Threw (Auth failure))) →
  meets (request_data object_text type_error_message r : @api_script E Key jsval) P.
Proof.
  intros Hd He x. specialize (He x). cbn.
  destruct (auth_data object_text type_error_message x) as [d|e] eqn:Hx.
  - apply auth_data_done in Hx as (body & -> & Hs & <- & Hu). by apply Hd.
  - destruct (auth_data_threw _ _ _ _ Hx) as [f ->]. by apply He.
Qed.
Lemma meets_request {A} r (f : jsval → @api_script E Key A) P :
  (∀ body, success body → meets (f (prop body (js "data"))) (λ tr o, P (happened (Send r) (inl body) :: tr) o)) →
  (∀ x failure, auth_data object_text type_error_message x = Threw (Auth failure) → P [happened (Send r) x] (Threw (Auth failure))) →
  meets (request_data object_text type_error_message r ≫= f) P.
Proof. intros Hd He. apply meets_after, meets_request_last; [exact Hd|exact He]. Qed.
Lemma meets_script {A B} (p : @api_script E Key A) (f : A → @api_script E Key B) P :
  meets p (λ tr o, match o with Done a => meets (f a) (λ u b, P (tr ++ u) b) | Threw e => P tr (Threw e) end) → meets (p ≫= f) P.
Proof. apply meets_after. Qed.
End Steps.

Ltac api_step :=
  lazymatch goal with
  | |- meets (call _ ≫= _) _ => refine (meets_call _ _ _ _); intros ?
  | |- meets (throwIfAborted ≫= _) _ => refine (meets_throwIfAborted _ _ _ _); [|intros ?]
  | |- meets (request_data _ _ _ ≫= _) _ => refine (meets_request _ _ _ _ _ _ _); [intros ? ?|intros ? ? ?]
  | |- meets (request_data _ _ _) _ => refine (meets_request_last _ _ _ _ _ _); [intros ? ?|intros ? ? ?]
  | |- meets (passkey_options _ _ _ ≫= _) _ =>
      refine (meets_script _ _ _ _); unfold passkey_options; refine (meets_catch _ _ _ _ _)
  | |- meets (catch _ _ _) _ => refine (meets_catch _ _ _ _ _)
  | |- meets (let _ := _ in _) _ => cbv zeta
  | |- meets ((if ?x then _ else _) ≫= _) _ => destruct x eqn:?
  | |- meets (rememberPasskeyRPID _ ≫= _) _ => unfold rememberPasskeyRPID
  | |- meets ((match ?x with _ => _ end) ≫= _) _ => destruct x eqn:?
  | |- meets (member _ _ _ ≫= _) _ => refine (meets_member _ _ _ _ _ _ _); [intros ?|]
  | |- meets (evaluated _ _ ≫= _) _ => refine (meets_evaluated _ _ _ _ _ _); intros ? ?
  | |- meets (mret _ ≫= _) _ => refine (meets_mret_bind _ _ _ _)
  | |- meets (mret _) _ => refine (meets_value _ _ _)
  | |- meets (rejected _) _ => refine (meets_rejected _ _ _)
  | |- meets (auth_failure _ _) _ => refine (meets_rejected _ _ _)
  | |- meets (auth_failure _ _ ≫= _) _ => refine (meets_rejected _ _ _)
  | |- meets ((_ ≫= _) ≫= _) _ => refine (meets_script _ _ _ _)
  | |- meets (match ?x with _ => _ end) _ => destruct x eqn:?
  | |- _ => progress cbv beta
  end.

(** ** The protocol of a Passkey *)

Section Passkeys.
Context {E : Type} `{ErrorSource E} {Key : Type} (native : exn → E) `{Members} (object_text : nat → jsstring) (type_error_message : jsstring).

Definition is_prompt (e : api_event E Key) : bool := let 'existT c _ := e in match c with PromptPasskey _ => true | _ => false end.
Definition is_send (e : api_event E Key) : bool := let 'existT c _ := e in match c with Send _ => true | _ => false end.
Definition sent (tr : list (api_event E Key)) (r : Request) (body : jsval) : Prop := happened (Send r) (inl body) ∈ tr ∧ success body.

(** A second request of options: the user chose no domain, the stored one is
    not available here, and it is forgotten first. *)
Definition stale_hint (selected : option jsstring) (tr : list (api_event E Key)) : Prop :=
  default [] selected = [] ∧ (∃ stored hint, happened LoadRPID stored ∈ tr ∧ hint_of stored = Some hint)
  ∧ (∃ u, happened ForgetRPID u ∈ tr)
  ∧ ∃ r x failure, happened (Send r) x ∈ tr ∧ auth_data object_text type_error_message x = Threw (Auth failure)
      ∧ f_code failure = Some (js "PASSKEY_RP_ID_UNAVAILABLE").

(** An assertion by the credential that was given for the options of the
    server. *)
Definition genuine (begin_with : option jsstring → Request) (tr : list (api_event E Key)) (pk : PasskeyResult) : Prop :=
  ∃ id body publicKey credential, sent tr (begin_with id) body
    ∧ prepareCredentialRequestOptions (nullish_chain (prop (prop body (js "data")) (js "options")) (prop body (js "data"))) = Ok publicKey
    ∧ happened (PromptPasskey publicKey) (Given (Some credential)) ∈ tr
    ∧ pk_flowToken pk = prop (prop body (js "data")) (js "flow_token") ∧ truthy (pk_flowToken pk) = true
    ∧ buildAssertionResult (Some credential) = Some (pk_assertion pk) ∧ pk_rpID pk = rp_id_of publicKey.

Definition assertion_event (begin_with : option jsstring → Request) (e : api_event E Key) : Prop :=
  let 'existT c _ := e in
  match c with Send r => ∃ id, r = begin_with id | StoreRPID _ => False | _ => True end.
Definition asserts (begin_with : option jsstring → Request) (selected : option jsstring)
    (tr : list (api_event E Key)) (o : @outcome (thrown E) PasskeyResult) : Prop :=
  count is_prompt tr ≤ 1 ∧ count is_send tr ≤ 2 ∧ (count is_send tr = 2 → stale_hint selected tr)
  ∧ Forall (assertion_event begin_with) tr
  ∧ match o with Done pk => genuine begin_with tr pk | Threw _ => True end.

#[local] Ltac in_trace := repeat (first [apply list_elem_of_here|apply list_elem_of_further]).

#[local] Ltac assertion_leaf :=
  cbn [app]; split_and!;
    [cbn; lia|cbn; lia|cbn; try (intros; lia)
    |repeat (apply Forall_cons_2; [first [exact I|by eexists]|]); apply Forall_nil_2|try exact I].

Lemma assertion_asserts begin_with selected :
  meets (requestPasskeyAssertion (Key := Key) native (λ id, request_data object_text type_error_message (begin_with id)) selected)
    (asserts begin_with selected).
Proof.
  unfold requestPasskeyAssertion. repeat api_step; assertion_leaf.
  all: try (match goal with |- stale_hint _ _ => idtac | |- _ = _ → _ => intros _ end;
    match goal with Hc : (_ =s _) = true |- _ => apply str_eqb_eq in Hc; subst end;
    split_and!; [reflexivity|do 2 eexists; split; [in_trace|eassumption]|eexists; in_trace
                |do 3 eexists; split_and!; [in_trace|eassumption|assumption]]).
  all: match goal with Hb : buildAssertionResult ?c = Some _ |- _ => destruct c; [|done] end.
  all: match goal with Hb : negb _ = false |- _ => apply negb_false_iff in Hb end.
  all: do 4 eexists; split_and!; [split; [in_trace|done]|eassumption|in_trace|done..].
Qed.

(** *** verifyPasskey *)

Definition begin_request (operation : VerificationOperation) (rpID : option jsstring) : Request :=
  mkRequest Post (js "/api/user/passkey/verify/begin")
    ((js "scope", VString (op_scope operation)) :: optional_text (js "rp_id") rpID ++ context_field operation) false false.
Definition finish_request (pk : PasskeyResult) : Request :=
  mkRequest Post (js "/api/user/passkey/verify/finish")
    [(js "flow_token", pk_flowToken pk); (js "credential", pk_assertion pk)] false true.

(** A proof for the operation, by a Passkey, that has not expired. *)
Definition accepted (operation : VerificationOperation) (proof : jsval) : Prop :=
  truthy (prop proof (js "proof_token")) = true ∧ is_text (prop proof (js "method")) (js "passkey") = true
  ∧ is_text (prop proof (js "scope")) (op_scope operation) = true
  ∧ ∃ expiry now, expiry_of proof = Ok expiry ∧ num_ltb now expiry = true.

Definition finish_event (operation : VerificationOperation) (pk : PasskeyResult) (o : @outcome (thrown E) jsval)
    (e : api_event E Key) : Prop :=
  let 'existT c _ := e in
  match c with
  | Send r => r = finish_request pk
  | StoreRPID id => to_string (pk_rpID pk) = Ok id ∧ ∃ proof, o = Done proof ∧ accepted operation proof
  | PromptPasskey _ => False
  | _ => True
  end.

(** An assertion, and its one presentation to the server. *)
Definition presents (operation : VerificationOperation) (pk : PasskeyResult) (tr : list (api_event E Key))
    (o : @outcome (thrown E) jsval) : Prop :=
  count is_send tr = 1 ∧ Forall (finish_event operation pk o) tr
  ∧ match o with Done proof => ∃ body, sent tr (finish_request pk) body ∧ prop body (js "data") = proof | Threw _ => True end.
Definition passkey_protocol (operation : VerificationOperation) (selected : option jsstring)
    (tr : list (api_event E Key)) (o : @outcome (thrown E) jsval) : Prop :=
  ∃ asked presented attempt, tr = asked ++ presented ∧ asserts (begin_request operation) selected asked attempt
    ∧ match attempt with
      | Threw e => presented = [] ∧ o = Threw e
      | Done pk => presents operation pk presented o
      end.

Lemma passkey_verifies operation selected :
  meets (verifyPasskey (Key := Key) native object_text type_error_message operation selected) (passkey_protocol operation selected).
Proof.
  unfold verifyPasskey, finishPasskeyVerification. refine (meets_script _ _ _ _).
  refine (meets_mono _ _ _ _ (assertion_asserts (begin_request operation) selected) _).
  intros asked [pk|e] Ha; [|exists asked, [], (Threw e); by rewrite app_nil_r].
  refine (meets_mono _ _ (presents operation pk) _ _ _); [|intros presented o Hp; by exists asked, presented, (Done pk)].
  repeat api_step.
  all: split_and!; [reflexivity| |first [exact I|eexists; split; [split; [in_trace|assumption]|reflexivity]]].
  all: repeat (apply Forall_cons_2; [first [exact I|reflexivity|idtac]|]); try apply Forall_nil_2.
  split; [assumption|]. eexists. split; [reflexivity|].
  repeat match goal with Hb : _ && _ = true |- _ => apply andb_true_iff in Hb as [? ?] end. split_and!; [assumption..|].
  by do 2 eexists.
Qed.

(** C23. A verification by a Passkey, whatever the server, the browser and the
    storage answer: the authenticator is asked at most once; options are
    requested at most twice, the second time only after a stored domain, that
    the user did not choose, was refused as unavailable and forgotten; what is
    presented is presented once, and is the assertion of the credential given
    for the server's options with their flow token; and a domain is remembered
    only when the server's answer is an unexpired proof for this action by a
    Passkey. *)
Theorem passkey_asked_once {S} (environment : ∀ c, S → @api_answer E Key c * S) operation selected s :
  passkey_protocol operation selected
    (trace_of api_answer environment (verifyPasskey native object_text type_error_message operation selected) s)
    (result_of api_answer environment (verifyPasskey native object_text type_error_message operation selected) s).
Proof. exact (meets_run _ environment _ s _ (passkey_verifies operation selected)). Qed.
End Passkeys.

(** ** The popup of another provider *)

Section Popups.
Context {E : Type} `{ErrorSource E} {Key : Type} (native : exn → E) `{Members} (object_text : nat → jsstring) (type_error_message : jsstring).
Context (url_with : jsstring → list (jsstring * jsstring) → result jsstring) (origin : jsstring).

Definition is_finish (e : api_event E Key) : bool := let 'existT c _ := e in match c with FinishPopup _ => true | _ => false end.
Definition exchange_request (provider : jsstring) (callback : OAuthPopupCallback) : Request :=
  mkRequest Get (js "/api/oauth/" ++ provider) (callback_fields callback) false true.

(** The last call tells the popup the result. *)
Definition told (callback : OAuthPopupCallback) (provider : jsstring) (tr : list (api_event E Key))
    (o : @outcome (thrown E) jsval) : Prop :=
  ∃ (before : list (api_event E Key)) u result, tr = before ++ [happened (answer := @api_answer E Key) (FinishPopup result) u] ∧ count is_finish before = 0 ∧ count is_send before = 1
    ∧ match o with
      | Done proof => result = mkOutcome true None ∧ happened CheckExchange None ∈ before
          ∧ ∃ body, sent before (exchange_request provider callback) body ∧ prop body (js "data") = proof
      | Threw e => ∃ failure, e = Auth failure ∧ result = mkOutcome false (Some (f_message failure))
      end.
Lemma told_intro callback provider before result u o :
  count is_finish before = 0 → count is_send before = 1 →
  match o with
  | Done proof => result = mkOutcome true None ∧ happened CheckExchange None ∈ before
      ∧ ∃ body, sent before (exchange_request provider callback) body ∧ prop body (js "data") = proof
  | Threw e => ∃ failure, e = Auth failure ∧ result = mkOutcome false (Some (f_message failure))
  end → told callback provider (before ++ [happened (answer := @api_answer E Key) (FinishPopup result) u]) o.
Proof. intros Hf Hs Ho. by exists before, u, result. Qed.

#[local] Ltac in_trace := repeat (first [apply list_elem_of_here|apply list_elem_of_further]).

Lemma exchange_told provider callback :
  meets (exchange_callback (Key := Key) object_text type_error_message provider callback) (told callback provider).
Proof.
  unfold exchange_callback. repeat api_step;
    (first [refine (told_intro _ _ [_; _; _] _ _ _ _ _ _)|refine (told_intro _ _ [_; _] _ _ _ _ _ _)]; [reflexivity|reflexivity|]);
    try by eexists.
  split_and!; [reflexivity|in_trace|]. eexists. split; [split; [in_trace|assumption]|reflexivity].
Qed.

(** Neither the server's decision is asked nor the popup told a result. *)
Definition quiet (e : api_event E Key) : Prop :=
  let 'existT c x := e in
  match c as c return @api_answer E Key c → Prop with
  | Send _ | FinishPopup _ => λ _, False
  | ShowPopup _ => λ x, match x with inl _ => False | inr _ => True end
  | _ => λ _, True
  end x.
(** A failing preparation is the failure of the verification, and closes the
    popup. *)
Definition closes (provider : jsstring) (tr : list (api_event E Key)) (o : @outcome (thrown E) jsval) (e : api_event E Key) : Prop :=
  let 'existT c x := e in
  match c as c return @api_answer E Key c → Prop with
  | PreparePopup _ _ => λ x,
      match x with
      | Prepares state status status_first => ∀ error,
          prepared native object_text type_error_message url_with origin provider state status status_first = Threw error →
          o = Threw (Auth (from_thrown error))
          ∧ ∃ u, happened (answer := @api_answer E Key) (AbandonPopup (from_thrown error)) u ∈ tr
      | Interrupted failure => o = Threw (Auth failure)
      end
  | _ => λ _, True
  end x.
Definition popup_protocol (provider : jsstring) (tr : list (api_event E Key)) (o : @outcome (thrown E) jsval) : Prop :=
  (∃ opening authorization callback exchange,
     tr = opening ++ happened (answer := @api_answer E Key) (ShowPopup authorization) (inl callback) :: exchange
     ∧ Forall quiet opening ∧ told callback provider exchange o)
  ∨ (Forall quiet tr ∧ Forall (closes provider tr o) tr ∧ ∃ e, o = Threw e).

Lemma popup_verifies provider operation :
  meets (verifyOAuth (Key := Key) native object_text type_error_message url_with origin provider operation)
    (popup_protocol provider).
Proof.
  unfold verifyOAuth. repeat api_step;
    try (right; split_and!; [repeat (apply Forall_cons_2; [exact I|]); apply Forall_nil_2| |by eexists]).
  2: { refine (meets_mono _ _ _ _ (exchange_told _ _) _). intros exchange o' Ho. left.
       eexists [_; _], a, o, exchange. split_and!; [reflexivity|repeat (apply Forall_cons_2; [exact I|]); apply Forall_nil_2|done]. }
  all: repeat (apply Forall_cons_2; [first [exact I|reflexivity|intros error Herr; rewrite Heqo in Herr; simplify_eq]|]); try apply Forall_nil_2.
  split; [done|]. eexists. in_trace.
Qed.

(** A verification by another provider, whatever the two windows, the
    provider and the server do: once a callback has reached the opener its code
    is exchanged once, and the very last thing that happens is that the popup is
    told the result, which is a success exactly when the verification gives the
    server's answer with the exchange not aborted, and the message of its error
    otherwise; without a callback nothing is exchanged or told, the verification
    fails, and a failing preparation closes the popup. *)
Theorem popup_told_once {S} (environment : ∀ c, S → @api_answer E Key c * S) provider operation s :
  popup_protocol provider
    (trace_of api_answer environment (verifyOAuth native object_text type_error_message url_with origin provider operation) s)
    (result_of api_answer environment (verifyOAuth native object_text type_error_message url_with origin provider operation) s).
Proof. exact (meets_run _ environment _ s _ (popup_verifies provider operation)). Qed.
End Popups.

(** ** Every method *)

Section Verifications.
Context {E : Type} `{ErrorSource E} {Key : Type} (native : exn → E) (t : jsstring → jsstring).
Context `{Members} (object_text : nat → jsstring) (type_error_message : jsstring).
Context (url_with : jsstring → list (jsstring * jsstring) → result jsstring) (origin : jsstring).

(** The request that a method has its proof from. *)
Definition proof_request (input : VerificationInput) (operation : VerificationOperation) (r : Request) : Prop :=
  match input with
  | Session | TwoFactor _ | Password _ =>
      ∃ fields, r = verify_request (method_field input :: operationFields operation ++ fields)
  | Passkey _ => ∃ pk, r = finish_request pk
  | OAuth provider => ∃ callback, r = exchange_request provider callback
  end.
Definition proven (input : VerificationInput) (operation : VerificationOperation) (tr : list (api_event E Key)) (proof : jsval) : Prop :=
  ∃ r body, proof_request input operation r ∧ sent tr r body ∧ prop body (js "data") = proof.

Lemma proven_app input operation tr tr' proof :
  proven input operation tr proof ∨ proven input operation tr' proof → proven input operation (tr ++ tr') proof.
Proof.
  intros [(r & body & Hr & [Hs Hb] & Hp)|(r & body & Hr & [Hs Hb] & Hp)]; exists r, body;
    (split; [exact Hr|split; [split; [apply elem_of_app|exact Hb]|exact Hp]]); [by left|by right].
Qed.

#[local] Ltac in_trace := repeat (first [apply list_elem_of_here|apply list_elem_of_further]).

Definition proof_given (input : VerificationInput) (operation : VerificationOperation) (tr : list (api_event E Key))
    (o : @outcome (thrown E) jsval) : Prop := match o with Done proof => proven input operation tr proof | Threw _ => True end.

Lemma proof_by_given input operation pe :
  meets (proof_by (Key := Key) native t object_text type_error_message url_with origin input operation pe)
    (proof_given input operation).
Proof.
  destruct input as [code|password|rpID|provider|]; cbn [proof_by].
  - repeat api_step; [|exact I]. eexists _, body. split_and!; [by eexists|split; [in_trace|assumption]|reflexivity].
  - refine (meets_script _ _ _ _). apply meets_any. intros tr [fields|e]; [|exact I]. repeat api_step; try exact I.
    cbn [proof_given]. apply proven_app. right. eexists _, body. split_and!; [by eexists|split; [in_trace|assumption]|reflexivity].
  - refine (meets_mono _ _ _ _ (passkey_verifies _ _ _ operation rpID) _).
    intros tr [proof|e] (asked & presented & [pk|e'] & -> & _ & Hp); try done; [|by destruct Hp].
    destruct Hp as (_ & _ & body & Hs & Hd). apply proven_app. right. exists (finish_request pk), body. by split_and!; [eexists| |].
  - refine (meets_mono _ _ _ _ (popup_verifies _ _ _ _ _ provider operation) _).
    intros tr [proof|e] [(opening & a & callback & exchange & -> & _ & Ht)|(_ & _ & e' & He)]; try done.
    destruct Ht as (before & u & result & -> & _ & _ & _ & _ & body & [Hs Hb] & Hd).
    apply proven_app. right. exists (exchange_request provider callback), body.
    split_and!; [by eexists|split; [|done]|done]. apply list_elem_of_further, elem_of_app. by left.
  - repeat api_step; [|exact I]. eexists _, body. split_and!; [exists []; by rewrite app_nil_r|split; [in_trace|assumption]|reflexivity].
Qed.

(** What is accepted: the proof is for this action and by this method, was the
    server's answer to a request for it, and the last thing done was to look at
    the clock, which was not at or after its expiry; an expiry that is no number
    is never at or before a time. *)
Definition accepts_proof (input : VerificationInput) (operation : VerificationOperation) (tr : list (api_event E Key))
    (o : @outcome (thrown E) jsval) : Prop :=
  match o with
  | Done proof =>
      truthy (prop proof (js "proof_token")) = true ∧ is_text (prop proof (js "scope")) (op_scope operation) = true
      ∧ is_text (prop proof (js "method")) (input_method input) = true
      ∧ ∃ before now expiry, tr = before ++ [happened CheckSignal None; happened Now now]
          ∧ proven input operation before proof ∧ expiry_of proof = Ok expiry ∧ num_leb expiry now = false
  | Threw e => ∃ failure, e = Auth failure
  end.

Lemma verify_accepts input operation pe :
  meets (verify (Key := Key) native t object_text type_error_message url_with origin input operation pe)
    (accepts_proof input operation).
Proof.
  unfold verify. refine (meets_catch _ _ _ _ _). refine (meets_script _ _ _ _).
  refine (meets_mono _ _ _ _ (proof_by_given input operation pe) _). intros tr [proof|e] Hp; [|by eexists].
  unfold checked_proof. repeat api_step; try (cbn [accepts_proof]; by eexists).
  repeat match goal with Hb : _ || _ = false |- _ => apply orb_false_iff in Hb as [? ?] end.
  cbn [accepts_proof]. split_and!; [by apply negb_false_iff..|]. by do 3 eexists.
Qed.

(** C22. A verification that succeeds, by any method and whatever the network,
    the windows, the authenticator and the clock do, gives what the server
    answered to the request of that method for that action: a proof with a
    token, for the scope asked for and by the method used, after a check that the
    caller had not cancelled, and not expired by a look at the clock as the last
    step. That look refuses only an [expires_at] that it can compare: a proof
    whose [expires_at] is not a number passes ([no_expiry_accepted]). A
    verification that fails throws an [AuthOperationError], never anything else. *)
Theorem proof_is_checked {S} (environment : ∀ c, S → @api_answer E Key c * S) input operation pe s :
  accepts_proof input operation
    (trace_of api_answer environment (verify native t object_text type_error_message url_with origin input operation pe) s)
    (result_of api_answer environment (verify native t object_text type_error_message url_with origin input operation pe) s).
Proof. exact (meets_run _ environment _ s _ (verify_accepts input operation pe)). Qed.

End Verifications.

(** ** The second step of a login *)

Section Logins.
Context {E : Type} `{ErrorSource E} {Key : Type} (native : exn → E) `{Members} (object_text : nat → jsstring) (type_error_message : jsstring).

Definition login_event (challenge : LoginChallenge) (e : api_event E Key) : Prop :=
  let 'existT c _ := e in
  match c with
  | Send r => own (rq_fields r) (js "flow_token") = Some (VString (flow_token challenge)) ∧ rq_skip_refresh r = true
  | _ => True
  end.
Definition logs_in (input : VerificationInput) (challenge : LoginChallenge) (tr : list (api_event E Key))
    (o : @outcome (thrown E) jsval) : Prop :=
  ∃ now rest, tr = happened (answer := @api_answer E Key) Now now :: rest ∧ Forall (login_event challenge) rest
    ∧ count is_prompt rest ≤ 1
    ∧ (expired (expires_at challenge) now = true → rest = [] ∧ ∃ failure, o = Threw (Auth failure))
    ∧ match o with
      | Done bundle => is_some (isAuthBundle bundle) = true
          ∧ match input with TwoFactor _ | Passkey _ => True | _ => False end
          ∧ ∃ r body, sent rest r body ∧ prop body (js "data") = bundle
      | Threw _ => True
      end.

Definition login_begin (challenge : LoginChallenge) (rpID : option jsstring) : Request :=
  mkRequest Post (js "/api/user/login/passkey/begin")
    ((js "flow_token", VString (flow_token challenge)) :: optional_text (js "rp_id") rpID) true false.

#[local] Ltac in_trace := repeat (first [apply list_elem_of_here|apply list_elem_of_further]).

Lemma login_logs_in input challenge :
  meets (verifyLogin (Key := Key) native object_text type_error_message input challenge) (logs_in input challenge).
Proof.
  assert (∀ x rest o, Forall (login_event challenge) rest → count is_prompt rest ≤ 1 → expired (expires_at challenge) x = false →
    match o with
    | Done bundle => is_some (isAuthBundle bundle) = true ∧ match input with TwoFactor _ | Passkey _ => True | _ => False end
        ∧ ∃ r body, sent rest r body ∧ prop body (js "data") = bundle
    | Threw _ => True end → logs_in input challenge (happened Now x :: rest) o) as Hintro.
  { intros x rest o He Hc Hx Ho. exists x, rest. by rewrite Hx. }
  unfold verifyLogin, login_expired, login_bundle. cbv zeta. repeat api_step.
  1: { exists x, []. split_and!; [reflexivity|apply Forall_nil_2|cbn; lia|intros _; split; [done|by eexists]|exact I]. }
  6: { refine (meets_script _ _ _ _). refine (meets_mono _ _ _ _ (assertion_asserts _ _ _ (login_begin challenge) rpID) _).
    intros asked r (Hp & _ & _ & He & _). assert (Forall (login_event challenge) asked) as Hev.
    { eapply Forall_impl; [exact He|]. intros [c y]. destruct c; try done. cbn. intros [id ->]. by split. }
    destruct r as [pk|e]; [|by apply Hintro]. repeat api_step.
    all: (apply Hintro; [|rewrite ?count_app; cbn in *; lia|assumption|]).
    all: try match goal with |- Forall _ _ => rewrite <- ?app_assoc; apply Forall_app; split; [exact Hev|];
      repeat (apply Forall_cons_2; [first [exact I|by split]|]); apply Forall_nil_2 end.
    all: try exact I.
    all: split_and!; [by match goal with Hb : isAuthBundle _ = Some _ |- _ => rewrite Hb end|exact I|].
    all: eexists _, body; split; [split; [|assumption]|reflexivity].
    all: rewrite <- app_assoc; apply elem_of_app; right; in_trace. }
  all: apply Hintro; [repeat (apply Forall_cons_2; [first [exact I|by split]|]); apply Forall_nil_2|cbn; lia|assumption|try exact I].
  split_and!; [by match goal with Hb : isAuthBundle _ = Some _ |- _ => rewrite Hb end|exact I|].
  eexists _, body. split; [split; [in_trace|assumption]|reflexivity].
Qed.

(** C24. A second step of a login, whatever the server, the browser and the clock
    do: the clock is read once, first, and if the challenge has expired by then
    nothing is sent and the step fails (an expiry that passes later, while the
    authenticator is asked, is left to the server); every request carries the
    flow token of the challenge and is sent without a refresh of the session; the
    authenticator is asked at most once; only a code or a Passkey gets in; and
    what is returned is a well-formed bundle that the server answered. *)
Theorem login_is_checked {S} (environment : ∀ c, S → @api_answer E Key c * S) input challenge s :
  logs_in input challenge
    (trace_of api_answer environment (verifyLogin native object_text type_error_message input challenge) s)
    (result_of api_answer environment (verifyLogin native object_text type_error_message input challenge) s).
Proof. exact (meets_run _ environment _ s _ (login_logs_in input challenge)). Qed.
End Logins.

(** ** Runs *)

Section Examples.
#[local] Existing Instance ServerErrorFacts.example_members.
#[local] Instance text_failures : ErrorSource jsstring := λ e, mkFailure e None.

(** A server that gives [proof] at the time [now], to a session that is not
    cancelled. *)
Definition answering (proof : jsval) (now : num) (c : @api_call bytes) (s : unit) : @api_answer jsstring bytes c * unit :=
  (match c as c return @api_answer jsstring bytes c with
   | Send _ => inl (VObject [(js "success", VBoolean true); (js "data", proof)])
   | Now => now
   | CheckSignal | OpenPopup _ | CheckExchange => None
   | PasskeySupported => false
   | LoadRPID => Some (js "example.org")
   | StoreRPID _ | ForgetRPID | Domains _ _ | AbandonPopup _ | FinishPopup _ => tt
   | PromptPasskey _ => Declined (js "NotAllowedError")
   | Cipher c => (open_environment c tt).1
   | PreparePopup _ _ => Interrupted popup_cancelled
   | ShowPopup _ => inr popup_timed_out
   end, s).
Definition verify_now (input : VerificationInput) (proof : jsval) : outcome jsval :=
  result_of api_answer (answering proof (num_of_Z 5000))
    (verify (Key := bytes) (λ _, []) id (λ _, []) [] (λ base _, Ok base) [] input (mkOperation (js "keys") VUndefined) true) tt.
Definition proof_with (expires_at : list (jsstring * jsval)) : jsval :=
  VObject ([(js "proof_token", VString (js "p")); (js "scope", VString (js "keys")); (js "method", VString (js "session"))] ++ expires_at).

Example session_verified : verify_now Session (proof_with [(js "expires_at", VNumber (num_of_Z 6))])
  = Done (proof_with [(js "expires_at", VNumber (num_of_Z 6))]).
Proof. vm_compute. reflexivity. Qed.
Example expired_refused : verify_now Session (proof_with [(js "expires_at", VNumber (num_of_Z 5))])
  = Threw (Auth (mkFailure (js "Verification proof was not returned") None)).
Proof. vm_compute. reflexivity. Qed.
(** A proof without an expiry compares as not a number, and is accepted. *)
Example no_expiry_accepted : verify_now Session (proof_with []) = Done (proof_with []).
Proof. vm_compute. reflexivity. Qed.
Example passkey_declined : verify_now (Passkey None) (VObject [(js "flow_token", VString (js "f")); (js "publicKey",
    VObject [(js "challenge", VString (js "AAEC"))])])
  = Threw (Auth (mkFailure (js "Passkey verification was cancelled or timed out") None)).
Proof. vm_compute. reflexivity. Qed.
End Examples.
