(* ===== verification/OAuthLogin.v ===== *)
(** * routes/oauth/$provider.tsx and features/auth/hooks/use-auth-redirect.ts: the sign-in

    The page of a callback without an opener exchanges its code for a bundle or
    a login challenge. React may run its effect again while an exchange is on
    its way: each run is data that waits for the shared request, and only the
    run that was not cleaned up goes on. The session is that of the tab. *)

From S2P Require Import Prelude JsNumber JsText Types Runtime JsRegex JsMap JsValue AuthSession AuthTabs ServerError OAuthPopup.
From S2P Require Import OAuthCallback VerifyApi.

Section Login.
Context {S : Type} `{ModeStorage S} {E : Type} `{ErrorSource E}.
(** The tab, and its name in the events of its session. *)
Context `{Browser} (authSyncSource : jsstring).
Context (provider origin : jsstring) (parse_url : jsstring → option jsstring → option Url).

(** ** State *)

(** What a run waits for: its request, a change of language before the
    navigation, a navigation and the result of [handleLoginResult] after it. *)
Inductive RunPhase := AwaitExchange (request : nat) | AwaitLanguage (target : jsstring) | AwaitNavigation (signed_in : bool) | Ended.
(** A run of the effect: its key and state, [search.redirect], the session id
    that its [handleLoginResult] closed over, and whether it was cleaned up. *)
Record Run := mkRun {
  r_key : jsstring; r_state : jsstring; r_redirect : jsval; r_session : option jsstring; r_active : bool; r_phase : RunPhase
}.
Inductive LoginEffect :=
  | ShowText (text : jsstring)                    (* toast *)
  | ShowResponse (body : jsval)                   (* handleServerError(response.data, ...) *)
  | ShowFailure (failure : Failure)               (* handleServerError(AuthOperationError) *)
  | ChangeLanguage (language : jsstring)
  | Navigate (href : jsstring).
Record Login := mkLogin {
  tab : Tab;
  mounted : bool;
  storage : result S;
  exchange : option (jsstring * nat);             (* loginExchange.current *)
  completedLogin : option jsstring;
  requests : list (list (jsstring * jsval) * option (jsval + E));  (* their parameters, and answers *)
  runs : list Run;
  effects : list LoginEffect
}.

Definition emit (e : list LoginEffect) (l : Login) : Login :=
  mkLogin (tab l) (mounted l) (storage l) (exchange l) (completedLogin l) (requests l) (runs l) (effects l ++ e).
Definition set_runs (runs : list Run) (l : Login) : Login :=
  mkLogin (tab l) (mounted l) (storage l) (exchange l) (completedLogin l) (requests l) runs (effects l).
Definition set_phase (i : nat) (phase : RunPhase) (l : Login) : Login :=
  set_runs (alter (λ r, mkRun (r_key r) (r_state r) (r_redirect r) (r_session r) (r_active r) phase) i (runs l)) l.
Definition set_tab (t : Tab) (l : Login) : Login :=
  mkLogin t (mounted l) (storage l) (exchange l) (completedLogin l) (requests l) (runs l) (effects l).

(** [mounted.current] of use-auth-redirect.ts: its effects run with those of the
    page. *)
Definition set_mounted (b : bool) (l : Login) : Login :=
  mkLogin (tab l) b (storage l) (exchange l) (completedLogin l) (requests l) (runs l) (effects l).

(** ** Navigation *)

Definition safe_target (target : jsval) (fallback : jsstring) : jsstring :=
  default fallback (sanitizeAuthRedirect parse_url target origin).
Definition safeNavigate (target fallback : jsstring) (l : Login) : Login :=
  emit [Navigate (safe_target (VString target) fallback)] l.
Definition to_sign_in : Login → Login := safeNavigate (js "/sign-in") (js "/sign-in").

(** ** use-auth-redirect.ts *)

Inductive LoginResult :=
  | Handled (phase : RunPhase) (l : Login)        (* suspended, or done with false *)
  | Refused (failure : Failure).
Definition login_refused (message : jsstring) : LoginResult := Refused (mkFailure message None).

(** [handleLoginResult] up to its first await; [handleLoginSuccess] checks again
    what was just checked. [language] is that of i18n. *)
Definition handleLoginResult (now : num) (language : jsstring) (sessionID : option jsstring) (result redirectTo : jsval)
    (l : Login) : LoginResult :=
  if negb (mounted l) || negb (bool_decide (current_sid (tab l) = sessionID)) then Handled Ended l
  else
    match isAuthBundle result with
    | Some bundle =>
        let l := set_tab (applyAuthBundle bundle true (tab l)) l in
        let target := safe_target redirectTo (js "/dashboard") in
        match getSavedLanguage (user_object (bundle_user bundle)) with
        | Some saved =>
            if (saved =s []) || (saved =s language) then Handled (AwaitNavigation true) (emit [Navigate target] l)
            else Handled (AwaitLanguage target) (emit [ChangeLanguage saved] l)
        | None => Handled (AwaitNavigation true) (emit [Navigate target] l)
        end
    | None =>
        if negb (isLoginChallenge result) then login_refused (js "Login failed")
        else if match prop result (js "expires_at") with VNumber n => expired n now | _ => false end
        then login_refused (js "Login flow expired. Please sign in again.")
        else
          let pending := mkPending result (sanitizeAuthRedirect parse_url redirectTo origin) in
          Handled (AwaitNavigation false)
            (emit [Navigate (js "/otp")] (set_tab (with_auth (setPendingLoginVerification (Some pending)) (tab l)) l))
    end.

(** ** The effect *)

(** The cleanup of the run before; those before it were cleaned up already. *)
Definition cleanup_runs (l : Login) : Login :=
  set_runs (map (λ r, mkRun (r_key r) (r_state r) (r_redirect r) (r_session r) false (r_phase r)) (runs l)) l.

Definition login_fields (search : Search) : list (jsstring * jsval) :=
  List.filter (λ e, match e.2 with VUndefined => false | _ => true end)
    [(js "code", if truthy (nullish_or (s_code search) (VString [])) then nullish_or (s_code search) (VString []) else VUndefined);
     (js "state", callbackState search); (js "error", s_error search); (js "error_description", s_error_description search)].
(** [${provider}:${state}:${code}], and the state as a text. *)
Definition login_key (search : Search) : result (jsstring * jsstring) :=
  state ← to_string (callbackState search);
  code ← to_string (nullish_or (s_code search) (VString []));
  Ok (provider ++ js ":" ++ state ++ js ":" ++ code, state).

(** The login part of the effect; a key that does not convert throws. *)
Definition start_login (search : Search) (sessionID : option jsstring) (l : Login) : Login :=
  if negb (truthy (nullish_or (s_code search) (VString []))) && negb (truthy (s_error search))
  then to_sign_in (emit [ShowText (js "Missing code")] l)
  else
    match login_key search with
    | Err _ => l
    | Ok (key, state) =>
        if bool_decide (completedLogin l = Some key) then l
        else
          let run := λ i, mkRun key state (s_redirect search) sessionID true (AwaitExchange i) in
          match exchange l with
          | Some (k, i) =>
              if k =s key then set_runs (runs l ++ [run i]) l
              else mkLogin (tab l) (mounted l) (storage l) (Some (key, length (requests l))) (completedLogin l)
                     (requests l ++ [(login_fields search, None)]) (runs l ++ [run (length (requests l))]) (effects l)
          | None => mkLogin (tab l) (mounted l) (storage l) (Some (key, length (requests l))) (completedLogin l)
                      (requests l ++ [(login_fields search, None)]) (runs l ++ [run (length (requests l))]) (effects l)
          end
    end.

(** What a run that is not cleaned up does with an error; the fallback of
    [AuthOperationError.from] is part of [convert]. *)
Definition login_failed (failure : Failure) (l : Login) : Login := to_sign_in (emit [ShowFailure failure] l).

(** The body of a response. *)
Definition on_body (now : num) (language : jsstring) (i : nat) (r : Run) (body : jsval) (l : Login) : Login :=
  if truthy (prop body (js "success")) then
    let l := mkLogin (tab l) (mounted l) (storage l) (exchange l) (Some (r_key r)) (requests l) (runs l) (effects l) in
    let '(redirect, l) :=
      if is_nullish (r_redirect r) then
        let '(stored, s) := consumeOAuthLoginRedirect (storage l) (r_state r) in
        (from_option VString VUndefined stored,
         mkLogin (tab l) (mounted l) s (exchange l) (completedLogin l) (requests l) (runs l) (effects l))
      else (r_redirect r, l) in
    match handleLoginResult now language (r_session r) (prop body (js "data")) redirect l with
    | Handled phase l => set_phase i phase l
    | Refused failure => login_failed failure (set_phase i Ended l)
    end
  else to_sign_in (emit [ShowResponse body] (set_phase i Ended l)).

(** ** Events *)

Inductive LoginEvent :=
  | RunEffect (search : Search) (sessionID : option jsstring)   (* after the cleanup of the run before *)
  | Unmount
  | Answered (request : nat) (answer : jsval + E)
  | Resume (run : nat) (now : num) (language : jsstring)
  | AwaitEnds (run : nat) (error : option (thrown E))           (* a change of language or a navigation *)
  | SessionActs (action : Action).                              (* the rest of the page and other tabs *)

Definition login_step (l : Login) (e : LoginEvent) : Login :=
  match e with
  | RunEffect search sessionID => start_login search sessionID (set_mounted true (cleanup_runs l))
  | Unmount => set_mounted false (cleanup_runs l)
  | Answered i answer =>
      mkLogin (tab l) (mounted l) (storage l) (exchange l) (completedLogin l)
        (alter (λ q, (q.1, match q.2 with None => Some answer | _ => q.2 end)) i (requests l)) (runs l) (effects l)
  | Resume i now language =>
      match runs l !! i with
      | Some r =>
          match r_phase r with
          | AwaitExchange q =>
              match requests l !! q with
              | Some (_, Some answer) =>
                  if negb (r_active r) then set_phase i Ended l
                  else
                    match answer with
                    | inl body => on_body now language i r body l
                    | inr error => login_failed (from_thrown (Raised error)) (set_phase i Ended l)
                    end
              | _ => l
              end
          | _ => l
          end
      | None => l
      end
  | AwaitEnds i error =>
      match runs l !! i with
      | Some r =>
          match r_phase r, error with
          | AwaitLanguage target, None => set_phase i (AwaitNavigation true) (emit [Navigate target] l)
          | AwaitNavigation signed_in, None =>
              set_phase i Ended (if signed_in : bool then emit [ShowText (js "Signed in successfully!")] l else l)
          | (AwaitLanguage _ | AwaitNavigation _), Some error =>
              if r_active r then login_failed (from_thrown error) (set_phase i Ended l) else set_phase i Ended l
          | _, _ => l
          end
      | None => l
      end
  | SessionActs action => match step authSyncSource (tab l) action with Some (t, _) => set_tab t l | None => l end
  end.
Definition initial_login (t : Tab) (s : result S) : Login := mkLogin t true s None None [] [] [].
Definition login_run (t : Tab) (s : result S) (events : list LoginEvent) : Login := foldl login_step (initial_login t s) events.
End Login.
