(* ===== verification/OAuthLoginFacts.v ===== *)
(** * The sign-in of a callback page: theorems

    However often React runs the effect and in whatever order answers come, a
    callback is exchanged once and its result is used once, by a page that is
    still there and for the session it was started in. *)

From S2P Require Import Prelude JsNumber JsText Types Runtime JsRegex JsMap JsValue AuthSession AuthTabs AuthSessionFacts AuthTheorems ServerError.
From S2P Require Import OAuthPopup OAuthCallback VerifyApi OAuthLogin.

Section Facts.
Context {S : Type} `{ModeStorage S} {E : Type} `{ErrorSource E}.
Context `{Browser} (authSyncSource : jsstring).
Context (provider origin : jsstring) (parse_url : jsstring → option jsstring → option Url).
Abbreviation state := (@Login S E).
Abbreviation step := (login_step authSyncSource provider origin parse_url).

(** ** What the operations leave alone *)

(** The refs of the component, its requests and its runs. *)
Definition control (l : state) := (exchange l, completedLogin l, requests l, runs l).

Definition awaits_exchange (r : Run) : bool := match r_phase r with AwaitExchange _ => true | _ => false end.

(** What [handleLoginResult] does to the session, if anything. *)
Definition session_use (now : num) (sessionID : option jsstring) (result : jsval) (l l' : state) : Prop :=
  tab l' = tab l
  ∨ mounted l = true ∧ current_sid (tab l) = sessionID
    ∧ ((∃ bundle, isAuthBundle result = Some bundle ∧ tab l' = applyAuthBundle bundle true (tab l))
       ∨ (isAuthBundle result = None ∧ isLoginChallenge result = true
          ∧ (∃ n, prop result (js "expires_at") = VNumber n ∧ expired n now = false)
          ∧ ∃ target, tab l' = with_auth (setPendingLoginVerification (Some (mkPending result target))) (tab l))).

Lemma handled_spec now language sessionID result redirect (l : state) phase l' :
  handleLoginResult origin parse_url now language sessionID result redirect l = Handled phase l' →
  control l' = control l ∧ (∀ i, phase ≠ AwaitExchange i) ∧ session_use now sessionID result l l'.
Proof.
  unfold handleLoginResult. destruct (negb (mounted l) || _) eqn:Hm; [by intros [= <- <-]; split_and!; [| |left]|].
  apply orb_false_iff in Hm as [Hm%negb_false_iff Hs%negb_false_iff%bool_decide_eq_true].
  destruct (isAuthBundle result) as [bundle|] eqn:Hb.
  - intros Hh. assert (control l' = control l ∧ (∀ i, phase ≠ AwaitExchange i)
      ∧ tab l' = applyAuthBundle bundle true (tab l)) as (Hc & Hp & Ht).
    { destruct (getSavedLanguage _) as [saved|]; [destruct (_ || _)|]; injection Hh as <- <-; by split_and!. }
    split_and!; [done..|]. right. split_and!; [done..|]. left. by exists bundle.
  - destruct (isLoginChallenge result) eqn:Hc; [|done]. cbn [negb].
    assert (∃ n, prop result (js "expires_at") = VNumber n) as [n Hn].
    { unfold isLoginChallenge in Hc. destruct result; try done. apply andb_true_iff in Hc as [Hc _].
      apply andb_true_iff in Hc as [_ Hc]. destruct (prop _ (js "expires_at")) as [| | |n| | |]; try done. by exists n. }
    rewrite Hn. destruct (expired n now) eqn:He; [done|]. intros [= <- <-]. split_and!; [done..|].
    right. split_and!; [done..|]. right. split_and!; [done..|by exists n|by eexists].
Qed.

(** ** One exchange *)

Definition with_phase (phase : RunPhase) (r : Run) : Run :=
  mkRun (r_key r) (r_state r) (r_redirect r) (r_session r) (r_active r) phase.
Definition cleaned (r : Run) : Run := mkRun (r_key r) (r_state r) (r_redirect r) (r_session r) false (r_phase r).

(** All runs have the key, and only the last may be active. *)
Definition runs_ok (key : jsstring) (rs : list Run) : Prop :=
  ∀ i r, rs !! i = Some r → r_key r = key ∧ (r_active r = true → i + 1 = length rs).
Definition no_active_wait (rs : list Run) : Prop := ∀ i r, rs !! i = Some r → r_active r = true → awaits_exchange r = false.
Definition control_ok (key : jsstring) (c : option (jsstring * nat) * option jsstring * list (list (jsstring * jsval) * option (jsval + E)) * list Run) : Prop :=
  let '(ex, completed, reqs, rs) := c in
  runs_ok key rs
  ∧ match ex with None => reqs = [] ∧ rs = [] | Some (k, q) => k = key ∧ q = 0 ∧ length reqs = 1 end
  ∧ match completed with None => True | Some k => k = key ∧ no_active_wait rs end.

Lemma runs_ok_alter key i phase rs : runs_ok key rs → runs_ok key (alter (with_phase phase) i rs).
Proof.
  intros Hr j r. rewrite length_alter. destruct (decide (i = j)) as [->|Hj].
  - rewrite list_lookup_alter_eq. destruct (rs !! j) as [r'|] eqn:Hl; [|done]. intros [= <-]. exact (Hr j r' Hl).
  - rewrite list_lookup_alter_ne by done. apply Hr.
Qed.
Lemma no_wait_alter i phase rs : (∀ q, phase ≠ AwaitExchange q) →
  (∀ j r, j ≠ i → rs !! j = Some r → r_active r = true → awaits_exchange r = false) →
  no_active_wait (alter (with_phase phase) i rs).
Proof.
  intros Hp Hr j r. destruct (decide (i = j)) as [->|Hj].
  - rewrite list_lookup_alter_eq. destruct (rs !! j); [|done]. intros [= <-] _. unfold awaits_exchange. cbn [with_phase r_phase].
    destruct phase; try done. by destruct (Hp request).
  - rewrite list_lookup_alter_ne by done. by apply Hr.
Qed.
Lemma cleaned_ok key rs : runs_ok key rs → runs_ok key (map cleaned rs).
Proof. intros Hr i r. rewrite list_lookup_fmap. destruct (rs !! i) eqn:Hl; [|done]. intros [= <-]. split; [exact (proj1 (Hr _ _ Hl))|done]. Qed.
Lemma cleaned_idle rs : no_active_wait (map cleaned rs).
Proof. intros i r. rewrite list_lookup_fmap. destruct (rs !! i); [|done]. by intros [= <-]. Qed.

(** A run that moves on without its exchange. *)
Lemma phase_ok key ex completed reqs rs i phase : (∀ q, phase ≠ AwaitExchange q) →
  control_ok key (ex, completed, reqs, rs) → control_ok key (ex, completed, reqs, alter (with_phase phase) i rs).
Proof.
  intros Hp (Hr & He & Hc). split_and!; [by apply runs_ok_alter| |].
  - destruct ex as [[k q]|]; [done|]. destruct He as [-> ->]. done.
  - destruct completed as [k|]; [|done]. destruct Hc as [-> Hc]. split; [done|]. apply no_wait_alter; [done|]. intros j r _. apply Hc.
Qed.
(** The active run completes the login. *)
Lemma completion_ok key ex completed reqs rs i r phase : (∀ q, phase ≠ AwaitExchange q) → rs !! i = Some r → r_active r = true →
  control_ok key (ex, completed, reqs, rs) → control_ok key (ex, Some key, reqs, alter (with_phase phase) i rs).
Proof.
  intros Hp Hi Ha (Hr & He & _). destruct (Hr i r Hi) as [_ Hl]. specialize (Hl Ha). split_and!; [by apply runs_ok_alter| |done|].
  - destruct ex as [[k q]|]; [done|]. by destruct He as [_ ->].
  - apply no_wait_alter; [done|]. intros j r' Hj Hl' Ha'. destruct (Hr j r' Hl') as [_ Hx]. specialize (Hx Ha'). clear -Hl Hx Hj. lia.
Qed.

(** The step at which the run that is not cleaned up goes on with a body that
    signs in. *)
Definition uses_result (l : state) (e : LoginEvent (E := E)) : bool :=
  match e with
  | Resume i _ _ =>
      match runs l !! i with
      | Some r =>
          match r_phase r with
          | AwaitExchange q =>
              match requests l !! q with
              | Some (_, Some (inl body)) => r_active r && truthy (prop body (js "success"))
              | _ => false
              end
          | _ => false
          end
      | None => false
      end
  | _ => false
  end.
Definition event_key (key : jsstring) (e : LoginEvent (E := E)) : Prop :=
  match e with RunEffect search _ => fst <$> match login_key provider search with Ok p => Some p | Err _ => None end = Some key | _ => True end.

Lemma control_phase i phase (l : state) :
  control (set_phase i phase l) = (exchange l, completedLogin l, requests l, alter (with_phase phase) i (runs l)).
Proof. done. Qed.
Lemma failed_control failure (l : state) : control (login_failed origin parse_url failure l) = control l.
Proof. done. Qed.

Lemma on_body_ok key now language i r body (l : state) : runs l !! i = Some r → r_active r = true → r_key r = key →
  control_ok key (control l) →
  control_ok key (control (on_body origin parse_url now language i r body l))
  ∧ completedLogin (on_body origin parse_url now language i r body l)
    = if truthy (prop body (js "success")) then Some key else completedLogin l.
Proof.
  intros Hi Ha Hk Hok. unfold on_body. destruct (truthy _); [|split; [by apply (phase_ok key)|done]].
  rewrite Hk. destruct (if is_nullish (r_redirect r) then _ else _) as [redirect l1] eqn:Hr.
  assert (control l1 = (exchange l, Some key, requests l, runs l)) as Hl1.
  { destruct (is_nullish _); [|by injection Hr as <- <-]. destruct (consumeOAuthLoginRedirect _ _). by injection Hr as <- <-. }
  destruct (handleLoginResult _ _ _ _ _ _ _ _) as [phase l2|failure] eqn:Hh.
  - destruct (handled_spec _ _ _ _ _ _ _ _ Hh) as (Hc & Hp & _). rewrite Hl1 in Hc. injection Hc as He Hd Hq Hrs.
    split; [|exact Hd]. rewrite control_phase, He, Hd, Hq, Hrs. by apply (completion_ok key _ (completedLogin l) _ _ _ r).
  - injection Hl1 as He Hd Hq Hrs. split; [|exact Hd]. rewrite failed_control, control_phase, He, Hd, Hq, Hrs.
    by apply (completion_ok key _ (completedLogin l) _ _ _ r).
Qed.

(** Nothing signs in: the completed key stays. *)
Definition steps_ok (key : jsstring) (l l' : state) (used : bool) : Prop :=
  control_ok key (control l') ∧ completedLogin l' = if used then Some key else completedLogin l.

Lemma cleanup_ok key b (l : state) : control_ok key (control l) → control_ok key (control (set_mounted b (cleanup_runs l))).
Proof.
  intros (Hr & He & Hc). split_and!; [by apply cleaned_ok| |].
  - destruct (exchange l) as [[k q]|] eqn:Hx; unfold control in *; cbn in *; rewrite Hx in *; [done|]. by destruct He as [-> ->].
  - destruct (completedLogin l) eqn:Hx; unfold control in *; cbn in *; rewrite Hx in *; [|done]. destruct Hc as [-> _].
    split; [done|apply cleaned_idle].
Qed.

Lemma start_ok key search sessionID (l : state) :
  fst <$> match login_key provider search with Ok p => Some p | Err _ => None end = Some key →
  control_ok key (control l) → Forall (λ r, r_active r = false) (runs l) →
  control_ok key (control (start_login provider origin parse_url search sessionID l))
  ∧ completedLogin (start_login provider origin parse_url search sessionID l) = completedLogin l.
Proof.
  intros Hk (Hr & He & Hc) Hi. unfold start_login. destruct (_ && _); [done|].
  destruct (login_key provider search) as [[k st]|]; [|done]. injection Hk as ->.
  case_bool_decide as Hd; [done|]. destruct (completedLogin l) as [k|] eqn:Hcl; [by destruct Hc as [-> _]|].
  assert (∀ q, runs_ok key (runs l ++ [mkRun key st (s_redirect search) sessionID true (AwaitExchange q)])) as Hrun.
  { intros q i r [Hl|[Hn Hl]]%lookup_app_Some.
    - split; [exact (proj1 (Hr i r Hl))|]. intros Ha. rewrite Forall_forall in Hi.
      by rewrite (Hi r (list_elem_of_lookup_2 _ _ _ Hl)) in Ha.
    - apply list_lookup_singleton_Some in Hl as [Hl <-]. split; [done|]. intros _. rewrite length_app. cbn. lia. }
  destruct (exchange l) as [[k q]|] eqn:Hx.
  - destruct He as (-> & -> & Hq). rewrite str_eqb_refl. unfold control. cbn. rewrite ?Hx, ?Hcl. split; [by split_and!|done].
  - destruct He as [Hq _]. unfold control. cbn. rewrite ?Hcl, ?Hq. split; [by split_and!|done].
Qed.

Lemma step_steps key (l : state) e : event_key key e → control_ok key (control l) →
  steps_ok key l (step l e) (uses_result l e).
Proof.
  intros Hk Hok. destruct e as [search sessionID| |i answer|i now language|i error|action]; cbn [login_step uses_result].
  - destruct (start_ok key search sessionID (set_mounted true (cleanup_runs l)) Hk (cleanup_ok key true l Hok)) as [Ha Hb].
    { apply Forall_map, Forall_forall. by intros r _. }
    split; [exact Ha|exact Hb].
  - split; [by apply cleanup_ok|done].
  - split; [|done]. destruct Hok as (Hr & He & Hc). split_and!; [done| |done]. cbn.
    destruct (exchange l) as [[k q]|]; [by rewrite length_alter|]. by destruct He as [-> ->].
  - destruct (runs l !! i) as [r|] eqn:Hi; [|by split]. destruct (r_phase r) as [q| | |] eqn:Hp; try (by split).
    destruct (requests l !! q) as [[f [a|]]|]; try (by split).
    destruct (r_active r) eqn:Ha; cbn [negb andb]; [|destruct a; split; first [by apply (phase_ok key)|done]].
    destruct a as [body|error]; [|split; [by apply (phase_ok key)|done]].
    destruct (Hok) as (Hr & _ & _). exact (on_body_ok key now language i r body l Hi Ha (proj1 (Hr i r Hi)) Hok).
  - destruct (runs l !! i) as [r|]; [|by split].
    destruct (r_phase r) as [q|target|b|], error as [error|]; try (by split); try (destruct (r_active r)); try (destruct b);
      split; first [by apply (phase_ok key)|done].
  - destruct (AuthTabs.step _ _ _) as [[t sx]|]; by split.
Qed.

(** How often that happens in a run of events. *)
Fixpoint results_used (l : state) (events : list (LoginEvent (E := E))) : nat :=
  match events with
  | [] => 0
  | e :: events => (if uses_result l e then 1 else 0) + results_used (step l e) events
  end.

Lemma used_bound key events (l : state) : Forall (event_key key) events → control_ok key (control l) →
  control_ok key (control (foldl step l events))
  ∧ results_used l events + (if is_some (completedLogin l) then 1 else 0) ≤ 1.
Proof.
  revert l. induction events as [|e events IH]; intros l; [intros _ Hok; split; [done|by destruct (completedLogin l); cbn; lia]|].
  intros [He Hes]%Forall_cons Hok. destruct (step_steps key l e He Hok) as [Hok' Hc]. destruct (IH (step l e) Hes Hok') as [Hf Hu].
  split; [exact Hf|]. cbn [results_used]. rewrite Hc in Hu. destruct (uses_result l e) eqn:Hx; cbn [is_some] in Hu; [|lia].
  destruct (completedLogin l) as [k|] eqn:Hd; cbn [is_some]; [|lia]. exfalso.
  destruct e as [| | |i now language| |]; try done. cbn [uses_result] in Hx. destruct Hok as (_ & _ & Hn). rewrite Hd in Hn. destruct Hn as [-> Hn].
  destruct (runs l !! i) as [r|] eqn:Hi; [|done]. destruct (r_phase r) as [q| | |] eqn:Hp; try done.
  destruct (requests l !! q) as [[f [[body|]|]]|]; try done. apply andb_true_iff in Hx as [Ha _].
  specialize (Hn i r Hi Ha). unfold awaits_exchange in Hn. by rewrite Hp in Hn.
Qed.

(** The server signed in, and a run that goes on after its request does
    something the user sees or that changes the page: a navigation, a change of
    language, a message. Every use of a result does. *)
Definition signed_in (l : state) : bool :=
  match requests l with (_, Some (inl body)) :: _ => truthy (prop body (js "success")) | _ => false end.
Definition acts_on_result (l : state) (e : LoginEvent (E := E)) : bool :=
  match e with Resume _ _ _ => signed_in l && (length (effects l) <? length (effects (step l e))) | _ => false end.
Fixpoint results_acted_on (l : state) (events : list (LoginEvent (E := E))) : nat :=
  match events with
  | [] => 0
  | e :: events => (if acts_on_result l e then 1 else 0) + results_acted_on (step l e) events
  end.

Lemma acts_uses key (l : state) e : control_ok key (control l) → acts_on_result l e = true → uses_result l e = true.
Proof.
  intros (_ & Hx & _) Ha. destruct e as [| | |i now language| |]; try done. cbn [acts_on_result] in Ha.
  apply andb_true_iff in Ha as [Hs Hl%Nat.ltb_lt]. cbn [uses_result login_step] in *.
  destruct (runs l !! i) as [r|]; [|exfalso; lia]. destruct (r_phase r) as [q| | |]; try (exfalso; lia).
  destruct (requests l !! q) as [[f [answer|]]|] eqn:Hq; try (exfalso; lia).
  destruct (r_active r); cbn [negb andb] in *; [|exfalso; cbn in Hl; lia].
  assert (requests l = [(f, Some answer)]) as Hreq.
  { destruct (exchange l) as [[k n]|]; [destruct Hx as (_ & _ & Hx)|destruct Hx as [Hx _]; by rewrite Hx in Hq].
    destruct (requests l) as [|x [|y rest]]; try done. destruct q; [by injection Hq as ->|by destruct q]. }
  unfold signed_in in Hs. rewrite Hreq in Hs. by destruct answer.
Qed.
Lemma acted_used key events (l : state) : Forall (event_key key) events → control_ok key (control l) →
  results_acted_on l events ≤ results_used l events.
Proof.
  revert l. induction events as [|e events IH]; [done|]. intros l [He Hes]%Forall_cons Hok. cbn [results_acted_on results_used].
  destruct (step_steps key l e He Hok) as [Hok' _]. specialize (IH (step l e) Hes Hok').
  destruct (acts_on_result l e) eqn:Ha; [rewrite (acts_uses key l e Hok Ha); lia|destruct (uses_result l e); lia].
Qed.
(** Nothing else that a run does after its request changes the session. *)
Lemma acts_session (l : state) i now language : length (effects (step l (Resume i now language))) ≤ length (effects l) →
  tab (step l (Resume i now language)) = tab l.
Proof.
  cbn [login_step]. destruct (runs l !! i) as [r|]; [|done]. destruct (r_phase r) as [q| | |]; try done.
  destruct (requests l !! q) as [[f [answer|]]|]; try done. destruct (negb (r_active r)); [done|].
  destruct answer as [body|error]; [|done]. unfold on_body. destruct (truthy _); [|done].
  destruct (if is_nullish (r_redirect r) then _ else _) as [redirect l1] eqn:Hr.
  assert (tab l1 = tab l ∧ effects l1 = effects l) as [Ht He].
  { destruct (is_nullish _); [|by injection Hr as <- <-]. destruct (consumeOAuthLoginRedirect _ _). by injection Hr as <- <-. }
  unfold handleLoginResult. destruct (negb (mounted l1) || _); [by intros _; cbn|].
  destruct (isAuthBundle _) as [bundle|].
  - assert (∀ (l2 : state) phase e, effects l2 = effects l1 → length (effects (set_phase i phase (emit [e] l2))) ≤ length (effects l) → False) as Hno
      by (intros l2 phase e Hl2; cbn; rewrite Hl2, He, length_app; cbn; lia).
    destruct (getSavedLanguage _) as [saved|]; [destruct (_ || _)|]; intros Hle; exfalso; exact (Hno (set_tab (applyAuthBundle bundle true (tab l1)) l1) _ _ eq_refl Hle).
  - destruct (negb _); [by intros _; cbn|]. destruct (match _ with VNumber _ => _ | _ => _ end); [by intros _; cbn|].
    cbn. rewrite He, length_app. cbn. lia.
Qed.


(** ** The session *)

(** The change of the session by a step is an action of the tab: one of the rest
    of the page, or the sign-in or pending login of the run that uses its
    result, on a page that is mounted, in the session it was rendered in. *)
Definition own_action (l : state) (e : LoginEvent (E := E)) (a : Action) : Prop :=
  match e with
  | SessionActs b => a = b
  | Resume i now _ =>
      mounted l = true
      ∧ ∃ r q fields body, runs l !! i = Some r ∧ r_active r = true ∧ r_phase r = AwaitExchange q
          ∧ requests l !! q = Some (fields, Some (inl body)) ∧ truthy (prop body (js "success")) = true
          ∧ current_sid (tab l) = r_session r
          ∧ ((is_some (isAuthBundle (prop body (js "data"))) = true ∧ a = SignIn (prop body (js "data")) true)
             ∨ ∃ n target, isLoginChallenge (prop body (js "data")) = true
                 ∧ prop (prop body (js "data")) (js "expires_at") = VNumber n ∧ expired n now = false
                 ∧ a = PendingUpdated (Some (mkPending (prop body (js "data")) target)))
  | _ => False
  end.

Lemma step_session (l : state) e : tab (step l e) = tab l
  ∨ ∃ a settled, own_action l e a ∧ AuthTabs.step authSyncSource (tab l) a = Some (tab (step l e), settled).
Proof.
  destruct e as [search sessionID| |i answer|i now language|i error|action]; cbn [login_step own_action].
  - left. unfold start_login. repeat case_match; done.
  - by left.
  - by left.
  - destruct (runs l !! i) as [r|] eqn:Hi; [|by left]. destruct (r_phase r) as [q| | |] eqn:Hp; try (by left).
    destruct (requests l !! q) as [[f [a|]]|] eqn:Hq; try (by left).
    destruct (r_active r) eqn:Ha; cbn [negb]; [|by left]. destruct a as [body|error]; [|by left].
    unfold on_body. destruct (truthy (prop body (js "success"))) eqn:Hs; [|by left].
    destruct (if is_nullish (r_redirect r) then _ else _) as [redirect l1] eqn:Hr.
    assert (tab l1 = tab l ∧ mounted l1 = mounted l) as [Ht Hm].
    { destruct (is_nullish _); [|by injection Hr as <- <-]. destruct (consumeOAuthLoginRedirect _ _). by injection Hr as <- <-. }
    destruct (handleLoginResult _ _ _ _ _ _ _ _) as [phase l2|failure] eqn:Hh; [|left; exact Ht].
    change (tab (set_phase i phase l2)) with (tab l2).
    destruct (handled_spec _ _ _ _ _ _ _ _ Hh) as (_ & _ & [Hsame|(Hmo & Hsid & Huse)]); [left; congruence|right].
    rewrite Ht in Hsid, Huse. rewrite Hm in Hmo.
    destruct Huse as [(bundle & Hb & Hu)|(_ & Hc & (n & Hn & He) & target & Hu)].
    + exists (SignIn (prop body (js "data")) true), None. split; [|cbn; by rewrite Hb, Hu].
      split; [done|]. exists r, q, f, body. split_and!; [done..|]. left. by rewrite Hb.
    + eexists (PendingUpdated _), None. split; [|cbn; by rewrite Hu].
      split; [done|]. exists r, q, f, body. split_and!; [done..|]. right. by exists n, target.
  - left. repeat case_match; done.
  - destruct (AuthTabs.step _ _ _) as [[t settled]|] eqn:Hst; [|by left]. right. by exists action, settled.
Qed.

(** C26. The sign-in of a callback page touches the session of its tab only by
    the actions that the session is proved for, so a reachable session stays
    one; and it does so only in a run that was not cleaned up, on a page that is
    mounted, whose session is the one that the page was rendered with, with a
    result that is a well-formed bundle or an unexpired login challenge. *)
Theorem login_acts_on_its_session t s events : reachable authSyncSource t →
  let l := login_run authSyncSource provider origin parse_url t s events in
  reachable authSyncSource (tab l)
  ∧ ∀ e, tab (step l e) = tab l
      ∨ ∃ a settled, own_action l e a ∧ AuthTabs.step authSyncSource (tab l) a = Some (tab (step l e), settled).
Proof.
  intros Ht. cbv zeta. split; [|intros e; apply step_session]. unfold login_run.
  assert (∀ l : state, reachable authSyncSource (tab l) → reachable authSyncSource (tab (foldl step l events))) as Hr.
  { induction events as [|e events IH]; [done|]. intros l Hl. apply IH.
    destruct (step_session l e) as [->|(a & settled & _ & Hs)]; [done|]. by apply (reachable_step _ _ a _ settled Hl). }
  by apply Hr.
Qed.
End Facts.

(** ** A run *)

Section Witness.
#[local] Instance plain_browser : Browser := false.
#[local] Instance failures : ErrorSource jsstring := λ e, mkFailure e None.
Definition callback_search : Search :=
  mkSearch (VString (js "c")) (VString (js "st")) VUndefined VUndefined VUndefined VUndefined VUndefined VUndefined.
Definition no_url (_ : jsstring) (_ : option jsstring) : option Url := None.
(** React runs the effect, cleans it up and runs it again; then the answer
    comes, and both runs go on. *)
Definition strict_events : list (LoginEvent (E := jsstring)) :=
  [RunEffect callback_search None; Unmount; RunEffect callback_search None;
   Answered 0 (inl (VObject [(js "success", VBoolean true); (js "data", bundle_value (js "fresh") (js "session-a"))]));
   Resume 0 (num_of_Z 5) (js "en"); Resume 1 (num_of_Z 5) (js "en"); AwaitEnds 1 None].
Definition strict_login : @Login (list (jsstring * jsstring)) jsstring :=
  login_run (js "tab") (js "github") (js "https://console") no_url initial_tab (Ok []) strict_events.

Example strict_mode_signs_in_once :
  (length (requests strict_login), accessToken (auth (tab strict_login)), effects strict_login)
  = (1, Some (js "fresh"), [Navigate (js "/dashboard"); ShowText (js "Signed in successfully!")]).
Proof. vm_compute. reflexivity. Qed.

Example strict_mode_acts_once :
  results_acted_on (js "tab") (js "github") (js "https://console") no_url (initial_login (S := list (jsstring * jsstring)) initial_tab (Ok [])) strict_events = 1.
Proof. vm_compute. reflexivity. Qed.

Theorem login_acts_on_its_session_witness :
  reachable (js "tab") (tab strict_login)
  ∧ ∀ e, tab (login_step (js "tab") (js "github") (js "https://console") no_url strict_login e) = tab strict_login
      ∨ ∃ a settled, own_action strict_login e a ∧ AuthTabs.step (js "tab") (tab strict_login) a
          = Some (tab (login_step (js "tab") (js "github") (js "https://console") no_url strict_login e), settled).
Proof.
  exact (login_acts_on_its_session (js "tab") (js "github") (js "https://console") no_url initial_tab (Ok []) strict_events
    (reachable_start (js "tab"))).
Defined.
End Witness.
