(* ===== verification/HttpClient.v ===== *)
(** * lib/http-client.ts

    The axios instance of the console over the session of its tab: the
    Authorization of every request, one refresh and one repetition after a 401,
    fresh tokens for requests that may be sent only once, rotation of tokens by
    responses, and one shared request for equal GETs in flight. A call is the
    data of its pending await; axios itself is modelled by its contract: the
    request interceptor runs before each request, a response interceptor after
    it, and [request(config)] starts over. *)

From S2P Require Import Prelude JsNumber JsText Types Runtime JsMap JsValue AuthSession AuthTabs.

Record ApiRequestConfig := mkApiConfig {
  url : jsstring;
  params : option jsstring;              (* JSON.stringify(config.params) *)
  securityProof : bool;                  (* the X-Security-Proof header is there *)
  skipErrorHandler : bool;
  disableDuplicate : bool;
  skipAuthRefresh : bool;
  authRetry : bool;
  acceptAuthRotation : bool;
  singleUseAuthorization : bool;
  authorization : option jsstring        (* headers.Authorization *)
}.

Definition set_retry (c : ApiRequestConfig) : ApiRequestConfig :=
  mkApiConfig (url c) (params c) (securityProof c) (skipErrorHandler c) (disableDuplicate c) (skipAuthRefresh c) true
    (acceptAuthRotation c) (singleUseAuthorization c) (authorization c).
Definition set_skip (c : ApiRequestConfig) : ApiRequestConfig :=
  mkApiConfig (url c) (params c) (securityProof c) (skipErrorHandler c) (disableDuplicate c) true (authRetry c)
    (acceptAuthRotation c) (singleUseAuthorization c) (authorization c).
Definition set_authorization (a : jsstring) (c : ApiRequestConfig) : ApiRequestConfig :=
  mkApiConfig (url c) (params c) (securityProof c) (skipErrorHandler c) (disableDuplicate c) (skipAuthRefresh c)
    (authRetry c) (acceptAuthRotation c) (singleUseAuthorization c) (Some a).

(** How the promise of a call settles. *)
Inductive CallResult :=
  | Responded (code : Z) (body : jsval)
  | RotationThrew (error : AuthRotationError)
  | CallFailed (code : option Z)             (* the error's response status *)
  | RefreshThrew (error : jsval)
  | HeadersThrew.

(** The pending await of a call. *)
Inductive CallPhase :=
  | Queued                        (* before the request interceptor *)
  | WaitingHeaders                (* in it, for a refresh *)
  | AwaitingAnswer
  | WaitingRefresh                (* in the response interceptor, after a 401 *)
  | Ended (r : CallResult).

Record Call := mkCall {
  config : ApiRequestConfig;
  call_phase : CallPhase;
  dedupe : option jsstring        (* its key in inFlightGet *)
}.

(** What the page was asked for. *)
Inductive PageCall := SessionExpiredNotice (call : nat) | RedirectToSignIn.

Record Client := mkClient {
  tab : Tab;
  calls : list Call;
  inFlightGet : list (jsstring * nat);
  sent : list (nat * option jsstring);     (* requests on the wire: call, Authorization *)
  page : list PageCall
}.

Definition initial_client (t : Tab) : Client := mkClient t [] [] [] [].

Definition set_tab (t : Tab) (c : Client) : Client := mkClient t (calls c) (inFlightGet c) (sent c) (page c).
Definition set_call (i : nat) (cfg : ApiRequestConfig) (p : CallPhase) (c : Client) : Client :=
  mkClient (tab c) (alter (λ k, mkCall cfg p (dedupe k)) i (calls c)) (inFlightGet c) (sent c) (page c).
Definition send_request (i : nat) (cfg : ApiRequestConfig) (c : Client) : Client :=
  let c := set_call i cfg AwaitingAnswer c in
  mkClient (tab c) (calls c) (inFlightGet c) (sent c ++ [(i, authorization cfg)]) (page c).
Definition tell_page (l : list PageCall) (c : Client) : Client :=
  mkClient (tab c) (calls c) (inFlightGet c) (sent c) (page c ++ l).

(** ** api.get *)

(** [inFlightGet.delete(key)], the [finally] of a deduplicated GET. *)
Definition release (k : option jsstring) (c : Client) : Client :=
  match k with
  | Some k => mkClient (tab c) (calls c) (List.filter (λ e, negb (e.1 =s k)) (inFlightGet c)) (sent c) (page c)
  | None => c
  end.

Definition settle (i : nat) (cfg : ApiRequestConfig) (r : CallResult) (c : Client) : Client :=
  let k := calls c !! i ≫= dedupe in
  release k (set_call i cfg (Ended r) c).

Definition start_call (cfg : ApiRequestConfig) (k : option jsstring) (c : Client) : Client :=
  mkClient (tab c) (calls c ++ [mkCall cfg Queued k]) (inFlightGet c) (sent c) (page c).

Definition get_key (cfg : ApiRequestConfig) (t : Tab) : jsstring :=
  or_text (default [] (current_sid t)) (js "anonymous") ++ js ":" ++ url cfg ++ js "?" ++ default (js "{}") (params cfg).

(** The call whose promise is returned, and the client. *)
Definition api_get (cfg : ApiRequestConfig) (c : Client) : nat * Client :=
  if disableDuplicate cfg then (length (calls c), start_call cfg None c)
  else
    let key := get_key cfg (tab c) in
    match mget (inFlightGet c) key with
    | Some i => (i, c)
    | None =>
        let c' := start_call cfg (Some key) c in
        (length (calls c), mkClient (tab c') (calls c') (inFlightGet c' ++ [(key, length (calls c))]) (sent c') (page c'))
    end.

Section Client.
Context `{Browser} (authSyncSource : jsstring).
(** [window.location.pathname !== '/sign-in'] *)
Context (away_from_sign_in : bool).

(** ** The request interceptor *)
Definition bearer (token : jsstring) : jsstring := js "Bearer " ++ token.
Definition store_token (t : Tab) : option jsstring :=
  match accessToken (auth t) with Some (c :: token) => Some (c :: token) | _ => None end.

Definition with_headers (headers : list (jsstring * jsstring)) (cfg : ApiRequestConfig) : ApiRequestConfig :=
  match own headers (js "Authorization") with Some a => set_authorization a cfg | None => cfg end.

Definition is_single_use (cfg : ApiRequestConfig) : bool := singleUseAuthorization cfg || securityProof cfg.

Definition dispatch (now : num) (i : nat) (cfg : ApiRequestConfig) (c : Client) : Client :=
  if is_single_use cfg then
    let cfg := set_skip cfg in
    match fresh_headers_now now (tab c) with
    | Some headers => send_request i (with_headers headers cfg) c
    | None => set_call i cfg WaitingHeaders (set_tab (refreshAuthentication (tab c)) c)
    end
  else
    match store_token (tab c) with
    | Some token => send_request i (set_authorization (bearer token) cfg) c
    | None => send_request i cfg c
    end.

(** ** The response interceptors *)
Definition redirectToSignIn (c : Client) : Client :=
  if away_from_sign_in then tell_page [RedirectToSignIn] c else c.
Definition session_expired (i : nat) (cfg : ApiRequestConfig) (c : Client) : Client :=
  if skipErrorHandler cfg then c else tell_page [SessionExpiredNotice i] c.

Definition is_success (body : jsval) : bool :=
  match prop body (js "success") with VBoolean true => true | _ => false end.

Definition on_success (i : nat) (cfg : ApiRequestConfig) (code : Z) (body : jsval) (c : Client) : Client :=
  if acceptAuthRotation cfg && is_success body then
    match applyAuthRotation (prop body (js "data")) (tab c) with
    | inl error => settle i cfg (RotationThrew error) c
    | inr t => settle i cfg (Responded code body) (set_tab t c)
    end
  else settle i cfg (Responded code body) c.

Definition on_failure (i : nat) (cfg : ApiRequestConfig) (code : option Z) (c : Client) : Client :=
  if bool_decide (code = Some 401%Z) then
    if negb (skipAuthRefresh cfg) && negb (authRetry cfg) then
      set_call i (set_retry cfg) WaitingRefresh (set_tab (refreshAuthentication (tab c)) c)
    else if authRetry cfg then
      settle i cfg (CallFailed code)
        (redirectToSignIn (session_expired i cfg (set_tab (clearAuthentication false complete (tab c)) c)))
    else settle i cfg (CallFailed code) (session_expired i cfg c)
  else settle i cfg (CallFailed code) c.

(** ** The refresh has settled *)
Definition resume_refresh (i : nat) (cfg : ApiRequestConfig) (s : Settlement) (c : Client) : Client :=
  match s with
  | Rejected error => settle i cfg (RefreshThrew error) c
  | Resolved (Authenticated _) =>
      let cfg := match store_token (tab c) with Some token => set_authorization (bearer token) cfg | None => cfg end in
      set_call i cfg Queued c
  | Resolved (TransientError _) => settle i cfg (CallFailed (Some 401%Z)) c
  | Resolved _ => settle i cfg (CallFailed (Some 401%Z)) (redirectToSignIn (session_expired i cfg c))
  end.

(** Errors that the request interceptor throws pass through the response
    interceptor, which does nothing with them: none is a 401. *)
Definition resume_headers (now : num) (i : nat) (cfg : ApiRequestConfig) (s : Settlement) (c : Client) : Client :=
  match s with
  | Rejected _ => settle i cfg HeadersThrew c
  | Resolved outcome =>
      match fresh_headers_after now outcome (tab c) with
      | inr headers => send_request i (with_headers headers cfg) c
      | inl _ => settle i cfg HeadersThrew c
      end
  end.

Definition resume (now : num) (s : Settlement) (i : nat) (c : Client) : Client :=
  match calls c !! i with
  | Some (mkCall cfg WaitingHeaders _) => resume_headers now i cfg s c
  | Some (mkCall cfg WaitingRefresh _) => resume_refresh i cfg s c
  | _ => c
  end.

(** Every call that waits for the refresh, in order. *)
Definition resume_all (now : num) (s : Settlement) (c : Client) : Client :=
  foldl (λ c i, resume now s i c) c (seq 0 (length (calls c))).

(** ** Events *)
Inductive ClientEvent :=
  | RequestCalled (cfg : ApiRequestConfig)
  | GetCalled (cfg : ApiRequestConfig)
  | Dispatched (i : nat)
  | Answered (i : nat) (code : Z) (body : jsval)     (* a response *)
  | Unanswered (i : nat)                             (* a network error *)
  | TabActs (a : Action).

Definition http_ok (code : Z) : bool := ((200 <=? code) && (code <? 300))%Z.

Definition answer (i : nat) (code : option (Z * jsval)) (c : Client) : Client :=
  match calls c !! i with
  | Some (mkCall cfg AwaitingAnswer _) =>
      match code with
      | Some (code, body) => if http_ok code then on_success i cfg code body c else on_failure i cfg (Some code) c
      | None => on_failure i cfg None c
      end
  | _ => c
  end.

Definition client_step (now : num) (e : ClientEvent) (c : Client) : Client :=
  match e with
  | RequestCalled cfg => start_call cfg None c
  | GetCalled cfg => (api_get cfg c).2
  | Dispatched i =>
      match calls c !! i with Some (mkCall cfg Queued _) => dispatch now i cfg c | _ => c end
  | Answered i code body => answer i (Some (code, body)) c
  | Unanswered i => answer i None c
  | TabActs a =>
      match step authSyncSource (tab c) a with
      | Some (t, settled) =>
          let c := set_tab t c in
          match settled with Some s => resume_all now s c | None => c end
      | None => c
      end
  end.

Definition client_run (es : list (num * ClientEvent)) (c : Client) : Client :=
  foldl (λ c e, client_step e.1 e.2 c) c es.

Inductive client_reachable : Client → Prop :=
  | client_starts : client_reachable (initial_client initial_tab)
  | client_moves now e c : client_reachable c → client_reachable (client_step now e c).
End Client.
