(* ===== verification/HttpClientFacts.v ===== *)
(** * Facts about the HTTP client

    The life of one call as a step relation of its own, the refinement of that
    relation by the steps of the client, and the quantities that bound a call:
    the requests it may still send and the events it still needs. *)

From S2P Require Import Prelude JsNumber JsText Types Runtime JsMap JsValue AuthSession AuthTabs AuthSessionFacts HttpClient.

(** ** One call *)

Definition settled_call (k : Call) : bool := match call_phase k with Ended _ => true | _ => false end.
Definition waiting_call (k : Call) : bool :=
  match call_phase k with WaitingHeaders | WaitingRefresh => true | _ => false end.

(** May the call be repeated after a 401? *)
Definition may_retry (c : ApiRequestConfig) : bool := negb (skipAuthRefresh c) && negb (authRetry c).
(** A call that is sent once, whatever the answer. *)
Definition sent_once (c : ApiRequestConfig) : bool := skipAuthRefresh c || is_single_use c.

(** What a call gives away in a step: requests sent and notices shown. *)
Record Emission := mkEmission { emitted_requests : nat; emitted_notices : nat }.

(** A step of a call; [c'] is its config afterwards. *)
Inductive call_step : Call → Emission → Call → Prop :=
  | call_sends c c' d :
      is_single_use c = false → may_retry c' = may_retry c → sent_once c' = sent_once c →
      is_single_use c' = is_single_use c → skipErrorHandler c' = skipErrorHandler c →
      call_step (mkCall c Queued d) (mkEmission 1 0) (mkCall c' AwaitingAnswer d)
  | call_sends_fresh c c' d p :
      is_single_use c = true → may_retry c' = false → is_single_use c' = true →
      skipErrorHandler c' = skipErrorHandler c → p = Queued ∨ p = WaitingHeaders →
      call_step (mkCall c p d) (mkEmission 1 0) (mkCall c' AwaitingAnswer d)
  | call_waits_for_headers c c' d :
      is_single_use c = true → is_single_use c' = true → skipErrorHandler c' = skipErrorHandler c →
      call_step (mkCall c Queued d) (mkEmission 0 0) (mkCall c' WaitingHeaders d)
  | call_waits_for_refresh c c' d :
      may_retry c = true → may_retry c' = false → sent_once c' = sent_once c →
      is_single_use c' = is_single_use c → skipErrorHandler c' = skipErrorHandler c →
      call_step (mkCall c AwaitingAnswer d) (mkEmission 0 0) (mkCall c' WaitingRefresh d)
  | call_repeats c c' d :
      may_retry c' = may_retry c → sent_once c' = sent_once c →
      is_single_use c' = is_single_use c → skipErrorHandler c' = skipErrorHandler c →
      call_step (mkCall c WaitingRefresh d) (mkEmission 0 0) (mkCall c' Queued d)
  | call_ends c p d r n :
      p ≠ Queued → (∀ r', p ≠ Ended r') → n ≤ (if skipErrorHandler c then 0 else 1) →
      call_step (mkCall c p d) (mkEmission 0 n) (mkCall c (Ended r) d).

(** The requests a call may still send. *)
Definition repeats_left (c : ApiRequestConfig) : nat := if may_retry c && negb (is_single_use c) then 1 else 0.
Definition requests_left (k : Call) : nat :=
  match call_phase k with
  | Queued | WaitingRefresh => 1 + repeats_left (config k)
  | WaitingHeaders => 1
  | AwaitingAnswer => if may_retry (config k) then 1 else 0
  | Ended _ => 0
  end.

Definition requests_allowed (k : Call) : nat := if sent_once (config k) then 1 else 2.
Definition notices_allowed (k : Call) : nat :=
  if skipErrorHandler (config k) then 0 else if settled_call k then 1 else 0.

Lemma single_sent_once c : is_single_use c = true → sent_once c = true.
Proof. unfold sent_once. intros ->. apply orb_true_r. Qed.

Lemma repeats_single c : is_single_use c = true → repeats_left c = 0.
Proof. unfold repeats_left. intros ->. by rewrite andb_false_r. Qed.

Lemma repeats_spent c : may_retry c = false → repeats_left c = 0.
Proof. unfold repeats_left. by intros ->. Qed.

Lemma call_step_requests k e k' :
  call_step k e k' → emitted_requests e + requests_left k' ≤ requests_left k.
Proof.
  destruct 1 as [c c' d Hs Hm Ho Hs' _|c c' d p Hs Hm Hs' _ Hp|c c' d Hs Hs' _|c c' d Hm Hm' Ho Hs' _
    |c c' d Hm Ho Hs' _|c p d r n Hq He Hn]; unfold requests_left;
    cbn [call_phase config emitted_requests].
  - unfold repeats_left. rewrite Hm, Hs. destruct (may_retry c); cbn; lia.
  - rewrite Hm. destruct Hp as [->| ->]; lia.
  - rewrite repeats_single by done. lia.
  - rewrite Hm, repeats_spent by done. lia.
  - unfold repeats_left. by rewrite Hm, Hs'.
  - destruct p; try lia; by destruct (may_retry c); try lia.
Qed.

Lemma call_step_allowed k e k' : call_step k e k' → requests_allowed k' = requests_allowed k.
Proof.
  destruct 1; unfold requests_allowed; cbn [config];
    try match goal with H : sent_once _ = sent_once _ |- _ => by rewrite H end; try done.
  all: by rewrite !single_sent_once.
Qed.

Lemma call_step_notices k e k' :
  call_step k e k' → emitted_notices e + notices_allowed k ≤ notices_allowed k'.
Proof.
  unfold notices_allowed, settled_call.
  destruct 1 as [c c'|c c' d p Hs Hm Hs' Hk Hp| | | |c p d r n Hq He Hn];
    cbn [call_phase config emitted_notices]; try (case_match; lia).
  - destruct Hp as [->| ->]; case_match; lia.
  - destruct p; try (destruct (skipErrorHandler c); lia). by destruct (He r0).
Qed.

(** The events a call still needs, when the refresh in flight needs [signals]
    more: at most 17 for a refresh that starts now. *)
Definition queued_weight (c : ApiRequestConfig) : nat :=
  if is_single_use c then 19 else if may_retry c then 21 else 2.
Definition call_weight (signals : nat) (k : Call) : nat :=
  match call_phase k with
  | Queued => queued_weight (config k)
  | WaitingHeaders => signals + 1
  | AwaitingAnswer => if may_retry (config k) then if is_single_use (config k) then 37 else 20 else 1
  | WaitingRefresh => signals + if is_single_use (config k) then 19 else 2
  | Ended _ => 0
  end.

Lemma queued_weight_bound c : queued_weight c ≤ 21.
Proof. unfold queued_weight. do 2 (case_match; try lia). Qed.

(** A call that has just been moved weighs less; [s] and [s'] are the signals
    the refresh needs before and after. *)
Lemma call_step_weight k e k' s s' :
  call_step k e k' → 1 ≤ s → s' ≤ 17 →
  (call_phase k = WaitingRefresh → may_retry (config k) = false) →
  call_weight s' k' < call_weight s k.
Proof.
  destruct 1 as [c c' d Hs Hm Ho Hs' _|c c' d p Hs Hm Hs' _ Hp|c c' d Hs Hs' _|c c' d Hm Hm' Ho Hs' _
    |c c' d Hm Ho Hs' _|c p d r n Hq He Hn]; unfold call_weight, queued_weight;
    cbn [call_phase config]; intros Hpos Hs17 Hinv.
  - rewrite Hs', Hs, Hm. destruct (may_retry c); lia.
  - rewrite Hm. destruct Hp as [->| ->]; rewrite ?Hs; lia.
  - rewrite Hs. lia.
  - rewrite Hm, Hs'. destruct (is_single_use c); lia.
  - rewrite Hm, Hinv, Hs' by done. destruct (is_single_use c); lia.
  - destruct p as [| | | |r0]; [done|lia| |case_match; lia|by destruct (He r0)].
    repeat (case_match; try lia).
Qed.

(** ** Calls of a client *)

Definition attempts (i : nat) (c : Client) : nat := length (List.filter (λ e, e.1 =? i) (sent c)).
Definition is_notice (i : nat) (p : PageCall) : bool :=
  match p with SessionExpiredNotice j => j =? i | RedirectToSignIn => false end.
Definition notices (i : nat) (c : Client) : nat := length (List.filter (is_notice i) (page c)).

(** Call [i] is as it was. *)
Definition same_call (i : nat) (c c' : Client) : Prop :=
  calls c' !! i = calls c !! i ∧ attempts i c' = attempts i c ∧ notices i c' = notices i c.
Definition others_same (i : nat) (c c' : Client) : Prop :=
  length (calls c') = length (calls c) ∧ ∀ j, j ≠ i → same_call j c c'.

(** The keys in flight once a call is [k]. *)
Definition keys_after (k : Call) (g : list (jsstring * nat)) : list (jsstring * nat) :=
  match dedupe k with
  | Some key => if settled_call k then List.filter (λ e, negb (e.1 =s key)) g else g
  | None => g
  end.

(** Call [i] makes the step [e] to [k'], and nothing else changes but the tab. *)
Record call_moves (i : nat) (c : Client) (e : Emission) (k' : Call) (c' : Client) : Prop := mkMoves {
  moves_others : others_same i c c';
  moves_call : calls c' !! i = Some k';
  moves_attempts : attempts i c' = attempts i c + emitted_requests e;
  moves_notices : notices i c' = notices i c + emitted_notices e;
  moves_keys : inFlightGet c' = keys_after k' (inFlightGet c)
}.

Lemma same_call_refl i c : same_call i c c.
Proof. done. Qed.
Lemma same_call_trans i c1 c2 c3 : same_call i c1 c2 → same_call i c2 c3 → same_call i c1 c3.
Proof. intros (?&?&?) (?&?&?). split_and!; congruence. Qed.

Lemma filter_snoc_length {A} (f : A → bool) l x :
  length (List.filter f (l ++ [x])) = length (List.filter f l) + (if f x then 1 else 0).
Proof. rewrite List.filter_app, length_app. cbn. by destruct (f x). Qed.

Lemma set_call_others i cfg p c : others_same i c (set_call i cfg p c).
Proof.
  split; [by apply length_alter|]. intros j Hj. split_and!; [|done..]. by apply list_lookup_alter_ne.
Qed.

Lemma set_call_at i cfg p c k :
  calls c !! i = Some k → calls (set_call i cfg p c) !! i = Some (mkCall cfg p (dedupe k)).
Proof. intros Hk. cbn. by rewrite list_lookup_alter_eq, Hk. Qed.

Lemma set_call_moves i cfg p c k :
  calls c !! i = Some k → (∀ r, p ≠ Ended r) →
  call_moves i c (mkEmission 0 0) (mkCall cfg p (dedupe k)) (set_call i cfg p c).
Proof.
  intros Hk Hp. split; [apply set_call_others|by apply set_call_at|symmetry; apply Nat.add_0_r..|].
  unfold keys_after, settled_call. cbn. destruct (dedupe k); [|done]. destruct p; try done. by destruct (Hp r).
Qed.

Lemma send_request_moves i cfg c k :
  calls c !! i = Some k →
  call_moves i c (mkEmission 1 0) (mkCall cfg AwaitingAnswer (dedupe k)) (send_request i cfg c).
Proof.
  intros Hk. destruct (set_call_others i cfg AwaitingAnswer c) as [Hl Ho]. split.
  - split; [done|]. intros j Hj. destruct (Ho j Hj) as (Hc & _ & _). split_and!; [done| |done].
    unfold attempts. cbn. rewrite filter_snoc_length. cbn [fst]. rewrite (proj2 (Nat.eqb_neq i j)) by done. lia.
  - by apply set_call_at.
  - unfold attempts. cbn. rewrite filter_snoc_length. cbn [fst]. by rewrite Nat.eqb_refl.
  - symmetry. apply Nat.add_0_r.
  - cbn. unfold keys_after. cbn. by destruct (dedupe k).
Qed.

Lemma settle_moves i cfg r c k :
  calls c !! i = Some k →
  call_moves i c (mkEmission 0 0) (mkCall cfg (Ended r) (dedupe k)) (settle i cfg r c).
Proof.
  intros Hk. unfold settle. rewrite Hk. cbn [mbind option_bind].
  destruct (set_call_others i cfg (Ended r) c) as [Hl Ho]. pose proof (set_call_at i cfg (Ended r) c k Hk) as Hc.
  split; unfold release, keys_after; cbn [dedupe settled_call call_phase]; destruct (dedupe k); try done.
  all: first [done|symmetry; apply Nat.add_0_r].
Qed.

(** A change of the tab or of the page before a move. *)
Lemma set_tab_moves i t c e k' c' : call_moves i (set_tab t c) e k' c' → call_moves i c e k' c'.
Proof. by intros []. Qed.
Lemma redirect_moves i (l : list PageCall) c e k' c' :
  Forall (λ p, ∀ j, is_notice j p = false) l → call_moves i (tell_page l c) e k' c' → call_moves i c e k' c'.
Proof.
  intros Hl. assert (∀ j, notices j (tell_page l c) = notices j c) as Hn.
  { intros j. unfold notices. cbn. rewrite List.filter_app, length_app.
    induction Hl as [|p l Hp _ IH]; [cbn; lia|]. cbn. by rewrite Hp. }
  intros [[Hlen Ho] Hc Ha Hno Hk]. split; [|done|done|by rewrite Hno, Hn|done].
  split; [done|]. intros j Hj. destruct (Ho j Hj) as (?&?&?). split_and!; [done..|]. by rewrite <- Hn.
Qed.
Lemma notice_moves i cfg c n k' c' :
  call_moves i (session_expired i cfg c) (mkEmission 0 n) k' c' →
  call_moves i c (mkEmission 0 (n + if skipErrorHandler cfg then 0 else 1)) k' c'.
Proof.
  unfold session_expired. destruct (skipErrorHandler cfg); [by rewrite Nat.add_0_r|].
  assert (∀ j, notices j (tell_page [SessionExpiredNotice i] c) = notices j c + if i =? j then 1 else 0) as Hn
    by (intros j; apply (filter_snoc_length (is_notice j))).
  intros [[Hlen Ho] Hc Ha Hno Hk]. split; [|done|done| |done].
  - split; [done|]. intros j Hj. destruct (Ho j Hj) as (?&?&Hnj). split_and!; [done..|].
    rewrite Hnj, Hn, (proj2 (Nat.eqb_neq i j)) by done. lia.
  - rewrite Hno, Hn, Nat.eqb_refl. cbn. lia.
Qed.

(** ** The steps of a client move calls by [call_step] *)

Lemma set_authorization_config a c :
  may_retry (set_authorization a c) = may_retry c ∧ sent_once (set_authorization a c) = sent_once c ∧
  is_single_use (set_authorization a c) = is_single_use c ∧
  skipErrorHandler (set_authorization a c) = skipErrorHandler c.
Proof. done. Qed.
Lemma with_headers_config headers c :
  may_retry (with_headers headers c) = may_retry c ∧ sent_once (with_headers headers c) = sent_once c ∧
  is_single_use (with_headers headers c) = is_single_use c ∧
  skipErrorHandler (with_headers headers c) = skipErrorHandler c.
Proof. unfold with_headers. by destruct (own headers _). Qed.

Lemma call_step_unsettled k e k' : call_step k e k' → settled_call k = false ∧ dedupe k' = dedupe k.
Proof.
  destruct 1 as [|c c' d p Hs Hm Hs' Hk [->| ->]| | | |c p d r n Hq He Hn]; try done.
  unfold settled_call. cbn. split; [|done]. destruct p as [| | | |r']; try done. by destruct (He r').
Qed.

Lemma in_filter {A} (f : A → bool) l x : x ∈ List.filter f l ↔ x ∈ l ∧ f x = true.
Proof. rewrite !list_elem_of_In. apply filter_In. Qed.

Lemma filter_keys_NoDup {K V} (f : K * V → bool) (l : list (K * V)) : NoDup l.*1 → NoDup (List.filter f l).*1.
Proof.
  induction l as [|[k v] l IH]; cbn; [done|]. intros [Hk Hd]%NoDup_cons. destruct (f (k, v)); [|by apply IH].
  cbn. apply NoDup_cons. split; [|by apply IH]. intros ([k2 v2] & -> & Hin%in_filter)%list_elem_of_fmap.
  apply Hk. apply list_elem_of_fmap. exists (k2, v2). split; [done|apply Hin].
Qed.

Section Steps.
Context `{Browser} (own_source : jsstring) (away : bool).
#[local] Set Default Proof Using "All".
Abbreviation act := (AuthTabs.act own_source).
Abbreviation client_step := (client_step own_source away).

(** The tab is as it was, or did what its own code can do. *)
Definition tab_acts (t t' : Tab) : Prop := t' = t ∨ ∃ a, is_signal a = false ∧ t' = act a t.

Lemma refresh_tab_acts t : tab_acts t (refreshAuthentication t).
Proof. right. by exists RefreshCalled. Qed.
Lemma clear_tab_acts t : tab_acts t (clearAuthentication false complete t).
Proof. right. by exists (SignOut false complete). Qed.
Lemma rotation_tab_acts v t t' : applyAuthRotation v t = inr t' → tab_acts t t'.
Proof. intros Hv. right. exists (Rotate v). cbn. by rewrite Hv. Qed.

Lemma refreshing t : is_Some (refreshPromise (refreshAuthentication t)).
Proof.
  destruct (refreshPromise t) as [r|] eqn:Hr; [by rewrite (refresh_joins t r Hr)|].
  by destruct (refresh_starts t Hr) as (r & -> & _).
Qed.

(** What a wait says of its call. *)
Definition waits_well (k : Call) : Prop :=
  match call_phase k with
  | WaitingHeaders => is_single_use (config k) = true ∧ may_retry (config k) = false
  | WaitingRefresh => may_retry (config k) = false
  | _ => True
  end.

(** A call makes one step, and waits only for a refresh that is in flight. *)
Definition progresses (i : nat) (c : Client) (k : Call) (c' : Client) : Prop :=
  ∃ e k', call_step k e k' ∧ call_moves i c e k' c' ∧ tab_acts (tab c) (tab c') ∧
    (waiting_call k' = true → is_Some (refreshPromise (tab c'))) ∧
    waits_well k'.

Lemma progress_intro i c k e k' c' :
  call_step k e k' → call_moves i c e k' c' → tab_acts (tab c) (tab c') → waiting_call k' = false →
  progresses i c k c'.
Proof.
  intros Hs Hm Ht Hw. exists e, k'. split_and!; [done..|congruence|].
  unfold waiting_call in Hw. unfold waits_well. by destruct (call_phase k').
Qed.

Lemma dispatch_progresses now i cfg c d :
  calls c !! i = Some (mkCall cfg Queued d) →
  progresses i c (mkCall cfg Queued d) (dispatch now i cfg c).
Proof.
  intros Hk. unfold dispatch. destruct (is_single_use cfg) eqn:Hs.
  - assert (may_retry (set_skip cfg) = false ∧ is_single_use (set_skip cfg) = true) as [Hm Hs'] by done.
    destruct (fresh_headers_now now (tab c)) as [headers|].
    + destruct (with_headers_config headers (set_skip cfg)) as (Ha & _ & Hb & He).
      eapply progress_intro; [|by apply (send_request_moves _ _ _ _ Hk)|by left|done].
      apply call_sends_fresh; [done|by rewrite Ha|by rewrite Hb|by rewrite He|by left].
    + exists (mkEmission 0 0), (mkCall (set_skip cfg) WaitingHeaders d). split_and!.
      * by apply call_waits_for_headers.
      * eapply set_tab_moves. by apply (set_call_moves i (set_skip cfg) WaitingHeaders (set_tab _ c) _ Hk).
      * apply refresh_tab_acts.
      * intros _. apply refreshing.
      * done.
  - destruct (store_token (tab c)) as [token|];
      (eapply progress_intro; [|by apply (send_request_moves _ _ _ _ Hk)|by left|done]); by apply call_sends.
Qed.

(** The end of a call whose answer, headers or refresh has come. *)
Lemma ends_progress i c cfg p d n r c' :
  p ≠ Queued → (∀ r', p ≠ Ended r') → n ≤ (if skipErrorHandler cfg then 0 else 1) →
  call_moves i c (mkEmission 0 n) (mkCall cfg (Ended r) d) c' → tab_acts (tab c) (tab c') →
  progresses i c (mkCall cfg p d) c'.
Proof. intros Hq He Hn Hm Ht. eapply progress_intro; [by apply call_ends|exact Hm|done|done]. Qed.

Lemma settle_tab i cfg r c : tab (settle i cfg r c) = tab c.
Proof. unfold settle, release. by destruct (calls c !! i ≫= dedupe). Qed.
Lemma page_calls_tab i cfg c :
  tab (session_expired i cfg c) = tab c ∧ calls (session_expired i cfg c) = calls c ∧
  tab (redirectToSignIn away c) = tab c ∧ calls (redirectToSignIn away c) = calls c.
Proof. unfold session_expired, redirectToSignIn. by destruct (skipErrorHandler cfg), away. Qed.

(** The session has expired: a notice unless the call has none, and the way to
    the sign-in page. *)
Lemma expired_progress i c t cfg p d r :
  calls c !! i = Some (mkCall cfg p d) → p ≠ Queued → (∀ r', p ≠ Ended r') → tab_acts (tab c) t →
  progresses i c (mkCall cfg p d) (settle i cfg r (redirectToSignIn away (session_expired i cfg (set_tab t c)))).
Proof.
  intros Hk Hq He Ht. destruct (page_calls_tab i cfg (set_tab t c)) as (Ht1 & Hc1 & _).
  destruct (page_calls_tab i cfg (session_expired i cfg (set_tab t c))) as (_ & _ & Ht2 & Hc2).
  apply (ends_progress i c cfg p d (0 + if skipErrorHandler cfg then 0 else 1) r); [done..| |].
  - eapply set_tab_moves, notice_moves. unfold redirectToSignIn.
    assert (calls (redirectToSignIn away (session_expired i cfg (set_tab t c))) !! i = Some (mkCall cfg p d)) as Hk'
      by (by rewrite Hc2, Hc1).
    pose proof (settle_moves i cfg r _ _ Hk') as Hm. unfold redirectToSignIn in Hm. cbn [dedupe] in Hm.
    destruct away; [|done]. by eapply (redirect_moves i [RedirectToSignIn]); [constructor|].
  - by rewrite settle_tab, Ht2, Ht1.
Qed.

Lemma on_success_progresses i cfg code body c d :
  calls c !! i = Some (mkCall cfg AwaitingAnswer d) →
  progresses i c (mkCall cfg AwaitingAnswer d) (on_success i cfg code body c).
Proof.
  intros Hk. unfold on_success. destruct (_ && _); [destruct (applyAuthRotation _ _) as [error|t] eqn:Hr|].
  2: { eapply (ends_progress _ _ _ _ _ 0); [done..|lia| |rewrite settle_tab; by eapply rotation_tab_acts].
       eapply set_tab_moves. by apply (settle_moves _ _ _ (set_tab t c) _ Hk). }
  all: eapply (ends_progress _ _ _ _ _ 0); [done..|lia|by apply (settle_moves _ _ _ _ _ Hk)|].
  all: rewrite settle_tab; by left.
Qed.

Lemma on_failure_progresses i cfg code c d :
  calls c !! i = Some (mkCall cfg AwaitingAnswer d) →
  progresses i c (mkCall cfg AwaitingAnswer d) (on_failure away i cfg code c).
Proof.
  intros Hk. unfold on_failure. destruct (bool_decide _).
  2: { eapply (ends_progress _ _ _ _ _ 0); [done..|lia|by apply (settle_moves _ _ _ _ _ Hk)|].
       rewrite settle_tab. by left. }
  destruct (_ && _) eqn:Hm; [|destruct (authRetry cfg) eqn:Ha].
  - exists (mkEmission 0 0), (mkCall (set_retry cfg) WaitingRefresh d). split_and!.
    + apply call_waits_for_refresh; [done| |done..]. apply andb_false_r.
    + eapply set_tab_moves. by apply (set_call_moves i (set_retry cfg) WaitingRefresh (set_tab _ c) _ Hk).
    + apply refresh_tab_acts.
    + intros _. apply refreshing.
    + apply andb_false_r.
  - apply expired_progress; [done..|apply clear_tab_acts].
  - destruct (page_calls_tab i cfg c) as (Ht & Hc & _).
    eapply (ends_progress _ _ _ _ _ (0 + if skipErrorHandler cfg then 0 else 1)); [done..| |].
    + apply notice_moves. apply (settle_moves _ _ _ _ (mkCall cfg AwaitingAnswer d)). by rewrite Hc.
    + rewrite settle_tab, Ht. by left.
Qed.

(** A refresh that settles moves every call that waits for it, and none of
    them waits again. *)
Definition wakes (i : nat) (c : Client) (k : Call) (c' : Client) : Prop :=
  ∃ e k', call_step k e k' ∧ call_moves i c e k' c' ∧ waiting_call k' = false.

Lemma wakes_ends i c cfg p d n r c' :
  p ≠ Queued → (∀ r', p ≠ Ended r') → n ≤ (if skipErrorHandler cfg then 0 else 1) →
  call_moves i c (mkEmission 0 n) (mkCall cfg (Ended r) d) c' → wakes i c (mkCall cfg p d) c'.
Proof. intros Hq He Hn Hm. eexists _, _. split_and!; [by apply call_ends|exact Hm|done]. Qed.

Lemma resume_refresh_wakes i cfg s c d :
  calls c !! i = Some (mkCall cfg WaitingRefresh d) →
  wakes i c (mkCall cfg WaitingRefresh d) (resume_refresh away i cfg s c).
Proof.
  intros Hk.
  assert (∀ r, wakes i c (mkCall cfg WaitingRefresh d) (settle i cfg r c)) as Hsettle.
  { intros r. apply (wakes_ends _ _ _ _ _ 0 r); [done..|lia|by apply (settle_moves _ _ _ _ _ Hk)]. }
  assert (∀ r, wakes i c (mkCall cfg WaitingRefresh d) (settle i cfg r (redirectToSignIn away (session_expired i cfg c))))
    as Hexpired.
  { intros r. destruct (expired_progress i c (tab c) cfg WaitingRefresh d r Hk) as (e & k' & Hs & Hm & _);
      [done..|by left|].
    exists e, k'. destruct c. split_and!; [done..|]. by inversion Hs. }
  unfold resume_refresh. destruct s as [[b| |error|code]|error]; try apply Hsettle; try apply Hexpired.
  set (cfg' := match store_token (tab c) with Some token => _ | None => cfg end).
  exists (mkEmission 0 0), (mkCall cfg' Queued d).
  split_and!; [|by apply (set_call_moves i cfg' Queued c _ Hk)|done].
  apply call_repeats; unfold cfg'; by destruct (store_token (tab c)).
Qed.

Lemma resume_headers_wakes now i cfg s c d :
  is_single_use cfg = true → may_retry cfg = false →
  calls c !! i = Some (mkCall cfg WaitingHeaders d) →
  wakes i c (mkCall cfg WaitingHeaders d) (resume_headers now i cfg s c).
Proof.
  intros Hs Hm Hk.
  assert (∀ r, wakes i c (mkCall cfg WaitingHeaders d) (settle i cfg r c)) as Hsettle.
  { intros r. apply (wakes_ends _ _ _ _ _ 0 r); [done..|lia|by apply (settle_moves _ _ _ _ _ Hk)]. }
  unfold resume_headers. destruct s as [outcome|error]; [|apply Hsettle].
  destruct (fresh_headers_after _ _ _) as [error|headers]; [apply Hsettle|].
  destruct (with_headers_config headers cfg) as (Ha & _ & Hb & He).
  eexists _, _. split_and!; [|by apply (send_request_moves _ _ _ _ Hk)|done].
  apply call_sends_fresh; [done|by rewrite Ha|by rewrite Hb|done|by right].
Qed.

Lemma resume_wakes now s i c k :
  calls c !! i = Some k → waits_well k →
  if waiting_call k then wakes i c k (resume away now s i c) else resume away now s i c = c.
Proof.
  intros Hk Hw. unfold resume. rewrite Hk. destruct k as [cfg [| | | |r] d]; cbn; try done.
  - destruct Hw. by apply resume_headers_wakes.
  - by apply resume_refresh_wakes.
Qed.

Lemma resume_tab now s i c : tab (resume away now s i c) = tab c.
Proof.
  assert (∀ cfg, tab (redirectToSignIn away (session_expired i cfg c)) = tab c) as Hx.
  { intros cfg. destruct (page_calls_tab i cfg (session_expired i cfg c)) as (_ & _ & -> & _).
    apply page_calls_tab. }
  unfold resume, resume_refresh, resume_headers.
  destruct (calls c !! i) as [[cfg [] d]|]; try done; destruct s as [[]|]; rewrite ?settle_tab, ?Hx; try done.
  all: case_match; by rewrite ?settle_tab.
Qed.

(** Call [j], which was [k], has made a step. *)
Definition stepped (j : nat) (c : Client) (k : Call) (c' : Client) : Prop :=
  ∃ e k', call_step k e k' ∧ calls c' !! j = Some k' ∧ waits_well k' ∧
    attempts j c' = attempts j c + emitted_requests e ∧ notices j c' = notices j c + emitted_notices e ∧
    (waiting_call k' = true → is_Some (refreshPromise (tab c'))).

Lemma stepped_same_l j c1 c2 k c3 : same_call j c1 c2 → stepped j c2 k c3 → stepped j c1 k c3.
Proof.
  intros (_ & Ha & Hn) (e & k' & ? & ? & ? & ? & ? & ?). exists e, k'. split_and!; [done..|lia|lia|done].
Qed.
Lemma stepped_same_r j c1 k c2 c3 :
  tab c3 = tab c2 → stepped j c1 k c2 → same_call j c2 c3 → stepped j c1 k c3.
Proof.
  intros Ht (e & k' & ? & ? & ? & ? & ? & ?) (Hc & Ha & Hn). exists e, k'.
  split_and!; [done|congruence|done|lia|lia|by rewrite Ht].
Qed.

Lemma not_waiting_well k : waiting_call k = false → waits_well k.
Proof. unfold waiting_call, waits_well. by destruct (call_phase k). Qed.

Lemma wakes_stepped i c k c' : wakes i c k c' → stepped i c k c'.
Proof.
  intros (e & k' & Hs & [] & Hw). exists e, k'. split_and!; [done..|by apply not_waiting_well|done|done|congruence].
Qed.
Lemma progress_stepped i c k c' : progresses i c k c' → stepped i c k c'.
Proof. intros (e & k' & Hs & [] & _ & Hw & Hww). exists e, k'. by split_and!. Qed.

(** The waits of the calls of a client are all in order. *)
Definition waits_ok (c : Client) : Prop := ∀ i k, calls c !! i = Some k → waits_well k.

Definition resume_each (now : num) (s : Settlement) (l : list nat) (c : Client) : Client :=
  foldl (λ c i, resume away now s i c) c l.

Lemma resume_each_cons now s i l c :
  resume_each now s (i :: l) c = resume_each now s l (resume away now s i c).
Proof. done. Qed.

Lemma resume_same now s i c j : waits_ok c → j ≠ i → same_call j c (resume away now s i c).
Proof.
  intros Hok Hj. destruct (calls c !! i) as [k|] eqn:Hk; [|by unfold resume; rewrite Hk].
  pose proof (resume_wakes now s i c k Hk (Hok _ _ Hk)) as Hw. destruct (waiting_call k); [|by rewrite Hw].
  destruct Hw as (e & k' & _ & [[_ Ho] _ _ _ _] & _). by apply Ho.
Qed.

Lemma resume_length now s i c : waits_ok c → length (calls (resume away now s i c)) = length (calls c).
Proof.
  intros Hok. destruct (calls c !! i) as [k|] eqn:Hk; [|by unfold resume; rewrite Hk].
  pose proof (resume_wakes now s i c k Hk (Hok _ _ Hk)) as Hw. destruct (waiting_call k); [|by rewrite Hw].
  by destruct Hw as (e & k' & _ & [[Hl _] _ _ _ _] & _).
Qed.

Lemma resume_waits_ok now s i c : waits_ok c → waits_ok (resume away now s i c).
Proof.
  intros Hok j k' Hk'. destruct (decide (j = i)) as [->|Hj].
  - destruct (calls c !! i) as [k|] eqn:Hk; [|by unfold resume in Hk'; rewrite Hk in Hk'; eapply Hok].
    pose proof (resume_wakes now s i c k Hk (Hok _ _ Hk)) as Hw.
    destruct (waiting_call k); [|rewrite Hw in Hk'; by eapply Hok].
    destruct Hw as (e & k1 & _ & [_ Hc _ _ _] & Hw). rewrite Hc in Hk'. injection Hk' as <-.
    by apply not_waiting_well.
  - destruct (resume_same now s i c j Hok Hj) as (Hc & _). rewrite Hc in Hk'. by eapply Hok.
Qed.

Lemma resume_each_tab now s l : ∀ c, tab (resume_each now s l c) = tab c.
Proof. induction l as [|i l IH]; intros c; [done|]. by rewrite resume_each_cons, IH, resume_tab. Qed.

Lemma resume_each_waits_ok now s l : ∀ c, waits_ok c → waits_ok (resume_each now s l c).
Proof. induction l as [|i l IH]; intros c Hc; [done|]. by apply IH, resume_waits_ok. Qed.

Lemma resume_each_length now s l : ∀ c,
  waits_ok c → length (calls (resume_each now s l c)) = length (calls c).
Proof.
  induction l as [|i l IH]; intros c Hc; [done|]. rewrite resume_each_cons, IH by (by apply resume_waits_ok).
  by apply resume_length.
Qed.

Lemma resume_each_other now s l : ∀ c j, waits_ok c → j ∉ l → same_call j c (resume_each now s l c).
Proof.
  induction l as [|i l IH]; intros c j Hc Hj; [done|]. rewrite resume_each_cons.
  apply not_elem_of_cons in Hj as [Hi Hj].
  eapply same_call_trans; [by eapply resume_same|]. by apply IH; [apply resume_waits_ok|].
Qed.

Lemma resume_each_wakes now s l : ∀ c j k,
  waits_ok c → NoDup l → j ∈ l → calls c !! j = Some k →
  if waiting_call k
  then stepped j c k (resume_each now s l c) ∧
       (∀ k', calls (resume_each now s l c) !! j = Some k' → waiting_call k' = false)
  else same_call j c (resume_each now s l c).
Proof.
  induction l as [|i l IH]; intros c j k Hc Hd Hj Hk; [by apply not_elem_of_nil in Hj|].
  apply NoDup_cons in Hd as [Hi Hd]. rewrite resume_each_cons.
  pose proof (resume_waits_ok now s i c Hc) as Hc1.
  destruct (decide (j = i)) as [->|Hji].
  - pose proof (resume_wakes now s i c k Hk (Hc _ _ Hk)) as Hw.
    pose proof (resume_each_other now s l (resume away now s i c) i Hc1 Hi) as Hsame.
    destruct (waiting_call k); [|by rewrite Hw in *]. split.
    + eapply stepped_same_r; [by apply resume_each_tab|by apply wakes_stepped|done].
    + destruct Hsame as (-> & _). destruct Hw as (e & k1 & _ & [_ -> _ _ _] & Hw). by intros k' [= <-].
  - apply elem_of_cons in Hj as [?|Hj]; [done|].
    pose proof (resume_same now s i c j Hc Hji) as Hsame. pose proof Hsame as (Hc' & _).
    specialize (IH (resume away now s i c) j k Hc1 Hd Hj). rewrite Hc' in IH. specialize (IH Hk).
    destruct (waiting_call k); [|by eapply same_call_trans].
    destruct IH. split; [by eapply stepped_same_l|done].
Qed.

(** ** Steps of the client *)

(** The signals the refresh in flight still needs, or those of a new one. *)
Definition refresh_rank (t : Tab) : nat :=
  match refreshPromise t with Some r => phase_rank (phase r) | None => 17 end.

(** Is the event one that call [i] waits for? *)
Definition serves (i : nat) (e : ClientEvent) (c : Client) : bool :=
  match calls c !! i, e with
  | Some (mkCall _ Queued _), Dispatched j => j =? i
  | Some (mkCall _ AwaitingAnswer _), Answered j _ _ | Some (mkCall _ AwaitingAnswer _), Unanswered j => j =? i
  | Some (mkCall _ WaitingHeaders _), TabActs (SignalReceived s)
  | Some (mkCall _ WaitingRefresh _), TabActs (SignalReceived s) =>
      match advance s (tab c) with Some _ => true | None => false end
  | _, _ => false
  end.

Record client_ok (c : Client) : Prop := mkClientOk {
  client_tab : AuthTabs.reachable own_source (tab c);
  client_waits : waits_ok c;
  client_flight : ∀ i k, calls c !! i = Some k → waiting_call k = true → is_Some (refreshPromise (tab c))
}.

(** What a step may do to call [j]: one step of the call; nothing, the refresh
    that it waits for coming closer when the step served it; or its start. *)
Definition call_evolves (served : bool) (j : nat) (c c' : Client) : Prop :=
  match calls c !! j with
  | Some k =>
      stepped j c k c' ∨
      (same_call j c c' ∧
       if waiting_call k
       then is_Some (refreshPromise (tab c')) ∧ refresh_rank (tab c') + Nat.b2n served ≤ refresh_rank (tab c)
       else served = false)
  | None =>
      attempts j c' = attempts j c ∧ notices j c' = notices j c ∧
      ∀ k, calls c' !! j = Some k → call_phase k = Queued
  end.

Lemma tab_acts_reachable t t' :
  tab_acts t t' → AuthTabs.reachable own_source t → AuthTabs.reachable own_source t'.
Proof.
  intros [->|(a & Ha & ->)] Ht; [done|]. apply (reachable_step _ t a _ None Ht). by destruct a.
Qed.

(** The tab's own code leaves a refresh in flight alone. *)
Lemma tab_acts_flight t t' r :
  tab_acts t t' → refreshPromise t = Some r → refreshPromise t' = Some r.
Proof.
  intros [->|(a & _ & ->)] Hr; [done|]. destruct (act_keeps_flight own_source a t r Hr) as (_ & Hk & _).
  congruence.
Qed.
Lemma tab_acts_rank t t' :
  tab_acts t t' → is_Some (refreshPromise t) →
  is_Some (refreshPromise t') ∧ refresh_rank t' = refresh_rank t.
Proof.
  intros Ht [r Hr]. unfold refresh_rank. by rewrite (tab_acts_flight _ _ _ Ht Hr), Hr.
Qed.

Lemma same_evolves c c' j :
  client_ok c → same_call j c c' → tab_acts (tab c) (tab c') → call_evolves false j c c'.
Proof.
  intros [_ _ Hf] Hs Ht. unfold call_evolves. destruct (calls c !! j) as [k|] eqn:Hk.
  - right. split; [done|]. destruct (waiting_call k) eqn:Hw; [|done].
    destruct (tab_acts_rank _ _ Ht (Hf _ _ Hk Hw)) as [? ->]. cbn. split; [done|lia].
  - destruct Hs as (Hc & ? & ?). split_and!; [done..|]. rewrite Hc, Hk. done.
Qed.

Lemma progress_evolves served i c k c' j :
  client_ok c → calls c !! i = Some k → progresses i c k c' → (j ≠ i → served = false) →
  call_evolves served j c c'.
Proof.
  intros Hok Hk Hp Hserved. destruct (decide (j = i)) as [->|Hj].
  - unfold call_evolves. rewrite Hk. left. by apply progress_stepped.
  - rewrite (Hserved Hj). destruct Hp as (e & k' & _ & [[_ Ho] _ _ _ _] & Ht & _).
    apply same_evolves; [done|by apply Ho|done].
Qed.

Lemma start_evolves cfg key c c' j :
  client_ok c → calls c' = calls c ++ [mkCall cfg Queued key] → tab c' = tab c → sent c' = sent c → page c' = page c →
  call_evolves false j c c'.
Proof.
  intros Hok Hc Ht Hs Hp.
  assert (attempts j c' = attempts j c ∧ notices j c' = notices j c) as [Ha Hn]
    by (unfold attempts, notices; by rewrite Hs, Hp).
  destruct (calls c !! j) as [k|] eqn:Hk.
  - apply same_evolves; [done| |left; done]. split_and!; [|done..]. rewrite Hc.
    apply lookup_app_l_Some with (l2 := [mkCall cfg Queued key]) in Hk as Hk'. by rewrite Hk', Hk.
  - unfold call_evolves. rewrite Hk. split_and!; [done..|]. intros k. rewrite Hc.
    intros [Hl|[_ Hl]]%lookup_app_Some; [congruence|]. by apply list_lookup_singleton_Some in Hl as [_ <-].
Qed.

Lemma tab_rank_bounds t : refresh_ok t → 1 ≤ refresh_rank t ≤ 17.
Proof.
  unfold refresh_ok, refresh_rank. destruct (refreshPromise t) as [[ep p]|]; [|lia].
  cbn [phase refreshEpoch]. intros [_ Hp]. pose proof (proj1 (phase_bounds p Hp)). destruct p; cbn in *; lia.
Qed.

(** A signal of the refresh brings it closer to its end; when it ends, every
    call that waits is resumed. *)
Lemma tab_event_evolves now a c j :
  client_ok c → call_evolves (serves j (TabActs a) c) j c (client_step now (TabActs a) c).
Proof.
  intros Hok. destruct (is_signal a) eqn:Ha.
  2: { assert (serves j (TabActs a) c = false) as -> by (unfold serves; destruct (calls c !! j) as [[? [] ?]|]; by destruct a).
       assert (client_step now (TabActs a) c = set_tab (act a (tab c)) c) as -> by (by destruct a).
       apply same_evolves; [done..|]. right. by exists a. }
  destruct a as [| | | | | | | | |signal]; try done. clear Ha. pose proof Hok as [Ht Hw Hf].
  destruct (reachable_ok _ _ Ht) as [_ Href]. cbn [HttpClient.client_step AuthTabs.step].
  destruct (advance signal (tab c)) as [[t settled]|] eqn:Hadv.
  2: { assert (serves j (TabActs (SignalReceived signal)) c = false) as ->
         by (unfold serves; destruct (calls c !! j) as [[? [] ?]|]; by rewrite ?Hadv).
       apply same_evolves; [done..|by left]. }
  destruct (refreshPromise (tab c)) as [r|] eqn:Hr; [|by unfold advance in Hadv; rewrite Hr in Hadv].
  assert (phase_ok (phase r)) as Hp by (unfold refresh_ok in Href; rewrite Hr in Href; apply Href).
  destruct (advance_spec _ _ _ _ _ Hr Hp Hadv) as (_ & _ & Hcase). unfold call_evolves.
  destruct settled as [s|].
  - change (resume_all away now s (set_tab t c)) with (resume_each now s (seq 0 (length (calls c))) (set_tab t c)).
    assert (waits_ok (set_tab t c)) as Hw' by exact Hw.
    destruct (calls c !! j) as [k|] eqn:Hk.
    + assert (j ∈ seq 0 (length (calls c))) as Hj by (apply elem_of_seq; apply lookup_lt_Some in Hk; lia).
      pose proof (resume_each_wakes now s _ (set_tab t c) j k Hw' (NoDup_seq 0 _) Hj Hk) as Hwake.
      destruct (waiting_call k) eqn:Hwk; [left; by destruct Hwake|]. right. split; [done|].
      unfold serves. rewrite Hk. destruct k as [? [] ?]; done.
    + pose proof (resume_each_other now s (seq 0 (length (calls c))) (set_tab t c) j Hw') as Hother.
      apply lookup_ge_None in Hk. destruct Hother as (Hc & Hat & Hn); [rewrite elem_of_seq; lia|].
      split_and!; [done..|]. intros k. rewrite Hc. cbn. by rewrite (proj2 (lookup_ge_None _ _) Hk).
  - destruct Hcase as (p & Hp' & _ & Hlt & _). unfold refresh_rank. cbn [tab set_tab]. rewrite Hp', Hr. cbn [phase].
    destruct (calls c !! j) as [k|] eqn:Hk; [|split_and!; [done..|cbn; congruence]].
    right. split; [done|]. destruct (waiting_call k) eqn:Hwk.
    + split; [done|]. destruct (serves _ _ _); cbn; lia.
    + unfold serves. rewrite Hk. by destruct k as [? [] ?].
Qed.

(** The call that an event is about. *)
Definition event_call (e : ClientEvent) : option nat :=
  match e with Dispatched i | Answered i _ _ | Unanswered i => Some i | _ => None end.

Lemma other_not_served e i j c : event_call e = Some i → j ≠ i → serves j e c = false.
Proof.
  intros He Hj. unfold serves. destruct (calls c !! j) as [[? [] ?]|]; destruct e; try done;
    injection He as ->; by apply Nat.eqb_neq.
Qed.

Lemma idle_evolves e i c j :
  client_ok c → event_call e = Some i → serves i e c = false → call_evolves (serves j e c) j c c.
Proof.
  intros Hok He Hs. assert (serves j e c = false) as ->.
  { destruct (decide (j = i)) as [->|Hj]; [done|by eapply other_not_served]. }
  apply same_evolves; [done..|by left].
Qed.

Lemma started_evolves e cfg key c c' j :
  client_ok c → event_call e = None → (∀ a, e ≠ TabActs a) →
  calls c' = calls c ++ [mkCall cfg Queued key] → tab c' = tab c → sent c' = sent c → page c' = page c →
  call_evolves (serves j e c) j c c'.
Proof.
  intros Hok He Ha Hc Ht Hs Hp.
  assert (serves j e c = false) as ->.
  { unfold serves. destruct (calls c !! j) as [[? [] ?]|]; destruct e; try done; by destruct (Ha a). }
  by eapply start_evolves.
Qed.

(** Every step of the client is, for each call, what [call_evolves] allows. *)
Lemma step_evolves now e c j :
  client_ok c → call_evolves (serves j e c) j c (client_step now e c).
Proof.
  intros Hok. destruct e as [cfg|cfg|i|i code body|i|a]; [| | | | |by apply tab_event_evolves].
  - by eapply started_evolves.
  - cbn. unfold api_get. destruct (disableDuplicate cfg); [by eapply started_evolves|].
    destruct (mget (inFlightGet c) _); [|by eapply started_evolves].
    assert (serves j (GetCalled cfg) c = false) as -> by (unfold serves; by destruct (calls c !! j) as [[? [] ?]|]).
    apply same_evolves; [done..|by left].
  - cbn [HttpClient.client_step].
    destruct (calls c !! i) as [[cfg [] d]|] eqn:Hk;
      try (eapply (idle_evolves _ i); [done..|unfold serves; by rewrite Hk]).
    eapply progress_evolves; [done..|by apply dispatch_progresses|]. by apply other_not_served.
  - cbn [HttpClient.client_step]. unfold answer.
    destruct (calls c !! i) as [[cfg [] d]|] eqn:Hk;
      try (eapply (idle_evolves _ i); [done..|unfold serves; by rewrite Hk]).
    eapply progress_evolves; [done..| |by apply other_not_served].
    destruct (http_ok code); [by apply on_success_progresses|by apply on_failure_progresses].
  - cbn [HttpClient.client_step]. unfold answer.
    destruct (calls c !! i) as [[cfg [] d]|] eqn:Hk;
      try (eapply (idle_evolves _ i); [done..|unfold serves; by rewrite Hk]).
    eapply progress_evolves; [done..|by apply on_failure_progresses|by apply other_not_served].
Qed.

(** ** Invariants *)

Lemma progress_tab i c k c' : progresses i c k c' → tab_acts (tab c) (tab c').
Proof. by intros (e & k' & _ & _ & Ht & _). Qed.

Lemma step_tab now e c :
  tab_acts (tab c) (tab (client_step now e c)) ∨
  ∃ a settled, AuthTabs.step own_source (tab c) a = Some (tab (client_step now e c), settled).
Proof.
  destruct e as [cfg|cfg|i|i code body|i|a]; cbn [HttpClient.client_step].
  - left. by left.
  - left. unfold api_get. destruct (disableDuplicate cfg); [by left|]. destruct (mget _ _); by left.
  - left. destruct (calls c !! i) as [[cfg [] d]|] eqn:Hk; try by left.
    eapply progress_tab. by apply dispatch_progresses.
  - left. unfold answer. destruct (calls c !! i) as [[cfg [] d]|] eqn:Hk; try by left.
    destruct (http_ok code); eapply progress_tab; [by apply on_success_progresses|by apply on_failure_progresses].
  - left. unfold answer. destruct (calls c !! i) as [[cfg [] d]|] eqn:Hk; try by left.
    eapply progress_tab. by apply on_failure_progresses.
  - destruct (AuthTabs.step own_source (tab c) a) as [[t settled]|] eqn:Hs; [|left; by left].
    right. exists a, settled. destruct settled as [s|]; [|done].
    change (tab (resume_all away now s (set_tab t c)))
      with (tab (resume_each now s (seq 0 (length (calls (set_tab t c)))) (set_tab t c))).
    by rewrite resume_each_tab.
Qed.

Lemma step_client_ok now e c : client_ok c → client_ok (client_step now e c).
Proof.
  intros Hok. split.
  - destruct (step_tab now e c) as [Ht|(a & settled & Ht)]; destruct Hok as [Hr _ _];
      [by eapply tab_acts_reachable|by eapply reachable_step].
  - intros j k' Hk'. pose proof (step_evolves now e c j Hok) as He. unfold call_evolves in He.
    destruct (calls c !! j) as [k|] eqn:Hk.
    + destruct He as [(em & k1 & _ & Hc & Hw & _)|[(Hc & _) _]]; rewrite Hc in Hk'; [by injection Hk' as <-|].
      rewrite Hk in Hk'. injection Hk' as <-. by eapply client_waits.
    + destruct He as (_ & _ & Hq). unfold waits_well. by rewrite (Hq _ Hk').
  - intros j k' Hk' Hwait. pose proof (step_evolves now e c j Hok) as He. unfold call_evolves in He.
    destruct (calls c !! j) as [k|] eqn:Hk.
    + destruct He as [(em & k1 & _ & Hc & _ & _ & _ & Hf)|[(Hc & _) Hf]]; rewrite Hc in Hk'.
      * injection Hk' as <-. by apply Hf.
      * rewrite Hk in Hk'. injection Hk' as <-. by rewrite Hwait in Hf; destruct Hf.
    + destruct He as (_ & _ & Hq). unfold waiting_call in Hwait. by rewrite (Hq _ Hk') in Hwait.
Qed.

Lemma client_reachable_ok c : client_reachable own_source away c → client_ok c.
Proof.
  induction 1 as [|now e c _ IH]; [|by apply step_client_ok].
  split; [constructor|by intros i k Hk|by intros i k Hk].
Qed.

(** No call sends more requests or shows more notices than it may. *)
Definition quota_ok (c : Client) : Prop :=
  ∀ i, match calls c !! i with
       | Some k => attempts i c + requests_left k ≤ requests_allowed k ∧ notices i c ≤ notices_allowed k
       | None => attempts i c = 0 ∧ notices i c = 0
       end.

Lemma queued_quota k : call_phase k = Queued → requests_left k ≤ requests_allowed k.
Proof.
  unfold requests_left, requests_allowed. intros ->. unfold repeats_left, may_retry, sent_once.
  destruct (skipAuthRefresh _), (is_single_use _), (authRetry _); cbn; lia.
Qed.

Lemma step_quota now e c : client_ok c → quota_ok c → quota_ok (client_step now e c).
Proof.
  intros Hok Hq j. specialize (Hq j). pose proof (step_evolves now e c j Hok) as He. unfold call_evolves in He.
  destruct (calls c !! j) as [k|] eqn:Hk.
  - destruct He as [(em & k' & Hs & -> & _ & -> & -> & _)|[(-> & -> & ->) _]]; [|by rewrite Hk].
    pose proof (call_step_requests _ _ _ Hs). pose proof (call_step_allowed _ _ _ Hs).
    pose proof (call_step_notices _ _ _ Hs). lia.
  - destruct He as (-> & -> & Hnew), Hq as [-> ->]. destruct (calls (client_step now e c) !! j) as [k'|] eqn:Hk'; [|done].
    pose proof (queued_quota k' (Hnew k' eq_refl)). lia.
Qed.

Lemma client_reachable_quota c : client_reachable own_source away c → quota_ok c.
Proof.
  induction 1 as [|now e c Hr IH]; [done|]. apply step_quota; [by apply client_reachable_ok|done].
Qed.

(** The events a call still needs. *)
Definition potential (i : nat) (c : Client) : nat :=
  match calls c !! i with Some k => call_weight (refresh_rank (tab c)) k | None => 21 end.

Lemma waiting_weight k s s' :
  waiting_call k = true → s' ≤ s → call_weight s' k + (s - s') = call_weight s k.
Proof. unfold waiting_call, call_weight. destruct (call_phase k); try done; lia. Qed.
Lemma idle_weight k s s' : waiting_call k = false → call_weight s' k = call_weight s k.
Proof. unfold waiting_call, call_weight. by destruct (call_phase k). Qed.

Lemma step_potential now e c i :
  client_ok c → potential i (client_step now e c) + Nat.b2n (serves i e c) ≤ potential i c.
Proof.
  intros Hok. pose proof (step_client_ok now e c Hok) as Hok'.
  pose proof (step_evolves now e c i Hok) as He. unfold call_evolves, potential in *.
  destruct Hok as [Hr Hw _], Hok' as [Hr' _ _].
  destruct (reachable_ok _ _ Hr) as [_ Hb%tab_rank_bounds], (reachable_ok _ _ Hr') as [_ Hb'%tab_rank_bounds].
  destruct (calls c !! i) as [k|] eqn:Hk.
  - destruct He as [(em & k' & Hs & -> & _)|[(-> & _) Hrank]].
    + assert (call_weight (refresh_rank (tab (client_step now e c))) k' < call_weight (refresh_rank (tab c)) k).
      { eapply call_step_weight; [exact Hs|lia|lia|]. intros Hp. specialize (Hw _ _ Hk). unfold waits_well in Hw.
        by rewrite Hp in Hw. }
      destruct (serves i e c); cbn; lia.
    + rewrite Hk. destruct (waiting_call k) eqn:Hwk.
      * destruct Hrank as [_ Hrank]. pose proof (waiting_weight k (refresh_rank (tab c))
          (refresh_rank (tab (client_step now e c))) Hwk). lia.
      * rewrite Hrank, (idle_weight k (refresh_rank (tab c))) by done. cbn. lia.
  - destruct He as (_ & _ & Hnew). assert (serves i e c = false) as -> by (unfold serves; by rewrite Hk).
    destruct (calls (client_step now e c) !! i) as [k'|] eqn:Hk'; [|cbn; lia].
    unfold call_weight. rewrite (Hnew k' eq_refl). pose proof (queued_weight_bound (config k')). cbn. lia.
Qed.

(** A call that has not settled waits for an event that can come. *)
Lemma unsettled_enabled c i k :
  client_ok c → calls c !! i = Some k → settled_call k = false → ∃ e, serves i e c = true.
Proof.
  intros [_ _ Hf] Hk Hs. unfold serves. rewrite Hk.
  assert (waiting_call k = true → ∃ s, is_Some (advance s (tab c))) as Hwait.
  { intros Hw. destruct (Hf _ _ Hk Hw) as [r Hr]. by eapply advance_enabled. }
  destruct k as [cfg [| | | |r] d]; [| | | |done].
  - exists (Dispatched i). apply Nat.eqb_refl.
  - destruct (Hwait eq_refl) as (s & r & Hr). exists (TabActs (SignalReceived s)). by rewrite Hr.
  - exists (Unanswered i). apply Nat.eqb_refl.
  - destruct (Hwait eq_refl) as (s & r & Hr). exists (TabActs (SignalReceived s)). by rewrite Hr.
Qed.

(** ** Shared requests *)

(** The keys in flight are those of the calls that have not settled, once each. *)
Definition keys_ok (c : Client) : Prop :=
  NoDup (inFlightGet c).*1 ∧
  ∀ key i, (key, i) ∈ inFlightGet c ↔
    ∃ k, calls c !! i = Some k ∧ dedupe k = Some key ∧ settled_call k = false.

Lemma move_keys i c k e k' c' :
  calls c !! i = Some k → call_step k e k' → call_moves i c e k' c' → keys_ok c → keys_ok c'.
Proof.
  intros Hk Hs [[_ Ho] Hc _ _ Hg] [Hd Hin]. destruct (call_step_unsettled _ _ _ Hs) as [Hu Hdd].
  assert (∀ key j, j ≠ i → (key, j) ∈ inFlightGet c ↔
            ∃ k, calls c' !! j = Some k ∧ dedupe k = Some key ∧ settled_call k = false) as Hothers.
  { intros key j Hj. destruct (Ho j Hj) as (-> & _). apply Hin. }
  unfold keys_after in Hg. destruct (dedupe k') as [key0|] eqn:Hk0; [destruct (settled_call k') eqn:Hset|].
  - assert (∀ key j, (key, j) ∈ inFlightGet c' ↔ (key, j) ∈ inFlightGet c ∧ key ≠ key0) as Hfilter.
    { intros key j. rewrite Hg, in_filter. cbn [fst]. by rewrite negb_true_iff, str_eqb_neq. }
    split; [rewrite Hg; by apply filter_keys_NoDup|]. intros key j. rewrite Hfilter.
    destruct (decide (j = i)) as [->|Hj].
    + rewrite Hin, Hc. split; [intros [(k1 & Hk1 & Hd1 & _) Hne]; congruence|].
      intros (k1 & [= <-] & _ & ?). congruence.
    + rewrite (Hothers key j Hj). split; [by intros [? _]|]. intros Hex. split; [done|]. intros ->.
      apply (Hothers key0 j Hj) in Hex. apply Hj. apply (mget_unique _ _ _ Hd) in Hex.
      assert ((key0, i) ∈ inFlightGet c) as Hi by (apply Hin; exists k; split_and!; congruence).
      apply (mget_unique _ _ _ Hd) in Hi. congruence.
  - split; [by rewrite Hg|]. intros key j. rewrite Hg. destruct (decide (j = i)) as [->|Hj]; [|by apply Hothers].
    rewrite Hin, Hc, Hk. split; intros (k1 & [= <-] & Hd1 & _); eexists; split_and!; (done || congruence).
  - split; [by rewrite Hg|]. intros key j. rewrite Hg. destruct (decide (j = i)) as [->|Hj]; [|by apply Hothers].
    rewrite Hin, Hc, Hk. split; intros (k1 & [= <-] & Hd1 & _); congruence.
Qed.

Lemma start_keys cfg c c' key :
  calls c' = calls c ++ [mkCall cfg Queued key] →
  inFlightGet c' = inFlightGet c ++ (match key with Some key => [(key, length (calls c))] | None => [] end) →
  (∀ k, key = Some k → mget (inFlightGet c) k = None) → keys_ok c → keys_ok c'.
Proof.
  intros Hc Hg Hfresh [Hd Hin]. split.
  - rewrite Hg, fmap_app. destruct key as [k|]; cbn; [|by rewrite app_nil_r].
    apply NoDup_app. split_and!; [done| |apply NoDup_singleton]. intros x Hx ->%list_elem_of_singleton.
    by apply (mget_None (inFlightGet c) k); [apply Hfresh|].
  - intros key2 i. rewrite Hg, Hc, elem_of_app, Hin. split.
    + intros [(k & Hk & Hr)|Hnew].
      * exists k. split; [by apply lookup_app_l_Some|done].
      * destruct key as [k|]; [|by apply not_elem_of_nil in Hnew].
        apply list_elem_of_singleton in Hnew as [= -> ->]. exists (mkCall cfg Queued (Some k)).
        split; [|done]. by rewrite lookup_app_r, Nat.sub_diag by lia.
    + intros (k & [Hk|[Hi Hk]]%lookup_app_Some & Hdk & Hs); [left; by exists k|right].
      apply list_lookup_singleton_Some in Hk as [Hi' <-]. cbn in Hdk. rewrite Hdk.
      apply list_elem_of_singleton. f_equal. lia.
Qed.

Lemma progress_keys i c k c' : calls c !! i = Some k → progresses i c k c' → keys_ok c → keys_ok c'.
Proof. intros Hk (e & k' & Hs & Hm & _). by eapply move_keys. Qed.

Lemma resume_each_keys now s l : ∀ c, waits_ok c → keys_ok c → keys_ok (resume_each now s l c).
Proof.
  induction l as [|i l IH]; intros c Hw Hk; [done|]. rewrite resume_each_cons.
  apply IH; [by apply resume_waits_ok|].
  destruct (calls c !! i) as [k|] eqn:Hi; [|by unfold resume; rewrite Hi].
  pose proof (resume_wakes now s i c k Hi (Hw _ _ Hi)) as Hwake. destruct (waiting_call k); [|by rewrite Hwake].
  destruct Hwake as (e & k' & Hs & Hm & _). by eapply move_keys.
Qed.

Lemma step_keys now e c : client_ok c → keys_ok c → keys_ok (client_step now e c).
Proof.
  intros Hok Hk. destruct e as [cfg|cfg|i|i code body|i|a]; cbn [HttpClient.client_step].
  - eapply (start_keys cfg c _ None); [done|by rewrite app_nil_r|done..].
  - unfold api_get. destruct (disableDuplicate cfg);
      [eapply (start_keys cfg c _ None); [done|by rewrite app_nil_r|done..]|].
    destruct (mget (inFlightGet c) _) eqn:Hg; [done|].
    eapply (start_keys cfg c _ (Some (get_key cfg (tab c)))); [done..| |done]. by intros key [= <-].
  - destruct (calls c !! i) as [[cfg [] d]|] eqn:Hi; try done.
    eapply progress_keys; [exact Hi|by apply dispatch_progresses|done].
  - unfold answer. destruct (calls c !! i) as [[cfg [] d]|] eqn:Hi; try done.
    destruct (http_ok code); (eapply progress_keys; [exact Hi| |done]);
      [by apply on_success_progresses|by apply on_failure_progresses].
  - unfold answer. destruct (calls c !! i) as [[cfg [] d]|] eqn:Hi; try done.
    eapply progress_keys; [exact Hi|by apply on_failure_progresses|done].
  - destruct (AuthTabs.step own_source (tab c) a) as [[t [s|]]|]; [|done..].
    apply (resume_each_keys now s (seq 0 (length (calls c))) (set_tab t c)); [apply Hok|done].
Qed.

Lemma client_reachable_keys c : client_reachable own_source away c → keys_ok c.
Proof.
  induction 1 as [|now e c Hr IH]; [|apply step_keys; [by apply client_reachable_ok|done]].
  split; [constructor|]. intros key i. split; [by intros Hn%not_elem_of_nil|by intros (k & Hn & _)].
Qed.
End Steps.
