(* ===== verification/HttpClientTheorems.v ===== *)
(** * Properties of the HTTP client

    In every execution of the client, with any answers, any interleaving of
    calls and any actions of the tab: how often a call asks the server and
    tells the page, that it settles, and what the sharing of GETs promises. *)

From S2P Require Import Prelude JsNumber JsText Types Runtime JsMap JsValue AuthSession AuthTabs AuthSessionFacts HttpClient HttpClientFacts.

Section Theorems.
Context `{Browser} (own_source : jsstring) (away : bool).
Abbreviation client_step := (client_step own_source away).
Abbreviation client_run := (client_run own_source away).
Abbreviation client_reachable := (client_reachable own_source away).
#[local] Set Default Proof Using "All".

(** The events of a run that call [i] was waiting for. *)
Fixpoint served (i : nat) (es : list (num * ClientEvent)) (c : Client) : nat :=
  match es with
  | [] => 0
  | (now, e) :: es => Nat.b2n (serves i e c) + served i es (client_step now e c)
  end.

Lemma run_potential i es : ∀ c,
  client_reachable c → client_reachable (client_run es c) ∧ potential i (client_run es c) + served i es c ≤ potential i c.
Proof.
  induction es as [|[now e] es IH]; intros c Hr; cbn [served]; [split; [done|unfold client_run; cbn; lia]|].
  pose proof (step_potential own_source away now e c i (client_reachable_ok _ _ _ Hr)) as Hstep.
  destruct (IH (client_step now e c) (client_moves _ _ now e c Hr)) as [Hr' Hp]. split; [exact Hr'|].
  change (client_run ((now, e) :: es) c) with (client_run es (client_step now e c)). lia.
Qed.

Lemma reachable_potential i c : client_reachable c → potential i c ≤ 21.
Proof.
  induction 1 as [|now e c Hr IH]; [done|].
  pose proof (step_potential own_source away now e c i (client_reachable_ok _ _ _ Hr)). lia.
Qed.

Lemma call_kept now e c i k :
  client_ok own_source c → calls c !! i = Some k →
  ∃ k', calls (client_step now e c) !! i = Some k' ∧ (settled_call k = true → k' = k).
Proof.
  intros Hok Hk. pose proof (step_evolves own_source away now e c i Hok) as He. unfold call_evolves in He.
  rewrite Hk in He. destruct He as [(em & k' & Hs & Hc & _)|[(Hc & _) _]].
  - exists k'. split; [done|]. destruct (call_step_unsettled _ _ _ Hs) as [-> _]. done.
  - exists k. by rewrite Hc.
Qed.

Lemma run_call_kept es : ∀ c i k,
  client_reachable c → calls c !! i = Some k →
  ∃ k', calls (client_run es c) !! i = Some k' ∧ (settled_call k = true → k' = k).
Proof.
  induction es as [|[now e] es IH]; intros c i k Hr Hk; [by exists k|].
  destruct (call_kept now e c i k (client_reachable_ok _ _ _ Hr) Hk) as (k1 & Hk1 & Hs1).
  destruct (IH (client_step now e c) i k1 (client_moves _ _ now e c Hr) Hk1) as (k2 & Hk2 & Hs2).
  exists k2. split; [exact Hk2|]. intros Hs. rewrite Hs2; [by apply Hs1|]. by rewrite (Hs1 Hs).
Qed.

Lemma no_weight_settled s k : 1 ≤ s → call_weight s k = 0 → settled_call k = true.
Proof.
  intros Hs. unfold call_weight, settled_call, queued_weight. destruct (call_phase k); try done; repeat case_match; lia.
Qed.

(** A request is repeated at most once. Whatever the server answers, in
    every state the client can reach a call has sent at most two requests, and
    at most one when its refresh is skipped or it spends a flow token or a
    security proof; it has shown at most one notice of an expired session,
    none before it settled and none when its config has no error handler. *)
Theorem request_quota c i k :
  client_reachable c → calls c !! i = Some k →
  attempts i c ≤ 2 ∧
  (skipAuthRefresh (config k) = true ∨ is_single_use (config k) = true → attempts i c ≤ 1) ∧
  notices i c ≤ 1 ∧
  (skipErrorHandler (config k) = true ∨ settled_call k = false → notices i c = 0).
Proof.
  intros Hr Hk. pose proof (client_reachable_quota _ _ _ Hr i) as Hq. rewrite Hk in Hq. destruct Hq as [Ha Hn].
  unfold requests_allowed, notices_allowed, sent_once in *. split_and!.
  - destruct (_ || _); lia.
  - intros [E|E]; rewrite E, ?orb_true_r in Ha; cbn [orb] in Ha; lia.
  - destruct (skipErrorHandler _), (settled_call k); lia.
  - intros [E|E]; rewrite E in Hn; [lia|]. destruct (skipErrorHandler _); lia.
Qed.

(** C10. No call is lost. A call that has not settled always waits for an event
    that can come: the turn of its request, an answer, or a signal of a
    refresh that is in flight; and however these events are interleaved with
    those of other calls and of the tab, after 21 of them the call has
    settled, and its result is final. *)
Theorem calls_settle c i k :
  client_reachable c → calls c !! i = Some k →
  (settled_call k = false → ∃ e, serves i e c = true) ∧
  ∀ es, settled_call k = true ∨ 21 ≤ served i es c →
    ∃ k', calls (client_run es c) !! i = Some k' ∧ settled_call k' = true ∧ (settled_call k = true → k' = k).
Proof.
  intros Hr Hk. split; [intros Hs; exact (unsettled_enabled own_source away c i k (client_reachable_ok _ _ _ Hr) Hk Hs)|].
  intros es Hes. destruct (run_call_kept es c i k Hr Hk) as (k' & Hk' & Hfinal). exists k'. split; [done|].
  split; [|done]. destruct Hes as [Hs|Hes]; [by rewrite (Hfinal Hs)|].
  destruct (run_potential i es c Hr) as [Hr' Hp]. pose proof (reachable_potential i c Hr).
  destruct (reachable_ok _ _ (client_tab _ _ (client_reachable_ok _ _ _ Hr'))) as [_ Hb].
  apply (tab_rank_bounds own_source away) in Hb.
  eapply (no_weight_settled (refresh_rank (tab (client_run es c)))); [lia|].
  unfold potential in Hp at 1. rewrite Hk' in Hp. lia.
Qed.

(** C11. Equal GETs share one request. In every state the client can reach the
    keys in flight are those of the deduplicated calls that have not settled,
    no key twice; a GET whose key is one of them answers with the promise of
    that call and starts nothing, any other GET starts one call, which holds
    its key exactly when duplicates are not allowed; and the entry of a call
    that settles is gone, so the next GET asks the server again. *)
Theorem gets_shared c cfg :
  client_reachable c →
  NoDup (inFlightGet c).*1 ∧
  (∀ key i, (key, i) ∈ inFlightGet c ↔
     ∃ k, calls c !! i = Some k ∧ dedupe k = Some key ∧ settled_call k = false) ∧
  (∀ i k, disableDuplicate cfg = false → calls c !! i = Some k → dedupe k = Some (get_key cfg (tab c)) →
     settled_call k = false → api_get cfg c = (i, c)) ∧
  ((disableDuplicate cfg = true ∨
    ∀ i k, calls c !! i = Some k → dedupe k = Some (get_key cfg (tab c)) → settled_call k = true) →
     (api_get cfg c).1 = length (calls c) ∧
     calls (api_get cfg c).2 = calls c ++ [mkCall cfg Queued (if disableDuplicate cfg then None
                                                             else Some (get_key cfg (tab c)))]).
Proof.
  intros Hr. destruct (client_reachable_keys _ _ _ Hr) as [Hd Hin]. split_and!; [done..| |].
  - intros i k Hdup Hk Hdk Hs. unfold api_get. rewrite Hdup.
    by rewrite (mget_unique _ (get_key cfg (tab c)) i Hd) by (apply Hin; by exists k).
  - intros Hnew. unfold api_get. destruct (disableDuplicate cfg) eqn:Hdup; [done|].
    destruct (mget (inFlightGet c) _) as [i|] eqn:Hg; [|done]. apply mget_Some, Hin in Hg as (k & Hk & Hdk & Hs).
    destruct Hnew as [?|Hnew]; [done|]. by rewrite (Hnew i k Hk Hdk) in Hs.
Qed.
End Theorems.

(** ** A call whose session has expired *)

#[local] Instance locks : Browser := true.

Definition plain_get (target : jsstring) : ApiRequestConfig :=
  mkApiConfig target None false false false false false false false None.

Definition user_value : jsval :=
  VObject [(js "id", VNumber (num_of_Z 42)); (js "username", VString (js "test-user"));
           (js "role", VNumber (num_of_Z 1))].
Definition session_value : jsval :=
  VObject [(js "sid", VString (js "session-a")); (js "current", VBoolean true);
           (js "login_method", VString (js "password")); (js "ip", VString (js "127.0.0.1"));
           (js "user_agent", VString (js "test")); (js "created_at", VNumber (num_of_Z 100));
           (js "last_active_at", VNumber (num_of_Z 100)); (js "expires_at", VNumber (num_of_Z 1000))].
Definition bundle_value (token : jsstring) : jsval :=
  VObject [(js "access_token", VString token); (js "token_type", VString (js "Bearer"));
           (js "access_expires_at", VNumber (num_of_Z 600)); (js "user", user_value);
           (js "session", session_value)].
Definition refreshed : AuthRefreshHTTPResponse :=
  mkResponse 200 (VObject [(js "success", VBoolean true); (js "data", bundle_value (js "new"))]) VUndefined.

(** Two equal GETs of a signed-in tab; the answer is a 401. *)
Definition expired_events : list (num * ClientEvent) :=
  map (pair zero)
    [TabActs (SignIn (bundle_value (js "old")) false); GetCalled (plain_get (js "/api/user/self"));
     GetCalled (plain_get (js "/api/user/self")); Dispatched 0; Answered 0 401 VNull].
(** The refresh, the repetition and its answer. *)
Definition recovery_events : list (num * ClientEvent) :=
  map (pair zero)
    [TabActs (SignalReceived LockGranted); TabActs (SignalReceived (ResponseArrived refreshed));
     TabActs (SignalReceived ReactionsRan); Dispatched 0; Answered 0 200 VNull].
Definition expired_client : Client := client_run [] true expired_events (initial_client initial_tab).
Definition recovered_client : Client := client_run [] true recovery_events expired_client.

Lemma run_reachable_client es : ∀ c, client_reachable [] true c → client_reachable [] true (client_run [] true es c).
Proof. induction es as [|[now e] es IH]; intros c Hc; [done|]. by apply IH, client_moves. Qed.

Lemma expired_reachable : client_reachable [] true expired_client.
Proof. apply run_reachable_client. constructor. Qed.
Lemma recovered_reachable : client_reachable [] true recovered_client.
Proof. apply run_reachable_client, expired_reachable. Qed.

Example request_quota_witness :
  sent recovered_client = [(0, Some (js "Bearer old")); (0, Some (js "Bearer new"))] ∧ attempts 0 recovered_client ≤ 2.
Proof.
  split; [by vm_compute|]. destruct (calls recovered_client !! 0) as [k|] eqn:Hk; [|vm_compute in Hk; done].
  exact (proj1 (request_quota [] true recovered_client 0 k recovered_reachable Hk)).
Defined.

Example calls_settle_witness :
  map call_phase (calls recovered_client) = [Ended (Responded 200 VNull)] ∧
  ∃ k', calls (client_run [] true recovery_events recovered_client) !! 0 = Some k' ∧ settled_call k' = true.
Proof.
  split; [by vm_compute|]. destruct (calls recovered_client !! 0) as [k|] eqn:Hk; [|vm_compute in Hk; done].
  assert (settled_call k = true) as Hs by (vm_compute in Hk; by injection Hk as <-).
  destruct (calls_settle [] true recovered_client 0 k recovered_reachable Hk) as [_ Hsettle].
  destruct (Hsettle recovery_events (or_introl Hs)) as (k' & Hk' & Hs' & _). exists k'. exact (conj Hk' Hs').
Defined.

Example gets_shared_witness :
  length (calls expired_client) = 1 ∧
  (api_get (plain_get (js "/api/user/self")) expired_client).1 = 0.
Proof.
  split; [by vm_compute|]. destruct (calls expired_client !! 0) as [k|] eqn:Hk; [|vm_compute in Hk; done].
  destruct (gets_shared [] true expired_client (plain_get (js "/api/user/self")) expired_reachable)
    as (_ & _ & Hshared & _).
  rewrite (Hshared 0 k eq_refl Hk); [reflexivity| |]; vm_compute in Hk; injection Hk as <-; vm_compute; reflexivity.
Defined.
