(* ===== verification/ChatMessage.v ===== *)
(** * features/playground/lib/message

    The messages of the playground chat: think tags, timing, versions, the
    application of streamed chunks, finalization, and the edits of the
    conversation. [now] is what [Date.now()] reads during the call; the keys
    made by [nanoid] are arguments. *)

From S2P Require Import Prelude JsNumber JsText Types Runtime JsValue.

(** ** types.ts *)
Inductive MessageRole := role_user | role_assistant | role_system.
Inductive MessageStatus := status_loading | status_streaming | status_complete | status_error.

Record MessageVersion := mkVersion { version_id : jsstring; content : jsstring }.

Record Reasoning := mkReasoning {
  r_content : jsstring;
  r_duration : num;
  r_startedAt : option num;
  r_completedAt : option num;
  r_durationMs : option num
}.

Record Message := mkMessage {
  key : jsstring;
  from : MessageRole;
  versions : list MessageVersion;
  createdAt : option num;
  startedAt : option num;
  completedAt : option num;
  durationMs : option num;
  sources : option (list (jsstring * jsstring));    (* href, title *)
  reasoning : option Reasoning;
  isReasoningStreaming : option bool;
  isReasoningComplete : option bool;
  isContentComplete : option bool;
  status : option MessageStatus;
  errorCode : jsval                                  (* a text, null or absent by its type *)
}.

#[export] Instance MessageRole_eq_dec : EqDecision MessageRole.
Proof. solve_decision. Defined.
#[export] Instance MessageStatus_eq_dec : EqDecision MessageStatus.
Proof. solve_decision. Defined.

(** Object spreads with one property replaced. *)
Definition with_versions (v : list MessageVersion) (m : Message) : Message :=
  mkMessage (key m) (from m) v (createdAt m) (startedAt m) (completedAt m) (durationMs m) (sources m)
    (reasoning m) (isReasoningStreaming m) (isReasoningComplete m) (isContentComplete m) (status m) (errorCode m).
Definition with_createdAt (c : option num) (m : Message) : Message :=
  mkMessage (key m) (from m) (versions m) c (startedAt m) (completedAt m) (durationMs m) (sources m)
    (reasoning m) (isReasoningStreaming m) (isReasoningComplete m) (isContentComplete m) (status m) (errorCode m).
Definition with_timing (s c d : option num) (m : Message) : Message :=
  mkMessage (key m) (from m) (versions m) (createdAt m) s c d (sources m)
    (reasoning m) (isReasoningStreaming m) (isReasoningComplete m) (isContentComplete m) (status m) (errorCode m).
Definition with_reasoning (r : option Reasoning) (m : Message) : Message :=
  mkMessage (key m) (from m) (versions m) (createdAt m) (startedAt m) (completedAt m) (durationMs m) (sources m)
    r (isReasoningStreaming m) (isReasoningComplete m) (isContentComplete m) (status m) (errorCode m).
Definition with_reasoningStreaming (b : bool) (m : Message) : Message :=
  mkMessage (key m) (from m) (versions m) (createdAt m) (startedAt m) (completedAt m) (durationMs m) (sources m)
    (reasoning m) (Some b) (isReasoningComplete m) (isContentComplete m) (status m) (errorCode m).
Definition with_status (s : MessageStatus) (m : Message) : Message :=
  mkMessage (key m) (from m) (versions m) (createdAt m) (startedAt m) (completedAt m) (durationMs m) (sources m)
    (reasoning m) (isReasoningStreaming m) (isReasoningComplete m) (isContentComplete m) (Some s) (errorCode m).
Definition with_errorCode (c : jsval) (m : Message) : Message :=
  mkMessage (key m) (from m) (versions m) (createdAt m) (startedAt m) (completedAt m) (durationMs m) (sources m)
    (reasoning m) (isReasoningStreaming m) (isReasoningComplete m) (isContentComplete m) (status m) c.

Definition with_r_content (c : jsstring) (r : Reasoning) : Reasoning :=
  mkReasoning c (r_duration r) (r_startedAt r) (r_completedAt r) (r_durationMs r).

(** ** message-utils.ts *)
Definition createMessageVersion (id : jsstring) (c : jsstring) : MessageVersion := mkVersion id c.

Definition getCurrentVersion (m : Message) : MessageVersion :=
  match versions m with v :: _ => v | [] => mkVersion (js "default") [] end.
Definition getMessageContent (m : Message) : jsstring := content (getCurrentVersion m).
Definition hasMessageContent (m : Message) : bool := negb (trim (getMessageContent m) =s []).
Definition updateCurrentVersionContent (m : Message) (c : jsstring) : Message :=
  with_versions [mkVersion (version_id (getCurrentVersion m)) c] m.

Definition createUserMessage (key id : jsstring) (c : jsstring) (created : num) : Message :=
  mkMessage key role_user [createMessageVersion id c] (Some created) None None None None None None None None None VUndefined.
Definition createLoadingAssistantMessage (key id : jsstring) (started : num) : Message :=
  mkMessage key role_assistant [createMessageVersion id []] (Some started) (Some started) None None None
    None (Some false) (Some false) (Some false) (Some status_loading) VUndefined.

(** The content of a request message: a text, or parts. *)
Inductive ContentPart :=
  | text_part (t : jsstring)
  | image_part (url : jsstring).
Inductive MessageContent :=
  | TextContent (t : jsstring)
  | PartsContent (parts : list ContentPart).

Definition buildMessageContent (t : jsstring) (imageUrls : list jsstring) : MessageContent :=
  let validImages := List.filter (λ url, negb (trim url =s [])) imageUrls in
  match validImages with
  | [] => TextContent t
  | _ => PartsContent (text_part t :: map (λ url, image_part (trim url)) validImages)
  end.

Fixpoint find_text (parts : list ContentPart) : jsstring :=
  match parts with
  | [] => []
  | text_part t :: _ => t
  | image_part _ :: parts => find_text parts
  end.
Definition getTextContent (c : MessageContent) : jsstring :=
  match c with TextContent t => t | PartsContent parts => find_text parts end.

Record ChatCompletionMessage := mkRequestMessage { cm_role : MessageRole; cm_content : MessageContent }.
Definition formatMessageForAPI (m : Message) : ChatCompletionMessage :=
  mkRequestMessage (from m) (TextContent (content (getCurrentVersion m))).

Definition isAssistant (m : Message) : bool := bool_decide (from m = role_assistant).
Definition isValidMessage (m : Message) : bool :=
  match versions m with
  | [] => false
  | _ => negb (isAssistant m && negb (hasMessageContent m))
  end.

(** ** message-reasoning-utils.ts *)
Record ParsedThinkTags := mkParsed {
  visibleContent : jsstring;
  think_reasoning : jsstring;
  hasUnclosedTag : bool
}.

Definition open_tag : jsstring := js "<think>".
Definition close_tag : jsstring := js "</think>".

(** [content.indexOf(word, pos)]. *)
Definition index_from (word c : jsstring) (pos : nat) : option nat := Nat.add pos <$> index_of word (drop pos c).

(** The [while (true)] loop; every further round starts beyond the last one,
    so one round per code unit is enough. *)
Fixpoint think_loop (fuel : nat) (c : jsstring) (currentPos : nat) (visibleParts reasoningParts : list jsstring)
    : list jsstring * list jsstring * bool :=
  match fuel with
  | O => (visibleParts, reasoningParts, false)
  | S fuel =>
      match index_from open_tag c currentPos with
      | None =>
          (if currentPos <? length c then visibleParts ++ [drop currentPos c] else visibleParts,
           reasoningParts, false)
      | Some openPos =>
          let visibleParts :=
            if currentPos <? openPos then visibleParts ++ [slice c currentPos openPos] else visibleParts in
          match index_from close_tag c (openPos + 7) with
          | None => (visibleParts, reasoningParts ++ [drop (openPos + 7) c], true)
          | Some closePos =>
              think_loop fuel c (closePos + 8) visibleParts (reasoningParts ++ [slice c (openPos + 7) closePos])
          end
      end
  end.

Definition paragraph_break : jsstring := [10; 10]%N.
Definition parseThinkTags (c : jsstring) : ParsedThinkTags :=
  if negb (includes open_tag c) then mkParsed c [] false
  else
    let '(visibleParts, reasoningParts, unclosed) := think_loop (S (length c)) c 0 [] [] in
    mkParsed (trim (mjoin visibleParts)) (trim (join paragraph_break reasoningParts)) unclosed.

(** ** message-timing-utils.ts *)
Definition thousand : num := num_of_Z 1000.

Definition completeAssistantTiming (m : Message) (completed : num) : Message :=
  if negb (isAssistant m) then m
  else
    let started := default (default completed (createdAt m)) (startedAt m) in
    with_timing (Some started) (Some completed) (Some (num_max zero (num_sub completed started))) m.

Definition startReasoningTiming (m : Message) (started : num) : Reasoning :=
  match reasoning m with
  | Some r => mkReasoning (r_content r) (r_duration r) (Some (default started (r_startedAt r)))
                (r_completedAt r) (r_durationMs r)
  | None => mkReasoning [] zero (Some started) None None
  end.

Definition completeReasoningTiming (m : Message) (completed : num) : Message :=
  match reasoning m with
  | None => m
  | Some r =>
      match r_durationMs r with
      | Some _ => m
      | None =>
          let started := default (default completed (startedAt m)) (r_startedAt r) in
          let ms := num_max zero (num_sub completed started) in
          with_reasoning
            (Some (mkReasoning (r_content r) (num_ceil (num_div ms thousand)) (Some started) (Some completed) (Some ms))) m
      end
  end.

(** ** message-streaming-utils.ts *)
Definition processStreamingContent (now : num) (m : Message) (contentChunk : jsstring) : Message :=
  let fullContent := content (getCurrentVersion m) ++ contentChunk in
  if negb (is_some (reasoning m)) && negb (includes open_tag fullContent) then
    with_reasoningStreaming false (updateCurrentVersionContent m fullContent)
  else
    let parsed := parseThinkTags fullContent in
    let finalReasoning :=
      if think_reasoning parsed =s [] then reasoning m
      else Some (with_r_content (think_reasoning parsed) (startReasoningTiming m now)) in
    with_reasoningStreaming (hasUnclosedTag parsed)
      (with_reasoning finalReasoning (updateCurrentVersionContent m fullContent)).

Inductive StreamChunkType := chunk_reasoning | chunk_content.

Definition getAppendableChunk (currentContent chunk : jsstring) : jsstring :=
  if (currentContent =s []) || negb (starts_with currentContent chunk) then chunk
  else drop (length currentContent) chunk.

Definition streaming_now (m : Message) : bool := default false (isReasoningStreaming m).

Definition applyStreamingChunk (now : num) (m : Message) (type : StreamChunkType) (chunk : jsstring) : Message :=
  if bool_decide (status m = Some status_error) then m
  else
    match type with
    | chunk_reasoning =>
        let r := startReasoningTiming m now in
        with_status status_streaming
          (with_reasoningStreaming true
             (with_reasoning (Some (with_r_content (r_content r ++ getAppendableChunk (r_content r) chunk) r)) m))
    | chunk_content =>
        let appendableChunk := getAppendableChunk (content (getCurrentVersion m)) chunk in
        let contentMessage := processStreamingContent now m appendableChunk in
        with_status status_streaming
          (if streaming_now contentMessage then contentMessage else completeReasoningTiming contentMessage now)
    end.

Definition finalizeMessage (now : num) (m : Message) (apiReasoningContent : jsstring) : Message :=
  let c := content (getCurrentVersion m) in
  let parsedThinkTags := if includes open_tag c then Some (parseThinkTags c) else None in
  let visible := default c (visibleContent <$> parsedThinkTags) in
  let finalReasoning :=
    or_text apiReasoningContent
      (or_text (default [] (r_content <$> reasoning m)) (default [] (think_reasoning <$> parsedThinkTags))) in
  completeReasoningTiming
    (with_reasoningStreaming false
       (with_reasoning
          (if finalReasoning =s [] then None
           else Some (with_r_content finalReasoning (startReasoningTiming m now)))
          (updateCurrentVersionContent m visible)))
    now.

Definition completeAssistantMessage (now : num) (m : Message) : Message :=
  completeAssistantTiming (with_status status_complete (finalizeMessage now m [])) now.

Definition isAssistantMessageFinal (m : Message) : bool :=
  bool_decide (status m = Some status_complete) || bool_decide (status m = Some status_error).
Definition isAssistantMessagePending (m : Message) : bool :=
  bool_decide (status m = Some status_loading) || bool_decide (status m = Some status_streaming).
Definition isPendingAssistantMessage (m : Message) : bool := isAssistant m && isAssistantMessagePending m.

(** The message of the first choice of a response. *)
Record Choice := mkChoice { choice_content : option jsstring; choice_reasoning : option jsstring }.

Definition hasChatCompletionChoice (choices : list Choice) : bool := is_some (head choices).

Definition applyChatCompletionChoice (now : num) (m : Message) (choice : Choice) : Message :=
  completeAssistantTiming
    (with_status status_complete
       (finalizeMessage now (updateCurrentVersionContent m (default [] (choice_content choice)))
          (default [] (choice_reasoning choice))))
    now.
Definition applyChatCompletionResponse (now : num) (m : Message) (choices : list Choice) : option Message :=
  applyChatCompletionChoice now m <$> head choices.

(** ** Error messages (constants.ts) *)
Definition API_REQUEST_ERROR : jsstring := js "Request error occurred".
Definition NETWORK_ERROR : jsstring := js "Network connection failed or server not responding".
Definition PARSE_ERROR : jsstring := js "Error parsing response data".
Definition STREAM_START_ERROR : jsstring := js "Error establishing connection".
Definition CONNECTION_CLOSED : jsstring := js "Connection closed".
Definition INTERRUPTED : jsstring := js "Generation was interrupted".
Definition KNOWN_ERROR_MESSAGES : list jsstring :=
  [API_REQUEST_ERROR; NETWORK_ERROR; PARSE_ERROR; STREAM_START_ERROR; CONNECTION_CLOSED; INTERRUPTED].

(** ** sanitizeMessagesOnLoad *)

(** The last pending assistant message, by a scan from the end. *)
Fixpoint last_pending (l : list Message) (i : nat) (found : option nat) : option nat :=
  match l with
  | [] => found
  | m :: l => last_pending l (S i) (if isPendingAssistantMessage m then Some i else found)
  end.

Definition sanitized_message (t : jsstring → jsstring) (now : num) (m : Message) : Message :=
  let finalized := finalizeMessage now m [] in
  let hasReasoning := negb (trim (default [] (r_content <$> reasoning finalized)) =s []) in
  if hasMessageContent finalized || hasReasoning then
    completeAssistantTiming (with_reasoningStreaming false (with_status status_complete finalized)) now
  else
    completeAssistantTiming
      (with_reasoningStreaming false
         (with_status status_error
            (updateCurrentVersionContent finalized (t API_REQUEST_ERROR ++ js ": " ++ t INTERRUPTED)))) now.

Definition sanitizeMessagesOnLoad (t : jsstring → jsstring) (now : num) (messages : list Message) : list Message :=
  match last_pending messages 0 None with
  | None => messages
  | Some i => alter (sanitized_message t now) i messages
  end.

(** ** message-update-utils.ts *)
Definition updateLastAssistantMessage (messages : list Message) (updater : Message → Message) : list Message :=
  match last messages with
  | Some m => if isAssistant m then removelast messages ++ [updater m] else messages
  | None => messages
  end.

Definition error_message (now : num) (m : Message) (errorMessage : jsstring) (code : jsval) (title : jsstring) : Message :=
  completeAssistantTiming
    (with_errorCode (or_value code VNull)
       (with_reasoningStreaming false
          (with_status status_error (updateCurrentVersionContent m (title ++ js ": " ++ errorMessage))))) now.
Definition updateAssistantMessageWithError (now : num) (messages : list Message)
    (errorMessage : jsstring) (code : jsval) (title : jsstring) : list Message :=
  updateLastAssistantMessage messages (λ m, error_message now m errorMessage code title).

(** ** conversation-message-utils.ts *)
Record PairKeys := mkPairKeys { user_key : jsstring; user_version : jsstring; reply_key : jsstring; reply_version : jsstring }.

Definition appendUserMessagePair (k : PairKeys) (now : num) (messages : list Message) (c : jsstring) : list Message :=
  messages ++ [createUserMessage (user_key k) (user_version k) c now;
               createLoadingAssistantMessage (reply_key k) (reply_version k) now].

Definition has_key (k : jsstring) (m : Message) : bool := key m =s k.
Definition find_key (messages : list Message) (k : jsstring) : option (nat * Message) :=
  list_find (λ m, has_key k m = true) messages.

Definition createRegeneratedMessages (k id : jsstring) (now : num) (messages : list Message) (messageKey : jsstring)
    : option (list Message) :=
  '(messageIndex, m) ← find_key messages messageKey;
  Some (take (if bool_decide (from m = role_user) then messageIndex + 1 else messageIndex) messages
        ++ [createLoadingAssistantMessage k id now]).

Definition removeMessageByKey (messages : list Message) (messageKey : jsstring) : list Message :=
  List.filter (λ m, negb (has_key messageKey m)) messages.

Fixpoint getPreviousUserMessage (messages : list Message) (beforeIndex : nat) : result (option Message) :=
  match beforeIndex with
  | O => Ok None
  | S index =>
      match messages !! index with
      | None => Err type_error
      | Some m => if bool_decide (from m = role_user) then Ok (Some m) else getPreviousUserMessage messages index
      end
  end.

Definition edited_message (now : num) (c : jsstring) (shouldSubmit : bool) (m : Message) : Message :=
  with_createdAt (if shouldSubmit then Some now else createdAt m) (updateCurrentVersionContent m c).

Definition applyMessageEdit (k id : jsstring) (now : num) (messages : list Message) (messageKey c : jsstring)
    (shouldSubmit : bool) : option (list Message * bool) :=
  '(messageIndex, m) ← find_key messages messageKey;
  let updatedMessages := map (λ m, if has_key messageKey m then edited_message now c shouldSubmit m else m) messages in
  if negb shouldSubmit || negb (bool_decide (from m = role_user)) then Some (updatedMessages, false)
  else Some (take (messageIndex + 1) updatedMessages ++ [createLoadingAssistantMessage k id now], true).

Definition getEditingMessageContent (messages : list Message) (editingKey : jsstring) : jsstring :=
  if editingKey =s [] then []
  else match find_key messages editingKey with Some (_, m) => getMessageContent m | None => [] end.

(** ** message-content-utils.ts, message-action-utils.ts, message-error-utils.ts *)
Definition shouldShowMessageLoader (m : Message) (assistant : bool) (versionContent : jsstring) : bool :=
  assistant && negb (streaming_now m) &&
  (bool_decide (status m = Some status_loading) ||
   (bool_decide (status m = Some status_streaming) && (versionContent =s []))).
Definition shouldShowMessageContent (m : Message) (versionContent : jsstring) : bool :=
  (bool_decide (from m = role_user) || negb (streaming_now m)) && (0 <? length versionContent).
Definition getDisplayContent (m : Message) (versionContent : jsstring) : jsstring :=
  if negb (isAssistant m) then versionContent
  else if negb (includes open_tag versionContent) then versionContent
  else visibleContent (parseThinkTags versionContent).

Record MessageContentState := mkContentState {
  displayContent : jsstring;
  hasSources : bool;
  cs_isAssistant : bool;
  showLoader : bool;
  showMessageContent : bool;
  cs_sources : list (jsstring * jsstring);
  reasoningContent : option jsstring              (* present iff hasReasoning *)
}.
Definition getMessageContentState (m : Message) (versionContent : jsstring) : MessageContentState :=
  let srcs := default [] (sources m) in
  mkContentState (getDisplayContent m versionContent) (0 <? length srcs) (isAssistant m)
    (shouldShowMessageLoader m (isAssistant m) versionContent) (shouldShowMessageContent m versionContent) srcs
    (if isAssistant m then
       match reasoning m with
       | Some r => if r_content r =s [] then None else Some (r_content r)
       | None => None
       end
     else None).

Record MessageActionState := mkActionState {
  as_content : jsstring; hasContent : bool; as_isAssistant : bool; isUser : bool; isLoading : bool
}.
Definition getMessageActionState (m : Message) : MessageActionState :=
  mkActionState (getMessageContent m) (hasMessageContent m) (isAssistant m) (bool_decide (from m = role_user))
    (isAssistantMessagePending m).

Definition isErrorMessage (m : Message) : bool := bool_decide (status m = Some status_error).
Record MessageErrorState := mkErrorState { es_content : jsstring; modelPrice : bool; showSettingsLink : bool }.
Definition getMessageErrorState (m : Message) (isAdmin : bool) : option MessageErrorState :=
  if negb (isErrorMessage m) then None
  else
    let isModelPriceError := strict_eqb (errorCode m) (VString (js "model_price_error")) in
    Some (mkErrorState (or_text (getMessageContent m) (js "An unknown error occurred"))
            isModelPriceError (isModelPriceError && isAdmin)).
