(* ===== verification/ChatMessageFacts.v ===== *)
(** * Facts about playground messages

    Think tags against their grammar, and what the application of chunks and
    the finalization do to the text of a message. *)

From S2P Require Import Prelude JsNumber JsText Types Runtime JsValue ChatMessage.

(** ** Think tags *)

(** The text before the first tag, the closed think sections with the text
    after each, and the last section when it is not closed. *)
Record Transcript := mkTranscript {
  before : jsstring;
  sections : list (jsstring * jsstring);
  unclosed : option jsstring
}.

Definition write_section (s : jsstring * jsstring) : jsstring := open_tag ++ s.1 ++ close_tag ++ s.2.
Definition write_unclosed (u : option jsstring) : jsstring :=
  match u with Some r => open_tag ++ r | None => [] end.
Definition write_transcript (t : Transcript) : jsstring :=
  before t ++ mjoin (map write_section (sections t)) ++ write_unclosed (unclosed t).

Definition free_of (word s : jsstring) : Prop := includes word s = false.
Definition transcript_ok (t : Transcript) : Prop :=
  free_of open_tag (before t) ∧
  Forall (λ s, free_of close_tag s.1 ∧ free_of open_tag s.2) (sections t) ∧
  from_option (free_of close_tag) True (unclosed t).

Definition transcript_visible (t : Transcript) : jsstring := before t ++ mjoin (map snd (sections t)).
Definition transcript_reasoning (t : Transcript) : list jsstring :=
  map fst (sections t) ++ match unclosed t with Some r => [r] | None => [] end.

(** What the parse is to answer. *)
Definition transcript_parsed (t : Transcript) : ParsedThinkTags :=
  match sections t, unclosed t with
  | [], None => mkParsed (before t) [] false
  | _, _ =>
      mkParsed (trim (transcript_visible t)) (trim (join paragraph_break (transcript_reasoning t)))
        (is_some (unclosed t))
  end.

Lemma mjoin_cons (x : jsstring) l : mjoin (x :: l) = x ++ mjoin l.
Proof. done. Qed.

Lemma open_borderless : borderless open_tag.
Proof. eexists _, _. split; [reflexivity|]. apply (bool_decide_unpack _). by vm_compute. Qed.
Lemma close_borderless : borderless close_tag.
Proof. eexists _, _. split; [reflexivity|]. apply (bool_decide_unpack _). by vm_compute. Qed.

Lemma index_from_free word c p : free_of word (drop p c) → index_from word c p = None.
Proof. intros H. unfold index_from. by apply index_of_None in H as ->. Qed.
Lemma index_from_first word c p a b :
  borderless word → free_of word a → drop p c = a ++ word ++ b → index_from word c p = Some (p + length a).
Proof. intros Hw Ha Hd. unfold index_from. by rewrite Hd, (index_of_first word a b Hw Ha). Qed.

Lemma slice_of (c : jsstring) p a b : drop p c = a ++ b → slice c p (p + length a) = a.
Proof. intros H. unfold slice. replace (p + length a - p) with (length a) by lia. by rewrite H, take_app_length. Qed.
Lemma drop_of {A} (c : list A) p a b : drop p c = a ++ b → drop (p + length a) c = b.
Proof. intros H. rewrite <- drop_drop, H. apply drop_app_length. Qed.

(** A part is pushed when it is not empty. *)
Lemma push_part (c : jsstring) p a b visible :
  drop p c = a ++ b →
  mjoin (if p <? p + length a then visible ++ [slice c p (p + length a)] else visible) = mjoin visible ++ a.
Proof.
  intros H. rewrite (slice_of _ _ _ _ H). destruct a as [|x a].
  - rewrite Nat.add_0_r, (proj2 (Nat.ltb_ge p p)) by lia. by rewrite app_nil_r.
  - rewrite (proj2 (Nat.ltb_lt _ _)) by (cbn; lia). rewrite join_app. cbn. by rewrite app_nil_r.
Qed.

Lemma push_rest (c : jsstring) p visible :
  mjoin (if p <? length c then visible ++ [drop p c] else visible) = mjoin visible ++ drop p c.
Proof.
  destruct (p <? length c) eqn:E.
  - rewrite join_app. cbn. by rewrite app_nil_r.
  - apply Nat.ltb_ge in E. rewrite drop_ge by done. by rewrite app_nil_r.
Qed.

Lemma think_loop_transcript secs : ∀ fuel c p vs rs v u,
  drop p c = write_transcript (mkTranscript v secs u) → transcript_ok (mkTranscript v secs u) →
  length (drop p c) < fuel →
  ∃ vs', think_loop fuel c p vs rs = (vs', rs ++ transcript_reasoning (mkTranscript v secs u), is_some u) ∧
    mjoin vs' = mjoin vs ++ transcript_visible (mkTranscript v secs u).
Proof.
  induction secs as [|[r v'] secs IH]; intros fuel c p vs rs v u Hd (Hv & Hs & Hu) Hf;
    unfold write_transcript in Hd; cbn [before sections unclosed map] in *; rewrite ?mjoin_cons in Hd;
    (destruct fuel as [|fuel]; [lia|]); cbn [think_loop].
  - destruct u as [r|]; cbn [write_unclosed from_option] in *.
    + rewrite (index_from_first _ _ _ v r open_borderless Hv) by (by rewrite Hd).
      pose proof (drop_of _ _ _ _ Hd) as Hd'. cbn [mjoin list_join app] in Hd'.
      pose proof (drop_of _ _ open_tag r Hd') as Hr. change (length open_tag) with 7 in Hr.
      rewrite index_from_free by (by rewrite Hr). rewrite Hr. eexists. split; [done|].
      rewrite (push_part _ _ _ _ _ Hd). unfold transcript_visible. cbn. by rewrite app_nil_r.
    + rewrite index_from_free by (rewrite Hd; cbn; by rewrite app_nil_r).
      exists (if p <? length c then vs ++ [drop p c] else vs). unfold transcript_reasoning, transcript_visible.
      cbn [map sections unclosed before app snd fst is_some]. rewrite app_nil_r. split; [done|].
      by rewrite push_rest, Hd.
  - apply Forall_cons in Hs as [[Hr Hv'] Hs]. cbn [fst snd] in *.
    assert (drop p c = v ++ open_tag ++ r ++ close_tag ++ write_transcript (mkTranscript v' secs u)) as Hc.
    { rewrite Hd. unfold write_transcript, write_section. cbn [before sections unclosed fst snd].
      by rewrite <- !app_assoc. }
    rewrite (index_from_first _ _ _ v _ open_borderless Hv Hc).
    pose proof (drop_of _ _ _ _ Hc) as H1. pose proof (drop_of _ _ _ _ H1) as H2.
    change (length open_tag) with 7 in H2.
    rewrite (index_from_first _ _ _ r _ close_borderless Hr H2), (slice_of _ _ _ _ H2).
    pose proof (drop_of _ _ _ _ H2) as H3. pose proof (drop_of _ _ _ _ H3) as H4.
    change (length close_tag) with 8 in H4.
    destruct (IH fuel c (p + length v + 7 + length r + 8)
      (if p <? p + length v then vs ++ [slice c p (p + length v)] else vs) (rs ++ [r]) v' u) as (vs' & -> & Hj).
    { exact H4. }
    { done. }
    { rewrite H4. rewrite Hc in Hf. rewrite !length_app in Hf. change (length open_tag) with 7 in Hf. lia. }
    exists vs'. split.
    + f_equal. f_equal. unfold transcript_reasoning. cbn. by rewrite <- app_assoc.
    + rewrite Hj, (push_part _ _ _ _ _ Hc). unfold transcript_visible. cbn. by rewrite <- app_assoc.
Qed.

Lemma parse_transcript t : transcript_ok t → parseThinkTags (write_transcript t) = transcript_parsed t.
Proof.
  destruct t as [v secs u]. intros Hok. unfold parseThinkTags.
  destruct (includes open_tag (write_transcript (mkTranscript v secs u))) eqn:Hi; cbn [negb].
  - destruct (think_loop_transcript secs (S (length (write_transcript (mkTranscript v secs u))))
      (write_transcript (mkTranscript v secs u)) 0 [] [] v u) as (vs & -> & Hj); [done|done|by rewrite drop_0; lia|].
    cbn [mjoin list_join app] in Hj. rewrite Hj. unfold transcript_parsed. cbn [sections unclosed before].
    destruct secs, u; try done. unfold write_transcript in Hi. cbn in Hi. rewrite app_nil_r in Hi.
    destruct Hok as [Hv _]. unfold free_of in Hv. cbn [before] in Hv. congruence.
  - unfold transcript_parsed. cbn [sections unclosed before].
    assert (∀ w, includes open_tag (v ++ open_tag ++ w) = true) as Hin
      by (intros w; apply includes_spec; by exists v, w).
    destruct secs as [|s secs]; [destruct u as [r|]|].
    + unfold write_transcript in Hi. cbn [before sections unclosed map mjoin list_join write_unclosed app] in Hi.
      by rewrite Hin in Hi.
    + unfold write_transcript. cbn. by rewrite app_nil_r.
    + unfold write_transcript, write_section in Hi. cbn [before sections unclosed map] in Hi.
      rewrite mjoin_cons in Hi. cbn [fst snd] in Hi. by rewrite <- !app_assoc, Hin in Hi.
Qed.

(** Every text is a transcript. *)
Lemma transcript_exists c : ∃ t, transcript_ok t ∧ write_transcript t = c.
Proof.
  remember (length c) as n eqn:Hn. revert c Hn. induction n as [n IH] using lt_wf_ind. intros c ->.
  destruct (index_of open_tag c) as [i|] eqn:Hi.
  - destruct (index_of_split _ _ _ open_borderless Hi) as (v & b & -> & _ & Hv).
    destruct (index_of close_tag b) as [j|] eqn:Hj.
    + destruct (index_of_split _ _ _ close_borderless Hj) as (r & d & -> & _ & Hr).
      destruct (IH (length d)) with (c := d) as ([v' secs u] & (Hv' & Hs & Hu) & Hd); [|done|].
      { rewrite !length_app. change (length open_tag) with 7. lia. }
      exists (mkTranscript v ((r, v') :: secs) u). split; [by repeat split; [|constructor|]|].
      unfold write_transcript, write_section in *. cbn [before sections unclosed map] in *.
      rewrite mjoin_cons, <- Hd. cbn [fst snd]. by rewrite <- !app_assoc.
    + exists (mkTranscript v [] (Some b)). apply index_of_None in Hj. by repeat split.
  - exists (mkTranscript c [] None). apply index_of_None in Hi. repeat split; [done..|].
    unfold write_transcript. cbn. by rewrite app_nil_r.
Qed.

(** C38. [parseThinkTags] reads every text by the grammar of think sections: the
    visible part is the text outside of the sections, trimmed when there is a
    tag, the reasoning is their contents as paragraphs, and a last section
    without its closing tag is reported. *)
Theorem think_tags_parsed (c : jsstring) :
  ∃ t, transcript_ok t ∧ write_transcript t = c ∧ parseThinkTags c = transcript_parsed t.
Proof.
  destruct (transcript_exists c) as (t & Hok & <-). exists t. split_and!; [done..|]. by apply parse_transcript.
Qed.

(** ** What a reply shows *)

(** The part of a message that chunks and responses determine. *)
Record Reply := mkReply { reply_text : jsstring; reply_thought : jsstring; reply_status : option MessageStatus }.
Definition reply_of (m : Message) : Reply :=
  mkReply (content (getCurrentVersion m)) (default [] (r_content <$> reasoning m)) (status m).

Definition add_content (chunk : jsstring) (r : Reply) : Reply :=
  let full := reply_text r ++ chunk in
  mkReply full (or_text (think_reasoning (parseThinkTags full)) (reply_thought r)) (Some status_streaming).
Definition add_reasoning (chunk : jsstring) (r : Reply) : Reply :=
  mkReply (reply_text r) (reply_thought r ++ chunk) (Some status_streaming).
Definition finish_reply (api_reasoning : jsstring) (r : Reply) : Reply :=
  let parsed := parseThinkTags (reply_text r) in
  mkReply (visibleContent parsed) (or_text api_reasoning (or_text (reply_thought r) (think_reasoning parsed)))
    (Some status_complete).

(** A text without an opening tag is read as it is. *)
Lemma parse_free c : free_of open_tag c → parseThinkTags c = mkParsed c [] false.
Proof. intros H. unfold parseThinkTags. by rewrite H. Qed.
Lemma or_text_nil a : or_text a [] = a.
Proof. unfold or_text, str_eqb. case_bool_decide; by subst. Qed.
Lemma or_nil_text a : or_text [] a = a.
Proof. done. Qed.

Lemma reply_timing m now : reply_of (completeReasoningTiming m now) = reply_of m ∧
  from (completeReasoningTiming m now) = from m.
Proof.
  unfold completeReasoningTiming. destruct (reasoning m) as [r|] eqn:Hr; [|done].
  destruct (r_durationMs r); [done|]. unfold reply_of. cbn. by rewrite Hr.
Qed.
Lemma reply_assistant_timing m now : reply_of (completeAssistantTiming m now) = reply_of m ∧
  from (completeAssistantTiming m now) = from m.
Proof. unfold completeAssistantTiming. by destruct (isAssistant m). Qed.

Lemma started_content m now : r_content (startReasoningTiming m now) = default [] (r_content <$> reasoning m).
Proof. unfold startReasoningTiming. by destruct (reasoning m). Qed.

Lemma reply_processed now m chunk :
  let m' := processStreamingContent now m chunk in
  reply_text (reply_of m') = reply_text (reply_of m) ++ chunk ∧
  reply_thought (reply_of m') =
    or_text (think_reasoning (parseThinkTags (reply_text (reply_of m) ++ chunk))) (reply_thought (reply_of m)) ∧
  from m' = from m.
Proof.
  cbn zeta. unfold processStreamingContent, reply_of. cbn [reply_text reply_thought].
  set (full := content (getCurrentVersion m) ++ chunk).
  destruct (is_some (reasoning m)) eqn:Hr, (includes open_tag full) eqn:Hi; cbn [negb andb];
    try (rewrite (parse_free full) by done; cbn; by rewrite ?or_nil_text);
    (split; [done|]; split; [|done]); cbn [reasoning with_reasoningStreaming with_reasoning];
    unfold or_text; destruct (think_reasoning (parseThinkTags full) =s []); try done.
Qed.

Lemma reply_chunk_content now m chunk : status m ≠ Some status_error →
  reply_of (applyStreamingChunk now m chunk_content chunk) =
    add_content (getAppendableChunk (reply_text (reply_of m)) chunk) (reply_of m) ∧
  from (applyStreamingChunk now m chunk_content chunk) = from m.
Proof.
  intros Hs. unfold applyStreamingChunk. rewrite bool_decide_eq_false_2 by done.
  change (content (getCurrentVersion m)) with (reply_text (reply_of m)).
  set (chunk' := getAppendableChunk _ chunk). destruct (reply_processed now m chunk') as (Ht & Hth & Hf).
  set (p := processStreamingContent now m chunk') in *.
  assert (∀ q, reply_of q = reply_of p ∧ from q = from p →
    reply_of (with_status status_streaming q) = add_content chunk' (reply_of m) ∧
    from (with_status status_streaming q) = from m) as Hq.
  { intros q [Hr Hq]. split; [|cbn; congruence]. unfold add_content. rewrite <- Hth, <- Ht.
    transitivity (mkReply (reply_text (reply_of q)) (reply_thought (reply_of q)) (Some status_streaming)); [done|].
    by rewrite Hr. }
  destruct (streaming_now p); apply Hq; [done|apply reply_timing].
Qed.

Lemma reply_chunk_reasoning now m chunk : status m ≠ Some status_error →
  reply_of (applyStreamingChunk now m chunk_reasoning chunk) =
    add_reasoning (getAppendableChunk (reply_thought (reply_of m)) chunk) (reply_of m) ∧
  from (applyStreamingChunk now m chunk_reasoning chunk) = from m.
Proof.
  intros Hs. unfold applyStreamingChunk. rewrite bool_decide_eq_false_2 by done. rewrite started_content.
  by split.
Qed.

Lemma reply_finalized now m api :
  let m' := finalizeMessage now m api in
  reply_text (reply_of m') = visibleContent (parseThinkTags (reply_text (reply_of m))) ∧
  reply_thought (reply_of m') = reply_thought (finish_reply api (reply_of m)) ∧ from m' = from m.
Proof.
  cbn zeta. unfold finalizeMessage.
  match goal with |- context [completeReasoningTiming ?x now] => destruct (reply_timing x now) as [-> ->] end.
  unfold reply_of, finish_reply. cbn [reply_text reply_thought].
  set (c := content (getCurrentVersion m)). destruct (includes open_tag c) eqn:Hi.
  - cbn [fmap option_fmap option_map default from_option id].
    split; [done|]. split; [|done]. cbn [reasoning with_reasoningStreaming with_reasoning].
    destruct (_ =s []) eqn:E; [|done]. unfold str_eqb in E. apply bool_decide_eq_true in E. by rewrite E.
  - rewrite (parse_free c Hi). cbn [fmap option_fmap option_map default from_option id visibleContent think_reasoning].
    split; [done|]. split; [|done]. cbn [reasoning with_reasoningStreaming with_reasoning].
    destruct (_ =s []) eqn:E; [|done]. unfold str_eqb in E. apply bool_decide_eq_true in E. by rewrite E.
Qed.

Lemma reply_completed now m api :
  let m' := completeAssistantTiming (with_status status_complete (finalizeMessage now m api)) now in
  reply_of m' = finish_reply api (reply_of m) ∧ from m' = from m.
Proof.
  cbn zeta. match goal with |- context [completeAssistantTiming ?x now] => destruct (reply_assistant_timing x now) as [-> ->] end.
  destruct (reply_finalized now m api) as (Ht & Hth & Hf). split; [|exact Hf].
  transitivity (mkReply (reply_text (reply_of (finalizeMessage now m api))) (reply_thought (reply_of (finalizeMessage now m api)))
    (Some status_complete)); [done|]. by rewrite Ht, Hth.
Qed.

Lemma reply_responded now m choice :
  reply_of (applyChatCompletionChoice now m choice) =
    finish_reply (default [] (choice_reasoning choice))
      (mkReply (default [] (choice_content choice)) (reply_thought (reply_of m)) (status m)).
Proof.
  unfold applyChatCompletionChoice.
  destruct (reply_completed now (updateCurrentVersionContent m (default [] (choice_content choice)))
    (default [] (choice_reasoning choice))) as [-> _]. done.
Qed.
