(* ===== verification/ChatStream.v ===== *)
(** * features/playground: use-stream-request.ts and use-chat-handler.ts

    The stream controller and the chat handler as one state machine. The
    controller owns the event sources and their generation; the handler owns
    the chunks not yet shown, the flush timer, the request generation and the
    message list, which React changes by running queued updaters: at once when
    nothing is queued ([eager]), otherwise at the next render. An event is a
    call of the user interface, of the network or of a timer, and any order of
    events is a run. *)

From S2P Require Import Prelude JsNumber JsText Types Runtime JsRegex JsValue ChatMessage.

(** ** lib/streaming/stream-utils.ts *)

Record StreamErrorDetails := mkDetails { d_errorCode : jsval; d_errorMessage : jsval }.

Definition parseStreamErrorDetails (data : jsstring) : StreamErrorDetails :=
  let fallbackMessage := VString (or_text data API_REQUEST_ERROR) in
  let fallback := mkDetails VUndefined fallbackMessage in
  if data =s [] then fallback
  else
    match json_parse data with
    | Ok parsed =>
        let error := prop parsed (js "error") in
        if negb (truthy error) then fallback
        else mkDetails (or_value (prop error (js "code")) VUndefined)
               (or_value (prop error (js "message")) fallbackMessage)
    | Err _ => fallback
    end.

Definition parseStreamMessageUpdates (data : jsstring) : result (list (StreamChunkType * jsval)) :=
  chunk ← json_parse data;
  if is_nullish chunk then Err type_error
  else
    let delta := prop (first_item (prop chunk (js "choices"))) (js "delta") in
    let reasoning := prop delta (js "reasoning_content") in
    let content := prop delta (js "content") in
    Ok ((if truthy reasoning then [(chunk_reasoning, reasoning)] else [])
        ++ (if truthy content then [(chunk_content, content)] else [])).

Definition STREAM_DONE_MESSAGE : jsstring := js "[DONE]".
Definition isStreamDoneMessage (data : jsstring) : bool := data =s STREAM_DONE_MESSAGE.
Definition isStreamClosedReadyState (readyState : option Z) : bool := bool_decide (readyState = Some 2%Z).
Definition getStreamReadyStateError (eventReadyState sourceStatus : option Z) : option jsstring :=
  match eventReadyState, sourceStatus with
  | Some r, Some s =>
      if ((2 <=? r) && negb (s =? 200))%Z
      then Some (js "HTTP " ++ num_to_string (num_of_Z s) ++ js ": " ++ CONNECTION_CLOSED) else None
  | _, _ => None
  end.

(** ** lib/streaming/payload-builder.ts *)
Record PlaygroundConfig := mkConfig {
  model : jsstring; group : jsstring; temperature : num; top_p : num; max_tokens : num;
  frequency_penalty : num; presence_penalty : num; seed : option num; stream : bool
}.
Record ParameterEnabled := mkEnabled {
  e_temperature : bool; e_top_p : bool; e_max_tokens : bool;
  e_frequency_penalty : bool; e_presence_penalty : bool; e_seed : bool
}.
Record ChatCompletionRequest := mkPayload {
  pl_model : jsstring; pl_group : jsstring; pl_messages : list ChatCompletionMessage; pl_stream : bool;
  pl_temperature : option num; pl_top_p : option num; pl_max_tokens : option num;
  pl_frequency_penalty : option num; pl_presence_penalty : option num; pl_seed : option num
}.

Definition buildChatCompletionPayload (messages : list Message) (config : PlaygroundConfig) (enabled : ParameterEnabled)
    : ChatCompletionRequest :=
  let processedMessages := map formatMessageForAPI (List.filter isValidMessage messages) in
  mkPayload (model config) (group config) processedMessages (stream config)
    (if e_temperature enabled then Some (temperature config) else None)
    (if e_top_p enabled then Some (top_p config) else None)
    (if e_max_tokens enabled then Some (max_tokens config) else None)
    (if e_frequency_penalty enabled then Some (frequency_penalty config) else None)
    (if e_presence_penalty enabled then Some (presence_penalty config) else None)
    (if e_seed enabled then seed config else None).

(** ** createStreamRequestController *)

(** What a [send] call is given, over the state its callbacks act on. A thrown
    value is the first component of the result. *)
Record StreamRequestCallbacks (S : Type) := mkCallbacks {
  onUpdate : StreamChunkType → jsval → S → option exn * S;
  onComplete : S → S;
  onError : jsval → jsval → S → option exn * S
}.
Arguments mkCallbacks {S}.
Arguments onUpdate {S}.
Arguments onComplete {S}.
Arguments onError {S}.

(** A [send] that waits for its headers, and an event source. [request] is the
    caller's name of the call, which its callbacks are made from. *)
Record HeaderWait := mkWait { w_generation : nat; w_request : nat; w_payload : ChatCompletionRequest; w_settled : bool }.
Record StreamEventSource := mkSource {
  s_generation : nat; s_request : nat; s_payload : ChatCompletionRequest; completed : bool; closed : bool
}.

Record Controller := mkController {
  eventSources : list StreamEventSource;
  source : option nat;
  generation : nat;
  waits : list HeaderWait;
  isStreaming : bool
}.
Definition createStreamRequestController : Controller := mkController [] None 0 [] false.

Definition set_sources l c := mkController l (source c) (generation c) (waits c) (isStreaming c).
Definition set_source s b c := mkController (eventSources c) s (generation c) (waits c) b.
Definition set_waits w c := mkController (eventSources c) (source c) (generation c) w (isStreaming c).

Definition mark_closed (s : StreamEventSource) : StreamEventSource :=
  mkSource (s_generation s) (s_request s) (s_payload s) (completed s) true.
Definition mark_completed (s : StreamEventSource) : StreamEventSource :=
  mkSource (s_generation s) (s_request s) (s_payload s) true (closed s).
Definition settle_wait (w : HeaderWait) : HeaderWait :=
  mkWait (w_generation w) (w_request w) (w_payload w) true.

(** [source.close()]; the readystatechange event it dispatches finds the
    source completed or no longer current. *)
Definition close_source (target : option nat) (c : Controller) : Controller :=
  match target with Some i => set_sources (alter mark_closed i (eventSources c)) c | None => c end.

Definition closeActiveSource (target : nat) (c : Controller) : Controller :=
  let c := close_source (Some target) c in
  if bool_decide (source c = Some target) then set_source None false c else c.

(** [generation += 1; source = null; previous?.close()]. *)
Definition supersede (streaming : bool) (c : Controller) : Controller :=
  close_source (source c) (mkController (eventSources c) None (generation c + 1) (waits c) streaming).

(** [send] up to its await of the headers. *)
Definition send (request : nat) (payload : ChatCompletionRequest) (c : Controller) : Controller :=
  let c := supersede false c in
  set_waits (waits c ++ [mkWait (generation c) request payload false]) c.

Definition cancel (notify : bool) (c : Controller) : Controller :=
  supersede (if notify then false else isStreaming c) c.
Definition stop : Controller → Controller := cancel true.
Definition dispose : Controller → Controller := cancel false.

Definition isCurrent (i : nat) (s : StreamEventSource) (c : Controller) : bool :=
  (generation c =? s_generation s) && bool_decide (source c = Some i).

(** The wait with this index, the first time it settles. *)
Definition take_wait (i : nat) (c : Controller) : option (HeaderWait * Controller) :=
  w ← waits c !! i;
  if w_settled w then None else Some (w, set_waits (alter settle_wait i (waits c)) c).

(** The headers are there: [createSource]. *)
Definition headers_ready (i : nat) (c : Controller) : Controller :=
  match take_wait i c with
  | None => c
  | Some (w, c) =>
      if negb (generation c =? w_generation w) then c
      else
        set_source (Some (length (eventSources c))) true
          (set_sources (eventSources c ++ [mkSource (w_generation w) (w_request w) (w_payload w) false false]) c)
  end.

Section Controller.
Context {S : Type} (callbacks : nat → StreamRequestCallbacks S).

Definition headers_failed (i : nat) (error : option jsstring) (st : Controller * S) : Controller * S :=
  match take_wait i st.1 with
  | None => st
  | Some (w, c) =>
      if negb (generation c =? w_generation w) then (c, st.2)
      else (c, (onError (callbacks (w_request w)) (VString (default STREAM_START_ERROR error)) VUndefined st.2).2)
  end.

(** The source an event is for, unless it is superseded or done. *)
Definition listening (i : nat) (c : Controller) : option StreamEventSource :=
  s ← eventSources c !! i;
  if negb (isCurrent i s c) || completed s then None else Some s.

Definition complete_source (i : nat) (c : Controller) : Controller :=
  set_sources (alter mark_completed i (eventSources c)) c.

(** An exception of [onError] leaves [handleError] before the source is closed. *)
Definition handleError (i : nat) (errorMessage errorCode : jsval) (st : Controller * S) : Controller * S :=
  match listening i st.1 with
  | None => st
  | Some s =>
      let c := complete_source i st.1 in
      match onError (callbacks (s_request s)) errorMessage errorCode st.2 with
      | (Some _, x) => (c, x)
      | (None, x) => (closeActiveSource i c, x)
      end
  end.

(** The [for] loop over the updates; it ends at an exception. *)
Fixpoint run_updates (request : nat) (updates : list (StreamChunkType * jsval)) (x : S) : option exn * S :=
  match updates with
  | [] => (None, x)
  | (type, chunk) :: updates =>
      match onUpdate (callbacks request) type chunk x with
      | (Some e, x) => (Some e, x)
      | (None, x) => run_updates request updates x
      end
  end.

Definition on_message (i : nat) (data : jsstring) (st : Controller * S) : Controller * S :=
  match listening i st.1 with
  | None => st
  | Some s =>
      if isStreamDoneMessage data then
        (closeActiveSource i (complete_source i st.1), onComplete (callbacks (s_request s)) st.2)
      else
        match parseStreamMessageUpdates data with
        | Err _ => handleError i (VString PARSE_ERROR) VUndefined st
        | Ok updates =>
            match run_updates (s_request s) updates st.2 with
            | (None, x) => (st.1, x)
            | (Some _, x) => handleError i (VString PARSE_ERROR) VUndefined (st.1, x)
            end
        end
  end.

Definition on_error (i : nat) (readyState : option Z) (data : jsstring) (st : Controller * S) : Controller * S :=
  match listening i st.1 with
  | None => st
  | Some _ =>
      if isStreamClosedReadyState readyState then st
      else
        let details := parseStreamErrorDetails data in
        handleError i (d_errorMessage details) (d_errorCode details) st
  end.

Definition on_readystatechange (i : nat) (eventReadyState sourceStatus : option Z) (st : Controller * S)
    : Controller * S :=
  match listening i st.1 with
  | None => st
  | Some _ =>
      match getStreamReadyStateError eventReadyState sourceStatus with
      | Some errorMessage => handleError i (VString errorMessage) VUndefined st
      | None => st
      end
  end.

(** [nextSource.stream()] throws. *)
Definition stream_throws (i : nat) (st : Controller * S) : Controller * S :=
  handleError i (VString STREAM_START_ERROR) VUndefined st.
End Controller.
