(* ===== verification/ChatHandler.v ===== *)
(** * features/playground/hooks/use-chat-handler.ts

    The handler of the chat, the message list behind it, and the events of
    the whole hook. *)

From S2P Require Import Prelude JsNumber JsText Types Runtime JsRegex JsValue ChatMessage ChatStream.

Record PendingStreamChunks := mkPending { p_generation : nat; p_content : jsstring; p_reasoning : jsstring }.

(** The updaters given to [onMessageUpdate], with what their closures hold. *)
Inductive Update :=
  | UFlush (generation : nat) (reasoning content : jsstring)
  | UComplete (generation : nat)
  | UError (generation : nat) (displayError : jsstring) (errorCode : jsval) (title : jsstring)
  | UResponse (generation : nat) (choices : list Choice)
  | UStop (idleGeneration : nat)
  | USet (messages : list Message)
  | URemove (messageKey : jsstring).

(** A request of [sendChatCompletion], whose index names its AbortController. *)
Record PendingRequest := mkRequest {
  req_generation : nat; req_payload : ChatCompletionRequest; aborted : bool; req_settled : bool
}.

Record Handler := mkHandler {
  requestGeneration : nat;
  pendingStreamChunks : PendingStreamChunks;
  streamFlushTimer : option nat;
  timers : list (nat * nat);             (* live timers: id, generation of the callback *)
  next_timer : nat;
  abortController : option nat;
  requests : list PendingRequest;
  isRequesting : bool;
  serverErrors : list jsstring;          (* calls of handleServerError *)
  messages : list Message;               (* after the updaters that have run *)
  updates : list Update;                 (* the updaters that have not *)
  rendered : list Message                (* what the last render showed *)
}.

Definition initial_handler (m : list Message) : Handler :=
  mkHandler 0 (mkPending 0 [] []) None [] 0 None [] false [] m [] m.

Definition set_pending p h := mkHandler (requestGeneration h) p (streamFlushTimer h) (timers h) (next_timer h)
  (abortController h) (requests h) (isRequesting h) (serverErrors h) (messages h) (updates h) (rendered h).
Definition set_timer t ts n h := mkHandler (requestGeneration h) (pendingStreamChunks h) t ts n
  (abortController h) (requests h) (isRequesting h) (serverErrors h) (messages h) (updates h) (rendered h).
Definition set_generation g h := mkHandler g (pendingStreamChunks h) (streamFlushTimer h) (timers h) (next_timer h)
  (abortController h) (requests h) (isRequesting h) (serverErrors h) (messages h) (updates h) (rendered h).
Definition set_requests a r h := mkHandler (requestGeneration h) (pendingStreamChunks h) (streamFlushTimer h) (timers h)
  (next_timer h) a r (isRequesting h) (serverErrors h) (messages h) (updates h) (rendered h).
Definition setIsRequesting b h := mkHandler (requestGeneration h) (pendingStreamChunks h) (streamFlushTimer h) (timers h)
  (next_timer h) (abortController h) (requests h) b (serverErrors h) (messages h) (updates h) (rendered h).
Definition handleServerError e h := mkHandler (requestGeneration h) (pendingStreamChunks h) (streamFlushTimer h) (timers h)
  (next_timer h) (abortController h) (requests h) (isRequesting h) (serverErrors h ++ [e]) (messages h) (updates h) (rendered h).
Definition set_messages m u r h := mkHandler (requestGeneration h) (pendingStreamChunks h) (streamFlushTimer h) (timers h)
  (next_timer h) (abortController h) (requests h) (isRequesting h) (serverErrors h) m u r.

(** The state of the page. *)
Abbreviation Chat := (Controller * Handler)%type.

Section Handler.
(** [t] of i18next. *)
Context (t : jsstring → jsstring).

(** ** The updaters *)
Definition flush_message (now : num) (reasoning content : jsstring) (m : Message) : Message :=
  let m := if reasoning =s [] then m else applyStreamingChunk now m chunk_reasoning reasoning in
  if content =s [] then m else applyStreamingChunk now m chunk_content content.
Definition finish_message (now : num) (m : Message) : Message :=
  if isAssistantMessageFinal m then m else completeAssistantMessage now m.
Definition stop_message (now : num) (m : Message) : Message :=
  if isAssistantMessagePending m then completeAssistantMessage now m else m.
Definition respond_message (now : num) (choices : list Choice) (m : Message) : Message :=
  default m (applyChatCompletionResponse now m choices).

(** An updater, run when the request generation is [current]. *)
Definition run_update (now : num) (current : nat) (u : Update) (prev : list Message) : list Message :=
  let guarded g f := if g =? current then f prev else prev in
  match u with
  | UFlush g r c => guarded g (λ prev, updateLastAssistantMessage prev (flush_message now r c))
  | UComplete g => guarded g (λ prev, updateLastAssistantMessage prev (finish_message now))
  | UError g e code title => guarded g (λ prev, updateAssistantMessageWithError now prev e code title)
  | UResponse g choices => guarded g (λ prev, updateLastAssistantMessage prev (respond_message now choices))
  | UStop g => guarded g (λ prev, updateLastAssistantMessage prev (stop_message now))
  | USet messages => messages
  | URemove k => removeMessageByKey prev k
  end.

Definition run_all (now : num) (current : nat) (us : list Update) (prev : list Message) : list Message :=
  foldl (λ m u, run_update now current u m) prev us.

(** What an event carries besides its own data: the clock, and whether React
    runs the first updater at once. *)
Record Env := mkEnv { now : num; eager : bool }.

Definition onMessageUpdate (env : Env) (u : Update) (h : Handler) : Handler :=
  match updates h with
  | [] =>
      if eager env
      then set_messages (run_update (now env) (requestGeneration h) u (messages h)) [] (rendered h) h
      else set_messages (messages h) [u] (rendered h) h
  | us => set_messages (messages h) (us ++ [u]) (rendered h) h
  end.

Definition render (now : num) (h : Handler) : Handler :=
  let m := run_all now (requestGeneration h) (updates h) (messages h) in
  set_messages m [] m h.

(** ** Chunks *)
Definition mergePendingStreamChunk (currentChunk : jsstring) (nextChunk : jsval) : result jsstring :=
  if currentChunk =s [] then to_string nextChunk
  else
    match nextChunk with
    | VString next => Ok (if starts_with currentChunk next then next else currentChunk ++ next)
    | _ => Err type_error
    end.

Definition clear_timer (h : Handler) : Handler :=
  match streamFlushTimer h with
  | Some id => set_timer None (List.filter (λ x, negb (x.1 =? id)) (timers h)) (next_timer h) h
  | None => h
  end.

Definition discardPendingStreamUpdates (g : nat) (h : Handler) : Handler :=
  set_pending (mkPending g [] []) (clear_timer h).

Definition flushStreamUpdates (env : Env) (g : nat) (h : Handler) : Handler :=
  if negb (g =? requestGeneration h) then h
  else
    let h := clear_timer h in
    let p := pendingStreamChunks h in
    if negb (p_generation p =? g) then h
    else if (p_reasoning p =s []) && (p_content p =s []) then h
    else onMessageUpdate env (UFlush g (p_reasoning p) (p_content p)) (set_pending (mkPending g [] []) h).

Definition scheduleStreamFlush (g : nat) (h : Handler) : Handler :=
  if negb (g =? requestGeneration h) then h
  else
    match streamFlushTimer h with
    | Some _ => h
    | None => set_timer (Some (next_timer h)) (timers h ++ [(next_timer h, g)]) (next_timer h + 1) h
    end.

Definition put_chunk (type : StreamChunkType) (text : jsstring) (p : PendingStreamChunks) : PendingStreamChunks :=
  match type with
  | chunk_content => mkPending (p_generation p) text (p_reasoning p)
  | chunk_reasoning => mkPending (p_generation p) (p_content p) text
  end.
Definition pending_chunk (type : StreamChunkType) (p : PendingStreamChunks) : jsstring :=
  match type with chunk_content => p_content p | chunk_reasoning => p_reasoning p end.

Definition handleStreamUpdate (g : nat) (type : StreamChunkType) (chunk : jsval) (h : Handler) : option exn * Handler :=
  if negb (g =? requestGeneration h) then (None, h)
  else if negb (p_generation (pendingStreamChunks h) =? g) then (None, h)
  else
    match mergePendingStreamChunk (pending_chunk type (pendingStreamChunks h)) chunk with
    | Err e => (Some e, h)
    | Ok text => (None, scheduleStreamFlush g (set_pending (put_chunk type text (pendingStreamChunks h)) h))
    end.

Definition handleStreamComplete (env : Env) (g : nat) (h : Handler) : Handler :=
  if negb (g =? requestGeneration h) then h
  else onMessageUpdate env (UComplete g) (setIsRequesting false (flushStreamUpdates env g h)).

(** [error.slice(0, -CONNECTION_CLOSED.length)]. *)
Definition getDisplayError (error : jsval) : result jsstring :=
  match error with
  | VString error =>
      Ok (if str_in error KNOWN_ERROR_MESSAGES then t error
          else if ends_with (js ": " ++ CONNECTION_CLOSED) error
          then take (length error - length CONNECTION_CLOSED) error ++ t CONNECTION_CLOSED
          else error)
  | _ => Err type_error
  end.

Definition handleStreamError (env : Env) (g : nat) (error errorCode : jsval) (h : Handler) : option exn * Handler :=
  if negb (g =? requestGeneration h) then (None, h)
  else
    let h := setIsRequesting false (flushStreamUpdates env g h) in
    match getDisplayError error with
    | Err e => (Some e, h)
    | Ok displayError =>
        (None, onMessageUpdate env (UError g displayError errorCode (t API_REQUEST_ERROR))
                 (handleServerError displayError h))
    end.

Definition stream_callbacks (env : Env) (g : nat) : StreamRequestCallbacks Handler :=
  mkCallbacks (handleStreamUpdate g) (handleStreamComplete env g) (handleStreamError env g).

(** ** Sending and stopping *)
Definition abort_request (i : option nat) (rs : list PendingRequest) : list PendingRequest :=
  match i with
  | Some i => alter (λ r, mkRequest (req_generation r) (req_payload r) true (req_settled r)) i rs
  | None => rs
  end.
Definition abort_current (next : option nat) (h : Handler) : Handler :=
  set_requests next (abort_request (abortController h) (requests h)) h.

Definition sendStreamingChat (messages : list Message) (config : PlaygroundConfig) (enabled : ParameterEnabled)
    (st : Chat) : Chat :=
  let g := requestGeneration st.2 + 1 in
  let h := setIsRequesting true (discardPendingStreamUpdates g (abort_current None (set_generation g st.2))) in
  (send g (buildChatCompletionPayload messages config enabled) st.1, h).

(** [sendNonStreamingChat] up to its await of the response. *)
Definition sendNonStreamingChat (messages : list Message) (config : PlaygroundConfig) (enabled : ParameterEnabled)
    (st : Chat) : Chat :=
  let g := requestGeneration st.2 + 1 in
  let h := abort_current (Some (length (requests st.2))) (discardPendingStreamUpdates g (set_generation g st.2)) in
  let request := mkRequest g (buildChatCompletionPayload messages config enabled) false false in
  (stop st.1, setIsRequesting true (set_requests (abortController h) (requests h ++ [request]) h)).

Definition settle_request (r : PendingRequest) : PendingRequest :=
  mkRequest (req_generation r) (req_payload r) (aborted r) true.

(** The request with this index, the first time it settles. *)
Definition take_request (i : nat) (h : Handler) : option (PendingRequest * Handler) :=
  r ← requests h !! i;
  if req_settled r then None else Some (r, set_requests (abortController h) (alter settle_request i (requests h)) h).

Definition request_finally (g : nat) (h : Handler) : Handler :=
  if requestGeneration h =? g then setIsRequesting false (set_requests None (requests h) h) else h.

Definition request_resolves (env : Env) (i : nat) (choices : list Choice) (h : Handler) : Handler :=
  match take_request i h with
  | None => h
  | Some (r, h) =>
      let g := req_generation r in
      request_finally g
        (if aborted r || negb (requestGeneration h =? g) then h
         else if negb (hasChatCompletionChoice choices)
         then (handleStreamError env g (VString API_REQUEST_ERROR) VUndefined h).2
         else onMessageUpdate env (UResponse g choices) h)
  end.

(** [parseRequestErrorDetails]: the message of the response, of the error, or
    the fallback; and the code. *)
Definition parseRequestErrorDetails (error : jsval) : StreamErrorDetails :=
  let data := prop (prop error (js "response")) (js "data") in
  mkDetails (or_value (prop (prop data (js "error")) (js "code")) VUndefined)
    (or_value (prop data (js "message")) (or_value (prop error (js "message")) (VString API_REQUEST_ERROR))).

Definition request_rejects (env : Env) (i : nat) (error : jsval) (h : Handler) : Handler :=
  match take_request i h with
  | None => h
  | Some (r, h) =>
      let g := req_generation r in
      let details := parseRequestErrorDetails error in
      request_finally g
        (if aborted r || negb (requestGeneration h =? g) then h
         else (handleStreamError env g (d_errorMessage details) (d_errorCode details) h).2)
  end.

Definition sendChat (messages : list Message) (config : PlaygroundConfig) (enabled : ParameterEnabled) (st : Chat) : Chat :=
  if stream config then sendStreamingChat messages config enabled st
  else sendNonStreamingChat messages config enabled st.

Definition stopGeneration (env : Env) (st : Chat) : Chat :=
  let stoppedGeneration := requestGeneration st.2 in
  let idleGeneration := stoppedGeneration + 1 in
  let h := flushStreamUpdates env stoppedGeneration st.2 in
  let h := discardPendingStreamUpdates idleGeneration (set_generation idleGeneration h) in
  let h := setIsRequesting false (abort_current None h) in
  (stop st.1, onMessageUpdate env (UStop idleGeneration) h).

(** The page is left: the cleanup effects of both hooks. *)
Definition unmount (st : Chat) : Chat :=
  let h := set_generation (requestGeneration st.2 + 1) st.2 in
  let live := match streamFlushTimer h with
              | Some id => List.filter (λ x, negb (x.1 =? id)) (timers h)
              | None => timers h
              end in
  (dispose st.1, abort_current None (set_timer (streamFlushTimer h) live (next_timer h) h)).

Definition isGenerating (st : Chat) : bool := isStreaming st.1 || isRequesting st.2.

(** ** hooks/use-playground-conversation.ts *)
Definition handleSendMessage (env : Env) (k : PairKeys) (text : jsstring) config enabled (st : Chat) : Chat :=
  let nextMessages := appendUserMessagePair k (now env) (rendered st.2) text in
  sendChat nextMessages config enabled (st.1, onMessageUpdate env (USet nextMessages) st.2).

Definition handleRegenerateMessage (env : Env) (k id messageKey : jsstring) config enabled (st : Chat) : Chat :=
  match createRegeneratedMessages k id (now env) (rendered st.2) messageKey with
  | None => st
  | Some nextMessages => sendChat nextMessages config enabled (st.1, onMessageUpdate env (USet nextMessages) st.2)
  end.

Definition applyEdit (env : Env) (k id editingMessageKey newContent : jsstring) (shouldSubmit : bool) config enabled
    (st : Chat) : Chat :=
  match applyMessageEdit k id (now env) (rendered st.2) editingMessageKey newContent shouldSubmit with
  | None => st
  | Some (edited, shouldSend) =>
      let st := (st.1, onMessageUpdate env (USet edited) st.2) in
      if shouldSend then sendChat edited config enabled st else st
  end.

Definition handleDeleteMessage (env : Env) (messageKey : jsstring) (st : Chat) : Chat :=
  (st.1, onMessageUpdate env (URemove messageKey) st.2).

(** ** Events *)
Inductive Event :=
  | Send (k : PairKeys) (text : jsstring) (config : PlaygroundConfig) (enabled : ParameterEnabled)
  | Regenerate (k id messageKey : jsstring) (config : PlaygroundConfig) (enabled : ParameterEnabled)
  | Edit (k id messageKey newContent : jsstring) (shouldSubmit : bool) (config : PlaygroundConfig) (enabled : ParameterEnabled)
  | Delete (messageKey : jsstring)
  | Clear
  | Stop
  | HeadersReady (wait : nat)
  | HeadersFailed (wait : nat) (error : option jsstring)
  | StreamThrows (i : nat)
  | SourceMessage (i : nat) (data : jsstring)
  | SourceError (i : nat) (readyState : option Z) (data : jsstring)
  | SourceState (i : nat) (eventReadyState sourceStatus : option Z)
  | TimerFires (id : nat)
  | RequestResolves (i : nat) (choices : list Choice)
  | RequestRejects (i : nat) (error : jsval)
  | Render.

(** A timer that fires is no longer live. *)
Definition timer_fires (env : Env) (id : nat) (h : Handler) : Handler :=
  match list_find (λ x, x.1 = id) (timers h) with
  | None => h
  | Some (_, (_, g)) =>
      flushStreamUpdates env g
        (set_timer (streamFlushTimer h) (List.filter (λ x, negb (x.1 =? id)) (timers h)) (next_timer h) h)
  end.

Definition step (env : Env) (e : Event) (st : Chat) : Chat :=
  let callbacks := stream_callbacks env in
  match e with
  | Send k text config enabled => handleSendMessage env k text config enabled st
  | Regenerate k id messageKey config enabled => handleRegenerateMessage env k id messageKey config enabled st
  | Edit k id messageKey newContent shouldSubmit config enabled =>
      applyEdit env k id messageKey newContent shouldSubmit config enabled st
  | Delete messageKey => handleDeleteMessage env messageKey st
  | Clear => (st.1, onMessageUpdate env (USet []) st.2)
  | Stop => stopGeneration env st
  | HeadersReady i => (headers_ready i st.1, st.2)
  | HeadersFailed i error => headers_failed callbacks i error st
  | StreamThrows i => stream_throws callbacks i st
  | SourceMessage i data => on_message callbacks i data st
  | SourceError i readyState data => on_error callbacks i readyState data st
  | SourceState i r s => on_readystatechange callbacks i r s st
  | TimerFires id => (st.1, timer_fires env id st.2)
  | RequestResolves i choices => (st.1, request_resolves env i choices st.2)
  | RequestRejects i error => (st.1, request_rejects env i error st.2)
  | Render => (st.1, render (now env) st.2)
  end.

Definition run_events (es : list (Env * Event)) (st : Chat) : Chat :=
  foldl (λ st e, step e.1 e.2 st) st es.

(** The page as it opens on the stored messages. *)
Definition initial_chat (stored : list Message) : Chat := (createStreamRequestController, initial_handler stored).
Inductive reachable (stored : list Message) : Chat → Prop :=
  | reach_init : reachable stored (initial_chat stored)
  | reach_step env e st : reachable stored st → reachable stored (step env e st).
End Handler.
