(* ===== verification/ChatFacts.v ===== *)
(** * Facts about the chat handler

    The invariant of the controller and of the handler, and the messages every
    queued updater will have made of the list ([virtual]). *)

From S2P Require Import Prelude JsNumber JsText Types Runtime JsRegex JsValue ChatMessage ChatStream ChatHandler.
From S2P Require Import ChatMessageFacts.

(** ** The controller *)

Record controller_ok (c : Controller) : Prop := {
  waits_past : ∀ i w, waits c !! i = Some w → w_generation w ≤ generation c;
  wait_last : ∀ i w, waits c !! i = Some w → w_generation w = generation c → i + 1 = length (waits c);
  sources_past : ∀ i s, eventSources c !! i = Some s → s_generation s ≤ generation c;
  others_closed : ∀ i s, eventSources c !! i = Some s → source c ≠ Some i → closed s = true;
  active_open : ∀ i, source c = Some i →
    ∃ s, eventSources c !! i = Some s ∧ s_generation s = generation c ∧ closed s = false;
  streaming_active : isStreaming c = is_some (source c)
}.

Lemma controller_ok_initial : controller_ok createStreamRequestController.
Proof. by split. Qed.

Lemma alter_closed i (l : list StreamEventSource) j s : alter mark_closed i l !! j = Some s →
  ∃ s0, l !! j = Some s0 ∧ s_generation s = s_generation s0 ∧ s_request s = s_request s0 ∧
    completed s = completed s0 ∧ (closed s0 = true → closed s = true) ∧ (i = j → closed s = true).
Proof.
  destruct (decide (i = j)) as [->|Hne].
  - rewrite list_lookup_alter_eq. destruct (l !! j) as [s0|]; [|done]. intros [= <-]. by exists s0.
  - rewrite list_lookup_alter_ne by done. intros H. by exists s.
Qed.

(** Superseding a generation closes whatever was open. *)
Lemma supersede_ok b c : controller_ok c → b = false →
  controller_ok (supersede b c) ∧ source (supersede b c) = None ∧ generation (supersede b c) = generation c + 1 ∧
  waits (supersede b c) = waits c ∧ length (eventSources (supersede b c)) = length (eventSources c).
Proof.
  intros Hc ->. unfold supersede. destruct (source c) as [i|] eqn:Hs; cbn [close_source].
  - split; [|cbn; by rewrite length_alter]. split; cbn; try done.
    + intros j w Hw. pose proof (waits_past _ Hc _ _ Hw). lia.
    + intros j w Hw. pose proof (waits_past _ Hc _ _ Hw). lia.
    + intros j s (s0 & H0 & Hg & _)%alter_closed. pose proof (sources_past _ Hc _ _ H0). lia.
    + intros j s (s0 & H0 & _ & _ & _ & Hk & Hi)%alter_closed _. destruct (decide (i = j)) as [->|Hne]; [auto|].
      apply Hk, (others_closed _ Hc _ _ H0). congruence.
  - split; [|done]. split; cbn; try done.
    + intros j w Hw. pose proof (waits_past _ Hc _ _ Hw). lia.
    + intros j w Hw. pose proof (waits_past _ Hc _ _ Hw). lia.
    + intros j s H0. pose proof (sources_past _ Hc _ _ H0). lia.
    + intros j s H0 _. apply (others_closed _ Hc _ _ H0). congruence.
Qed.

Lemma lookup_snoc_Some {A} (l : list A) x i y :
  (l ++ [x]) !! i = Some y → l !! i = Some y ∨ (i = length l ∧ y = x).
Proof. intros [H|[Hl H]]%lookup_app_Some; [by left|]. right. destruct (i - length l) eqn:E; [|done]. cbn in H. split; [lia|congruence]. Qed.

Lemma send_ok g p c : controller_ok c → controller_ok (send g p c).
Proof.
  intros Hc. destruct (supersede_ok false c Hc eq_refl) as (Hok & Hs & Hg & Hw & _).
  unfold send. destruct Hok. split; cbn; try done.
  - intros i w [H|[_ ->]]%lookup_snoc_Some; [by eapply waits_past0|done].
  - intros i w [H|[-> _]]%lookup_snoc_Some Hgen; [|rewrite length_app; done].
    rewrite Hw in H. pose proof (waits_past _ Hc _ _ H). lia.
Qed.

Lemma take_wait_Some i c w c' : take_wait i c = Some (w, c') →
  waits c !! i = Some w ∧ w_settled w = false ∧ c' = set_waits (alter settle_wait i (waits c)) c.
Proof.
  unfold take_wait. destruct (waits c !! i) as [x|]; [|done]. cbn. destruct (w_settled x) eqn:E; [done|].
  by intros [= <- <-].
Qed.

Lemma settled_wait i (l : list HeaderWait) j w : alter settle_wait i l !! j = Some w →
  ∃ w0, l !! j = Some w0 ∧ w_generation w = w_generation w0 ∧ w_request w = w_request w0 ∧
    (w_settled w = false → w = w0 ∧ i ≠ j).
Proof.
  destruct (decide (i = j)) as [->|Hne].
  - rewrite list_lookup_alter_eq. destruct (l !! j) as [w0|]; [|done]. intros [= <-]. by exists w0.
  - rewrite list_lookup_alter_ne by done. intros H. by exists w.
Qed.

Lemma settle_ok i c : controller_ok c → controller_ok (set_waits (alter settle_wait i (waits c)) c).
Proof.
  intros []. split; cbn; try done.
  - intros j w (w0 & H0 & Hg & _)%settled_wait. rewrite Hg. by eapply waits_past0.
  - intros j w (w0 & H0 & Hg & _)%settled_wait. rewrite Hg, length_alter. by eapply wait_last0.
Qed.

(** A wait of the current generation means that no source is open. *)
Lemma headers_ready_ok i c : controller_ok c → (∀ j w, waits c !! j = Some w → w_settled w = false →
    w_generation w = generation c → source c = None) → controller_ok (headers_ready i c).
Proof.
  intros Hc Hn. unfold headers_ready. destruct (take_wait i c) as [[w c']|] eqn:Ht; [|done].
  apply take_wait_Some in Ht as (Hw & Hu & ->). cbn [generation set_waits].
  destruct (generation c =? w_generation w) eqn:Hg; [|by apply settle_ok]. apply Nat.eqb_eq in Hg.
  pose proof (Hn _ _ Hw Hu (eq_sym Hg)) as Hs. pose proof (settle_ok i c Hc) as []. split; cbn in *; try done.
  - intros j s [H|[-> ->]]%lookup_snoc_Some; [by eapply sources_past0|cbn; lia].
  - intros j s [H|[-> ->]]%lookup_snoc_Some Hne; [|congruence]. eapply others_closed0; [done|]. congruence.
  - intros j [= <-]. rewrite lookup_app_r, Nat.sub_diag by lia. cbn. by eexists.
Qed.

Lemma complete_ok i c : controller_ok c → controller_ok (complete_source i c).
Proof.
  assert (∀ (l : list StreamEventSource) j s, alter mark_completed i l !! j = Some s →
    ∃ s0, l !! j = Some s0 ∧ s_generation s = s_generation s0 ∧ closed s = closed s0) as H.
  { intros l j s. destruct (decide (i = j)) as [->|Hne].
    - rewrite list_lookup_alter_eq. destruct (l !! j) as [s0|]; [|done]. intros [= <-]. by exists s0.
    - rewrite list_lookup_alter_ne by done. intros H. by exists s. }
  intros []. split; cbn; try done.
  - intros j s (s0 & H0 & Hg & _)%H. rewrite Hg. by eapply sources_past0.
  - intros j s (s0 & H0 & _ & Hk)%H Hne. rewrite Hk. by eapply others_closed0.
  - intros j Hj. destruct (active_open0 j Hj) as (s & Hs & Hg & Hk).
    destruct (decide (i = j)) as [->|Hne].
    + exists (mark_completed s). by rewrite list_lookup_alter_eq, Hs.
    + exists s. by rewrite list_lookup_alter_ne by done.
Qed.

Lemma close_active_ok i c : controller_ok c → source c = Some i → controller_ok (closeActiveSource i c).
Proof.
  intros [] Hs. unfold closeActiveSource. cbn [close_source source set_sources].
  rewrite bool_decide_eq_true_2 by done. split; cbn; try done.
  - intros j s (s0 & H0 & Hg & _)%alter_closed. rewrite Hg. by eapply sources_past0.
  - intros j s (s0 & H0 & _ & _ & _ & Hk & Hi)%alter_closed _. destruct (decide (i = j)) as [->|Hne]; [auto|].
    apply Hk, (others_closed0 _ _ H0). congruence.
Qed.

Lemma listening_Some i c s : listening i c = Some s →
  eventSources c !! i = Some s ∧ source c = Some i ∧ generation c = s_generation s ∧ completed s = false.
Proof.
  unfold listening. destruct (eventSources c !! i) as [x|] eqn:Hx; [|done]. cbn. unfold isCurrent.
  destruct (generation c =? s_generation x) eqn:Hg; [|done]. destruct (bool_decide (source c = Some i)) eqn:Hs; [|done].
  destruct (completed x) eqn:Hc; [done|]. cbn. intros [= <-]. apply Nat.eqb_eq in Hg. by apply bool_decide_eq_true in Hs.
Qed.

Lemma not_listening i c : source c ≠ Some i → listening i c = None.
Proof.
  intros H. unfold listening. destruct (eventSources c !! i) as [x|]; [|done]. cbn. unfold isCurrent.
  rewrite (bool_decide_eq_false_2 _ H), andb_false_r. done.
Qed.

(** ** The handler *)

Record handler_ok (h : Handler) : Prop := {
  pending_current : p_generation (pendingStreamChunks h) = requestGeneration h;
  timer_live : timers h = match streamFlushTimer h with Some id => [(id, requestGeneration h)] | None => [] end;
  pending_scheduled : streamFlushTimer h = None → pendingStreamChunks h = mkPending (requestGeneration h) [] [];
  requests_past : ∀ i r, requests h !! i = Some r → req_generation r ≤ requestGeneration h;
  requests_owned : ∀ i r, requests h !! i = Some r →
    aborted r = true ∨ req_settled r = true ∨ abortController h = Some i;
  current_owned : ∀ i r, requests h !! i = Some r → req_generation r = requestGeneration h →
    req_settled r = true ∨ abortController h = Some i;
  owner_current : ∀ i r, abortController h = Some i → requests h !! i = Some r → req_generation r = requestGeneration h
}.

(** What no chunk, flush or updater touches. *)
Definition same_requests (h h' : Handler) : Prop :=
  requestGeneration h' = requestGeneration h ∧ abortController h' = abortController h ∧ requests h' = requests h.
Definition same_run (h h' : Handler) : Prop := same_requests h h' ∧ isRequesting h' = isRequesting h.

#[local] Instance same_requests_refl : Reflexive same_requests.
Proof. done. Qed.
#[local] Instance same_requests_trans : Transitive same_requests.
Proof. intros ??? (?&?&?) (?&?&?). by split_and!; etrans. Qed.
#[local] Instance same_run_refl : Reflexive same_run.
Proof. done. Qed.
#[local] Instance same_run_trans : Transitive same_run.
Proof. intros ??? [? ?] [? ?]. split; by etrans. Qed.

Lemma handler_ok_initial m : handler_ok (initial_handler m).
Proof. by split. Qed.

Lemma messages_ok m us r h : handler_ok h → handler_ok (set_messages m us r h).
Proof. intros []. by split. Qed.

Lemma update_shape env u h : ∃ m us, onMessageUpdate env u h = set_messages m us (rendered h) h.
Proof. unfold onMessageUpdate. destruct (updates h), (eager env); eauto. Qed.
Lemma update_ok env u h : handler_ok h → handler_ok (onMessageUpdate env u h).
Proof. intros H. destruct (update_shape env u h) as (m & us & ->). by apply messages_ok. Qed.
Lemma update_same env u h : same_run h (onMessageUpdate env u h) ∧
  streamFlushTimer (onMessageUpdate env u h) = streamFlushTimer h ∧
  pendingStreamChunks (onMessageUpdate env u h) = pendingStreamChunks h.
Proof. by destruct (update_shape env u h) as (m & us & ->). Qed.

Lemma requesting_ok b h : handler_ok h → handler_ok (setIsRequesting b h).
Proof. intros []. by split. Qed.
Lemma error_ok e h : handler_ok h → handler_ok (handleServerError e h).
Proof. intros []. by split. Qed.

(** The live timer is the one the reference names. *)
Lemma clear_timer_live h : handler_ok h →
  streamFlushTimer (clear_timer h) = None ∧ timers (clear_timer h) = [] ∧ same_run h (clear_timer h) ∧
  pendingStreamChunks (clear_timer h) = pendingStreamChunks h.
Proof.
  intros []. unfold clear_timer. destruct (streamFlushTimer h) as [id|] eqn:Ht; [|by rewrite Ht].
  cbn. rewrite timer_live0. cbn. by rewrite Nat.eqb_refl.
Qed.

Lemma clear_timer_frame h : same_run h (clear_timer h) ∧ pendingStreamChunks (clear_timer h) = pendingStreamChunks h.
Proof. unfold clear_timer. by destruct (streamFlushTimer h). Qed.

(** The handler once its generation is [g] and its chunks are discarded. *)
Lemma discard_spec g h : handler_ok h → let h' := discardPendingStreamUpdates g (set_generation g h) in
  requestGeneration h' = g ∧ pendingStreamChunks h' = mkPending g [] [] ∧ streamFlushTimer h' = None ∧ timers h' = [] ∧
  requests h' = requests h ∧ abortController h' = abortController h.
Proof.
  intros Hh. cbn zeta. unfold discardPendingStreamUpdates. destruct (clear_timer_live h Hh) as (Ht & Hts & _).
  assert (streamFlushTimer (clear_timer (set_generation g h)) = None ∧ timers (clear_timer (set_generation g h)) = []) as [Ht' Hts'].
  { revert Ht Hts. unfold clear_timer. cbn. by destruct (streamFlushTimer h). }
  assert (same_run (set_generation g h) (clear_timer (set_generation g h))) as [(Hg & Ha & Hq) _]
    by apply clear_timer_frame. by split_and!.
Qed.

Lemma flush_spec env g h : handler_ok h → g = requestGeneration h →
  let h' := flushStreamUpdates env g h in
  handler_ok h' ∧ same_run h h' ∧ streamFlushTimer h' = None ∧ pendingStreamChunks h' = mkPending g [] [].
Proof.
  intros Hh ->. cbn zeta. unfold flushStreamUpdates. rewrite Nat.eqb_refl. cbn [negb].
  destruct (clear_timer_live h Hh) as (Ht & Hts & Hrun & Hp). rewrite Hp, (pending_current _ Hh), Nat.eqb_refl. cbn [negb].
  pose proof Hrun as [(Hg & Ha & Hq) _].
  destruct (_ && _) eqn:He.
  - assert (pendingStreamChunks h = mkPending (requestGeneration h) [] []) as Hnil.
    { apply andb_prop in He as [H1 H2]. unfold str_eqb in *. apply bool_decide_eq_true in H1, H2.
      pose proof (pending_current _ Hh). destruct (pendingStreamChunks h). cbn in *. congruence. }
    split_and!; [|done|done|congruence]. destruct Hh. split.
    + by rewrite Hp, Hg.
    + by rewrite Ht, Hts.
    + intros _. by rewrite Hp, Hg.
    + rewrite Hq, Hg. exact requests_past0.
    + rewrite Hq, Ha. exact requests_owned0.
    + rewrite Hq, Ha, Hg. exact current_owned0.
    + rewrite Hq, Ha, Hg. exact owner_current0.
  - set (h1 := set_pending _ _).
    assert (handler_ok h1) as H1.
    { destruct Hh. split; cbn.
      - by rewrite Hg.
      - by rewrite Ht, Hts.
      - by rewrite Hg.
      - rewrite Hq, Hg. exact requests_past0.
      - rewrite Hq, Ha. exact requests_owned0.
      - rewrite Hq, Ha, Hg. exact current_owned0.
      - rewrite Hq, Ha, Hg. exact owner_current0. }
    destruct (update_same env (UFlush (requestGeneration h) (p_reasoning (pendingStreamChunks h)) (p_content (pendingStreamChunks h))) h1)
      as (Hs & Hst & Hsp).
    split_and!; [by apply update_ok|etrans; [|exact Hs]; exact Hrun|by rewrite Hst|by rewrite Hsp].
Qed.

Lemma flush_stale env g h : g ≠ requestGeneration h → flushStreamUpdates env g h = h.
Proof. intros H. unfold flushStreamUpdates. by rewrite (proj2 (Nat.eqb_neq _ _) H). Qed.

Lemma flush_ok env g h : handler_ok h → handler_ok (flushStreamUpdates env g h) ∧ same_run h (flushStreamUpdates env g h).
Proof.
  intros Hh. destruct (decide (g = requestGeneration h)) as [->|Hne].
  - destruct (flush_spec env _ h Hh eq_refl) as (? & ? & _). done.
  - by rewrite flush_stale.
Qed.

(** A chunk that is kept has a timer that will flush it. *)
Lemma chunk_ok g type chunk h e h' : handler_ok h → handleStreamUpdate g type chunk h = (e, h') →
  handler_ok h' ∧ same_run h h'.
Proof.
  intros Hh. unfold handleStreamUpdate. destruct (g =? requestGeneration h) eqn:Hg; [|by intros [= <- <-]].
  apply Nat.eqb_eq in Hg as ->. rewrite (pending_current _ Hh), Nat.eqb_refl. cbn [negb].
  destruct (mergePendingStreamChunk _ _) as [text|]; [|by intros [= <- <-]]. intros [= <- <-].
  unfold scheduleStreamFlush. cbn [requestGeneration set_pending]. rewrite Nat.eqb_refl. cbn [negb streamFlushTimer set_pending].
  destruct Hh. destruct (streamFlushTimer h) as [id|] eqn:Ht.
  - split; [|done]. split; cbn; try done; [by destruct type|by rewrite Ht|congruence].
  - split; [|done]. split; cbn; try done; [by destruct type|by rewrite timer_live0].
Qed.

Section Translated.
Context (t : jsstring → jsstring).

Lemma complete_stream_ok env g h : handler_ok h → handler_ok (handleStreamComplete env g h) ∧
  same_requests h (handleStreamComplete env g h) ∧
  (g = requestGeneration h → isRequesting (handleStreamComplete env g h) = false).
Proof.
  intros Hh. unfold handleStreamComplete. destruct (g =? requestGeneration h) eqn:Hg; cbn [negb].
  - destruct (flush_ok env g h Hh) as [Hf [Hr _]].
    destruct (update_same env (UComplete g) (setIsRequesting false (flushStreamUpdates env g h))) as ([Hu Hb] & _).
    split; [by apply update_ok, requesting_ok|]. split; [by etrans; [exact Hr|exact Hu]|]. intros _. by rewrite Hb.
  - apply Nat.eqb_neq in Hg. done.
Qed.

Lemma stream_error_ok env g error code h e h' : handler_ok h → handleStreamError t env g error code h = (e, h') →
  handler_ok h' ∧ same_requests h h' ∧ (g = requestGeneration h → isRequesting h' = false).
Proof.
  intros Hh. unfold handleStreamError. destruct (g =? requestGeneration h) eqn:Hg; cbn [negb].
  - destruct (flush_ok env g h Hh) as [Hf [Hr _]].
    destruct (getDisplayError t error) as [text|]; intros [= <- <-].
    + set (h1 := handleServerError text _). destruct (update_same env (UError g text code (t API_REQUEST_ERROR)) h1) as ([Hu Hb] & _).
      split; [by apply update_ok, error_ok, requesting_ok|]. split; [by etrans; [exact Hr|exact Hu]|]. intros _. by rewrite Hb.
    + split; [by apply requesting_ok|]. done.
  - apply Nat.eqb_neq in Hg. by intros [= <- <-].
Qed.

Lemma run_updates_ok env g us : ∀ h e h', handler_ok h → run_updates (stream_callbacks t env) g us h = (e, h') →
  handler_ok h' ∧ same_run h h'.
Proof.
  induction us as [|[type chunk] us IH]; intros h e h' Hh; cbn [run_updates]; [by intros [= <- <-]|].
  cbn [onUpdate stream_callbacks]. destruct (handleStreamUpdate g type chunk h) as [[x|] h1] eqn:Hu.
  - intros [= <- <-]. by eapply chunk_ok.
  - intros Hr. destruct (chunk_ok _ _ _ _ _ _ Hh Hu) as [H1 Hs1]. destruct (IH _ _ _ H1 Hr) as [H2 Hs2].
    split; [done|]. by etrans.
Qed.
End Translated.

(** ** The whole chat *)

Definition waiting (c : Controller) : Prop :=
  ∃ i w, waits c !! i = Some w ∧ w_settled w = false ∧ w_generation w = generation c.
Definition receiving (c : Controller) : Prop :=
  ∃ i s, source c = Some i ∧ eventSources c !! i = Some s ∧ completed s = false.
Definition asking (h : Handler) : Prop :=
  ∃ i r, abortController h = Some i ∧ requests h !! i = Some r ∧ req_settled r = false.
(** Something is under way that will end the request. *)
Definition in_flight (st : Chat) : Prop := waiting st.1 ∨ receiving st.1 ∨ asking st.2.

Record chat_ok (st : Chat) : Prop := {
  ck_controller : controller_ok st.1;
  ck_handler : handler_ok st.2;
  source_linked : ∀ i s, source st.1 = Some i → eventSources st.1 !! i = Some s → s_request s = requestGeneration st.2;
  wait_linked : ∀ i w, waits st.1 !! i = Some w → w_settled w = false → w_generation w = generation st.1 →
    w_request w = requestGeneration st.2 ∧ source st.1 = None;
  busy : isRequesting st.2 = true → in_flight st
}.

Lemma chat_ok_handler c h h' : chat_ok (c, h) → handler_ok h' → same_requests h h' →
  (isRequesting h' = true → isRequesting h = true) → chat_ok (c, h').
Proof.
  intros [] Hh (Hg & Ha & Hr) Hb. cbn [fst snd] in *. split; cbn [fst snd]; try done.
  - by rewrite Hg.
  - by rewrite Hg.
  - intros H. destruct (busy0 (Hb H)) as [?|[?|(i & r & ? & ? & ?)]]; [by left|by right; left|].
    right; right. exists i, r. cbn. by rewrite Ha, Hr.
Qed.

Lemma chat_ok_update c env u h : chat_ok (c, h) → chat_ok (c, onMessageUpdate env u h).
Proof.
  intros Hok. destruct (update_same env u h) as ([Hs Hb] & _).
  eapply chat_ok_handler; [done|apply update_ok, Hok|done|congruence].
Qed.

Lemma abort_request_lookup o rs i r : abort_request o rs !! i = Some r →
  ∃ r0, rs !! i = Some r0 ∧ req_generation r = req_generation r0 ∧ req_settled r = req_settled r0 ∧
    (aborted r0 = true → aborted r = true) ∧ (o = Some i → aborted r = true).
Proof.
  destruct o as [j|]; cbn [abort_request]; [|by intros H; exists r]. destruct (decide (j = i)) as [->|Hne].
  - rewrite list_lookup_alter_eq. destruct (rs !! i) as [r0|]; [|done]. intros [= <-]. by exists r0.
  - rewrite list_lookup_alter_ne by done. intros H. exists r. split_and!; try done. congruence.
Qed.

Lemma abort_request_length o rs : length (abort_request o rs) = length rs.
Proof. destruct o; [apply length_alter|done]. Qed.

(** Aborting its controller leaves no request that is still heard. *)
Lemma aborted_all h i r : handler_ok h → abort_request (abortController h) (requests h) !! i = Some r →
  req_generation r ≤ requestGeneration h ∧ (aborted r = true ∨ req_settled r = true).
Proof.
  intros [] (r0 & H0 & -> & -> & Hab & Ho)%abort_request_lookup. split; [by eapply requests_past0|].
  destruct (requests_owned0 _ _ H0) as [?|[?|?]]; auto.
Qed.

Lemma discard_same g h : same_run h (discardPendingStreamUpdates g h).
Proof. unfold discardPendingStreamUpdates. destruct (clear_timer_frame h) as [? _]. done. Qed.

(** What a new request and a stop make of the handler. *)
Lemma renewed_ok h : handler_ok h →
  handler_ok (abort_current None (discardPendingStreamUpdates (requestGeneration h + 1)
    (set_generation (requestGeneration h + 1) h))).
Proof.
  intros Hh. destruct (discard_spec (requestGeneration h + 1) h Hh) as (H1 & H2 & H3 & H4 & H5 & H6).
  set (h1 := discardPendingStreamUpdates _ _) in *. clearbody h1. split; cbn; rewrite ?H1, ?H2, ?H3, ?H4, ?H5, ?H6; try done.
  - intros i r Hr. destruct (aborted_all _ _ _ Hh Hr). lia.
  - intros i r Hr. destruct (aborted_all _ _ _ Hh Hr) as [_ [?|?]]; auto.
  - intros i r Hr Hg. destruct (aborted_all _ _ _ Hh Hr). lia.
Qed.

Lemma abort_discard g h : abort_current None (discardPendingStreamUpdates g h) = discardPendingStreamUpdates g (abort_current None h).
Proof. unfold discardPendingStreamUpdates, clear_timer, abort_current. cbn. by destruct (streamFlushTimer h). Qed.

Lemma stopped_links c h : chat_ok (c, h) → source (stop c) = None ∧ generation (stop c) = generation c + 1 ∧
  controller_ok (stop c) ∧ ∀ i w, waits (stop c) !! i = Some w → w_generation w < generation (stop c).
Proof.
  intros Hok. unfold stop, cancel. destruct (supersede_ok false c (ck_controller _ Hok) eq_refl) as (H1 & H2 & H3 & H4 & _).
  split_and!; try done. rewrite H4, H3. intros i w Hw. pose proof (waits_past _ (ck_controller _ Hok) _ _ Hw). cbn in *. lia.
Qed.

Lemma streaming_send_ok messages config enabled c h : chat_ok (c, h) →
  chat_ok (sendStreamingChat messages config enabled (c, h)).
Proof.
  intros Hok. unfold sendStreamingChat. cbn [fst snd].
  pose proof (renewed_ok h (ck_handler _ Hok)) as Hr. rewrite abort_discard in Hr.
  set (h1 := discardPendingStreamUpdates _ _) in *.
  assert (requestGeneration h1 = requestGeneration h + 1) as Hg.
  { unfold h1. destruct (discard_same (requestGeneration h + 1) (abort_current None (set_generation (requestGeneration h + 1) h))) as [(E & _) _]. exact E. }
  clearbody h1.
  set (p := buildChatCompletionPayload messages config enabled).
  pose proof (send_ok (requestGeneration h + 1) p c (ck_controller _ Hok)) as Hs.
  destruct (supersede_ok false c (ck_controller _ Hok) eq_refl) as (_ & H2 & H3 & H4 & _).
  split; cbn [fst snd]; [done|by apply requesting_ok| | |].
  - cbn. rewrite H2. done.
  - cbn. intros i w [Hw|[-> ->]]%lookup_snoc_Some Hu Hgen.
    + rewrite H4 in Hw. pose proof (waits_past _ (ck_controller _ Hok) _ _ Hw). cbn in *. lia.
    + cbn. by rewrite Hg, H2.
  - intros _. left. exists (length (waits (supersede false c))). eexists. cbn [send waits set_waits fst].
    rewrite lookup_app_r, Nat.sub_diag by lia. cbn. done.
Qed.

Lemma non_streaming_send_ok messages config enabled c h : chat_ok (c, h) →
  chat_ok (sendNonStreamingChat messages config enabled (c, h)).
Proof.
  intros Hok. unfold sendNonStreamingChat. cbn [fst snd]. pose proof (ck_handler _ Hok) as Hh. cbn [snd] in Hh.
  destruct (stopped_links c h Hok) as (Hs & Hg & Hc & Hw).
  destruct (discard_spec (requestGeneration h + 1) h Hh) as (H1 & H2 & H3 & H4 & H5 & H6).
  set (h1 := discardPendingStreamUpdates _ _) in *. clearbody h1.
  split; cbn [fst snd]; [done| | | |].
  - split; cbn; rewrite ?H1, ?H2, ?H3, ?H4, ?H5, ?H6; try done.
    + intros i r [Hr|[-> ->]]%lookup_snoc_Some; [|done]. destruct (aborted_all _ _ _ Hh Hr). lia.
    + intros i r [Hr|[-> ->]]%lookup_snoc_Some; [|rewrite abort_request_length; auto].
      destruct (aborted_all _ _ _ Hh Hr) as [_ [?|?]]; auto.
    + intros i r [Hr|[-> ->]]%lookup_snoc_Some Hgen; [|rewrite abort_request_length; auto].
      destruct (aborted_all _ _ _ Hh Hr). lia.
    + intros i r [= <-] [Hr|[_ ->]]%lookup_snoc_Some; [|done].
      apply lookup_lt_Some in Hr. rewrite abort_request_length in Hr. lia.
  - intros i s. by rewrite Hs.
  - intros i w Hi _ Hgen. pose proof (Hw _ _ Hi). lia.
  - intros _. right; right. exists (length (requests h)). eexists. split; [done|]. cbn.
    by rewrite lookup_app_r; rewrite abort_request_length, H5, ?Nat.sub_diag.
Qed.

Lemma send_chat_ok messages config enabled c h : chat_ok (c, h) → chat_ok (sendChat messages config enabled (c, h)).
Proof. intros H. unfold sendChat. destruct (stream config); [by apply streaming_send_ok|by apply non_streaming_send_ok]. Qed.

Lemma stop_ok env c h : chat_ok (c, h) → chat_ok (stopGeneration env (c, h)).
Proof.
  intros Hok. unfold stopGeneration. cbn [fst snd]. apply chat_ok_update.
  destruct (stopped_links c h Hok) as (Hs & Hg & Hc & Hw).
  destruct (flush_ok env (requestGeneration h) h (ck_handler _ Hok)) as [Hf [(Hg1 & _) _]].
  pose proof (renewed_ok _ Hf) as Hr. rewrite Hg1 in Hr.
  split; cbn [fst snd]; [done|by apply requesting_ok| | |done].
  - intros i s. by rewrite Hs.
  - intros i w Hi _ Hgen. pose proof (Hw _ _ Hi). lia.
Qed.

(** ** Every event *)

Section Events.
Context (t : jsstring → jsstring).

Lemma source_of_listening c h i s : chat_ok (c, h) → listening i c = Some s →
  s_request s = requestGeneration h ∧ source c = Some i ∧ eventSources c !! i = Some s ∧ completed s = false.
Proof. intros Hok (H1 & H2 & _ & H3)%listening_Some. split; [|done]. by apply (source_linked _ Hok i). Qed.

(** With no request under way any controller that lost its source will do. *)
Lemma chat_ok_closed c c' h h' : chat_ok (c, h) → handler_ok h' → same_requests h h' → isRequesting h' = false →
  controller_ok c' → waits c' = waits c → generation c' = generation c → source c' = None → chat_ok (c', h').
Proof.
  intros [] Hh (Hg & _) Hb Hc Hw Hgen Hs. cbn [fst snd] in *. split; cbn [fst snd]; try done.
  - by rewrite Hs.
  - intros i w. rewrite Hw, Hgen, Hg, Hs. intros Hi Hu Hq. split; [|done]. by eapply (wait_linked0 i w).
  - by rewrite Hb.
Qed.

Lemma closed_active i c : source c = Some i → source (closeActiveSource i (complete_source i c)) = None ∧
  waits (closeActiveSource i (complete_source i c)) = waits c ∧
  generation (closeActiveSource i (complete_source i c)) = generation c.
Proof.
  intros H. unfold closeActiveSource. cbn [close_source source set_sources complete_source].
  by rewrite bool_decide_eq_true_2.
Qed.

Lemma handle_error_ok env i message code c h : chat_ok (c, h) →
  chat_ok (handleError (stream_callbacks t env) i message code (c, h)).
Proof.
  intros Hok. unfold handleError. cbn [fst snd]. destruct (listening i c) as [s|] eqn:Hl; [|done].
  destruct (source_of_listening _ _ _ _ Hok Hl) as (Hr & Hs & Hi & Hc). cbn [onError stream_callbacks].
  destruct (handleStreamError t env (s_request s) message code h) as [e x] eqn:He.
  destruct (stream_error_ok t env _ _ _ _ _ _ (ck_handler _ Hok) He) as (Hx & Hsame & Hb). specialize (Hb Hr).
  pose proof (complete_ok i c (ck_controller _ Hok)) as Hcc. destruct e as [e|].
  - destruct Hok. cbn [fst snd] in *. pose proof Hsame as (Hg & _). split; cbn [fst snd]; try done.
    + cbn. intros j s' Hj. assert (j = i) as -> by congruence. rewrite list_lookup_alter_eq, Hi. cbn.
      intros [= <-]. cbn. congruence.
    + cbn. rewrite Hg. exact wait_linked0.
    + by rewrite Hb.
  - destruct (closed_active i c Hs) as (H1 & H2 & H3).
    eapply chat_ok_closed; [exact Hok|done..| |done|done|done]. apply close_active_ok; [done|exact Hs].
Qed.

Lemma message_ok env i data c h : chat_ok (c, h) → chat_ok (on_message (stream_callbacks t env) i data (c, h)).
Proof.
  intros Hok. unfold on_message. cbn [fst snd]. destruct (listening i c) as [s|] eqn:Hl; [|done].
  destruct (source_of_listening _ _ _ _ Hok Hl) as (Hr & Hs & Hi & Hc).
  destruct (isStreamDoneMessage data).
  - destruct (closed_active i c Hs) as (H1 & H2 & H3). cbn [onComplete stream_callbacks].
    destruct (complete_stream_ok env (s_request s) h (ck_handler _ Hok)) as (Hx & Hsame & Hb).
    eapply chat_ok_closed; [exact Hok|done|done|by apply Hb| |done|done|done].
    apply close_active_ok; [apply complete_ok, Hok|exact Hs].
  - destruct (parseStreamMessageUpdates data) as [us|]; [|by apply handle_error_ok].
    destruct (run_updates _ _ _ _) as [e x] eqn:Hu.
    destruct (run_updates_ok t env _ _ _ _ _ (ck_handler _ Hok) Hu) as [Hx [Hsame Hb]].
    assert (chat_ok (c, x)) as Hcx by (eapply chat_ok_handler; [exact Hok|done|done|by rewrite Hb]).
    destruct e; [by apply handle_error_ok|done].
Qed.


Lemma take_request_Some i h r h1 : take_request i h = Some (r, h1) →
  requests h !! i = Some r ∧ req_settled r = false ∧
  h1 = set_requests (abortController h) (alter settle_request i (requests h)) h.
Proof.
  unfold take_request. destruct (requests h !! i) as [x|]; [|done]. cbn. destruct (req_settled x) eqn:E; [done|].
  by intros [= <- <-].
Qed.

Lemma settled_request i (l : list PendingRequest) j x : alter settle_request i l !! j = Some x →
  ∃ x0, l !! j = Some x0 ∧ req_generation x = req_generation x0 ∧ aborted x = aborted x0 ∧
    (i = j → req_settled x = true) ∧ (i ≠ j → x = x0).
Proof.
  destruct (decide (i = j)) as [->|Hne].
  - rewrite list_lookup_alter_eq. destruct (l !! j) as [x0|]; [|done]. intros [= <-]. by exists x0.
  - rewrite list_lookup_alter_ne by done. intros H. by exists x.
Qed.

(** A request that has settled, before its [finally]. *)
Lemma take_request_ok i h r h1 : handler_ok h → take_request i h = Some (r, h1) → handler_ok h1.
Proof.
  intros [] (Hi & Hu & ->)%take_request_Some. split; cbn; try done.
  - intros j x (x0 & H0 & -> & _)%settled_request. by eapply requests_past0.
  - intros j x (x0 & H0 & _ & -> & Hset & Heq)%settled_request.
    destruct (decide (i = j)) as [->|Hne]; [auto|]. rewrite (Heq Hne). by eapply requests_owned0.
  - intros j x (x0 & H0 & -> & _ & Hset & Heq)%settled_request Hgen.
    destruct (decide (i = j)) as [->|Hne]; [auto|]. rewrite (Heq Hne). by eapply current_owned0.
  - intros j x Hj (x0 & H0 & -> & _)%settled_request. by eapply owner_current0.
Qed.

Lemma request_done_ok i c h r h1 h2 : chat_ok (c, h) → take_request i h = Some (r, h1) →
  handler_ok h2 → same_requests h1 h2 → (isRequesting h2 = true → isRequesting h1 = true) →
  chat_ok (c, request_finally (req_generation r) h2).
Proof.
  intros Hok Ht H2 (Hg & Ha & Hq) Hb. pose proof (take_request_Some _ _ _ _ Ht) as (Hi & Hu & ->).
  cbn in Hg, Ha, Hq, Hb. pose proof (ck_handler _ Hok) as Hh. cbn [snd] in Hh. unfold request_finally.
  destruct (requestGeneration h2 =? req_generation r) eqn:Hgen.
  - apply Nat.eqb_eq in Hgen. rewrite Hg in Hgen.
    destruct (current_owned _ Hh _ _ Hi (eq_sym Hgen)) as [?|Hown]; [congruence|].
    assert (∀ j x, requests h2 !! j = Some x → req_settled x = true ∨ (j ≠ i ∧ requests h !! j = Some x)) as Hothers.
    { rewrite Hq. intros j x (x0 & H0 & _ & _ & Hset & Heq)%settled_request.
      destruct (decide (i = j)) as [->|Hne]; [auto|]. rewrite (Heq Hne). auto. }
    destruct H2, Hok. cbn [fst snd] in *. split; cbn [fst snd]; try done.
    + split; cbn; try done.
      * intros j x Hx. destruct (Hothers _ _ Hx) as [?|[Hne Hj]]; [auto|].
        destruct (requests_owned _ Hh _ _ Hj) as [?|[?|?]]; [auto..|congruence].
      * intros j x Hx Hgx. destruct (Hothers _ _ Hx) as [?|[Hne Hj]]; [auto|].
        destruct (current_owned _ Hh _ _ Hj); [congruence|auto|congruence].
    + cbn. by rewrite Hg.
    + cbn. by rewrite Hg.
  - apply Nat.eqb_neq in Hgen. destruct Hok. cbn [fst snd] in *. split; cbn [fst snd]; try done.
    + by rewrite Hg.
    + by rewrite Hg.
    + intros H. destruct (busy0 (Hb H)) as [?|[?|(j & x & Hj & Hx & Hux)]]; [by left|by right; left|].
      right; right. exists j. cbn [snd] in *. destruct (decide (i = j)) as [->|Hne].
      * pose proof (owner_current _ Hh _ _ Hj Hi). congruence.
      * exists x. rewrite Ha, Hq, list_lookup_alter_ne by done. done.
Qed.

Lemma request_resolves_ok env i choices c h : chat_ok (c, h) → chat_ok (c, request_resolves t env i choices h).
Proof.
  intros Hok. unfold request_resolves. destruct (take_request i h) as [[r h1]|] eqn:Ht; [|done].
  pose proof (take_request_ok _ _ _ _ (ck_handler _ Hok) Ht) as H1. cbn zeta.
  destruct (_ || _); [by eapply request_done_ok|]. destruct (negb _).
  - destruct (handleStreamError _ _ _ _ _ _) as [e h2] eqn:He.
    destruct (stream_error_ok _ _ _ _ _ _ _ _ H1 He) as (H2 & Hs & Hb).
    eapply request_done_ok; [done..|]. cbn. intros Hq.
    destruct (decide (req_generation r = requestGeneration h1)) as [E|E]; [by rewrite Hb in Hq|].
    unfold handleStreamError in He. rewrite (proj2 (Nat.eqb_neq _ _) E) in He. by injection He as <- <-.
  - destruct (update_same env (UResponse (req_generation r) choices) h1) as ([Hs Hb] & _).
    eapply request_done_ok; [done..|by apply update_ok|done|by rewrite Hb].
Qed.

Lemma request_rejects_ok env i error c h : chat_ok (c, h) → chat_ok (c, request_rejects t env i error h).
Proof.
  intros Hok. unfold request_rejects. destruct (take_request i h) as [[r h1]|] eqn:Ht; [|done].
  pose proof (take_request_ok _ _ _ _ (ck_handler _ Hok) Ht) as H1. cbn zeta.
  destruct (_ || _); [by eapply request_done_ok|].
  destruct (handleStreamError _ _ _ _ _ _) as [e h2] eqn:He.
  destruct (stream_error_ok _ _ _ _ _ _ _ _ H1 He) as (H2 & Hs & Hb).
  eapply request_done_ok; [done..|]. cbn. intros Hq.
  destruct (decide (req_generation r = requestGeneration h1)) as [E|E]; [by rewrite Hb in Hq|].
  unfold handleStreamError in He. rewrite (proj2 (Nat.eqb_neq _ _) E) in He. by injection He as <- <-.
Qed.

Lemma headers_ready_chat i c h : chat_ok (c, h) → chat_ok (headers_ready i c, h).
Proof.
  intros Hok.
  assert (controller_ok (headers_ready i c)) as Hc.
  { apply headers_ready_ok; [apply Hok|]. intros j w Hw Hu Hg. by apply (wait_linked _ Hok j w). }
  revert Hc. unfold headers_ready. destruct (take_wait i c) as [[w c']|] eqn:Ht; [|done].
  apply take_wait_Some in Ht as (Hw & Hu & ->). cbn [generation set_waits].
  destruct (generation c =? w_generation w) eqn:Hg; cbn [negb]; intros Hc.
  - apply Nat.eqb_eq in Hg. destruct (wait_linked _ Hok _ _ Hw Hu (eq_sym Hg)) as [Hr Hs].
    split; cbn [fst snd]; [done|apply Hok| | |].
    + cbn. intros j s [= <-]. rewrite lookup_app_r, Nat.sub_diag by lia. cbn. by intros [= <-].
    + cbn. intros j x (x0 & H0 & -> & -> & Heq)%settled_wait Hux. destruct (Heq Hux) as [-> Hne]. intros Hgx.
      pose proof (wait_last _ (ck_controller _ Hok) _ _ H0 Hgx).
      pose proof (wait_last _ (ck_controller _ Hok) _ _ Hw (eq_sym Hg)). lia.
    + intros _. right; left. exists (length (eventSources c)). eexists. split; [done|]. cbn [fst eventSources set_source set_sources set_waits].
      rewrite lookup_app_r, Nat.sub_diag by lia. done.
  - apply Nat.eqb_neq in Hg. destruct Hok. cbn [fst snd] in *. split; cbn [fst snd]; try done.
    + cbn. intros j x (x0 & H0 & -> & -> & Heq)%settled_wait Hux. destruct (Heq Hux) as [-> Hne]. by eapply wait_linked0.
    + intros H. destruct (busy0 H) as [(j & x & Hx & Hux & Hgx)|[?|?]]; [|by right; left|by right; right].
      left. exists j, x. cbn in *. rewrite list_lookup_alter_ne; [done|]. intros ->. congruence.
Qed.

Lemma headers_failed_ok env i error c h : chat_ok (c, h) →
  chat_ok (headers_failed (stream_callbacks t env) i error (c, h)).
Proof.
  intros Hok. unfold headers_failed. cbn [fst snd]. destruct (take_wait i c) as [[w c']|] eqn:Ht; [|done].
  apply take_wait_Some in Ht as (Hw & Hu & ->). cbn [generation set_waits].
  pose proof (settle_ok i c (ck_controller _ Hok)) as Hc. cbn [fst] in Hc.
  assert (∀ h', handler_ok h' → same_requests h h' → (w_generation w = generation c → isRequesting h' = false) →
    (isRequesting h' = true → isRequesting h = true) → chat_ok (set_waits (alter settle_wait i (waits c)) c, h')) as Hnext.
  { intros h' Hh' (Hg & Ha & Hq) Hcur Hb. destruct Hok. cbn [fst snd] in *. split; cbn [fst snd]; try done.
    - rewrite Hg. exact source_linked0.
    - cbn. intros j x (x0 & H0 & -> & -> & Heq)%settled_wait Hux. destruct (Heq Hux) as [-> Hne]. rewrite Hg.
      by eapply wait_linked0.
    - intros H. destruct (busy0 (Hb H)) as [(j & x & Hx & Hux & Hgx)|[?|(j & x & ? & ? & ?)]]; [|by right; left|].
      + left. exists j, x. cbn in *. rewrite list_lookup_alter_ne; [done|]. intros ->.
        assert (x = w) as -> by congruence. rewrite (Hcur Hgx) in H. done.
      + right; right. exists j, x. cbn. by rewrite Ha, Hq. }
  destruct (generation c =? w_generation w) eqn:Hg; cbn [negb].
  - apply Nat.eqb_eq in Hg. destruct (wait_linked _ Hok _ _ Hw Hu (eq_sym Hg)) as [Hr Hs]. cbn [onError stream_callbacks].
    destruct (handleStreamError _ _ _ _ _ _) as [e h2] eqn:He.
    destruct (stream_error_ok _ _ _ _ _ _ _ _ (ck_handler _ Hok) He) as (H2 & Hsame & Hb).
    apply Hnext; [done|done|by intros _; apply Hb|]. cbn. by rewrite (Hb Hr).
  - apply Nat.eqb_neq in Hg. apply Hnext; [apply Hok|done|congruence|done].
Qed.

(** The live timer flushes; no other timer does anything. *)
Lemma timer_flush env id h : handler_ok h →
  timer_fires env id h = if existsb (λ x, x.1 =? id) (timers h) then flushStreamUpdates env (requestGeneration h) h else h.
Proof.
  intros Hh. unfold timer_fires. pose proof (timer_live _ Hh) as Ht. rewrite Ht.
  destruct (streamFlushTimer h) as [j|] eqn:Hj; [|done]. cbn [list_find existsb fst]. rewrite orb_false_r.
  destruct (decide (j = id)) as [->|Hne]; [|by rewrite (proj2 (Nat.eqb_neq _ _) Hne)].
  cbn [List.filter fst]. rewrite Nat.eqb_refl. cbn [negb].
  (* the callback clears the reference as if the timer were still live *)
  unfold flushStreamUpdates. cbn [requestGeneration set_timer]. rewrite Nat.eqb_refl. cbn [negb].
  assert (clear_timer (set_timer (Some id) [] (next_timer h) h) = clear_timer h) as ->; [|done].
  unfold clear_timer. cbn. rewrite Hj, Ht. cbn. by rewrite Nat.eqb_refl.
Qed.

Lemma timer_ok env id h : handler_ok h → handler_ok (timer_fires env id h) ∧ same_run h (timer_fires env id h).
Proof. intros Hh. rewrite timer_flush by done. destruct (existsb _ _); [by apply flush_ok|done]. Qed.

Lemma render_ok now h : handler_ok h → handler_ok (render now h) ∧ same_run h (render now h).
Proof. intros H. split; [by apply messages_ok|done]. Qed.

Lemma chat_step_ok env e st : chat_ok st → chat_ok (step t env e st).
Proof.
  destruct st as [c h]. intros Hok. destruct e; cbn [step fst snd].
  - by apply send_chat_ok, chat_ok_update.
  - unfold handleRegenerateMessage. destruct (createRegeneratedMessages _ _ _ _ _); [by apply send_chat_ok, chat_ok_update|done].
  - unfold applyEdit. destruct (applyMessageEdit _ _ _ _ _ _ _) as [[edited b]|]; [|done].
    destruct b; [by apply send_chat_ok, chat_ok_update|by apply chat_ok_update].
  - by apply chat_ok_update.
  - by apply chat_ok_update.
  - by apply stop_ok.
  - by apply headers_ready_chat.
  - by apply headers_failed_ok.
  - by apply handle_error_ok.
  - by apply message_ok.
  - unfold on_error. cbn [fst]. destruct (listening i c); [|done].
    destruct (isStreamClosedReadyState _); [done|by apply handle_error_ok].
  - unfold on_readystatechange. cbn [fst]. destruct (listening i c); [|done].
    destruct (getStreamReadyStateError _ _); [by apply handle_error_ok|done].
  - destruct (timer_ok env id h (ck_handler _ Hok)) as [H1 [H2 Hb]]. eapply chat_ok_handler; [done..|by rewrite Hb].
  - by apply request_resolves_ok.
  - by apply request_rejects_ok.
  - destruct (render_ok (now env) h (ck_handler _ Hok)) as [H1 [H2 Hb]]. eapply chat_ok_handler; [done..|by rewrite Hb].
Qed.

Lemma chat_ok_initial stored : chat_ok (initial_chat stored).
Proof. by split. Qed.

Lemma chat_reachable stored st : reachable t stored st → chat_ok st.
Proof. induction 1; [apply chat_ok_initial|by apply chat_step_ok]. Qed.
End Events.
