(* ===== verification/ChatReplyFacts.v ===== *)
(** * A streamed reply, event by event

    The chunks that have arrived are those shown once the queued updaters have
    run, followed by the pending ones; every event of the stream keeps it so,
    and the end of the stream finishes the answer. *)

From S2P Require Import Prelude JsNumber JsText Types Runtime JsRegex JsValue ChatMessage ChatStream ChatHandler.
From S2P Require Import ChatMessageFacts ChatFacts.

(** ** What the list will be once every queued updater has run *)

Definition virtual (now : num) (h : Handler) : list Message := run_all now (requestGeneration h) (updates h) (messages h).
Definition shown (P : list Message → Prop) (h : Handler) : Prop := ∀ now, P (virtual now h).

Lemma run_all_app now g us vs l : run_all now g (us ++ vs) l = run_all now g vs (run_all now g us l).
Proof. apply foldl_app. Qed.

Lemma shown_update (P Q : list Message → Prop) env u h :
  shown P h → (∀ now l, P l → Q (run_update now (requestGeneration h) u l)) → shown Q (onMessageUpdate env u h).
Proof.
  intros HP HQ now. specialize (HP now). unfold virtual, onMessageUpdate in *.
  destruct (updates h) as [|v us] eqn:Hu; [destruct (eager env)|];
    cbn [set_messages requestGeneration updates messages].
  - apply HQ. exact HP.
  - cbn. apply HQ. exact HP.
  - rewrite run_all_app. cbn [run_all foldl]. apply HQ. exact HP.
Qed.

Lemma shown_render P now h : shown P h → shown P (render now h) ∧ P (rendered (render now h)).
Proof. intros H. split; [intros now'|]; apply (H now). Qed.

(** A list that ends in an answer of some kind. *)
Definition ends_in (history : list Message) (P : Message → Prop) (l : list Message) : Prop :=
  ∃ m, l = history ++ [m] ∧ isAssistant m = true ∧ P m.

Lemma update_last history m f : isAssistant m = true →
  updateLastAssistantMessage (history ++ [m]) f = history ++ [f m].
Proof. intros H. unfold updateLastAssistantMessage. by rewrite last_snoc, H, removelast_last. Qed.

(** ** Chunks *)

(** No run of chunks repeats, at its start, the whole run before it: a chunk
    never starts with the chunks since some earlier point, nor a run with all
    the text before it. *)
Definition fresh_chunks (ds : list jsstring) : Prop :=
  ∀ a b c d, ds = a ++ b ++ c ++ d → b ≠ [] → c ≠ [] → a = [] ∨ length c = 1 → starts_with (mjoin b) (mjoin c) = false.
Definition nonempty_chunks (ds : list jsstring) : Prop := Forall (λ d, d ≠ []) ds.

Lemma fresh_prefix a b : fresh_chunks (a ++ b) → fresh_chunks a.
Proof. intros H x y z d ->. apply (H x y z (d ++ b)). by rewrite <- !app_assoc. Qed.

Lemma mjoin_nil ds : nonempty_chunks ds → mjoin ds = [] → ds = [].
Proof. destruct ds as [|d ds]; [done|]. intros [Hd _]%Forall_cons. rewrite mjoin_cons. by intros [-> _]%app_nil. Qed.
Lemma mjoin_app (a b : list jsstring) : mjoin (a ++ b) = mjoin a ++ mjoin b.
Proof. apply join_app. Qed.
Lemma mjoin_one (d : jsstring) : mjoin [d] = d.
Proof. cbn. apply app_nil_r. Qed.

Lemma str_eqb_nil s : (s =s []) = true ↔ s = [].
Proof. unfold str_eqb. apply bool_decide_eq_true. Qed.
Lemma str_eqb_nonnil s : s ≠ [] → (s =s []) = false.
Proof. intros H. apply not_true_is_false. by rewrite str_eqb_nil. Qed.

(** Under the flush's comparison a fresh run is appended as it is. *)
Lemma appendable_fresh a b c : fresh_chunks (a ++ b ++ c) → a = [] → getAppendableChunk (mjoin b) (mjoin c) = mjoin c.
Proof.
  intros Hf ->. unfold getAppendableChunk. destruct b as [|x b]; [done|]. destruct c as [|y c].
  - destruct (_ || _); [done|]. cbn. by rewrite drop_nil.
  - rewrite (Hf [] (x :: b) (y :: c) []); [|cbn; by rewrite app_nil_r|done..|by left].
    by rewrite orb_true_r.
Qed.

(** The thought an answer shows: the reasoning chunks when the text has no
    tag, the tagged reasoning when there are no reasoning chunks. *)
Definition thought_of (rs cs : list jsstring) (thought : jsstring) : Prop :=
  (free_of open_tag (mjoin cs) → thought = mjoin rs) ∧
  (rs = [] → ∃ stale, thought = or_text (think_reasoning (parseThinkTags (mjoin cs))) stale).

Definition streaming_message (rs cs : list jsstring) (m : Message) : Prop :=
  isAssistantMessageFinal m = false ∧ reply_text (reply_of m) = mjoin cs ∧ thought_of rs cs (reply_thought (reply_of m)).

Lemma free_of_app word a b : free_of word (a ++ b) → free_of word a.
Proof.
  unfold free_of. intros H. apply not_true_is_false. intros Ha. by rewrite (includes_app_l _ _ b Ha) in H.
Qed.

Lemma not_final m : isAssistantMessageFinal m = false ↔ status m ≠ Some status_complete ∧ status m ≠ Some status_error.
Proof. unfold isAssistantMessageFinal. rewrite orb_false_iff, !bool_decide_eq_false. done. Qed.

Lemma assistant_from m m' : from m' = from m → isAssistant m' = isAssistant m.
Proof. unfold isAssistant. by intros ->. Qed.

Lemma flush_content now rs cs1 cs2 m : streaming_message rs cs1 m → fresh_chunks (cs1 ++ cs2) → cs2 ≠ [] →
  streaming_message rs (cs1 ++ cs2) (applyStreamingChunk now m chunk_content (mjoin cs2)).
Proof.
  intros ([_ Hne]%not_final & Ht & Hth1 & Hth2) Hf Hcs.
  destruct (reply_chunk_content now m (mjoin cs2) Hne) as [Hr _].
  rewrite Ht, (appendable_fresh [] cs1 cs2 Hf eq_refl) in Hr. unfold add_content in Hr. rewrite Ht, <- mjoin_app in Hr.
  split; [|split; [by rewrite Hr|]].
  - apply not_final. change (status ?x) with (reply_status (reply_of x)). by rewrite Hr.
  - rewrite Hr. cbn [reply_thought]. split.
    + intros Hfree. rewrite (parse_free _ Hfree). cbn. apply Hth1. rewrite mjoin_app in Hfree. by apply free_of_app in Hfree.
    + intros _. by eexists.
Qed.

Lemma flush_reasoning now rs1 rs2 cs m : streaming_message rs1 cs m → fresh_chunks (rs1 ++ rs2) → rs2 ≠ [] →
  streaming_message (rs1 ++ rs2) cs (applyStreamingChunk now m chunk_reasoning (mjoin rs2)).
Proof.
  intros ([_ Hne]%not_final & Ht & Hth1 & Hth2) Hf Hrs.
  destruct (reply_chunk_reasoning now m (mjoin rs2) Hne) as [Hr _].
  split; [|split; [by rewrite Hr|]].
  - apply not_final. change (status ?x) with (reply_status (reply_of x)). by rewrite Hr.
  - rewrite Hr. cbn [reply_thought add_reasoning]. split.
    + intros Hfree. rewrite (Hth1 Hfree), (appendable_fresh [] rs1 rs2 Hf eq_refl). by rewrite mjoin_app.
    + intros [_ ->]%app_nil. done.
Qed.

Lemma flush_from now reasoning content m : status m ≠ Some status_error →
  isAssistant (flush_message now reasoning content m) = isAssistant m.
Proof.
  intros Hs. unfold flush_message. destruct (reasoning =s []).
  - destruct (content =s []); [done|]. apply assistant_from. by destruct (reply_chunk_content now m content Hs).
  - destruct (reply_chunk_reasoning now m reasoning Hs) as [Hr Hfr].
    destruct (content =s []); [by apply assistant_from|]. apply assistant_from.
    set (m1 := applyStreamingChunk now m chunk_reasoning reasoning) in *.
    assert (status m1 ≠ Some status_error) as Hs1.
    { change (status m1) with (reply_status (reply_of m1)). by rewrite Hr. }
    destruct (reply_chunk_content now m1 content Hs1) as [_ ->]. exact Hfr.
Qed.

Lemma flush_streaming now rs1 rs2 cs1 cs2 m : streaming_message rs1 cs1 m →
  fresh_chunks (rs1 ++ rs2) → fresh_chunks (cs1 ++ cs2) → nonempty_chunks rs2 → nonempty_chunks cs2 →
  streaming_message (rs1 ++ rs2) (cs1 ++ cs2) (flush_message now (mjoin rs2) (mjoin cs2) m).
Proof.
  intros Hm Hfr Hfc Hnr Hnc. unfold flush_message.
  assert (streaming_message (rs1 ++ rs2) cs1
    (if mjoin rs2 =s [] then m else applyStreamingChunk now m chunk_reasoning (mjoin rs2))) as H1.
  { destruct (mjoin rs2 =s []) eqn:E.
    - apply str_eqb_nil, mjoin_nil in E as ->; [|done]. by rewrite app_nil_r.
    - apply flush_reasoning; [done..|]. intros ->. by rewrite (proj2 (str_eqb_nil _)) in E. }
  destruct (mjoin cs2 =s []) eqn:E.
  - apply str_eqb_nil, mjoin_nil in E as ->; [|done]. by rewrite app_nil_r.
  - apply flush_content; [done..|]. intros ->. by rewrite (proj2 (str_eqb_nil _)) in E.
Qed.

(** ** The handler while a reply streams *)

Definition no_request_of (g : nat) (h : Handler) : Prop :=
  ∀ j r, requests h !! j = Some r → req_generation r ≠ g.

(** The chunks so far are those shown once the updaters have run, followed by
    the pending ones. *)
Definition live (g : nat) (history : list Message) (rs cs : list jsstring) (h : Handler) : Prop :=
  requestGeneration h = g ∧ no_request_of g h ∧
  ∃ rs1 rs2 cs1 cs2, rs = rs1 ++ rs2 ∧ cs = cs1 ++ cs2 ∧
    pendingStreamChunks h = mkPending g (mjoin cs2) (mjoin rs2) ∧
    shown (ends_in history (streaming_message rs1 cs1)) h.

(** The reply is over. *)
Definition settled (g : nat) (history : list Message) (r : Reply) (h : Handler) : Prop :=
  requestGeneration h = g ∧ no_request_of g h ∧ pendingStreamChunks h = mkPending g [] [] ∧
  shown (ends_in history (λ m, reply_of m = r)) h.

Lemma shown_set P h h' : requestGeneration h' = requestGeneration h → updates h' = updates h → messages h' = messages h →
  shown P h → shown P h'.
Proof. intros Hg Hu Hm H now. unfold virtual. rewrite Hg, Hu, Hm. apply H. Qed.

Lemma clear_timer_shown P h : shown P h → shown P (clear_timer h).
Proof. apply shown_set; unfold clear_timer; by destruct (streamFlushTimer h). Qed.

Lemma fresh_last (ds : list jsstring) a b d e : fresh_chunks ds → ds = (a ++ b ++ [d]) ++ e → b ≠ [] →
  starts_with (mjoin b) d = false.
Proof.
  intros Hf Hd Hb. rewrite <- (mjoin_one d). apply (Hf a b [d] e); [by rewrite Hd, <- !app_assoc|done|done|by right].
Qed.

(** A merge appends the chunk. *)
Lemma merge_fresh (ds a b e : list jsstring) d : fresh_chunks ds → nonempty_chunks ds → ds = (a ++ b ++ [d]) ++ e →
  mergePendingStreamChunk (mjoin b) (VString d) = Ok (mjoin (b ++ [d])).
Proof.
  intros Hf Hn Hd. unfold mergePendingStreamChunk. rewrite mjoin_app, mjoin_one.
  destruct (mjoin b =s []) eqn:E.
  - apply str_eqb_nil in E. by rewrite E.
  - rewrite (fresh_last ds a b d e); [done..|]. intros ->. by rewrite (proj2 (str_eqb_nil _)) in E.
Qed.

Definition chunk_of (type : StreamChunkType) (d : jsstring) (want : StreamChunkType) : list jsstring :=
  match type, want with
  | chunk_reasoning, chunk_reasoning | chunk_content, chunk_content => [d]
  | _, _ => []
  end.

Section Chunks.
#[local] Set Default Proof Using "All".
Context (rs cs : list jsstring).
Context (fresh_rs : fresh_chunks rs) (fresh_cs : fresh_chunks cs).
Context (nonempty_rs : nonempty_chunks rs) (nonempty_cs : nonempty_chunks cs).
Context (g : nat) (history : list Message).

(** A flush shows everything that has arrived. *)
Lemma flush_live env h rs' cs' rs'' cs'' : rs = rs' ++ rs'' → cs = cs' ++ cs'' → handler_ok h →
  live g history rs' cs' h →
  let h' := flushStreamUpdates env g h in
  live g history rs' cs' h' ∧ pendingStreamChunks h' = mkPending g [] [] ∧
  shown (ends_in history (streaming_message rs' cs')) h'.
Proof.
  intros Hrs Hcs Hok (Hg & Hn & rs1 & rs2 & cs1 & cs2 & Er & Ec & Hp & Hs). cbn zeta.
  assert (nonempty_chunks rs2 ∧ nonempty_chunks cs2) as [Hnr Hnc].
  { rewrite Hrs, Er in nonempty_rs. rewrite Hcs, Ec in nonempty_cs.
    apply Forall_app in nonempty_rs as [[_ ?]%Forall_app _]. by apply Forall_app in nonempty_cs as [[_ ?]%Forall_app _]. }
  destruct (flush_spec env g h Hok (eq_sym Hg)) as (_ & [(Hg' & _ & Hq') _] & _ & Hp').
  assert (shown (ends_in history (streaming_message rs' cs')) (flushStreamUpdates env g h)) as Hshown.
  { unfold flushStreamUpdates. rewrite <- Hg, Nat.eqb_refl. cbn [negb].
    destruct (clear_timer_frame h) as [[(Hgc & _) _] ->]. rewrite Hp. cbn [p_generation p_reasoning p_content].
    rewrite <- Hg, Nat.eqb_refl. cbn [negb]. destruct (_ && _) eqn:E.
    - apply andb_prop in E as [E1%str_eqb_nil E2%str_eqb_nil]. apply (mjoin_nil _ Hnr) in E1 as ->. apply (mjoin_nil _ Hnc) in E2 as ->.
      rewrite app_nil_r in Er, Ec. subst rs' cs'. by apply clear_timer_shown.
    - eapply shown_update.
      + eapply (shown_set _ h); [exact Hgc| | |exact Hs]; cbn; unfold clear_timer; by destruct (streamFlushTimer h).
      + cbn [requestGeneration set_pending]. rewrite Hgc. intros now l (m & -> & Ha & Hm). cbn [run_update].
        rewrite Nat.eqb_refl, update_last by done. eexists. split; [done|]. split.
        * rewrite flush_from; [done|]. by destruct Hm as [[_ ?]%not_final _].
        * rewrite Er, Ec. apply flush_streaming; [done| | |done|done].
          -- rewrite <- Er. rewrite Hrs in fresh_rs. by apply fresh_prefix in fresh_rs.
          -- rewrite <- Ec. rewrite Hcs in fresh_cs. by apply fresh_prefix in fresh_cs. }
  split; [|done]. split; [by rewrite Hg'|]. split; [intros j r; rewrite Hq'; apply Hn|].
  exists rs', [], cs', []. rewrite !app_nil_r. done.
Qed.

Lemma chunk_live type d h rs' cs' rs'' cs'' :
  rs = (rs' ++ chunk_of type d chunk_reasoning) ++ rs'' → cs = (cs' ++ chunk_of type d chunk_content) ++ cs'' →
  handler_ok h → live g history rs' cs' h →
  ∃ h', handleStreamUpdate g type (VString d) h = (None, h') ∧ handler_ok h' ∧
    live g history (rs' ++ chunk_of type d chunk_reasoning) (cs' ++ chunk_of type d chunk_content) h'.
Proof.
  intros Hrs Hcs Hok (Hg & Hn & rs1 & rs2 & cs1 & cs2 & Er & Ec & Hp & Hs). subst rs' cs'.
  destruct (handleStreamUpdate g type (VString d) h) as [o h'] eqn:Hu. destruct (chunk_ok _ _ _ _ _ _ Hok Hu) as [Hok' _].
  assert ((g =? requestGeneration h) = true) as Heq by by apply Nat.eqb_eq.
  revert Hu. unfold handleStreamUpdate. rewrite Heq, Hp. cbn [negb p_generation]. rewrite Nat.eqb_refl. cbn [negb].
  assert (mergePendingStreamChunk (pending_chunk type (mkPending g (mjoin cs2) (mjoin rs2))) (VString d) =
    Ok (mjoin (match type with chunk_content => cs2 ++ [d] | chunk_reasoning => rs2 ++ [d] end))) as ->.
  { destruct type; cbn [pending_chunk p_content p_reasoning chunk_of] in *.
    - apply (merge_fresh rs rs1 rs2 rs''); [done..|]. by rewrite Hrs, <- !app_assoc.
    - apply (merge_fresh cs cs1 cs2 cs''); [done..|]. by rewrite Hcs, <- !app_assoc. }
  intros [= <- <-]. eexists. split; [done|]. split; [done|].
  unfold scheduleStreamFlush. cbn [requestGeneration set_pending]. rewrite Heq. cbn [negb].
  assert (∀ h1, requestGeneration h1 = requestGeneration h → requests h1 = requests h → updates h1 = updates h →
    messages h1 = messages h →
    pendingStreamChunks h1 = put_chunk type (mjoin (match type with chunk_content => cs2 ++ [d] | chunk_reasoning => rs2 ++ [d] end))
      (mkPending g (mjoin cs2) (mjoin rs2)) →
    live g history ((rs1 ++ rs2) ++ chunk_of type d chunk_reasoning) ((cs1 ++ cs2) ++ chunk_of type d chunk_content) h1) as Hlive.
  { intros h1 E1 E2 E3 E4 E5. split; [by rewrite E1|]. split; [intros j r; rewrite E2; apply Hn|].
    exists rs1, (rs2 ++ chunk_of type d chunk_reasoning), cs1, (cs2 ++ chunk_of type d chunk_content).
    rewrite <- !app_assoc. split_and!; [done|done| |by eapply shown_set].
    rewrite E5. destruct type; cbn; by rewrite ?app_nil_r. }
  destruct (streamFlushTimer _); by apply Hlive.
Qed.
End Chunks.

(** ** The events of one streamed reply *)

(** The texts of a message event, by kind. *)
Definition text_chunk (u : StreamChunkType * jsval) : Prop := ∃ d, u.2 = VString d ∧ d ≠ [].
Definition chunk_texts (want : StreamChunkType) (us : list (StreamChunkType * jsval)) : list jsstring :=
  mjoin (map (λ u, match u.2 with VString d => chunk_of u.1 d want | _ => [] end) us).
Definition event_texts (i : nat) (want : StreamChunkType) (e : Event) : list jsstring :=
  match e with
  | SourceMessage j data =>
      if j =? i then match parseStreamMessageUpdates data with Ok us => chunk_texts want us | Err _ => [] end else []
  | _ => []
  end.
Definition texts (i : nat) (want : StreamChunkType) (es : list (Env * Event)) : list jsstring :=
  mjoin (map (λ e, event_texts i want e.2) es).

(** Timers, renders, and whatever other requests are still to report: nothing
    the user does, nothing of the source [i] or of its wait [w]. *)
Definition quiet (w i : nat) (e : Event) : Prop :=
  match e with
  | TimerFires _ | Render | RequestResolves _ _ | RequestRejects _ _ => True
  | HeadersReady v | HeadersFailed v _ => v ≠ w
  | SourceMessage j _ | SourceError j _ _ | SourceState j _ _ | StreamThrows j => j ≠ i
  | _ => False
  end.

(** A message of the source whose chunks are texts. *)
Definition carries_text (i : nat) (e : Event) : Prop :=
  match e with
  | SourceMessage j data => j = i ∧ ∃ us, parseStreamMessageUpdates data = Ok us ∧ Forall text_chunk us
  | _ => False
  end.
Definition done_event (i : nat) : Event := SourceMessage i STREAM_DONE_MESSAGE.

(** Where the controller is with the request [g]. *)
Inductive phase := Awaiting | Receiving | Over.
Definition in_phase (g w i : nat) (ph : phase) (c : Controller) : Prop :=
  (∀ v x, waits c !! v = Some x → v ≠ w → w_generation x ≠ generation c) ∧
  match ph with
  | Awaiting => source c = None ∧ length (eventSources c) = i ∧
      ∃ payload, waits c !! w = Some (mkWait (generation c) g payload false)
  | Receiving => source c = Some i ∧
      ∃ s, eventSources c !! i = Some s ∧ s_generation s = generation c ∧ s_request s = g ∧ completed s = false
  | Over => source c = None
  end.

(** What quiet events do to the handler. *)
Definition handler_closed (g : nat) (H : Handler → Prop) : Prop :=
  (∀ h, H h → requestGeneration h = g ∧ no_request_of g h) ∧
  (∀ env h, handler_ok h → H h → H (flushStreamUpdates env g h)) ∧
  (∀ now h, H h → H (render now h)) ∧
  (∀ h a rs, H h → (∀ j r, rs !! j = Some r → req_generation r ≠ g) → H (set_requests a rs h)).

Lemma other_wait c g w i ph v x c' : in_phase g w i ph c → v ≠ w → take_wait v c = Some (x, c') →
  (generation c =? w_generation x) = false ∧ in_phase g w i ph c' ∧ generation c' = generation c.
Proof.
  intros [Hw Hph] Hv (Hx & Hu & ->)%take_wait_Some. split.
  { apply Nat.eqb_neq. intros E. by apply (Hw v x). }
  split; [|done]. split; [cbn; intros v' x' (x0 & H0 & -> & _)%settled_wait; by apply Hw|].
  destruct ph; [|done..]. destruct Hph as (Hs & Hl & p & Hp). split_and!; [done..|].
  exists p. cbn. by rewrite list_lookup_alter_ne.
Qed.

Lemma phase_source g w i ph c j : in_phase g w i ph c → j ≠ i → source c ≠ Some j.
Proof. intros [_ Hph] Hj. destruct ph; [destruct Hph as [-> _]|destruct Hph as [-> _]|rewrite Hph]; congruence. Qed.

Section Quiet.
Context (t : jsstring → jsstring) (g w i : nat) (H : Handler → Prop) (closed : handler_closed g H).
#[local] Set Default Proof Using "All".

Definition session (ph : phase) (st : Chat) : Prop := chat_ok st ∧ in_phase g w i ph st.1 ∧ H st.2.

Lemma quiet_request h i' r h1 : H h → take_request i' h = Some (r, h1) →
  (aborted r || negb (requestGeneration h1 =? req_generation r)) = true ∧ H h1 ∧
  request_finally (req_generation r) h1 = h1.
Proof.
  intros Hh (Hr & Hu & ->)%take_request_Some. destruct closed as (Hg & _ & _ & Hq). destruct (Hg _ Hh) as [<- Hn].
  pose proof (Hn _ _ Hr) as Hne. unfold request_finally. cbn [requestGeneration set_requests].
  assert ((requestGeneration h =? req_generation r) = false) as -> by (apply Nat.eqb_neq; congruence).
  split; [apply orb_true_r|]. split; [|done]. apply Hq; [done|].
  intros j x (x0 & H0 & -> & _)%settled_request. by eapply Hn.
Qed.

Lemma quiet_step env e ph st : quiet w i e → session ph st → session ph (step t env e st).
Proof.
  intros He Hs. pose proof Hs as (Hok & Hc & Hh). split; [by apply chat_step_ok|].
  destruct st as [c h]. cbn [fst snd] in *. pose proof closed as (Hg & Hflush & Hrender & Hreq).
  destruct e; try done; cbn [quiet] in He; cbn [step fst snd].
  - unfold headers_ready. destruct (take_wait wait c) as [[x c']|] eqn:Ht; [|done].
    destruct (other_wait _ _ _ _ _ _ _ _ Hc He Ht) as (Hx & Hc' & Hgen). by rewrite Hgen, Hx.
  - unfold headers_failed. cbn [fst snd]. destruct (take_wait wait c) as [[x c']|] eqn:Ht; [|done].
    destruct (other_wait _ _ _ _ _ _ _ _ Hc He Ht) as (Hx & Hc' & Hgen). by rewrite Hgen, Hx.
  - unfold stream_throws, handleError. cbn [fst snd]. by rewrite not_listening by (by eapply phase_source).
  - unfold on_message. cbn [fst snd]. by rewrite not_listening by (by eapply phase_source).
  - unfold on_error. cbn [fst snd]. by rewrite not_listening by (by eapply phase_source).
  - unfold on_readystatechange. cbn [fst snd]. by rewrite not_listening by (by eapply phase_source).
  - split; [done|]. rewrite (timer_flush env id h (ck_handler _ Hok)). destruct (existsb _ _); [|done].
    rewrite (proj1 (Hg _ Hh)). by apply Hflush; [apply Hok|].
  - split; [done|]. unfold request_resolves. destruct (take_request i0 h) as [[r h1]|] eqn:Ht; [|done]. cbn zeta.
    destruct (quiet_request h i0 r h1 Hh Ht) as (-> & H1 & ->). done.
  - split; [done|]. unfold request_rejects. destruct (take_request i0 h) as [[r h1]|] eqn:Ht; [|done]. cbn zeta.
    destruct (quiet_request h i0 r h1 Hh Ht) as (-> & H1 & ->). done.
  - split; [done|]. by apply Hrender.
Qed.

Lemma quiet_events es : ∀ ph st, Forall (λ e, quiet w i e.2) es → session ph st → session ph (run_events t es st).
Proof.
  induction es as [|[env e] es IH]; intros ph st Hq Hs; [done|]. apply Forall_cons in Hq as [He Hq].
  cbn. apply IH; [done|]. by apply quiet_step.
Qed.
End Quiet.

Lemma settled_closed g history r : handler_closed g (settled g history r).
Proof.
  split_and!.
  - intros h (H1 & H2 & _). done.
  - intros env h Hok (H1 & H2 & H3 & H4).
    destruct (flush_spec env g h Hok (eq_sym H1)) as (_ & [(Hg & _ & Hq) _] & _ & Hp).
    split; [by rewrite Hg|]. split; [intros j x; rewrite Hq; apply H2|]. split; [done|].
    unfold flushStreamUpdates. rewrite <- H1, Nat.eqb_refl. cbn [negb].
    destruct (clear_timer_frame h) as [_ ->]. rewrite H3. cbn [p_generation p_reasoning p_content].
    rewrite <- H1, Nat.eqb_refl. cbn. by apply clear_timer_shown.
  - intros now h (H1 & H2 & H3 & H4). split_and!; [done..|]. by apply shown_render.
  - intros h a rs (H1 & H2 & H3 & H4) Hr. by split_and!.
Qed.

Section Reply.
Context (t : jsstring → jsstring) (rs cs : list jsstring).
Context (fresh_rs : fresh_chunks rs) (fresh_cs : fresh_chunks cs).
Context (nonempty_rs : nonempty_chunks rs) (nonempty_cs : nonempty_chunks cs).
Context (g w i : nat) (history : list Message).
#[local] Set Default Proof Using "All".

Lemma live_closed rs' cs' rs'' cs'' : rs = rs' ++ rs'' → cs = cs' ++ cs'' → handler_closed g (live g history rs' cs').
Proof.
  intros Hrs Hcs. split_and!.
  - intros h (H1 & H2 & _). done.
  - intros env h Hok H. by eapply (flush_live rs cs).
  - intros now h (H1 & H2 & rs1 & rs2 & cs1 & cs2 & Er & Ec & Hp & Hs).
    split_and!; [done..|]. exists rs1, rs2, cs1, cs2. split_and!; [done..|]. by apply shown_render.
  - intros h a q (H1 & H2 & H3) Hr. by split_and!.
Qed.

Lemma updates_live env us : ∀ h rs' cs' rs'' cs'', Forall text_chunk us →
  rs = (rs' ++ chunk_texts chunk_reasoning us) ++ rs'' → cs = (cs' ++ chunk_texts chunk_content us) ++ cs'' →
  handler_ok h → live g history rs' cs' h →
  ∃ h', run_updates (stream_callbacks t env) g us h = (None, h') ∧ handler_ok h' ∧
    live g history (rs' ++ chunk_texts chunk_reasoning us) (cs' ++ chunk_texts chunk_content us) h'.
Proof.
  induction us as [|[type chunk] us IH]; intros h rs' cs' rs'' cs'' Hus Hrs Hcs Hok Hl.
  { exists h. unfold chunk_texts. cbn. by rewrite !app_nil_r. }
  apply Forall_cons in Hus as [(d & Hd & Hne) Hus]. cbn [snd] in Hd. subst chunk.
  unfold chunk_texts in Hrs, Hcs |- *. cbn [map fst snd] in Hrs, Hcs |- *.
  change (mjoin (?x :: ?l)) with (x ++ mjoin l) in Hrs, Hcs |- *. fold (chunk_texts chunk_reasoning us) in Hrs |- *.
  fold (chunk_texts chunk_content us) in Hcs |- *. rewrite (app_assoc rs') in Hrs |- *.
  rewrite (app_assoc cs') in Hcs |- *.
  destruct (chunk_live rs cs fresh_rs fresh_cs nonempty_rs nonempty_cs g history type d h rs' cs'
    (chunk_texts chunk_reasoning us ++ rs'') (chunk_texts chunk_content us ++ cs'')) as (h1 & Hu & Hok1 & Hl1);
    [by rewrite Hrs, <- !app_assoc|by rewrite Hcs, <- !app_assoc|done|done|].
  cbn [run_updates onUpdate stream_callbacks]. rewrite Hu. by eapply IH.
Qed.

Lemma listening_phase c : in_phase g w i Receiving c → ∃ s, listening i c = Some s ∧ s_request s = g.
Proof.
  intros (_ & Hs & s & Hi & Hg & Hr & Hc). exists s. split; [|done]. unfold listening. rewrite Hi. cbn. unfold isCurrent.
  by rewrite Hg, Nat.eqb_refl, Hs, bool_decide_eq_true_2, Hc.
Qed.

Lemma text_not_done data us : parseStreamMessageUpdates data = Ok us → isStreamDoneMessage data = false.
Proof.
  intros H. apply not_true_is_false. unfold isStreamDoneMessage, str_eqb. intros ->%bool_decide_eq_true.
  vm_compute in H. done.
Qed.

Lemma text_step env e rs' cs' rs'' cs'' st : carries_text i e →
  rs = (rs' ++ event_texts i chunk_reasoning e) ++ rs'' → cs = (cs' ++ event_texts i chunk_content e) ++ cs'' →
  session g w i (live g history rs' cs') Receiving st →
  session g w i (live g history (rs' ++ event_texts i chunk_reasoning e) (cs' ++ event_texts i chunk_content e)) Receiving
    (step t env e st).
Proof.
  intros He Hrs Hcs (Hok & Hc & Hl). split; [by apply chat_step_ok|].
  destruct st as [c h], e; try done. destruct He as [-> (us & Hus & Hf)]. cbn [fst snd] in *.
  unfold event_texts in *. rewrite Nat.eqb_refl, Hus in *. cbn [step]. unfold on_message. cbn [fst snd].
  destruct (listening_phase c Hc) as (s & -> & ->). rewrite (text_not_done _ _ Hus), Hus.
  destruct (updates_live env us h rs' cs' rs'' cs'' Hf Hrs Hcs (ck_handler _ Hok) Hl) as (h' & -> & _ & Hl'). done.
Qed.

(** The events between the headers and the end of the stream. *)
Lemma stream_events es : ∀ rs' cs' rs'' cs'' st, Forall (λ e, quiet w i e.2 ∨ carries_text i e.2) es →
  rs = (rs' ++ texts i chunk_reasoning es) ++ rs'' → cs = (cs' ++ texts i chunk_content es) ++ cs'' →
  session g w i (live g history rs' cs') Receiving st →
  session g w i (live g history (rs' ++ texts i chunk_reasoning es) (cs' ++ texts i chunk_content es)) Receiving
    (run_events t es st).
Proof.
  induction es as [|[env e] es IH]; intros rs' cs' rs'' cs'' st Hes Hrs Hcs Hs.
  { unfold texts. cbn. by rewrite !app_nil_r. }
  apply Forall_cons in Hes as [He Hes]. unfold texts in Hrs, Hcs |- *. cbn [map snd] in *.
  change (mjoin (?x :: ?l)) with (x ++ mjoin l) in Hrs, Hcs |- *.
  fold (texts i chunk_reasoning es) in Hrs |- *. fold (texts i chunk_content es) in Hcs |- *.
  rewrite (app_assoc rs') in Hrs |- *. rewrite (app_assoc cs') in Hcs |- *.
  cbn [run_events foldl fst snd]. eapply IH; [done|exact Hrs|exact Hcs|].
  destruct He as [He|He].
  - assert (∀ want, event_texts i want e = []) as Hnone.
    { intros want. destruct e; try done. cbn in He |- *. by rewrite (proj2 (Nat.eqb_neq _ _) He). }
    rewrite !Hnone, !app_nil_r in *. eapply quiet_step; [|done|done].
    eapply live_closed; [rewrite Hrs, <- app_assoc|rewrite Hcs, <- app_assoc]; reflexivity.
  - eapply text_step; [done| | |done]; [rewrite Hrs, <- app_assoc|rewrite Hcs, <- app_assoc]; reflexivity.
Qed.

(** What the answer is in the end: that of a response with the same texts. *)
Definition answer : Reply := finish_reply (mjoin rs) (mkReply (mjoin cs) [] None).

Lemma finished_answer m : free_of open_tag (mjoin cs) ∨ (rs = [] ∧ think_reasoning (parseThinkTags (mjoin cs)) ≠ []) →
  streaming_message rs cs m → finish_reply [] (reply_of m) = answer.
Proof.
  intros Hcase (_ & Ht & Hth1 & Hth2). unfold answer, finish_reply. rewrite Ht. cbn [reply_text reply_thought]. f_equal.
  rewrite !or_nil_text. destruct Hcase as [Hfree|[Hrs Hp]].
  - by rewrite (Hth1 Hfree).
  - destruct (Hth2 Hrs) as [stale ->]. rewrite Hrs. cbn [mjoin list_join]. rewrite or_nil_text.
    unfold or_text. rewrite (str_eqb_nonnil _ Hp). cbv iota. by rewrite (str_eqb_nonnil _ Hp).
Qed.

Lemma done_step env st :
  free_of open_tag (mjoin cs) ∨ (rs = [] ∧ think_reasoning (parseThinkTags (mjoin cs)) ≠ []) →
  session g w i (live g history rs cs) Receiving st →
  session g w i (settled g history answer) Over (step t env (done_event i) st).
Proof.
  intros Hcase (Hok & Hc & Hl). split; [by apply chat_step_ok|]. destruct st as [c h]. cbn [fst snd] in *.
  unfold done_event. cbn [step]. unfold on_message. cbn [fst snd].
  destruct (listening_phase c Hc) as (s & Hlis & Hreq). rewrite Hlis, Hreq.
  change (isStreamDoneMessage STREAM_DONE_MESSAGE) with true. cbn iota. cbn [onComplete stream_callbacks].
  destruct Hc as (Hw & Hs & _). destruct (closed_active i c Hs) as (E1 & E2 & E3). split.
  { split; [|done]. cbn [fst]. by rewrite E2, E3. }
  cbn [snd]. pose proof Hl as (Hg & Hn & _). unfold handleStreamComplete. rewrite Hg, Nat.eqb_refl. cbn [negb].
  destruct (flush_live rs cs fresh_rs fresh_cs nonempty_rs nonempty_cs g history env h rs cs [] [])
    as ((Hg' & Hn' & _) & Hp' & Hshow); [by rewrite app_nil_r|by rewrite app_nil_r|apply Hok|done|].
  set (h1 := setIsRequesting false (flushStreamUpdates env g h)).
  destruct (update_same env (UComplete g) h1) as ([(Eg & _ & Eq) _] & _ & Ep).
  split_and!.
  - by rewrite Eg.
  - intros j x. rewrite Eq. apply Hn'.
  - by rewrite Ep.
  - eapply shown_update; [eapply (shown_set _ (flushStreamUpdates env g h)); [done..|exact Hshow]|].
    cbn [h1 requestGeneration setIsRequesting]. rewrite Hg'. intros now l (m & -> & Ha & Hm). cbn [run_update].
    rewrite Nat.eqb_refl, update_last by done. eexists. split; [done|].
    unfold finish_message. rewrite (proj1 Hm). unfold completeAssistantMessage.
    destruct (reply_completed now m []) as [Hr Hf]. split; [by rewrite (assistant_from _ _ Hf)|].
    rewrite Hr. by apply finished_answer.
Qed.
End Reply.

(** ** From the send to the headers *)

(** A replaced list is what it was replaced with, whatever is queued. *)
Lemma replaced_list env l h now g :
  run_all now g (updates (onMessageUpdate env (USet l) h)) (messages (onMessageUpdate env (USet l) h)) = l.
Proof.
  unfold onMessageUpdate. destruct (updates h) as [|u us]; [by destruct (eager env)|].
  cbn [set_messages updates messages]. by rewrite run_all_app.
Qed.

Section Start.
Context (t : jsstring → jsstring) (env : Env) (k : PairKeys) (text : jsstring) (config : PlaygroundConfig) (enabled : ParameterEnabled).

Definition sent_message : Message := createUserMessage (user_key k) (user_version k) text (now env).
Definition loading_message : Message := createLoadingAssistantMessage (reply_key k) (reply_version k) (now env).

Lemma loading_streaming : streaming_message [] [] loading_message.
Proof.
  split; [done|]. split; [done|]. split; [done|]. intros _. exists []. by vm_compute.
Qed.

Lemma send_session st : chat_ok st → stream config = true →
  session (requestGeneration st.2 + 1) (length (waits st.1)) (length (eventSources st.1))
    (live (requestGeneration st.2 + 1) (rendered st.2 ++ [sent_message]) [] []) Awaiting
    (step t env (Send k text config enabled) st).
Proof.
  intros Hok Hstream. split; [by apply chat_step_ok|]. destruct st as [c h]. cbn [fst snd step].
  unfold handleSendMessage, sendChat. rewrite Hstream. unfold sendStreamingChat. cbn [fst snd].
  destruct (supersede_ok false c (ck_controller _ Hok) eq_refl) as (_ & H2 & H3 & H4 & H5).
  set (next := appendUserMessagePair k (now env) (rendered h) text).
  destruct (update_same env (USet next) h) as ([(Hg & Ha & Hq) _] & _). rewrite Hg. split.
  - split.
    + cbn. intros v x [Hx|[-> _]]%lookup_snoc_Some Hne; [|by rewrite H4 in Hne].
      rewrite H4 in Hx. pose proof (waits_past _ (ck_controller _ Hok) _ _ Hx). cbn in *. lia.
    + cbn. split_and!; [done|done|]. eexists. rewrite lookup_app_r, H4, Nat.sub_diag by (by rewrite H4). done.
  - pose proof (replaced_list env next h) as Hnext.
    set (h0 := onMessageUpdate env (USet next) h) in *.
    assert (updates (discardPendingStreamUpdates (requestGeneration h + 1) (abort_current None (set_generation (requestGeneration h + 1) h0))) = updates h0
      ∧ messages (discardPendingStreamUpdates (requestGeneration h + 1) (abort_current None (set_generation (requestGeneration h + 1) h0))) = messages h0)
      as [Hu Hm] by (unfold discardPendingStreamUpdates, clear_timer; by destruct (streamFlushTimer _)).
    destruct (discard_same (requestGeneration h + 1) (abort_current None (set_generation (requestGeneration h + 1) h0)))
      as [(Eg & _ & Eq) _].
    set (h1 := discardPendingStreamUpdates _ _) in *.
    split; [exact Eg|]. split.
    + intros j r. cbn [requests setIsRequesting]. rewrite Eq. cbn [requests abort_current set_requests set_generation].
      intros (r0 & H0 & -> & _)%abort_request_lookup. cbn in H0. rewrite Hq in H0.
      pose proof (requests_past _ (ck_handler _ Hok) _ _ H0). cbn in *. lia.
    + exists [], [], [], []. split_and!; [done..|]. intros now'. unfold virtual. cbn [updates messages setIsRequesting].
      rewrite Hu, Hm, Hnext. exists loading_message. split_and!; [|done|apply loading_streaming].
      unfold next, appendUserMessagePair. by rewrite <- app_assoc.
Qed.

(** The headers of the request arrive. *)
Lemma headers_session env' g w i H st : handler_closed g H → session g w i H Awaiting st →
  session g w i H Receiving (step t env' (HeadersReady w) st).
Proof.
  intros _ (Hok & (Hw & Hs & Hl & payload & Hp) & Hh). split; [by apply chat_step_ok|].
  destruct st as [c h]. cbn [fst snd step] in *. split; [|done].
  unfold headers_ready, take_wait. rewrite Hp. cbn [mbind option_bind w_settled].
  cbn [w_generation generation set_waits]. rewrite Nat.eqb_refl. cbn [negb]. split.
  - cbn. intros v x (x0 & H0 & -> & _)%settled_wait. by apply Hw.
  - cbn. rewrite Hl. split; [done|]. eexists. rewrite lookup_app_r by lia. rewrite Hl, Nat.sub_diag. done.
Qed.
End Start.

Lemma texts_nonempty w i want es : Forall (λ e : Env * Event, quiet w i e.2 ∨ carries_text i e.2) es → nonempty_chunks (texts i want es).
Proof.
  induction es as [|[env e] es IH]; intros Hes; [constructor|]. apply Forall_cons in Hes as [He Hes].
  unfold texts. cbn [map]. change (mjoin (?x :: ?l)) with (x ++ mjoin l). apply Forall_app. split; [|by apply IH].
  destruct e; try (by constructor). cbn [event_texts snd] in *. destruct (i0 =? i) eqn:E; [|constructor].
  apply Nat.eqb_eq in E as ->. destruct He as [He|[_ (us & Hus & Hf)]]; [done|]. rewrite Hus.
  clear Hus. induction Hf as [|[type chunk] us (d & Hd & Hne) Hf IHf]; [constructor|]. cbn in Hd. subst chunk.
  unfold chunk_texts. cbn [map fst snd]. change (mjoin (?x :: ?l)) with (x ++ mjoin l). apply Forall_app.
  split; [|exact IHf]. destruct type, want; cbn; by repeat constructor.
Qed.

Lemma run_events_app t es fs st : run_events t (es ++ fs) st = run_events t fs (run_events t es st).
Proof. apply foldl_app. Qed.
Lemma run_events_cons t env e es st : run_events t ((env, e) :: es) st = run_events t es (step t env e st).
Proof. done. Qed.
