(* ===== verification/ChatTheorems.v ===== *)
(** * Properties of the playground chat *)

From S2P Require Import Prelude JsNumber JsText Types Runtime JsRegex JsValue ChatMessage ChatStream ChatHandler.
From S2P Require Import ChatMessageFacts ChatFacts ChatReplyFacts.

(** C5. A streamed reply is the reply of one response with the same texts: for
    any order of timers, renders and late reports of other requests, the list
    rendered at the end of the stream is the one shown at the send, the new
    question, and an answer whose text, reasoning and status are those the
    non-streaming path gives the joined chunks. The chunks are to be proper
    increments, and tagged reasoning is not to be mixed with reasoning chunks. *)
Theorem stream_equals_response (t : jsstring → jsstring) (stored : list Message) (st : Chat)
    (env env1 env2 env3 : Env) (k : PairKeys) (text : jsstring) (config : PlaygroundConfig) (enabled : ParameterEnabled)
    (before_ during_ after_ : list (Env * Event))
    (w := length (waits st.1)) (i := length (eventSources st.1))
    (rs := texts i chunk_reasoning during_) (cs := texts i chunk_content during_) :
  reachable t stored st → stream config = true →
  Forall (λ e, quiet w i e.2) before_ →
  Forall (λ e, quiet w i e.2 ∨ carries_text i e.2) during_ →
  Forall (λ e, quiet w i e.2) after_ →
  fresh_chunks rs → fresh_chunks cs →
  free_of open_tag (mjoin cs) ∨ (rs = [] ∧ think_reasoning (parseThinkTags (mjoin cs)) ≠ []) →
  ∃ m, rendered (run_events t ((env, Send k text config enabled) :: before_ ++ (env1, HeadersReady w) :: during_
                               ++ (env2, done_event i) :: after_ ++ [(env3, Render)]) st).2 =
         rendered st.2 ++ [sent_message env k text; m] ∧
    isAssistant m = true ∧
    ∀ now, reply_of m =
      reply_of (applyChatCompletionChoice now (loading_message env k) (mkChoice (Some (mjoin cs)) (Some (mjoin rs)))).
Proof.
  intros Hreach Hstream Hbefore Hduring Hafter Hfr Hfc Hcase.
  pose proof (texts_nonempty w i chunk_reasoning during_ Hduring) as Hnr.
  pose proof (texts_nonempty w i chunk_content during_ Hduring) as Hnc.
  pose proof (send_session t env k text config enabled st (chat_reachable t stored st Hreach) Hstream) as H0.
  set (g := requestGeneration st.2 + 1) in *. set (history := rendered st.2 ++ [sent_message env k text]) in *.
  pose proof (live_closed t rs cs Hfr Hfc Hnr Hnc g w i history [] [] rs cs eq_refl eq_refl) as Hclosed.
  apply (quiet_events t g w i _ Hclosed before_) in H0; [|done].
  apply (headers_session t env1 g w i) in H0; [|done].
  apply (stream_events t rs cs Hfr Hfc Hnr Hnc g w i history during_ [] [] [] []) in H0;
    [|done|by rewrite app_nil_r|by rewrite app_nil_r].
  apply (done_step t rs cs Hfr Hfc Hnr Hnc g w i history env2) in H0; [|done].
  apply (quiet_events t g w i _ (settled_closed g history _) after_) in H0; [|done].
  destruct H0 as (_ & _ & _ & _ & _ & Hshown). apply (shown_render _ (now env3)) in Hshown as [_ (m & Hm & Ha & Hr)].
  exists m. split; [|split; [done|]].
  - rewrite run_events_cons, run_events_app, run_events_cons, run_events_app, run_events_cons, run_events_app.
    etrans; [exact Hm|]. unfold history. by rewrite <- app_assoc.
  - intros now. rewrite Hr, reply_responded. done.
Qed.

(** *** Witness: two chunks with a flush between them, and reasoning. *)

(** Decides [fresh_chunks]. *)
Definition fresh_chunksb (ds : list jsstring) : bool :=
  let ns := seq 0 (S (length ds)) in
  forallb (λ i, forallb (λ lb, forallb (λ lc,
    (length ds <? i + (lb + lc)) || (lb =? 0) || (lc =? 0) || negb ((i =? 0) || (lc =? 1))
    || negb (starts_with (mjoin (take lb (drop i ds))) (mjoin (take lc (drop (i + lb) ds))))) ns) ns) ns.

Lemma fresh_chunksb_ok ds : fresh_chunksb ds = true → fresh_chunks ds.
Proof.
  intros H a b c d Hds Hb Hc Hcase. unfold fresh_chunksb in H.
  assert (length ds = length a + (length b + (length c + length d))) as Hl by (by rewrite Hds, !length_app).
  rewrite forallb_forall in H. specialize (H (length a) ltac:(apply in_seq; lia)).
  rewrite forallb_forall in H. specialize (H (length b) ltac:(apply in_seq; lia)).
  rewrite forallb_forall in H. specialize (H (length c) ltac:(apply in_seq; lia)).
  rewrite Hds in H. rewrite drop_app_length, take_app_length in H.
  replace (drop (length a + length b) (a ++ b ++ c ++ d)) with (c ++ d) in H
    by (by rewrite <- drop_drop, drop_app_length, drop_app_length).
  rewrite take_app_length in H.
  assert ((length (a ++ b ++ c ++ d) <? length a + (length b + length c)) = false) as E0
    by (apply Nat.ltb_ge; rewrite !length_app; lia).
  rewrite E0 in H. destruct (length b =? 0) eqn:E1; [apply Nat.eqb_eq, length_zero_iff_nil in E1; done|].
  destruct (length c =? 0) eqn:E2; [apply Nat.eqb_eq, length_zero_iff_nil in E2; done|].
  assert (((length a =? 0) || (length c =? 1)) = true) as E3.
  { destruct Hcase as [->|E]; [done|]. by rewrite E, orb_true_r. }
  rewrite E3 in H. cbn in H. by apply negb_true_iff in H.
Qed.

Definition quoted (s : String.string) : jsstring := [34%N] ++ js s ++ [34%N].
Definition delta_data (field text : String.string) : jsstring :=
  js "{" ++ quoted "choices" ++ js ":[{" ++ quoted "delta" ++ js ":{" ++ quoted field ++ js ":" ++ quoted text ++ js "}}]}".
Definition sample_config (streaming : bool) : PlaygroundConfig :=
  mkConfig (js "gpt-4o") (js "default") zero zero zero zero zero None streaming.
Definition sample_enabled : ParameterEnabled := mkEnabled false false false false false false.
Definition sample_keys : PairKeys := mkPairKeys (js "k1") (js "v1") (js "k2") (js "v2").
Definition lazy_env : Env := mkEnv zero false.
Definition no_translation (s : jsstring) : jsstring := s.
Definition sample_send : Env * Event := (lazy_env, Send sample_keys (js "Hi") (sample_config true) sample_enabled).

Definition sample_stream : list (Env * Event) :=
  [(lazy_env, SourceMessage 0 (delta_data "reasoning_content" "greet")); (lazy_env, SourceMessage 0 (delta_data "content" "Hel"));
   (lazy_env, TimerFires 0); (lazy_env, SourceMessage 0 (delta_data "content" "lo"))].

Lemma stream_equals_response_witness :
  ∃ m, rendered (run_events no_translation (sample_send :: [(lazy_env, Render)] ++ (lazy_env, HeadersReady 0) :: sample_stream
                   ++ (lazy_env, done_event 0) :: [] ++ [(lazy_env, Render)]) (initial_chat [])).2 =
         [] ++ [sent_message lazy_env sample_keys (js "Hi"); m] ∧
    isAssistant m = true ∧
    ∀ now, reply_of m =
      reply_of (applyChatCompletionChoice now (loading_message lazy_env sample_keys)
        (mkChoice (Some (mjoin (texts 0 chunk_content sample_stream))) (Some (mjoin (texts 0 chunk_reasoning sample_stream))))).
Proof.
  apply (stream_equals_response no_translation [] (initial_chat []) lazy_env lazy_env lazy_env lazy_env sample_keys (js "Hi")
    (sample_config true) sample_enabled [(lazy_env, Render)] sample_stream []).
  - constructor.
  - reflexivity.
  - by repeat constructor.
  - apply Forall_cons; split; [|apply Forall_cons; split; [|apply Forall_cons; split; [|apply Forall_cons; split; [|constructor]]]].
    + right. split; [done|]. eexists. split; [vm_compute; reflexivity|]. repeat constructor. by eexists.
    + right. split; [done|]. eexists. split; [vm_compute; reflexivity|]. repeat constructor. by eexists.
    + by left.
    + right. split; [done|]. eexists. split; [vm_compute; reflexivity|]. repeat constructor. by eexists.
  - constructor.
  - apply fresh_chunksb_ok. vm_compute. reflexivity.
  - apply fresh_chunksb_ok. vm_compute. reflexivity.
  - left. vm_compute. reflexivity.
Defined.

(** In every reachable state of the page at most one event source is open
    and streaming is shown exactly when one is; at most one flush timer is
    live, it belongs to the current request and it is there whenever a chunk
    is pending; and a request is shown as running only while something is
    under way that will end it. *)
Theorem chat_invariant (t : jsstring → jsstring) (stored : list Message) (c : Controller) (h : Handler) :
  reachable t stored (c, h) →
  (∀ i s, eventSources c !! i = Some s → closed s = false → source c = Some i ∧ s_generation s = generation c
    ∧ s_request s = requestGeneration h) ∧
  (isStreaming c = true ↔ ∃ i, source c = Some i) ∧
  (timers h = [] ∨ ∃ id, timers h = [(id, requestGeneration h)] ∧ streamFlushTimer h = Some id) ∧
  (p_content (pendingStreamChunks h) ≠ [] ∨ p_reasoning (pendingStreamChunks h) ≠ [] → timers h ≠ []) ∧
  (isRequesting h = true → in_flight (c, h)).
Proof.
  intros Hok%chat_reachable. pose proof (ck_controller _ Hok) as Hc. pose proof (ck_handler _ Hok) as Hh. cbn [fst snd] in *.
  split_and!.
  - intros i s Hs Hopen. destruct (decide (source c = Some i)) as [Hi|Hi].
    + destruct (active_open _ Hc i Hi) as (s' & Hs' & Hg & _). assert (s' = s) as -> by congruence.
      split_and!; [done..|]. by apply (source_linked _ Hok i).
    + by rewrite (others_closed _ Hc i s Hs Hi) in Hopen.
  - rewrite (streaming_active _ Hc). destruct (source c) as [i|]; [|by split; [|intros []]]. split; [by exists i|done].
  - rewrite (timer_live _ Hh). destruct (streamFlushTimer h) as [id|]; [right; by exists id|by left].
  - intros Hp Ht. pose proof (timer_live _ Hh) as Hl. rewrite Ht in Hl.
    destruct (streamFlushTimer h) eqn:E; [done|]. rewrite (pending_scheduled _ Hh E) in Hp. by destruct Hp.
  - apply (busy _ Hok).
Qed.

(** *** Witness: a chunk is pending. *)
Definition pending_run : Chat :=
  run_events no_translation [sample_send; (lazy_env, HeadersReady 0); (lazy_env, SourceMessage 0 (delta_data "content" "Hel"))]
    (initial_chat []).

Lemma chat_run_reachable t stored es st : reachable t stored st → reachable t stored (run_events t es st).
Proof. revert st. induction es as [|[env e] es IH]; intros st H; [done|]. cbn. apply IH. by constructor. Qed.

Lemma chat_invariant_witness :
  p_content (pendingStreamChunks pending_run.2) = js "Hel" ∧ timers pending_run.2 ≠ [].
Proof.
  split; [vm_compute; reflexivity|].
  destruct (chat_invariant no_translation [] pending_run.1 pending_run.2) as (_ & _ & _ & H & _).
  - rewrite <- surjective_pairing. apply chat_run_reachable. constructor.
  - apply H. left. vm_compute. discriminate.
Defined.

(** ** Superseded sources *)

(** An event of the network that is for the source [i]. *)
Definition source_event (i : nat) (e : Event) : Prop :=
  match e with
  | SourceMessage j _ | SourceError j _ _ | SourceState j _ _ | StreamThrows j => j = i
  | _ => False
  end.

Definition retired (i : nat) (c : Controller) : Prop := i < length (eventSources c) ∧ source c ≠ Some i.

Lemma retired_supersede i b c : retired i c → retired i (supersede b c).
Proof. intros [Hl Hs]. unfold supersede. destruct (source c); split; cbn; rewrite ?length_alter; done. Qed.

Lemma retired_close i j c : retired i c → retired i (closeActiveSource j (complete_source j c)).
Proof.
  intros [Hl Hs]. unfold closeActiveSource. cbn [close_source source set_sources complete_source].
  destruct (bool_decide _); split; cbn; rewrite ?length_alter; done.
Qed.

Lemma retired_error {S} (cb : nat → StreamRequestCallbacks S) i j m code st :
  retired i st.1 → retired i (handleError cb j m code st).1.
Proof.
  intros H. unfold handleError. destruct (listening j st.1); [|done].
  destruct (onError _ _ _ _) as [[e|] x]; [|by apply retired_close]. destruct H. by split; cbn; rewrite ?length_alter.
Qed.

Lemma retired_send i messages config enabled c h : retired i c → retired i (sendChat messages config enabled (c, h)).1.
Proof.
  intros H. unfold sendChat. destruct (stream config); cbn; [|by apply retired_supersede].
  apply (retired_supersede i false) in H. done.
Qed.

Lemma retired_step t env e i st : retired i st.1 → retired i (step t env e st).1.
Proof.
  destruct st as [c h]. cbn [fst]. intros H. destruct e; cbn [step fst snd].
  - by apply retired_send.
  - unfold handleRegenerateMessage. destruct (createRegeneratedMessages _ _ _ _ _); [by apply retired_send|done].
  - unfold applyEdit. destruct (applyMessageEdit _ _ _ _ _ _ _) as [[edited b]|]; [|done].
    destruct b; [by apply retired_send|done].
  - done.
  - done.
  - by apply retired_supersede.
  - unfold headers_ready. destruct (take_wait wait c) as [[w c']|] eqn:Ht; [|done].
    apply take_wait_Some in Ht as (_ & _ & ->). destruct (negb _); [done|]. destruct H as [Hl Hs].
    split; cbn; [rewrite length_app; lia|]. intros [= E]. lia.
  - unfold headers_failed. cbn [fst snd]. destruct (take_wait wait c) as [[w c']|] eqn:Ht; [|done].
    apply take_wait_Some in Ht as (_ & _ & ->). by destruct (negb _).
  - by apply retired_error.
  - unfold on_message. cbn [fst snd]. destruct (listening i0 c); [|done].
    destruct (isStreamDoneMessage data); [by apply retired_close|].
    destruct (parseStreamMessageUpdates data); [|by apply retired_error].
    destruct (run_updates _ _ _ _) as [[e|] x]; [by apply retired_error|done].
  - unfold on_error. cbn [fst]. destruct (listening i0 c); [|done].
    destruct (isStreamClosedReadyState _); [done|by apply retired_error].
  - unfold on_readystatechange. cbn [fst]. destruct (listening i0 c); [|done].
    destruct (getStreamReadyStateError _ _); [by apply retired_error|done].
  - done.
  - done.
  - done.
  - done.
Qed.

(** A source that is no longer the active one is never heard again: in no
    later state does an event of it change anything, neither the messages, nor
    what is pending, nor the sources. *)
Theorem superseded_source_silent (t : jsstring → jsstring) (st : Chat) (i : nat) (es : list (Env * Event))
    (env : Env) (e : Event) :
  i < length (eventSources st.1) → source st.1 ≠ Some i → source_event i e →
  step t env e (run_events t es st) = run_events t es st.
Proof.
  intros Hl Hs He. assert (retired i (run_events t es st).1) as [_ Hn].
  { assert (retired i st.1) as H by done. clear Hl Hs. revert st H.
    induction es as [|[env' e'] es IH]; intros st H; [done|]. cbn. by apply IH, retired_step. }
  destruct (run_events t es st) as [c h]. cbn [fst] in Hn. pose proof (not_listening _ _ Hn) as Hlis.
  destruct e; try done; cbn in He; subst; cbn [step];
    unfold stream_throws, handleError, on_message, on_error, on_readystatechange; cbn [fst]; by rewrite Hlis.
Qed.

(** *** Witness: the first reply is superseded by a second question. *)
Definition superseded_run : list (Env * Event) :=
  [sample_send; (lazy_env, HeadersReady 0); (lazy_env, Render);
   (lazy_env, Send sample_keys (js "Again") (sample_config true) sample_enabled)].
Lemma superseded_source_silent_witness :
  step no_translation lazy_env (SourceMessage 0 (delta_data "content" "stale"))
    (run_events no_translation [(lazy_env, HeadersReady 1); (lazy_env, Render)]
       (run_events no_translation superseded_run (initial_chat []))) =
  run_events no_translation [(lazy_env, HeadersReady 1); (lazy_env, Render)]
    (run_events no_translation superseded_run (initial_chat [])).
Proof.
  apply (superseded_source_silent no_translation _ 0); [vm_compute; lia|vm_compute; discriminate|reflexivity].
Defined.

(** ** Stop *)

(** Whatever is not a call of the user interface. *)
Definition network_event (e : Event) : Prop :=
  match e with
  | Send _ _ _ _ | Regenerate _ _ _ _ _ | Edit _ _ _ _ _ _ _ | Delete _ | Clear | Stop => False
  | _ => True
  end.

(** Nothing that is under way is still listened to. *)
Definition cut_off (st : Chat) : Prop :=
  source st.1 = None ∧ (∀ v x, waits st.1 !! v = Some x → w_generation x ≠ generation st.1) ∧
  no_request_of (requestGeneration st.2) st.2 ∧ timers st.2 = [].

(** What the user sees and what is still to be applied to it. *)
Definition same_view (st st' : Chat) : Prop :=
  messages st'.2 = messages st.2 ∧ updates st'.2 = updates st.2 ∧ rendered st'.2 = rendered st.2 ∧
  isGenerating st' = isGenerating st.

Lemma cut_off_wait c h v x c' : cut_off (c, h) → take_wait v c = Some (x, c') →
  (generation c' =? w_generation x) = false ∧ cut_off (c', h) ∧ same_view (c, h) (c', h).
Proof.
  intros (Hs & Hw & Hrest) (Hx & Hu & ->)%take_wait_Some. cbn [fst snd] in *. split.
  - cbn. apply Nat.eqb_neq. intros E. by apply (Hw v x).
  - split; [|done]. split_and!; [done| |apply Hrest..]. cbn. intros v' x' (x0 & H0 & -> & _)%settled_wait. by eapply Hw.
Qed.

Lemma cut_off_request c h i r h1 : cut_off (c, h) → take_request i h = Some (r, h1) →
  (aborted r || negb (requestGeneration h1 =? req_generation r)) = true ∧
  cut_off (c, request_finally (req_generation r) h1) ∧ same_view (c, h) (c, request_finally (req_generation r) h1).
Proof.
  intros (Hs & Hw & Hn & Hrest) (Hr & Hu & ->)%take_request_Some. cbn [fst snd] in *.
  pose proof (Hn _ _ Hr) as Hne. unfold request_finally. cbn [requestGeneration set_requests].
  assert ((requestGeneration h =? req_generation r) = false) as -> by (apply Nat.eqb_neq; congruence).
  split; [apply orb_true_r|]. split; [|done]. split_and!; [done|done| |apply Hrest].
  intros j x (x0 & H0 & -> & _)%settled_request. by eapply Hn.
Qed.

Lemma cut_off_step t env e st : network_event e → e ≠ Render → cut_off st →
  cut_off (step t env e st) ∧ same_view st (step t env e st).
Proof.
  intros He Hne Hc. destruct st as [c h]. pose proof Hc as (Hs & Hw & Hn & Ht). cbn [fst snd] in *.
  assert (∀ j, listening j c = None) as Hlis by (intros j; apply not_listening; by rewrite Hs).
  destruct e; try done; cbn [step fst snd];
    unfold stream_throws, handleError, on_message, on_error, on_readystatechange; cbn [fst]; rewrite ?Hlis; try done.
  - unfold headers_ready. destruct (take_wait wait c) as [[x c']|] eqn:E; [|done].
    destruct (cut_off_wait _ _ _ _ _ Hc E) as [-> ?]. done.
  - unfold headers_failed. cbn [fst snd]. destruct (take_wait wait c) as [[x c']|] eqn:E; [|done].
    destruct (cut_off_wait _ _ _ _ _ Hc E) as [-> ?]. done.
  - unfold timer_fires. by rewrite Ht.
  - unfold request_resolves. destruct (take_request i h) as [[r h1]|] eqn:E; [|done].
    destruct (cut_off_request _ _ _ _ _ Hc E) as [-> ?]. done.
  - unfold request_rejects. destruct (take_request i h) as [[r h1]|] eqn:E; [|done].
    destruct (cut_off_request _ _ _ _ _ Hc E) as [-> ?]. done.
Qed.

(** A page that is left is cut off: nothing reaches its messages any more. *)
Lemma unmount_cut_off st : chat_ok st → cut_off (unmount st).
Proof.
  intros Hok. destruct st as [c h]. pose proof (ck_controller _ Hok) as Hc. pose proof (ck_handler _ Hok) as Hh. cbn [fst snd] in *.
  unfold unmount, dispose, cancel. cbn [fst snd].
  assert (source (supersede (isStreaming c) c) = None ∧ generation (supersede (isStreaming c) c) = generation c + 1 ∧
    waits (supersede (isStreaming c) c) = waits c) as (E1 & E2 & E3) by (unfold supersede; by destruct (source c)).
  split_and!; cbn [fst snd]; [done| | |].
  - rewrite E2, E3. intros v x Hx. pose proof (waits_past _ Hc _ _ Hx). lia.
  - cbn. intros j r (r0 & H0 & -> & _)%abort_request_lookup. cbn in H0. pose proof (requests_past _ Hh _ _ H0). lia.
  - cbn. rewrite (timer_live _ Hh). destruct (streamFlushTimer h); [|done]. cbn. by rewrite Nat.eqb_refl.
Qed.

Lemma unmounted_silent t es st : chat_ok st → Forall (λ e, network_event e.2 ∧ e.2 ≠ Render) es →
  same_view (unmount st) (run_events t es (unmount st)).
Proof.
  intros Hc%unmount_cut_off Hes. generalize dependent (unmount st). clear st.
  induction Hes as [|[env e] es [He Hne] Hes IH]; intros st Hc; [done|]. cbn.
  destruct (cut_off_step t env e st He Hne Hc) as [Hc' (V1 & V2 & V3 & V4)].
  destruct (IH _ Hc') as (W1 & W2 & W3 & W4). by split_and!; etrans.
Qed.

(** Cut off, nothing queued, nothing shown as running, and the list is [l]. *)
Definition idle (l : list Message) (st : Chat) : Prop :=
  cut_off st ∧ isGenerating st = false ∧ messages st.2 = l ∧ updates st.2 = [] ∧ rendered st.2 = l.

Lemma idle_step t env e l st : network_event e → idle l st → idle l (step t env e st).
Proof.
  intros He (Hc & Hg & Hm & Hu & Hr). assert (e = Render ∨ e ≠ Render) as [->|Hne] by (destruct e; auto; by right).
  - cbn [step]. unfold render. rewrite Hu. cbn. by split_and!.
  - destruct (cut_off_step t env e st He Hne Hc) as [Hc' (V1 & V2 & V3 & V4)]. split_and!; [done|congruence..].
Qed.

Lemma stopped_message now m : isAssistantMessagePending (stop_message now m) = false.
Proof.
  unfold stop_message. destruct (isAssistantMessagePending m) eqn:E; [|done]. unfold completeAssistantMessage.
  destruct (reply_completed now m []) as [Hr _]. unfold isAssistantMessagePending.
  change (status ?x) with (reply_status (reply_of x)). by rewrite Hr.
Qed.

Definition ends_settled (l : list Message) : Prop := ∀ m, last l = Some m → isPendingAssistantMessage m = false.

Lemma stopped_list now l : ends_settled (updateLastAssistantMessage l (stop_message now)).
Proof.
  intros m. unfold updateLastAssistantMessage. destruct (last l) as [x|] eqn:Hl; [|by rewrite Hl].
  destruct (isAssistant x) eqn:Ha.
  - rewrite last_snoc. intros [= <-]. unfold isPendingAssistantMessage. by rewrite stopped_message, andb_false_r.
  - rewrite Hl. intros [= <-]. unfold isPendingAssistantMessage. by rewrite Ha.
Qed.

Lemma stopped_idle t env1 env2 st : chat_ok st →
  let st1 := step t env2 Render (step t env1 Stop st) in
  idle (rendered st1.2) st1 ∧ ends_settled (rendered st1.2).
Proof.
  intros Hok. destruct st as [c h]. cbn zeta. cbn [step]. unfold stopGeneration. cbn [fst snd].
  destruct (stopped_links c h Hok) as (Hs & Hg & Hc & Hw).
  destruct (flush_ok env1 (requestGeneration h) h (ck_handler _ Hok)) as [Hf [(Hg1 & _) _]].
  set (hf := flushStreamUpdates env1 (requestGeneration h) h) in *.
  destruct (discard_spec (requestGeneration h + 1) hf Hf) as (D1 & D2 & D3 & D4 & D5 & D6).
  set (hd := discardPendingStreamUpdates (requestGeneration h + 1) (set_generation (requestGeneration h + 1) hf)) in *.
  set (hs := setIsRequesting false (abort_current None hd)).
  set (u := UStop (requestGeneration h + 1)).
  destruct (update_shape env1 u hs) as (m & us & E).
  destruct (update_same env1 u hs) as ([(E1 & E2 & E3) E4] & _).
  assert (timers (onMessageUpdate env1 u hs) = []) as Et by (rewrite E; exact D4).
  split.
  - split; [split_and!; cbn [fst snd]; [done| | |exact Et]|split_and!; try done].
    + intros v x Hv. pose proof (Hw v x Hv). cbn [fst] in *. lia.
    + change (requestGeneration (render ?n ?x)) with (requestGeneration x).
      intros j r. change (requests (render ?n ?x)) with (requests x). rewrite E3, E1.
      cbn [hs requests setIsRequesting requestGeneration abort_current set_requests]. rewrite D1.
      intros (r0 & H0 & -> & _)%abort_request_lookup. rewrite D5 in H0.
      pose proof (requests_past _ Hf _ _ H0). lia.
    + unfold isGenerating. cbn [fst snd]. rewrite (streaming_active _ Hc), Hs. cbn [is_some orb].
      change (isRequesting (render ?n ?x)) with (isRequesting x). by rewrite E4.
  - assert (shown ends_settled (onMessageUpdate env1 u hs)) as Hshow.
    { eapply (shown_update (λ _, True)); [done|]. intros now' l _. cbn [run_update u].
      cbn [hs requestGeneration setIsRequesting abort_current set_requests]. rewrite D1, Nat.eqb_refl. apply stopped_list. }
    by apply (shown_render _ (now env2)) in Hshow as [_ ?].
Qed.

(** C33. Stopping is final: once the stop is rendered nothing is shown as
    running, the last answer is no longer pending, and whatever the network
    and the timers still deliver for earlier requests leaves the messages as
    they are. *)
Theorem stop_is_final (t : jsstring → jsstring) (stored : list Message) (st : Chat) (env1 env2 : Env)
    (es : list (Env * Event)) (stopped := step t env2 Render (step t env1 Stop st)) (later := run_events t es stopped) :
  reachable t stored st → Forall (λ e, network_event e.2) es →
  isGenerating later = false ∧ rendered later.2 = rendered stopped.2 ∧ messages later.2 = rendered stopped.2 ∧
  ∀ m, last (rendered later.2) = Some m → isPendingAssistantMessage m = false.
Proof.
  intros Hok%chat_reachable Hes. destruct (stopped_idle t env1 env2 st Hok) as [Hidle Hend]. fold stopped in Hidle, Hend.
  assert (idle (rendered stopped.2) later) as (_ & Hg & Hm & _ & Hr).
  { unfold later. clearbody stopped. clear -Hidle Hes. generalize dependent stopped. intros st Hi.
    assert (∀ l, idle l st → idle l (run_events t es st)) as H; [|by apply H]. clear Hi. revert st.
    induction Hes as [|[env e] es He Hes IH]; intros st l Hi; [done|]. cbn. apply IH. by apply idle_step. }
  split_and!; [done..|]. rewrite Hr. exact Hend.
Qed.

(** *** Witness: a stop while the first chunk is pending. *)
Lemma stop_is_final_witness :
  let stopped := step no_translation lazy_env Render (step no_translation lazy_env Stop pending_run) in
  let later := run_events no_translation [(lazy_env, SourceMessage 0 (delta_data "content" "lo")); (lazy_env, TimerFires 0); (lazy_env, Render)] stopped in
  isGenerating later = false ∧ rendered later.2 = rendered stopped.2 ∧ messages later.2 = rendered stopped.2 ∧
  ∀ m, last (rendered later.2) = Some m → isPendingAssistantMessage m = false.
Proof.
  apply (stop_is_final no_translation []); [apply chat_run_reachable; constructor|by repeat constructor].
Defined.

(** ** Where the code departs from its intent *)

Definition answer_texts (st : Chat) : list jsstring := map (λ m, reply_text (reply_of m)) (rendered st.2).
Definition reply_run (es : list (Env * Event)) : Chat :=
  run_events no_translation (sample_send :: (lazy_env, HeadersReady 0) :: es ++ [(lazy_env, Render)]) (initial_chat []).
Definition content_event (text : String.string) : Env * Event := (lazy_env, SourceMessage 0 (delta_data "content" text)).
Definition end_event : Env * Event := (lazy_env, done_event 0).

(** A chunk that repeats the text so far is taken for a snapshot of it: the
    reply 11 in two chunks is shown as 1. *)
Example repeated_chunk_lost :
  answer_texts (reply_run [content_event "1"; content_event "1"; end_event]) = [js "Hi"; js "1"].
Proof. vm_compute. reflexivity. Qed.

(** The same chunks with a flush after the first one, or without it. *)
Example flush_changes_text :
  answer_texts (reply_run [content_event "a"; content_event "b"; content_event "ab"; end_event]) = [js "Hi"; js "ab"] ∧
  answer_texts (reply_run [content_event "a"; (lazy_env, TimerFires 0); content_event "b"; content_event "ab"; end_event])
    = [js "Hi"; js "abab"].
Proof. split; vm_compute; reflexivity. Qed.

(** A stop drops the pending chunks unless React runs the updater at once. *)
Example stop_drops_chunks :
  answer_texts (reply_run [(lazy_env, Render); content_event "Hel"; (mkEnv zero false, Stop)]) = [js "Hi"; []] ∧
  answer_texts (reply_run [(lazy_env, Render); content_event "Hel"; (mkEnv zero true, Stop)]) = [js "Hi"; js "Hel"].
Proof. split; vm_compute; reflexivity. Qed.

(** An error report whose message is not a text: the exception leaves the
    source open, and the page keeps waiting for it. *)
Definition bad_error : jsstring := js "{" ++ quoted "error" ++ js ":{" ++ quoted "message" ++ js ":5}}".
Example bad_error_keeps_generating :
  isGenerating (reply_run [(lazy_env, SourceError 0 None bad_error); end_event]) = true.
Proof. vm_compute. reflexivity. Qed.

(** A closing tag cut by a flush stays behind as the thought of an answer that
    has none. *)
Example cut_tag_shown :
  map (λ m, (reply_text (reply_of m), reply_thought (reply_of m)))
    (rendered (reply_run [content_event "<think></thi"; (lazy_env, TimerFires 0); content_event "nk>Yes"; end_event]).2)
  = [(js "Hi", []); (js "Yes", js "</thi")] ∧
  think_reasoning (parseThinkTags (js "<think></think>Yes")) = [].
Proof. split; vm_compute; reflexivity. Qed.
