(* ===== verification/ChatStorage.v ===== *)
(** * features/playground/lib/storage

    The message list as it is stored and loaded: repeated sections collapsed,
    texts cut, stuck answers settled, old messages dropped. The schema check of
    zod and the JSON text of the list are not modelled: a stored list is the
    list the schema accepts. *)

From S2P Require Import Prelude JsNumber JsText Types Runtime JsRegex JsMap JsValue ChatMessage.
From S2P Require Import ChatMessageFacts.

Definition MAX_STORED_MESSAGES : nat := 100.
Definition MAX_LOADED_MESSAGES_CHARS : N := 120000.
Definition MAX_LOADED_MESSAGE_CHARS : N := 40000.
Definition MIN_PREFIX_COLLAPSE_LENGTH : N := 2000.
Definition MIN_REPEATED_SECTION_COUNT : nat := 3.
Definition TRUNCATED_CONTENT_SUFFIX : jsstring := [10; 10]%N ++ js "[...]".

(** [s.length]. *)
Definition size (s : jsstring) : N := N.of_nat (length s).

Definition trimMessages (messages : list Message) : list Message :=
  if length messages <=? MAX_STORED_MESSAGES then messages
  else drop (length messages - MAX_STORED_MESSAGES) messages.

Definition getMessageSize (m : Message) : N :=
  (foldl (λ total v, total + size (content v)) 0 (versions m) + size (default [] (r_content <$> reasoning m)))%N.

Definition truncateText (text : jsstring) (maxLength : N) : jsstring :=
  if (size text <=? maxLength)%N then text
  else if (maxLength <=? size TRUNCATED_CONTENT_SUFFIX)%N then take (N.to_nat maxLength) text
  else take (N.to_nat (maxLength - size TRUNCATED_CONTENT_SUFFIX)) text ++ TRUNCATED_CONTENT_SUFFIX.

(** ** Repeated sections *)

(** The heading pattern between the line anchors: two to six hashes, blanks, a
    number with a point, blanks, and the rest of the line. *)
Definition hash : regex := RUnit (N.eqb 35).
Definition blanks : regex := rplus (RUnit is_space).
Definition section_heading : regex :=
  rseq [hash; hash; roption hash; roption hash; roption hash; roption hash; blanks; rplus (RUnit is_digit);
        RUnit (N.eqb 46); blanks; rplus rdot].

Definition at_line_end (rest : jsstring) : bool := match rest with [] => true | c :: _ => is_line_end c end.
Definition match_heading (s : jsstring) : option jsstring :=
  caps ← rmatch section_heading s [] (λ rest caps, if at_line_end rest then Some ((0, rest) :: caps) else None);
  Some (take (length s - length (cap caps 0)) s).

Record SectionOccurrence := mkOccurrence { heading : jsstring; index : nat }.

(** [text.matchAll]: a match is tried at each line start outside of the last
    one; [skip] counts the units of that match still to pass. *)
Fixpoint occurrences_from (line_start : bool) (skip pos : nat) (s : jsstring) : list SectionOccurrence :=
  match s with
  | [] => []
  | c :: r =>
      match skip with
      | S skip => occurrences_from (is_line_end c) skip (pos + 1) r
      | O =>
          match (if line_start then match_heading s else None) with
          | Some h => mkOccurrence h pos :: occurrences_from (is_line_end c) (length h - 1) (pos + 1) r
          | None => occurrences_from (is_line_end c) 0 (pos + 1) r
          end
      end
  end.
Definition getSectionOccurrences (text : jsstring) : list SectionOccurrence := occurrences_from true 0 0 text.

Definition getHeadingCounts (occurrences : list SectionOccurrence) : list (jsstring * nat) :=
  foldl (λ counts o, mset counts (heading o) (default 0 (mget counts (heading o)) + 1)) [] occurrences.

(** The scan from the last occurrence back. *)
Fixpoint last_repeated (headingCounts : list (jsstring * nat)) (seen : list jsstring) (reversed : list SectionOccurrence)
    : list nat :=
  match reversed with
  | [] => []
  | o :: reversed =>
      if (default 0 (mget headingCounts (heading o)) <? MIN_REPEATED_SECTION_COUNT) || str_in (heading o) seen
      then last_repeated headingCounts seen reversed
      else index o :: last_repeated headingCounts (heading o :: seen) reversed
  end.

Definition findLastRepeatedSectionRunStart (text : jsstring) : option nat :=
  let occurrences := getSectionOccurrences text in
  match last_repeated (getHeadingCounts occurrences) [] (reverse occurrences) with
  | [] => None
  | i :: rest => Some (foldl Nat.min i rest)
  end.

Definition collapseRepeatedSectionSnapshots (text : jsstring) : jsstring :=
  if (size text <? MIN_PREFIX_COLLAPSE_LENGTH)%N then text
  else match findLastRepeatedSectionRunStart text with Some i => drop i text | None => text end.

(** ** Loading *)
Definition normalize_version (v : MessageVersion) : MessageVersion :=
  mkVersion (version_id v) (truncateText (collapseRepeatedSectionSnapshots (content v)) MAX_LOADED_MESSAGE_CHARS).
Definition normalize_texts (m : Message) : Message :=
  with_reasoning ((λ r, with_r_content (truncateText (r_content r) MAX_LOADED_MESSAGE_CHARS) r) <$> reasoning m)
    (with_versions (map normalize_version (versions m)) m).

Definition first_defined (l : list (option num)) (d : num) : num :=
  fold_right (λ o rest, default rest o) d l.

Definition normalizeStoredMessageForLoad (now : num) (m : Message) : Message :=
  let normalized := normalize_texts m in
  let hasReasoning := negb (trim (default [] (r_content <$> reasoning normalized)) =s []) in
  if negb (isAssistantMessagePending normalized) then normalized
  else if negb (hasMessageContent normalized) && negb hasReasoning then normalized
  else
    let completedAt_ := first_defined
      [completedAt normalized; reasoning normalized ≫= r_completedAt; startedAt normalized; createdAt normalized] now in
    completeAssistantTiming
      (with_reasoningStreaming false (with_status status_complete (finalizeMessage now normalized []))) completedAt_.

(** The loop from the newest message back; [result] is not reversed. *)
Fixpoint take_by_size (totalSize : N) (result reversed : list Message) : list Message :=
  match reversed with
  | [] => result
  | m :: reversed =>
      let messageSize := getMessageSize m in
      if (0 <? length result) && (MAX_LOADED_MESSAGES_CHARS <? totalSize + messageSize)%N then result
      else take_by_size (totalSize + messageSize) (result ++ [m]) reversed
  end.
Definition trimMessagesByContentSize (messages : list Message) : list Message :=
  reverse (take_by_size 0 [] (reverse messages)).

(** What [loadMessages] answers; the list is also written back, since
    [trimMessagesByContentSize] makes a new array each time. *)
Definition loadMessages (t : jsstring → jsstring) (now : num) (parsed : list Message) : list Message :=
  sanitizeMessagesOnLoad t now
    (trimMessagesByContentSize (trimMessages (map (normalizeStoredMessageForLoad now) parsed))).
Definition saveMessages (messages : list Message) : list Message := trimMessages messages.

(** * What is stored and loaded *)

Definition total_size (l : list Message) : N := foldr (λ m n, getMessageSize m + n)%N 0%N l.

Lemma total_size_app a b : total_size (a ++ b) = (total_size a + total_size b)%N.
Proof. induction a as [|m a IH]; [done|]. change (total_size (?x :: ?l)) with (getMessageSize x + total_size l)%N. cbn [app].
  change (total_size (?x :: ?l)) with (getMessageSize x + total_size l)%N. rewrite IH. lia. Qed.
Lemma total_size_one m : total_size [m] = getMessageSize m.
Proof. apply N.add_0_r. Qed.

(** ** Which messages are kept *)

(** The loop keeps a prefix of what it scans, within the limit unless it is one
    message. *)
Lemma take_by_size_spec reversed : ∀ total result,
  total = total_size result → length result ≤ 1 ∨ (total <= MAX_LOADED_MESSAGES_CHARS)%N →
  ∃ n, let kept := take_by_size total result reversed in
    kept = result ++ take n reversed ∧ (length kept ≤ 1 ∨ (total_size kept <= MAX_LOADED_MESSAGES_CHARS)%N) ∧
    (result = [] → reversed ≠ [] → kept ≠ []) ∧
    (∀ m, reversed !! n = Some m → kept ≠ [] ∧ (MAX_LOADED_MESSAGES_CHARS < total_size kept + getMessageSize m)%N).
Proof.
  induction reversed as [|m reversed IH]; intros total result Ht Hbound; cbn [take_by_size].
  - exists 0. cbn. rewrite app_nil_r. split_and!; [done|by subst|done|done].
  - destruct ((0 <? length result) && (MAX_LOADED_MESSAGES_CHARS <? total + getMessageSize m)%N) eqn:E.
    + apply andb_prop in E as [E1%Nat.ltb_lt E2%N.ltb_lt]. exists 0. cbn [take]. rewrite app_nil_r.
      assert (result ≠ []) as Hne by (intros ->; cbn in E1; lia).
      split_and!; [done|by subst|done|]. intros m' [= <-]. split; [done|by subst].
    + destruct (IH (total + getMessageSize m)%N (result ++ [m])) as (n & Hk & Hb & _ & Hnext).
      { rewrite total_size_app, total_size_one. by subst. }
      { apply andb_false_iff in E as [E%Nat.ltb_ge|E%N.ltb_ge]; [left; rewrite length_app; cbn; lia|by right]. }
      exists (S n). cbn zeta in *. cbn [take]. rewrite <- app_assoc in Hk. cbn [app] in Hk. split_and!; [exact Hk|exact Hb| |exact Hnext].
      intros _ _. rewrite Hk. by destruct result.
Qed.

Lemma trim_messages_suffix l : ∃ d, l = d ++ trimMessages l ∧ length (trimMessages l) ≤ MAX_STORED_MESSAGES ∧
  (d ≠ [] → length (trimMessages l) = MAX_STORED_MESSAGES).
Proof.
  unfold trimMessages. destruct (length l <=? MAX_STORED_MESSAGES) eqn:E.
  - apply Nat.leb_le in E. by exists [].
  - apply Nat.leb_gt in E. exists (take (length l - MAX_STORED_MESSAGES) l). rewrite take_drop, length_drop. split; [done|lia].
Qed.

Lemma content_trim_suffix l : let kept := trimMessagesByContentSize l in
  ∃ d, l = d ++ kept ∧ (length kept ≤ 1 ∨ (total_size kept <= MAX_LOADED_MESSAGES_CHARS)%N) ∧
    (l ≠ [] → kept ≠ []) ∧
    (∀ m, last d = Some m → (MAX_LOADED_MESSAGES_CHARS < total_size kept + getMessageSize m)%N).
Proof.
  cbn zeta. unfold trimMessagesByContentSize.
  destruct (take_by_size_spec (reverse l) 0 [] eq_refl) as (n & Hk & Hb & Hne & Hnext); [by left; cbn; lia|].
  cbn zeta in *. cbn [app] in Hk. set (kept := take_by_size 0 [] (reverse l)) in *.
  assert (∀ k, total_size (reverse k) = total_size k) as Hrev.
  { intros k. induction k as [|m k IH]; [done|]. rewrite reverse_cons, total_size_app, IH, total_size_one. apply N.add_comm. }
  exists (reverse (drop n (reverse l))). split_and!.
  - rewrite Hk, <- reverse_app, take_drop. by rewrite reverse_involutive.
  - by rewrite length_reverse, Hrev.
  - intros Hl Hkept. apply (Hne eq_refl).
    + intros E. apply Hl. by rewrite <- (reverse_involutive l), E.
    + by rewrite <- (reverse_involutive kept), Hkept.
  - intros m Hm. rewrite Hrev. rewrite last_reverse in Hm. rewrite head_lookup, lookup_drop, Nat.add_0_r in Hm.
    by apply Hnext.
Qed.

(** ** Lengths *)

Lemma join_length sep l : length (join sep l) + length sep ≤ length (mjoin l) + length sep * (length l) ∨ l = [].
Proof.
  induction l as [|x [|y l] IH]; [by right| |].
  - left. cbn. rewrite app_nil_r. lia.
  - left. destruct IH as [IH|]; [|done]. change (join sep (x :: y :: l)) with (x ++ sep ++ join sep (y :: l)).
    rewrite mjoin_cons, !length_app. change (length (x :: y :: l)) with (S (length (y :: l))).
    rewrite Nat.mul_succ_r. lia.
Qed.

Lemma sections_length secs : length (mjoin (map write_section secs)) =
  length (mjoin (map fst secs)) + length (mjoin (map snd secs)) + 15 * length secs.
Proof.
  induction secs as [|[r v] secs IH]; [done|]. cbn [map]. rewrite !mjoin_cons, !length_app, IH.
  unfold write_section. cbn [fst snd]. rewrite !length_app. change (length open_tag) with 7.
  change (length close_tag) with 8. cbn [length]. lia.
Qed.

(** Neither part of a text is longer than the text. *)
Lemma parse_length c : length (visibleContent (parseThinkTags c)) ≤ length c ∧
  length (think_reasoning (parseThinkTags c)) ≤ length c.
Proof.
  destruct (transcript_exists c) as (t & Hok & <-). rewrite (parse_transcript t Hok). destruct t as [v secs u].
  unfold transcript_parsed, write_transcript. cbn [before sections unclosed].
  assert (length (mjoin (map write_section secs)) = length (mjoin (map fst secs)) + length (mjoin (map snd secs)) + 15 * length secs)
    as Hsec by apply sections_length.
  assert (let p := mkParsed (trim (transcript_visible (mkTranscript v secs u)))
            (trim (join paragraph_break (transcript_reasoning (mkTranscript v secs u)))) (is_some u) in
    length (visibleContent p) ≤ length (v ++ mjoin (map write_section secs) ++ write_unclosed u) ∧
    length (think_reasoning p) ≤ length (v ++ mjoin (map write_section secs) ++ write_unclosed u)) as Hgoal.
  { cbn [visibleContent think_reasoning]. unfold transcript_visible, transcript_reasoning. cbn [before sections unclosed].
    rewrite !length_app, Hsec. split.
    - etrans; [apply trim_length|]. rewrite length_app. lia.
    - etrans; [apply trim_length|]. destruct (join_length paragraph_break (map fst secs ++ match u with Some r => [r] | None => [] end))
        as [H| ->]; [|cbn; lia].
      rewrite join_app, !length_app, length_map in H. change (length paragraph_break) with 2 in H.
      destruct u as [r|]; cbn [write_unclosed]; rewrite ?length_app; cbn in *; rewrite ?length_app in *; cbn in *; lia. }
  destruct secs, u; try exact Hgoal. cbn. rewrite app_nil_r. lia.
Qed.

Lemma truncate_size text n : (size (truncateText text n) <= n)%N.
Proof.
  unfold truncateText. destruct (size text <=? n)%N eqn:E; [by apply N.leb_le|].
  destruct (n <=? size TRUNCATED_CONTENT_SUFFIX)%N eqn:E2; unfold size in *.
  - rewrite length_take. lia.
  - apply N.leb_gt in E2. rewrite length_app, length_take.
    generalize dependent (length TRUNCATED_CONTENT_SUFFIX). intros s Hs. lia.
Qed.

(** A message none of whose texts exceeds the limit. *)
Definition texts_limited (m : Message) : Prop :=
  Forall (λ v, size (content v) <= MAX_LOADED_MESSAGE_CHARS)%N (versions m) ∧
  (size (default [] (r_content <$> reasoning m)) <= MAX_LOADED_MESSAGE_CHARS)%N.

Lemma normalize_texts_limited m : texts_limited (normalize_texts m).
Proof.
  split.
  - cbn. apply Forall_map, Forall_forall. intros v _. apply truncate_size.
  - cbn. destruct (reasoning m) as [r|]; [apply truncate_size|apply N.le_0_l].
Qed.

Lemma finalized_versions now m api : ∃ v, versions (finalizeMessage now m api) = [v] ∧
  content v = visibleContent (parseThinkTags (content (getCurrentVersion m))).
Proof.
  destruct (reply_finalized now m api) as (Ht & _ & _). unfold reply_of in Ht. cbn [reply_text] in Ht.
  assert (∃ v, versions (finalizeMessage now m api) = [v]) as [v Hv].
  { unfold finalizeMessage, completeReasoningTiming. cbn [reasoning with_reasoningStreaming with_reasoning].
    repeat case_match; cbn; by eexists. }
  exists v. split; [done|]. unfold getCurrentVersion in Ht at 1. by rewrite Hv in Ht.
Qed.

Lemma finalize_limited now m : texts_limited m → texts_limited (finalizeMessage now m []).
Proof.
  intros [Hv Hr]. assert (size (content (getCurrentVersion m)) <= MAX_LOADED_MESSAGE_CHARS)%N as Hc.
  { unfold getCurrentVersion. destruct (versions m) as [|v vs]; [apply N.le_0_l|]. by apply Forall_cons in Hv as [? _]. }
  destruct (parse_length (content (getCurrentVersion m))) as [H1 H2]. split.
  - destruct (finalized_versions now m []) as (v & -> & Hcv). constructor; [|constructor]. rewrite Hcv. unfold size in *. lia.
  - destruct (reply_finalized now m []) as (_ & Hth & _).
    change (default [] (r_content <$> reasoning ?x)) with (reply_thought (reply_of x)). rewrite Hth.
    unfold finish_reply. cbn [reply_thought reply_text]. rewrite or_nil_text. unfold or_text.
    destruct (_ =s []); [|exact Hr]. change (reply_text (reply_of m)) with (content (getCurrentVersion m)).
    unfold size in *. lia.
Qed.

Lemma assistant_timing_texts m n : texts_limited m → texts_limited (completeAssistantTiming m n).
Proof. unfold completeAssistantTiming. by destruct (isAssistant m). Qed.

Lemma normalized_limited now m : texts_limited (normalizeStoredMessageForLoad now m).
Proof.
  unfold normalizeStoredMessageForLoad. pose proof (normalize_texts_limited m) as H.
  destruct (negb _); [done|]. destruct (_ && _); [done|].
  apply assistant_timing_texts. exact (finalize_limited now _ H).
Qed.

(** ** The answer that is settled *)

Lemma last_pending_spec l : ∀ i found, match last_pending l i found with
  | Some j => found = Some j ∧ Forall (λ m, isPendingAssistantMessage m = false) l ∨
              ∃ k m, j = i + k ∧ l !! k = Some m ∧ isPendingAssistantMessage m = true ∧
                Forall (λ m, isPendingAssistantMessage m = false) (drop (S k) l)
  | None => found = None ∧ Forall (λ m, isPendingAssistantMessage m = false) l
  end.
Proof.
  induction l as [|m l IH]; intros i found; cbn [last_pending]; [by destruct found; [left|]|].
  specialize (IH (S i) (if isPendingAssistantMessage m then Some i else found)).
  destruct (isPendingAssistantMessage m) eqn:Hm; destruct (last_pending l (S i) _) as [j|].
  - right. destruct IH as [[[= <-] Hl]|(k & x & -> & Hk & Hx & Hl)].
    + exists 0, m. by rewrite Nat.add_0_r.
    + exists (S k), x. split_and!; [lia|done..].
  - by destruct IH.
  - destruct IH as [[-> Hl]|(k & x & -> & Hk & Hx & Hl)]; [left; by split; [|constructor]|].
    right. exists (S k), x. split_and!; [lia|done..].
  - destruct IH as [-> Hl]. split; [done|by constructor].
Qed.

Lemma sanitized_settled t now m : isPendingAssistantMessage (sanitized_message t now m) = false ∧
  isAssistantMessageFinal (sanitized_message t now m) = true.
Proof.
  assert (∀ m n, status (completeAssistantTiming m n) = status m) as Hst
    by (intros x n; unfold completeAssistantTiming; by destruct (isAssistant x)).
  assert (status (sanitized_message t now m) = Some status_complete ∨
          status (sanitized_message t now m) = Some status_error) as Hs.
  { unfold sanitized_message. destruct (hasMessageContent _ || _); rewrite Hst; auto. }
  unfold isPendingAssistantMessage, isAssistantMessagePending, isAssistantMessageFinal.
  destruct Hs as [-> | ->]; cbn; by rewrite andb_false_r.
Qed.

(** Loading keeps the newest stored messages, in order and without a gap:
    at most a hundred, of at most the character limit in all unless one message
    alone exceeds it, no text longer than the limit of a message, and no fewer
    than the limits require; the last answer that was cut off is settled, and
    every message after it is as it was. *)
Theorem load_bounded (t : jsstring → jsstring) (now : num) (parsed : list Message) :
  ∃ dropped kept, map (normalizeStoredMessageForLoad now) parsed = dropped ++ kept ∧
    length kept ≤ MAX_STORED_MESSAGES ∧
    (length kept ≤ 1 ∨ (total_size kept <= MAX_LOADED_MESSAGES_CHARS)%N) ∧
    Forall texts_limited kept ∧
    (∀ m, last dropped = Some m →
       length kept = MAX_STORED_MESSAGES ∨ (MAX_LOADED_MESSAGES_CHARS < total_size kept + getMessageSize m)%N) ∧
    (loadMessages t now parsed = kept ∧ Forall (λ m, isPendingAssistantMessage m = false) kept ∨
     ∃ older m newer, kept = older ++ m :: newer ∧ isPendingAssistantMessage m = true ∧
       Forall (λ m, isPendingAssistantMessage m = false) newer ∧
       isAssistantMessageFinal (sanitized_message t now m) = true ∧
       loadMessages t now parsed = older ++ sanitized_message t now m :: newer).
Proof.
  unfold loadMessages. set (normalized := map (normalizeStoredMessageForLoad now) parsed).
  destruct (trim_messages_suffix normalized) as (d1 & H1 & Hlen & Hfull).
  destruct (content_trim_suffix (trimMessages normalized)) as (d2 & H2 & Hsize & Hne & Hnext).
  set (trimmed := trimMessages normalized) in *. set (kept := trimMessagesByContentSize trimmed) in *.
  exists (d1 ++ d2), kept. split_and!.
  - by rewrite H1, H2, app_assoc.
  - rewrite H2, length_app in Hlen. lia.
  - exact Hsize.
  - assert (Forall texts_limited normalized) as Hall by (apply Forall_map, Forall_forall; intros m _; apply normalized_limited).
    rewrite H1, H2 in Hall. by apply Forall_app in Hall as [_ [_ ?]%Forall_app].
  - intros m Hm. destruct (decide (d2 = [])) as [->|Hd2].
    + left. rewrite app_nil_r in Hm. cbn [app] in H2. rewrite <- H2. apply Hfull. by intros ->.
    + right. apply Hnext. rewrite last_app in Hm. destruct (last d2) eqn:E; [done|]. by apply last_None in E.
  - unfold sanitizeMessagesOnLoad. pose proof (last_pending_spec kept 0 None) as Hp.
    destruct (last_pending kept 0 None) as [j|]; [|left; by destruct Hp].
    right. destruct Hp as [[[=] _]|(k & m & -> & Hk & Hm & Hnewer)].
    exists (take k kept), m, (drop (S k) kept). cbn [Nat.add]. split_and!; [by rewrite take_drop_middle|done|done|apply sanitized_settled|].
    rewrite <- (take_drop_middle kept k m Hk) at 1. apply lookup_lt_Some in Hk.
    rewrite alter_app_r_alt by (rewrite length_take; lia). rewrite length_take, Nat.min_l, Nat.sub_diag by lia. done.
Qed.

(** Collapsing is not done after one load: once the sections before the last
    run of one heading are gone, another heading is the repeated one. *)
Definition sample_section (title : String.string) : jsstring := js title ++ [10%N] ++ replicate 800 97%N ++ [10%N].
Example collapse_again :
  let a := sample_section "## 1. Plan" in let b := sample_section "## 2. Steps" in
  let text := a ++ a ++ a ++ b ++ b ++ b in
  collapseRepeatedSectionSnapshots text = a ++ b ++ b ++ b ∧
  collapseRepeatedSectionSnapshots (collapseRepeatedSectionSnapshots text) = b.
Proof. split; vm_compute; reflexivity. Qed.
